(* ===== verification/_CoqProject ===== *)
-Q . S2P
Prelude.v
GoRuntime.v
Utf8.v
HeapPage.v
TupleSerializer.v
Replacer.v
PageFile.v
BufferPool.v
PoolCalm.v
DirtyWriter.v
PageStore.v
Json.v
Lexer.v
Ast.v
Parser.v
CatalogModel.v
Semantic.v
CatalogManager.v
CatalogJournal.v
Eval.v
Planner.v
Optimizer.v
Storage.v
TableHeap.v
IndexPage.v
HashIndex.v
HashIndexProofs.v
HashIndexSpec.v
BTreeIndex.v
BTreeNode.v
BTreeTree.v
BTreeSearch.v
BTreeSplit.v
BTreeProofs.v
BTreeInsert.v
BTreeSpec.v
Protocol.v
IndexManager.v
Executors.v
SqlService.v
Database.v
DatabaseLaws.v
DatabaseInsert.v
DatabaseSelect.v
DatabaseRun.v
Server.v
Lifecycle.v
Cli.v
