(* ===== verification/Prelude.v ===== *)
(** * GopherDB: a verified model

    GopherDB is a small SQL database server in Go.  A client ([cmd/cli]) and
    the server ([cmd/server], [internal/server]) exchange JSON lines
    ([internal/protocol]); everything below is under [internal/core].  The text
    of a request goes through the lexer and the parser ([sql/lexer],
    [sql/parser], trees in [sql/ast]), the analyzer ([sql/semantic]), the
    planner and the optimizer ([planner], [optimizer]), and the Volcano
    executors ([execution]); [engine] strings this together.  Executors read
    and write tables ([storage]) and indexes ([index]) through a buffer pool
    ([memory/buffer], with the replacers of [memory/replacer] and the dirty-page
    writer of [memory/background]) over page files ([memory/manager]) of slotted
    pages ([memory/page]) that hold serialized tuples ([memory/serializer]).
    The catalog ([catalog]) describes tables, columns, types and indexes.

    ** The files, in dependency order

    - [Prelude] (this file): errors, outcomes of Go calls ([Ok], [Err],
      [Panic]), the state monad and its triples, slices, list lemmas.
    - [GoRuntime]: fixed-width integers, bytes, big-endian numbers, strings,
      dynamic values ([any]).  [Utf8]: runes, UTF-8, its round trip.
    - [HeapPage]: [memory/page/heap_page.go], byte for byte; [page_repr]
      relates a buffer to a list of records.
    - [TupleSerializer]: [memory/serializer], [memory/model/heap_tuple.go].
    - [Replacer]: [memory/replacer]; the class [Replacer] with its laws, and
      the LRU and clock replacers as instances.
    - [PageFile]: [memory/manager]; a file system whose system calls may fail,
      the class [PageFileManager] with its laws and its instance.
    - [BufferPool]: [memory/buffer/heap_buffer_pool_manager.go] and buffer
      slots, over any replacer and page file manager; [represents] relates a
      pool to a store of pages.  [PoolCalm]: the pool on a disk that does not
      fail, where its calls succeed as long as no page is pinned.
    - [DirtyWriter]: [memory/background] as a step relation of its goroutines,
      interleaved with the calls of clients.
    - [PageStore]: what the users of the pool do with a page: pointers to page
      objects, reading and writing in place, the size of files; [store_but]
      is a store of pages of which some are being changed.
    - [Json], [Protocol]: what is used of [encoding/json], and the requests,
      responses and codec of [internal/protocol] over it.
    - [Lexer], [Ast], [Parser]: [sql/lexer], [sql/ast] and [sql/parser], with
      a lexical grammar ([lexes]) and a context-free grammar ([GInput]).
    - [CatalogModel]: [catalog/model], the catalog records and their bytes.
    - [Semantic]: [sql/semantic/analyzer.go] over any [CatalogManager] (a
      class of catalog queries), with typing rules ([has_type]) and the
      specification [analyzes].
    - [CatalogManager], [CatalogJournal]: [catalog/manager] over the pool; the
      first has the operations and the invariant of the maps, the second shows
      that the catalog files are a journal from which the maps are recovered
      after any [session]: calls of the manager, calls of the other users of the
      pool on pages of their own files ([pool_work]), restarts.
    - [Eval]: the evaluator of [execution/executors/filter_executor.go];
      [truth] is the meaning of a predicate.
    - [Planner]: [planner], with the meaning [lrows] of a logical plan.
    - [Optimizer]: [optimizer] ([range.go], [extract.go],
      [default_optimizer.go]), with the meaning [prows] of a physical plan.
    - [Storage]: the interface of the executors to table heaps, indexes and
      catalog updates (class [Storage]), its contract ([StorageLaws]) and an
      instance held in lists; [DatabaseLaws] is the instance for the real one.
    - [TableHeap]: [storage/table_heap.go]; [table_in] relates the pages of a
      table to its rows; [InsertRow_session]: an insertion, also one that adds a
      page, is part of a session in the sense of [CatalogJournal].
    - [IndexPage]: what hash and BTree indexes share.  [HashIndex]: the
      operations of [index/disk_hash_index.go]; [HashIndexProofs] relates its
      pages to a linear hash table, [HashIndexSpec] states what it promises.
    - [BTreeIndex]: the operations of [index/disk_btree_index.go].  [BTreeNode]
      is about one node (its bytes, the binary searches), [BTreeTree] about
      trees of nodes and the pages that hold them, [BTreeSearch] and
      [BTreeSplit] about key intervals and splits, [BTreeProofs] about searches,
      [BTreeInsert] about insertion, [BTreeSpec] states the promises.
    - [IndexManager]: [index/index_manager.go], shared index objects behind
      pointers, and the contract that both kinds of index implement.
    - [Executors]: [execution], the executors, their factory and the engine.
    - [SqlService]: [engine], from a text to a result.
    - [Database]: the storage that the program really runs on, put together
      from the layers as [NewSqlService] and [main] do, and runs of the whole.
      [DatabaseLaws]: a table is [sound] when its pages hold rows and its
      indexes, open in the index manager, stand for them; on a disk that does
      not fail the database meets [StorageLaws].  [DatabaseSelect] and
      [DatabaseInsert] state what SELECT and INSERT do on it, [DatabaseRun]
      applies this to a database with an index.
    - [Server]: sessions and request processing of [internal/server].
      [Lifecycle]: [Start], [Stop] and the goroutines of the process as a step
      relation; clients that connect and failures of the network are steps of
      the environment, and [Accept] fails at once on a closed listener only.
    - [Cli]: [cmd/cli].

    ** How the model corresponds to the code

    A Go struct is a Record, a Go interface with several node types is an
    Inductive type with a constructor per node type, and an interface between
    components is a type class.  A function or method is a Definition or
    Fixpoint of the same name (in a Module named after the struct), returning
    [outcome]; a nil pointer is [None].  A method that changes its object
    takes and returns the state, and the state survives an error, as in Go.
    Where pointers are shared (buffer slots, page buffers, index objects) the
    store and the references are modelled.  Maps from reflected types to
    functions (the dispatch tables of the analyzer, planner, optimizer and
    factory) are pattern matchings.  A mutex makes a call one step; goroutines
    that share more than that are step relations ([DirtyWriter], [Lifecycle]).
    Strings from outside (session and request ids, texts of operating-system
    errors) are parameters.

    Fuel: the loops of the lexer, the parser, the JSON reader and a session
    have fuel computed from the input, and the theorems show that it is never
    used up ([Tokenize_correct], [Parse_correct], [parse_print],
    [session_answers]).  [Next] of a filter and the loop of [Execute] take fuel
    as an argument; [Execute_plan], [Execute_select] and [query_answered] show
    that from some fuel on the result is always the same and not the one of
    missing fuel.  The loops of the BTree get the number of pages of the index,
    which is enough ([BTree_search], [BTree_range], [BTree_insert]).

    ** What the theorems show

    - Text to tree: the lexer and the parser are exactly their grammars,
      terminate on every input, never panic, and locate their errors.
    - Analysis: a statement is accepted exactly when the rules accept it;
      expressions are typed by the rules; every refusal is a [SemanticError].
    - Queries: resolved predicates evaluate to their meaning; the ranges of
      the optimizer contain every row that satisfies the predicate; plans with
      index scans have the rows of the query; the executors return the rows of
      the plan; so does [SqlService.Execute] on the text of a SELECT, and so
      does the answer that a client decodes ([query_answered]).  All this is
      over any storage that meets its contract; the files, pool, catalog,
      heaps and indexes of the program meet it on a disk that does not fail,
      so that a SELECT on them always succeeds with exactly the rows on the
      pages ([database_select]).
    - Storage: pages refine lists of records, page files and the buffer pool
      refine a map from keys to pages under every pattern of disk errors, the
      replacers follow their policies, values and catalog records survive
      encoding and decoding; the background writer loses nothing and gets every
      page to disk.
    - Catalog and tables: the maps of the catalog agree and are recovered by a
      restart; rows are inserted and read back from their pages; an INSERT
      keeps a table and all its indexes in step ([insert_sound]).
    - Indexes: a hash index is a multimap and a BTree a sorted multimap, through
      splits and overflow; every pointer to an index sees the same one.
    - Client and server: documents on the wire are read back; a session answers
      each line once, in order, and ends; [Stop] keeps its order and the process
      ends; the client sends exactly the statements that are typed.
    - Behaviours that are probably not meant are theorems too:
      [added_row_not_durable], [committed_row_lost], [BTree_restart_reuses_page],
      [BTree_long_keys_panic], [exit_without_flush],
      [repl_sends_text], [int_cells_displayed], [table_aligned],
      [new_page_lost], [values_accept_any_token], [invalid_number_position],
      [serialize_invalid_utf8], [type_from_bytes_panics],
      [Read_directory_overrun_panics].

    ** What is not modelled, and why

    Flags, log messages, sockets and terminals (a connection is bytes in, bytes
    out, and faults; lines typed are an argument), the buffering of [bufio],
    timers (a tick may come at any time), and data races below the level of one
    access to a shared field.  [encoding/json] and [fmt] are modelled as far as
    the program uses them; numbers with a fraction, which the server never
    sends, are a parameter of the client.  Calls of the storage that write are
    not in the contract [StorageLaws], which is about reading; what they do is
    stated at their own level ([insert_sound], [InsertRow_refines],
    [Insert_adds], [BTree_insert], [shared_index], [catalog_recovers]).  The
    loops of a BTree that was opened again with an outdated page number get
    too little fuel from its manager; that state is the one of
    [BTree_restart_reuses_page], where the code has already lost pages, and no
    theorem about a whole index speaks of it. *)

From Stdlib Require Export ZArith Lia Ascii.
From stdpp Require Export base gmap strings list numbers pretty.

#[global] Open Scope Z_scope.

(** ** Errors

    One constructor per sentinel error of the Go packages (an error wrapped
    with [%w] keeps the sentinel it wraps; the formatted detail is dropped),
    the two structured SQL error types, and [Errorf] for the errors that carry
    a text only. *)
Inductive go_error : Type :=
  (* memory/page *)
  | ErrNilBuffer | ErrBadBufferSize | page_ErrInvalidSignature | ErrSlotIndex
  | ErrCorruptedPage | ErrNilData | ErrNoSpace
  (* memory/serializer *)
  | ErrNilType | ErrNilValue | ErrTupleDataNil | ErrUnsupportedType
  | ErrTypeMismatch | ErrVarcharTooLong | ErrBadInt64Size | ErrVarcharEmpty
  | ErrVarcharLenMis | ErrInvalidEncoding
  (* memory/manager *)
  | ErrInvalidPageID | manager_ErrInvalidSignature | ErrOutOfBounds
  (* memory/buffer *)
  | ErrPoolSize | ErrPageAlreadyInBuf | ErrNoVictim
  (* catalog *)
  | ErrNameRequired | ErrNameTooLong | ErrDataTooShort | ErrTypeRequired
  | ErrFileNodeRequired | ErrStringTooLong | ErrTableExists | ErrTableNotFound
  | ErrColumnNotFound | ErrIndexExists | ErrCorruptedFile
  (* index *)
  | ErrNotHashIndex | ErrBadMagic | ErrUnsupportedVersion | ErrRangeNotSupported
  | ErrNotBTreeIndex | ErrIndexNotLoaded
  (* execution *)
  | ErrNotOpen | ErrUnsupportedNode
  (* sql *)
  | SqlSyntaxError (message : string) (offset line column : nat)
  | SemanticError (message : string) (position : option (nat * nat * nat))
  (* fmt.Errorf without a sentinel, and errors of the operating system *)
  | Errorf (message : string)
  | OSError (operation : string).

(** ** Outcomes of Go calls

    A call returns a value, returns an error, or panics (index or slice out of
    range, failed type assertion, nil dereference). *)
Inductive outcome (A : Type) : Type :=
  | Ok (a : A)
  | Err (e : go_error)
  | Panic.
Arguments Ok {A} a.
Arguments Err {A} e.
Arguments Panic {A}.

Definition obind {A B} (x : outcome A) (k : A -> outcome B) : outcome B :=
  match x with
  | Ok a => k a
  | Err e => Err e
  | Panic => Panic
  end.

Definition ofmap {A B} (f : A -> B) (x : outcome A) : outcome B :=
  obind x (fun a => Ok (f a)).

(** [of_option]: a partial runtime primitive panics where it is undefined. *)
Definition of_option {A} (x : option A) : outcome A :=
  match x with Some a => Ok a | None => Panic end.

(** ** Stateful calls

    The state survives an error (Go mutates in place), so it is returned next
    to the outcome and not inside it. *)
Definition ST (S A : Type) : Type := S -> outcome A * S.

Definition sret {S A} (a : A) : ST S A := fun s => (Ok a, s).
Definition sfail {S A} (e : go_error) : ST S A := fun s => (Err e, s).
Definition spanic {S A} : ST S A := fun s => (Panic, s).
Definition sbind {S A B} (m : ST S A) (k : A -> ST S B) : ST S B :=
  fun s => match m s with
           | (Ok a, s') => k a s'
           | (Err e, s') => (Err e, s')
           | (Panic, s') => (Panic, s')
           end.
Definition sget {S} : ST S S := fun s => (Ok s, s).
Definition sput {S} (s : S) : ST S unit := fun _ => (Ok tt, s).
Definition smodify {S} (f : S -> S) : ST S unit := fun s => (Ok tt, f s).
Definition slift {S A} (x : outcome A) : ST S A := fun s => (x, s).

(** [v, err := m(); if err != nil { ... }] where the error is then ignored. *)
Definition catch {S A} (m : ST S A) : ST S (option A) := fun s =>
  match m s with
  | (Ok a, s') => (Ok (Some a), s')
  | (Err _, s') => (Ok None, s')
  | (Panic, s') => (Panic, s')
  end.

Declare Scope go_scope.
Delimit Scope go_scope with go.
Notation "'let!' x ':=' e 'in' k" := (obind e (fun x => k))
  (at level 10, x name, e at level 200, k at level 200) : go_scope.
Notation "'let!' ' p ':=' e 'in' k" := (obind e (fun x => match x with p => k end))
  (at level 10, p pattern, e at level 200, k at level 200) : go_scope.
Notation "x '<-' m ';;' k" := (sbind m (fun x => k))
  (at level 100, m at next level, right associativity) : go_scope.
Notation "m ';;;' k" := (sbind m (fun _ => k))
  (at level 100, right associativity) : go_scope.
#[global] Open Scope go_scope.

(** ** Automation *)

(** Split an existential or conjunctive hypothesis into its parts. *)
Ltac deconj :=
  repeat match goal with
         | H : _ /\ _ |- _ => destruct H
         | H : exists x, _ |- _ => let y := fresh x in destruct H as [y H]
         end.

(** Case analysis on the scrutinee of the outermost [obind] of a hypothesis. *)
Ltac outcome_step H :=
  match type of H with
  | obind ?x _ = _ =>
      let E := fresh "E" in destruct x eqn:E; cbn [obind] in H; try discriminate H
  end.

Ltac outcome_steps H := repeat outcome_step H.

(** Push [length] through the list operations, then decide. *)
Ltac len :=
  repeat rewrite ?length_app, ?length_take, ?length_drop, ?length_replicate,
    ?length_insert, ?length_map, ?length_fmap in *;
  autorewrite with go_length in *; cbn [length] in *; lia.

Create HintDb gopher discriminated.
Create Rewrite HintDb go_length.
#[export] Hint Resolve Nat2Z.is_nonneg : gopher.

Section outcome_facts.
Context {A B C : Type}.
Implicit Types x : outcome A.

Lemma obind_ok x (k : A -> outcome B) b :
  obind x k = Ok b <-> exists a, x = Ok a /\ k a = Ok b.
Proof. destruct x; cbn; naive_solver. Qed.

Lemma obind_err x (k : A -> outcome B) e :
  obind x k = Err e <-> x = Err e \/ exists a, x = Ok a /\ k a = Err e.
Proof. destruct x; cbn; naive_solver. Qed.

Lemma obind_assoc x (k : A -> outcome B) (h : B -> outcome C) :
  obind (obind x k) h = obind x (fun a => obind (k a) h).
Proof. by destruct x. Qed.
End outcome_facts.

(** Running a stateful call one step at a time. *)
Section state_facts.
Context {S A B : Type}.
Implicit Types (m : ST S A) (k : A -> ST S B) (s : S).

Lemma sbind_ok m k s a s' : m s = (Ok a, s') -> sbind m k s = k a s'.
Proof. intros E. unfold sbind. by rewrite E. Qed.

Lemma sbind_err m k s e s' : m s = (Err e, s') -> sbind m k s = (Err e, s').
Proof. intros E. unfold sbind. by rewrite E. Qed.

Lemma sbind_ok_inv m k s b s' :
  sbind m k s = (Ok b, s') -> exists a s1, m s = (Ok a, s1) /\ k a s1 = (Ok b, s').
Proof. unfold sbind. destruct (m s) as [[a|e|] s1]; naive_solver. Qed.
End state_facts.

(** [triple m s Q]: run from [s], [m] does not panic, and the outcome and the
    state it leaves satisfy [Q], whether it succeeds or fails. *)
Definition triple {S A} (m : ST S A) (s : S) (Q : outcome A -> S -> Prop) : Prop :=
  (m s).1 <> Panic /\ Q (m s).1 (m s).2.

Section triples.
Context {S A B : Type}.
Implicit Types (m : ST S A) (k : A -> ST S B) (s : S).

Lemma triple_bind m k s Q :
  triple m s (fun r s' => match r with
                          | Ok a => triple (k a) s' Q
                          | Err e => Q (Err e) s'
                          | Panic => True
                          end) ->
  triple (sbind m k) s Q.
Proof. unfold triple, sbind. destruct (m s) as [[a|e|] s']; cbn; naive_solver. Qed.

Lemma triple_mono m s (Q Q' : outcome A -> S -> Prop) :
  triple m s Q -> (forall r s', r <> Panic -> Q r s' -> Q' r s') -> triple m s Q'.
Proof. unfold triple. naive_solver. Qed.

Lemma triple_ret (a : A) s (Q : outcome A -> S -> Prop) : Q (Ok a) s -> triple (sret a) s Q.
Proof. done. Qed.

Lemma triple_fail e s (Q : outcome A -> S -> Prop) : Q (Err e) s -> triple (sfail e) s Q.
Proof. done. Qed.

Lemma triple_get s (Q : outcome S -> S -> Prop) : Q (Ok s) s -> triple sget s Q.
Proof. done. Qed.

Lemma triple_catch m s (Q : outcome (option A) -> S -> Prop) :
  triple m s (fun r s' => match r with Ok a => Q (Ok (Some a)) s' | _ => Q (Ok None) s' end) ->
  triple (catch m) s Q.
Proof. unfold triple, catch. destruct (m s) as [[a|e|] s']; cbn; naive_solver. Qed.

Lemma triple_modify f s (Q : outcome unit -> S -> Prop) : Q (Ok tt) (f s) -> triple (smodify f) s Q.
Proof. done. Qed.
End triples.

(** [post m s Q]: what holds after [m], whether it returns, fails or panics. *)
Definition post {S A} (m : ST S A) (s : S) (Q : outcome A -> S -> Prop) : Prop := Q (m s).1 (m s).2.

Section posts.
Context {S A B : Type}.

Lemma post_bind (m : ST S A) (k : A -> ST S B) s (Q : outcome B -> S -> Prop) :
  post m s (fun r s' => match r with
                        | Ok a => post (k a) s' Q
                        | Err e => Q (Err e) s'
                        | Panic => Q Panic s'
                        end) ->
  post (sbind m k) s Q.
Proof. unfold post, sbind. by destruct (m s) as [[a|e|] s']. Qed.

Lemma post_mono (m : ST S A) s (Q Q' : outcome A -> S -> Prop) :
  post m s Q -> (forall r s', Q r s' -> Q' r s') -> post m s Q'.
Proof. unfold post. auto. Qed.

Lemma triple_and_post (m : ST S A) s (Q Q' : outcome A -> S -> Prop) :
  triple m s Q -> post m s Q' -> triple m s (fun r s' => Q r s' /\ Q' r s').
Proof. unfold triple, post. naive_solver. Qed.

Lemma triple_post (m : ST S A) s Q : triple m s Q -> post m s Q.
Proof. intros [_ H]. exact H. Qed.

Lemma triple_run_state (m : ST S A) s (Q : outcome A -> S -> Prop) :
  triple m s Q -> triple m s (fun r s' => Q r s' /\ s' = (m s).2).
Proof. unfold triple. naive_solver. Qed.

Lemma triple_and (m : ST S A) s (Q Q' : outcome A -> S -> Prop) :
  triple m s Q -> triple m s Q' -> triple m s (fun r s' => Q r s' /\ Q' r s').
Proof. unfold triple. naive_solver. Qed.
End posts.

(** ** Lists as Go slices

    [sub pos n l] is the Go expression [l[pos:pos+n]] on a slice that is long
    enough; [splice pos bs l] is the slice after [copy(l[pos:], bs)] when [bs]
    fits. *)
Section slices.
Context {A : Type}.
Implicit Types l bs : list A.

Definition sub (pos n : nat) l : list A := take n (drop pos l).

Definition splice (pos : nat) bs l : list A :=
  take pos l ++ bs ++ drop (pos + length bs) l.

(** [l[lo:hi]], which panics out of range. *)
Definition go_slice l (lo hi : Z) : outcome (list A) :=
  if decide (0 <= lo <= hi /\ hi <= Z.of_nat (length l))
  then Ok (sub (Z.to_nat lo) (Z.to_nat (hi - lo)) l) else Panic.

(** [l[i]], which panics out of range. *)
Definition go_index l (i : Z) : outcome A :=
  if decide (0 <= i) then of_option (l !! Z.to_nat i) else Panic.

(** [copy(l[lo:lo+len(bs)], bs)], which panics when the slice expression is
    out of range. *)
Definition go_write l (lo : Z) bs : outcome (list A) :=
  if decide (0 <= lo /\ lo + Z.of_nat (length bs) <= Z.of_nat (length l))
  then Ok (splice (Z.to_nat lo) bs l) else Panic.

Lemma length_sub pos n l : (pos + n <= length l)%nat -> length (sub pos n l) = n.
Proof. unfold sub. len. Qed.

Lemma length_splice pos bs l :
  (pos + length bs <= length l)%nat -> length (splice pos bs l) = length l.
Proof. unfold splice. intros. len. Qed.

Lemma lookup_sub pos n l i : (i < n)%nat -> sub pos n l !! i = l !! (pos + i)%nat.
Proof. intros. unfold sub. by rewrite lookup_take_lt, lookup_drop by lia. Qed.

Lemma lookup_splice pos bs l i :
  (pos + length bs <= length l)%nat ->
  splice pos bs l !! i =
    if decide (pos <= i < pos + length bs)%nat then bs !! (i - pos)%nat else l !! i.
Proof.
  intros H. unfold splice. destruct (decide (i < pos)%nat) as [Hlt|Hge].
  { rewrite decide_False by lia. rewrite lookup_app_l by len.
    by rewrite lookup_take_lt. }
  rewrite lookup_app_r by len. rewrite length_take_le by lia.
  case_decide.
  - by rewrite lookup_app_l by lia.
  - rewrite lookup_app_r by lia. rewrite lookup_drop. f_equal. lia.
Qed.

(** Reading back what was written, and reading elsewhere. *)
Lemma sub_splice_same pos bs l n :
  n = length bs -> (pos + n <= length l)%nat -> sub pos n (splice pos bs l) = bs.
Proof.
  intros -> H. unfold sub, splice.
  rewrite drop_app_length' by len. by rewrite take_app_length.
Qed.

Lemma sub_splice_other pos n qos bs l :
  (qos + length bs <= length l)%nat ->
  (pos + n <= qos \/ qos + length bs <= pos)%nat ->
  sub pos n (splice qos bs l) = sub pos n l.
Proof.
  intros H Hd. apply list_eq. intros i. destruct (decide (i < n)%nat).
  - rewrite !lookup_sub, lookup_splice by lia. by rewrite decide_False by lia.
  - rewrite !lookup_ge_None_2; [done| |]; unfold sub; len.
Qed.

(** A read inside the written window sees the written slice. *)
Lemma sub_splice_inside pos n qos bs l :
  (qos + length bs <= length l)%nat ->
  (qos <= pos)%nat -> (pos + n <= qos + length bs)%nat ->
  sub pos n (splice qos bs l) = sub (pos - qos) n bs.
Proof.
  intros H H1 H2. apply list_eq. intros i. destruct (decide (i < n)%nat).
  - rewrite !lookup_sub, lookup_splice by lia. rewrite decide_True by lia.
    f_equal. lia.
  - rewrite !lookup_ge_None_2; [done| |]; unfold sub; len.
Qed.

(** [wrote l l' pos bs]: [l'] is [l] with [bs] written at [pos], as a frame
    condition: same length, the window reads [bs], every disjoint window
    reads as before. *)
Definition wrote l l' (pos : nat) bs : Prop :=
  length l' = length l /\ sub pos (length bs) l' = bs /\
  forall q n, (q + n <= pos \/ pos + length bs <= q)%nat -> sub q n l' = sub q n l.

Lemma splice_wrote pos bs l :
  (pos + length bs <= length l)%nat -> wrote l (splice pos bs l) pos bs.
Proof.
  intros H. split_and!; [by apply length_splice|by apply sub_splice_same|].
  intros q n Hd. by apply sub_splice_other.
Qed.

Lemma sub_full l : sub 0 (length l) l = l.
Proof. unfold sub. by rewrite drop_0, firstn_all. Qed.

Lemma sub_app_l pos n l1 l2 :
  (pos + n <= length l1)%nat -> sub pos n (l1 ++ l2) = sub pos n l1.
Proof.
  intros. apply list_eq. intros i. destruct (decide (i < n)%nat).
  - rewrite !lookup_sub by lia. by rewrite lookup_app_l by lia.
  - rewrite !lookup_ge_None_2; [done| |]; unfold sub; len.
Qed.

Lemma sub_app_r pos n l1 l2 :
  (length l1 <= pos)%nat -> sub pos n (l1 ++ l2) = sub (pos - length l1) n l2.
Proof. intros. unfold sub. by rewrite drop_app_ge. Qed.

Lemma sub_app_exact pos n l1 l2 l3 :
  pos = length l1 -> n = length l2 -> sub pos n (l1 ++ l2 ++ l3) = l2.
Proof. intros -> ->. unfold sub. by rewrite drop_app_length, take_app_length. Qed.

Lemma go_slice_ok l lo hi :
  0 <= lo <= hi -> hi <= Z.of_nat (length l) ->
  go_slice l lo hi = Ok (sub (Z.to_nat lo) (Z.to_nat (hi - lo)) l).
Proof. intros. unfold go_slice. by rewrite decide_True by lia. Qed.

Lemma go_write_ok l lo bs :
  0 <= lo -> lo + Z.of_nat (length bs) <= Z.of_nat (length l) ->
  go_write l lo bs = Ok (splice (Z.to_nat lo) bs l).
Proof. intros. unfold go_write. by rewrite decide_True by lia. Qed.

(** A write in range succeeds and does nothing else. *)
Lemma go_write_wrote l lo bs :
  0 <= lo -> lo + Z.of_nat (length bs) <= Z.of_nat (length l) ->
  exists l', go_write l lo bs = Ok l' /\ wrote l l' (Z.to_nat lo) bs.
Proof.
  intros. eexists. split; [by apply go_write_ok|]. apply splice_wrote. lia.
Qed.

Lemma go_write_inv l lo bs l' :
  go_write l lo bs = Ok l' ->
  0 <= lo /\ lo + Z.of_nat (length bs) <= Z.of_nat (length l) /\
  l' = splice (Z.to_nat lo) bs l.
Proof. unfold go_write. case_decide; naive_solver. Qed.

Lemma go_slice_inv l lo hi r :
  go_slice l lo hi = Ok r ->
  0 <= lo <= hi /\ hi <= Z.of_nat (length l) /\
  r = sub (Z.to_nat lo) (Z.to_nat (hi - lo)) l.
Proof. unfold go_slice. case_decide; naive_solver. Qed.
End slices.

(** ** Strings *)
Lemma string_app_nil_r s : (s +:+ "")%string = s.
Proof. induction s as [|c s IH]; [done|]. change (String c (s +:+ "") = String c s). by rewrite IH. Qed.

Lemma string_app_assoc s1 s2 s3 : (s1 +:+ (s2 +:+ s3))%string = ((s1 +:+ s2) +:+ s3)%string.
Proof.
  induction s1 as [|c s1 IH]; [done|].
  change (String c (s1 +:+ (s2 +:+ s3)) = String c ((s1 +:+ s2) +:+ s3)). by rewrite IH.
Qed.

(** ** Lists whose elements are told apart by a field *)
Section filters.
Context {A : Type} (P : A -> Prop) `{!forall x, Decision (P x)}.

Lemma filter_all (l : list A) : (forall x, x ∈ l -> P x) -> filter P l = l.
Proof.
  induction l as [|x l IH]; intros Hl; [done|].
  rewrite filter_cons_True by (apply Hl, elem_of_cons; by left).
  f_equal. apply IH. intros y Hy. apply Hl, elem_of_cons. by right.
Qed.

Lemma filter_none (l : list A) : (forall x, x ∈ l -> ~ P x) -> filter P l = [].
Proof.
  induction l as [|x l IH]; intros Hl; [done|].
  rewrite filter_cons_False by (apply Hl, elem_of_cons; by left).
  apply IH. intros y Hy. apply Hl, elem_of_cons. by right.
Qed.

(** A filter that keeps what a later filter keeps has no effect on it. *)
Lemma filter_pre (Q : A -> Prop) `{!forall x, Decision (Q x)} (l : list A) :
  (forall x, x ∈ l -> P x -> Q x) -> filter P (filter Q l) = filter P l.
Proof.
  induction l as [|x l IH]; intros HQ; [done|]. rewrite (filter_cons Q).
  assert (IH' : filter P (filter Q l) = filter P l) by (apply IH; set_solver).
  destruct (decide (Q x)) as [Hx|Hx]; rewrite !(filter_cons P), ?IH'; [done|].
  destruct (decide (P x)) as [Hp|]; [|done]. destruct Hx. apply HQ; set_solver.
Qed.

Lemma fmap_filter {B} (f : A -> B) (Q : B -> Prop) `{!forall b, Decision (Q b)} (l : list A) :
  (forall x, Q (f x) <-> P x) -> f <$> filter P l = filter Q (f <$> l).
Proof.
  intros HPQ. induction l as [|x l IH]; [done|]. rewrite fmap_cons. destruct (decide (P x)).
  - rewrite !filter_cons_True by naive_solver. by rewrite fmap_cons, IH.
  - rewrite !filter_cons_False by naive_solver. done.
Qed.
End filters.

Section distinct.
Context {A B : Type} `{!EqDecision B} (f : A -> B).
Implicit Types l : list A.

Lemma distinct_eq l x y : NoDup (f <$> l) -> x ∈ l -> y ∈ l -> f x = f y -> x = y.
Proof.
  intros Hnd Hx Hy Hf. apply list_elem_of_lookup in Hx as [i Hi].
  apply list_elem_of_lookup in Hy as [j Hj].
  assert (i = j) as ->; [|congruence].
  eapply NoDup_lookup; [exact Hnd| |]; rewrite list_lookup_fmap; [by rewrite Hi|].
  rewrite Hj. cbn. by rewrite Hf.
Qed.

(** Deleting the element found at an index is filtering its field out. *)
Lemma delete_filter l i x :
  NoDup (f <$> l) -> l !! i = Some x ->
  delete i l = filter (fun y => f y <> f x) l.
Proof.
  revert i. induction l as [|y l IH]; intros i Hnd Hi; [done|].
  rewrite fmap_cons in Hnd. apply NoDup_cons in Hnd as [Hy Hnd].
  rewrite list_elem_of_fmap in Hy. destruct i as [|i]; cbn in Hi.
  - injection Hi as ->. rewrite filter_cons_False by naive_solver.
    symmetry. apply filter_all. intros z Hz Heq. apply Hy. eauto.
  - apply list_elem_of_lookup_2 in Hi as Hin. rewrite filter_cons_True.
    + change (delete (S i) (y :: l)) with (y :: delete i l). f_equal. by apply IH.
    + intros Heq. apply Hy. eauto.
Qed.

(** Keeping only one field value keeps that one element. *)
Lemma filter_field l x :
  NoDup (f <$> l) -> x ∈ l -> filter (fun y => f y = f x) l = [x].
Proof.
  induction l as [|y l IH]; intros Hnd Hx; [by apply not_elem_of_nil in Hx|].
  rewrite fmap_cons in Hnd. apply NoDup_cons in Hnd as [Hy Hnd].
  rewrite list_elem_of_fmap in Hy. apply elem_of_cons in Hx as [->|Hx].
  - rewrite filter_cons_True by done. f_equal.
    apply filter_none. intros z Hz Heq. apply Hy. eauto.
  - rewrite filter_cons_False; [by apply IH|]. intros Heq. apply Hy. eauto.
Qed.


Lemma NoDup_fmap_filter l (P : A -> Prop) `{!forall a, Decision (P a)} :
  NoDup (f <$> l) -> NoDup (f <$> filter P l).
Proof.
  induction l as [|y l IH]; intros Hnd; [done|].
  rewrite fmap_cons in Hnd. apply NoDup_cons in Hnd as [Hy Hnd].
  destruct (decide (P y)).
  - rewrite filter_cons_True by done. rewrite fmap_cons. apply NoDup_cons.
    split; [|by apply IH]. rewrite list_elem_of_fmap in *. intros (z & Hz & Hin).
    apply Hy. exists z. split; [done|]. by apply list_elem_of_filter in Hin as [_ Hin].
  - rewrite filter_cons_False by done. by apply IH.
Qed.
End distinct.

Section assoc.
Context {K V : Type} `{Countable K}.

Lemma list_to_map_filter (l : list (K * V)) k :
  (list_to_map (filter (fun p => p.1 <> k) l) : gmap K V) = delete k (list_to_map l).
Proof.
  induction l as [|[k' v] l IH]; [cbn; by rewrite delete_empty|].
  destruct (decide (k' = k)) as [->|Hne].
  - rewrite filter_cons_False by naive_solver. cbn. by rewrite delete_insert_eq.
  - rewrite filter_cons_True by done. cbn. rewrite IH. by rewrite delete_insert_ne.
Qed.
End assoc.
