(* ===== verification/GoRuntime.v ===== *)
(** * GoRuntime: what the program uses of the Go language and its library

    Fixed-width integers and their conversions, bytes, [encoding/binary]
    big-endian fields, byte strings and their order, and UTF-8
    ([unicode/utf8], [[]rune(s)], [range] over a string,
    [strings.Builder.WriteRune]).  Nothing here is code of the repository;
    the other files translate their sources on top of it. *)

From S2P Require Import Prelude.

(** ** Fixed-width integers

    A Go [uintN] or [intN] is a [Z] in range; conversions wrap around. *)
Definition uint (w : Z) (z : Z) : Z := z mod 2 ^ w.
Definition sint (w : Z) (z : Z) : Z := (z + 2 ^ (w - 1)) mod 2 ^ w - 2 ^ (w - 1).

Abbreviation uint8 := (uint 8).
Abbreviation uint16 := (uint 16).
Abbreviation uint32 := (uint 32).
Abbreviation uint64 := (uint 64).
Abbreviation int16 := (sint 16).
Abbreviation int32 := (sint 32).
Abbreviation int64 := (sint 64).

Definition in_uint (w z : Z) : Prop := 0 <= z < 2 ^ w.
Definition in_sint (w z : Z) : Prop := - 2 ^ (w - 1) <= z < 2 ^ (w - 1).

#[export] Instance in_uint_dec w z : Decision (in_uint w z).
Proof. unfold in_uint. apply _. Defined.
#[export] Instance in_sint_dec w z : Decision (in_sint w z).
Proof. unfold in_sint. apply _. Defined.

Section width.
Context (w : Z) (Hw : 0 < w).

Lemma pow_split : 2 ^ w = 2 * 2 ^ (w - 1).
Proof using Hw. rewrite <- Z.pow_succ_r by lia. f_equal. lia. Qed.

Lemma pow_half_pos : 0 < 2 ^ (w - 1).
Proof using Hw. apply Z.pow_pos_nonneg; lia. Qed.

Lemma uint_range z : in_uint w (uint w z).
Proof using Hw.
  pose proof pow_half_pos. pose proof pow_split. apply Z.mod_pos_bound. lia.
Qed.

Lemma sint_range z : in_sint w (sint w z).
Proof using Hw.
  pose proof pow_half_pos. pose proof pow_split. unfold in_sint, sint.
  pose proof (Z.mod_pos_bound (z + 2 ^ (w - 1)) (2 ^ w)). lia.
Qed.

Lemma uint_id z : in_uint w z -> uint w z = z.
Proof using. intros. by apply Z.mod_small. Qed.

Lemma sint_id z : in_sint w z -> sint w z = z.
Proof using Hw.
  intros H. unfold in_sint in H. unfold sint. pose proof pow_half_pos.
  pose proof pow_split. rewrite Z.mod_small; lia.
Qed.

(** Converting to the unsigned type and back is the identity on the signed
    type, in Go as here. *)
Lemma sint_uint z : sint w (uint w z) = sint w z.
Proof using Hw.
  pose proof pow_half_pos. pose proof pow_split.
  unfold sint, uint. by rewrite Zplus_mod_idemp_l.
Qed.

Lemma uint_sint z : uint w (sint w z) = uint w z.
Proof using Hw.
  pose proof pow_half_pos. pose proof pow_split. unfold sint, uint.
  rewrite Zminus_mod_idemp_l. f_equal. lia.
Qed.
End width.

(** ** Bytes *)
Abbreviation byte := ascii.

Definition u8 (b : byte) : Z := Z.of_N (N_of_ascii b).
Definition byte_of (z : Z) : byte := ascii_of_N (Z.to_N (z mod 256)).

Lemma u8_range b : 0 <= u8 b < 256.
Proof. unfold u8. pose proof (N_ascii_bounded b). lia. Qed.

Lemma u8_byte_of z : u8 (byte_of z) = z mod 256.
Proof.
  unfold u8, byte_of. pose proof (Z.mod_pos_bound z 256).
  rewrite N_ascii_embedding by lia. lia.
Qed.

Lemma byte_of_u8 b : byte_of (u8 b) = b.
Proof.
  unfold u8, byte_of. pose proof (N_ascii_bounded b).
  rewrite Z.mod_small, N2Z.id by lia. apply ascii_N_embedding.
Qed.

Lemma u8_inj a b : u8 a = u8 b -> a = b.
Proof. intros H. by rewrite <- (byte_of_u8 a), H, byte_of_u8. Qed.

Lemma byte_of_congr x y : x mod 256 = y mod 256 -> byte_of x = byte_of y.
Proof. unfold byte_of. by intros ->. Qed.

(** ** Big-endian fields ([binary.BigEndian]) *)

(** [PutUintN(buf, v)] for an [n]-byte field: the bytes it stores. *)
Fixpoint be_bytes (n : nat) (v : Z) : list byte :=
  match n with
  | O => []
  | S m => byte_of (v / 256 ^ Z.of_nat m) :: be_bytes m v
  end.

(** [UintN(buf)]: the value of a field. *)
Definition be_value (l : list byte) : Z :=
  fold_left (fun acc b => acc * 256 + u8 b) l 0.

Lemma length_be_bytes n v : length (be_bytes n v) = n.
Proof. induction n; cbn; auto. Qed.
#[export] Hint Rewrite length_be_bytes : go_length.

Lemma be_value_acc l a :
  fold_left (fun acc b => acc * 256 + u8 b) l a
  = a * 256 ^ Z.of_nat (length l) + be_value l.
Proof.
  unfold be_value. revert a. induction l as [|b l IH]; intros a; cbn [fold_left length].
  - cbn. lia.
  - rewrite IH, (IH (0 * 256 + u8 b)).
    rewrite Nat2Z.inj_succ, Z.pow_succ_r by lia. lia.
Qed.

Lemma be_value_cons b l :
  be_value (b :: l) = u8 b * 256 ^ Z.of_nat (length l) + be_value l.
Proof. unfold be_value at 1. cbn [fold_left]. rewrite be_value_acc. lia. Qed.

Lemma be_value_range l : 0 <= be_value l < 256 ^ Z.of_nat (length l).
Proof.
  induction l as [|b l IH]; [cbn; lia|].
  rewrite be_value_cons. cbn [length]. rewrite Nat2Z.inj_succ, Z.pow_succ_r by lia.
  pose proof (u8_range b). nia.
Qed.

Lemma be_value_bytes n v : be_value (be_bytes n v) = v mod 256 ^ Z.of_nat n.
Proof.
  induction n as [|n IH]; [by rewrite Z.mod_1_r|].
  cbn [be_bytes]. rewrite be_value_cons, length_be_bytes, IH, u8_byte_of.
  rewrite Nat2Z.inj_succ, Z.pow_succ_r by lia.
  assert (0 < 256 ^ Z.of_nat n) by (apply Z.pow_pos_nonneg; lia).
  rewrite (Z.mul_comm 256), Z.rem_mul_r by lia. lia.
Qed.

Lemma be_bytes_congr n v w :
  v mod 256 ^ Z.of_nat n = w mod 256 ^ Z.of_nat n -> be_bytes n v = be_bytes n w.
Proof.
  intros H. assert (Hn : forall m u, (m <= n)%nat ->
    be_bytes m u = be_bytes m (u mod 256 ^ Z.of_nat n)).
  { induction m as [|m IHm]; intros u Hm; [done|]. cbn [be_bytes].
    rewrite IHm by lia. f_equal. apply byte_of_congr.
    assert (0 < 256 ^ Z.of_nat m) by (apply Z.pow_pos_nonneg; lia).
    replace (256 ^ Z.of_nat n)
      with (256 ^ Z.of_nat m * (256 * 256 ^ Z.of_nat (n - S m))).
    2:{ rewrite <- Z.pow_succ_r, <- Z.pow_add_r by lia. f_equal. lia. }
    assert (0 < 256 ^ Z.of_nat (n - S m)) by (apply Z.pow_pos_nonneg; lia).
    rewrite Z.rem_mul_r by lia. rewrite (Z.mul_comm (256 ^ Z.of_nat m)), Z.div_add by lia.
    rewrite (Z.div_small (u mod _)) by (apply Z.mod_pos_bound; lia).
    rewrite Z.add_0_l, Z.rem_mul_r by lia.
    rewrite (Z.mul_comm 256 (_ mod _)), Z.mod_add by lia. by rewrite Z.mod_mod. }
  by rewrite (Hn n v), (Hn n w), H.
Qed.

Lemma be_bytes_value l : be_bytes (length l) (be_value l) = l.
Proof.
  induction l as [|b l IH]; [done|]. cbn [length be_bytes].
  rewrite be_value_cons. pose proof (be_value_range l).
  assert (0 < 256 ^ Z.of_nat (length l)) by (apply Z.pow_pos_nonneg; lia).
  f_equal.
  - rewrite Z.div_add_l, Z.div_small, Z.add_0_r by lia. apply byte_of_u8.
  - etransitivity; [|exact IH]. apply be_bytes_congr.
    by rewrite Z.add_comm, Z.mod_add by lia.
Qed.

Lemma be_value_uint n w v :
  w = 8 * Z.of_nat n -> be_value (be_bytes n v) = uint w v.
Proof.
  intros ->. rewrite be_value_bytes. unfold uint.
  by rewrite Z.pow_mul_r by lia.
Qed.

(** A field written into a buffer and read at the same place. *)
Lemma be_value_id n v :
  0 <= v < 256 ^ Z.of_nat n -> be_value (be_bytes n v) = v.
Proof. intros. rewrite be_value_bytes. by apply Z.mod_small. Qed.

(** The big-endian field of [n] bytes at offset [pos] of a buffer. *)
Definition field (n pos : nat) (l : list byte) : Z := be_value (sub pos n l).

Lemma field_range n pos l :
  (pos + n <= length l)%nat -> 0 <= field n pos l < 256 ^ Z.of_nat n.
Proof.
  intros H. unfold field. pose proof (be_value_range (sub pos n l)) as Hr.
  by rewrite length_sub in Hr.
Qed.

(** Reading a field of a buffer just after [wrote]. *)
Lemma field_wrote_same l l' pos n v :
  wrote l l' pos (be_bytes n v) -> 0 <= v < 256 ^ Z.of_nat n -> field n pos l' = v.
Proof.
  intros (_ & Hs & _) Hv. rewrite length_be_bytes in Hs. unfold field.
  rewrite Hs. by apply be_value_id.
Qed.

Lemma field_wrote_other l l' pos bs n q :
  wrote l l' pos bs -> (q + n <= pos \/ pos + length bs <= q)%nat ->
  field n q l' = field n q l.
Proof. intros (_ & _ & Hf) Hd. unfold field. by rewrite Hf. Qed.

(** ** Strings

    A Go [string] is a sequence of bytes; [[]byte(s)] and [string(bs)] are the
    two conversions. *)
Definition bytes_of (s : string) : list byte := String.list_ascii_of_string s.
Definition string_of (l : list byte) : string := String.string_of_list_ascii l.

Lemma bytes_of_string_of l : bytes_of (string_of l) = l.
Proof. apply String.list_ascii_of_string_of_list_ascii. Qed.
Lemma string_of_bytes_of s : string_of (bytes_of s) = s.
Proof. apply String.string_of_list_ascii_of_string. Qed.

(** [len(s)]. *)
Definition string_len (s : string) : Z := Z.of_nat (length (bytes_of s)).

(** ** Values of type [any]

    The dynamic values the program stores in an [any]: nil, [int64], [string]
    and [bool].  Go's [==] on two such values is equality of type and value. *)
Inductive any : Type :=
  | ANil
  | AInt64 (n : Z)
  | AString (s : string)
  | ABool (b : bool).

#[export] Instance any_eq_dec : EqDecision any.
Proof. solve_decision. Defined.

(** [<], [>] on Go strings: lexicographic on bytes; [compare_cases] is the
    three-way result the source computes with two comparisons. *)
Definition string_lt (a b : string) : bool :=
  match String.compare a b with Lt => true | _ => false end.

(** Three-way comparison written as the source writes it:
    [if a < b {return -1}; if a > b {return 1}; return 0]. *)
Definition cmp3 (lt gt : bool) : Z := if lt then -1 else if gt then 1 else 0.

(** ** The byte order of strings is a strict total order *)
Lemma ascii_compare_u8 a b : Ascii.compare a b = (u8 a ?= u8 b).
Proof. unfold Ascii.compare, u8. symmetry. apply N2Z.inj_compare. Qed.

Lemma string_compare_refl a : String.compare a a = Eq.
Proof.
  induction a as [|c a IH]; [done|]. cbn. rewrite ascii_compare_u8, Z.compare_refl. done.
Qed.

Lemma string_compare_lt_trans a b c :
  String.compare a b = Lt -> String.compare b c = Lt -> String.compare a c = Lt.
Proof.
  revert b c. induction a as [|x a IH]; intros [|y b] [|z c]; cbn; try done.
  rewrite !ascii_compare_u8.
  destruct (Z.compare_spec (u8 x) (u8 y)); destruct (Z.compare_spec (u8 y) (u8 z)); try done;
    intros; destruct (Z.compare_spec (u8 x) (u8 z)); try done; try lia.
  by eapply IH.
Qed.

Lemma string_lt_irrefl a : string_lt a a = false.
Proof. unfold string_lt. by rewrite string_compare_refl. Qed.

Lemma string_lt_trans a b c :
  string_lt a b = true -> string_lt b c = true -> string_lt a c = true.
Proof.
  unfold string_lt. destruct (String.compare a b) eqn:E1; try done.
  destruct (String.compare b c) eqn:E2; try done.
  by rewrite (string_compare_lt_trans _ _ _ E1 E2).
Qed.

Lemma string_lt_total a b : string_lt a b = false -> string_lt b a = false -> a = b.
Proof.
  unfold string_lt. rewrite (String.compare_antisym b a).
  destruct (String.compare a b) eqn:E; try done. intros _ _. by apply String.compare_eq_iff.
Qed.
