(* ===== verification/Utf8.v ===== *)
(** * Utf8: UTF-8 as the Go library reads and writes it

    [utf8_decode] is the loop behind [[]rune(s)], [range s] and [utf8.Valid]:
    a well-formed sequence gives its code point, any other byte gives one
    [None] (which Go shows as U+FFFD) and decoding resumes at the next byte.
    [encode_rune] is [utf8.AppendRune], the body of
    [strings.Builder.WriteRune]. *)

From S2P Require Import Prelude GoRuntime.

Definition rune_error : Z := 0xFFFD.

Definition valid_rune (r : Z) : Prop := 0 <= r < 0xD800 \/ 0xDFFF < r <= 0x10FFFF.
#[export] Instance valid_rune_dec r : Decision (valid_rune r).
Proof. unfold valid_rune. apply _. Defined.

Definition encode_rune (r0 : Z) : list byte :=
  let r := if decide (valid_rune r0) then r0 else rune_error in
  if r <? 0x80 then [byte_of r]
  else if r <? 0x800 then [byte_of (0xC0 + r / 64); byte_of (0x80 + r mod 64)]
  else if r <? 0x10000 then
    [byte_of (0xE0 + r / 4096); byte_of (0x80 + r / 64 mod 64); byte_of (0x80 + r mod 64)]
  else
    [byte_of (0xF0 + r / 262144); byte_of (0x80 + r / 4096 mod 64);
     byte_of (0x80 + r / 64 mod 64); byte_of (0x80 + r mod 64)].

Definition encode_runes (rs : list Z) : list byte := rs ≫= encode_rune.

(** The range of the second byte, which excludes overlong forms, surrogates
    and code points above U+10FFFF (table [acceptRanges]). *)
Definition accept_lo (b0 : Z) : Z :=
  if b0 =? 0xE0 then 0xA0 else if b0 =? 0xF0 then 0x90 else 0x80.
Definition accept_hi (b0 : Z) : Z :=
  if b0 =? 0xED then 0x9F else if b0 =? 0xF4 then 0x8F else 0xBF.
Definition second_ok (b0 b1 : Z) : bool := (accept_lo b0 <=? b1) && (b1 <=? accept_hi b0).
Definition cont_ok (b : Z) : bool := (0x80 <=? b) && (b <=? 0xBF).

Fixpoint utf8_decode (l : list byte) : list (option Z) :=
  match l with
  | [] => []
  | c0 :: l1 =>
    let b0 := u8 c0 in
    if b0 <? 0x80 then Some b0 :: utf8_decode l1
    else if (0xC2 <=? b0) && (b0 <=? 0xDF) then
      match l1 with
      | c1 :: l2 =>
        if second_ok b0 (u8 c1)
        then Some ((b0 - 0xC0) * 64 + (u8 c1 - 0x80)) :: utf8_decode l2
        else None :: utf8_decode l1
      | _ => None :: utf8_decode l1
      end
    else if (0xE0 <=? b0) && (b0 <=? 0xEF) then
      match l1 with
      | c1 :: c2 :: l3 =>
        if second_ok b0 (u8 c1) && cont_ok (u8 c2)
        then Some ((b0 - 0xE0) * 4096 + (u8 c1 - 0x80) * 64 + (u8 c2 - 0x80)) :: utf8_decode l3
        else None :: utf8_decode l1
      | _ => None :: utf8_decode l1
      end
    else if (0xF0 <=? b0) && (b0 <=? 0xF4) then
      match l1 with
      | c1 :: c2 :: c3 :: l4 =>
        if second_ok b0 (u8 c1) && cont_ok (u8 c2) && cont_ok (u8 c3)
        then Some ((b0 - 0xF0) * 262144 + (u8 c1 - 0x80) * 4096 + (u8 c2 - 0x80) * 64
                   + (u8 c3 - 0x80)) :: utf8_decode l4
        else None :: utf8_decode l1
      | _ => None :: utf8_decode l1
      end
    else None :: utf8_decode l1
  end.

(** [utf8.Valid(bs)]. *)
Definition utf8_valid (l : list byte) : bool := forallb (fun o => bool_decide (is_Some o)) (utf8_decode l).

(** [[]rune(s)], and the runes of [range s]. *)
Definition runes_of (s : string) : list Z := default rune_error <$> utf8_decode (bytes_of s).

(** [string(rs)] built rune by rune. *)
Definition string_of_runes (rs : list Z) : string := string_of (encode_runes rs).

(** ** Encoding then decoding *)

Lemma u8_small z : 0 <= z < 256 -> u8 (byte_of z) = z.
Proof. intros. rewrite u8_byte_of. by apply Z.mod_small. Qed.

Lemma decode_1 c0 l : u8 c0 < 0x80 -> utf8_decode (c0 :: l) = Some (u8 c0) :: utf8_decode l.
Proof. intros H. cbn [utf8_decode]. by rewrite (proj2 (Z.ltb_lt _ _) H). Qed.

Lemma decode_2 c0 c1 l :
  0xC2 <= u8 c0 <= 0xDF -> second_ok (u8 c0) (u8 c1) = true ->
  utf8_decode (c0 :: c1 :: l) = Some ((u8 c0 - 0xC0) * 64 + (u8 c1 - 0x80)) :: utf8_decode l.
Proof.
  intros H H1. cbn [utf8_decode]. rewrite (proj2 (Z.ltb_ge _ _)) by lia.
  rewrite (proj2 (Z.leb_le 0xC2 _)), (proj2 (Z.leb_le _ 0xDF)) by lia. cbn [andb].
  by rewrite H1.
Qed.

Lemma decode_3 c0 c1 c2 l :
  0xE0 <= u8 c0 <= 0xEF -> second_ok (u8 c0) (u8 c1) = true -> cont_ok (u8 c2) = true ->
  utf8_decode (c0 :: c1 :: c2 :: l)
  = Some ((u8 c0 - 0xE0) * 4096 + (u8 c1 - 0x80) * 64 + (u8 c2 - 0x80)) :: utf8_decode l.
Proof.
  intros H H1 H2. cbn [utf8_decode]. rewrite (proj2 (Z.ltb_ge _ _)) by lia.
  rewrite (proj2 (Z.leb_gt _ 0xDF)), andb_false_r by lia.
  rewrite (proj2 (Z.leb_le 0xE0 _)), (proj2 (Z.leb_le _ 0xEF)) by lia. cbn [andb].
  by rewrite H1, H2.
Qed.

Lemma decode_4 c0 c1 c2 c3 l :
  0xF0 <= u8 c0 <= 0xF4 -> second_ok (u8 c0) (u8 c1) = true -> cont_ok (u8 c2) = true ->
  cont_ok (u8 c3) = true ->
  utf8_decode (c0 :: c1 :: c2 :: c3 :: l)
  = Some ((u8 c0 - 0xF0) * 262144 + (u8 c1 - 0x80) * 4096 + (u8 c2 - 0x80) * 64
          + (u8 c3 - 0x80)) :: utf8_decode l.
Proof.
  intros H H1 H2 H3. cbn [utf8_decode]. rewrite (proj2 (Z.ltb_ge _ _)) by lia.
  rewrite (proj2 (Z.leb_gt _ 0xDF)), andb_false_r by lia.
  rewrite (proj2 (Z.leb_gt _ 0xEF)), andb_false_r by lia.
  rewrite (proj2 (Z.leb_le 0xF0 _)), (proj2 (Z.leb_le _ 0xF4)) by lia. cbn [andb].
  by rewrite H1, H2, H3.
Qed.

Lemma cont_ok_mod z : cont_ok (0x80 + z mod 64) = true.
Proof.
  pose proof (Z.mod_pos_bound z 64). unfold cont_ok.
  rewrite (proj2 (Z.leb_le _ _)), (proj2 (Z.leb_le _ _)) by lia. done.
Qed.

Lemma second_ok_range b0 b1 : accept_lo b0 <= b1 <= accept_hi b0 -> second_ok b0 b1 = true.
Proof. intros [? ?]. unfold second_ok. by rewrite !(proj2 (Z.leb_le _ _)). Qed.

Ltac accept_arith :=
  unfold accept_lo, accept_hi;
  repeat match goal with |- context [(?a =? ?b)] => destruct (Z.eqb_spec a b) end; lia.

Lemma decode_encode_rune r l :
  valid_rune r -> utf8_decode (encode_rune r ++ l) = Some r :: utf8_decode l.
Proof.
  intros Hr. unfold encode_rune. rewrite decide_True by done. unfold valid_rune in Hr.
  assert (Hm : forall z, 0 <= 0x80 + z mod 64 < 256) by (intros z; pose proof (Z.mod_pos_bound z 64); lia).
  pose proof (Z.div_mod r 64). pose proof (Z.mod_pos_bound r 64).
  destruct (Z.ltb_spec r 0x80).
  { cbn [app]. by rewrite decode_1; rewrite u8_small by lia. }
  destruct (Z.ltb_spec r 0x800).
  { assert (2 <= r / 64 < 32) by lia. cbn [app].
    rewrite decode_2; rewrite !u8_small by (apply Hm || lia);
      [do 2 f_equal; lia|lia|apply second_ok_range; accept_arith]. }
  pose proof (Z.div_mod (r / 64) 64). pose proof (Z.mod_pos_bound (r / 64) 64).
  assert (r / 4096 = r / 64 / 64) as E1 by (rewrite Z.div_div; [f_equal|..]; lia).
  destruct (Z.ltb_spec r 0x10000).
  { rewrite E1. set (q := r / 64) in *. set (h := q / 64) in *. assert (0 <= h < 16) by lia. cbn [app].
    rewrite decode_3; rewrite ?u8_small by (apply Hm || lia);
      [do 2 f_equal; lia|lia|apply second_ok_range; accept_arith|apply cont_ok_mod]. }
  pose proof (Z.div_mod (r / 4096) 64). pose proof (Z.mod_pos_bound (r / 4096) 64).
  assert (r / 262144 = r / 4096 / 64) as E2 by (rewrite Z.div_div; [f_equal|..]; lia).
  rewrite E2. set (h := r / 4096) in *. set (g := h / 64) in *. rewrite E1 in *.
  assert (0 <= g < 5) by lia. cbn [app].
  rewrite decode_4; rewrite ?u8_small by (apply Hm || lia);
    [do 2 f_equal; lia|lia|apply second_ok_range; accept_arith|apply cont_ok_mod|apply cont_ok_mod].
Qed.

Lemma decode_encode_runes rs l :
  Forall valid_rune rs ->
  utf8_decode (encode_runes rs ++ l) = (Some <$> rs) ++ utf8_decode l.
Proof.
  induction 1 as [|r rs Hr _ IH]; [done|].
  change (encode_runes (r :: rs)) with (encode_rune r ++ encode_runes rs).
  rewrite <- app_assoc, decode_encode_rune by done. cbn. f_equal. exact IH.
Qed.

Lemma runes_of_string_of_runes rs :
  Forall valid_rune rs -> runes_of (string_of_runes rs) = rs.
Proof.
  intros H. unfold runes_of, string_of_runes. rewrite bytes_of_string_of.
  rewrite <- (app_nil_r (encode_runes rs)), decode_encode_runes by done.
  cbn [utf8_decode]. rewrite app_nil_r, <- list_fmap_compose.
  apply list_fmap_id.
Qed.

Lemma utf8_valid_encode rs : Forall valid_rune rs -> utf8_valid (encode_runes rs) = true.
Proof.
  intros H. unfold utf8_valid. rewrite <- (app_nil_r (encode_runes rs)).
  rewrite decode_encode_runes by done. cbn [utf8_decode]. rewrite app_nil_r.
  clear H. induction rs; cbn; auto.
Qed.

(** ** Decoding gives code points, and loses nothing on well-formed input *)

(** Cases of the decoder, with its tests turned into arithmetic. *)
Ltac decode_cases :=
  repeat match goal with
    | |- context [if (?b : bool) then _ else _] => let E := fresh "E" in destruct b eqn:E
    end.

Ltac bool_arith :=
  unfold second_ok, cont_ok, accept_lo, accept_hi in *;
  repeat match goal with
    | H : context [(?a =? ?b)] |- _ => destruct (Z.eqb_spec a b)
    end;
  rewrite ?andb_true_iff, ?andb_false_iff, ?Z.leb_le, ?Z.ltb_lt, ?Z.ltb_ge, ?Z.leb_gt in *.

Lemma utf8_decode_valid_rune l r : Some r ∈ utf8_decode l -> valid_rune r.
Proof.
  remember (length l) as n eqn:Hn. revert l Hn.
  induction n as [n IH] using lt_wf_ind. intros l -> Hin.
  assert (Hrec : forall m, (length m < length l)%nat -> Some r ∈ utf8_decode m -> valid_rune r).
  { intros m Hm. by apply (IH (length m)). }
  clear IH. destruct l as [|c0 l1]; cbn [utf8_decode] in Hin.
  { by apply not_elem_of_nil in Hin. }
  pose proof (u8_range c0).
  destruct l1 as [|c1 [|c2 [|c3 l4]]];
  repeat match type of Hin with
    | context [if ?b then _ else _] => let E := fresh "E" in destruct b eqn:E
    end;
  (apply elem_of_cons in Hin as [Hin|Hin];
   [try discriminate Hin; injection Hin as ->;
    repeat match goal with H : context [u8 ?c] |- _ =>
      lazymatch goal with _ : 0 <= u8 c < 256 |- _ => fail | _ => pose proof (u8_range c) end end;
    bool_arith; unfold valid_rune; lia
   |apply (Hrec _) in Hin; [done|cbn [length]; lia]]).
Qed.

(** *** Decoding then encoding *)
Lemma encode_rune_valid r : valid_rune r ->
  encode_rune r = if r <? 0x80 then [byte_of r]
  else if r <? 0x800 then [byte_of (0xC0 + r / 64); byte_of (0x80 + r mod 64)]
  else if r <? 0x10000 then [byte_of (0xE0 + r / 64 / 64); byte_of (0x80 + r / 64 mod 64); byte_of (0x80 + r mod 64)]
  else [byte_of (0xF0 + r / 64 / 64 / 64); byte_of (0x80 + r / 64 / 64 mod 64); byte_of (0x80 + r / 64 mod 64); byte_of (0x80 + r mod 64)].
Proof.
  intros Hr. unfold encode_rune. rewrite decide_True by done. rewrite !Z.div_div by lia. done.
Qed.

Lemma div_digit a b : 0 <= b < 64 -> (a * 64 + b) / 64 = a /\ (a * 64 + b) mod 64 = b.
Proof. intros Hb. pose proof (Z.div_mod (a * 64 + b) 64). pose proof (Z.mod_pos_bound (a * 64 + b) 64). lia. Qed.

Lemma byte_of_id z c : z = u8 c -> byte_of z = c.
Proof. intros ->. apply byte_of_u8. Qed.

Lemma decode_step l r os : utf8_decode l = Some r :: os ->
  exists bs l', l = bs ++ l' /\ utf8_decode l' = os /\ encode_rune r = bs.
Proof.
  intros H. assert (Hr : valid_rune r) by (apply (utf8_decode_valid_rune l); rewrite H; by left).
  assert (Hlt : forall x y, x < y -> (x <? y) = true) by (intros; by apply Z.ltb_lt).
  assert (Hge : forall x y, y <= x -> (x <? y) = false) by (intros; by apply Z.ltb_ge).
  rewrite encode_rune_valid by done. clear Hr.
  destruct l as [|c0 l1]; [done|]. cbn [utf8_decode] in H. pose proof (u8_range c0) as H0.
  destruct (Z.ltb_spec (u8 c0) 0x80).
  { injection H as <- <-. exists [c0], l1. rewrite Hlt by lia. by rewrite byte_of_u8. }
  destruct ((0xC2 <=? u8 c0) && (u8 c0 <=? 0xDF)) eqn:E2.
  { destruct l1 as [|c1 l2]; [done|]. pose proof (u8_range c1). destruct (second_ok (u8 c0) (u8 c1)) eqn:E; [|done]. injection H as <- <-.
    exists [c0; c1], l2. bool_arith; try lia.
    destruct (div_digit (u8 c0 - 192) (u8 c1 - 128)) as [D1 D2]; [lia|]. rewrite Hge, Hlt, D1, D2 by lia.
    split; [done|]. split; [done|]. by repeat f_equal; apply byte_of_id; lia. }
  destruct ((0xE0 <=? u8 c0) && (u8 c0 <=? 0xEF)) eqn:E3.
  { destruct l1 as [|c1 [|c2 l3]]; [done..|]. pose proof (u8_range c1). pose proof (u8_range c2).
    destruct (second_ok (u8 c0) (u8 c1)) eqn:E; [|done]. destruct (cont_ok (u8 c2)) eqn:Ec; [|done]. injection H as <- <-.
    exists [c0; c1; c2], l3.
    assert (Hb : 128 <= u8 c1 <= 191 /\ 128 <= u8 c2 <= 191 /\ (u8 c0 = 224 -> 160 <= u8 c1)) by (bool_arith; lia).
    assert (Ha : 224 <= u8 c0 <= 239) by (bool_arith; lia). clear E E2 E3 Ec.
    replace ((u8 c0 - 224) * 4096 + (u8 c1 - 128) * 64 + (u8 c2 - 128)) with (((u8 c0 - 224) * 64 + (u8 c1 - 128)) * 64 + (u8 c2 - 128)) by lia.
    destruct (div_digit ((u8 c0 - 224) * 64 + (u8 c1 - 128)) (u8 c2 - 128)) as [D1 D2]; [lia|].
    destruct (div_digit (u8 c0 - 224) (u8 c1 - 128)) as [D3 D4]; [lia|].
    rewrite Hge, Hge, Hlt, D1, D2, D3, D4 by lia. split; [done|]. split; [done|]. by repeat f_equal; apply byte_of_id; lia. }
  destruct ((0xF0 <=? u8 c0) && (u8 c0 <=? 0xF4)) eqn:E4; [|done].
  destruct l1 as [|c1 [|c2 [|c3 l4]]]; [done..|]. pose proof (u8_range c1). pose proof (u8_range c2). pose proof (u8_range c3).
  destruct (second_ok (u8 c0) (u8 c1)) eqn:E; [|done]. destruct (cont_ok (u8 c2)) eqn:Ec; [|done]. destruct (cont_ok (u8 c3)) eqn:Ed; [|done].
  injection H as <- <-. exists [c0; c1; c2; c3], l4.
  assert (Hb : 128 <= u8 c1 <= 191 /\ 128 <= u8 c2 <= 191 /\ 128 <= u8 c3 <= 191 /\ (u8 c0 = 240 -> 144 <= u8 c1)) by (bool_arith; lia).
  assert (Ha : 240 <= u8 c0 <= 244) by (bool_arith; lia). clear E E2 E3 E4 Ec Ed.
  replace ((u8 c0 - 240) * 262144 + (u8 c1 - 128) * 4096 + (u8 c2 - 128) * 64 + (u8 c3 - 128))
    with ((((u8 c0 - 240) * 64 + (u8 c1 - 128)) * 64 + (u8 c2 - 128)) * 64 + (u8 c3 - 128)) by lia.
  destruct (div_digit (((u8 c0 - 240) * 64 + (u8 c1 - 128)) * 64 + (u8 c2 - 128)) (u8 c3 - 128)) as [D1 D2]; [lia|].
  destruct (div_digit ((u8 c0 - 240) * 64 + (u8 c1 - 128)) (u8 c2 - 128)) as [D3 D4]; [lia|].
  destruct (div_digit (u8 c0 - 240) (u8 c1 - 128)) as [D5 D6]; [lia|].
  rewrite Hge, Hge, Hge, D1, D2, D3, D4, D5, D6 by lia. split; [done|]. split; [done|]. by repeat f_equal; apply byte_of_id; lia.
Qed.

(** Encoding what was decoded gives the text back, when it was well formed. *)
Lemma encode_decode rs : forall l, utf8_decode l = Some <$> rs -> encode_runes rs = l.
Proof.
  induction rs as [|r rs IH]; intros l H.
  - destruct l as [|c0 l1]; [done|]. exfalso. cbn [utf8_decode fmap list_fmap] in H. repeat case_match; discriminate.
  - apply decode_step in H as (bs & l' & -> & Hl & E). change (encode_runes (r :: rs)) with (encode_rune r ++ encode_runes rs).
    by rewrite E, (IH l' Hl).
Qed.

(** The runes of a valid text. *)
Lemma utf8_valid_runes s : utf8_valid (bytes_of s) = true -> string_of_runes (runes_of s) = s.
Proof.
  intros Hv. unfold string_of_runes. rewrite (encode_decode (runes_of s) (bytes_of s)); [apply string_of_bytes_of|].
  unfold runes_of, utf8_valid in *. induction (utf8_decode (bytes_of s)) as [|[r|] os IH]; [done| |done]. cbn. f_equal. by apply IH.
Qed.
