(* ===== verification/HeapPage.v ===== *)
(** * HeapPage: slotted pages ([internal/core/memory/page/heap_page.go])

    A page is an 8 KiB buffer: a ten byte header (signature, slot count, lower
    and upper bound of the free space), a slot directory of (offset, length)
    pairs growing upwards from byte 10, and the records growing downwards from
    the end.  [page_repr p ds] relates a page to the list of records it holds;
    [PageSpec] is the abstract append-only list with a capacity, and the
    refinement theorems show that [NewHeapPage], [Write] and [Read] implement
    it on every branch. *)

From S2P Require Import Prelude GoRuntime.

Definition PageSize : Z := 8 * 1024.
Definition Signature : Z := 0x00DBDB01.
Definition headerSize : Z := 10.
Definition slotSize : Z := 4.
Definition signatureOff : Z := 0.
Definition slotCountOff : Z := 4.
Definition lowerBoundOff : Z := 6.
Definition upperBoundOff : Z := 8.
Definition shortSize : Z := 2.

Record HeapPage : Type := { pageID : Z; buf : list byte }.

Definition set_buf (p : HeapPage) (b : list byte) : HeapPage :=
  {| pageID := pageID p; buf := b |}.

Definition readU32 (p : HeapPage) (pos : Z) : outcome Z :=
  ofmap be_value (go_slice (buf p) pos (pos + 4)).

Definition readU16 (p : HeapPage) (pos : Z) : outcome Z :=
  ofmap be_value (go_slice (buf p) pos (pos + 2)).

Definition writeU32 (p : HeapPage) (pos v : Z) : outcome HeapPage :=
  ofmap (set_buf p) (go_write (buf p) pos (be_bytes 4 v)).

Definition writeU16 (p : HeapPage) (pos v : Z) : outcome HeapPage :=
  ofmap (set_buf p) (go_write (buf p) pos (be_bytes 2 v)).

Definition IsValid (p : HeapPage) : outcome bool :=
  let! s := readU32 p signatureOff in Ok (s =? Signature).

Definition verifySignature (p : HeapPage) : outcome unit :=
  let! ok := IsValid p in
  if ok then Ok tt else Err page_ErrInvalidSignature.

Definition initHeaders (p : HeapPage) : outcome HeapPage :=
  let! p := writeU32 p signatureOff Signature in
  let! p := writeU16 p slotCountOff 0 in
  let! p := writeU16 p lowerBoundOff headerSize in
  writeU16 p upperBoundOff PageSize.

(** [make([]byte, n)]. *)
Definition zeros (n : Z) : list byte := replicate (Z.to_nat n) (byte_of 0).

Definition NewHeapPage (id : Z) : outcome HeapPage :=
  initHeaders {| pageID := id; buf := zeros PageSize |}.

(** A nil slice is [None]. *)
Definition NewHeapPageFromBuffer (id : Z) (buffer : option (list byte)) : outcome HeapPage :=
  match buffer with
  | None => Err ErrNilBuffer
  | Some b =>
    if negb (Z.of_nat (length b) =? PageSize) then Err ErrBadBufferSize
    else
      let p := {| pageID := id; buf := b |} in
      let! ok := IsValid p in
      if ok then Ok p else Err page_ErrInvalidSignature
  end.

Definition Size (p : HeapPage) : outcome Z := readU16 p slotCountOff.

Definition Read (p : HeapPage) (index : Z) : outcome (list byte) :=
  let! _ := verifySignature p in
  let! slotCount := readU16 p slotCountOff in
  if (index <? 0) || (slotCount <=? index) then Err ErrSlotIndex
  else
    let slotPos := headerSize + index * slotSize in
    let! offset := readU16 p slotPos in
    let! length := readU16 p (slotPos + shortSize) in
    let! upper := readU16 p upperBoundOff in
    if (PageSize <? offset + length) || (offset <? upper) then Err ErrCorruptedPage
    else go_slice (buf p) offset (offset + length).

Definition Write (p : HeapPage) (data : option (list byte)) : outcome HeapPage :=
  let! _ := verifySignature p in
  match data with
  | None => Err ErrNilData
  | Some data =>
    let len := Z.of_nat (length data) in
    let! slotCount := readU16 p slotCountOff in
    let! lower := readU16 p lowerBoundOff in
    let! upper := readU16 p upperBoundOff in
    let required := slotSize + len in
    let freeSpace := upper - lower in
    if freeSpace <? required then Err ErrNoSpace
    else
      let newUpper := upper - len in
      let! p := ofmap (set_buf p) (go_write (buf p) newUpper data) in
      let slotPos := headerSize + slotCount * slotSize in
      let! p := writeU16 p slotPos (uint16 newUpper) in
      let! p := writeU16 p (slotPos + shortSize) (uint16 len) in
      let! p := writeU16 p slotCountOff (uint16 (slotCount + 1)) in
      let! p := writeU16 p lowerBoundOff (uint16 (lower + slotSize)) in
      writeU16 p upperBoundOff (uint16 newUpper)
  end.

(** ** Specification: an append-only list of records with a capacity *)
Module PageSpec.
(** Bytes a record list occupies beyond the header. *)
Definition payload (ds : list (list byte)) : nat := sum_list (length <$> ds).
Definition used (ds : list (list byte)) : nat := (4 * length ds + payload ds)%nat.
Definition capacity : Z := 8182.

Definition insert (ds : list (list byte)) (d : list byte) : option (list (list byte)) :=
  if decide (Z.of_nat (used (ds ++ [d])) <= capacity) then Some (ds ++ [d]) else None.

Lemma payload_app ds es : payload (ds ++ es) = (payload ds + payload es)%nat.
Proof. unfold payload. rewrite fmap_app. apply sum_list_with_app. Qed.

Lemma payload_snoc ds d : payload (ds ++ [d]) = (payload ds + length d)%nat.
Proof. rewrite payload_app. unfold payload at 2. cbn. lia. Qed.

Lemma used_snoc ds d : used (ds ++ [d]) = (used ds + 4 + length d)%nat.
Proof. unfold used. rewrite payload_snoc. len. Qed.
End PageSpec.

(** Offset of the [i]-th record: records are laid out downwards from the end
    of the page, without gaps. *)
Definition record_off (ds : list (list byte)) (i : nat) : nat :=
  Z.to_nat (8192 - Z.of_nat (PageSpec.payload (take (S i) ds))).

Record page_repr (p : HeapPage) (ds : list (list byte)) : Prop := {
  repr_len : Z.of_nat (length (buf p)) = 8192;
  repr_sig : field 4 0 (buf p) = Signature;
  repr_count : field 2 4 (buf p) = Z.of_nat (length ds);
  repr_lower : field 2 6 (buf p) = 10 + 4 * Z.of_nat (length ds);
  repr_upper : field 2 8 (buf p) = 8192 - Z.of_nat (PageSpec.payload ds);
  repr_fits : Z.of_nat (PageSpec.used ds) <= PageSpec.capacity;
  repr_slots : forall i d, ds !! i = Some d ->
    field 2 (10 + 4 * i) (buf p) = Z.of_nat (record_off ds i) /\
    field 2 (12 + 4 * i) (buf p) = Z.of_nat (length d) /\
    sub (record_off ds i) (length d) (buf p) = d
}.

(** ** Field access on a buffer of page size *)

Lemma readU16_ok p pos :
  Z.of_nat (length (buf p)) = 8192 -> 0 <= pos <= 8190 ->
  readU16 p pos = Ok (field 2 (Z.to_nat pos) (buf p)).
Proof.
  intros Hl Hp. unfold readU16, field. rewrite go_slice_ok by lia.
  cbn. by replace (Z.to_nat (pos + 2 - pos)) with 2%nat by lia.
Qed.

Lemma readU32_ok p pos :
  Z.of_nat (length (buf p)) = 8192 -> 0 <= pos <= 8188 ->
  readU32 p pos = Ok (field 4 (Z.to_nat pos) (buf p)).
Proof.
  intros Hl Hp. unfold readU32, field. rewrite go_slice_ok by lia.
  cbn. by replace (Z.to_nat (pos + 4 - pos)) with 4%nat by lia.
Qed.

Lemma page_write_ok p pos bs :
  0 <= pos -> pos + Z.of_nat (length bs) <= Z.of_nat (length (buf p)) ->
  exists p', ofmap (set_buf p) (go_write (buf p) pos bs) = Ok p' /\
    pageID p' = pageID p /\ wrote (buf p) (buf p') (Z.to_nat pos) bs.
Proof.
  intros H1 H2. destruct (go_write_wrote (buf p) pos bs H1 H2) as (l' & E & Hw).
  exists (set_buf p l'). by rewrite E.
Qed.

Lemma writeU16_ok p pos v :
  Z.of_nat (length (buf p)) = 8192 -> 0 <= pos <= 8190 ->
  exists p', writeU16 p pos v = Ok p' /\
    pageID p' = pageID p /\ wrote (buf p) (buf p') (Z.to_nat pos) (be_bytes 2 v).
Proof. intros. apply page_write_ok; rewrite ?length_be_bytes; lia. Qed.

Lemma writeU32_ok p pos v :
  Z.of_nat (length (buf p)) = 8192 -> 0 <= pos <= 8188 ->
  exists p', writeU32 p pos v = Ok p' /\
    pageID p' = pageID p /\ wrote (buf p) (buf p') (Z.to_nat pos) (be_bytes 4 v).
Proof. intros. apply page_write_ok; rewrite ?length_be_bytes; lia. Qed.

(** Run the next write of a handler: [write_step lem p Hl W] names the page it
    returns, keeps its length, and records what it wrote. *)
Ltac write_step lem p Hl W :=
  let E := fresh in let Hid := fresh "Hid" in
  destruct lem as (p & E & Hid & W);
  [try done; lia | try done; lia |
   rewrite E; clear E; cbn [obind];
   assert (Hl : Z.of_nat (length (buf p)) = 8192) by (destruct W as [-> _]; done)].

Ltac offs :=
  change (Z.to_nat signatureOff) with 0%nat in *;
  change (Z.to_nat slotCountOff) with 4%nat in *;
  change (Z.to_nat lowerBoundOff) with 6%nat in *;
  change (Z.to_nat upperBoundOff) with 8%nat in *.

(** Resolve a field of a page through the writes it went through: the newest
    write that covers it gives its value, the others are framed away. *)
Ltac field_step :=
  match goal with
  | W : wrote _ (buf ?p') _ (be_bytes _ _) |- context [field _ _ (buf ?p')] =>
      first
        [ rewrite (field_wrote_same _ _ _ _ _ W) by (unfold uint16, uint in *; lia)
        | rewrite (field_wrote_other _ _ _ _ _ _ W)
            by (rewrite ?length_be_bytes; cbn [length]; lia) ]
  | W : wrote _ (buf ?p') _ _ |- context [field _ _ (buf ?p')] =>
      rewrite (field_wrote_other _ _ _ _ _ _ W) by (rewrite ?length_be_bytes; lia)
  end.

(** ** Refinement of the specification *)

Lemma length_zeros n : 0 <= n -> Z.of_nat (length (zeros n)) = n.
Proof. intros. unfold zeros. len. Qed.

Lemma NewHeapPage_repr id :
  exists p, NewHeapPage id = Ok p /\ pageID p = id /\ page_repr p [].
Proof.
  unfold NewHeapPage, initHeaders.
  set (p0 := {| pageID := id; buf := zeros PageSize |}).
  assert (Hl : Z.of_nat (length (buf p0)) = 8192) by (by apply length_zeros).
  write_step (writeU32_ok p0 signatureOff Signature) p1 Hl1 W1.
  write_step (writeU16_ok p1 slotCountOff 0) p2 Hl2 W2.
  write_step (writeU16_ok p2 lowerBoundOff headerSize) p3 Hl3 W3.
  destruct (writeU16_ok p3 upperBoundOff PageSize) as (p4 & -> & Hid2 & W4); [done..|].
  exists p4. split; [done|]. split; [by rewrite Hid2, Hid1, Hid0, Hid|].
  offs. unfold headerSize, PageSize, Signature in *.
  split; [destruct W4; lia|..|done|done]; repeat field_step; done.
Qed.

Lemma verifySignature_repr p ds : page_repr p ds -> verifySignature p = Ok tt.
Proof.
  intros R. unfold verifySignature, IsValid. rewrite readU32_ok by (done || apply R).
  offs. cbn [obind]. rewrite (repr_sig _ _ R). done.
Qed.

Lemma Size_repr p ds : page_repr p ds -> Size p = Ok (Z.of_nat (length ds)).
Proof.
  intros R. unfold Size. rewrite readU16_ok by (done || apply R).
  offs. f_equal. apply (repr_count _ _ R).
Qed.

Lemma take_payload_le ds i :
  (PageSpec.payload (take i ds) <= PageSpec.payload ds)%nat.
Proof.
  rewrite <- (take_drop i ds) at 2. rewrite PageSpec.payload_app. lia.
Qed.

Lemma record_off_snoc ds d i : (i < length ds)%nat -> record_off (ds ++ [d]) i = record_off ds i.
Proof. intros. unfold record_off. by rewrite take_app_le by lia. Qed.

Lemma record_off_last ds d :
  record_off (ds ++ [d]) (length ds)
  = Z.to_nat (8192 - Z.of_nat (PageSpec.payload ds) - Z.of_nat (length d)).
Proof.
  unfold record_off. rewrite take_ge by len.
  rewrite PageSpec.payload_snoc. lia.
Qed.

(** Records lie between the upper bound and the end of the page. *)
Lemma record_window ds i d :
  ds !! i = Some d -> Z.of_nat (PageSpec.used ds) <= PageSpec.capacity ->
  8192 - Z.of_nat (PageSpec.payload ds) <= Z.of_nat (record_off ds i) /\
  Z.of_nat (record_off ds i) + Z.of_nat (length d) <= 8192.
Proof.
  intros Hi Hfit. unfold record_off. pose proof (take_payload_le ds (S i)) as Hle.
  rewrite (take_S_r _ _ _ Hi), PageSpec.payload_snoc in *.
  unfold PageSpec.used, PageSpec.capacity in Hfit. lia.
Qed.

(** Reading the record directory of a represented page. *)
Lemma Read_repr p ds i :
  page_repr p ds ->
  Read p i = if decide (0 <= i)
             then match ds !! Z.to_nat i with
                  | Some d => Ok d
                  | None => Err ErrSlotIndex
                  end
             else Err ErrSlotIndex.
Proof.
  intros R. unfold Read. rewrite (verifySignature_repr _ _ R). cbn [obind].
  pose proof (repr_len _ _ R) as Hl. pose proof (repr_fits _ _ R) as Hfit.
  rewrite (readU16_ok p slotCountOff) by done. offs. cbn [obind].
  rewrite (repr_count _ _ R).
  destruct (decide (0 <= i)) as [Hi|Hi].
  2:{ by rewrite (proj2 (Z.ltb_lt i 0)) by lia. }
  rewrite (proj2 (Z.ltb_ge i 0)) by lia. cbn [orb].
  destruct (ds !! Z.to_nat i) as [d|] eqn:Hd.
  2:{ apply lookup_ge_None in Hd. by rewrite (proj2 (Z.leb_le _ _)) by lia. }
  pose proof (lookup_lt_Some _ _ _ Hd).
  rewrite (proj2 (Z.leb_gt _ _)) by lia.
  destruct (repr_slots _ _ R _ _ Hd) as (Ho & Hlen & Hsub).
  destruct (record_window _ _ _ Hd Hfit) as [Hw1 Hw2].
  unfold PageSpec.used, PageSpec.capacity in Hfit.
  unfold headerSize, slotSize, shortSize.
  rewrite readU16_ok by lia. cbn [obind].
  rewrite readU16_ok by lia. cbn [obind].
  rewrite (readU16_ok p upperBoundOff) by done. offs. cbn [obind].
  replace (Z.to_nat (10 + i * 4)) with (10 + 4 * Z.to_nat i)%nat by lia.
  replace (Z.to_nat (10 + i * 4 + 2)) with (12 + 4 * Z.to_nat i)%nat by lia.
  rewrite Ho, Hlen, (repr_upper _ _ R). unfold PageSize.
  rewrite (proj2 (Z.ltb_ge _ _)) by lia. rewrite (proj2 (Z.ltb_ge _ _)) by lia.
  cbn [orb]. rewrite go_slice_ok by lia. f_equal.
  replace (Z.to_nat (_ + _ - _)) with (length d) by lia.
  by rewrite Nat2Z.id.
Qed.

(** The two ways a write is refused on a represented page. *)
Lemma Write_nil p ds : page_repr p ds -> Write p None = Err ErrNilData.
Proof. intros R. unfold Write. by rewrite (verifySignature_repr _ _ R). Qed.

Lemma Write_full p ds d :
  page_repr p ds -> PageSpec.capacity < Z.of_nat (PageSpec.used (ds ++ [d])) ->
  Write p (Some d) = Err ErrNoSpace.
Proof.
  intros R Hc. unfold Write. rewrite (verifySignature_repr _ _ R). cbn [obind].
  pose proof (repr_len _ _ R) as Hl.
  rewrite !readU16_ok by done. offs. cbn [obind].
  rewrite (repr_lower _ _ R), (repr_upper _ _ R).
  rewrite PageSpec.used_snoc in Hc. unfold PageSpec.used, PageSpec.capacity, slotSize in *.
  by rewrite (proj2 (Z.ltb_lt _ _)) by lia.
Qed.

(** A write that fits: what the buffer holds afterwards. *)
Lemma Write_fits p ds d :
  page_repr p ds -> Z.of_nat (PageSpec.used (ds ++ [d])) <= PageSpec.capacity ->
  exists p', Write p (Some d) = Ok p' /\ pageID p' = pageID p /\ page_repr p' (ds ++ [d]).
Proof.
  intros R Hc. unfold Write. rewrite (verifySignature_repr _ _ R). cbn [obind].
  pose proof (repr_len _ _ R) as Hl.
  rewrite !readU16_ok by done. offs. cbn [obind].
  rewrite (repr_count _ _ R), (repr_lower _ _ R), (repr_upper _ _ R).
  pose proof Hc as Hfit. rewrite PageSpec.used_snoc in Hc.
  unfold PageSpec.used, PageSpec.capacity in Hc. unfold slotSize, headerSize, shortSize.
  rewrite (proj2 (Z.ltb_ge _ _)) by lia.
  set (n := Z.of_nat (length ds)) in *. set (P := Z.of_nat (PageSpec.payload ds)) in *.
  set (nu := 8192 - P - Z.of_nat (length d)) in *.
  write_step (page_write_ok p nu d) p1 Hl1 W1.
  write_step (writeU16_ok p1 (10 + n * 4) (uint16 nu)) p2 Hl2 W2.
  write_step (writeU16_ok p2 (10 + n * 4 + 2) (uint16 (Z.of_nat (length d)))) p3 Hl3 W3.
  write_step (writeU16_ok p3 slotCountOff (uint16 (n + 1))) p4 Hl4 W4.
  write_step (writeU16_ok p4 lowerBoundOff (uint16 (10 + 4 * n + 4))) p5 Hl5 W5.
  destruct (writeU16_ok p5 upperBoundOff (uint16 nu)) as (p6 & -> & Hid6 & W6); [done..|].
  exists p6. split; [done|]. split; [congruence|]. offs.
  assert (Hu : uint16 nu = nu /\ uint16 (Z.of_nat (length d)) = Z.of_nat (length d)
    /\ uint16 (n + 1) = n + 1 /\ uint16 (10 + 4 * n + 4) = 10 + 4 * n + 4).
  { unfold uint16. repeat split; apply uint_id; unfold in_uint; lia. }
  destruct Hu as (Hu1 & Hu2 & Hu3 & Hu4). rewrite Hu1, Hu2, Hu3, Hu4 in *.
  (* windows of the old records and of the new one are below every header write *)
  assert (Hframe : forall q m, (Z.to_nat (10 + 4 * n + 4) <= q)%nat ->
    sub q m (buf p6) = sub q m (buf p1)).
  { intros q m Hq. destruct W2 as (_ & _ & F2), W3 as (_ & _ & F3), W4 as (_ & _ & F4),
      W5 as (_ & _ & F5), W6 as (_ & _ & F6). rewrite ?length_be_bytes in *.
    rewrite F6, F5, F4, F3, F2 by lia. done. }
  split.
  - destruct W6. lia.
  - repeat field_step. apply R.
  - repeat field_step. len.
  - repeat field_step. len.
  - repeat field_step. rewrite PageSpec.payload_snoc. lia.
  - done.
  - intros i e Hi. destruct (decide (i = length ds)) as [->|Hne].
    + rewrite lookup_app_r, Nat.sub_diag in Hi by lia. injection Hi as <-.
      rewrite record_off_last. fold P. fold nu. rewrite Z2Nat.id by lia.
      replace (10 + 4 * length ds)%nat with (Z.to_nat (10 + n * 4)) by lia.
      replace (12 + 4 * length ds)%nat with (Z.to_nat (10 + n * 4 + 2)) by lia.
      split; [repeat field_step; done|]. split; [repeat field_step; done|].
      rewrite Hframe by lia. apply W1.
    + assert (Hlt : (i < length ds)%nat).
      { pose proof (lookup_lt_Some _ _ _ Hi) as Hlt. rewrite length_app in Hlt. cbn in Hlt. lia. }
      rewrite lookup_app_l in Hi by lia. rewrite record_off_snoc by lia.
      destruct (repr_slots _ _ R _ _ Hi) as (Ho & Hlen & Hsub).
      destruct (record_window ds i e Hi) as [Hw1 Hw2].
      { unfold PageSpec.used, PageSpec.capacity. lia. }
      rewrite <- Ho, <- Hlen.
      split; [repeat field_step; done|]. split; [repeat field_step; done|].
      rewrite Hframe by lia. rewrite <- Hsub at 2. apply W1. lia.
Qed.

(** ** Properties *)

(** [Write] on a page that holds [ds]. *)
Lemma Write_insert p ds d :
  page_repr p ds ->
  match PageSpec.insert ds d with
  | Some ds' => exists p', Write p (Some d) = Ok p' /\ pageID p' = pageID p /\ page_repr p' ds'
  | None => Write p (Some d) = Err ErrNoSpace
  end.
Proof.
  intros R. unfold PageSpec.insert. case_decide as Hc.
  - by apply Write_fits.
  - apply (Write_full p ds); [done|lia].
Qed.

(** C29: [Write] implements the abstract append on every represented page: it
    appends the record when slot and record fit in the free space (and keeps
    the page id), and otherwise returns [ErrNoSpace]; nothing else happens. *)
Theorem Write_refines p ds d :
  page_repr p ds ->
  match PageSpec.insert ds d with
  | Some ds' => exists p', Write p (Some d) = Ok p' /\ pageID p' = pageID p /\ page_repr p' ds'
  | None => Write p (Some d) = Err ErrNoSpace
  end.
Proof. apply Write_insert. Qed.

(** Writing a list of records one after the other. *)
Fixpoint write_all (p : HeapPage) (ds : list (list byte)) : outcome HeapPage :=
  match ds with
  | [] => Ok p
  | d :: ds => let! p := Write p (Some d) in write_all p ds
  end.

Lemma used_app_ge ds es : (PageSpec.used ds <= PageSpec.used (ds ++ es))%nat.
Proof. unfold PageSpec.used. rewrite PageSpec.payload_app. len. Qed.

Lemma write_all_repr p ds es :
  page_repr p ds ->
  if decide (Z.of_nat (PageSpec.used (ds ++ es)) <= PageSpec.capacity)
  then exists p', write_all p es = Ok p' /\ pageID p' = pageID p /\ page_repr p' (ds ++ es)
  else write_all p es = Err ErrNoSpace.
Proof.
  revert p ds. induction es as [|e es IH]; intros p ds R; cbn [write_all].
  { rewrite app_nil_r. rewrite decide_True by apply R. eauto. }
  pose proof (used_app_ge (ds ++ [e]) es) as Hge. rewrite <- app_assoc in Hge. cbn [app] in Hge.
  destruct (decide (Z.of_nat (PageSpec.used (ds ++ [e])) <= PageSpec.capacity)) as [Hf|Hf].
  - destruct (Write_fits _ _ _ R Hf) as (p1 & -> & Hid & R1). cbn [obind].
    specialize (IH p1 _ R1). rewrite <- app_assoc in IH. cbn [app] in IH.
    case_decide; [|done]. destruct IH as (p2 & ? & ? & ?). exists p2. by rewrite <- Hid.
  - rewrite decide_False by lia. rewrite (Write_full p ds) by (done || lia). done.
Qed.

(** Storing then reading: writing records [ds] to a fresh page succeeds
    exactly when four bytes per record plus the records fit in the 8182 bytes
    after the header, and then [Size] is their number and [Read i] returns the
    [i]-th record, or [ErrSlotIndex] for an index out of range. *)
Theorem page_store_roundtrip id ds :
  if decide (Z.of_nat (PageSpec.used ds) <= PageSpec.capacity)
  then exists p, (let! p := NewHeapPage id in write_all p ds) = Ok p /\
         pageID p = id /\ Size p = Ok (Z.of_nat (length ds)) /\
         forall i, Read p i = match ds !! Z.to_nat i with
                              | Some d => if decide (0 <= i) then Ok d else Err ErrSlotIndex
                              | None => Err ErrSlotIndex
                              end
  else (let! p := NewHeapPage id in write_all p ds) = Err ErrNoSpace.
Proof.
  destruct (NewHeapPage_repr id) as (p0 & -> & Hid & R0). cbn [obind].
  pose proof (write_all_repr p0 [] ds R0) as H. cbn [app] in H.
  case_decide; [|done]. destruct H as (p & E & Hid' & R). exists p.
  split; [done|]. split; [congruence|]. split; [by apply Size_repr|].
  intros i. rewrite (Read_repr _ _ _ R). by repeat case_match.
Qed.

Lemma NewHeapPageFromBuffer_loads id b :
  length b = Z.to_nat PageSize ->
  NewHeapPageFromBuffer id (Some b) =
    if decide (field 4 0 b = Signature) then Ok {| pageID := id; buf := b |}
    else Err page_ErrInvalidSignature.
Proof.
  intros Hl. assert (Hz : Z.of_nat (length b) = PageSize) by (rewrite Hl; done).
  unfold NewHeapPageFromBuffer. rewrite (proj2 (Z.eqb_eq _ _) Hz). cbn [negb].
  unfold IsValid. rewrite readU32_ok by done. offs. cbn [obind buf].
  destruct (Z.eqb_spec (field 4 0 b) Signature);
    [by rewrite decide_True|by rewrite decide_False].
Qed.

(** Loading a buffer: [NewHeapPageFromBuffer] rejects nil, a wrong size
    and a wrong signature with the corresponding error, accepts every buffer
    of a page this module wrote, and never panics. *)
Theorem NewHeapPageFromBuffer_spec id buffer :
  NewHeapPageFromBuffer id buffer =
    match buffer with
    | None => Err ErrNilBuffer
    | Some b =>
      if decide (Z.of_nat (length b) = PageSize)
      then if decide (field 4 0 b = Signature) then Ok {| pageID := id; buf := b |}
           else Err page_ErrInvalidSignature
      else Err ErrBadBufferSize
    end.
Proof.
  destruct buffer as [b|]; [|done].
  destruct (decide (Z.of_nat (length b) = PageSize)) as [Hl|Hl].
  - apply NewHeapPageFromBuffer_loads. lia.
  - unfold NewHeapPageFromBuffer. by rewrite (proj2 (Z.eqb_neq _ _) Hl).
Qed.

(** The slot directory itself is not bounds-checked: on a page whose
    (corrupt) slot count exceeds what the directory can hold, reading a slot
    from 2045 on panics instead of returning [ErrCorruptedPage]. *)
Theorem Read_directory_overrun_panics p i :
  Z.of_nat (length (buf p)) = PageSize -> field 4 0 (buf p) = Signature ->
  2045 <= i -> i < field 2 4 (buf p) ->
  Read p i = Panic.
Proof.
  intros Hl Hsig Hi Hc. unfold Read, verifySignature, IsValid.
  rewrite readU32_ok by done. offs. cbn [obind]. rewrite Hsig. cbn [obind].
  change (Signature =? Signature) with true. cbn [obind].
  rewrite (readU16_ok p slotCountOff) by done. offs. cbn [obind].
  rewrite (proj2 (Z.ltb_ge _ _)) by lia. rewrite (proj2 (Z.leb_gt _ _)) by lia.
  cbn [orb]. unfold headerSize, slotSize, shortSize, PageSize in *.
  destruct (decide (i = 2045)) as [->|].
  - rewrite readU16_ok by lia. cbn [obind]. unfold readU16 at 1, go_slice.
    by rewrite decide_False by lia.
  - unfold readU16 at 1, go_slice. by rewrite decide_False by lia.
Qed.

(** ** Witnesses *)
Lemma Write_refines_witness :
  exists p, page_repr p [] /\
    match PageSpec.insert [] (bytes_of "row") with
    | Some ds' => exists p', Write p (Some (bytes_of "row")) = Ok p' /\
                             pageID p' = pageID p /\ page_repr p' ds'
    | None => Write p (Some (bytes_of "row")) = Err ErrNoSpace
    end.
Proof.
  destruct (NewHeapPage_repr 0) as (p & _ & _ & R). exists p. split; [exact R|].
  apply (Write_refines p [] (bytes_of "row") R).
Defined.

(** A page whose slot count field reads 3000. *)
Definition corrupt_page : HeapPage :=
  {| pageID := 0; buf := splice 4 (be_bytes 2 3000) (splice 0 (be_bytes 4 Signature) (zeros PageSize)) |}.

Lemma Read_directory_overrun_witness : Read corrupt_page 2500 = Panic.
Proof.
  apply (Read_directory_overrun_panics corrupt_page 2500);
    [vm_compute; reflexivity | vm_compute; reflexivity | lia | vm_compute; reflexivity].
Defined.
