(* ===== verification/TupleSerializer.v ===== *)
(** * TupleSerializer: typed values as bytes

    Models [internal/core/memory/model/heap_tuple.go], [data_type.go] and
    [internal/core/memory/serializer/heap_tuple_serializer.go].  The two maps
    of closures filled by [NewHeapTupleSerializer] are the lookup functions
    [serializers] and [deserializers]. *)

From S2P Require Import Prelude GoRuntime Utf8.

(** [DataType] is an [int]; [0] is the invalid type the code tests for. *)
Definition INT64 : Z := 1.
Definition VARCHAR : Z := 2.

(** [data] is [None] for a nil slice. *)
Record HeapTuple : Type := { data : option (list byte); dt : Z }.

Definition NewHeapTuple (d : option (list byte)) (t : Z) : HeapTuple := {| data := d; dt := t |}.

Definition int64Bytes : Z := 8.
Definition maxVarCharLength : Z := 255.

Definition serializeInt64 (v : any) : outcome HeapTuple :=
  match v with
  | AInt64 n => Ok (NewHeapTuple (Some (be_bytes 8 (uint64 n))) INT64)
  | _ => Err ErrTypeMismatch
  end.

Definition deserializeInt64 (d : list byte) : outcome any :=
  if negb (Z.of_nat (length d) =? int64Bytes) then Err ErrBadInt64Size
  else Ok (AInt64 (int64 (be_value d))).

Definition serializeVarchar (v : any) : outcome HeapTuple :=
  match v with
  | AString str =>
    let b := bytes_of str in
    if maxVarCharLength <? Z.of_nat (length b) then Err ErrVarcharTooLong
    else Ok (NewHeapTuple (Some (byte_of (Z.of_nat (length b)) :: b)) VARCHAR)
  | _ => Err ErrTypeMismatch
  end.

Definition deserializeVarchar (d : list byte) : outcome any :=
  match d with
  | [] => Err ErrVarcharEmpty
  | c :: _ =>
    let n := u8 c in
    if negb (Z.of_nat (length d) =? 1 + n) then Err ErrVarcharLenMis
    else
      let! payload := go_slice d 1 (1 + n) in
      if negb (utf8_valid payload) then Err ErrInvalidEncoding
      else Ok (AString (string_of payload))
  end.

Definition serializers (t : Z) : option (any -> outcome HeapTuple) :=
  if t =? INT64 then Some serializeInt64
  else if t =? VARCHAR then Some serializeVarchar else None.

Definition deserializers (t : Z) : option (list byte -> outcome any) :=
  if t =? INT64 then Some deserializeInt64
  else if t =? VARCHAR then Some deserializeVarchar else None.

Definition Serialize (value : any) (t : Z) : outcome HeapTuple :=
  if t =? 0 then Err ErrNilType
  else if decide (value = ANil) then Err ErrNilValue
  else match serializers t with
       | None => Err ErrUnsupportedType
       | Some handler => handler value
       end.

Definition Deserialize (tuple : HeapTuple) : outcome any :=
  match data tuple with
  | None => Err ErrTupleDataNil
  | Some d =>
    if dt tuple =? 0 then Err ErrNilType
    else match deserializers (dt tuple) with
         | None => Err ErrUnsupportedType
         | Some handler => handler d
         end
  end.

(** ** Properties *)

(** The values a column of type [t] can hold and give back. *)
Definition storable (v : any) (t : Z) : Prop :=
  match v with
  | AInt64 n => t = INT64 /\ in_sint 64 n
  | AString s => t = VARCHAR /\ string_len s <= 255 /\ utf8_valid (bytes_of s) = true
  | _ => False
  end.

#[export] Instance storable_dec v t : Decision (storable v t).
Proof. destruct v; cbn; apply _. Defined.

Lemma serializeInt64_bytes n :
  Serialize (AInt64 n) INT64 = Ok {| data := Some (be_bytes 8 (uint64 n)); dt := INT64 |}.
Proof. done. Qed.

Lemma deserializeInt64_bytes n :
  in_sint 64 n -> deserializeInt64 (be_bytes 8 (uint64 n)) = Ok (AInt64 n).
Proof.
  intros Hn. unfold deserializeInt64. rewrite length_be_bytes. cbn [negb].
  change (Z.of_nat 8 =? int64Bytes) with true. cbn [negb].
  rewrite (be_value_uint 8 64) by done. do 2 f_equal.
  rewrite !sint_uint by lia. by apply sint_id.
Qed.

Lemma varchar_payload (c : byte) (b : list byte) n :
  Z.of_nat (length b) = n -> go_slice (c :: b) 1 (1 + n) = Ok b.
Proof.
  intros <-. rewrite go_slice_ok by len. f_equal. unfold sub.
  change (Z.to_nat 1) with 1%nat. cbn [drop]. apply take_ge. lia.
Qed.

Lemma deserializeVarchar_bytes (b : list byte) :
  Z.of_nat (length b) <= 255 ->
  deserializeVarchar (byte_of (Z.of_nat (length b)) :: b) =
    if utf8_valid b then Ok (AString (string_of b)) else Err ErrInvalidEncoding.
Proof.
  intros Hb. unfold deserializeVarchar.
  rewrite u8_byte_of, Z.mod_small by lia.
  replace (Z.of_nat (length (_ :: b)) =? _) with true by (symmetry; apply Z.eqb_eq; len).
  cbn [negb]. rewrite varchar_payload by done. cbn [obind]. by destruct (utf8_valid b).
Qed.

(** A storable value serializes, and deserializing the tuple gives it
    back: [INT64] keeps all 64 bits and the sign, [VARCHAR] every byte. *)
Theorem serialize_roundtrip v t :
  storable v t ->
  exists tuple, Serialize v t = Ok tuple /\ dt tuple = t /\ Deserialize tuple = Ok v.
Proof.
  destruct v as [|n|s|b]; cbn [storable]; try done.
  - intros [-> Hn]. eexists. split; [by apply serializeInt64_bytes|]. split; [done|].
    by apply deserializeInt64_bytes.
  - intros (-> & Hl & Hv). unfold string_len in Hl.
    unfold Serialize, serializers, serializeVarchar. rewrite decide_False by done. cbn -[bytes_of].
    unfold maxVarCharLength. rewrite (proj2 (Z.ltb_ge _ _)) by lia.
    eexists. split; [done|]. split; [done|].
    unfold Deserialize, deserializers. cbn -[deserializeVarchar bytes_of].
    rewrite deserializeVarchar_bytes by done. rewrite Hv. by rewrite string_of_bytes_of.
Qed.

(** The error branches of [Serialize], in the order the code tests them;
    it never panics.  (A [VARCHAR] is not checked for UTF-8 here, only when it
    is read back: see [serialize_invalid_utf8].) *)
Theorem Serialize_spec v t :
  Serialize v t =
    if decide (t = 0) then Err ErrNilType
    else match v with
    | ANil => Err ErrNilValue
    | AInt64 n =>
        if decide (t = INT64) then Ok {| data := Some (be_bytes 8 (uint64 n)); dt := INT64 |}
        else if decide (t = VARCHAR) then Err ErrTypeMismatch else Err ErrUnsupportedType
    | AString s =>
        if decide (t = INT64) then Err ErrTypeMismatch
        else if decide (t = VARCHAR) then
          if decide (255 < string_len s) then Err ErrVarcharTooLong
          else Ok {| data := Some (byte_of (string_len s) :: bytes_of s); dt := VARCHAR |}
        else Err ErrUnsupportedType
    | ABool _ =>
        if decide (t = INT64) then Err ErrTypeMismatch
        else if decide (t = VARCHAR) then Err ErrTypeMismatch else Err ErrUnsupportedType
    end.
Proof.
  unfold Serialize, serializers, string_len.
  destruct (Z.eqb_spec t 0); [by rewrite decide_True|rewrite (decide_False (P:=t = 0)) by done].
  destruct (Z.eqb_spec t INT64) as [->|H1]; [|destruct (Z.eqb_spec t VARCHAR) as [->|H2]];
    destruct v as [|k|s|b]; try done; cbn [decide]; repeat case_decide; try done.
  - unfold serializeVarchar, maxVarCharLength. by rewrite (proj2 (Z.ltb_lt _ _)).
  - unfold serializeVarchar, maxVarCharLength. by rewrite (proj2 (Z.ltb_ge _ _)) by lia.
Qed.

(** [Serialize] accepts a string that is not UTF-8, but [Deserialize]
    refuses the tuple it produced. *)
Theorem serialize_invalid_utf8 s :
  string_len s <= 255 -> utf8_valid (bytes_of s) = false ->
  exists tuple, Serialize (AString s) VARCHAR = Ok tuple /\
                Deserialize tuple = Err ErrInvalidEncoding.
Proof.
  intros Hl Hv. rewrite Serialize_spec. rewrite (decide_False (P:=VARCHAR = 0)) by done.
  rewrite (decide_False (P:=VARCHAR = INT64)), (decide_True (P:=VARCHAR = VARCHAR)) by done.
  rewrite decide_False by lia. eexists. split; [done|].
  unfold Deserialize, deserializers. cbn -[deserializeVarchar bytes_of].
  unfold string_len in *. rewrite deserializeVarchar_bytes by done. by rewrite Hv.
Qed.

(** [Deserialize] decides on the tuple alone which error to return, and
    never panics: the length byte is checked against the tuple before the
    payload is sliced. *)
Theorem Deserialize_spec tuple :
  Deserialize tuple =
    match data tuple with
    | None => Err ErrTupleDataNil
    | Some d =>
      if decide (dt tuple = 0) then Err ErrNilType
      else if decide (dt tuple = INT64) then
        if decide (length d = 8%nat) then Ok (AInt64 (int64 (be_value d))) else Err ErrBadInt64Size
      else if decide (dt tuple = VARCHAR) then
        match d with
        | [] => Err ErrVarcharEmpty
        | c :: payload =>
          if decide (Z.of_nat (length payload) = u8 c) then
            if utf8_valid payload then Ok (AString (string_of payload)) else Err ErrInvalidEncoding
          else Err ErrVarcharLenMis
        end
      else Err ErrUnsupportedType
    end.
Proof.
  unfold Deserialize, deserializers. destruct (data tuple) as [d|]; [|done].
  destruct (Z.eqb_spec (dt tuple) 0); [by rewrite decide_True|rewrite (decide_False (P:=dt tuple = 0)) by done].
  destruct (Z.eqb_spec (dt tuple) INT64) as [->|H1].
  { rewrite decide_True by done. unfold deserializeInt64, int64Bytes.
    destruct (Z.eqb_spec (Z.of_nat (length d)) 8).
    - by rewrite decide_True by lia.
    - by rewrite decide_False by lia. }
  rewrite (decide_False (P:=dt tuple = INT64)) by done.
  destruct (Z.eqb_spec (dt tuple) VARCHAR) as [->|H2]; [|by rewrite decide_False].
  rewrite decide_True by done. destruct d as [|c b]; [done|].
  unfold deserializeVarchar. destruct (Z.eqb_spec (Z.of_nat (length (c :: b))) (1 + u8 c)) as [Hl|Hl].
  - cbn [length] in Hl. rewrite decide_True by lia. cbn [negb].
    rewrite varchar_payload by lia. cbn [obind]. by destruct (utf8_valid b).
  - cbn [length] in Hl. by rewrite decide_False by lia.
Qed.

(** ** Witnesses *)
Lemma serialize_roundtrip_witness :
  storable (AInt64 (-5)) INT64 /\
  exists tuple, Serialize (AInt64 (-5)) INT64 = Ok tuple /\ dt tuple = INT64 /\
                Deserialize tuple = Ok (AInt64 (-5)).
Proof.
  split; [vm_compute; split; [reflexivity|split; congruence]|].
  apply (serialize_roundtrip (AInt64 (-5)) INT64). vm_compute. split; [reflexivity|split; congruence].
Defined.

Lemma serialize_invalid_utf8_witness :
  exists tuple, Serialize (AString (string_of [byte_of 0xFF])) VARCHAR = Ok tuple /\
                Deserialize tuple = Err ErrInvalidEncoding.
Proof.
  apply (serialize_invalid_utf8 (string_of [byte_of 0xFF])); vm_compute; [congruence|reflexivity].
Defined.
