(* ===== verification/Replacer.v ===== *)
(** * Replacer: page keys, slot handles and the two eviction policies

    Models [memory/model/page_key.go] and the package [memory/replacer]:
    the interface [Replacer] is a type class, and [LRUReplacer] and
    [ClockReplacer] are its two instances, with their own policy theorems. *)

From S2P Require Import Prelude GoRuntime.

Record PageKey : Type := NewPageKey { FileID : string; PageID : Z }.

#[export] Instance PageKey_eq_dec : EqDecision PageKey.
Proof. solve_decision. Defined.

#[export] Program Instance PageKey_countable : Countable PageKey :=
  inj_countable' (fun k => (FileID k, PageID k)) (fun p => NewPageKey p.1 p.2) _.
Next Obligation. by intros []. Qed.

(** A [*BufferSlot]: a reference into the slot store (see [BufferPool]), with
    the key of the slot, which never changes after [NewBufferSlot]. *)
Record slot_ptr : Type := { slot_ref : nat; slot_key : PageKey }.

#[export] Instance slot_ptr_eq_dec : EqDecision slot_ptr.
Proof. solve_decision. Defined.

(** ** The interface

    [Push] is given the slot pointer and the [Pinned] flag it reads through
    it (a nil pointer is [None]). *)
Class Replacer (R : Type) : Type := {
  rep_push : option slot_ptr -> bool -> R -> R;
  rep_delete : PageKey -> R -> R;
  rep_pick : R -> option slot_ptr * R
}.

(** What the buffer pool relies on: a replacer is a finite map from the keys
    of the evictable slots to their slots. *)
Class ReplacerLaws (R : Type) `{Replacer R} : Type := {
  rep_view : R -> gmap PageKey nat;
  rep_ok : R -> Prop;
  rep_push_nil r b : rep_push None b r = r;
  rep_push_pinned r p : rep_push (Some p) true r = r;
  rep_push_view r p :
    rep_ok r ->
    rep_view r !! slot_key p = None \/ rep_view r !! slot_key p = Some (slot_ref p) ->
    rep_ok (rep_push (Some p) false r) /\
    rep_view (rep_push (Some p) false r) = <[slot_key p := slot_ref p]> (rep_view r);
  rep_delete_view r k :
    rep_ok r ->
    rep_ok (rep_delete k r) /\ rep_view (rep_delete k r) = delete k (rep_view r);
  rep_pick_view r :
    rep_ok r ->
    match rep_pick r with
    | (None, r') => r' = r /\ rep_view r = ∅
    | (Some p, r') =>
        rep_ok r' /\ rep_view r !! slot_key p = Some (slot_ref p) /\
        rep_view r' = delete (slot_key p) (rep_view r)
    end
}.

(** ** Least recently used *)
Module LRUReplacer.

Record lruEntry : Type := { key : PageKey; slot : slot_ptr }.

(** [linkedList] is the [container/list] value: its elements in order, each
    with its identity; [lru] maps a key to its element. [fresh] numbers the
    elements [PushBack] allocates. *)
Record t : Type := {
  linkedList : list (nat * lruEntry);
  lru : gmap PageKey nat;
  fresh : nat
}.

Definition New : t := {| linkedList := []; lru := ∅; fresh := 0 |}.

(** [list.List] operations on an element. *)
Definition list_remove (el : nat) (l : list (nat * lruEntry)) : list (nat * lruEntry) :=
  filter (fun x => x.1 <> el) l.
Definition list_moveToBack (el : nat) (l : list (nat * lruEntry)) : list (nat * lruEntry) :=
  list_remove el l ++ filter (fun x => x.1 = el) l.
Definition list_setSlot (el : nat) (s : slot_ptr) (l : list (nat * lruEntry)) :
    list (nat * lruEntry) :=
  (fun x => if decide (x.1 = el) then (x.1, {| key := key x.2; slot := s |}) else x) <$> l.

Definition Push (s : option slot_ptr) (pinned : bool) (r : t) : t :=
  match s with
  | None => r
  | Some s =>
    if pinned then r
    else match lru r !! slot_key s with
    | Some el =>
      {| linkedList := list_moveToBack el (list_setSlot el s (linkedList r));
         lru := lru r; fresh := fresh r |}
    | None =>
      {| linkedList := linkedList r ++ [(fresh r, {| key := slot_key s; slot := s |})];
         lru := <[slot_key s := fresh r]> (lru r);
         fresh := S (fresh r) |}
    end
  end.

Definition Delete (k : PageKey) (r : t) : t :=
  match lru r !! k with
  | Some el => {| linkedList := list_remove el (linkedList r); lru := delete k (lru r);
                  fresh := fresh r |}
  | None => r
  end.

Definition PickVictim (r : t) : option slot_ptr * t :=
  match linkedList r with
  | [] => (None, r)
  | (el, entry) :: _ =>
    (Some (slot entry),
     {| linkedList := list_remove el (linkedList r); lru := delete (key entry) (lru r);
        fresh := fresh r |})
  end.

(** The eviction order: keys from the least to the most recently pushed. *)
Definition order (r : t) : list PageKey := (fun x => key x.2) <$> linkedList r.

(** The map and the list describe the same elements, each key once, and every
    entry holds a slot of its own key. *)
Record ok (r : t) : Prop := {
  ok_ids : NoDup (linkedList r).*1;
  ok_keys : NoDup (order r);
  ok_fresh : forall el e, (el, e) ∈ linkedList r -> (el < fresh r)%nat;
  ok_slot : forall el e, (el, e) ∈ linkedList r -> slot_key (slot e) = key e;
  ok_lru : forall k el, lru r !! k = Some el <-> exists e, (el, e) ∈ linkedList r /\ key e = k
}.

Definition view (r : t) : gmap PageKey nat :=
  list_to_map ((fun x => (key x.2, slot_ref (slot x.2))) <$> linkedList r).

End LRUReplacer.

#[export] Instance LRUReplacer_replacer : Replacer LRUReplacer.t := {|
  rep_push := LRUReplacer.Push;
  rep_delete := LRUReplacer.Delete;
  rep_pick := LRUReplacer.PickVictim
|}.

(** ** Clock (second chance) *)
Module ClockReplacer.

(** [ring] with the clock hand [head]; [inRing] and [ref] are the two sets
    kept as Go maps to [struct{}]. *)
Record t : Type := {
  ring : list slot_ptr;
  head : nat;
  inRing : gset PageKey;
  ref : gset PageKey
}.

Definition New : t := {| ring := []; head := 0; inRing := ∅; ref := ∅ |}.

Definition Push (s : option slot_ptr) (pinned : bool) (c : t) : t :=
  match s with
  | None => c
  | Some s =>
    if pinned then c
    else
      let k := slot_key s in
      let c := if decide (k ∈ inRing c) then c
               else {| ring := ring c ++ [s]; head := head c;
                       inRing := {[k]} ∪ inRing c; ref := ref c |} in
      {| ring := ring c; head := head c; inRing := inRing c; ref := {[k]} ∪ ref c |}
  end.

(** [copy(ring[i:], ring[i+1:]); ring = ring[:len-1]]. *)
Definition remove_at (i : nat) (l : list slot_ptr) : list slot_ptr := delete i l.

Definition Delete (k : PageKey) (c : t) : t :=
  if decide (k ∈ inRing c) then
    let inRing' := inRing c ∖ {[k]} in
    let ref' := ref c ∖ {[k]} in
    match list_find (fun s => slot_key s = k) (ring c) with
    | Some (i, _) =>
      let ring' := remove_at i (ring c) in
      let head' :=
        if decide (length ring' = 0%nat) then 0%nat
        else if decide (i < head c)%nat then (head c - 1)%nat
        else if decide (length ring' <= head c)%nat then 0%nat
        else head c in
      {| ring := ring'; head := head'; inRing := inRing'; ref := ref' |}
    | None => {| ring := ring c; head := head c; inRing := inRing'; ref := ref' |}
    end
  else c.

(** The loop of [PickVictim]; [None] only when the fuel runs out. *)
Fixpoint pick_loop (fuel : nat) (c : t) : option (option slot_ptr * t) :=
  match fuel with
  | O => None
  | S fuel =>
    if decide (length (ring c) = 0%nat) then Some (None, c)
    else
      let head1 := if decide (length (ring c) <= head c)%nat then 0%nat else head c in
      match ring c !! head1 with
      | None => Some (None, c)
      | Some s =>
        let k := slot_key s in
        if decide (k ∈ ref c) then
          pick_loop fuel {| ring := ring c; head := S head1; inRing := inRing c;
                            ref := ref c ∖ {[k]} |}
        else
          let ring' := remove_at head1 (ring c) in
          Some (Some s,
            {| ring := ring';
               head := if decide (length ring' <= head1)%nat then 0%nat else head1;
               inRing := inRing c ∖ {[k]}; ref := ref c |})
      end
  end.

(** Every round but the last clears one reference bit. *)
Definition PickVictim (c : t) : option slot_ptr * t :=
  default (None, c) (pick_loop (S (size (ref c))) c).

Definition keys (c : t) : list PageKey := slot_key <$> ring c.

Record ok (c : t) : Prop := {
  ok_keys : NoDup (keys c);
  ok_inRing : forall k, k ∈ inRing c <-> k ∈ keys c;
  ok_ref : forall k, k ∈ ref c -> k ∈ keys c;
  ok_head : (head c <= length (ring c))%nat
}.

Definition view (c : t) : gmap PageKey nat :=
  list_to_map ((fun s => (slot_key s, slot_ref s)) <$> ring c).

End ClockReplacer.

#[export] Instance ClockReplacer_replacer : Replacer ClockReplacer.t := {|
  rep_push := ClockReplacer.Push;
  rep_delete := ClockReplacer.Delete;
  rep_pick := ClockReplacer.PickVictim
|}.

(** ** LRU: the list and the map stay in step *)
Module LRU.
Import LRUReplacer.

Section facts.
Implicit Types (r : t) (k : PageKey) (s : slot_ptr).

(** In a consistent replacer the element of a key is the entry with that key. *)
Lemma element_of r k el :
  ok r -> lru r !! k = Some el ->
  exists i e, linkedList r !! i = Some (el, e) /\ key e = k /\
    list_remove el (linkedList r) = delete i (linkedList r) /\
    delete i (linkedList r) = filter (fun x => key x.2 <> k) (linkedList r).
Proof.
  intros R Hk. apply (ok_lru _ R) in Hk as (e & Hin & He).
  apply list_elem_of_lookup in Hin as [i Hi]. exists i, e. split_and!; [done|done| |].
  - unfold list_remove. symmetry. apply (delete_filter fst _ i (el, e)); [apply R|done].
  - rewrite <- He. apply (delete_filter (fun x => key x.2) _ i (el, e)); [apply R|done].
Qed.

Lemma order_filter r k :
  (fun x => key x.2) <$> filter (fun x => key x.2 <> k) (linkedList r)
  = filter (.≠ k) (order r).
Proof. by apply fmap_filter. Qed.

Lemma lru_ok_New : ok New.
Proof.
  split; cbn; try apply NoDup_nil_2; try (intros ?? Hin; by apply not_elem_of_nil in Hin).
  intros k el. rewrite lookup_empty. split; [done|]. intros (e & Hin & _).
  by apply not_elem_of_nil in Hin.
Qed.

(** Removing the element of a key, in the list and in the map. *)
Lemma ok_remove r k el :
  ok r -> lru r !! k = Some el ->
  ok {| linkedList := list_remove el (linkedList r); lru := delete k (lru r); fresh := fresh r |}.
Proof.
  intros R Hk. destruct (element_of _ _ _ R Hk) as (i & e & Hi & He & -> & E).
  assert (Hsub : forall x, x ∈ delete i (linkedList r) <-> x ∈ linkedList r /\ key x.2 <> k).
  { intros x. rewrite E, list_elem_of_filter. tauto. }
  split; cbn.
  - rewrite E. apply NoDup_fmap_filter, R.
  - unfold order; cbn. rewrite E. apply (NoDup_fmap_filter (fun x => key x.2)), R.
  - intros el' e' [Hin _]%Hsub. by eapply (ok_fresh _ R).
  - intros el' e' [Hin _]%Hsub. by eapply (ok_slot _ R).
  - intros k' el'. rewrite lookup_delete_Some, (ok_lru _ R). split.
    + intros (Hne & e' & Hin & <-). exists e'. rewrite Hsub. naive_solver.
    + intros (e' & [Hin Hne]%Hsub & <-). naive_solver.
Qed.

(** Appending an element whose identity and key are not in the list. *)
Lemma ok_append r s el n :
  ok r -> lru r !! slot_key s = None ->
  (forall e, (el, e) ∉ linkedList r) -> (el < n)%nat -> (fresh r <= n)%nat ->
  ok {| linkedList := linkedList r ++ [(el, {| key := slot_key s; slot := s |})];
        lru := <[slot_key s := el]> (lru r); fresh := n |}.
Proof.
  intros R Hk Hel Hn Hf.
  assert (Hnew : forall el' e, (el', e) ∈ linkedList r -> el' <> el /\ key e <> slot_key s).
  { intros el' e Hin. split; [naive_solver|]. intros Heq.
    assert (lru r !! slot_key s = Some el') by (apply (ok_lru _ R); eauto). congruence. }
  split; cbn.
  - rewrite fmap_app. apply NoDup_app. split; [apply R|]. split; [|apply NoDup_singleton].
    intros z ([el' e] & -> & Hin)%list_elem_of_fmap. cbn.
    rewrite list_elem_of_singleton. by apply (Hnew _ _ Hin).
  - unfold order; cbn. rewrite fmap_app. apply NoDup_app. split; [apply R|].
    split; [|apply NoDup_singleton].
    intros k ([el' e] & -> & Hin)%list_elem_of_fmap. cbn.
    rewrite list_elem_of_singleton. by apply (Hnew _ _ Hin).
  - intros el' e. rewrite elem_of_app, list_elem_of_singleton.
    intros [Hin|[= -> ->]]; [pose proof (ok_fresh _ R _ _ Hin); lia|lia].
  - intros el' e. rewrite elem_of_app, list_elem_of_singleton.
    intros [Hin|[= -> ->]]; [by eapply (ok_slot _ R)|done].
  - intros k el'. rewrite lookup_insert_Some, (ok_lru _ R).
    setoid_rewrite elem_of_app. setoid_rewrite list_elem_of_singleton. split.
    + intros [[<- <-]|(Hne & e & Hin & He)]; [|eauto].
      eexists. split; [by right|done].
    + intros (e & [Hin|[= -> ->]] & He); [|by left].
      right. destruct (Hnew _ _ Hin). split; [congruence|eauto].
Qed.

(** [MoveToBack] after storing the new slot in the element. *)
Lemma moveToBack_setSlot r s el :
  ok r -> lru r !! slot_key s = Some el ->
  list_moveToBack el (list_setSlot el s (linkedList r))
  = list_remove el (linkedList r) ++ [(el, {| key := slot_key s; slot := s |})].
Proof.
  intros R Hk. destruct (element_of _ _ _ R Hk) as (i & e & Hi & He & _ & _).
  apply list_elem_of_lookup_2 in Hi. unfold list_moveToBack. f_equal.
  - unfold list_remove, list_setSlot. clear. induction (linkedList r) as [|x l IH]; [done|].
    rewrite fmap_cons. case_decide.
    + rewrite !filter_cons_False by naive_solver. done.
    + rewrite !filter_cons_True by done. by rewrite IH.
  - transitivity ((fun x => if decide (x.1 = el) then (x.1, {| key := key x.2; slot := s |}) else x)
      <$> filter (fun x => x.1 = el) (linkedList r)).
    { unfold list_setSlot. clear. induction (linkedList r) as [|x l IH]; [done|].
      rewrite fmap_cons. case_decide.
      - rewrite !filter_cons_True by done. rewrite fmap_cons, IH. by rewrite decide_True.
      - rewrite !filter_cons_False by done. done. }
    rewrite (filter_field fst (linkedList r) (el, e)) by (done || apply R).
    cbn. rewrite decide_True by done. by rewrite He.
Qed.

(** The state after pushing a slot, in the two cases of the code. *)
Lemma Push_known r s el :
  ok r -> lru r !! slot_key s = Some el ->
  ok (Push (Some s) false r) /\
  linkedList (Push (Some s) false r)
  = filter (fun x => key x.2 <> slot_key s) (linkedList r)
    ++ [(el, {| key := slot_key s; slot := s |})].
Proof.
  intros R Hk. destruct (element_of _ _ _ R Hk) as (i & e & Hi & He & E1 & E2).
  cbn. rewrite Hk, moveToBack_setSlot by done. cbn. split; [|by rewrite E1, E2].
  pose proof (ok_append _ s el (fresh r) (ok_remove _ _ _ R Hk)) as H. cbn in H.
  rewrite lookup_delete_eq, insert_delete_id in H by done. apply H; [done| |by eapply R, list_elem_of_lookup_2|done].
  intros e' Hin. unfold list_remove in Hin. apply list_elem_of_filter in Hin as [Hne _]. by apply Hne.
Qed.

Lemma Push_unknown r s :
  ok r -> lru r !! slot_key s = None ->
  ok (Push (Some s) false r) /\
  linkedList (Push (Some s) false r)
  = filter (fun x => key x.2 <> slot_key s) (linkedList r)
    ++ [(fresh r, {| key := slot_key s; slot := s |})].
Proof.
  intros R Hk. cbn. rewrite Hk. cbn. split.
  - apply ok_append; auto with lia. intros e Hin. pose proof (ok_fresh _ R _ _ Hin). lia.
  - f_equal. symmetry. apply filter_all. intros [el e] Hin Heq. cbn in Heq.
    assert (lru r !! slot_key s = Some el) by (apply (ok_lru _ R); eauto). congruence.
Qed.

Lemma Push_order r s :
  ok r ->
  ok (Push (Some s) false r) /\
  exists el, linkedList (Push (Some s) false r)
    = filter (fun x => key x.2 <> slot_key s) (linkedList r)
      ++ [(el, {| key := slot_key s; slot := s |})].
Proof.
  intros R. destruct (lru r !! slot_key s) as [el|] eqn:Hk.
  - destruct (Push_known _ _ _ R Hk). eauto.
  - destruct (Push_unknown _ _ R Hk). eauto.
Qed.

Lemma Delete_order r k :
  ok r ->
  ok (Delete k r) /\
  linkedList (Delete k r) = filter (fun x => key x.2 <> k) (linkedList r).
Proof.
  intros R. unfold Delete. destruct (lru r !! k) as [el|] eqn:Hk.
  - destruct (element_of _ _ _ R Hk) as (i & e & Hi & He & E1 & E2). split.
    + by apply ok_remove.
    + cbn. by rewrite E1, E2.
  - split; [done|]. symmetry. apply filter_all. intros [el e] Hin Heq. cbn in Heq.
    assert (lru r !! k = Some el) by (apply (ok_lru _ R); eauto). congruence.
Qed.

Lemma PickVictim_order r :
  ok r ->
  match linkedList r with
  | [] => PickVictim r = (None, r)
  | (el, e) :: l =>
      PickVictim r = (Some (slot e),
        {| linkedList := l; lru := delete (key e) (lru r); fresh := fresh r |}) /\
      ok {| linkedList := l; lru := delete (key e) (lru r); fresh := fresh r |} /\
      l = filter (fun x => key x.2 <> key e) (linkedList r)
  end.
Proof.
  intros R. unfold PickVictim. destruct (linkedList r) as [|[el e] l] eqn:Hl; [done|].
  assert (Hk : lru r !! key e = Some el).
  { apply (ok_lru _ R). exists e. rewrite Hl. split; [apply elem_of_cons; by left|done]. }
  destruct (element_of _ _ _ R Hk) as (i & e' & Hi & He & E1 & E2).
  pose proof (ok_remove _ _ _ R Hk) as Hok.
  assert (E3 : list_remove el (linkedList r) = l).
  { unfold list_remove. symmetry. rewrite Hl.
    apply (delete_filter fst ((el, e) :: l) 0 (el, e)); [|done].
    rewrite <- Hl. apply R. }
  rewrite E3 in Hok. rewrite Hl in *. rewrite E3. split; [done|]. split; [done|].
  by rewrite <- E2, <- E1.
Qed.

(** Views of the list as a finite map. *)
Lemma lru_view_filter r r' k :
  linkedList r' = filter (fun x => key x.2 <> k) (linkedList r) -> view r' = delete k (view r).
Proof.
  intros E. unfold view. rewrite E, <- list_to_map_filter. f_equal.
  by apply fmap_filter.
Qed.

Lemma view_push r r' el s :
  linkedList r' = filter (fun x => key x.2 <> slot_key s) (linkedList r)
                  ++ [(el, {| key := slot_key s; slot := s |})] ->
  view r' = <[slot_key s := slot_ref s]> (view r).
Proof.
  intros E. unfold view. rewrite E, fmap_app. cbn [fmap list_fmap].
  rewrite list_to_map_snoc.
  2:{ rewrite list_elem_of_fmap. intros ([k n] & Hk & Hin). cbn in Hk. subst k.
      apply list_elem_of_fmap in Hin as ([el' e] & [= Hk ->] & Hin).
      apply list_elem_of_filter in Hin as [Hne _]. by apply Hne. }
  etransitivity; [|apply insert_delete_eq]. rewrite <- list_to_map_filter. cbn. do 2 f_equal.
  by apply fmap_filter.
Qed.

Lemma lru_view_lookup r k n :
  ok r -> view r !! k = Some n <->
  exists el e, (el, e) ∈ linkedList r /\ key e = k /\ slot_ref (slot e) = n.
Proof.
  intros R. unfold view. rewrite <- elem_of_list_to_map.
  - rewrite list_elem_of_fmap. split.
    + intros ([el e] & [= -> ->] & Hin). eauto.
    + intros (el & e & Hin & <- & <-). exists (el, e). eauto.
  - rewrite <- list_fmap_compose. apply R.
Qed.
End facts.

(** LRU policy: pushing an unpinned slot moves its key to the most
    recently used end, deleting removes the key and nothing else, and the
    victim is the least recently pushed key.  (Stated on the key order; the
    linked list and the map stay consistent throughout.) *)
Theorem lru_policy r :
  ok r ->
  (forall s, ok (Push (Some s) false r) /\
     order (Push (Some s) false r) = filter (.≠ slot_key s) (order r) ++ [slot_key s]) /\
  (forall k, ok (Delete k r) /\ order (Delete k r) = filter (.≠ k) (order r)) /\
  match order r with
  | [] => PickVictim r = (None, r)
  | k :: ks => exists s r', PickVictim r = (Some s, r') /\ slot_key s = k /\
                 ok r' /\ order r' = ks
  end.
Proof.
  intros R. split; [|split].
  - intros s. destruct (Push_order _ s R) as (Hok & el & E). split; [done|].
    unfold order at 1. rewrite E, fmap_app, order_filter. done.
  - intros k. destruct (Delete_order _ k R) as (Hok & E). split; [done|].
    unfold order at 1. by rewrite E, order_filter.
  - pose proof (PickVictim_order _ R) as H. unfold order.
    destruct (linkedList r) as [|[el e] l] eqn:Hl; [done|]. cbn.
    destruct H as (E & Hok & _). eexists _, _. split; [exact E|].
    split; [|done]. apply (ok_slot _ R el). rewrite Hl. apply elem_of_cons. by left.
Qed.

(** Pushing [a], [b] and [a] again makes [b] the victim. *)
Definition push_key (f : string) (r : t) : t :=
  Push (Some {| slot_ref := 0; slot_key := NewPageKey f 0 |}) false r.

Lemma lru_policy_witness :
  let r := push_key "a" (push_key "b" (push_key "a" New)) in
  ok r /\ order r = [NewPageKey "b" 0; NewPageKey "a" 0] /\
  match order r with
  | [] => PickVictim r = (None, r)
  | k :: ks => exists s r', PickVictim r = (Some s, r') /\ slot_key s = k /\
                 ok r' /\ order r' = ks
  end.
Proof.
  cbv zeta. assert (R : ok (push_key "a" (push_key "b" (push_key "a" New)))).
  { apply Push_order, Push_order, Push_order, lru_ok_New. }
  split; [exact R|]. split; [vm_compute; reflexivity|].
  apply (lru_policy _ R).
Defined.

End LRU.

(** [LRUReplacer] implements the [Replacer] interface: seen as the map
    from evictable keys to slots, [Push] inserts, [Delete] deletes and
    [PickVictim] takes one entry out, or answers nil exactly when it is
    empty. *)
#[export] Instance LRUReplacer_laws : ReplacerLaws LRUReplacer.t.
Proof.
  refine {| rep_view := LRUReplacer.view; rep_ok := LRUReplacer.ok |}.
  - done.
  - done.
  - intros r p R _. destruct (LRU.Push_order r p R) as (Hok & el & E).
    split; [done|]. by eapply LRU.view_push.
  - intros r k R. destruct (LRU.Delete_order r k R) as (Hok & E).
    split; [done|]. by apply LRU.lru_view_filter.
  - intros r R. cbn. pose proof (LRU.PickVictim_order r R) as H.
    destruct (LRUReplacer.linkedList r) as [|[el e] l] eqn:Hl.
    + rewrite H. split; [done|]. unfold LRUReplacer.view. by rewrite Hl.
    + destruct H as (-> & Hok & Hf).
      assert (Hk : slot_key (LRUReplacer.slot e) = LRUReplacer.key e).
      { apply (LRUReplacer.ok_slot _ R el). rewrite Hl. apply elem_of_cons. by left. }
      split; [done|]. rewrite Hk. split.
      * apply LRU.lru_view_lookup; [done|]. exists el, e. rewrite Hl.
        split; [apply elem_of_cons; by left|done].
      * apply LRU.lru_view_filter. by rewrite Hl.
Defined.

(** ** Clock: the ring is a queue whose entries get a second chance *)
Module Clock.
Import ClockReplacer.

Section facts.
Implicit Types (c : t) (k : PageKey) (s : slot_ptr) (q : list slot_ptr).

(** The ring read from the clock hand: the order in which entries are visited. *)
Definition hand c : nat := if decide (length (ring c) <= head c)%nat then 0%nat else head c.
Definition rotation c : list slot_ptr := drop (hand c) (ring c) ++ take (hand c) (ring c).

Lemma rotation_perm c : rotation c ≡ₚ ring c.
Proof. unfold rotation. rewrite Permutation_app_comm. by rewrite take_drop. Qed.

Lemma rotation_NoDup c : ok c -> NoDup (slot_key <$> rotation c).
Proof. intros R. rewrite rotation_perm. apply R. Qed.

Lemma rotation_hand c s q :
  rotation c = s :: q ->
  (hand c < length (ring c))%nat /\ ring c !! hand c = Some s /\
  q = drop (S (hand c)) (ring c) ++ take (hand c) (ring c).
Proof.
  unfold rotation. intros E.
  assert (Hlt : (hand c < length (ring c))%nat).
  { unfold hand. destruct (ring c) eqn:Hr; [by rewrite drop_nil, take_nil in E|].
    cbn [length]. case_decide; lia. }
  split; [done|]. destruct (lookup_lt_is_Some_2 _ _ Hlt) as [x Hx].
  rewrite (drop_S _ _ _ Hx) in E. cbn in E. by injection E as -> <-.
Qed.

(** Clearing the reference bit of the entry under the hand. *)
Definition clear c s : t :=
  {| ring := ring c; head := S (hand c); inRing := inRing c; ref := ref c ∖ {[slot_key s]} |}.

(** Taking out the entry under the hand. *)
Definition evict c s : t :=
  let ring' := remove_at (hand c) (ring c) in
  {| ring := ring'; head := if decide (length ring' <= hand c)%nat then 0%nat else hand c;
     inRing := inRing c ∖ {[slot_key s]}; ref := ref c |}.

Lemma pick_step fuel c s q :
  rotation c = s :: q ->
  pick_loop (S fuel) c =
    if decide (slot_key s ∈ ref c) then pick_loop fuel (clear c s) else Some (Some s, evict c s).
Proof.
  intros E. destruct (rotation_hand _ _ _ E) as (Hlt & Hs & _).
  cbn [pick_loop]. rewrite decide_False by lia. fold (hand c). by rewrite Hs.
Qed.

Lemma rotation_mk l h ir rf :
  rotation {| ring := l; head := h; inRing := ir; ref := rf |} =
    if decide (length l <= h)%nat then l else drop h l ++ take h l.
Proof.
  unfold rotation, hand; cbn [ring head]. case_decide; [|done].
  by rewrite drop_0, take_0, app_nil_r.
Qed.

Lemma rotation_clear c s q : rotation c = s :: q -> rotation (clear c s) = q ++ [s].
Proof.
  intros E. destruct (rotation_hand _ _ _ E) as (Hlt & Hs & ->).
  unfold clear. rewrite rotation_mk, <- app_assoc, <- (take_S_r _ _ _ Hs).
  case_decide; [|done]. by rewrite (drop_ge (ring c) (S _)), (take_ge (ring c) (S _)) by lia.
Qed.

Lemma rotation_evict c s q : rotation c = s :: q -> rotation (evict c s) = q.
Proof.
  intros E. destruct (rotation_hand _ _ _ E) as (Hlt & Hs & ->).
  unfold evict, remove_at. rewrite rotation_mk.
  assert (Hl : length (delete (hand c) (ring c)) = (length (ring c) - 1)%nat).
  { apply length_delete. eauto. }
  rewrite Hl, delete_take_drop. destruct (decide (length (ring c) - 1 <= hand c)%nat) as [Hd|Hd].
  - rewrite (drop_ge (ring c) (S _)) by lia. rewrite app_nil_r, app_nil_l.
    case_decide; [done|]. by rewrite drop_0, take_0, app_nil_r.
  - rewrite decide_False by lia.
    assert (Ht : hand c = length (take (hand c) (ring c))) by len.
    by rewrite drop_app_length', take_app_length'.
Qed.

Lemma ok_clear c s q : ok c -> rotation c = s :: q -> ok (clear c s).
Proof.
  intros R E. destruct (rotation_hand _ _ _ E) as (Hlt & Hs & _).
  split; cbn; [apply R|apply R| |lia]. intros k [Hk _]%elem_of_difference. by apply (ok_ref _ R).
Qed.

Lemma ring_evict c s q :
  ok c -> rotation c = s :: q -> ring (evict c s) = filter (fun x => slot_key x <> slot_key s) (ring c).
Proof.
  intros R E. destruct (rotation_hand _ _ _ E) as (_ & Hs & _).
  cbn. unfold remove_at. by apply (delete_filter slot_key); [apply R|].
Qed.

Lemma ok_evict c s q :
  ok c -> rotation c = s :: q -> slot_key s ∉ ref c -> ok (evict c s).
Proof.
  intros R E Hs. pose proof (ring_evict _ _ _ R E) as Er.
  assert (Hk : forall k, k ∈ keys (evict c s) <-> k ∈ keys c /\ k <> slot_key s).
  { intros k. unfold keys. rewrite Er. rewrite !list_elem_of_fmap. split.
    - intros (x & -> & [Hne Hin]%list_elem_of_filter). eauto.
    - intros [(x & -> & Hin) Hne]. exists x. split; [done|]. by apply list_elem_of_filter. }
  split.
  - unfold keys. rewrite Er. apply NoDup_fmap_filter, R.
  - intros k. rewrite Hk. cbn. rewrite elem_of_difference, (ok_inRing _ R). set_solver.
  - intros k Hin. apply Hk. cbn in Hin. split; [by apply (ok_ref _ R)|naive_solver].
  - cbn [head evict ring]. case_decide; lia.
Qed.

(** Entries ahead of the first unreferenced one lose their bit and move to
    the back; that one is the victim. *)
Lemma pick_first_unreferenced fuel pre s post c :
  ok c -> rotation c = pre ++ s :: post -> (length pre < fuel)%nat ->
  (forall x, x ∈ pre -> slot_key x ∈ ref c) -> slot_key s ∉ ref c ->
  exists c', pick_loop fuel c = Some (Some s, c') /\ ok c' /\
    rotation c' = post ++ pre /\
    ref c' = ref c ∖ list_to_set (slot_key <$> pre) /\
    ring c' = filter (fun x => slot_key x <> slot_key s) (ring c).
Proof.
  revert pre post c. induction fuel as [|fuel IH]; intros pre post c R E Hf Hpre Hs; [lia|].
  destruct pre as [|x pre].
  - rewrite (pick_step _ _ _ _ E), decide_False by done. eexists. split; [done|].
    split; [by eapply ok_evict|]. split; [rewrite app_nil_r; by eapply rotation_evict|].
    split; [cbn; set_solver|by eapply ring_evict].
  - cbn [app] in E. rewrite (pick_step _ _ _ _ E).
    rewrite decide_True by (apply Hpre, elem_of_cons; by left).
    pose proof (rotation_NoDup _ R) as Hnd. rewrite E in Hnd. cbn in Hnd.
    apply NoDup_cons in Hnd as [Hx Hnd]. rewrite fmap_app, elem_of_app in Hx.
    destruct (IH pre (post ++ [x]) (clear c x)) as (c' & Ec & Hok & Hr & Href & Hring).
    + by eapply ok_clear.
    + rewrite (rotation_clear _ _ _ E), <- app_assoc. done.
    + cbn [length] in Hf. lia.
    + intros y Hy. cbn. apply elem_of_difference. split; [apply Hpre, elem_of_cons; by right|].
      rewrite elem_of_singleton. intros Heq. apply Hx. left. rewrite <- Heq.
      apply list_elem_of_fmap. eauto.
    + cbn. set_solver.
    + exists c'. split; [done|]. split; [done|]. split; [by rewrite Hr, <- app_assoc|].
      split; [|done]. rewrite Href. cbn. set_solver.
Qed.

(** The bits of distinct entries are at most as many as the set has. *)
Lemma referenced_length q (X : gset PageKey) :
  NoDup (slot_key <$> q) -> (forall x, x ∈ q -> slot_key x ∈ X) -> (length q <= size X)%nat.
Proof.
  intros Hnd Hin. rewrite <- (length_fmap slot_key), <- (size_list_to_set (C:=gset PageKey)) by done.
  apply subseteq_size. intros k. rewrite elem_of_list_to_set, list_elem_of_fmap.
  intros (x & -> & Hx). by apply Hin.
Qed.

Lemma PickVictim_empty c : rotation c = [] -> ring c = [] /\ PickVictim c = (None, c).
Proof.
  intros E. assert (Hr : ring c = []).
  { apply Permutation_nil. by rewrite <- (rotation_perm c), E. }
  split; [done|]. unfold PickVictim. cbn [pick_loop]. rewrite Hr.
  by rewrite decide_True.
Qed.

Lemma PickVictim_unreferenced c pre s post :
  ok c -> rotation c = pre ++ s :: post ->
  (forall x, x ∈ pre -> slot_key x ∈ ref c) -> slot_key s ∉ ref c ->
  exists c', PickVictim c = (Some s, c') /\ ok c' /\ rotation c' = post ++ pre /\
    ref c' = ref c ∖ list_to_set (slot_key <$> pre) /\
    ring c' = filter (fun x => slot_key x <> slot_key s) (ring c).
Proof.
  intros R E Hpre Hs.
  destruct (pick_first_unreferenced (S (size (ref c))) pre s post c) as (c' & Ec & H); try done.
  - pose proof (rotation_NoDup _ R) as Hnd. rewrite E, fmap_app in Hnd.
    apply NoDup_app in Hnd as (Hnd & _). pose proof (referenced_length _ _ Hnd Hpre). lia.
  - exists c'. unfold PickVictim. by rewrite Ec.
Qed.

Lemma PickVictim_all_referenced c s post :
  ok c -> rotation c = s :: post -> (forall x, x ∈ rotation c -> slot_key x ∈ ref c) ->
  exists c', PickVictim c = (Some s, c') /\ ok c' /\ rotation c' = post /\ ref c' = ∅ /\
    ring c' = filter (fun x => slot_key x <> slot_key s) (ring c).
Proof.
  intros R E Hall. pose proof (rotation_NoDup _ R) as Hnd.
  pose proof (referenced_length _ _ Hnd Hall) as Hsz. rewrite E in *. cbn in Hnd, Hsz.
  apply NoDup_cons in Hnd as [Hs Hnd]. rewrite list_elem_of_fmap in Hs.
  unfold PickVictim. rewrite (pick_step _ _ _ _ E).
  rewrite decide_True by (apply Hall, elem_of_cons; by left).
  destruct (pick_first_unreferenced (size (ref c)) post s [] (clear c s))
    as (c' & Ec & Hok & Hr & Href & Hring).
  - by eapply ok_clear.
  - by rewrite (rotation_clear _ _ _ E).
  - lia.
  - intros x Hx. cbn. apply elem_of_difference.
    split; [apply Hall, elem_of_cons; by right|]. rewrite elem_of_singleton. intros Heq.
    apply Hs. eauto.
  - cbn. rewrite elem_of_difference, elem_of_singleton. tauto.
  - exists c'. rewrite Ec. split; [done|]. split; [done|]. split; [done|]. split; [|done].
    rewrite Href. cbn. apply leibniz_equiv. intros k. split; [|set_solver].
    rewrite !elem_of_difference, elem_of_singleton, elem_of_list_to_set. intros [[Hk Hne] Hno].
    exfalso. apply (ok_ref _ R) in Hk. unfold keys in Hk. rewrite <- rotation_perm, E in Hk.
    cbn in Hk. apply elem_of_cons in Hk. naive_solver.
Qed.

Lemma first_unreferenced q (X : gset PageKey) :
  (forall x, x ∈ q -> slot_key x ∈ X) \/
  exists pre s post, q = pre ++ s :: post /\ (forall x, x ∈ pre -> slot_key x ∈ X) /\ slot_key s ∉ X.
Proof.
  induction q as [|y q IH].
  - left. intros x Hx. by apply not_elem_of_nil in Hx.
  - destruct (decide (slot_key y ∈ X)) as [Hy|Hy].
    + destruct IH as [IH|(pre & s & post & -> & Hpre & Hs)].
      * left. intros x [->|Hx]%elem_of_cons; auto.
      * right. exists (y :: pre), s, post. split; [done|]. split; [|done].
        intros x [->|Hx]%elem_of_cons; auto.
    + right. exists [], y, q. split; [done|]. split; [|done].
      intros x Hx. by apply not_elem_of_nil in Hx.
Qed.

(** Whatever is picked, the ring loses exactly that entry. *)
Lemma PickVictim_ring c :
  ok c ->
  match PickVictim c with
  | (None, c') => c' = c /\ ring c = []
  | (Some s, c') => ok c' /\ s ∈ ring c /\
      ring c' = filter (fun x => slot_key x <> slot_key s) (ring c)
  end.
Proof.
  intros R. destruct (rotation c) as [|x q] eqn:E.
  { destruct (PickVictim_empty _ E) as [? ->]. done. }
  assert (Hin : forall s, s ∈ rotation c -> s ∈ ring c) by (intros; by rewrite <- rotation_perm).
  destruct (first_unreferenced (rotation c) (ref c)) as [Hall|(pre & s & post & E' & Hpre & Hs)].
  - destruct (PickVictim_all_referenced _ _ _ R E Hall) as (c' & -> & Hok & _ & _ & Hr).
    split; [done|]. split; [|done]. apply Hin. rewrite E. apply elem_of_cons. by left.
  - destruct (PickVictim_unreferenced _ _ _ _ R E' Hpre Hs) as (c' & -> & Hok & _ & _ & Hr).
    split; [done|]. split; [|done]. apply Hin. rewrite E'. apply elem_of_app. right.
    apply elem_of_cons. by left.
Qed.

Lemma clock_ok_New : ok New.
Proof.
  split; cbn; [apply NoDup_nil_2| |set_solver|lia].
  intros k. rewrite elem_of_nil. set_solver.
Qed.

Lemma Push_ring c s :
  ok c ->
  ok (Push (Some s) false c) /\
  ring (Push (Some s) false c) = (if decide (slot_key s ∈ keys c) then ring c else ring c ++ [s]) /\
  ref (Push (Some s) false c) = {[slot_key s]} ∪ ref c.
Proof.
  intros R. cbn. destruct (decide (slot_key s ∈ inRing c)) as [Hin|Hin].
  - rewrite decide_True by (by apply R). split; [|done].
    split; cbn; [apply R|apply R| |apply R].
    intros k [->%elem_of_singleton|Hk]%elem_of_union; [by apply R|by apply (ok_ref _ R)].
  - assert (Hnk : slot_key s ∉ keys c) by (intros ?; by apply Hin, R).
    rewrite decide_False by done. split; [|done].
    assert (Ek : slot_key <$> ring c ++ [s] = keys c ++ [slot_key s]) by (by rewrite fmap_app).
    split; unfold keys; cbn; rewrite ?Ek.
    + apply NoDup_app. split; [apply R|]. split; [|apply NoDup_singleton].
      intros k Hk. rewrite list_elem_of_singleton. intros ->. by apply Hnk.
    + intros k. rewrite elem_of_app, elem_of_union, elem_of_singleton, (ok_inRing _ R),
        list_elem_of_singleton. tauto.
    + intros k. rewrite elem_of_app, elem_of_union, elem_of_singleton, list_elem_of_singleton. intros [->|Hk]; [tauto|]. left. by apply (ok_ref _ R).
    + pose proof (ok_head _ R). len.
Qed.

Lemma Delete_ring c k :
  ok c -> ok (Delete k c) /\ ring (Delete k c) = filter (fun x => slot_key x <> k) (ring c).
Proof.
  intros R. unfold Delete. destruct (decide (k ∈ inRing c)) as [Hin|Hin].
  - pose proof Hin as Hk. apply (ok_inRing _ R) in Hk.
    apply list_elem_of_fmap in Hk as (x & -> & Hx).
    destruct (list_find_elem_of (fun s => slot_key s = slot_key x) _ _ Hx eq_refl) as [[i y] Hf].
    rewrite Hf. apply list_find_Some in Hf as (Hi & Hy & _).
    assert (Er : remove_at i (ring c) = filter (fun z => slot_key z <> slot_key x) (ring c)).
    { rewrite <- Hy. by apply (delete_filter slot_key); [apply R|]. }
    split; [|done]. split; unfold keys; cbn.
    + rewrite Er. apply NoDup_fmap_filter, R.
    + intros k. rewrite Er, elem_of_difference, elem_of_singleton, (ok_inRing _ R).
      unfold keys. rewrite !list_elem_of_fmap. split.
      * intros [(z & -> & Hz) Hne]. exists z. split; [done|]. by apply list_elem_of_filter.
      * intros (z & -> & [Hne Hz]%list_elem_of_filter). eauto.
    + intros k [Hk Hne]%elem_of_difference. apply (ok_ref _ R) in Hk.
      unfold keys in *. rewrite Er. rewrite list_elem_of_fmap in *. destruct Hk as (z & -> & Hz).
      exists z. split; [done|]. apply list_elem_of_filter. set_solver.
    + assert (Hl : length (remove_at i (ring c)) = (length (ring c) - 1)%nat).
      { apply length_delete. eauto. }
      pose proof (lookup_lt_Some _ _ _ Hi). pose proof (ok_head _ R).
      rewrite Hl. repeat case_decide; lia.
  - split; [done|]. symmetry. apply filter_all. intros x Hx Hk. apply Hin, (ok_inRing _ R).
    unfold keys. rewrite <- Hk. apply list_elem_of_fmap. eauto.
Qed.

(** Views of the ring as a finite map. *)
Lemma clock_view_filter c c' k :
  ring c' = filter (fun x => slot_key x <> k) (ring c) -> view c' = delete k (view c).
Proof.
  intros E. unfold view. rewrite E, <- list_to_map_filter. f_equal. by apply fmap_filter.
Qed.

Lemma clock_view_lookup c s : ok c -> s ∈ ring c -> view c !! slot_key s = Some (slot_ref s).
Proof.
  intros R Hs. unfold view. apply elem_of_list_to_map.
  - rewrite <- list_fmap_compose. apply R.
  - apply list_elem_of_fmap. eauto.
Qed.

Lemma view_None c k : view c !! k = None -> k ∉ keys c.
Proof.
  unfold view. intros Hn Hk. apply not_elem_of_list_to_map in Hn. apply Hn.
  by rewrite <- list_fmap_compose.
Qed.
End facts.

(** Clock policy: the entries are visited in ring order from the hand; if
    one has its reference bit clear, the first such entry is the victim and
    exactly the entries visited before it lose their bit and go to the back;
    if all have it set, every bit is cleared and the entry under the hand is
    the victim; an empty ring gives nil.  In particular the loop always
    stops. *)
Theorem clock_policy c :
  ok c ->
  (rotation c = [] -> PickVictim c = (None, c)) /\
  (forall pre s post,
     rotation c = pre ++ s :: post ->
     (forall x, x ∈ pre -> slot_key x ∈ ref c) -> slot_key s ∉ ref c ->
     exists c', PickVictim c = (Some s, c') /\ ok c' /\ rotation c' = post ++ pre /\
       ref c' = ref c ∖ list_to_set (slot_key <$> pre)) /\
  (forall s post,
     rotation c = s :: post -> (forall x, x ∈ rotation c -> slot_key x ∈ ref c) ->
     exists c', PickVictim c = (Some s, c') /\ ok c' /\ rotation c' = post /\ ref c' = ∅).
Proof.
  intros R. split; [|split].
  - intros E. by apply PickVictim_empty.
  - intros pre s post E Hpre Hs.
    destruct (PickVictim_unreferenced _ _ _ _ R E Hpre Hs) as (c' & H). exists c'. tauto.
  - intros s post E Hall.
    destruct (PickVictim_all_referenced _ _ _ R E Hall) as (c' & H). exists c'. tauto.
Qed.

Definition push_key (f : string) (c : t) : t :=
  Push (Some {| slot_ref := 0; slot_key := NewPageKey f 0 |}) false c.

(** Three pushed pages, all referenced: the first one pushed is the victim,
    and every bit is clear afterwards. *)
Lemma clock_policy_witness :
  let c := push_key "c" (push_key "b" (push_key "a" New)) in
  ok c /\ exists c', PickVictim c = (Some {| slot_ref := 0; slot_key := NewPageKey "a" 0 |}, c') /\
    ok c' /\ slot_key <$> rotation c' = [NewPageKey "b" 0; NewPageKey "c" 0] /\ ref c' = ∅.
Proof.
  cbv zeta. assert (R : ok (push_key "c" (push_key "b" (push_key "a" New)))).
  { apply Push_ring, Push_ring, Push_ring, clock_ok_New. }
  split; [exact R|].
  edestruct (clock_policy _ R) as (_ & _ & H). edestruct H as (c' & E & Hok & Hr & Href).
  - vm_compute. reflexivity.
  - intros x Hx.
    assert (Hall : Forall (fun x => slot_key x ∈ ref (push_key "c" (push_key "b" (push_key "a" New))))
      (rotation (push_key "c" (push_key "b" (push_key "a" New)))))
      by (apply (bool_decide_unpack _); vm_compute; exact I).
    exact (proj1 (Forall_forall _ _) Hall x Hx).
  - exists c'. rewrite Hr. split; [exact E|]. split; [exact Hok|]. split; [reflexivity|exact Href].
Defined.

End Clock.

(** [ClockReplacer] implements the [Replacer] interface. *)
#[export] Instance ClockReplacer_laws : ReplacerLaws ClockReplacer.t.
Proof.
  refine {| rep_view := ClockReplacer.view; rep_ok := ClockReplacer.ok |}.
  - done.
  - done.
  - intros c p R Hv. destruct (Clock.Push_ring c p R) as (Hok & E & _).
    split; [done|]. change (rep_push (Some p) false c) with (ClockReplacer.Push (Some p) false c).
    unfold ClockReplacer.view at 1. rewrite E. case_decide as Hk.
    + destruct Hv as [Hv|Hv]; [by apply Clock.view_None in Hv|].
      symmetry. by apply insert_id.
    + rewrite fmap_app. apply list_to_map_snoc. by rewrite <- list_fmap_compose.
  - intros c k R. destruct (Clock.Delete_ring c k R) as (Hok & E).
    split; [done|]. by apply Clock.clock_view_filter.
  - intros c R. pose proof (Clock.PickVictim_ring c R) as H.
    change (rep_pick c) with (ClockReplacer.PickVictim c).
    destruct (ClockReplacer.PickVictim c) as [[s|] c'].
    + destruct H as (Hok & Hin & E). split; [done|]. split; [by apply Clock.clock_view_lookup|].
      by apply Clock.clock_view_filter.
    + destruct H as (-> & E). split; [done|]. unfold ClockReplacer.view. by rewrite E.
Defined.
