(* ===== verification/PageFile.v ===== *)
(** * PageFile: page files on disk

    Models the package [memory/manager]: the interface [PageFileManager] is a
    type class with the laws the buffer pool needs, and [HeapPageFileManager]
    is its instance over a small file system.  The file system maps a path to
    the bytes of the file; every operating-system call may fail, as decided by
    a list of faults that is consumed call by call (a failing write may have
    written a prefix of its data), so a theorem over all file systems is a
    theorem over all fault patterns. *)

From S2P Require Import Prelude GoRuntime HeapPage.

(** ** The file system *)

Inductive fault : Type := NoFault | Fault (written : nat).

Record FS : Type := { files : gmap string (list byte); faults : list fault }.

Definition with_files (f : gmap string (list byte)) (d : FS) : FS :=
  {| files := f; faults := faults d |}.

(** The fault that decides the next call; no fault once the list is used up. *)
Definition next_fault : ST FS fault := fun d =>
  match faults d with
  | [] => (Ok NoFault, d)
  | f :: fs => (Ok f, {| files := files d; faults := fs |})
  end.

Definition os_call (op : string) : ST FS unit :=
  f <- next_fault ;;
  match f with NoFault => sret tt | Fault _ => sfail (OSError op) end.

(** A file as an infinite sequence of bytes, zero beyond its end: this is what
    [WriteAt] extends a file with. *)
Definition file_bytes (d : FS) (path : string) : list byte := default [] (files d !! path).

Definition pad (n : nat) (l : list byte) : list byte := l ++ replicate (n - length l) (byte_of 0).

(** The file after the bytes [bs] were written at [off]; without any bytes it
    does not grow. *)
Definition write_at (l : list byte) (off : nat) (bs : list byte) : list byte :=
  match bs with [] => l | _ => splice off bs (pad (off + length bs) l) end.

(** [file.WriteAt(bs, off)] with [off >= 0]; a failing call has written some
    of the bytes, or none. *)

Definition WriteAt (path : string) (bs : list byte) (off : Z) : ST FS unit :=
  if off <? 0 then sfail (OSError "write")
  else
    f <- next_fault ;;
    let bs' := match f with NoFault => bs | Fault n => take n bs end in
    smodify (fun d => with_files (<[path := write_at (file_bytes d path) (Z.to_nat off) bs']> (files d)) d) ;;;
    match f with NoFault => sret tt | Fault _ => sfail (OSError "write") end.

(** [os.OpenFile(path, O_CREATE|O_RDWR)] and [os.Open(path)]. *)
Definition OpenFileCreate (path : string) : ST FS unit :=
  os_call "open" ;;;
  smodify (fun d => with_files (<[path := file_bytes d path]> (files d)) d).

Definition OpenFile (path : string) : ST FS unit :=
  os_call "open" ;;;
  d <- sget ;;
  match files d !! path with Some _ => sret tt | None => sfail (OSError "open") end.

Definition StatSize (path : string) : ST FS Z :=
  os_call "stat" ;;;
  d <- sget ;; sret (Z.of_nat (length (file_bytes d path))).

(** [io.ReadFull] of a section of [n] bytes at [off]: an error unless the
    file has them all. *)
Definition ReadFullAt (path : string) (off n : Z) : ST FS (list byte) :=
  os_call "read" ;;;
  d <- sget ;;
  slift (match go_slice (file_bytes d path) off (off + n) with
         | Ok bs => Ok bs
         | _ => Err (OSError "read")
         end).

(** ** The interface *)
Class PageFileManager (D : Type) : Type := {
  pfm_write : HeapPage -> string -> ST D unit;
  pfm_read : Z -> string -> ST D HeapPage
}.

(** A valid page buffer: page-sized, with the signature. *)
Definition valid_buf (b : list byte) : Prop :=
  Z.of_nat (length b) = PageSize /\ field 4 0 b = Signature.

#[export] Instance valid_buf_dec b : Decision (valid_buf b).
Proof. unfold valid_buf. apply _. Defined.

(** The law of a page store: [stored d path id] is the page on disk.  A
    successful write stores that page and touches no other; a failed write may
    damage that page only; reading changes nothing and returns what is
    stored.  When the laws are used for a [reliable] disk, no call on a
    [healthy] disk fails for a reason of the disk, and it stays healthy. *)
Class PageFileLaws (D : Type) `{PageFileManager D} : Type := {
  stored : D -> string -> Z -> option (list byte);
  reliable : Prop;
  healthy : D -> Prop;
  pfm_write_reliable d p path :
    reliable -> healthy d -> valid_buf (buf p) -> 0 <= pageID p < 2 ^ 31 -> path <> ""%string ->
    (pfm_write p path d).1 = Ok tt /\ healthy (pfm_write p path d).2;
  pfm_read_reliable d id path :
    reliable -> healthy d -> 0 <= id < 2 ^ 31 -> path <> ""%string ->
    healthy (pfm_read id path d).2 /\
    (is_Some (stored d path id) -> exists p, (pfm_read id path d).1 = Ok p);
  pfm_write_law d p path :
    valid_buf (buf p) -> 0 <= pageID p < 2 ^ 31 -> path <> ""%string ->
    exists r d', pfm_write p path d = (r, d') /\
      (r = Ok tt /\ stored d' path (pageID p) = Some (buf p) \/ exists e, r = Err e) /\
      forall path' id', 0 <= id' < 2 ^ 31 -> (path', id') <> (path, pageID p) ->
        stored d' path' id' = stored d path' id';
  pfm_read_law d id path :
    0 <= id < 2 ^ 31 ->
    exists r d', pfm_read id path d = (r, d') /\
      (forall path' id', stored d' path' id' = stored d path' id') /\
      ((exists p, r = Ok p /\ pageID p = id /\ valid_buf (buf p) /\ stored d path id = Some (buf p))
       \/ exists e, r = Err e)
}.

(** ** [HeapPageFileManager] *)
Module HeapPageFileManager.

(** [page_] is [None] for a nil page. *)
Definition Write (page_ : option HeapPage) (path : string) : ST FS unit :=
  if decide (path = ""%string) then sfail (Errorf "path: empty")
  else match page_ with
  | None => sfail (Errorf "page: nil")
  | Some p =>
    if pageID p <? 0 then sfail ErrInvalidPageID
    else
      ok <- slift (IsValid p) ;;
      if negb ok then sfail manager_ErrInvalidSignature
      else
        os_call "mkdir" ;;;
        OpenFileCreate path ;;;
        let offset := int64 (pageID p * PageSize) in
        WriteAt path (buf p) offset
  end.

Definition Read (id : Z) (path : string) : ST FS HeapPage :=
  if decide (path = ""%string) then sfail (Errorf "path: empty")
  else if id <? 0 then sfail ErrInvalidPageID
  else
    OpenFile path ;;;
    size <- StatSize path ;;
    let offset := int64 (id * PageSize) in
    let end_ := int64 (offset + PageSize) in
    if size <? end_ then sfail ErrOutOfBounds
    else
      buffer <- ReadFullAt path offset PageSize ;;
      match NewHeapPageFromBuffer id (Some buffer) with
      | Ok p => sret p
      | Err _ => sfail manager_ErrInvalidSignature
      | Panic => spanic
      end.

(** The page a file holds at [id]: its bytes, if they carry the signature. *)
Definition page_bytes (l : list byte) (id : Z) : list byte :=
  sub (Z.to_nat (id * PageSize)) (Z.to_nat PageSize) (pad (Z.to_nat (id * PageSize + PageSize)) l).

Definition stored (d : FS) (path : string) (id : Z) : option (list byte) :=
  let b := page_bytes (file_bytes d path) id in
  if decide (valid_buf b) then Some b else None.

End HeapPageFileManager.

#[export] Instance HeapPageFileManager_pfm : PageFileManager FS := {|
  pfm_write p path := HeapPageFileManager.Write (Some p) path;
  pfm_read := HeapPageFileManager.Read
|}.

(** ** Files as zero-extended byte sequences *)
Section file_facts.
Implicit Types l bs : list byte.

Definition byte_at l (i : nat) : byte := default (byte_of 0) (l !! i).

Lemma lookup_pad n l i : (i < n)%nat -> pad n l !! i = Some (byte_at l i).
Proof.
  intros Hi. unfold pad, byte_at. destruct (decide (i < length l)%nat) as [Hl|Hl].
  - rewrite lookup_app_l by done. destruct (lookup_lt_is_Some_2 _ _ Hl) as [b Hb]. by rewrite Hb.
  - rewrite lookup_app_r, lookup_replicate_2 by lia. by rewrite lookup_ge_None_2 by lia.
Qed.

Lemma byte_at_pad n l i : byte_at (pad n l) i = byte_at l i.
Proof.
  unfold byte_at, pad. destruct (decide (i < length l)%nat).
  - by rewrite lookup_app_l.
  - rewrite lookup_app_r by lia. rewrite (lookup_ge_None_2 l) by lia.
    destruct (decide (i - length l < n - length l)%nat).
    + by rewrite lookup_replicate_2.
    + by rewrite lookup_ge_None_2 by len.
Qed.

Lemma length_pad n l : length (pad n l) = Nat.max n (length l).
Proof. unfold pad. len. Qed.

Lemma byte_at_write_at l off bs i :
  byte_at (write_at l off bs) i =
    if decide (off <= i < off + length bs)%nat then byte_at bs (i - off) else byte_at l i.
Proof.
  destruct bs as [|b bs]; [rewrite decide_False; [done|cbn; lia]|].
  unfold write_at. unfold byte_at at 1. rewrite lookup_splice by (rewrite length_pad; lia).
  case_decide; [done|]. apply byte_at_pad.
Qed.

Lemma length_write_at l off bs : bs <> [] -> length (write_at l off bs) = Nat.max (length l) (off + length bs).
Proof.
  intros Hbs. destruct bs as [|b bs]; [done|]. unfold write_at. rewrite length_splice; rewrite length_pad; lia.
Qed.

Lemma byte_at_lt l i : (i < length l)%nat -> l !! i = Some (byte_at l i).
Proof. intros H. unfold byte_at. by destruct (lookup_lt_is_Some_2 _ _ H) as [b ->]. Qed.

Import HeapPageFileManager.

Lemma page_bytes_lookup l id i :
  0 <= id -> (i < Z.to_nat PageSize)%nat ->
  page_bytes l id !! i = Some (byte_at l (Z.to_nat (id * PageSize) + i)).
Proof.
  intros Hid Hi. unfold page_bytes. unfold PageSize in *. rewrite lookup_sub by lia.
  rewrite lookup_pad by lia. done.
Qed.

Lemma length_page_bytes l id : 0 <= id -> length (page_bytes l id) = Z.to_nat PageSize.
Proof.
  intros. unfold page_bytes. rewrite length_sub; [done|]. rewrite length_pad.
  unfold PageSize. lia.
Qed.

Lemma page_bytes_ext l l' id :
  0 <= id ->
  (forall i, (Z.to_nat (id * PageSize) <= i < Z.to_nat (id * PageSize + PageSize))%nat ->
     byte_at l i = byte_at l' i) ->
  page_bytes l id = page_bytes l' id.
Proof.
  intros Hid H. apply list_eq_same_length with (n := Z.to_nat PageSize);
    [by apply length_page_bytes|by apply length_page_bytes|].
  intros i x y Hi. rewrite !page_bytes_lookup by done. unfold PageSize in *.
  intros [= <-] [= <-]. apply H. lia.
Qed.

(** Writing a window of one page leaves the other pages as they were. *)
Lemma page_bytes_write_other l id bs id' :
  0 <= id -> 0 <= id' -> id' <> id -> Z.of_nat (length bs) <= PageSize ->
  page_bytes (write_at l (Z.to_nat (id * PageSize)) bs) id' = page_bytes l id'.
Proof.
  intros. apply page_bytes_ext; [done|]. intros i Hi. rewrite byte_at_write_at.
  unfold PageSize in *. rewrite decide_False; [done|]. nia.
Qed.

Lemma page_bytes_write_same l id bs :
  0 <= id -> Z.of_nat (length bs) = PageSize ->
  page_bytes (write_at l (Z.to_nat (id * PageSize)) bs) id = bs.
Proof.
  intros Hid Hl. apply list_eq_same_length with (n := Z.to_nat PageSize);
    [lia|by rewrite length_page_bytes|].
  intros i x y Hi. rewrite page_bytes_lookup, byte_at_write_at, (byte_at_lt bs) by lia.
  rewrite decide_True by lia. intros [= <-] [= <-]. f_equal. lia.
Qed.

Lemma page_bytes_sub l id :
  0 <= id -> id * PageSize + PageSize <= Z.of_nat (length l) ->
  page_bytes l id = sub (Z.to_nat (id * PageSize)) (Z.to_nat PageSize) l.
Proof.
  intros Hid Hl. unfold page_bytes, pad. apply sub_app_l. unfold PageSize in *. lia.
Qed.
End file_facts.

(** ** The laws hold *)
Section laws.
Import HeapPageFileManager.
Implicit Types (d : FS) (path : string).

Lemma stored_ext d d' path path' id :
  page_bytes (file_bytes d' path) id = page_bytes (file_bytes d path') id ->
  stored d' path id = stored d path' id.
Proof. unfold stored. by intros ->. Qed.

Lemma page_offset id : 0 <= id < 2 ^ 31 -> int64 (id * PageSize) = id * PageSize.
Proof. intros. apply sint_id; unfold in_sint, PageSize; lia. Qed.

Lemma page_end id : 0 <= id < 2 ^ 31 -> int64 (id * PageSize + PageSize) = id * PageSize + PageSize.
Proof. intros. apply sint_id; unfold in_sint, PageSize; lia. Qed.

(** The system calls before [WriteAt] leave every file's bytes as they are. *)
Definition same_bytes d d' : Prop := forall path, file_bytes d' path = file_bytes d path.

Lemma os_call_spec op d :
  exists r d', os_call op d = (r, d') /\ files d' = files d /\
    (r = Ok tt \/ exists e, r = Err e).
Proof.
  unfold os_call, next_fault, sbind. destruct (faults d) as [|[|n] fs]; cbn; eauto 10.
Qed.

Lemma same_files d d' : files d' = files d -> same_bytes d d'.
Proof. intros H path. unfold file_bytes. by rewrite H. Qed.

Lemma same_bytes_stored d d' path id : same_bytes d d' -> stored d' path id = stored d path id.
Proof. intros H. apply stored_ext. by rewrite H. Qed.

Lemma OpenFileCreate_spec path d :
  exists r d', OpenFileCreate path d = (r, d') /\ same_bytes d d' /\
    (r = Ok tt \/ exists e, r = Err e).
Proof.
  unfold OpenFileCreate, sbind.
  destruct (os_call_spec "open" d) as (r & d' & -> & Hf & [->|[e ->]]); cbn.
  - eexists _, _. split; [done|]. split; [|by left]. intros path'.
    unfold file_bytes; cbn. rewrite Hf. destruct (decide (path' = path)) as [->|].
    + rewrite lookup_insert_eq. cbn. done.
    + by rewrite lookup_insert_ne.
  - eexists _, _. split; [done|]. split; [by apply same_files|eauto].
Qed.

Lemma WriteAt_spec path bs id d :
  0 <= id -> Z.of_nat (length bs) = PageSize -> valid_buf bs ->
  exists r d', WriteAt path bs (id * PageSize) d = (r, d') /\
    (r = Ok tt /\ stored d' path id = Some bs \/ exists e, r = Err e) /\
    forall path' id', 0 <= id' -> (path', id') <> (path, id) ->
      stored d' path' id' = stored d path' id'.
Proof.
  intros Hid Hl Hv. unfold WriteAt. rewrite (proj2 (Z.ltb_ge _ _)) by (unfold PageSize; lia).
  unfold sbind, next_fault.
  assert (Hother : forall d0 bs', files d0 = files d -> Z.of_nat (length bs') <= PageSize ->
    forall path' id', 0 <= id' -> (path', id') <> (path, id) ->
    stored (with_files (<[path := write_at (file_bytes d0 path) (Z.to_nat (id * PageSize)) bs']>
      (files d0)) d0) path' id' = stored d path' id').
  { intros d0 bs' Hf Hb path' id' Hid' Hne. apply stored_ext. unfold file_bytes at 1; cbn.
    destruct (decide (path' = path)) as [->|].
    - rewrite lookup_insert_eq. cbn. rewrite page_bytes_write_other by congruence.
      unfold file_bytes. by rewrite Hf.
    - rewrite lookup_insert_ne, Hf by done. done. }
  assert (Hsame : forall d0, files d0 = files d ->
    stored (with_files (<[path := write_at (file_bytes d0 path) (Z.to_nat (id * PageSize)) bs]>
      (files d0)) d0) path id = Some bs).
  { intros d0 _.
    assert (E : page_bytes (file_bytes (with_files (<[path := write_at (file_bytes d0 path)
      (Z.to_nat (id * PageSize)) bs]> (files d0)) d0) path) id = bs).
    { unfold file_bytes at 1; cbn. rewrite lookup_insert_eq; cbn. by apply page_bytes_write_same. }
    unfold stored. rewrite E. by rewrite decide_True. }
  destruct (faults d) as [|[|n] fs]; cbn; eexists _, _; (split; [done|]); split.
  - left. split; [done|]. by apply Hsame.
  - intros. apply Hother; try done. lia.
  - left. split; [done|]. by apply (Hsame (Build_FS _ _)).
  - intros. apply (Hother (Build_FS _ _)); try done. lia.
  - right. eauto.
  - intros. apply (Hother (Build_FS _ _)); try done. rewrite length_take. lia.
Qed.

Lemma IsValid_valid_buf p : valid_buf (buf p) -> IsValid p = Ok true.
Proof.
  intros [Hl Hs]. unfold IsValid. rewrite readU32_ok by done. offs. cbn [obind]. by rewrite Hs.
Qed.

Lemma Write_spec p path d :
  valid_buf (buf p) -> 0 <= pageID p < 2 ^ 31 -> path <> ""%string ->
  exists r d', Write (Some p) path d = (r, d') /\
    (r = Ok tt /\ stored d' path (pageID p) = Some (buf p) \/ exists e, r = Err e) /\
    forall path' id', 0 <= id' -> (path', id') <> (path, pageID p) ->
      stored d' path' id' = stored d path' id'.
Proof.
  intros Hv Hid Hp. unfold Write. rewrite decide_False by done.
  rewrite (proj2 (Z.ltb_ge _ _)) by lia. unfold sbind at 1, slift.
  rewrite (IsValid_valid_buf p Hv). cbn [negb]. unfold sbind at 1.
  destruct (os_call_spec "mkdir" d) as (r1 & d1 & -> & Hf1 & [->|[e ->]]).
  2:{ eexists _, _. split; [done|]. split; [eauto|]. intros.
      apply same_bytes_stored, same_files, Hf1. }
  unfold sbind at 1.
  destruct (OpenFileCreate_spec path d1) as (r2 & d2 & -> & Hs2 & [->|[e ->]]).
  2:{ eexists _, _. split; [done|]. split; [eauto|]. intros.
      rewrite (same_bytes_stored d1 d2) by done. apply same_bytes_stored, same_files, Hf1. }
  rewrite page_offset by done. destruct Hv as [Hl Hs].
  destruct (WriteAt_spec path (buf p) (pageID p) d2) as (r3 & d3 & E & Hr & Ho); [lia|done|done|].
  exists r3, d3. split; [done|]. split; [done|]. intros path' id' Hid' Hne.
  rewrite Ho, (same_bytes_stored d1 d2) by done. apply same_bytes_stored, same_files, Hf1.
Qed.

(** A read that stops with an error, having changed no file. *)
Ltac failed := eexists _, _; split; [done|]; split; [cbn; congruence|]; right; eexists; done.

(** Reading keeps every file; what it returns is the stored page. *)
Lemma Read_spec id path d :
  0 <= id < 2 ^ 31 ->
  exists r d', Read id path d = (r, d') /\ files d' = files d /\
    ((exists p, r = Ok p /\ pageID p = id /\ valid_buf (buf p) /\ stored d path id = Some (buf p))
     \/ exists e, r = Err e).
Proof.
  intros Hid. unfold Read. case_decide; [failed|].
  rewrite (proj2 (Z.ltb_ge _ _)) by lia. unfold OpenFile, StatSize, ReadFullAt, sbind.
  destruct (os_call_spec "open" d) as (r1 & d1 & -> & Hf1 & [->|[e ->]]); [|failed].
  cbn -[NewHeapPageFromBuffer]. destruct (files d1 !! path) eqn:Hpath; cbn -[NewHeapPageFromBuffer]; [|failed].
  destruct (os_call_spec "stat" d1) as (r2 & d2 & -> & Hf2 & [->|[e ->]]); [|failed].
  cbn -[NewHeapPageFromBuffer]. rewrite page_offset, page_end by done.
  destruct (Z.ltb_spec (Z.of_nat (length (file_bytes d2 path))) (id * PageSize + PageSize)) as [Hsz|Hsz];
    [failed|].
  destruct (os_call_spec "read" d2) as (r3 & d3 & -> & Hf3 & [->|[e ->]]); [|failed].
  cbn -[NewHeapPageFromBuffer]. assert (Hb : file_bytes d3 path = file_bytes d path).
  { apply same_files. by rewrite Hf3, Hf2, Hf1. }
  assert (Hb2 : file_bytes d2 path = file_bytes d path).
  { apply same_files. by rewrite Hf2, Hf1. }
  rewrite Hb2 in Hsz. rewrite Hb.
  rewrite go_slice_ok by (unfold PageSize in *; lia).
  replace (Z.to_nat (id * PageSize + PageSize - id * PageSize)) with (Z.to_nat PageSize) by lia.
  rewrite <- page_bytes_sub by lia. cbn -[NewHeapPageFromBuffer].
  rewrite NewHeapPageFromBuffer_loads by (apply length_page_bytes; lia).
  unfold stored, valid_buf. case_decide as Hs.
  - eexists _, _. cbn. split; [done|]. split; [congruence|]. left. eexists. split; [done|].
    cbn. pose proof (length_page_bytes (file_bytes d path) id). unfold PageSize in *.
    rewrite decide_True by (split; [lia|done]). repeat split; [lia|done].
  - eexists _, _. cbn. split; [done|]. split; [congruence|]. eauto.
Qed.

(** What success leaves on disk, and runs without faults. *)
Lemma os_call_quiet op d : faults d = [] -> os_call op d = (Ok tt, d).
Proof. intros H. unfold os_call, next_fault, sbind. by rewrite H. Qed.

Lemma WriteAt_length path bs off d d' :
  bs <> [] -> WriteAt path bs off d = (Ok tt, d') ->
  exists l, files d' !! path = Some l /\ off + Z.of_nat (length bs) <= Z.of_nat (length l).
Proof.
  intros Hbs. unfold WriteAt. case_match eqn:Hoff; [done|]. apply Z.ltb_ge in Hoff.
  unfold sbind, next_fault. intros Hw.
  destruct (faults d) as [|[|n] fs]; cbn in Hw; [injection Hw as <-|injection Hw as <-|done];
    cbn; rewrite lookup_insert_eq; eexists; (split; [done|]);
    rewrite length_write_at by done; lia.
Qed.

Lemma Write_length p path d d' :
  valid_buf (buf p) -> 0 <= pageID p < 2 ^ 31 -> Write (Some p) path d = (Ok tt, d') ->
  exists l, files d' !! path = Some l /\ pageID p * PageSize + PageSize <= Z.of_nat (length l).
Proof.
  intros Hv Hid. unfold Write. case_decide; [done|]. rewrite (proj2 (Z.ltb_ge _ _)) by lia.
  unfold sbind at 1, slift. rewrite (IsValid_valid_buf p Hv). cbn [negb]. unfold sbind at 1.
  destruct (os_call "mkdir" d) as [[[]| |] d1]; try done. unfold sbind at 1.
  destruct (OpenFileCreate path d1) as [[[]| |] d2]; try done.
  rewrite page_offset by done. destruct Hv as [E _]. intros Hw%WriteAt_length; [by rewrite E in Hw|].
  intros E0. by rewrite E0 in E.
Qed.

Lemma Write_quiet p path d :
  valid_buf (buf p) -> path <> ""%string -> 0 <= pageID p < 2 ^ 31 -> faults d = [] ->
  exists d', Write (Some p) path d = (Ok tt, d') /\ faults d' = [].
Proof.
  intros Hv Hp Hid Hf. unfold Write. rewrite decide_False by done.
  rewrite (proj2 (Z.ltb_ge _ _)) by lia.
  unfold sbind, slift. rewrite (IsValid_valid_buf p Hv). cbn [negb].
  unfold OpenFileCreate, sbind. rewrite !os_call_quiet by done. cbn [smodify].
  rewrite page_offset by done. unfold WriteAt.
  rewrite (proj2 (Z.ltb_ge _ _)) by (unfold PageSize; lia).
  unfold sbind, next_fault. cbn. rewrite Hf. cbn. eauto.
Qed.

Lemma OpenFile_quiet path d l :
  faults d = [] -> files d !! path = Some l -> OpenFile path d = (Ok tt, d).
Proof.
  intros Hf Hl. unfold OpenFile. rewrite (sbind_ok _ _ d tt d) by by apply os_call_quiet.
  rewrite (sbind_ok _ _ d d d) by done. by rewrite Hl.
Qed.

Lemma StatSize_quiet path d :
  faults d = [] -> StatSize path d = (Ok (Z.of_nat (length (file_bytes d path))), d).
Proof.
  intros Hf. unfold StatSize. rewrite (sbind_ok _ _ d tt d) by by apply os_call_quiet.
  by rewrite (sbind_ok _ _ d d d).
Qed.

Lemma ReadFullAt_quiet path d off n :
  faults d = [] -> 0 <= off -> 0 <= n -> off + n <= Z.of_nat (length (file_bytes d path)) ->
  ReadFullAt path off n d = (Ok (sub (Z.to_nat off) (Z.to_nat n) (file_bytes d path)), d).
Proof.
  intros Hf H1 H2 H3. unfold ReadFullAt. rewrite (sbind_ok _ _ d tt d) by by apply os_call_quiet.
  rewrite (sbind_ok _ _ d d d) by done. rewrite go_slice_ok by lia.
  by replace (off + n - off) with n by lia.
Qed.

Lemma stored_inv d path id b :
  stored d path id = Some b ->
  field 4 0 (page_bytes (file_bytes d path) id) = Signature /\ page_bytes (file_bytes d path) id = b.
Proof. unfold stored. case_decide as Hv; [|done]. intros [= <-]. split; [apply Hv|done]. Qed.

Lemma NewHeapPageFromBuffer_good id b :
  length b = Z.to_nat PageSize -> field 4 0 b = Signature ->
  NewHeapPageFromBuffer id (Some b) = Ok {| pageID := id; buf := b |}.
Proof. intros. rewrite NewHeapPageFromBuffer_loads by done. by rewrite decide_True. Qed.

Lemma Read_quiet id path d b l :
  0 <= id < 2 ^ 31 -> path <> ""%string -> faults d = [] ->
  files d !! path = Some l -> id * PageSize + PageSize <= Z.of_nat (length l) ->
  stored d path id = Some b ->
  Read id path d = (Ok {| pageID := id; buf := b |}, d).
Proof.
  intros Hid Hp Hf Hl Hlen [Hv <-]%stored_inv.
  assert (Hb : file_bytes d path = l) by (unfold file_bytes; by rewrite Hl).
  unfold Read. rewrite decide_False by done. rewrite (proj2 (Z.ltb_ge _ _)) by lia.
  rewrite (sbind_ok _ _ d tt d) by by eapply OpenFile_quiet.
  rewrite (sbind_ok _ _ d (Z.of_nat (length l)) d) by by rewrite StatSize_quiet, Hb.
  rewrite page_offset, page_end by done. cbv zeta. rewrite (proj2 (Z.ltb_ge _ _)) by done.
  erewrite sbind_ok by (apply ReadFullAt_quiet; rewrite ?Hb; unfold PageSize in *; [done|lia..]).
  rewrite <- page_bytes_sub by (rewrite ?Hb; lia).
  by rewrite NewHeapPageFromBuffer_good by (done || apply length_page_bytes; lia).
Qed.
(** *** Files without faults *)

(** No fault is ahead, and every file is made of whole pages. *)
Definition whole_pages (l : list byte) : Prop := Z.of_nat (length l) mod PageSize = 0.
Definition healthy_files d : Prop := faults d = [] /\ map_Forall (fun _ l => whole_pages l) (files d).

#[export] Instance healthy_files_dec d : Decision (healthy_files d).
Proof. unfold healthy_files, whole_pages. apply _. Defined.

Lemma whole_file d path : healthy_files d -> whole_pages (file_bytes d path).
Proof.
  intros [_ Hw]. unfold file_bytes. destruct (files d !! path) as [l|] eqn:E; [|done]. by apply (Hw path).
Qed.

Lemma insert_whole d f path l : whole_pages l -> map_Forall (fun _ l => whole_pages l) f ->
  faults d = [] -> healthy_files (with_files (<[path := l]> f) d).
Proof. intros Hl Hf Hd. split; [done|]. by apply map_Forall_insert_2. Qed.

Lemma Write_healthy p path d :
  valid_buf (buf p) -> 0 <= pageID p < 2 ^ 31 -> path <> ""%string -> healthy_files d ->
  (Write (Some p) path d).1 = Ok tt /\ healthy_files (Write (Some p) path d).2.
Proof.
  intros Hv Hid Hp Hd. pose proof (whole_file d path Hd) as Hl. destruct Hd as [Hf Hw].
  unfold Write. rewrite decide_False by done. rewrite (proj2 (Z.ltb_ge _ _)) by lia.
  unfold sbind, slift. rewrite (IsValid_valid_buf p Hv). cbn [negb].
  unfold OpenFileCreate, sbind. rewrite !os_call_quiet by done. cbn [smodify].
  rewrite page_offset by done. unfold WriteAt.
  rewrite (proj2 (Z.ltb_ge _ _)) by (unfold PageSize; lia).
  unfold sbind, next_fault. cbn. rewrite Hf. cbn. split; [done|].
  apply insert_whole; [|by apply map_Forall_insert_2|done].
  unfold file_bytes at 1. cbn. rewrite lookup_insert_eq. cbn [default].
  destruct Hv as [Hlen _]. unfold whole_pages in *.
  rewrite length_write_at by (intros E; rewrite E in Hlen; discriminate Hlen).
  unfold PageSize in *. apply Z.mod_divide in Hl as [n Hl]; [|done].
  apply Z.mod_divide; [done|]. unfold id. exists (Z.max n (pageID p + 1)). lia.
Qed.

(** A page beyond the end of a file is all zeros. *)
Lemma stored_inside d path id :
  0 <= id -> whole_pages (file_bytes d path) -> is_Some (stored d path id) ->
  id * PageSize + PageSize <= Z.of_nat (length (file_bytes d path)).
Proof.
  intros Hid Hw [b Hs]. apply stored_inv in Hs as [Hf _]. apply Z.nlt_ge. intros Hlt.
  assert (Hle : Z.of_nat (length (file_bytes d path)) <= id * PageSize).
  { unfold whole_pages, PageSize in *. apply Z.mod_divide in Hw as [n Hw]; [|done]. lia. }
  assert (E : page_bytes (file_bytes d path) id = replicate (Z.to_nat PageSize) (byte_of 0)).
  { apply list_eq_same_length with (n := Z.to_nat PageSize); [by rewrite length_replicate|by apply length_page_bytes|].
    intros i x y Hi. rewrite page_bytes_lookup by done. rewrite lookup_replicate_2 by done. intros [= <-] [= <-].
    unfold byte_at. rewrite lookup_ge_None_2; [done|]. lia. }
  rewrite E in Hf. vm_compute in Hf. discriminate Hf.
Qed.

Lemma Read_healthy id path d :
  0 <= id < 2 ^ 31 -> path <> ""%string -> healthy_files d ->
  healthy_files (Read id path d).2 /\ (is_Some (stored d path id) -> exists p, (Read id path d).1 = Ok p).
Proof.
  intros Hid Hp Hd. pose proof (whole_file d path Hd) as Hw. pose proof Hd as [Hf Hall]. split.
  - enough (E : (Read id path d).2 = d) by (by rewrite E). unfold Read. case_decide; [done|]. rewrite (proj2 (Z.ltb_ge _ _)) by lia.
    unfold OpenFile, StatSize, ReadFullAt, sbind. rewrite os_call_quiet by done. cbn -[NewHeapPageFromBuffer].
    destruct (files d !! path); cbn -[NewHeapPageFromBuffer]; [|done]. rewrite os_call_quiet by done. cbn -[NewHeapPageFromBuffer].
    case_match; [done|]. rewrite os_call_quiet by done. cbn -[NewHeapPageFromBuffer].
    unfold slift. repeat case_match; done.
  - intros Hs. pose proof (stored_inside d path id (proj1 Hid) Hw Hs) as Hin. destruct Hs as [b Hs].
    destruct (files d !! path) as [l|] eqn:El; unfold file_bytes in Hin; rewrite El in Hin; cbn [default length] in Hin.
    + exists {| pageID := id; buf := b |}. by rewrite (Read_quiet id path d b l).
    + unfold PageSize in Hin. cbn in Hin. lia.
Qed.
End laws.

(** C30: page files: under every pattern of operating-system faults, [Write]
    of a valid page leaves every other page of every file as it was, does not
    panic, and when it reports success the page is on disk and a fault-free
    [Read] returns exactly that page; without faults [Write] succeeds. *)
Theorem page_file_roundtrip p path d :
  valid_buf (buf p) -> 0 <= pageID p < 2 ^ 31 -> path <> ""%string ->
  exists r d', HeapPageFileManager.Write (Some p) path d = (r, d') /\ r <> Panic /\
    (faults d = [] -> r = Ok tt) /\
    (r = Ok tt -> forall d'', files d'' = files d' -> faults d'' = [] ->
       HeapPageFileManager.Read (pageID p) path d'' = (Ok p, d'')) /\
    (forall path' id', 0 <= id' -> (path', id') <> (path, pageID p) ->
       HeapPageFileManager.stored d' path' id' = HeapPageFileManager.stored d path' id').
Proof.
  intros Hv Hid Hp. destruct (Write_spec p path d Hv Hid Hp) as (r & d' & E & Hr & Ho).
  exists r, d'. split; [done|]. split; [by destruct Hr as [[-> _]|[e ->]]|]. split; [|split; [|done]].
  - intros Hf. destruct (Write_quiet p path d) as (d0 & E' & _); [done..|]. congruence.
  - intros -> d'' Hd Hf. destruct (Write_length p path d d' Hv Hid E) as (l & Hl & Hlen).
    destruct Hr as [[_ Hs]|[e He]]; [|done].
    assert (Hs' : HeapPageFileManager.stored d'' path (pageID p) = Some (buf p)).
    { rewrite <- Hs. by apply same_bytes_stored, same_files. }
    rewrite <- Hd in Hl. destruct p as [id b].
    exact (Read_quiet id path d'' b l Hid Hp Hf Hl Hlen Hs').
Qed.

Definition blank_page (id : Z) : HeapPage :=
  default {| pageID := id; buf := [] |} (match NewHeapPage id with Ok p => Some p | _ => None end).

Lemma page_file_roundtrip_witness :
  (valid_buf (buf (blank_page 1)) /\ 0 <= pageID (blank_page 1) < 2 ^ 31) /\
  exists r d', HeapPageFileManager.Write (Some (blank_page 1)) "t.tbl" {| files := ∅; faults := [] |} = (r, d')
    /\ r = Ok tt.
Proof.
  assert (Hv : valid_buf (buf (blank_page 1))) by (apply (bool_decide_unpack _); vm_compute; exact I).
  assert (Hid : 0 <= pageID (blank_page 1) < 2 ^ 31) by (vm_compute; split; congruence).
  split; [split; assumption|].
  destruct (page_file_roundtrip (blank_page 1) "t.tbl" {| files := ∅; faults := [] |} Hv Hid
    ltac:(discriminate)) as (r & d' & E & _ & Hr & _).
  exists r, d'. split; [exact E|]. apply Hr. reflexivity.
Defined.

(** The file manager satisfies the laws of a page store. *)
(** The laws of the files, for disks that may fail and, with [b] true, for
    disks that do not. *)
Definition FS_laws (b : Prop) : PageFileLaws FS.
Proof.
  refine {| stored := HeapPageFileManager.stored; reliable := b; healthy := healthy_files |}.
  - intros d p path _ Hd Hv Hid Hp. by apply Write_healthy.
  - intros d id path _ Hd Hid Hp. by apply Read_healthy.
  - intros d p path Hv Hid Hp. destruct (Write_spec p path d Hv Hid Hp) as (r & d' & E & Hr & Ho).
    exists r, d'. split; [done|]. split; [done|]. intros. apply Ho; [lia|done].
  - intros d id path Hid. destruct (Read_spec id path d Hid) as (r & d' & E & Hf & Hr).
    exists r, d'. split; [done|]. split; [|done]. intros. by apply same_bytes_stored, same_files.
Defined.

#[export] Instance HeapPageFileManager_laws : PageFileLaws FS := FS_laws False.
