(* ===== verification/BufferPool.v ===== *)
(** * BufferPool: the page cache and the dirty-page writer

    Models [memory/buffer/heap_buffer_pool_manager.go],
    [memory/model/buffer_slot.go] and the batch of
    [memory/background/default_dirty_page_writer.go] over any replacer and any
    page file manager (the two type classes).

    Slots are references into [slots], since the replacer and the callers keep
    pointers to them; a page is its id and a reference to its byte array in
    [mem], since [NewHeapPageFromBuffer] makes pages that share one array.  Go
    iterates over a map in no fixed order, so an operation that iterates takes
    the order as an argument.

    [contents P k] is what the pool stands for: the bytes of the resident page
    of [k], or what is on disk.  The theorems show that eviction, flushing and
    loading never change it for a page whose clean copy agrees with the disk,
    under every pattern of disk errors. *)

From S2P Require Import Prelude GoRuntime HeapPage Replacer PageFile.

(** ** [filepath.Join] on Unix *)
Module Filepath.

Fixpoint split_slash (acc : string) (s : string) : list string :=
  match s with
  | EmptyString => [acc]
  | String c s' => if decide (c = "/"%char) then acc :: split_slash "" s'
                   else split_slash (acc +:+ String c "") s'
  end.

(** The components of a cleaned path, the last one first. *)
Definition clean_step (rooted : bool) (stack : list string) (part : string) : list string :=
  if decide (part = "" \/ part = ".") then stack
  else if decide (part = "..") then
    match stack with
    | top :: rest => if decide (top = "..") then part :: stack else rest
    | [] => if rooted then [] else [part]
    end
  else part :: stack.

Fixpoint join_slash (parts : list string) : string :=
  match parts with
  | [] => ""
  | [p] => p
  | p :: ps => p +:+ "/" +:+ join_slash ps
  end.

Definition is_rooted (s : string) : bool :=
  match s with String c _ => bool_decide (c = "/"%char) | EmptyString => false end.

Definition Clean (s : string) : string :=
  let rooted := is_rooted s in
  let parts := reverse (fold_left (clean_step rooted) (split_slash "" s) []) in
  if rooted then "/" +:+ join_slash parts
  else match parts with [] => "." | _ => join_slash parts end.

(** [filepath.Join(root, file)]. *)
Definition Join (root file : string) : string :=
  if decide (root = "") then (if decide (file = "") then "" else Clean file)
  else if decide (file = "") then Clean root
  else Clean (root +:+ "/" +:+ file).

(** The name of a file directly under the root. *)
Fixpoint no_slash (s : string) : bool :=
  match s with EmptyString => true | String c s' => bool_decide (c <> "/"%char) && no_slash s' end.

Definition simple_name (f : string) : Prop :=
  no_slash f = true /\ f <> "" /\ f <> "." /\ f <> "..".

#[export] Instance simple_name_dec f : Decision (simple_name f).
Proof. unfold simple_name. apply _. Defined.

Lemma split_no_slash acc f : no_slash f = true -> split_slash acc f = [acc +:+ f].
Proof.
  revert acc. induction f as [|c f IH]; intros acc Hf; cbn in *.
  - by rewrite string_app_nil_r.
  - apply andb_prop in Hf as [Hc Hf]. apply bool_decide_eq_true in Hc.
    rewrite decide_False by done. rewrite IH, <- string_app_assoc by done. done.
Qed.

Lemma split_join acc r f :
  no_slash f = true -> split_slash acc (r +:+ "/" +:+ f) = split_slash acc r ++ [f].
Proof.
  intros Hf. revert acc. induction r as [|c r IH]; intros acc.
  - change (acc :: split_slash "" f = [acc; f]). by rewrite split_no_slash.
  - change (String c r +:+ "/" +:+ f) with (String c (r +:+ "/" +:+ f)). cbn [split_slash].
    case_decide; by rewrite IH.
Qed.

Lemma join_slash_snoc ps : exists pre, forall f, join_slash (ps ++ [f]) = pre +:+ f.
Proof.
  induction ps as [|p ps [pre IH]]; [by exists ""|].
  exists (p +:+ "/" +:+ pre). intros f. rewrite <- app_comm_cons.
  assert (E : forall q qs, qs <> [] -> join_slash (q :: qs) = q +:+ "/" +:+ join_slash qs)
    by (intros q [|] ?; done).
  rewrite E by (by destruct ps). by rewrite IH, !string_app_assoc.
Qed.

(** Joining a root with a simple name appends it to a fixed prefix. *)
Lemma Join_simple root : root <> "" -> exists pre, forall f, simple_name f -> Join root f = pre +:+ f.
Proof.
  intros Hr.
  destruct (join_slash_snoc (reverse (fold_left (clean_step (is_rooted root)) (split_slash "" root) [])))
    as [pre Hpre].
  exists (if is_rooted root then "/" +:+ pre else pre). intros f (Hf & H0 & H1 & H2).
  unfold Join. rewrite !decide_False by done. unfold Clean.
  assert (Hroot : is_rooted (root +:+ "/" +:+ f) = is_rooted root) by (by destruct root).
  rewrite Hroot, split_join, fold_left_app by done. cbn [fold_left].
  assert (Estep : forall b st, clean_step b st f = f :: st).
  { intros b st. unfold clean_step. by rewrite !decide_False by naive_solver. }
  rewrite Estep, reverse_cons.
  destruct (is_rooted root); [by rewrite Hpre, string_app_assoc|].
  rewrite <- Hpre. by destruct (reverse (fold_left (clean_step false) (split_slash "" root) [])).
Qed.

Lemma Join_inj root f g :
  root <> "" -> simple_name f -> simple_name g -> Join root f = Join root g -> f = g.
Proof.
  intros Hr Hf Hg. destruct (Join_simple root Hr) as [pre E]. rewrite !E by done.
  apply (inj (String.append pre)).
Qed.

Lemma Join_nonempty root f : root <> "" -> simple_name f -> Join root f <> "".
Proof.
  intros Hr Hf. destruct (Join_simple root Hr) as [pre E]. rewrite E by done.
  destruct Hf as (_ & Hf & _). by destruct pre.
Qed.

End Filepath.

(** ** Slots and the pool *)

(** A [page.Page]: a pointer to a heap page, whose byte array is shared. *)
Record PageRef : Type := { pg_id : Z; pg_buf : nat }.

Record BufferSlot : Type := {
  bs_key : PageKey;
  bs_page : PageRef;
  bs_dirty : bool;
  bs_pinned : bool;
  bs_usageCount : Z
}.

Definition NewBufferSlot (key : PageKey) (p : PageRef) : BufferSlot :=
  {| bs_key := key; bs_page := p; bs_dirty := false; bs_pinned := false; bs_usageCount := 0 |}.

Definition SetPage (p : PageRef) (s : BufferSlot) : BufferSlot :=
  {| bs_key := bs_key s; bs_page := p; bs_dirty := bs_dirty s; bs_pinned := bs_pinned s;
     bs_usageCount := bs_usageCount s |}.
Definition SetDirty (v : bool) (s : BufferSlot) : BufferSlot :=
  {| bs_key := bs_key s; bs_page := bs_page s; bs_dirty := v; bs_pinned := bs_pinned s;
     bs_usageCount := bs_usageCount s |}.
Definition SetPinned (v : bool) (s : BufferSlot) : BufferSlot :=
  {| bs_key := bs_key s; bs_page := bs_page s; bs_dirty := bs_dirty s; bs_pinned := v;
     bs_usageCount := bs_usageCount s |}.
Definition IncrementUsage (s : BufferSlot) : BufferSlot :=
  {| bs_key := bs_key s; bs_page := bs_page s; bs_dirty := bs_dirty s; bs_pinned := bs_pinned s;
     bs_usageCount := int64 (bs_usageCount s + 1) |}.

Module HeapBufferPoolManager.

Record Pool {R D : Type} : Type := {
  poolSize : Z;
  replacer : R;
  root : string;
  pageTable : gmap PageKey nat;
  slots : gmap nat BufferSlot;
  mem : gmap nat (list byte);
  next : nat;
  disk : D
}.
Arguments Pool : clear implicits.

Section operations.
Context {R D : Type} `{!Replacer R, !PageFileManager D}.
Implicit Types (P : Pool R D) (key : PageKey) (ref : nat).

Definition with_replacer (f : R -> R) P : Pool R D :=
  {| poolSize := poolSize P; replacer := f (replacer P); root := root P; pageTable := pageTable P;
     slots := slots P; mem := mem P; next := next P; disk := disk P |}.
Definition with_table (f : gmap PageKey nat -> gmap PageKey nat) P : Pool R D :=
  {| poolSize := poolSize P; replacer := replacer P; root := root P; pageTable := f (pageTable P);
     slots := slots P; mem := mem P; next := next P; disk := disk P |}.
Definition with_slot ref (s : BufferSlot) P : Pool R D :=
  {| poolSize := poolSize P; replacer := replacer P; root := root P; pageTable := pageTable P;
     slots := <[ref := s]> (slots P); mem := mem P; next := next P; disk := disk P |}.
Definition with_disk (d : D) P : Pool R D :=
  {| poolSize := poolSize P; replacer := replacer P; root := root P; pageTable := pageTable P;
     slots := slots P; mem := mem P; next := next P; disk := d |}.

(** A slot read or written through its pointer. *)
Definition load ref : ST (Pool R D) BufferSlot :=
  P <- sget ;; slift (of_option (slots P !! ref)).
Definition store ref (f : BufferSlot -> BufferSlot) : ST (Pool R D) unit :=
  s <- load ref ;; smodify (with_slot ref (f s)).

(** Allocation of a slot, and of the byte array of a page read from disk. *)
Definition alloc_slot (s : BufferSlot) : ST (Pool R D) nat := fun P =>
  (Ok (next P),
   {| poolSize := poolSize P; replacer := replacer P; root := root P; pageTable := pageTable P;
      slots := <[next P := s]> (slots P); mem := mem P; next := S (next P); disk := disk P |}).
Definition alloc_page (p : HeapPage) : ST (Pool R D) PageRef := fun P =>
  (Ok {| pg_id := pageID p; pg_buf := next P |},
   {| poolSize := poolSize P; replacer := replacer P; root := root P; pageTable := pageTable P;
      slots := slots P; mem := <[next P := buf p]> (mem P); next := S (next P); disk := disk P |}).

(** A call into the page file manager. *)
Definition on_disk {A} (m : ST D A) : ST (Pool R D) A := fun P =>
  let (r, d) := m (disk P) in (r, with_disk d P).

Definition load_page (p : PageRef) : ST (Pool R D) HeapPage :=
  P <- sget ;;
  b <- slift (of_option (mem P !! pg_buf p)) ;;
  sret {| pageID := pg_id p; buf := b |}.

Definition NewHeapBufferPoolManager (size : Z) (d : D) (r : R) (storageRoot : string) :
    outcome (Pool R D) :=
  if size <=? 0 then Err ErrPoolSize
  else if decide (storageRoot = "") then Err (Errorf "storageRoot: empty")
  else Ok {| poolSize := size; replacer := r; root := storageRoot; pageTable := ∅;
             slots := ∅; mem := ∅; next := 0; disk := d |}.

Definition touch ref : ST (Pool R D) unit :=
  s <- load ref ;;
  if bs_pinned s then sret tt
  else smodify (with_replacer
         (rep_push (Some {| slot_ref := ref; slot_key := bs_key s |}) (bs_pinned s))).

Definition flushSlotLocked key ref : ST (Pool R D) unit :=
  s <- load ref ;;
  if bs_dirty s then
    p <- load_page (bs_page s) ;;
    P <- sget ;;
    on_disk (pfm_write p (Filepath.Join (root P) (FileID key))) ;;;
    store ref (SetDirty false)
  else sret tt.

Definition ensureSpaceLocked : ST (Pool R D) unit :=
  P <- sget ;;
  if Z.of_nat (size (pageTable P)) <? poolSize P then sret tt
  else
    let (victim, r') := rep_pick (replacer P) in
    smodify (with_replacer (fun _ => r')) ;;;
    match victim with
    | None => sfail ErrNoVictim
    | Some v =>
      s <- load (slot_ref v) ;;
      let vKey := bs_key s in
      (if bs_dirty s then flushSlotLocked vKey (slot_ref v) else sret tt) ;;;
      smodify (with_table (delete vKey))
    end.

(** The resident slot, or the page read from disk in a new slot: the common
    body of [GetPage] and [getPageLocked]. *)
Definition getPageLocked key : ST (Pool R D) nat :=
  P <- sget ;;
  match pageTable P !! key with
  | Some ref => store ref IncrementUsage ;;; touch ref ;;; sret ref
  | None =>
    ensureSpaceLocked ;;;
    P <- sget ;;
    p <- on_disk (pfm_read (PageID key) (Filepath.Join (root P) (FileID key))) ;;
    pg <- alloc_page p ;;
    ref <- alloc_slot (NewBufferSlot key pg) ;;
    smodify (with_table (insert key ref)) ;;;
    touch ref ;;;
    sret ref
  end.

Definition GetPage key : ST (Pool R D) nat := getPageLocked key.

(** A nil page is [None]. *)
Definition NewPage key (pg : option PageRef) : ST (Pool R D) nat :=
  match pg with
  | None => sfail (Errorf "page: nil")
  | Some pg =>
    P <- sget ;;
    if decide (is_Some (pageTable P !! key)) then sfail ErrPageAlreadyInBuf
    else
      ensureSpaceLocked ;;;
      ref <- alloc_slot (NewBufferSlot key pg) ;;
      smodify (with_table (insert key ref)) ;;;
      touch ref ;;;
      sret ref
  end.

(** The slot of a key that an operation works on: resident, or loaded. *)
Definition slot_of key : ST (Pool R D) nat :=
  P <- sget ;;
  match pageTable P !! key with Some ref => sret ref | None => getPageLocked key end.

Definition UpdatePage key (pg : option PageRef) : ST (Pool R D) unit :=
  match pg with
  | None => sfail (Errorf "page: nil")
  | Some pg =>
    ref <- slot_of key ;;
    store ref (SetPage pg) ;;;
    store ref (SetDirty true) ;;;
    touch ref
  end.

Definition PinPage key : ST (Pool R D) unit :=
  ref <- slot_of key ;;
  store ref (SetPinned true) ;;;
  smodify (with_replacer (rep_delete key)).

Definition UnpinPage key : ST (Pool R D) unit :=
  P <- sget ;;
  match pageTable P !! key with
  | None => sret tt
  | Some ref =>
    s <- load ref ;;
    if negb (bs_pinned s) then sret tt
    else
      store ref (SetPinned false) ;;;
      s <- load ref ;;
      smodify (with_replacer
        (rep_push (Some {| slot_ref := ref; slot_key := bs_key s |}) (bs_pinned s)))
  end.

Definition FlushPage key : ST (Pool R D) unit :=
  P <- sget ;;
  match pageTable P !! key with
  | None => sret tt
  | Some ref => flushSlotLocked key ref
  end.

(** [it] is the order of the iteration over the page table. *)
Fixpoint FlushAllPages (it : list (PageKey * nat)) : ST (Pool R D) unit :=
  match it with
  | [] => sret tt
  | (k, ref) :: it => flushSlotLocked k ref ;;; FlushAllPages it
  end.

Fixpoint DirtyPages (it : list (PageKey * nat)) : ST (Pool R D) (list nat) :=
  match it with
  | [] => sret []
  | (_, ref) :: it =>
    s <- load ref ;;
    res <- DirtyPages it ;;
    sret (if bs_dirty s then ref :: res else res)
  end.

(** [DefaultDirtyPageWriter.flushBatch]: an error of [FlushPage] is skipped
    and does not count; the number of flushed pages is returned. *)
Definition skip_error {A} (m : ST (Pool R D) A) : ST (Pool R D) bool := fun P =>
  match m P with
  | (Ok _, P') => (Ok true, P')
  | (Err _, P') => (Ok false, P')
  | (Panic, P') => (Panic, P')
  end.

Fixpoint flush_loop (batchSize flushed : Z) (dirty : list nat) : ST (Pool R D) Z :=
  match dirty with
  | [] => sret flushed
  | ref :: dirty =>
    if batchSize <=? flushed then sret flushed
    else
      s <- load ref ;;
      ok <- skip_error (FlushPage (bs_key s)) ;;
      flush_loop batchSize (if ok : bool then flushed + 1 else flushed) dirty
  end.

Definition flushBatch (batchSize : Z) (it : list (PageKey * nat)) : ST (Pool R D) Z :=
  dirty <- DirtyPages it ;;
  flush_loop batchSize 0 dirty.

End operations.
End HeapBufferPoolManager.

(** ** Specification *)
Module BufferPoolSpec.
Import HeapBufferPoolManager.

Section spec.
Context {R D : Type} `{RR : Replacer R, RL : !ReplacerLaws R, DM : PageFileManager D, DL : !PageFileLaws D}.

(** The storage root, and the file names in use: distinct names are distinct
    paths under the root. *)
Context (root0 : string) (file_ids : string -> Prop).
Context (join_inj : forall f g, file_ids f -> file_ids g ->
  Filepath.Join root0 f = Filepath.Join root0 g -> f = g).
Context (join_nonempty : forall f, file_ids f -> Filepath.Join root0 f <> ""%string).
Implicit Types (P : Pool R D) (k key : PageKey) (ref : nat).

Definition path_of k : string := Filepath.Join root0 (FileID k).
Definition good_key k : Prop := file_ids (FileID k) /\ 0 <= PageID k < 2 ^ 31.

Definition resident P k : option (BufferSlot * list byte) :=
  ref ← pageTable P !! k;
  s ← slots P !! ref;
  b ← mem P !! pg_buf (bs_page s);
  Some (s, b).

Definition on_file P k : option (list byte) := stored (disk P) (path_of k) (PageID k).

(** What a reader of [k] gets. *)
Definition contents P k : option (list byte) :=
  match resident P k with Some (_, b) => Some b | None => on_file P k end.

(** A clean resident page is the page on disk. *)
Definition coherent P k : Prop :=
  forall s b, resident P k = Some (s, b) -> bs_dirty s = false -> on_file P k = Some b.

(** A page reference that may be put under [k]. *)
Definition page_for k (pg : PageRef) P (b : list byte) : Prop :=
  mem P !! pg_buf pg = Some b /\ pg_id pg = PageID k /\ valid_buf b.

Record pool_ok P : Prop := {
  ok_root : root P = root0;
  ok_bound : Z.of_nat (size (pageTable P)) <= poolSize P;
  ok_replacer : rep_ok (replacer P);
  ok_slot : forall k ref, pageTable P !! k = Some ref ->
    good_key k /\ exists s b, slots P !! ref = Some s /\ bs_key s = k /\ page_for k (bs_page s) P b;
  ok_view : forall k ref, rep_view (replacer P) !! k = Some ref ->
    pageTable P !! k = Some ref /\ forall s, slots P !! ref = Some s -> bs_pinned s = false;
  ok_next : forall ref, (next P <= ref)%nat -> slots P !! ref = None /\ mem P !! ref = None
}.

(** What a call may do to the disk: read pages, and write pages of the keys in
    [W]. *)
Inductive disk_step (W : PageKey -> Prop) (d : D) : D -> Prop :=
  | step_read id path : 0 <= id < 2 ^ 31 -> disk_step W d (pfm_read id path d).2
  | step_write k p : W k -> good_key k -> valid_buf (buf p) -> pageID p = PageID k ->
      disk_step W d (pfm_write p (path_of k) d).2.

Definition writable (X : PageKey -> Prop) P k : Prop :=
  ~ X k -> exists s b, resident P k = Some (s, b) /\ bs_dirty s = true.

(** Outside [X], pages of different keys do not share a byte array. *)
Definition apart (X : PageKey -> Prop) P : Prop := forall k1 k2 s1 b1 s2 b2, ~ X k1 -> ~ X k2 ->
  resident P k1 = Some (s1, b1) -> resident P k2 = Some (s2, b2) ->
  pg_buf (bs_page s1) = pg_buf (bs_page s2) -> k1 = k2.

(** [evolves X P P']: for the keys outside [X], a change no client can
    observe: pages keep their contents, stay coherent, and pinned pages stay
    resident.  A page that is resident was so before, in the same byte array,
    or it was loaded into a new one; only dirty pages are written. *)
Record evolves (X : PageKey -> Prop) P P' : Prop := {
  ev_ok : pool_ok P';
  ev_kept : forall k s' b', ~ X k -> resident P' k = Some (s', b') ->
    (exists s b, resident P k = Some (s, b) /\ bs_page s' = bs_page s /\
       (bs_dirty s' = true -> bs_dirty s = true)) \/
    (bs_dirty s' = false /\ mem P !! pg_buf (bs_page s') = None);
  ev_disk : rtc (disk_step (writable X P)) (disk P) (disk P');
  ev_apart : forall Z : PageKey -> Prop, (forall k, X k -> Z k) -> apart Z P -> apart Z P';
  ev_size : poolSize P' = poolSize P;
  ev_mem : mem P ⊆ mem P';
  ev_coherent : forall k, good_key k -> ~ X k -> coherent P k -> coherent P' k;
  ev_contents : forall k, good_key k -> ~ X k -> coherent P k -> contents P' k = contents P k;
  ev_pinned : forall k s b, ~ X k -> resident P k = Some (s, b) -> bs_pinned s = true ->
    exists s', resident P' k = Some (s', b) /\ bs_pinned s' = true
}.

Definition no_key : PageKey -> Prop := fun _ => False.

(** *** Residents *)

Lemma resident_inv P k s b :
  resident P k = Some (s, b) ->
  exists ref, pageTable P !! k = Some ref /\ slots P !! ref = Some s /\
    mem P !! pg_buf (bs_page s) = Some b.
Proof.
  unfold resident. destruct (pageTable P !! k) as [ref|] eqn:E1; cbn; [|done].
  destruct (slots P !! ref) as [s'|] eqn:E2; cbn; [|done].
  destruct (mem P !! _) as [b'|] eqn:E3; cbn; [|done]. intros [= <- <-]. eauto.
Qed.

Lemma resident_intro P k ref s b :
  pageTable P !! k = Some ref -> slots P !! ref = Some s ->
  mem P !! pg_buf (bs_page s) = Some b -> resident P k = Some (s, b).
Proof. intros E1 E2 E3. unfold resident. rewrite E1. cbn. rewrite E2. cbn. by rewrite E3. Qed.

Lemma resident_ok P k ref :
  pool_ok P -> pageTable P !! k = Some ref ->
  exists s b, slots P !! ref = Some s /\ bs_key s = k /\ page_for k (bs_page s) P b /\
    resident P k = Some (s, b).
Proof.
  intros OK Hk. destruct (ok_slot _ OK _ _ Hk) as (_ & s & b & Hs & Hks & Hp).
  exists s, b. repeat split; try done; try apply Hp. eapply resident_intro; [done..|apply Hp].
Qed.

Lemma resident_None P k : pool_ok P -> resident P k = None <-> pageTable P !! k = None.
Proof.
  intros OK. split; intros Hn.
  - destruct (pageTable P !! k) as [ref|] eqn:E; [|done].
    destruct (resident_ok _ _ _ OK E) as (s & b & _ & _ & _ & Hr). congruence.
  - unfold resident. by rewrite Hn.
Qed.

(** A slot reference belongs to one key. *)
Lemma ref_key P k k' ref :
  pool_ok P -> pageTable P !! k = Some ref -> pageTable P !! k' = Some ref -> k = k'.
Proof.
  intros OK E1 E2. destruct (resident_ok _ _ _ OK E1) as (s & b & Hs & <- & _).
  destruct (resident_ok _ _ _ OK E2) as (s' & b' & Hs' & <- & _). congruence.
Qed.

Lemma resident_with_slot P k ref s b k' :
  pool_ok P -> pageTable P !! k = Some ref -> mem P !! pg_buf (bs_page s) = Some b ->
  resident (with_slot ref s P) k' = if decide (k' = k) then Some (s, b) else resident P k'.
Proof.
  intros OK Hk Hb. unfold resident. cbn. case_decide as Hkk; [subst k'|].
  - rewrite Hk. cbn. rewrite lookup_insert_eq. cbn. by rewrite Hb.
  - destruct (pageTable P !! k') as [ref'|] eqn:E; [|done]. cbn.
    rewrite lookup_insert_ne; [done|]. intros ->. apply Hkk. by eapply ref_key.
Qed.

Lemma evolves_refl X P : pool_ok P -> evolves X P P.
Proof.
  intros OK. split; try done; [|eauto].
  intros k s b _ Hr. left. by exists s, b.
Qed.

Lemma disk_step_mono (W W' : PageKey -> Prop) d d' :
  (forall k, W k -> W' k) -> rtc (disk_step W) d d' -> rtc (disk_step W') d d'.
Proof. intros HW. apply rtc_subrel. intros ?? []; econstructor; eauto. Qed.

Lemma evolves_trans X P1 P2 P3 : evolves X P1 P2 -> evolves X P2 P3 -> evolves X P1 P3.
Proof.
  intros H1 H2.
  assert (Hkept : forall k s' b', ~ X k -> resident P3 k = Some (s', b') ->
    (exists s b, resident P1 k = Some (s, b) /\ bs_page s' = bs_page s /\
       (bs_dirty s' = true -> bs_dirty s = true)) \/
    (bs_dirty s' = false /\ mem P1 !! pg_buf (bs_page s') = None)).
  { intros k s' b' Hx Hr. destruct (ev_kept _ _ _ H2 _ _ _ Hx Hr) as [(s2 & b2 & Hr2 & Hp2 & Hd2)|[Hd Hm]].
    - destruct (ev_kept _ _ _ H1 _ _ _ Hx Hr2) as [(s1 & b1 & Hr1 & Hp1 & Hd1)|[Hd Hm]].
      + left. exists s1, b1. split_and!; [done|congruence|auto].
      + right. split; [|by rewrite Hp2]. destruct (bs_dirty s'); [|done]. by rewrite Hd2 in Hd.
    - right. split; [done|]. eapply lookup_weaken_None; [done|apply H1]. }
  split.
  - apply H2.
  - exact Hkept.
  - etrans; [apply H1|]. eapply disk_step_mono; [|apply H2]. intros k Hw Hx.
    destruct (Hw Hx) as (s & b & Hr & Hd).
    destruct (ev_kept _ _ _ H1 _ _ _ Hx Hr) as [(s1 & b1 & Hr1 & _ & Hd1)|[Hd' _]]; [|congruence]. eauto.
  - intros Z HZ Ha. apply H2; [done|]. by apply H1.
  - rewrite (ev_size _ _ _ H2). apply H1.
  - etrans; [apply H1|apply H2].
  - intros k Hk Hx Hc. apply H2; [done..|]. by apply H1.
  - intros k Hk Hx Hc. rewrite (ev_contents _ _ _ H2) by (done || by apply H1). by apply H1.
  - intros k s b Hx Hr Hp. destruct (ev_pinned _ _ _ H1 _ _ _ Hx Hr Hp) as (s1 & Hr1 & Hp1).
    by apply (ev_pinned _ _ _ H2 k s1 b).
Qed.

Lemma evolves_weaken X Y P P' : (forall k, X k -> Y k) -> evolves X P P' -> evolves Y P P'.
Proof.
  intros HXY Hev. split; try apply Hev.
  - intros k s b Hy. apply Hev; auto.
  - eapply disk_step_mono; [|apply Hev]. intros k Hw Hy. apply Hw. auto.
  - intros Z HZ. apply Hev. auto.
  - intros k Hk Hy. apply Hev; auto.
  - intros k Hk Hy. apply Hev; auto.
  - intros k s b Hy. apply Hev; auto.
Qed.

Lemma evolves_any X P P' : evolves no_key P P' -> evolves X P P'.
Proof. apply evolves_weaken. by intros k []. Qed.

(** Pages of [P'] are pages of [P]. *)
Lemma apart_sub P P' (X : PageKey -> Prop) :
  (forall k s' b', ~ X k -> resident P' k = Some (s', b') ->
     exists s b, resident P k = Some (s, b) /\ pg_buf (bs_page s') = pg_buf (bs_page s)) ->
  apart X P -> apart X P'.
Proof.
  intros Hsub Ha k1 k2 s1 b1 s2 b2 Hx1 Hx2 H1 H2 E.
  destruct (Hsub _ _ _ Hx1 H1) as (s3 & b3 & H3 & E3). destruct (Hsub _ _ _ Hx2 H2) as (s4 & b4 & H4 & E4).
  eapply Ha; [exact Hx1|exact Hx2|exact H3|exact H4|congruence].
Qed.

(** Equal residents and disk pages: nothing changes for a client. *)
Lemma evolves_same X P P' :
  pool_ok P' -> poolSize P' = poolSize P -> mem P ⊆ mem P' ->
  rtc (disk_step (writable X P)) (disk P) (disk P') ->
  (forall k, good_key k -> ~ X k -> on_file P' k = on_file P k) ->
  (forall k s b, ~ X k -> resident P k = Some (s, b) -> exists s', resident P' k = Some (s', b) /\
     bs_dirty s' = bs_dirty s /\ bs_pinned s' = bs_pinned s /\ bs_page s' = bs_page s) ->
  (forall k, ~ X k -> resident P k = None -> resident P' k = None) ->
  evolves X P P'.
Proof.
  intros OK Hsz Hm Hd0 Hf Hr Hn. split; try done.
  - intros k s' b' Hx Hr'. left. destruct (resident P k) as [[s b]|] eqn:E.
    + destruct (Hr _ _ _ Hx E) as (s'' & E' & Hd' & _ & Hp). simplify_eq. eexists _, _.
      split_and!; [done|congruence|congruence].
    + rewrite (Hn k Hx E) in Hr'. done.
  - intros Z HZ. apply apart_sub. intros k s' b' Hx Hr'.
    destruct (resident P k) as [[s b]|] eqn:E.
    + destruct (Hr k s b) as (s'' & E' & _ & _ & Hp); [auto|done|]. simplify_eq.
      eexists _, _. split; [done|congruence].
    + rewrite (Hn k) in Hr'; auto; done.
  - intros k Hk Hx Hc s' b Hr' Hd. rewrite Hf by done. destruct (resident P k) as [[s b']|] eqn:E.
    + destruct (Hr _ _ _ Hx E) as (s'' & E' & Hd' & _). simplify_eq. apply (Hc s); congruence.
    + rewrite (Hn k Hx E) in Hr'. done.
  - intros k Hk Hx Hc. unfold contents. destruct (resident P k) as [[s b']|] eqn:E.
    + by destruct (Hr _ _ _ Hx E) as (s'' & -> & _).
    + rewrite (Hn k Hx E). by apply Hf.
  - intros k s b Hx E Hp. destruct (Hr _ _ _ Hx E) as (s' & E' & _ & Hp' & _). exists s'. split; congruence.
Qed.

(** *** Changes of one part of the pool *)

Lemma evolves_replacer X P f :
  pool_ok P -> rep_ok (f (replacer P)) ->
  (forall k ref, rep_view (f (replacer P)) !! k = Some ref ->
     pageTable P !! k = Some ref /\ forall s, slots P !! ref = Some s -> bs_pinned s = false) ->
  evolves X P (with_replacer f P).
Proof. intros [] Hr Hv. apply evolves_same; try done. intros k s b _ E. by exists s. Qed.

Lemma with_slot_ok P k ref s s' b :
  pool_ok P -> pageTable P !! k = Some ref -> slots P !! ref = Some s ->
  bs_key s' = k -> page_for k (bs_page s') P b ->
  bs_pinned s' = bs_pinned s \/ rep_view (replacer P) !! k = None ->
  pool_ok (with_slot ref s' P).
Proof.
  intros OK Hk Hs Hks Hpg Hpin. split; cbn; try apply OK.
  - intros k' ref' Hk'. destruct (ok_slot _ OK _ _ Hk') as (Hg & s0 & b0 & Hs0 & Hk0 & Hp0).
    split; [done|]. destruct (decide (ref' = ref)) as [->|Hne].
    + rewrite lookup_insert_eq. assert (k' = k) as -> by (by eapply ref_key). eauto.
    + rewrite lookup_insert_ne by done. eauto.
  - intros k' ref' Hv. destruct (ok_view _ OK _ _ Hv) as (Hk' & Hu). split; [done|].
    intros s0. rewrite lookup_insert_Some. intros [[<- <-]|[_ Hs0]]; [|by apply Hu].
    assert (k' = k) as -> by (by eapply ref_key). destruct Hpin as [->|Hpin]; [by apply Hu|congruence].
  - intros ref' Hn. destruct (ok_next _ OK _ Hn) as [Hns Hnm]. split; [|done].
    rewrite lookup_insert_ne; [done|]. congruence.
Qed.

(** Changing a slot: nothing changes for the other keys. *)
Lemma evolves_slot_at P k ref s s' b :
  pool_ok P -> pageTable P !! k = Some ref -> slots P !! ref = Some s ->
  bs_key s' = k -> page_for k (bs_page s') P b ->
  bs_pinned s' = bs_pinned s \/ rep_view (replacer P) !! k = None ->
  evolves (eq k) P (with_slot ref s' P) /\ resident (with_slot ref s' P) k = Some (s', b).
Proof.
  intros OK Hk Hs Hks Hpg Hpin.
  assert (Hr : forall k', resident (with_slot ref s' P) k' =
    if decide (k' = k) then Some (s', b) else resident P k').
  { intros k'. eapply resident_with_slot; [done..|apply Hpg]. }
  split; [|rewrite Hr; by rewrite decide_True].
  apply evolves_same; try done; [by eapply with_slot_ok|..].
  - intros k' s1 b1 Hx Hr1. rewrite Hr, decide_False by congruence. eauto.
  - intros k' Hx. by rewrite Hr, decide_False by congruence.
Qed.

(** Changing the flags of a slot but not its page or its dirty bit. *)
Lemma evolves_slot P k ref s s' :
  pool_ok P -> pageTable P !! k = Some ref -> slots P !! ref = Some s ->
  bs_key s' = bs_key s -> bs_page s' = bs_page s -> bs_dirty s' = bs_dirty s ->
  bs_pinned s' = bs_pinned s \/ rep_view (replacer P) !! k = None /\ bs_pinned s' = true ->
  evolves no_key P (with_slot ref s' P).
Proof.
  intros OK Hk Hs Eks Ep Ed Epin.
  destruct (resident_ok _ _ _ OK Hk) as (s0 & b & Hs0 & Hks & Hpg & Hres). simplify_eq.
  pose proof Hpg as [Hb _].
  destruct (evolves_slot_at P (bs_key s) ref s s' b) as [Hev Hres']; try done.
  { by rewrite Ep. }
  { destruct Epin as [?|[? _]]; tauto. }
  split; try apply Hev; [|done|..].
  - intros k s1 b1 _. destruct (decide (bs_key s = k)) as [<-|Hne]; [|by apply Hev].
    rewrite Hres'. intros [= <- <-]. left. exists s, b. split_and!; [done..|congruence].
  - intros Z _. apply apart_sub. intros k s1 b1 _. destruct (decide (bs_key s = k)) as [<-|Hne].
    + rewrite Hres'. intros [= <- <-]. exists s, b. by rewrite Ep.
    + rewrite (resident_with_slot P (bs_key s) ref s' b), decide_False by (congruence || done). eauto.
  - intros k Hg _ Hc. destruct (decide (bs_key s = k)) as [<-|Hne]; [|by apply Hev].
    intros s1 b1. rewrite Hres'. intros [= <- <-] Hd. apply (Hc s); congruence.
  - intros k Hg _ Hc. destruct (decide (bs_key s = k)) as [<-|Hne]; [|by apply Hev].
    unfold contents. by rewrite Hres, Hres'.
  - intros k s1 b1 _ Hr1 Hp. destruct (decide (bs_key s = k)) as [<-|Hne]; [|by eapply Hev].
    exists s'. rewrite Hres in Hr1. simplify_eq. split; [done|]. by destruct Epin as [->|[_ ->]].
Qed.

Lemma evolves_push P k ref s :
  pool_ok P -> pageTable P !! k = Some ref -> slots P !! ref = Some s -> bs_pinned s = false ->
  evolves no_key P (with_replacer (rep_push (Some {| slot_ref := ref; slot_key := bs_key s |}) false) P).
Proof.
  intros OK Hk Hs Hp. destruct (resident_ok _ _ _ OK Hk) as (s0 & b & Hs0 & Hks & _ & _).
  simplify_eq.
  destruct (rep_push_view (replacer P) {| slot_ref := ref; slot_key := bs_key s |}) as [Hok Hv];
    [apply OK| |].
  { cbn. destruct (rep_view (replacer P) !! bs_key s) as [ref'|] eqn:E; [|by left].
    right. destruct (ok_view _ OK _ _ E). congruence. }
  apply evolves_replacer; [done..|]. intros k' ref'. rewrite Hv; cbn.
  rewrite lookup_insert_Some. intros [[<- <-]|[_ Hv']]; [|by apply OK].
  split; [done|]. intros. congruence.
Qed.

Lemma touch_spec P k ref :
  pool_ok P -> pageTable P !! k = Some ref ->
  triple (touch ref) P (fun r P' => r = Ok tt /\ evolves no_key P P' /\ exists f, P' = with_replacer f P).
Proof.
  intros OK Hk. destruct (resident_ok _ _ _ OK Hk) as (s & b & Hs & Hks & _ & _).
  unfold touch, load. apply triple_bind, triple_bind, triple_get.
  unfold slift. rewrite Hs. split; [done|]. cbn -[triple]. destruct (bs_pinned s) eqn:Hp.
  - apply triple_ret. split; [done|]. split; [by apply evolves_refl|].
    exists id. by destruct P.
  - apply triple_modify. split; [done|]. split; [|eauto]. by eapply evolves_push.
Qed.

(** *** Flushing *)

Lemma load_run P ref s : slots P !! ref = Some s -> load ref P = (Ok s, P).
Proof. intros Hs. unfold load, sbind, sget, slift. by rewrite Hs. Qed.

Lemma store_run P ref f s :
  slots P !! ref = Some s -> store ref f P = (Ok tt, with_slot ref (f s) P).
Proof. intros Hs. unfold store. by erewrite sbind_ok by by apply load_run. Qed.

Lemma triple_run {A} (m : ST (Pool R D) A) P a P' Q :
  m P = (Ok a, P') -> Q (Ok a) P' -> triple m P Q.
Proof. intros E HQ. unfold triple. by rewrite E. Qed.

Lemma path_other k k' :
  good_key k -> good_key k' -> k' <> k -> (path_of k', PageID k') <> (path_of k, PageID k).
Proof.
  intros [Hf _] [Hf' _] Hne [= Hp Hi]. apply Hne.
  assert (FileID k' = FileID k) by (by apply join_inj). destruct k, k'; cbn in *. congruence.
Qed.

Lemma pool_ok_disk P d : pool_ok P -> pool_ok (with_disk d P).
Proof. by intros []. Qed.

Lemma load_page_run P pg b :
  mem P !! pg_buf pg = Some b -> load_page pg P = (Ok {| pageID := pg_id pg; buf := b |}, P).
Proof. intros Hb. unfold load_page, sbind, sget, slift. by rewrite Hb. Qed.

(** The write of a flush: the page of [k] may change on disk, no other. *)
Lemma flush_write P k pg b :
  pool_ok P -> good_key k -> page_for k pg P b ->
  triple (on_disk (pfm_write {| pageID := pg_id pg; buf := b |} (Filepath.Join (root P) (FileID k)))) P
    (fun r P' => (exists d, P' = with_disk d P /\ disk_step (eq k) (disk P) d) /\
       (r = Ok tt -> on_file P' k = Some b) /\ forall k', good_key k' -> k' <> k -> on_file P' k' = on_file P k').
Proof.
  intros OK Hg (Hb & Hid & Hv). unfold on_disk, triple. rewrite (ok_root _ OK), Hid.
  set (p := {| pageID := PageID k; buf := b |}).
  destruct (pfm_write_law (disk P) p (path_of k)) as (r & d' & E & Hr & Ho).
  { done. } { apply Hg. } { by apply join_nonempty, Hg. }
  fold (path_of k). rewrite E. cbn [fst snd].
  split; [by destruct Hr as [[-> _]|[e ->]]|]. split.
  { exists d'. split; [done|]. change d' with ((r, d').2). rewrite <- E. by constructor. }
  split.
  - intros ->. by destruct Hr as [[_ Hs]|[e ?]].
  - intros k' Hg' Hne. apply Ho; [apply Hg'|by apply path_other].
Qed.

(** A change of the disk at a key whose resident page is dirty. *)
Lemma evolves_disk P d k s b :
  pool_ok P -> resident P k = Some (s, b) -> bs_dirty s = true -> disk_step (eq k) (disk P) d ->
  (forall k', good_key k' -> k' <> k -> on_file (with_disk d P) k' = on_file P k') ->
  evolves no_key P (with_disk d P).
Proof.
  intros OK Hres Hd Hst Hf.
  assert (Hr : forall k', resident (with_disk d P) k' = resident P k') by done.
  split; [by apply pool_ok_disk| | |done|done|done| | |].
  - intros k' s' b' _. rewrite Hr. left. by exists s', b'.
  - eapply disk_step_mono; [|by apply rtc_once]. intros k' <- _. eauto.
  - intros k' Hk' _ Hc s' b' Hr' Hd'. rewrite Hr in Hr'. rewrite Hf; [by apply (Hc s')|done|].
    intros ->. congruence.
  - intros k' Hk' _ Hc. unfold contents. rewrite Hr. destruct (decide (k' = k)) as [->|Hne].
    + by rewrite Hres.
    + by rewrite Hf.
  - intros k' s' b' _. rewrite Hr. eauto.
Qed.

(** Marking a page clean that is on disk. *)
Lemma evolves_clean P k ref s b :
  pool_ok P -> pageTable P !! k = Some ref -> slots P !! ref = Some s ->
  page_for k (bs_page s) P b -> on_file P k = Some b ->
  evolves no_key P (with_slot ref (SetDirty false s) P) /\
  resident (with_slot ref (SetDirty false s) P) k = Some (SetDirty false s, b).
Proof.
  intros OK Hk Hs Hpg Hf. pose proof Hpg as [Hb _].
  assert (Hks : bs_key s = k).
  { destruct (resident_ok _ _ _ OK Hk) as (s0 & b0 & Hs0 & Hks & _). congruence. }
  assert (Hres : resident P k = Some (s, b)) by by eapply resident_intro.
  assert (Hr : forall k', resident (with_slot ref (SetDirty false s) P) k' =
    if decide (k' = k) then Some (SetDirty false s, b) else resident P k').
  { intros k'. by eapply resident_with_slot. }
  split; [|rewrite Hr; by rewrite decide_True].
  split; [eapply with_slot_ok; try done; by left| |done| |done|done| | |].
  - intros k' s' b' _. rewrite Hr. case_decide as Hd; [subst k'; intros [= <- <-]|]; left; [by exists s, b|by exists s', b'].
  - intros Z _. apply apart_sub. intros k' s' b' _. rewrite Hr.
    case_decide as Hd; [subst k'; intros [= <- <-]; by exists s, b|by exists s', b'].
  - intros k' Hk' _ Hc s' b'. rewrite Hr. case_decide as Hd; [subst k'|by apply Hc].
    intros [= <- <-] _. done.
  - intros k' Hk' _ Hc. unfold contents. rewrite Hr. case_decide as Hd; [subst k'|done].
    by rewrite Hres.
  - intros k' s' b' _ Hr' Hp. rewrite Hr. case_decide as Hd; [subst k'|eauto]. simplify_eq.
    by eexists.
Qed.

(** A flush: nothing a client can see, the same residents, and on success the
    page is clean and, if it was dirty, on disk. *)
Lemma flushSlotLocked_spec P k ref s b :
  pool_ok P -> pageTable P !! k = Some ref -> slots P !! ref = Some s ->
  page_for k (bs_page s) P b ->
  triple (flushSlotLocked k ref) P (fun r P' =>
    evolves no_key P P' /\ pageTable P' = pageTable P /\ replacer P' = replacer P /\
    mem P' = mem P /\
    (forall ref', ref' <> ref -> slots P' !! ref' = slots P !! ref') /\
    (bs_dirty s = false -> r = Ok tt /\ P' = P) /\
    (r = Ok tt -> slots P' !! ref = Some (SetDirty false s) /\
       (bs_dirty s = true -> on_file P' k = Some b)) /\
    (r <> Ok tt -> slots P' !! ref = Some s)).
Proof.
  intros OK Hk Hs Hpg. destruct (ok_slot _ OK _ _ Hk) as (Hg & _).
  assert (Hres : resident P k = Some (s, b)) by (eapply resident_intro; [done..|apply Hpg]).
  unfold flushSlotLocked. apply triple_bind. eapply triple_run; [by apply load_run|].
  cbn beta iota. destruct (bs_dirty s) eqn:Hd.
  2:{ apply triple_ret. split; [by apply evolves_refl|]. repeat split; try done.
      rewrite Hs. destruct s; cbn in *. by subst. }
  apply triple_bind. eapply triple_run; [apply load_page_run, Hpg|]. cbn beta iota.
  apply triple_bind, triple_get. apply triple_bind.
  eapply triple_mono; [by apply flush_write|]. intros r P' Hr ((d & -> & Hst) & Hon & Hf).
  assert (Hev : evolves no_key P (with_disk d P)) by by eapply evolves_disk.
  destruct r as [[]|e|]; [|by split_and!|done].
  specialize (Hon eq_refl). eapply triple_run; [by apply store_run|].
  destruct (evolves_clean (with_disk d P) k ref s b) as [Hev2 _]; try done; [apply Hev|].
  split_and!; try done.
  - by eapply evolves_trans.
  - intros ref' Hne. cbn. by rewrite lookup_insert_ne.
  - intros _. cbn. by rewrite lookup_insert_eq.
Qed.

(** *** Eviction *)

Lemma resident_delete P k k' :
  resident (with_table (delete k) P) k' = if decide (k' = k) then None else resident P k'.
Proof.
  unfold resident. cbn. case_decide as Hd; [subst k'|].
  - by rewrite lookup_delete_eq.
  - by rewrite lookup_delete_ne.
Qed.

(** Dropping a clean, unpinned slot. *)
Lemma evolves_evict P k ref s :
  pool_ok P -> pageTable P !! k = Some ref -> slots P !! ref = Some s ->
  bs_dirty s = false -> bs_pinned s = false -> rep_view (replacer P) !! k = None ->
  evolves no_key P (with_table (delete k) P).
Proof.
  intros OK Hk Hs Hd Hp Hv.
  destruct (resident_ok _ _ _ OK Hk) as (s0 & b & Hs0 & Hks & Hpg & Hres). simplify_eq.
  split; [| |done| |done|done| | |].
  3:{ intros Z _. apply apart_sub. intros k' s' b' _. rewrite resident_delete.
      case_decide; [done|]. eauto. }
  2:{ intros k' s' b' _. rewrite resident_delete. case_decide; [done|]. left. by exists s', b'. }
  - split; cbn; try apply OK.
    + pose proof (ok_bound _ OK). rewrite map_size_delete, Hk. lia.
    + intros k' ref' [_ Hk']%lookup_delete_Some. by apply OK.
    + intros k' ref' Hv'. rewrite lookup_delete_ne by congruence. by apply OK.
  - intros k' Hk' _ Hc s' b'. rewrite resident_delete. case_decide; [done|apply Hc].
  - intros k' Hk' _ Hc. unfold contents. rewrite resident_delete.
    case_decide as Hkk; [subst k'|done]. rewrite Hres. by apply (Hc s).
  - intros k' s' b' _ Hr' Hp'. rewrite resident_delete. case_decide; [congruence|eauto].
Qed.

Lemma ensureSpaceLocked_spec P :
  pool_ok P -> 0 < poolSize P ->
  triple ensureSpaceLocked P (fun r P' =>
    evolves no_key P P' /\ pageTable P' ⊆ pageTable P /\
    (r = Ok tt -> Z.of_nat (size (pageTable P')) < poolSize P')).
Proof.
  intros OK Hsz. unfold ensureSpaceLocked. apply triple_bind, triple_get.
  destruct (Z.ltb_spec (Z.of_nat (size (pageTable P))) (poolSize P)) as [Hlt|Hge].
  { apply triple_ret. split; [by apply evolves_refl|done]. }
  pose proof (rep_pick_view (replacer P) (ok_replacer _ OK)) as Hpick.
  destruct (rep_pick (replacer P)) as [[v|] r'].
  2:{ destruct Hpick as [-> _]. apply triple_bind, triple_modify, triple_fail. split; [|done].
      apply evolves_replacer; [done|apply OK..]. }
  destruct Hpick as (Hok & Hv & Hv'). destruct (ok_view _ OK _ _ Hv) as [Hk Hu].
  apply triple_bind, triple_modify. set (P1 := with_replacer (fun _ => r') P).
  assert (Hev1 : evolves no_key P P1).
  { apply evolves_replacer; [done..|]. intros k ref. rewrite Hv'.
    intros [_ Hk']%lookup_delete_Some. by apply OK. }
  destruct (resident_ok _ _ _ OK Hk) as (s & b & Hs & Hks & Hpg & _).
  apply triple_bind. eapply triple_run; [by apply load_run|]. cbn beta iota. rewrite Hks.
  apply triple_bind.
  assert (Hflush : triple (if bs_dirty s then flushSlotLocked (slot_key v) (slot_ref v) else sret tt) P1
    (fun r P2 => evolves no_key P P2 /\ pageTable P2 = pageTable P /\ replacer P2 = r' /\
       (r = Ok tt -> exists s', slots P2 !! slot_ref v = Some s' /\ bs_dirty s' = false /\
          bs_pinned s' = false))).
  { destruct (bs_dirty s) eqn:Hd.
    - eapply triple_mono; [by apply (flushSlotLocked_spec P1 _ _ s b); [apply Hev1|..]|].
      intros r P2 _ (Hev & Ht & Hr & _ & _ & _ & Hok2 & _). split_and!; try done.
      + by eapply evolves_trans.
      + intros Hr2. destruct (Hok2 Hr2) as [Hs2 _]. eexists. split; [done|]. cbn. eauto.
    - apply triple_ret. split_and!; try done. intros _. exists s. eauto. }
  eapply triple_mono; [exact Hflush|]. intros r P2 _ (Hev & Ht & Hr & Hclean).
  destruct r as [[]|e|]; [|by rewrite Ht|done]. destruct (Hclean eq_refl) as (s' & Hs' & Hd' & Hp').
  apply triple_modify. split; [|split].
  - eapply evolves_trans; [done|]. eapply (evolves_evict _ _ (slot_ref v) s'); try done.
    + apply Hev.
    + by rewrite Ht.
    + by rewrite Hr, Hv', lookup_delete_eq.
  - cbn. rewrite Ht. apply delete_subseteq.
  - intros _. cbn. rewrite Ht, (ev_size _ _ _ Hev), map_size_delete, Hk.
    assert (size (pageTable P) <> 0%nat).
    { intros E%map_size_empty_inv. by rewrite E, lookup_empty in Hk. }
    pose proof (ok_bound _ OK). lia.
Qed.

(** *** Loading *)

(** The pool after a slot for [k] is allocated and entered in the table. *)
Definition entered k pg P : Pool R D :=
  with_table (insert k (next P)) (alloc_slot (NewBufferSlot k pg) P).2.

Lemma entered_spec P k pg b :
  pool_ok P -> good_key k -> pageTable P !! k = None ->
  Z.of_nat (size (pageTable P)) < poolSize P -> page_for k pg P b ->
  evolves (eq k) P (entered k pg P) /\
  resident (entered k pg P) k = Some (NewBufferSlot k pg, b) /\
  slots (entered k pg P) !! next P = Some (NewBufferSlot k pg) /\
  forall k', k <> k' -> resident (entered k pg P) k' = resident P k'.
Proof.
  intros OK Hg Hk Hsz Hpg. pose proof Hpg as [Hb _].
  assert (Hslot : forall ref s, slots P !! ref = Some s -> ref <> next P).
  { intros ref s Hs ->. destruct (ok_next _ OK (next P)) as [Hn _]; [lia|congruence]. }
  assert (Hs : slots (entered k pg P) !! next P = Some (NewBufferSlot k pg)).
  { cbn. by rewrite lookup_insert_eq. }
  assert (Hres : resident (entered k pg P) k = Some (NewBufferSlot k pg, b)).
  { eapply resident_intro; [cbn; by rewrite lookup_insert_eq|done|done]. }
  assert (Hother : forall k', k <> k' -> resident (entered k pg P) k' = resident P k').
  { intros k' Hne. unfold resident. cbn. rewrite lookup_insert_ne by done.
    destruct (pageTable P !! k') as [ref|] eqn:E; [|done]. cbn.
    destruct (resident_ok _ _ _ OK E) as (s & b' & Hs' & _).
    rewrite lookup_insert_ne; [done|]. intros <-. by eapply Hslot. }
  split; [|done]. apply evolves_same; try done.
  2:{ intros k' s b' Hne. rewrite Hother by done. by exists s. }
  2:{ intros k' Hne. by rewrite Hother. }
  split; cbn; try apply OK.
  - rewrite map_size_insert, Hk. lia.
  - intros k' ref. rewrite lookup_insert_Some. intros [[<- <-]|[Hne Hk']].
    + split; [done|]. exists (NewBufferSlot k pg), b. by rewrite lookup_insert_eq.
    + destruct (ok_slot _ OK _ _ Hk') as (Hg' & s & b' & Hs' & ?). split; [done|].
      exists s, b'. rewrite lookup_insert_ne; [done|]. intros <-. by eapply Hslot.
  - intros k' ref Hv. destruct (ok_view _ OK _ _ Hv) as [Hk' Hu].
    rewrite lookup_insert_ne by congruence. split; [done|].
    intros s. destruct (resident_ok _ _ _ OK Hk') as (s' & _ & Hs' & _).
    rewrite lookup_insert_ne; [apply Hu|]. intros <-. by eapply Hslot.
  - intros ref Hn. destruct (ok_next _ OK ref) as [Hn1 Hn2]; [lia|].
    rewrite lookup_insert_ne by lia. done.
Qed.

(** [touch] keeps every resident. *)
Lemma with_replacer_resident f P k : resident (with_replacer f P) k = resident P k.
Proof. done. Qed.

Lemma enter_spec P k pg b :
  pool_ok P -> good_key k -> pageTable P !! k = None ->
  Z.of_nat (size (pageTable P)) < poolSize P -> page_for k pg P b ->
  triple (ref <- alloc_slot (NewBufferSlot k pg) ;;
          smodify (with_table (insert k ref)) ;;; touch ref ;;; sret ref) P
    (fun r P' => exists ref, r = Ok ref /\ evolves (eq k) P P' /\ pageTable P' !! k = Some ref /\
       slots P' !! ref = Some (NewBufferSlot k pg) /\
       resident P' k = Some (NewBufferSlot k pg, b) /\ on_file P' k = on_file P k /\ disk P' = disk P /\
       forall k', k <> k' -> resident P' k' = resident P k').
Proof.
  intros OK Hg Hk Hsz Hpg. destruct (entered_spec P k pg b) as (Hev & Hres & Hs & Hother); [done..|].
  assert (Ht : pageTable (entered k pg P) !! k = Some (next P)).
  { cbn. by rewrite lookup_insert_eq. }
  apply triple_bind. eapply (triple_run _ _ (next P) (alloc_slot (NewBufferSlot k pg) P).2); [done|].
  apply triple_bind, triple_modify. fold (entered k pg P). apply triple_bind.
  eapply triple_mono; [eapply touch_spec; [apply Hev|exact Ht]|].
  intros r P' _ (-> & Hev' & f & ->). apply triple_ret. exists (next P).
  split_and!; try done. eapply evolves_trans; [done|]. by apply evolves_any.
Qed.

Lemma alloc_resident P p k : pool_ok P -> resident (alloc_page p P).2 k = resident P k.
Proof.
  intros OK. assert (Hmem : mem P ⊆ <[next P := buf p]> (mem P)).
  { apply insert_subseteq. by apply (ok_next _ OK). }
  unfold resident. cbn. destruct (pageTable P !! k) as [ref|] eqn:E; [|done]. cbn.
  destruct (resident_ok _ _ _ OK E) as (s & b & -> & _ & [Hb _] & _). cbn.
  rewrite Hb. by rewrite (lookup_weaken _ _ _ _ Hb Hmem).
Qed.

Lemma alloc_page_spec P p :
  pool_ok P ->
  evolves no_key P (alloc_page p P).2 /\ mem (alloc_page p P).2 !! next P = Some (buf p).
Proof.
  intros OK. assert (Hmem : mem P ⊆ <[next P := buf p]> (mem P)).
  { apply insert_subseteq. by apply (ok_next _ OK). }
  assert (Hres : forall k, resident (alloc_page p P).2 k = resident P k) by (intros k; by apply alloc_resident).
  split; [|cbn; by rewrite lookup_insert_eq].
  apply evolves_same; try done.
  - split; cbn; try apply OK.
    + intros k ref Hk. destruct (ok_slot _ OK _ _ Hk) as (Hg & s & b & Hs & Hks & Hb & ?).
      split; [done|]. exists s, b. split_and!; try done. split; [|done]. by eapply lookup_weaken.
    + intros ref Hn. destruct (ok_next _ OK ref) as [Hn1 Hn2]; [lia|].
      rewrite lookup_insert_ne by lia. done.
  - intros k s b _. rewrite Hres. eauto.
  - intros k _. by rewrite Hres.
Qed.

(** A loaded page is the page on file, so nothing changes for a client. *)
Lemma evolves_loaded P P' k s b :
  evolves (eq k) P P' -> resident P k = None -> resident P' k = Some (s, b) ->
  on_file P k = Some b -> on_file P' k = Some b ->
  bs_dirty s = false -> mem P !! pg_buf (bs_page s) = None -> disk P' = disk P ->
  (forall k', k <> k' -> resident P' k' = resident P k') ->
  evolves no_key P P'.
Proof.
  intros Hev Hn Hres Hf Hf' Hd Hm Hdisk Hother. split; try apply Hev.
  - intros k' s' b' _ Hr'. destruct (decide (k = k')) as [<-|]; [|by eapply Hev].
    right. rewrite Hres in Hr'. by injection Hr' as <- <-.
  - by rewrite Hdisk.
  - intros Z _ Ha. assert (Hfresh : forall k2 s2 b2, k <> k2 -> resident P' k2 = Some (s2, b2) ->
      pg_buf (bs_page s2) <> pg_buf (bs_page s)).
    { intros k2 s2 b2 Hne H2 E. rewrite (Hother _ Hne) in H2.
      apply resident_inv in H2 as (ref & _ & _ & H2). congruence. }
    intros k1 k2 s1 b1 s2 b2 Hx1 Hx2 H1 H2 E.
    destruct (decide (k = k1)) as [<-|N1], (decide (k = k2)) as [<-|N2]; [done|..].
    + rewrite Hres in H1. injection H1 as <- <-. by destruct (Hfresh _ _ _ N2 H2).
    + rewrite Hres in H2. injection H2 as <- <-. by destruct (Hfresh _ _ _ N1 H1).
    + rewrite Hother in H1, H2 by done. by eapply Ha.
  - intros k' Hg _ Hc. destruct (decide (k = k')) as [<-|]; [|by apply Hev].
    intros s' b' Hr' _. congruence.
  - intros k' Hg _ Hc. destruct (decide (k = k')) as [<-|]; [|by apply Hev].
    unfold contents. by rewrite Hn, Hres, Hf.
  - intros k' s' b' _ Hr'. apply Hev; [|done]. intros <-. congruence.
Qed.

Lemma read_spec P k :
  pool_ok P -> good_key k ->
  triple (on_disk (pfm_read (PageID k) (Filepath.Join (root P) (FileID k)))) P (fun r P' =>
    evolves no_key P P' /\ pageTable P' = pageTable P /\
    forall p, r = Ok p -> pageID p = PageID k /\ valid_buf (buf p) /\ on_file P' k = Some (buf p)).
Proof.
  intros OK Hg. unfold on_disk, triple. rewrite (ok_root _ OK). fold (path_of k).
  destruct (pfm_read_law (disk P) (PageID k) (path_of k)) as (r & d' & E & Hsame & Hr); [apply Hg|].
  rewrite E. cbn [fst snd]. split; [by destruct Hr as [(p & -> & _)|[e ->]]|]. split_and!; try done.
  - apply evolves_same; try done; [by apply pool_ok_disk|..].
    + apply rtc_once. cbn. change d' with ((r, d').2). rewrite <- E. constructor. apply Hg.
    + intros k' _ _. apply Hsame.
    + intros k' s b _. eauto.
  - intros p ->. destruct Hr as [(p' & [= <-] & Hid & Hv & Hst)|[e ?]]; [|done].
    split_and!; try done. unfold on_file; cbn. by rewrite Hsame.
Qed.

Lemma getPageLocked_spec P k :
  pool_ok P -> good_key k -> 0 < poolSize P ->
  triple (getPageLocked k) P (fun r P' =>
    evolves no_key P P' /\ forall ref, r = Ok ref -> pageTable P' !! k = Some ref).
Proof.
  intros OK Hg Hsz. unfold getPageLocked. apply triple_bind, triple_get.
  destruct (pageTable P !! k) as [ref|] eqn:Hk.
  - destruct (resident_ok _ _ _ OK Hk) as (s & b & Hs & Hks & Hpg & _).
    apply triple_bind. eapply triple_run; [by apply store_run|].
    assert (Hev : evolves no_key P (with_slot ref (IncrementUsage s) P)).
    { eapply evolves_slot; try done. by left. }
    apply triple_bind. eapply triple_mono; [by eapply touch_spec; [apply Hev|exact Hk]|].
    intros r P' _ (-> & Hev' & f & ->). apply triple_ret.
    split; [by eapply evolves_trans|]. by intros _ [= <-].
  - apply triple_bind. eapply triple_mono; [by apply ensureSpaceLocked_spec|].
    intros r1 P1 _ (Hev1 & Hsub & Hspace). destruct r1 as [[]|e|]; [|done..].
    specialize (Hspace eq_refl). pose proof (ev_ok _ _ _ Hev1) as OK1.
    apply triple_bind, triple_get, triple_bind.
    eapply triple_mono; [by apply read_spec|]. intros r2 P2 _ (Hev2 & Ht2 & Hread).
    pose proof (ev_ok _ _ _ Hev2) as OK2. assert (Hev12 : evolves no_key P P2) by by eapply evolves_trans.
    destruct r2 as [p|e|]; [|done..]. destruct (Hread p eq_refl) as (Hid & Hv & Hf).
    apply triple_bind. eapply (triple_run _ _ _ (alloc_page p P2).2); [done|].
    destruct (alloc_page_spec P2 p OK2) as [Hev3 Hm3]. set (P3 := (alloc_page p P2).2) in *.
    assert (Hn2 : pageTable P2 !! k = None).
    { rewrite Ht2. destruct (pageTable P1 !! k) eqn:E; [|done].
      eapply lookup_weaken in E; [|exact Hsub]. congruence. }
    set (pg := {| pg_id := pageID p; pg_buf := next P2 |}).
    eapply triple_mono; [apply (enter_spec P3 k pg (buf p)); try done; [apply Hev3|]|].
    { change (pageTable P3) with (pageTable P2). rewrite Ht2. change (poolSize P3) with (poolSize P2).
      by rewrite (ev_size _ _ _ Hev2). }
    intros r4 P4 _ (ref & -> & Hev4 & Ht4 & _ & Hres4 & Hf4 & Hd4 & Ho4). split; [|by intros _ [= <-]].
    eapply evolves_trans; [exact Hev12|].
    eapply (evolves_loaded P2 P4 k); [|by apply resident_None|exact Hres4|exact Hf|by rewrite Hf4|done| |done|].
    { eapply evolves_trans; [by apply evolves_any|exact Hev4]. }
    { by apply (ok_next _ OK2). }
    intros k' Hne. rewrite (Ho4 k' Hne). apply alloc_resident, OK2.
Qed.

(** *** The operations *)

Lemma slot_of_spec P k :
  pool_ok P -> good_key k -> 0 < poolSize P ->
  triple (slot_of k) P (fun r P' =>
    evolves no_key P P' /\ (forall ref, r = Ok ref -> pageTable P' !! k = Some ref) /\
    (forall e, r = Err e -> pageTable P !! k = None)).
Proof.
  intros OK Hg Hsz. unfold slot_of. apply triple_bind, triple_get.
  destruct (pageTable P !! k) as [ref|] eqn:Hk.
  - apply triple_ret. split; [by apply evolves_refl|]. split; [by intros _ [= <-]|done].
  - eapply triple_mono; [by apply getPageLocked_spec|]. intros r P' _ [Hev Hr]. by split_and!.
Qed.

Lemma NewPage_spec P k pg b :
  pool_ok P -> good_key k -> 0 < poolSize P -> page_for k pg P b ->
  triple (NewPage k (Some pg)) P (fun r P' =>
    evolves (eq k) P P' /\
    (forall ref, r = Ok ref -> pageTable P !! k = None /\ pageTable P' !! k = Some ref /\
       slots P' !! ref = Some (NewBufferSlot k pg) /\
       resident P' k = Some (NewBufferSlot k pg, b)) /\
    (forall e, r = Err e -> evolves no_key P P') /\
    rtc (disk_step (writable no_key P)) (disk P) (disk P')).
Proof.
  intros OK Hg Hsz Hpg. unfold NewPage. apply triple_bind, triple_get.
  case_decide as Hk.
  { apply triple_fail. split_and!; try done; intros; by apply evolves_refl. }
  apply eq_None_not_Some in Hk.
  apply triple_bind. eapply triple_mono; [by apply ensureSpaceLocked_spec|].
  intros r1 P1 _ (Hev1 & Hsub & Hspace). destruct r1 as [[]|e|]; [| |done].
  2:{ split_and!; try done; [by apply evolves_any|apply Hev1]. }
  eapply triple_mono; [apply (enter_spec P1 k pg b); try done; [apply Hev1| | |]|].
  - destruct (pageTable P1 !! k) eqn:E; [|done]. eapply lookup_weaken in E; [|exact Hsub]. congruence.
  - by apply Hspace.
  - destruct Hpg as [Hb ?]. split; [|done]. by eapply lookup_weaken; [|apply Hev1].
  - intros r P2 _ (ref & -> & Hev2 & Ht & Hs & Hres & _ & Hd & _). split_and!; try done.
    + eapply evolves_trans; [by apply evolves_any|done].
    + by intros _ [= <-].
    + rewrite Hd. apply Hev1.
Qed.

Lemma UpdatePage_spec P k pg b :
  pool_ok P -> good_key k -> 0 < poolSize P -> page_for k pg P b ->
  triple (UpdatePage k (Some pg)) P (fun r P' =>
    evolves (eq k) P P' /\
    (r = Ok tt -> contents P' k = Some b /\ coherent P' k /\
       exists s, resident P' k = Some (s, b) /\ bs_dirty s = true /\ bs_page s = pg) /\
    (forall e, r = Err e -> evolves no_key P P' /\ pageTable P !! k = None) /\
    rtc (disk_step (writable no_key P)) (disk P) (disk P')).
Proof.
  intros OK Hg Hsz Hpg. unfold UpdatePage. apply triple_bind.
  eapply triple_mono; [by apply slot_of_spec|]. intros r1 P1 _ (Hev1 & Hslot & Hn).
  destruct r1 as [ref|e|]; [| |done].
  2:{ split_and!; try done; [by apply evolves_any|eauto|apply Hev1]. }
  specialize (Hslot ref eq_refl). pose proof (ev_ok _ _ _ Hev1) as OK1.
  destruct (resident_ok _ _ _ OK1 Hslot) as (s & b0 & Hs & Hks & _).
  assert (Hpg1 : page_for k pg P1 b).
  { destruct Hpg as [Hb ?]. split; [|done]. by eapply lookup_weaken; [|apply Hev1]. }
  apply triple_bind. eapply triple_run; [by apply store_run|]. cbn beta iota.
  set (s1 := SetPage pg s). set (P2 := with_slot ref s1 P1).
  destruct (evolves_slot_at P1 k ref s s1 b) as [Hev2 _]; try done; [by left|]. fold P2 in Hev2.
  assert (Hs2 : slots P2 !! ref = Some s1) by (cbn; by rewrite lookup_insert_eq).
  apply triple_bind. eapply triple_run; [by apply store_run|]. cbn beta iota.
  set (s3 := SetDirty true s1). set (P3 := with_slot ref s3 P2).
  destruct (evolves_slot_at P2 k ref s1 s3 b) as [Hev3 Hres3]; try done; [apply Hev2|by left|].
  fold P3 in Hev3, Hres3.
  eapply triple_mono; [eapply (touch_spec P3 k ref); [apply Hev3|done]|].
  intros r P4 _ (-> & Hev4 & f & ->).
  assert (Hres4 : resident (with_replacer f P3) k = Some (s3, b)) by done.
  split_and!; try done.
  - eapply evolves_trans; [by apply evolves_any|]. eapply evolves_trans; [exact Hev2|].
    eapply evolves_trans; [exact Hev3|]. by apply evolves_any.
  - intros _. split; [unfold contents; by rewrite Hres4|]. split; [|eauto].
    intros s4 b4. rewrite Hres4. by intros [= <- <-].
  - apply Hev1.
Qed.

Lemma PinPage_spec P k :
  pool_ok P -> good_key k -> 0 < poolSize P ->
  triple (PinPage k) P (fun r P' =>
    evolves no_key P P' /\
    (r = Ok tt -> exists s b, resident P' k = Some (s, b) /\ bs_pinned s = true)).
Proof.
  intros OK Hg Hsz. unfold PinPage. apply triple_bind.
  eapply triple_mono; [by apply slot_of_spec|]. intros r1 P1 _ (Hev1 & Hslot & _).
  destruct r1 as [ref|e|]; [|done..].
  specialize (Hslot ref eq_refl). pose proof (ev_ok _ _ _ Hev1) as OK1.
  destruct (resident_ok _ _ _ OK1 Hslot) as (s & b & Hs & Hks & [Hb _] & Hres).
  apply triple_bind. eapply triple_run; [by apply store_run|]. apply triple_modify.
  destruct (rep_delete_view (replacer P1) k (ok_replacer _ OK1)) as [Hok Hv].
  set (P2 := with_replacer (rep_delete k) P1).
  change (with_replacer (rep_delete k) (with_slot ref (SetPinned true s) P1))
    with (with_slot ref (SetPinned true s) P2).
  assert (Hev2 : evolves no_key P1 P2).
  { apply evolves_replacer; [done..|]. intros k' ref'. rewrite Hv.
    intros [_ Hk']%lookup_delete_Some. by apply OK1. }
  split.
  - eapply evolves_trans; [exact Hev1|]. eapply evolves_trans; [exact Hev2|].
    eapply evolves_slot; try done; [apply Hev2|]. right. split; [|done].
    cbn. by rewrite Hv, lookup_delete_eq.
  - intros _. exists (SetPinned true s), b.
    rewrite (resident_with_slot P2 k ref _ b) by (done || apply Hev2). by rewrite decide_True.
Qed.

Lemma UnpinPage_spec P k :
  pool_ok P ->
  triple (UnpinPage k) P (fun r P' =>
    r = Ok tt /\ evolves (eq k) P P' /\ contents P' k = contents P k /\
    (coherent P k -> coherent P' k) /\
    forall s b, resident P' k = Some (s, b) -> bs_pinned s = false).
Proof.
  intros OK. unfold UnpinPage. apply triple_bind, triple_get.
  destruct (pageTable P !! k) as [ref|] eqn:Hk.
  2:{ apply triple_ret. split_and!; try done; [by apply evolves_refl|].
      intros s b. by rewrite (proj2 (resident_None P k OK) Hk). }
  destruct (resident_ok _ _ _ OK Hk) as (s & b & Hs & Hks & Hpg & Hres).
  apply triple_bind. eapply triple_run; [by apply load_run|]. cbn beta iota.
  destruct (bs_pinned s) eqn:Hp; cbn [negb].
  2:{ apply triple_ret. split_and!; try done; [by apply evolves_refl|].
      intros s' b'. rewrite Hres. by intros [= <- <-]. }
  apply triple_bind. eapply triple_run; [by apply store_run|]. cbn beta iota.
  set (s1 := SetPinned false s). set (P1 := with_slot ref s1 P).
  destruct (evolves_slot_at P k ref s s1 b) as [Hev1 Hres1]; try done.
  { right. destruct (rep_view (replacer P) !! k) as [ref'|] eqn:E; [|done].
    destruct (ok_view _ OK _ _ E) as [Hk' Hu]. rewrite Hk in Hk'. simplify_eq.
    rewrite (Hu s) in Hp; done. }
  fold P1 in Hev1, Hres1.
  assert (Hs1 : slots P1 !! ref = Some s1) by (cbn; by rewrite lookup_insert_eq).
  apply triple_bind. eapply triple_run; [by apply load_run|]. apply triple_modify.
  assert (Hev2 : evolves no_key P1 (with_replacer
    (rep_push (Some {| slot_ref := ref; slot_key := bs_key s1 |}) false) P1)).
  { eapply evolves_push; try done. apply Hev1. }
  cbn [bs_pinned s1 SetPinned]. set (P2 := with_replacer _ P1) in *.
  assert (Hres2 : resident P2 k = Some (s1, b)) by done.
  split_and!; try done.
  - eapply evolves_trans; [exact Hev1|]. by apply evolves_any.
  - unfold contents. by rewrite Hres2, Hres.
  - intros Hc s' b'. rewrite Hres2. intros [= <- <-] Hd. by apply (Hc s).
  - intros s' b'. rewrite Hres2. by intros [= <- <-].
Qed.

(** A key without unwritten changes. *)
Definition clean P k : Prop := forall s b, resident P k = Some (s, b) -> bs_dirty s = false.

Lemma clean_on_file P k : clean P k -> coherent P k -> on_file P k = contents P k.
Proof.
  intros Hcl Hc. unfold contents. destruct (resident P k) as [[s b]|] eqn:E; [|done].
  by eapply Hc, Hcl.
Qed.

(** What a flush does to the residents. *)
Definition flushed_at k P P' (r : outcome unit) : Prop :=
  (forall k', k' <> k -> resident P' k' = resident P k') /\
  (r <> Ok tt -> resident P' k = resident P k) /\
  (r = Ok tt -> resident P' k = (fun sb => (SetDirty false sb.1, sb.2)) <$> resident P k).

Lemma flush_spec P k ref :
  pool_ok P -> pageTable P !! k = Some ref ->
  triple (flushSlotLocked k ref) P (fun r P' =>
    evolves no_key P P' /\ pageTable P' = pageTable P /\ flushed_at k P P' r).
Proof.
  intros OK Hk. destruct (resident_ok _ _ _ OK Hk) as (s & b & Hs & Hks & Hpg & Hres).
  eapply triple_mono; [by apply (flushSlotLocked_spec P k ref s b)|].
  intros r P' _ (Hev & Ht & _ & Hm & Ho & _ & Hok & Herr). unfold flushed_at. split_and!; try done.
  - intros k' Hne. unfold resident. rewrite Ht, Hm.
    destruct (pageTable P !! k') as [ref'|] eqn:E; [|done]. cbn.
    rewrite Ho; [done|]. intros ->. apply Hne. by eapply ref_key.
  - intros Hr. rewrite Hres. eapply resident_intro; [by rewrite Ht|by apply Herr|].
    rewrite Hm. apply Hpg.
  - intros Hr. rewrite Hres. destruct (Hok Hr) as [Hs' _].
    eapply resident_intro; [by rewrite Ht|done|]. rewrite Hm. apply Hpg.
Qed.

Lemma flushed_clean k P P' r :
  flushed_at k P P' r ->
  (forall k', clean P k' -> clean P' k') /\ (r = Ok tt -> clean P' k).
Proof.
  intros (Ho & He & Hok).
  assert (Hk : r = Ok tt -> clean P' k).
  { intros Hr s b E. rewrite (Hok Hr) in E. destruct (resident P k) as [[s' b']|]; [|done].
    by injection E as <- <-. }
  split; [|done]. intros k' Hc s b. destruct (decide (k' = k)) as [->|Hne].
  - destruct r as [[]|e|]; [by apply Hk|rewrite He by done; apply Hc..].
  - rewrite Ho by done. apply Hc.
Qed.

Lemma FlushPage_spec P k :
  pool_ok P ->
  triple (FlushPage k) P (fun r P' =>
    evolves no_key P P' /\ pageTable P' = pageTable P /\ flushed_at k P P' r).
Proof.
  intros OK. unfold FlushPage. apply triple_bind, triple_get.
  destruct (pageTable P !! k) as [ref|] eqn:Hk; [by apply flush_spec|].
  apply triple_ret. unfold flushed_at. split_and!; try done; [by apply evolves_refl|].
  intros _. by rewrite (proj2 (resident_None P k OK) Hk).
Qed.

Lemma FlushAllPages_spec it P :
  pool_ok P -> (forall k ref, (k, ref) ∈ it -> pageTable P !! k = Some ref) ->
  triple (FlushAllPages it) P (fun r P' =>
    evolves no_key P P' /\ pageTable P' = pageTable P /\
    (forall k, clean P k -> clean P' k) /\
    (r = Ok tt -> forall k ref, (k, ref) ∈ it -> clean P' k)).
Proof.
  revert P. induction it as [|[k ref] it IH]; intros P OK Hit.
  { apply triple_ret. split_and!; try done; [by apply evolves_refl|].
    intros _ k ref Hin. by apply not_elem_of_nil in Hin. }
  cbn [FlushAllPages]. apply triple_bind.
  eapply triple_mono; [by apply flush_spec; [|apply Hit, elem_of_cons; left]|].
  intros r P1 _ (Hev & Ht & Hf). destruct (flushed_clean _ _ _ _ Hf) as [Hkeep Hk].
  destruct r as [[]|e|]; [|by split_and!|done].
  eapply triple_mono; [apply IH; [apply Hev|]|].
  { intros k' ref' Hin. rewrite Ht. apply Hit, elem_of_cons. by right. }
  intros r P2 _ (Hev2 & Ht2 & Hkeep2 & Hall). split_and!.
  - by eapply evolves_trans.
  - congruence.
  - intros k' Hc. auto.
  - intros Hr k' ref' [[= -> ->]|Hin]%elem_of_cons; [|by eapply Hall].
    by apply Hkeep2, Hk.
Qed.

Lemma DirtyPages_run it P :
  pool_ok P -> (forall k ref, (k, ref) ∈ it -> pageTable P !! k = Some ref) ->
  DirtyPages it P =
    (Ok (omap (fun kr => s ← slots P !! kr.2; if bs_dirty s : bool then Some kr.2 else None) it), P).
Proof.
  intros OK. induction it as [|[k ref] it IH]; intros Hit; [done|]. cbn [DirtyPages].
  destruct (resident_ok P k ref OK) as (s & b & Hs & _); [apply Hit, elem_of_cons; by left|].
  erewrite sbind_ok by by apply load_run.
  erewrite sbind_ok by (apply IH; intros; apply Hit, elem_of_cons; by right).
  cbn. rewrite Hs. cbn. by destruct (bs_dirty s).
Qed.

(** Flushing a batch: at most [batchSize] successful flushes, the flushed
    keys are clean, every other slot is as it was, and every failure but the
    flushed ones was an error of the disk. *)
Lemma flush_loop_spec batch dirty n P :
  pool_ok P ->
  (forall ref, ref ∈ dirty -> exists k, pageTable P !! k = Some ref) ->
  n <= batch ->
  triple (flush_loop batch n dirty) P (fun r P' =>
    evolves no_key P P' /\ pageTable P' = pageTable P /\
    exists m C, r = Ok m /\ n <= m <= batch /\ Z.of_nat (length C) = m - n /\
      (forall k, k ∈ C -> clean P' k) /\ (forall k, clean P k -> clean P' k) /\
      (forall k, k ∉ C -> resident P' k = resident P k)).
Proof.
  revert n P. induction dirty as [|ref dirty IH]; intros n P OK Hd Hn; cbn [flush_loop].
  - apply triple_ret. split_and!; try done; [by apply evolves_refl|]. exists n, [].
    split_and!; try done; try (cbn; lia). intros k Hk. by apply not_elem_of_nil in Hk.
  - destruct (Z.leb_spec batch n).
    { apply triple_ret. split_and!; try done; [by apply evolves_refl|]. exists n, [].
      split_and!; try done; try (cbn; lia). intros k Hk. by apply not_elem_of_nil in Hk. }
    destruct (Hd ref) as [k Hk]; [apply elem_of_cons; by left|].
    destruct (resident_ok _ _ _ OK Hk) as (s & b & Hs & Hks & _ & _).
    apply triple_bind. eapply triple_run; [by apply load_run|]. cbn beta iota. rewrite Hks.
    pose proof (FlushPage_spec P k OK) as [Hnp (Hev & Ht & Hf)].
    destruct (flushed_clean _ _ _ _ Hf) as [Hkeep Hkc].
    apply triple_bind. unfold skip_error at 1, triple at 1.
    destruct (FlushPage k P) as [[[]|e|] P1]; cbn [fst snd] in *; [| |done]; (split; [done|]).
    + eapply triple_mono; [apply (IH (n + 1) P1); [apply Hev| |lia]|].
      { intros ref' Hin. rewrite Ht. apply Hd, elem_of_cons. by right. }
      intros r P2 _ (Hev2 & Ht2 & m & C & -> & Hm & Hl & HC & Hk2 & Ho).
      split_and!; [by eapply evolves_trans|congruence|]. exists m, (k :: C).
      split_and!; try done; try (cbn [length]; lia); [|auto|].
      * intros k' [->|Hin]%elem_of_cons; auto.
      * intros k' Hni. rewrite not_elem_of_cons in Hni. rewrite Ho by tauto. destruct Hf as (Hfo & _). apply Hfo. tauto.
    + eapply triple_mono; [apply (IH n P1); [apply Hev| |lia]|].
      { intros ref' Hin. rewrite Ht. apply Hd, elem_of_cons. by right. }
      intros r P2 _ (Hev2 & Ht2 & m & C & -> & Hm & Hl & HC & Hk2 & Ho).
      split_and!; [by eapply evolves_trans|congruence|]. exists m, C.
      split_and!; try done; try lia; [auto|]. intros k' Hni. rewrite Ho by done.
      destruct Hf as (Hfo & Hfe & _). destruct (decide (k' = k)) as [->|]; [by apply Hfe|by apply Hfo].
Qed.

End spec.
(** *** The pool as a store of pages

    [represents E A P]: apart from the keys of [E], the pool stands for the
    store [A], and every clean page is on disk. *)
Section store.
Context {R D : Type} `{RR : Replacer R, RL : !ReplacerLaws R, DM : PageFileManager D, DL : !PageFileLaws D}.
Context (root0 : string) (root_nonempty : root0 <> ""%string).
Implicit Types (P : Pool R D) (k : PageKey) (A : PageKey -> option (list byte)).

Notation good := (good_key Filepath.simple_name).
Notation ok := (pool_ok root0 Filepath.simple_name).
Notation evolves := (evolves root0 Filepath.simple_name).

Definition represents (E : PageKey -> Prop) A P : Prop :=
  ok P /\ 0 < poolSize P /\
  forall k, good k -> ~ E k -> coherent root0 P k /\ contents root0 P k = A k.

Let join_inj f g : Filepath.simple_name f -> Filepath.simple_name g ->
  Filepath.Join root0 f = Filepath.Join root0 g -> f = g.
Proof. by apply Filepath.Join_inj. Qed.

Let join_nonempty f : Filepath.simple_name f -> Filepath.Join root0 f <> ""%string.
Proof. by apply Filepath.Join_nonempty. Qed.

Lemma evolves_represents X E A P P' :
  evolves X P P' -> represents E A P -> (forall k, X k -> E k) -> represents E A P'.
Proof.
  intros Hev (OK & Hsz & Hrep) Hsub. split_and!; [apply Hev|by rewrite (ev_size _ _ _ _ _ Hev)|].
  intros k Hg He. destruct (Hrep k Hg He) as [Hc <-]. assert (~ X k) by auto.
  split; [by apply (ev_coherent _ _ _ _ _ Hev)|by apply (ev_contents _ _ _ _ _ Hev)].
Qed.

Lemma evolves_no_represents E A P P' : evolves no_key P P' -> represents E A P -> represents E A P'.
Proof. intros Hev Hr. eapply evolves_represents; [done..|]. by intros k []. Qed.

Lemma represents_on_file A P k :
  represents no_key A P -> good k -> clean P k -> on_file root0 P k = A k.
Proof.
  intros (OK & _ & Hrep) Hg Hc. destruct (Hrep k Hg) as [Hcoh <-]; [by intros []|].
  by apply clean_on_file.
Qed.

Lemma it_table P it k (ref : nat) :
  it ≡ₚ map_to_list (pageTable P) -> (k, ref) ∈ it <-> pageTable P !! k = Some ref.
Proof. intros ->. apply elem_of_map_to_list. Qed.

(** C12: reading through the pool: whatever page has to be evicted, written
    back or loaded on the way and whatever the disk does, [GetPage],
    [PinPage] and [UnpinPage] leave the store as it was and do not panic; a slot returned by
    [GetPage] holds the page the store has for the key, and a pinned page is
    resident. *)
Theorem pool_reads_refine A P k :
  represents no_key A P -> good k ->
  triple (GetPage k) P (fun r P' =>
    represents no_key A P' /\ forall ref, r = Ok ref ->
      exists s b, slots P' !! ref = Some s /\ bs_key s = k /\
        mem P' !! pg_buf (bs_page s) = Some b /\ A k = Some b) /\
  triple (PinPage k) P (fun r P' =>
    represents no_key A P' /\ (r = Ok tt -> exists s b, resident P' k = Some (s, b) /\
      bs_pinned s = true /\ A k = Some b)) /\
  triple (UnpinPage k) P (fun r P' =>
    r = Ok tt /\ represents no_key A P' /\
    forall s b, resident P' k = Some (s, b) -> bs_pinned s = false).
Proof.
  intros Hrep Hg. pose proof Hrep as (OK & Hsz & Hr). split; [|split].
  - eapply triple_mono; [by apply (getPageLocked_spec root0 Filepath.simple_name)|].
    intros r P' _ [Hev Hok]. assert (Hrep' : represents no_key A P') by by eapply evolves_no_represents.
    split; [done|]. intros ref ->.
    destruct (resident_ok root0 Filepath.simple_name P' k ref) as (s & b & Hs & Hks & [Hb _] & Hres); [apply Hev|by apply Hok|].
    exists s, b. split_and!; try done. destruct Hrep' as (_ & _ & Hr').
    destruct (Hr' k Hg) as [_ <-]; [by intros []|]. unfold contents. by rewrite Hres.
  - eapply triple_mono; [by apply (PinPage_spec root0 Filepath.simple_name)|].
    intros r P' _ [Hev Hpin]. assert (Hrep' : represents no_key A P') by by eapply evolves_no_represents.
    split; [done|]. intros Hr0. destruct (Hpin Hr0) as (s & b & Hres & Hp).
    exists s, b. split_and!; try done. destruct Hrep' as (_ & _ & Hr').
    destruct (Hr' k Hg) as [_ <-]; [by intros []|]. unfold contents. by rewrite Hres.
  - eapply triple_mono; [by apply (UnpinPage_spec root0 Filepath.simple_name)|].
    intros r P' _ (Hr0 & Hev & Hcon & Hcoh & Hp). split_and!; try done.
    split_and!; [apply Hev|by rewrite (ev_size _ _ _ _ _ Hev)|].
    intros k' Hg' Hk'. destruct (Hr k' Hg' Hk') as [Hc <-].
    destruct (decide (k = k')) as [<-|Hne]; [auto|].
    split; [by apply (ev_coherent _ _ _ _ _ Hev)|by apply (ev_contents _ _ _ _ _ Hev)].
Qed.

(** C13: [UpdatePage] is the store's update, also when the key's page was new
    (never on disk) or was changed in place before the call: on success the
    store maps the key to the given bytes and no other key changes; on an
    error nothing changes. *)
Theorem pool_update_refines A P k pg b :
  represents (eq k) A P -> good k -> page_for k pg P b ->
  triple (UpdatePage k (Some pg)) P (fun r P' =>
    match r with
    | Ok _ => represents no_key (fun k' => if decide (k' = k) then Some b else A k') P'
    | _ => represents (eq k) A P'
    end).
Proof.
  intros Hrep Hg Hpg. pose proof Hrep as (OK & Hsz & Hr).
  eapply triple_mono; [by apply (UpdatePage_spec root0 Filepath.simple_name join_inj join_nonempty P k pg b)|].
  intros r P' Hnp (Hev & Hok & Herr & _). destruct r as [[]|e|]; [| |done].
  2:{ eapply evolves_no_represents; [by eapply Herr|done]. }
  destruct (Hok eq_refl) as (Hcon & Hcoh & _).
  split_and!; [apply Hev|by rewrite (ev_size _ _ _ _ _ Hev)|]. intros k' Hg' _.
  case_decide as Hd; [by subst k'|]. destruct (Hr k' Hg') as [Hc <-]; [by intros ->|].
  assert (k <> k') by congruence.
  split; [by apply (ev_coherent _ _ _ _ _ Hev)|by apply (ev_contents _ _ _ _ _ Hev)].
Qed.

(** C14: durability: a successful [FlushPage] has put the store's page of the
    key on disk, a successful [FlushAllPages], in whatever order it iterates,
    has put every page there; neither changes the store, successful or not. *)
Theorem pool_flush_durable A P k it :
  represents no_key A P -> good k -> it ≡ₚ map_to_list (pageTable P) ->
  triple (FlushPage k) P (fun r P' =>
    represents no_key A P' /\ (r = Ok tt -> on_file root0 P' k = A k)) /\
  triple (FlushAllPages it) P (fun r P' =>
    represents no_key A P' /\ (r = Ok tt -> forall k', good k' -> on_file root0 P' k' = A k')).
Proof.
  intros Hrep Hg Hit. pose proof Hrep as (OK & Hsz & Hr). split.
  - eapply triple_mono; [by apply (FlushPage_spec root0 Filepath.simple_name)|].
    intros r P' _ (Hev & _ & Hf). assert (Hrep' : represents no_key A P') by by eapply evolves_no_represents.
    split; [done|]. intros Hr0. apply represents_on_file; [done..|].
    by eapply flushed_clean.
  - eapply triple_mono; [apply (FlushAllPages_spec root0 Filepath.simple_name join_inj join_nonempty it P OK)|].
    { intros k' ref. by apply it_table. }
    intros r P' _ (Hev & Ht & _ & Hall). assert (Hrep' : represents no_key A P') by by eapply evolves_no_represents.
    split; [done|]. intros Hr0 k' Hg'. apply represents_on_file; [done..|].
    destruct (pageTable P !! k') as [ref|] eqn:E; [by eapply Hall, it_table|].
    intros s b (ref & Hk & _)%resident_inv. congruence.
Qed.

(** The dirty-page writer's batch: it never fails or panics, flushes at
    most [batchSize] pages, each of which is then on disk, leaves every other
    slot exactly as it was, and does not change the store. *)
Theorem flushBatch_bounded A P batchSize it :
  represents no_key A P -> it ≡ₚ map_to_list (pageTable P) -> 0 < batchSize ->
  triple (flushBatch batchSize it) P (fun r P' =>
    represents no_key A P' /\
    exists m C, r = Ok m /\ 0 <= m <= batchSize /\ Z.of_nat (length C) = m /\
      (forall k, k ∈ C -> good k -> on_file root0 P' k = A k) /\
      (forall k, k ∉ C -> resident P' k = resident P k)).
Proof.
  intros Hrep Hit Hb. pose proof Hrep as (OK & Hsz & Hr). unfold flushBatch. apply triple_bind.
  assert (Hin : forall k ref, (k, ref) ∈ it -> pageTable P !! k = Some ref).
  { intros k ref. by apply it_table. }
  eapply triple_run; [by apply (DirtyPages_run root0 Filepath.simple_name)|]. cbn beta iota.
  eapply triple_mono;
    [apply (flush_loop_spec root0 Filepath.simple_name join_inj join_nonempty batchSize _ 0 P OK); [|lia]|].
  - intros ref ([k ref'] & Hk & Href)%list_elem_of_omap. exists k. cbn in Href.
    destruct (slots P !! ref') as [s|]; [|done]. cbn in Href. destruct (bs_dirty s); [|done].
    injection Href as <-. by apply Hin.
  - intros r P' _ (Hev & _ & m & C & -> & Hm & Hl & HC & _ & Ho).
    assert (Hrep' : represents no_key A P') by by eapply evolves_no_represents.
    split; [done|]. exists m, C. split_and!; try done; try lia.
    intros k Hk Hg. apply represents_on_file; auto.
Qed.

(** *** Every reachable pool is well formed *)

(** The calls a client makes, with what it has to respect; a client may also
    build a page of its own and change a page's bytes through its pointer. *)
Inductive pool_op : Type :=
  | OpGet (k : PageKey) | OpNew (k : PageKey) (pg : PageRef) | OpUpdate (k : PageKey) (pg : PageRef)
  | OpPin (k : PageKey) | OpUnpin (k : PageKey) | OpFlush (k : PageKey)
  | OpFlushAll (it : list (PageKey * nat)) | OpBatch (batchSize : Z) (it : list (PageKey * nat))
  | OpAllocPage (p : HeapPage) | OpWriteBytes (loc : nat) (b : list byte).

Definition run_op (op : pool_op) : ST (Pool R D) unit :=
  match op with
  | OpGet k => GetPage k ;;; sret tt
  | OpNew k pg => NewPage k (Some pg) ;;; sret tt
  | OpUpdate k pg => UpdatePage k (Some pg)
  | OpPin k => PinPage k
  | OpUnpin k => UnpinPage k
  | OpFlush k => FlushPage k
  | OpFlushAll it => FlushAllPages it
  | OpBatch n it => flushBatch n it ;;; sret tt
  | OpAllocPage p => alloc_page p ;;; sret tt
  | OpWriteBytes loc b => smodify (fun P =>
      {| poolSize := poolSize P; replacer := replacer P; root := root P; pageTable := pageTable P;
         slots := slots P; mem := <[loc := b]> (mem P); next := next P; disk := disk P |})
  end.

Definition op_pre (op : pool_op) P : Prop :=
  match op with
  | OpGet k | OpPin k | OpUnpin k | OpFlush k => good k
  | OpNew k pg | OpUpdate k pg => good k /\ exists b, page_for k pg P b
  | OpFlushAll it => it ≡ₚ map_to_list (pageTable P)
  | OpBatch n it => 0 < n /\ it ≡ₚ map_to_list (pageTable P)
  | OpAllocPage p => True
  | OpWriteBytes loc b => is_Some (mem P !! loc) /\ valid_buf b
  end.

Definition pool_step P P' : Prop := exists op, op_pre op P /\ (run_op op P).2 = P'.

Lemma triple_void {B} (m : ST (Pool R D) B) P (Q : Pool R D -> Prop) :
  triple m P (fun _ P' => Q P') -> triple (m ;;; sret tt) P (fun _ P' => Q P').
Proof.
  intros Hm. apply triple_bind. eapply triple_mono; [exact Hm|]. by intros [b|e|] P' Hnp HQ.
Qed.

Lemma op_keeps_ok op P :
  ok P -> 0 < poolSize P -> op_pre op P ->
  triple (run_op op) P (fun _ P' => ok P' /\ poolSize P' = poolSize P).
Proof.
  intros OK Hsz Hpre.
  assert (Hev : forall X P', evolves X P P' -> ok P' /\ poolSize P' = poolSize P).
  { intros X P' Hev. split; apply Hev. }
  assert (Hin : forall it, it ≡ₚ map_to_list (pageTable P) ->
    forall k ref, (k, ref) ∈ it -> pageTable P !! k = Some ref).
  { intros it Hit k ref. by apply it_table. }
  destruct op as [k|k pg|k pg|k|k|k|it|n it|p|loc b]; cbn [run_op op_pre] in *.
  - apply triple_void. eapply triple_mono; [by apply (getPageLocked_spec root0 Filepath.simple_name)|].
    intros r P' _ [H _]. eauto.
  - destruct Hpre as [Hg [b Hpg]]. apply triple_void.
    eapply triple_mono; [by apply (NewPage_spec root0 Filepath.simple_name join_inj join_nonempty P k pg b)|].
    intros r P' _ [H _]. eauto.
  - destruct Hpre as [Hg [b Hpg]].
    eapply triple_mono; [by apply (UpdatePage_spec root0 Filepath.simple_name join_inj join_nonempty P k pg b)|].
    intros r P' _ [H _]. eauto.
  - eapply triple_mono; [by apply (PinPage_spec root0 Filepath.simple_name)|]. intros r P' _ [H _]. eauto.
  - eapply triple_mono; [by apply (UnpinPage_spec root0 Filepath.simple_name)|]. intros r P' _ [_ [H _]]. eauto.
  - eapply triple_mono; [by apply (FlushPage_spec root0 Filepath.simple_name)|]. intros r P' _ [H _]. eauto.
  - eapply triple_mono; [apply (FlushAllPages_spec root0 Filepath.simple_name join_inj join_nonempty it P OK); eauto|].
    intros r P' _ [H _]. eauto.
  - destruct Hpre as [Hn Hit]. apply triple_void. unfold flushBatch. apply triple_bind.
    eapply triple_run; [apply (DirtyPages_run root0 Filepath.simple_name); eauto|]. cbn beta iota.
    eapply triple_mono;
      [apply (flush_loop_spec root0 Filepath.simple_name join_inj join_nonempty n _ 0 P OK); [|lia]|].
    + intros ref ([k ref'] & Hk & Href)%list_elem_of_omap. exists k. cbn in Href.
      destruct (slots P !! ref') as [s|]; [|done]. cbn in Href. destruct (bs_dirty s); [|done].
      injection Href as <-. by eapply Hin.
    + intros r P' _ [H _]. eauto.
  - apply triple_void. split; [done|]. by eapply (Hev no_key), alloc_page_spec.
  - apply triple_modify. split; [|done]. destruct Hpre as [[b0 Hb0] Hv]. split; cbn; try apply OK.
    + intros k ref Hk. destruct (ok_slot _ _ _ OK _ _ Hk) as (Hg & s & b' & Hs & Hks & Hb' & Hid & Hv').
      split; [done|]. destruct (decide (pg_buf (bs_page s) = loc)) as [<-|Hne].
      * exists s, b. split_and!; try done. split; [|done]. cbn. by rewrite lookup_insert_eq.
      * exists s, b'. split_and!; try done. split; [|done]. cbn. by rewrite lookup_insert_ne.
    + intros ref Hn. destruct (ok_next _ _ _ OK ref Hn) as [Hn1 Hn2]. split; [done|].
      rewrite lookup_insert_ne; [done|]. congruence.
Qed.

Lemma new_pool_ok size d r P :
  NewHeapBufferPoolManager size d r root0 = Ok P -> rep_ok r -> rep_view r = ∅ ->
  ok P /\ poolSize P = size /\ 0 < size /\ pageTable P = ∅.
Proof.
  unfold NewHeapBufferPoolManager. destruct (Z.leb_spec size 0); [done|]. rewrite decide_False by done.
  intros [= <-] Hr Hv. split; [|done]. split; cbn; try done.
  - rewrite map_size_empty. lia.
  - intros k ref. by rewrite Hv.
Qed.

(** Every pool reachable from a new one, by any sequence of calls, with
    any disk errors and page table iteration orders, is well formed: at most
    [poolSize] resident pages, each in one slot of its own key that holds a
    valid page with the key's id, the replacer holding only resident,
    unpinned slots; and no call on it panics. *)
Theorem pool_invariant size d r P0 P :
  NewHeapBufferPoolManager size d r root0 = Ok P0 -> rep_ok r -> rep_view r = ∅ ->
  rtc pool_step P0 P ->
  ok P /\ poolSize P = size /\
  forall op, op_pre op P -> (run_op op P).1 <> Panic.
Proof.
  intros Hnew Hr Hv Hsteps. destruct (new_pool_ok size d r P0 Hnew Hr Hv) as (OK0 & Hs0 & Hpos & _).
  assert (Hinv : ok P /\ poolSize P = size).
  { clear Hnew. revert OK0 Hs0. induction Hsteps as [P|P1 P2 P3 [op [Hpre <-]] _ IH]; [done|]. intros OK0 Hs0.
    destruct (op_keeps_ok op P1) as [_ [OK' Hs']]; [done|lia|done|]. apply IH; [done|lia]. }
  destruct Hinv as [OK Hs]. split_and!; [done..|]. intros op Hpre. apply op_keeps_ok; [done|lia|done].
Qed.

(** A page handed to [NewPage] is not marked dirty: unless the client also
    calls [UpdatePage], no flush of its key writes it, so the pool and the
    disk are left exactly as they are. *)
Theorem NewPage_not_written P k pg b ref P' :
  ok P -> good k -> 0 < poolSize P -> page_for k pg P b ->
  NewPage k (Some pg) P = (Ok ref, P') ->
  FlushPage k P' = (Ok tt, P') /\ contents root0 P' k = Some b /\
  ((forall k', k' <> k -> clean P' k') ->
   forall it, it ≡ₚ map_to_list (pageTable P') -> FlushAllPages it P' = (Ok tt, P')).
Proof.
  intros OK Hg Hsz Hpg E.
  pose proof (NewPage_spec root0 Filepath.simple_name join_inj join_nonempty P k pg b OK Hg Hsz Hpg) as [_ Hs].
  rewrite E in Hs. cbn in Hs. destruct Hs as (Hev & Hok & _).
  destruct (Hok ref eq_refl) as (_ & Ht & Hs & Hres).
  assert (Hfl : flushSlotLocked k ref P' = (Ok tt, P')).
  { unfold flushSlotLocked. by erewrite sbind_ok by by apply load_run. }
  split; [|split].
  - unfold FlushPage. erewrite sbind_ok by done. by rewrite Ht.
  - unfold contents. by rewrite Hres.
  - intros Hcl it Hit. assert (Hin : forall k' ref', (k', ref') ∈ it -> pageTable P' !! k' = Some ref').
    { intros k' ref'. by apply it_table. }
    clear Hit. induction it as [|[k' ref'] it IH]; [done|]. cbn [FlushAllPages].
    destruct (resident_ok root0 Filepath.simple_name P' k' ref') as (s' & b' & Hs' & _ & _ & Hres');
      [apply Hev|apply Hin, elem_of_cons; by left|].
    rewrite (sbind_ok _ _ _ tt P'); [apply IH; intros; apply Hin, elem_of_cons; by right|].
    assert (Hd : bs_dirty s' = false).
    { destruct (decide (k' = k)) as [->|Hne]; [|by eapply Hcl].
      rewrite Hres in Hres'. by injection Hres' as <- <-. }
    unfold flushSlotLocked. erewrite sbind_ok by by apply load_run. by rewrite Hd.
Qed.
End store.

(** *** Witnesses: a pool of two frames over an empty disk *)

Definition lru_pool : Pool LRUReplacer.t FS :=
  {| poolSize := 2; replacer := LRUReplacer.New; root := "data"; pageTable := ∅; slots := ∅;
     mem := ∅; next := 0; disk := {| files := ∅; faults := [] |} |}.

Definition a_key : PageKey := NewPageKey "t.tbl" 0.

(** The same pool after the client built an empty page for [a_key]. *)
Definition a_pool : Pool LRUReplacer.t FS := (alloc_page (blank_page 0) lru_pool).2.
Definition a_page : PageRef := {| pg_id := 0; pg_buf := 0 |}.

Lemma lru_pool_ok : pool_ok "data" Filepath.simple_name lru_pool.
Proof.
  destruct (new_pool_ok (R:=LRUReplacer.t) (D:=FS) "data" ltac:(done) 2 {| files := ∅; faults := [] |} LRUReplacer.New lru_pool)
    as [H _]; [done|apply LRU.lru_ok_New|done|exact H].
Qed.

Lemma lru_pool_represents E : represents "data" E (contents "data" lru_pool) lru_pool.
Proof. split_and!; [apply lru_pool_ok|done|]. intros k _ _. split; [|done]. by intros s b. Qed.

Lemma a_pool_represents E : represents "data" E (contents "data" lru_pool) a_pool.
Proof.
  eapply evolves_represents; [|apply lru_pool_represents|by intros k Hk; exact Hk].
  by apply evolves_any, alloc_page_spec, lru_pool_ok.
Qed.

Lemma a_key_good : good_key Filepath.simple_name a_key.
Proof. split; [apply (bool_decide_unpack _); vm_compute; exact I|]. cbn. lia. Qed.

Lemma blank_page_valid : valid_buf (buf (blank_page 0)).
Proof. apply (bool_decide_unpack _). vm_compute. exact I. Qed.

Lemma a_page_for : page_for a_key a_page a_pool (buf (blank_page 0)).
Proof. split_and!; [done|done|apply blank_page_valid]. Qed.

(** One dirty page. *)
Definition a_dirty_pool : Pool LRUReplacer.t FS := (run_op (OpUpdate a_key a_page) (run_op (OpNew a_key a_page) a_pool).2).2.

Lemma a_dirty_pool_ok : pool_ok "data" Filepath.simple_name a_dirty_pool /\ poolSize a_dirty_pool = 2.
Proof.
  destruct (op_keeps_ok (R:=LRUReplacer.t) (D:=FS) "data" ltac:(discriminate) (OpNew a_key a_page) a_pool) as (_ & H1 & H2).
  { exact (proj1 (a_pool_represents no_key)). }
  { reflexivity. }
  { split; [exact a_key_good|]. exists (buf (blank_page 0)). exact a_page_for. }
  destruct (op_keeps_ok (R:=LRUReplacer.t) (D:=FS) "data" ltac:(discriminate) (OpUpdate a_key a_page)
    (run_op (OpNew a_key a_page) a_pool).2) as (_ & H3 & H4).
  { exact H1. }
  { rewrite H2. reflexivity. }
  { split; [exact a_key_good|]. exists (buf (blank_page 0)). split; [reflexivity|]. split; [reflexivity|exact blank_page_valid]. }
  split; [exact H3|]. unfold a_dirty_pool. rewrite H4, H2. reflexivity.
Qed.

Lemma a_dirty_table : pageTable a_dirty_pool = {[a_key := 1%nat]}.
Proof. vm_compute. reflexivity. Qed.
Lemma a_dirty_slot : bs_dirty <$> (slots a_dirty_pool !! 1%nat) = Some true.
Proof. vm_compute. reflexivity. Qed.

Lemma a_dirty_represents : represents "data" no_key (contents "data" a_dirty_pool) a_dirty_pool.
Proof.
  destruct a_dirty_pool_ok as [OK Hsz]. split; [exact OK|]. split; [rewrite Hsz; reflexivity|]. intros k _ _. split; [|reflexivity].
  intros sl b Hres Hd. apply resident_inv in Hres as (ref & Hk & Hsl & _). rewrite a_dirty_table in Hk.
  apply lookup_singleton_Some in Hk as [_ <-]. pose proof a_dirty_slot as Hs. rewrite Hsl in Hs. cbn in Hs. congruence.
Qed.

(** The page is found in the pool, pinned there and unpinned. *)
Lemma pool_reads_refine_witness :
  (GetPage a_key a_dirty_pool).1 = Ok 1%nat /\ (PinPage a_key a_dirty_pool).1 = Ok tt /\
  contents "data" a_dirty_pool a_key = Some (buf (blank_page 0)) /\
  (exists s, resident (PinPage a_key a_dirty_pool).2 a_key = Some (s, buf (blank_page 0)) /\ bs_pinned s = true) /\
  represents "data" no_key (contents "data" a_dirty_pool) (UnpinPage a_key a_dirty_pool).2.
Proof.
  split; [vm_compute; reflexivity|]. split; [vm_compute; reflexivity|].
  assert (HA : contents "data" a_dirty_pool a_key = Some (buf (blank_page 0))) by (vm_compute; reflexivity).
  split; [exact HA|].
  destruct (pool_reads_refine (R:=LRUReplacer.t) (D:=FS) "data" ltac:(discriminate) _ a_dirty_pool a_key
    a_dirty_represents a_key_good) as ([_ [_ Hget]] & [_ [_ Hpin]] & [_ (_ & Hun & _)]).
  split; [|exact Hun]. destruct (Hpin ltac:(vm_compute; reflexivity)) as (s & b & Hres & Hp & Hb).
  exists s. rewrite HA in Hb. apply (inj Some) in Hb. subst b. split; assumption.
Defined.

Lemma pool_update_refines_witness :
  page_for a_key a_page a_pool (buf (blank_page 0)) /\
  triple (UpdatePage a_key (Some a_page)) a_pool (fun r P' =>
    match r with
    | Ok _ => represents "data" no_key
        (fun k' => if decide (k' = a_key) then Some (buf (blank_page 0)) else contents "data" lru_pool k') P'
    | _ => represents "data" (eq a_key) (contents "data" lru_pool) P'
    end).
Proof.
  split; [apply a_page_for|].
  apply (pool_update_refines (R:=LRUReplacer.t) (D:=FS) "data" ltac:(discriminate));
    [apply a_pool_represents|apply a_key_good|apply a_page_for].
Defined.

(** The changed page is on file after a flush, and was not before. *)
Lemma pool_flush_durable_witness :
  on_file "data" a_dirty_pool a_key = None /\ (FlushAllPages [(a_key, 1%nat)] a_dirty_pool).1 = Ok tt /\
  on_file "data" (FlushAllPages [(a_key, 1%nat)] a_dirty_pool).2 a_key = Some (buf (blank_page 0)) /\
  on_file "data" (FlushPage a_key a_dirty_pool).2 a_key = Some (buf (blank_page 0)).
Proof.
  assert (Hit : [(a_key, 1%nat)] ≡ₚ map_to_list (pageTable a_dirty_pool)) by (rewrite a_dirty_table, map_to_list_singleton; reflexivity).
  assert (Hr : (FlushAllPages [(a_key, 1%nat)] a_dirty_pool).1 = Ok tt) by (vm_compute; reflexivity).
  assert (HA : contents "data" a_dirty_pool a_key = Some (buf (blank_page 0))) by (vm_compute; reflexivity).
  split; [vm_compute; reflexivity|]. split; [exact Hr|].
  destruct (pool_flush_durable (R:=LRUReplacer.t) (D:=FS) "data" ltac:(discriminate) _ a_dirty_pool a_key [(a_key, 1%nat)]
    a_dirty_represents a_key_good Hit) as [[_ [_ Hone]] [_ [_ Hall]]].
  rewrite <- HA. split; [apply (Hall Hr a_key a_key_good)|apply Hone; vm_compute; reflexivity].
Defined.

Lemma flushBatch_bounded_witness :
  represents "data" no_key (contents "data" lru_pool) lru_pool /\
  exists m, (flushBatch 4 [] lru_pool).1 = Ok m /\ 0 <= m <= 4.
Proof.
  split; [apply lru_pool_represents|].
  destruct (flushBatch_bounded (R:=LRUReplacer.t) (D:=FS) "data" ltac:(discriminate) _ lru_pool 4 []
    (lru_pool_represents no_key) ltac:(reflexivity) ltac:(reflexivity)) as [_ [_ (m & C & E & Hm & _)]].
  exists m. split; assumption.
Defined.

Lemma pool_invariant_witness :
  NewHeapBufferPoolManager 2 {| files := ∅; faults := [] |} LRUReplacer.New "data" = Ok lru_pool /\
  pool_ok "data" Filepath.simple_name a_pool /\
  (run_op (OpNew a_key a_page) a_pool).1 <> Panic.
Proof.
  split; [reflexivity|].
  destruct (pool_invariant (R:=LRUReplacer.t) (D:=FS) "data" ltac:(discriminate) 2 {| files := ∅; faults := [] |} LRUReplacer.New
    lru_pool a_pool) as (H1 & _ & H2).
  - reflexivity.
  - exact LRU.lru_ok_New.
  - reflexivity.
  - apply rtc_once. exists (OpAllocPage (blank_page 0)). split; [exact I|reflexivity].
  - split; [exact H1|]. apply H2. split; [exact a_key_good|]. eexists. exact a_page_for.
Defined.

Lemma NewPage_not_written_witness :
  page_for a_key a_page a_pool (buf (blank_page 0)) /\
  let P' := (NewPage a_key (Some a_page) a_pool).2 in FlushPage a_key P' = (Ok tt, P').
Proof.
  split; [exact a_page_for|]. cbv zeta.
  refine (proj1 (NewPage_not_written (R:=LRUReplacer.t) (D:=FS) "data" _ a_pool a_key a_page (buf (blank_page 0)) 1 _ _ a_key_good _ _ _)).
  - discriminate.
  - exact (proj1 (a_pool_represents no_key)).
  - reflexivity.
  - exact a_page_for.
  - vm_compute. reflexivity.
Defined.

(** A new page can vanish: with a pool of one frame and a healthy disk, a
    page given to [NewPage] and not to [UpdatePage] is dropped when another
    page needs the frame, and then reading it back fails. *)
Theorem new_page_lost :
  let P0 := a_pool in
  let small := {| poolSize := 1; replacer := replacer P0; root := root P0; pageTable := pageTable P0;
                  slots := slots P0; mem := mem P0; next := next P0; disk := disk P0 |} in
  let other := NewPageKey "u.tbl" 0 in
  ((NewPage a_key (Some a_page) ;;;
   FlushAllPages [(a_key, 1%nat)] ;;;
   NewPage other (Some a_page) ;;;
   GetPage a_key) small).1 = Err (OSError "open").
Proof. vm_compute. reflexivity. Qed.

End BufferPoolSpec.
