(* ===== verification/PoolCalm.v ===== *)
(** * PoolCalm: the buffer pool on a disk that does not fail

    [calm P]: when the disk is reliable, it is healthy, and every resident page
    can be evicted.  Only [PinPage] breaks this, and none of the pool's clients
    pins pages: the other calls keep it, and with it they find room for a
    page, write back what they evict and load every page that is stored. *)

From S2P Require Import Prelude GoRuntime HeapPage Replacer PageFile BufferPool.

Module PoolCalm.
Import HeapBufferPoolManager BufferPoolSpec.

Section calm.
Context {R D : Type} `{RR : Replacer R, RL : !ReplacerLaws R, DM : PageFileManager D, DL : !PageFileLaws D}.
Context (root0 : string) (file_ids : string -> Prop).
Context (join_inj : forall f g, file_ids f -> file_ids g ->
  Filepath.Join root0 f = Filepath.Join root0 g -> f = g).
Context (join_nonempty : forall f, file_ids f -> Filepath.Join root0 f <> ""%string).
Implicit Types (P : Pool R D) (k : PageKey) (ref : nat).

Notation ok := (pool_ok root0 file_ids).
Notation good := (good_key file_ids).

Definition evictable P : Prop := forall k ref, pageTable P !! k = Some ref -> rep_view (replacer P) !! k = Some ref.
Definition at_peace P : Prop := healthy (disk P) /\ evictable P.
Definition calm P : Prop := reliable -> at_peace P.

Context (quiet : reliable).

Lemma peace_unpinned P k ref s :
  ok P -> at_peace P -> pageTable P !! k = Some ref -> slots P !! ref = Some s -> bs_pinned s = false.
Proof using. intros OK [_ He] Hk Hs. destruct (ok_view _ _ _ OK k ref (He k ref Hk)) as [_ Hu]. by apply Hu. Qed.

(** Only the table, the replacer and the disk matter. *)
Lemma peace_same P P' :
  pageTable P' = pageTable P -> replacer P' = replacer P -> disk P' = disk P -> at_peace P -> at_peace P'.
Proof using. unfold at_peace, evictable. by intros -> -> ->. Qed.

(** A touch makes the touched page evictable. *)
Lemma touch_peace P k ref s :
  ok P -> pageTable P !! k = Some ref -> slots P !! ref = Some s -> bs_key s = k -> bs_pinned s = false ->
  healthy (disk P) -> (forall k' ref', k' <> k -> pageTable P !! k' = Some ref' -> rep_view (replacer P) !! k' = Some ref') ->
  triple (touch ref) P (fun r P' => r = Ok tt /\ at_peace P' /\ disk P' = disk P /\ pageTable P' = pageTable P).
Proof using RL.
  intros OK Hk Hs Hks Hp Hd He. unfold touch. apply triple_bind. eapply triple_run; [by apply load_run|].
  cbn beta iota. rewrite Hp. apply triple_modify. split; [done|]. split; [|done]. split; [done|].
  destruct (rep_push_view (replacer P) {| slot_ref := ref; slot_key := bs_key s |}) as [_ Hv]; [apply OK| |].
  { cbn. rewrite Hks. destruct (rep_view (replacer P) !! k) as [ref'|] eqn:E; [|by left].
    right. destruct (ok_view _ _ _ OK _ _ E). congruence. }
  intros k' ref' Hk'. cbn in Hk' |- *. rewrite Hv. cbn. rewrite Hks.
  destruct (decide (k' = k)) as [->|Hne]; [rewrite lookup_insert_eq; congruence|].
  rewrite lookup_insert_ne by done. by apply He.
Qed.

Lemma flush_peace P k ref s b :
  ok P -> pageTable P !! k = Some ref -> slots P !! ref = Some s -> page_for k (bs_page s) P b -> healthy (disk P) ->
  triple (flushSlotLocked k ref) P (fun r P' =>
    r = Ok tt /\ healthy (disk P') /\ pageTable P' = pageTable P /\ replacer P' = replacer P).
Proof using join_nonempty quiet.
  intros OK Hk Hs (Hb & Hid & Hv) Hd. destruct (ok_slot _ _ _ OK _ _ Hk) as (Hg & _). unfold flushSlotLocked.
  apply triple_bind. eapply triple_run; [by apply load_run|]. cbn beta iota.
  destruct (bs_dirty s); [|by apply triple_ret].
  apply triple_bind. eapply triple_run; [by apply load_page_run|]. cbn beta iota. apply triple_bind, triple_get.
  rewrite (ok_root _ _ _ OK), Hid.
  destruct (pfm_write_reliable (disk P) {| pageID := PageID k; buf := b |} (Filepath.Join root0 (FileID k))) as [Er Hd'];
    [done..|apply Hg|by apply join_nonempty, Hg|].
  unfold triple, sbind, on_disk. destruct (pfm_write _ _ (disk P)) as [r d']. cbn [fst snd] in *. subst r.
  rewrite (store_run (with_disk d' P) ref _ s) by done. done.
Qed.

(** There is room for a page. *)
Lemma ensureSpace_peace P :
  ok P -> 0 < poolSize P -> at_peace P -> triple ensureSpaceLocked P (fun r P' => r = Ok tt /\ at_peace P').
Proof using RL join_nonempty quiet.
  intros OK Hsz Hpeace. pose proof Hpeace as [Hd He]. unfold ensureSpaceLocked. apply triple_bind, triple_get.
  destruct (Z.ltb_spec (Z.of_nat (size (pageTable P))) (poolSize P)) as [Hlt|Hge]; [by apply triple_ret|].
  pose proof (rep_pick_view (replacer P) (ok_replacer _ _ _ OK)) as Hpick.
  destruct (rep_pick (replacer P)) as [[v|] r'].
  2:{ exfalso. destruct Hpick as [_ Hemp]. destruct (decide (pageTable P = ∅)) as [E|E].
      - rewrite E, map_size_empty in Hge. lia.
      - apply map_choose in E as (k & ref & Hk). apply He in Hk. rewrite Hemp in Hk. done. }
  destruct Hpick as (Hok & Hv & Hv'). destruct (ok_view _ _ _ OK _ _ Hv) as [Hk _].
  destruct (resident_ok _ _ _ _ _ OK Hk) as (s & b & Hs & Hks & Hpg & _).
  apply triple_bind, triple_modify. set (P1 := with_replacer (fun _ => r') P).
  assert (OK1 : ok P1).
  { apply (evolves_replacer root0 file_ids no_key P (fun _ => r') OK Hok). intros k ref. rewrite Hv'.
    intros [_ Hk']%lookup_delete_Some. by apply OK. }
  apply triple_bind. eapply triple_run; [by apply load_run|]. cbn beta iota. rewrite Hks. apply triple_bind.
  assert (Hflush : triple (if bs_dirty s then flushSlotLocked (slot_key v) (slot_ref v) else sret tt) P1
    (fun r P2 => r = Ok tt /\ healthy (disk P2) /\ pageTable P2 = pageTable P1 /\ replacer P2 = replacer P1)).
  { destruct (bs_dirty s); [by apply (flush_peace P1 _ _ s b)|by apply triple_ret]. }
  eapply triple_mono; [exact Hflush|]. intros r P2 _ (-> & Hd2 & Ht2 & Hr2). apply triple_modify. split; [done|].
  split; [done|]. intros k ref Hk'. cbn in Hk'. apply lookup_delete_Some in Hk' as [Hne Hk']. cbn. rewrite Hr2. change (rep_view r' !! k = Some ref).
  rewrite Hv', lookup_delete_ne by done. apply He. by rewrite Ht2 in Hk'.
Qed.

(** A slot entered in the table and touched. *)
Lemma enter_peace P k pg b :
  ok P -> good k -> pageTable P !! k = None -> Z.of_nat (size (pageTable P)) < poolSize P -> page_for k pg P b ->
  at_peace P ->
  triple (ref <- alloc_slot (NewBufferSlot k pg) ;; smodify (with_table (insert k ref)) ;;; touch ref ;;; sret ref) P
    (fun r P' => exists ref, r = Ok ref /\ at_peace P').
Proof using RL.
  intros OK Hg Hk Hsz Hpg [Hd He]. destruct (entered_spec root0 file_ids P k pg b) as (Hev & _ & Hs & _); [done..|].
  apply triple_bind. eapply (triple_run _ _ (next P) (alloc_slot (NewBufferSlot k pg) P).2); [done|].
  apply triple_bind, triple_modify. fold (entered k pg P). apply triple_bind.
  eapply triple_mono; [apply (touch_peace (entered k pg P) k (next P) (NewBufferSlot k pg)); try done; [apply Hev| |]|].
  - cbn. by rewrite lookup_insert_eq.
  - intros k' ref' Hne Hk'. cbn in Hk' |- *. rewrite lookup_insert_ne in Hk' by done. by apply He.
  - intros r P' _ (-> & Hpeace & _). apply triple_ret. by eexists.
Qed.

(** [GetPage] finds every page that is resident or stored. *)
Lemma getPage_peace P k :
  ok P -> good k -> 0 < poolSize P -> at_peace P ->
  triple (getPageLocked k) P (fun r P' => at_peace P' /\
    (is_Some (contents root0 P k) -> exists ref, r = Ok ref)).
Proof using RL join_inj join_nonempty quiet.
  intros OK Hg Hsz Hpeace. unfold getPageLocked. apply triple_bind, triple_get.
  destruct (pageTable P !! k) as [ref|] eqn:Hk.
  - destruct (resident_ok _ _ _ _ _ OK Hk) as (s & b & Hs & Hks & Hpg & _).
    pose proof (peace_unpinned P k ref s OK Hpeace Hk Hs) as Hp.
    apply triple_bind. eapply triple_run; [by apply store_run|]. cbn beta iota.
    assert (Hev : evolves root0 file_ids no_key P (with_slot ref (IncrementUsage s) P)).
    { eapply evolves_slot; try done. by left. }
    apply triple_bind. eapply triple_mono; [apply (touch_peace _ k ref (IncrementUsage s)); try done; [apply Hev| | |]|].
    + cbn. by rewrite lookup_insert_eq.
    + apply Hpeace.
    + intros k' ref' _ Hk'. by apply Hpeace.
    + intros r P' _ (-> & Hpeace' & _). apply triple_ret. split; [done|]. by eexists.
  - apply triple_bind. eapply triple_mono; [apply triple_and;
      [by apply ensureSpace_peace|by apply (ensureSpaceLocked_spec root0 file_ids join_inj join_nonempty P OK Hsz)]|].
    intros r1 P1 _ [[-> Hpeace1] (Hev1 & Hsub & Hspace)]. specialize (Hspace eq_refl). pose proof (ev_ok _ _ _ _ _ Hev1) as OK1.
    apply triple_bind, triple_get, triple_bind.
    assert (Hn1 : pageTable P1 !! k = None).
    { destruct (pageTable P1 !! k) eqn:E; [|done]. eapply lookup_weaken in E; [|exact Hsub]. congruence. }
    assert (Hread : triple (on_disk (pfm_read (PageID k) (Filepath.Join (root P1) (FileID k)))) P1 (fun r P2 => at_peace P2 /\
      (is_Some (on_file root0 P1 k) -> exists p, r = Ok p))).
    { pose proof (pfm_read_law (disk P1) (PageID k) (path_of root0 k) (proj2 Hg)) as (r & d' & Er & _ & Hr).
      destruct (pfm_read_reliable (disk P1) (PageID k) (path_of root0 k)) as [Hd' Hok];
        [done|apply Hpeace1|apply Hg|by apply join_nonempty, Hg|].
      unfold triple, on_disk. rewrite (ok_root _ _ _ OK1). fold (path_of root0 k). rewrite Er in *. cbn [fst snd] in *.
      split; [destruct Hr as [(p & -> & _)|[e ->]]; done|]. split; [split; [done|apply Hpeace1]|done]. }
    assert (Hfile : is_Some (contents root0 P k) -> is_Some (on_file root0 P1 k)).
    { intros Hc. assert (Hcoh : coherent root0 P k).
      { intros s b Hres. rewrite (proj2 (resident_None _ _ P k OK) Hk) in Hres. done. }
      rewrite <- (ev_contents _ _ _ _ _ Hev1 k Hg (fun H => H) Hcoh) in Hc. unfold contents in Hc.
      by rewrite (proj2 (resident_None _ _ P1 k OK1) Hn1) in Hc. }
    eapply triple_mono; [apply triple_and; [exact Hread|by apply (read_spec root0 file_ids P1 k)]|].
    intros r2 P2 _ [[Hpeace2 Hok2] (Hev2 & Ht2 & Hpage)]. destruct r2 as [p|e|].
    2: split; [done|]; intros Hc; by destruct (Hok2 (Hfile Hc)).
    2: done.
    destruct (Hpage p eq_refl) as (Hid & Hv & Hf). pose proof (ev_ok _ _ _ _ _ Hev2) as OK2.
    apply triple_bind. eapply (triple_run _ _ _ (alloc_page p P2).2); [done|].
    destruct (alloc_page_spec root0 file_ids P2 p OK2) as [Hev3 Hm3].
    eapply triple_mono; [apply (enter_peace (alloc_page p P2).2 k {| pg_id := pageID p; pg_buf := next P2 |} (buf p)); try done; [apply Hev3| |]|].
    + change (pageTable (alloc_page p P2).2) with (pageTable P2). by rewrite Ht2.
    + change (pageTable (alloc_page p P2).2) with (pageTable P2). rewrite Ht2. change (poolSize (alloc_page p P2).2) with (poolSize P2).
      by rewrite (ev_size _ _ _ _ _ Hev2).
    + intros r P3 _ (ref & -> & Hpeace3). split; [done|]. by eexists.
Qed.

Lemma slot_of_peace P k :
  ok P -> good k -> 0 < poolSize P -> at_peace P -> triple (slot_of k) P (fun r P' => at_peace P').
Proof using RL join_inj join_nonempty quiet.
  intros OK Hg Hsz Hpeace. unfold slot_of. apply triple_bind, triple_get.
  destruct (pageTable P !! k); [by apply triple_ret|]. eapply triple_mono; [by apply getPage_peace|]. by intros r P' _ [? _].
Qed.

Lemma NewPage_peace P k pg b :
  ok P -> good k -> 0 < poolSize P -> page_for k pg P b -> at_peace P ->
  triple (NewPage k (Some pg)) P (fun r P' => at_peace P').
Proof using RL join_inj join_nonempty quiet.
  intros OK Hg Hsz Hpg Hpeace. unfold NewPage. apply triple_bind, triple_get. case_decide as Hk; [by apply triple_fail|].
  apply eq_None_not_Some in Hk. apply triple_bind. eapply triple_mono; [apply triple_and;
    [by apply ensureSpace_peace|by apply (ensureSpaceLocked_spec root0 file_ids join_inj join_nonempty P OK Hsz)]|].
  intros r1 P1 _ [[-> Hpeace1] (Hev1 & Hsub & Hspace)].
  eapply triple_mono; [apply (enter_peace P1 k pg b); try done; [apply Hev1| |by apply Hspace|]|].
  - destruct (pageTable P1 !! k) eqn:E; [|done]. eapply lookup_weaken in E; [|exact Hsub]. congruence.
  - destruct Hpg as [Hb ?]. split; [|done]. by eapply lookup_weaken; [|apply Hev1].
  - by intros r P2 _ (ref & -> & ?).
Qed.

Lemma UpdatePage_peace P k pg b :
  ok P -> good k -> 0 < poolSize P -> page_for k pg P b -> at_peace P ->
  triple (UpdatePage k (Some pg)) P (fun r P' => at_peace P').
Proof using RL join_inj join_nonempty quiet.
  intros OK Hg Hsz Hpg Hpeace. unfold UpdatePage. apply triple_bind. eapply triple_mono; [apply triple_and;
    [by apply slot_of_peace|by apply (slot_of_spec root0 file_ids join_inj join_nonempty P k OK Hg Hsz)]|].
  intros r1 P1 _ [Hpeace1 (Hev1 & Hslot & _)]. destruct r1 as [ref|e|]; [|done..].
  specialize (Hslot ref eq_refl). pose proof (ev_ok _ _ _ _ _ Hev1) as OK1.
  destruct (resident_ok _ _ _ _ _ OK1 Hslot) as (s & b0 & Hs & Hks & _).
  pose proof (peace_unpinned P1 k ref s OK1 Hpeace1 Hslot Hs) as Hp.
  assert (Hpg1 : page_for k pg P1 b).
  { destruct Hpg as [Hb ?]. split; [|done]. by eapply lookup_weaken; [|apply Hev1]. }
  apply triple_bind. eapply triple_run; [by apply store_run|]. cbn beta iota. set (s1 := SetPage pg s).
  destruct (evolves_slot_at root0 file_ids P1 k ref s s1 b) as [Hev2 _]; try done; [by left|].
  set (P2 := with_slot ref s1 P1) in *. assert (Hs2 : slots P2 !! ref = Some s1) by (cbn; by rewrite lookup_insert_eq).
  apply triple_bind. eapply triple_run; [by apply store_run|]. cbn beta iota. set (s3 := SetDirty true s1).
  destruct (evolves_slot_at root0 file_ids P2 k ref s1 s3 b) as [Hev3 _]; try done; [apply Hev2|by left|].
  eapply triple_mono; [apply (touch_peace (with_slot ref s3 P2) k ref s3); try done; [apply Hev3| |apply Hpeace1|]|].
  - cbn. by rewrite lookup_insert_eq.
  - intros k' ref' _ Hk'. by apply Hpeace1.
  - by intros r P' _ (_ & ? & _).
Qed.

Lemma FlushPage_peace P k : ok P -> at_peace P -> triple (FlushPage k) P (fun r P' => r = Ok tt /\ at_peace P').
Proof using join_nonempty quiet.
  intros OK [Hd He]. unfold FlushPage. apply triple_bind, triple_get.
  destruct (pageTable P !! k) as [ref|] eqn:Hk; [|by apply triple_ret].
  destruct (resident_ok _ _ _ _ _ OK Hk) as (s & b & Hs & Hks & Hpg & _).
  eapply triple_mono; [by apply (flush_peace P k ref s b)|]. intros r P' _ (-> & Hd' & Ht & Hr). split; [done|].
  split; [done|]. unfold evictable. by rewrite Ht, Hr.
Qed.

Lemma FlushAllPages_peace it : forall P,
  ok P -> at_peace P -> (forall k ref, (k, ref) ∈ it -> pageTable P !! k = Some ref) ->
  triple (FlushAllPages it) P (fun r P' => r = Ok tt /\ at_peace P').
Proof using join_inj join_nonempty quiet.
  induction it as [|[k ref] it IH]; intros P OK Hp Hit; cbn [FlushAllPages]; [by apply triple_ret|].
  assert (Hk : pageTable P !! k = Some ref) by (apply Hit; by left). destruct Hp as [Hd He].
  destruct (resident_ok _ _ _ _ _ OK Hk) as (s & b & Hs & Hks & Hpg & _). apply triple_bind.
  eapply triple_mono; [eapply triple_and; [by apply (flush_peace P k ref s b)|apply (flush_spec root0 file_ids join_inj join_nonempty P k ref OK Hk)]|].
  intros r P' _ [(-> & Hd' & Ht & Hr) (Hev & _)]. apply IH; [apply Hev| |].
  - split; [done|]. unfold evictable. by rewrite Ht, Hr.
  - intros k' ref' Hin. rewrite Ht. apply Hit. by right.
Qed.
End calm.
End PoolCalm.
