(* ===== verification/DirtyWriter.v ===== *)
(** * DirtyWriter: the goroutines of the dirty-page writer

    Models [memory/background/default_dirty_page_writer.go].  The two
    goroutines run next to the clients of the pool, so the system is a step
    relation: a step is one call on the pool (its mutex makes it one step), a
    tick, a start or a cancellation.  A batch is not one step: [DirtyPages] is
    called first, and then [FlushPage] for one slot after the other, between
    which clients may do anything.  [select] with a tick and a cancelled
    context takes either.

    [writer_invariant] is about all interleavings with clients;
    [writer_drains] says that with a working disk and idle clients the
    background writer brings every page to disk. *)

From S2P Require Import Prelude GoRuntime HeapPage Replacer PageFile BufferPool.

Module DefaultDirtyPageWriter.
Import HeapBufferPoolManager BufferPoolSpec.

Record t : Type := {
  intervalMs : Z; checkPointIntervalMs : Z; batchSize : Z; backgroundFlag : bool; checkPointerFlag : bool
}.

(** [manager] says whether the pool is not nil. *)
Definition NewDefaultDirtyPageWriter (manager : bool) (intervalMs checkPointIntervalMs batchSize : Z) : outcome t :=
  if (intervalMs <=? 0) || (checkPointIntervalMs <=? 0) then
    Err (Errorf "intervalMs or checkPointIntervalMs: negative or zero")
  else if batchSize <=? 0 then Err (Errorf "batchSize: negative or zero")
  else if negb manager then Err (Errorf "manager: nil")
  else Ok {| intervalMs := intervalMs; checkPointIntervalMs := checkPointIntervalMs; batchSize := batchSize;
             backgroundFlag := false; checkPointerFlag := false |}.

(** The flags are swapped before the goroutine starts. *)
Definition StartBackgroundWriter : ST t unit := fun w =>
  if backgroundFlag w then (Err (Errorf "backgroundFlag already started"), w)
  else (Ok tt, {| intervalMs := intervalMs w; checkPointIntervalMs := checkPointIntervalMs w; batchSize := batchSize w;
                  backgroundFlag := true; checkPointerFlag := checkPointerFlag w |}).

Definition StartCheckPointer : ST t unit := fun w =>
  if checkPointerFlag w then (Err (Errorf "checkPointerFlag already started"), w)
  else (Ok tt, {| intervalMs := intervalMs w; checkPointIntervalMs := checkPointIntervalMs w; batchSize := batchSize w;
                  backgroundFlag := backgroundFlag w; checkPointerFlag := true |}).

(** Where the background goroutine is: in its [select], or in a batch with the
    slots left and the number of pages flushed. *)
Inductive position : Type := Selecting | Flushing (dirty : list nat) (flushed : Z).

Record goroutine : Type := { at_ : position; cancelled : bool }.

Record system {R D : Type} : Type := {
  writer : t;
  pool : Pool R D;
  background : option goroutine;
  checkpointer : option bool
}.
Arguments system : clear implicits.

Section steps.
Context {R D : Type} `{!Replacer R, !PageFileManager D}.
Implicit Types (s : system R D) (P : Pool R D).

Definition with_pool P s : system R D :=
  {| writer := writer s; pool := P; background := background s; checkpointer := checkpointer s |}.
Definition with_background (g : option goroutine) s : system R D :=
  {| writer := writer s; pool := pool s; background := g; checkpointer := checkpointer s |}.
Definition with_checkpointer (g : option bool) s : system R D :=
  {| writer := writer s; pool := pool s; background := background s; checkpointer := g |}.
Definition with_writer (w : t) s : system R D :=
  {| writer := w; pool := pool s; background := background s; checkpointer := checkpointer s |}.

(** One round of the loop of [flushBatch]. *)
Definition flush_one (ref : nat) (flushed : Z) : ST (Pool R D) Z :=
  s <- load ref ;;
  ok <- skip_error (FlushPage (bs_key s)) ;;
  sret (if ok : bool then flushed + 1 else flushed).

(** A step of the background goroutine; [true] when it ends a batch. *)
Inductive bg_step s : bool -> system R D -> Prop :=
  | bg_tick c it dirty P' :
    background s = Some {| at_ := Selecting; cancelled := c |} -> it ≡ₚ map_to_list (pageTable (pool s)) ->
    DirtyPages it (pool s) = (Ok dirty, P') ->
    bg_step s false (with_background (Some {| at_ := Flushing dirty 0; cancelled := c |}) (with_pool P' s))
  | bg_flush c ref dirty n m P' :
    background s = Some {| at_ := Flushing (ref :: dirty) n; cancelled := c |} -> n < batchSize (writer s) ->
    flush_one ref n (pool s) = (Ok m, P') ->
    bg_step s false (with_background (Some {| at_ := Flushing dirty m; cancelled := c |}) (with_pool P' s))
  | bg_done c dirty n :
    background s = Some {| at_ := Flushing dirty n; cancelled := c |} -> dirty = [] \/ batchSize (writer s) <= n ->
    bg_step s true (with_background (Some {| at_ := Selecting; cancelled := c |}) s).

Inductive own_step s : system R D -> Prop :=
  | step_start_background w :
    StartBackgroundWriter (writer s) = (Ok tt, w) ->
    own_step s (with_background (Some {| at_ := Selecting; cancelled := false |}) (with_writer w s))
  | step_start_checkpointer w :
    StartCheckPointer (writer s) = (Ok tt, w) -> own_step s (with_checkpointer (Some false) (with_writer w s))
  | step_background b s' : bg_step s b s' -> own_step s s'
  | step_checkpoint c it :
    checkpointer s = Some c -> it ≡ₚ map_to_list (pageTable (pool s)) ->
    own_step s (with_pool (FlushAllPages it (pool s)).2 s)
  | step_cancel_background g :
    background s = Some g -> own_step s (with_background (Some {| at_ := at_ g; cancelled := true |}) s)
  | step_cancel_checkpointer c : checkpointer s = Some c -> own_step s (with_checkpointer (Some true) s)
  | step_stop_background : background s = Some {| at_ := Selecting; cancelled := true |} -> own_step s (with_background None s)
  | step_stop_checkpointer : checkpointer s = Some true -> own_step s (with_checkpointer None s).

(** What happens next: a step of the writer, or a call of a client. *)
Definition step s s' : Prop :=
  own_step s s' \/ exists op, op_pre op (pool s) /\ s' = with_pool (run_op op (pool s)).2 s.

(** The goroutine's next call on the pool panics. *)
Definition panics s : Prop :=
  (exists c it, background s = Some {| at_ := Selecting; cancelled := c |} /\ it ≡ₚ map_to_list (pageTable (pool s)) /\
     (DirtyPages it (pool s)).1 = Panic) \/
  (exists c ref dirty n, background s = Some {| at_ := Flushing (ref :: dirty) n; cancelled := c |} /\
     (flush_one ref n (pool s)).1 = Panic) \/
  (exists c it, checkpointer s = Some c /\ it ≡ₚ map_to_list (pageTable (pool s)) /\ (FlushAllPages it (pool s)).1 = Panic).

Definition starts (w : t) P : system R D := {| writer := w; pool := P; background := None; checkpointer := None |}.
End steps.

(** ** Interleaved with clients *)

(** A call only adds slots: an evicted slot stays with who points to it. *)
Section grows.
Context {R D : Type} `{!Replacer R, !PageFileManager D}.
Implicit Types (P : Pool R D).

Definition grows {A} (m : ST (Pool R D) A) : Prop :=
  forall P ref, is_Some (slots P !! ref) -> is_Some (slots (m P).2 !! ref).

Lemma grows_bind {A B} (m : ST (Pool R D) A) (k : A -> ST (Pool R D) B) :
  grows m -> (forall a, grows (k a)) -> grows (x <- m ;; k x).
Proof.
  intros Hm Hk P ref Hr. unfold sbind. specialize (Hm P ref Hr). destruct (m P) as [[a|e|] P'];
    [|done..]. by apply Hk.
Qed.
Lemma grows_same {A} (m : ST (Pool R D) A) : (forall P, slots (m P).2 = slots P) -> grows m.
Proof. intros Hm P ref. by rewrite Hm. Qed.
Lemma grows_load ref : grows (load ref).
Proof. by apply grows_same. Qed.
Lemma grows_store ref f : grows (store ref f).
Proof.
  apply grows_bind; [apply grows_load|]. intros s P ref' H. cbn. destruct (decide (ref = ref')) as [->|Hne].
  - by rewrite lookup_insert_eq.
  - by rewrite lookup_insert_ne.
Qed.
Lemma grows_alloc s : grows (alloc_slot s).
Proof.
  intros P ref H. cbn. destruct (decide (next P = ref)) as [->|Hne]; [by rewrite lookup_insert_eq|by rewrite lookup_insert_ne].
Qed.
Lemma grows_disk {A} (m : ST D A) : grows (on_disk m).
Proof. apply grows_same. intros P. unfold on_disk. by destruct (m (disk P)). Qed.
Lemma grows_load_page p : grows (load_page p).
Proof. apply grows_same. intros P. unfold load_page, sbind, sget, slift. by destruct (mem P !! pg_buf p). Qed.
End grows.

Ltac growing :=
  repeat match goal with
    | |- grows (sbind _ _) => apply grows_bind; [|intros ?]
    | |- grows (if ?b then _ else _) => destruct b
    | |- grows (match ?x with _ => _ end) => destruct x
    | |- grows (let (_, _) := ?x in _) => destruct x
    | |- grows (store _ _) => apply grows_store
    | |- grows (load_page _) => apply grows_load_page
    | |- grows (alloc_slot _) => apply grows_alloc
    | |- grows (on_disk _) => apply grows_disk
    | |- _ => first [eassumption|solve [by apply grows_same]]
    end.

Section operations_grow.
Context {R D : Type} `{!Replacer R, !PageFileManager D}.

Lemma grows_touch ref : grows (R:=R) (D:=D) (touch ref).
Proof. unfold touch. growing. Qed.
Lemma grows_flushSlotLocked k ref : grows (R:=R) (D:=D) (flushSlotLocked k ref).
Proof. unfold flushSlotLocked. growing. Qed.
Lemma grows_FlushPage k : grows (R:=R) (D:=D) (FlushPage k).
Proof. unfold FlushPage. growing. apply grows_flushSlotLocked. Qed.
Lemma grows_ensureSpaceLocked : grows (R:=R) (D:=D) ensureSpaceLocked.
Proof. unfold ensureSpaceLocked. growing. apply grows_flushSlotLocked. Qed.
Lemma grows_getPageLocked k : grows (R:=R) (D:=D) (getPageLocked k).
Proof.
  unfold getPageLocked. pose proof grows_touch. pose proof grows_ensureSpaceLocked. growing; auto.
Qed.
Lemma grows_slot_of k : grows (R:=R) (D:=D) (slot_of k).
Proof. unfold slot_of. growing. apply grows_getPageLocked. Qed.
Lemma grows_FlushAllPages it : grows (R:=R) (D:=D) (FlushAllPages it).
Proof.
  induction it as [|[k ref] it IH]; cbn [FlushAllPages]; growing; first [done|apply grows_flushSlotLocked].
Qed.
Lemma grows_DirtyPages it : grows (R:=R) (D:=D) (DirtyPages it).
Proof. induction it as [|[k ref] it IH]; cbn [DirtyPages]; growing. Qed.
Lemma grows_skip {A} (m : ST (Pool R D) A) : grows m -> grows (skip_error m).
Proof. intros Hm P ref Hr. unfold skip_error. specialize (Hm P ref Hr). by destruct (m P) as [[a|e|] P']. Qed.
Lemma grows_flush_loop b n dirty : grows (R:=R) (D:=D) (flush_loop b n dirty).
Proof.
  revert n. induction dirty as [|ref dirty IH]; intros n; cbn [flush_loop]; growing; first [apply IH|apply grows_skip, grows_FlushPage].
Qed.

Lemma grows_op op : grows (R:=R) (D:=D) (run_op op).
Proof.
  pose proof grows_touch. pose proof grows_ensureSpaceLocked. pose proof grows_slot_of. pose proof grows_FlushAllPages.
  pose proof grows_flush_loop. pose proof grows_DirtyPages. pose proof grows_getPageLocked. pose proof grows_FlushPage.
  destruct op; cbn [run_op]; unfold GetPage, NewPage, UpdatePage, PinPage, UnpinPage, flushBatch; growing; auto.
Qed.
End operations_grow.

(** ** Every reachable state *)
Section spec.
Context {R D : Type} `{RR : Replacer R, RL : !ReplacerLaws R, DM : PageFileManager D, DL : !PageFileLaws D}.
Context (root0 : string) (root_nonempty : root0 <> ""%string).
Implicit Types (s : system R D) (P : Pool R D) (k : PageKey) (A : PageKey -> option (list byte)).

Notation ok := (pool_ok root0 Filepath.simple_name).
Notation represents := (BufferPoolSpec.represents root0).
Notation good := (good_key Filepath.simple_name).

Let join_inj f g : Filepath.simple_name f -> Filepath.simple_name g ->
  Filepath.Join root0 f = Filepath.Join root0 g -> f = g.
Proof. by apply Filepath.Join_inj. Qed.
Let join_nonempty f : Filepath.simple_name f -> Filepath.Join root0 f <> ""%string.
Proof. by apply Filepath.Join_nonempty. Qed.

Record sys_ok s : Prop := {
  so_pool : ok (pool s);
  so_size : 0 < poolSize (pool s);
  so_batch : 0 < batchSize (writer s);
  so_flushing c dirty n : background s = Some {| at_ := Flushing dirty n; cancelled := c |} ->
    0 <= n <= batchSize (writer s) /\ Forall (fun ref => is_Some (slots (pool s) !! ref)) dirty;
  so_background : background s <> None -> backgroundFlag (writer s) = true;
  so_checkpointer : checkpointer s <> None -> checkPointerFlag (writer s) = true
}.

(** What one flush of a batch does. *)
Lemma flush_one_run P ref n :
  ok P -> is_Some (slots P !! ref) ->
  exists m P' sl, flush_one ref n P = (Ok m, P') /\ slots P !! ref = Some sl /\ (m = n + 1 \/ m = n) /\
    evolves root0 Filepath.simple_name no_key P P' /\ pageTable P' = pageTable P /\
    exists r, FlushPage (bs_key sl) P = (r, P') /\ (r = Ok tt <-> m = n + 1) /\ flushed_at (bs_key sl) P P' r.
Proof.
  intros OK [sl Hsl]. unfold flush_one. erewrite sbind_ok by by apply load_run.
  pose proof (FlushPage_spec root0 Filepath.simple_name join_inj join_nonempty P (bs_key sl) OK) as [Hnp (Hev & Ht & Hf)].
  unfold sbind, skip_error. destruct (FlushPage (bs_key sl) P) as [[[]|e|] P'] eqn:E; cbn [fst snd] in *; [| |done].
  - exists (n + 1), P', sl. split_and!; auto. exists (Ok tt). split_and!; auto. done.
  - exists n, P', sl. split_and!; auto. exists (Err e). split_and!; auto. split; [done|lia].
Qed.

Lemma DirtyPages_ok P it : ok P -> it ≡ₚ map_to_list (pageTable P) ->
  exists dirty, DirtyPages it P = (Ok dirty, P) /\ Forall (fun ref => is_Some (slots P !! ref)) dirty.
Proof.
  intros OK Hit. eexists. split.
  { apply (DirtyPages_run root0 Filepath.simple_name); [done|]. intros k ref. by apply it_table. }
  apply Forall_forall. intros ref ([k ref'] & Hk & Href)%list_elem_of_omap. cbn in Href.
  destruct (slots P !! ref') as [sl|] eqn:E; [|done]. cbn in Href. destruct (bs_dirty sl); [|done]. injection Href as <-. eauto.
Qed.

(** A step of the writer is invisible to the clients. *)
Lemma own_step_evolves s s' :
  sys_ok s -> own_step s s' -> evolves root0 Filepath.simple_name no_key (pool s) (pool s').
Proof.
  intros [OK Hsz _ Hfl _ _] Hstep. pose proof (evolves_refl root0 Filepath.simple_name no_key (pool s) OK) as Hrefl.
  destruct Hstep as [w Hw|w Hw|b s' Hb|c it Hc Hit|g Hg|c Hc|Hc|Hc]; try done.
  - destruct Hb as [c it dirty P' Hbg Hit HD|c ref dirty n m P' Hbg Hn HD|c dirty n Hbg Hd]; cbn; [| |done].
    + destruct (DirtyPages_ok (pool s) it OK Hit) as (d & E & _). rewrite HD in E. by injection E as -> ->.
    + destruct (Hfl _ _ _ Hbg) as [_ [Href _]%Forall_cons].
      destruct (flush_one_run (pool s) ref n OK Href) as (m' & P1 & sl & E & _ & _ & Hev & _). rewrite HD in E. by injection E as -> ->.
  - cbn. apply (FlushAllPages_spec root0 Filepath.simple_name join_inj join_nonempty it (pool s) OK).
    intros k ref. by apply it_table.
Qed.

Lemma own_step_grows s s' ref : own_step s s' -> is_Some (slots (pool s) !! ref) -> is_Some (slots (pool s') !! ref).
Proof.
  intros Hstep Href. destruct Hstep as [| |b s' Hb|c it Hc Hit| | | |]; try done.
  - destruct Hb as [c it dirty P' _ _ HD|c ref' dirty n m P' _ _ HD|]; cbn; [| |done].
    + pose proof (grows_DirtyPages (R:=R) (D:=D) it (pool s) ref Href) as H. by rewrite HD in H.
    + assert (Hg : grows (R:=R) (D:=D) (flush_one ref' n)).
      { unfold flush_one. growing; apply grows_skip, grows_FlushPage. }
      specialize (Hg (pool s) ref Href). by rewrite HD in Hg.
  - by apply grows_FlushAllPages.
Qed.

(** The batch a state is in, after the slots have grown. *)
Lemma flushing_grown s P' dirty :
  (forall ref, is_Some (slots (pool s) !! ref) -> is_Some (slots P' !! ref)) ->
  Forall (fun ref => is_Some (slots (pool s) !! ref)) dirty -> Forall (fun ref => is_Some (slots P' !! ref)) dirty.
Proof. intros Hg HF. by eapply Forall_impl. Qed.

Lemma own_step_ok s s' : sys_ok s -> own_step s s' -> sys_ok s'.
Proof.
  intros Hok Hstep. pose proof (own_step_evolves s s' Hok Hstep) as Hev.
  pose proof (fun ref => own_step_grows s s' ref Hstep) as Hgr. destruct Hok as [OK Hsz Hb Hfl Hbg Hck].
  assert (Hp : ok (pool s')) by apply Hev. assert (Hz : 0 < poolSize (pool s')) by by rewrite (ev_size _ _ _ _ _ Hev).
  destruct Hstep as [w Hw|w Hw|b s' Hs|c it Hc Hit|g Hg|c Hc|Hc|Hc].
  - unfold StartBackgroundWriter in Hw. destruct (backgroundFlag (writer s)); [done|]. injection Hw as <-. by split.
  - unfold StartCheckPointer in Hw. destruct (checkPointerFlag (writer s)); [done|]. injection Hw as <-. by split.
  - destruct Hs as [c it dirty P' Hs Hit HD|c ref dirty n m P' Hs Hn HD|c dirty n Hs Hd]; split; cbn; try done; try (intros _; apply Hbg; congruence).
    + intros c' dirty' n' [= <- <- <-]. split; [lia|].
      destruct (DirtyPages_ok (pool s) it OK Hit) as (d & E & HF). rewrite HD in E. by injection E as -> ->.
    + intros c' dirty' n' [= <- <- <-]. destruct (Hfl _ _ _ Hs) as [Hnb [Href Hrest]%Forall_cons].
      destruct (flush_one_run (pool s) ref n OK Href) as (m' & P1 & sl & E & _ & Hm & _). rewrite HD in E. injection E as <- <-.
      split; [lia|]. by eapply flushing_grown.
  - split; try done. intros c' dirty n Hf. destruct (Hfl _ _ _ Hf). split; [done|]. by eapply flushing_grown.
  - split; cbn; try done; try (intros _; apply Hbg; congruence). intros c' dirty n [= Hf <-]. destruct g as [p c0]; cbn in Hf; subst p. by eapply Hfl.
  - split; try done. intros _. apply Hck. congruence.
  - by split.
  - by split.
Qed.

Lemma step_ok s s' : sys_ok s -> step s s' -> sys_ok s'.
Proof.
  intros Hok [Hs|(op & Hop & ->)]; [by eapply own_step_ok|]. destruct Hok as [OK Hsz Hb Hfl Hbg Hck].
  destruct (op_keeps_ok root0 root_nonempty op (pool s) OK Hsz Hop) as [_ [OK' Hsz']]. split; cbn; try done; [by rewrite Hsz'|].
  intros c dirty n Hf. destruct (Hfl _ _ _ Hf). split; [done|]. eapply flushing_grown; [|done]. intros ref. by apply grows_op.
Qed.

Lemma sys_ok_safe s : sys_ok s -> ~ panics s.
Proof.
  intros [OK Hsz _ Hfl _ _] [(c & it & Hb & Hit & E)|[(c & ref & dirty & n & Hb & E)|(c & it & Hc & Hit & E)]].
  - destruct (DirtyPages_ok (pool s) it OK Hit) as (d & Ed & _). by rewrite Ed in E.
  - destruct (Hfl _ _ _ Hb) as [_ [Href _]%Forall_cons].
    destruct (flush_one_run (pool s) ref n OK Href) as (m & P' & sl & Ef & _). by rewrite Ef in E.
  - revert E. apply (FlushAllPages_spec root0 Filepath.simple_name join_inj join_nonempty it (pool s) OK). intros k ref. by apply it_table.
Qed.

(** A state the writer and the clients can reach. *)
Definition reachable w P s : Prop := rtc step (starts w P) s.

Lemma reachable_ok w P s :
  ok P -> 0 < poolSize P -> 0 < batchSize w -> reachable w P s -> sys_ok s.
Proof.
  intros OK Hsz Hb Hr. assert (H0 : sys_ok (starts w P)) by by split. revert H0. unfold reachable in Hr.
  induction Hr as [|s1 s2 s3 Hs _ IH]; [done|]. intros Hok. by eapply IH, step_ok.
Qed.

(** ** The writer alone *)
Definition dirty_at P k : bool :=
  match resident P k with Some (sl, _) => bs_dirty sl | None => false end.

Definition dirty_keys P : list PageKey := filter (fun k => dirty_at P k) (map_to_list (pageTable P)).*1.

Lemma dirty_keys_elem P k : k ∈ dirty_keys P <-> dirty_at P k.
Proof.
  unfold dirty_keys. rewrite list_elem_of_filter. split; [by intros [? _]|]. intros Hd. split; [done|].
  unfold dirty_at in Hd. destruct (resident P k) as [[sl b]|] eqn:E; [|done]. apply resident_inv in E as (ref & Hk & _).
  apply list_elem_of_fmap. exists (k, ref). split; [done|]. by apply elem_of_map_to_list.
Qed.

Lemma dirty_keys_NoDup P : NoDup (dirty_keys P).
Proof. apply NoDup_filter, NoDup_fst_map_to_list. Qed.

Lemma no_dirty_clean P : dirty_keys P = [] -> forall k, clean P k.
Proof.
  intros Hn k sl b E. destruct (bs_dirty sl) eqn:Ed; [|done].
  assert (Hk : k ∈ dirty_keys P) by (apply dirty_keys_elem; unfold dirty_at; by rewrite E, Ed). rewrite Hn in Hk. by apply not_elem_of_nil in Hk.
Qed.

(** A successful flush removes its key, and a page that is not dirty none. *)
Lemma flushed_dirty P P' k : pageTable P' = pageTable P -> flushed_at k P P' (Ok tt) ->
  dirty_keys P' = filter (fun k' => k' <> k) (dirty_keys P).
Proof.
  intros Ht (Ho & _ & Hk). unfold dirty_keys. rewrite Ht, list_filter_filter. apply list_filter_iff. intros k'. unfold dirty_at.
  destruct (decide (k' = k)) as [->|Hne].
  - rewrite (Hk eq_refl). destruct (resident P k) as [[sl b]|]; cbn; naive_solver.
  - rewrite Ho by done. naive_solver.
Qed.

Section alone.
Context (works : D -> Prop).
Context (works_write : forall d p path, works d -> valid_buf (buf p) -> 0 <= pageID p < 2 ^ 31 -> path <> ""%string ->
  exists d', pfm_write p path d = (Ok tt, d') /\ works d').

(** On a working disk a flush succeeds. *)
Lemma FlushPage_works P k : ok P -> works (disk P) ->
  exists P', FlushPage k P = (Ok tt, P') /\ works (disk P').
Proof.
  intros OK Hw. unfold FlushPage. erewrite sbind_ok by done. destruct (pageTable P !! k) as [ref|] eqn:Hk; [|by exists P].
  destruct (resident_ok root0 Filepath.simple_name P k ref OK Hk) as (sl & b & Hsl & _ & (Hb & Hid & Hv) & _).
  destruct (ok_slot _ _ _ OK _ _ Hk) as [[Hname Hpid] _].
  unfold flushSlotLocked. erewrite sbind_ok by by apply load_run. destruct (bs_dirty sl); [|by exists P].
  erewrite sbind_ok by by apply load_page_run. erewrite sbind_ok by done.
  destruct (works_write (disk P) {| pageID := pg_id (bs_page sl); buf := b |} (Filepath.Join (root P) (FileID k)) Hw) as (d' & E & Hw');
    [done|cbn; by rewrite Hid|rewrite (ok_root _ _ _ OK); by apply join_nonempty|].
  erewrite sbind_ok by (unfold on_disk; by rewrite E). unfold store. erewrite sbind_ok by by apply load_run. cbn. eauto.
Qed.

(** [bg_run n m s s']: the background goroutine alone makes [m] steps, and
    with them [n] batches. *)
Inductive bg_run s : nat -> nat -> system R D -> Prop :=
  | run_none : bg_run s 0 0 s
  | run_step n m b s1 s2 : bg_run s n m s1 -> bg_step s1 b s2 -> bg_run s (n + if b : bool then 1 else 0) (S m) s2.

(** Where a run is that began with [d0] dirty pages. *)
Definition position_ok (d0 : nat) (n m : nat) s : Prop :=
  exists c, match background s with
  | Some {| at_ := Selecting; cancelled := c' |} => c' = c /\
      Z.of_nat (length (dirty_keys (pool s))) <= Z.max 0 (Z.of_nat d0 - Z.of_nat n * batchSize (writer s)) /\ (m <= n * (d0 + 2))%nat
  | Some {| at_ := Flushing dirty fl; cancelled := c' |} => c' = c /\ exists ks,
      Forall2 (fun ref k => pageTable (pool s) !! k = Some ref) dirty ks /\ ks ≡ₚ dirty_keys (pool s) /\ 0 <= fl /\
      Z.of_nat (length ks) + fl <= Z.max 0 (Z.of_nat d0 - Z.of_nat n * batchSize (writer s)) /\
      (m + length ks <= n * (d0 + 2) + 1 + d0)%nat
  | None => False
  end.

Record run_ok (d0 n m : nat) (B : Z) A s : Prop := {
  ro_sys : sys_ok s;
  ro_batch : batchSize (writer s) = B;
  ro_works : works (disk (pool s));
  ro_store : represents no_key A (pool s);
  ro_position : position_ok d0 n m s
}.

(** The slots that [DirtyPages] returns are those of the dirty keys. *)
Lemma DirtyPages_keys P it : ok P -> it ≡ₚ map_to_list (pageTable P) ->
  exists dirty ks, DirtyPages it P = (Ok dirty, P) /\ ks ≡ₚ dirty_keys P /\
    Forall2 (fun ref k => pageTable P !! k = Some ref) dirty ks.
Proof.
  intros OK Hit. assert (Hin : forall k ref, (k, ref) ∈ it -> pageTable P !! k = Some ref) by (intros k ref; by apply it_table).
  exists (omap (fun kr => s ← slots P !! kr.2; if bs_dirty s : bool then Some kr.2 else None) it), (filter (fun k => dirty_at P k) it.*1).
  split_and!; [by apply (DirtyPages_run root0 Filepath.simple_name)|unfold dirty_keys; by rewrite Hit|]. clear Hit.
  induction it as [|[k ref] it IH]; [constructor|].
  assert (Hk : pageTable P !! k = Some ref) by (apply Hin, elem_of_cons; by left).
  destruct (resident_ok root0 Filepath.simple_name P k ref OK Hk) as (sl & b & Hsl & _ & _ & Hres).
  assert (Hd : dirty_at P k = bs_dirty sl) by (unfold dirty_at; by rewrite Hres).
  assert (IH' := IH ltac:(intros; apply Hin, elem_of_cons; by right)).
  cbn [fmap list_fmap omap list_omap fst snd]. rewrite filter_cons, Hd, Hsl. cbn [mbind option_bind]. destruct (bs_dirty sl); cbn; [|done]. by constructor.
Qed.

Lemma bg_step_run d0 n m B A s b s' :
  run_ok d0 n m B A s -> bg_step s b s' -> run_ok d0 (n + if b : bool then 1 else 0) (S m) B A s'.
Proof.
  intros [Hok HB Hw Hst [c Hpos]] Hb. pose proof Hok as [OK Hsz HBpos Hfl _ _].
  assert (Hok' : sys_ok s') by by eapply own_step_ok, step_background.
  assert (Hst' : represents no_key A (pool s')) by (eapply evolves_no_represents; [|done]; by eapply own_step_evolves, step_background).
  destruct Hb as [c1 it dirty P' Hbg Hit HD|c1 ref dirty fl fl' P' Hbg Hlt HD|c1 dirty fl Hbg Hend]; rewrite Hbg in Hpos.
  - destruct Hpos as (<- & Hd & Hm). destruct (DirtyPages_keys (pool s) it OK Hit) as (dirty' & ks & E & Hks & HF).
    rewrite HD in E. injection E as -> ->. split; try done. exists c1. cbn. split; [done|]. exists ks. rewrite Nat.add_0_r. split_and!; try done.
    + rewrite Hks. lia.
    + rewrite Hks. lia.
  - destruct Hpos as (<- & ks & HF & Hks & Hfl0 & Hd & Hm). inversion HF as [|? k ? ks' Hk HF']; subst.
    destruct (resident_ok root0 Filepath.simple_name (pool s) k ref OK Hk) as (sl & b & Hsl & Hkey & _ & Hres).
    destruct (flush_one_run (pool s) ref fl OK ltac:(eauto)) as (fl1 & P1 & sl1 & E & Hsl1 & _ & _ & Ht & r & Hr & Hiff & Hf).
    assert (sl1 = sl) as -> by congruence. destruct (FlushPage_works (pool s) k OK Hw) as (P2 & E2 & Hw2).
    rewrite Hkey, E2 in Hr. injection Hr as <- <-. rewrite HD in E. injection E as -> ->. rewrite (proj1 Hiff eq_refl) in *. rewrite Hkey in Hf.
    pose proof (flushed_dirty (pool s) P2 k Ht Hf) as Hdk. split; try done. exists c1. cbn. split; [done|]. exists ks'.
    assert (Hn : NoDup (k :: ks')) by (rewrite Hks; apply dirty_keys_NoDup). rewrite Ht, Nat.add_0_r. split_and!; try done.
    + rewrite Hdk, <- Hks. inversion Hn as [|? ? Hkk Hn']; subst. rewrite filter_cons_False by naive_solver. rewrite filter_all; [done|]. by intros y Hy ->.
    + lia.
    + cbn [length] in Hd. lia.
    + cbn [length] in Hm. lia.
  - destruct Hpos as (<- & ks & HF & Hks & Hfl0 & Hd & Hm). split; try done. exists c1. cbn. split; [done|]. rewrite <- Hks.
    apply Forall2_length in HF. split; [|lia]. destruct Hend as [->|Hend]; [destruct ks; [cbn; lia|done]|lia].
Qed.

Lemma run_started A s c : sys_ok s -> works (disk (pool s)) -> represents no_key A (pool s) ->
  background s = Some {| at_ := Selecting; cancelled := c |} ->
  run_ok (length (dirty_keys (pool s))) 0 0 (batchSize (writer s)) A s.
Proof. intros Hok Hw Hst Hb. split; try done. exists c. rewrite Hb. split; [done|]. lia. Qed.

Lemma bg_run_ok A s c n m s' : sys_ok s -> works (disk (pool s)) -> represents no_key A (pool s) ->
  background s = Some {| at_ := Selecting; cancelled := c |} -> bg_run s n m s' ->
  run_ok (length (dirty_keys (pool s))) n m (batchSize (writer s)) A s'.
Proof.
  intros Hok Hw Hst Hb Hr. induction Hr as [|n m b s1 s2 _ IH Hs]; [by eapply run_started|]. by eapply bg_step_run.
Qed.

(** A running background goroutine always has a next step. *)
Lemma bg_progress d0 n m B A s : run_ok d0 n m B A s -> exists b s', bg_step s b s'.
Proof.
  intros [[OK _ _ Hfl _ _] _ _ _ [c Hpos]]. destruct (background s) as [[[|[|ref dirty] fl] c1]|] eqn:Hb; [| | |done].
  - destruct (DirtyPages_ok (pool s) (map_to_list (pageTable (pool s))) OK ltac:(done)) as (d & E & _). eexists _, _. by eapply bg_tick.
  - eexists _, _. eapply bg_done; [exact Hb|by left].
  - destruct (Z.le_gt_cases (batchSize (writer s)) fl); [eexists _, _; eapply bg_done; [exact Hb|by right]|].
    destruct (Hfl _ _ _ eq_refl) as [_ [Href _]%Forall_cons].
    destruct (flush_one_run (pool s) ref fl OK Href) as (fl1 & P1 & sl1 & E & _). eexists _, _. eapply bg_flush; [exact Hb|lia|exact E].
Qed.

(** C27: the background writer brings every page to disk.  On a disk that works
    and while the clients are idle, the goroutine always has a next step, it
    never changes what the clients see, and after at most [(N + 1) * (d + 2)]
    steps, where [d] pages are dirty and [N] batches have room for them, the
    disk holds every page of the store, and from then on it stays so. *)
Theorem writer_drains A s c N n m s' :
  sys_ok s -> works (disk (pool s)) -> represents no_key A (pool s) ->
  background s = Some {| at_ := Selecting; cancelled := c |} ->
  let d := length (dirty_keys (pool s)) in
  Z.of_nat d <= Z.of_nat N * batchSize (writer s) ->
  bg_run s n m s' ->
  represents no_key A (pool s') /\ (exists b s'', bg_step s' b s'') /\
  (((N + 1) * (d + 2) <= m)%nat -> forall k, good k -> on_file root0 (pool s') k = A k).
Proof.
  intros Hok Hw Hst Hb d Hd Hr. pose proof (bg_run_ok A s c n m s' Hok Hw Hst Hb Hr) as Hrun. split; [apply Hrun|].
  split; [by eapply bg_progress|]. intros Hm k Hg. destruct Hrun as [Hok' HB _ Hst' [c' Hpos]]. fold d in Hpos.
  assert (Hempty : dirty_keys (pool s') = []).
  { apply length_zero_iff_nil. pose proof (so_batch _ Hok). destruct (background s') as [[[|dirty fl] c1]|]; [| |done].
    - destruct Hpos as (_ & Hlen & Hmn). assert (N + 1 <= n)%nat by nia. rewrite HB in Hlen. nia.
    - destruct Hpos as (_ & ks & _ & <- & Hfl & Hlen & Hmn). assert (N <= n)%nat by nia. rewrite HB in Hlen. nia. }
  apply represents_on_file; [done..|]. by apply no_dirty_clean.
Qed.
End alone.

(** C28: the writer's goroutines are safe next to any clients.  In every state
    that can be reached from a new writer over a well-formed pool, by ticks,
    starts, cancellations and any calls of clients between any two calls of a
    batch, the pool is well formed, the next call of a goroutine does not
    panic, a batch has flushed at most [batchSize] pages, no second goroutine
    of a kind can be started, and a step of the writer does not change the
    store of pages that the clients see. *)
Theorem writer_invariant i c b w P s :
  NewDefaultDirtyPageWriter true i c b = Ok w -> ok P -> 0 < poolSize P -> reachable w P s ->
  ok (pool s) /\ ~ panics s /\
  (forall c dirty n, background s = Some {| at_ := Flushing dirty n; cancelled := c |} -> 0 <= n <= batchSize (writer s)) /\
  (background s <> None -> exists e, (StartBackgroundWriter (writer s)).1 = Err e) /\
  (checkpointer s <> None -> exists e, (StartCheckPointer (writer s)).1 = Err e) /\
  forall A s', own_step s s' -> represents no_key A (pool s) -> represents no_key A (pool s').
Proof.
  intros Hw OK Hsz Hr. unfold NewDefaultDirtyPageWriter in Hw.
  destruct (_ || _); [done|]. destruct (Z.leb_spec b 0); [done|]. cbn in Hw. injection Hw as <-.
  assert (Hok : sys_ok s) by (eapply reachable_ok; [done|done| |exact Hr]; cbn; lia). split; [apply Hok|]. split; [by apply sys_ok_safe|].
  split; [intros c' dirty n Hb; by apply (so_flushing _ Hok) in Hb as [? _]|]. split; [|split].
  - intros Hb%Hok. unfold StartBackgroundWriter. rewrite Hb. by eexists.
  - intros Hb%Hok. unfold StartCheckPointer. rewrite Hb. by eexists.
  - intros A s' Hs. eapply evolves_no_represents. by apply own_step_evolves.
Qed.
End spec.

(** ** A writer on a healthy disk *)
Definition a_writer : t := {|
  intervalMs := 200; checkPointIntervalMs := 5000; batchSize := 64; backgroundFlag := true; checkPointerFlag := false |}.

Definition a_system (P : Pool Replacer.LRUReplacer.t FS) : system Replacer.LRUReplacer.t FS := {|
  writer := a_writer; pool := P; background := Some {| at_ := Selecting; cancelled := false |}; checkpointer := None |}.

Lemma a_dirty_keys : dirty_keys a_dirty_pool = [a_key].
Proof. unfold dirty_keys. rewrite a_dirty_table, map_to_list_singleton. vm_compute. reflexivity. Qed.

Lemma a_system_ok : sys_ok "data" (a_system a_dirty_pool).
Proof.
  destruct a_dirty_pool_ok as [OK Hsz]. split.
  - exact OK.
  - cbn. rewrite Hsz. reflexivity.
  - reflexivity.
  - intros c dirty n H. discriminate H.
  - reflexivity.
  - intros H. destruct (H eq_refl).
Qed.

Lemma writer_drains_witness :
  let s := a_system a_dirty_pool in
  represents "data" no_key (contents "data" a_dirty_pool) (pool s) /\ exists b s', bg_step s b s'.
Proof.
  split; [exact a_dirty_represents|].
  destruct (writer_drains (R:=Replacer.LRUReplacer.t) (D:=FS) "data" ltac:(discriminate) (fun d => faults d = [])
    ltac:(intros d p path Hf Hv Hid Hp; exact (PageFile.Write_quiet p path d Hv Hp Hid Hf))
    (contents "data" a_dirty_pool) (a_system a_dirty_pool) false 1 0 0 (a_system a_dirty_pool)
    a_system_ok ltac:(vm_compute; reflexivity) a_dirty_represents eq_refl) as (_ & H & _).
  - change (pool (a_system a_dirty_pool)) with a_dirty_pool. rewrite a_dirty_keys. vm_compute. discriminate.
  - constructor.
  - exact H.
Defined.

Definition new_writer : t := {|
  intervalMs := 200; checkPointIntervalMs := 5000; batchSize := 64; backgroundFlag := false; checkPointerFlag := false |}.

(** The background writer is started, a client adds a page and changes it, and
    the writer selects it. *)
Definition selected : system Replacer.LRUReplacer.t FS :=
  with_background (Some {| at_ := Flushing [1%nat] 0; cancelled := false |}) (a_system a_dirty_pool).

Lemma selected_reachable : reachable new_writer a_pool selected.
Proof.
  apply rtc_l with (a_system a_pool).
  { left. apply (step_start_background (starts new_writer a_pool) a_writer). reflexivity. }
  apply rtc_l with (a_system (run_op (OpNew a_key a_page) a_pool).2).
  { right. exists (OpNew a_key a_page). split; [|reflexivity]. split; [exact a_key_good|]. eexists. exact a_page_for. }
  apply rtc_l with (a_system a_dirty_pool).
  { right. exists (OpUpdate a_key a_page). split; [|reflexivity]. split; [exact a_key_good|]. exists (buf (blank_page 0)).
    split; [reflexivity|]. split; [reflexivity|exact blank_page_valid]. }
  apply rtc_once. left. apply (step_background _ false). apply (bg_tick _ false [(a_key, 1%nat)] [1%nat] a_dirty_pool); [reflexivity| |].
  - change (pool (a_system a_dirty_pool)) with a_dirty_pool. rewrite a_dirty_table, map_to_list_singleton. reflexivity.
  - vm_compute. reflexivity.
Qed.

Lemma pair_of_fst {A B} (p : A * B) a : p.1 = a -> p = (a, p.2).
Proof. by destruct p as [? ?]; cbn; intros ->. Qed.

Lemma flushes_one : (flush_one 1 0 a_dirty_pool).1 = Ok 1.
Proof. vm_compute. reflexivity. Qed.

Lemma writer_invariant_witness :
  background selected = Some {| at_ := Flushing [1%nat] 0; cancelled := false |} /\ ~ panics selected /\
  (exists e, (StartBackgroundWriter (writer selected)).1 = Err e) /\
  BufferPoolSpec.represents "data" no_key (contents "data" a_dirty_pool)
    (pool (with_background (Some {| at_ := Flushing [] 1; cancelled := false |}) (with_pool (flush_one 1 0 a_dirty_pool).2 selected))).
Proof.
  split; [reflexivity|].
  destruct (writer_invariant (R:=Replacer.LRUReplacer.t) (D:=FS) "data" ltac:(discriminate) 200 5000 64 new_writer a_pool selected)
    as (_ & Hsafe & _ & Hstart & _ & Hkeep).
  - reflexivity.
  - exact (proj1 (a_pool_represents no_key)).
  - reflexivity.
  - exact selected_reachable.
  - split; [exact Hsafe|]. split; [apply Hstart; discriminate|].
    apply Hkeep; [|exact a_dirty_represents]. apply (step_background _ false).
    apply (bg_flush selected false 1 [] 0 1 (flush_one 1 0 a_dirty_pool).2); [reflexivity|reflexivity|].
    exact (pair_of_fst _ _ flushes_one).
Defined.
End DefaultDirtyPageWriter.
