(* ===== verification/PageStore.v ===== *)
(** * PageStore: pages as the buffer pool's clients use them

    The catalog manager, the table heap and the indexes all work on pages in
    the same way: they ask the pool for a slot, read or change the bytes of its
    page through the pointer, hand the page back with [UpdatePage], and make
    new pages with [NewPage].  This file defines the pointer operations
    ([Page], [Read], [Write], [NewHeapPageFromBuffer] on a shared array), the
    two system calls the clients make themselves ([os.Stat], [os.MkdirAll]),
    and the lemmas about them: with [store_of A P] (the pool stands for the
    store [A], and no two resident pages share an array), a change in place
    followed by [UpdatePage] is an update of [A] at one key. *)

From S2P Require Import Prelude GoRuntime HeapPage Replacer PageFile BufferPool PoolCalm.

(** ** [os.Stat] and [os.MkdirAll] *)

(** [os_stat path] is the size of the file, [None] when it does not exist. *)
Class FileStat (D : Type) : Type := {
  os_stat : string -> ST D (option Z);
  os_mkdir_all : string -> ST D unit
}.

Class FileStatLaws (D : Type) `{PageFileLaws D, !FileStat D} : Type := {
  file_size : D -> string -> option Z;
  os_stat_law d path :
    exists r d', os_stat path d = (r, d') /\
      (forall p, file_size d' p = file_size d p) /\ (forall p id, stored d' p id = stored d p id) /\
      (r = Ok (file_size d path) \/ exists e, r = Err e);
  os_stat_reliable d path :
    reliable -> healthy d -> (os_stat path d).1 = Ok (file_size d path) /\ healthy (os_stat path d).2;
  os_mkdir_reliable d path :
    reliable -> healthy d -> (os_mkdir_all path d).1 = Ok tt /\ healthy (os_mkdir_all path d).2;
  os_mkdir_law d path :
    exists r d', os_mkdir_all path d = (r, d') /\
      (forall p, file_size d' p = file_size d p) /\ (forall p id, stored d' p id = stored d p id) /\
      (r = Ok tt \/ exists e, r = Err e);
  size_after_read d id path p : 0 <= id < 2 ^ 31 -> file_size (pfm_read id path d).2 p = file_size d p;
  size_other d pg path p : valid_buf (buf pg) -> 0 <= pageID pg < 2 ^ 31 -> p <> path ->
    file_size (pfm_write pg path d).2 p = file_size d p;
  size_inside d pg path n :
    valid_buf (buf pg) -> 0 <= pageID pg < 2 ^ 31 -> default 0 (file_size d path) = n ->
    pageID pg * PageSize + PageSize <= n -> default 0 (file_size (pfm_write pg path d).2 path) = n;
  size_end d pg path d' :
    valid_buf (buf pg) -> 0 <= pageID pg < 2 ^ 31 ->
    default 0 (file_size d path) = pageID pg * PageSize -> pfm_write pg path d = (Ok tt, d') ->
    default 0 (file_size d' path) = pageID pg * PageSize + PageSize
}.

Lemma stat_healthy {D} `{FileStatLaws D} d path r d' :
  os_stat path d = (r, d') -> reliable -> healthy d -> healthy d'.
Proof. intros E Hrel Hd. destruct (os_stat_reliable d path Hrel Hd) as [_ Hd']. by rewrite E in Hd'. Qed.

Lemma mkdir_healthy {D} `{FileStatLaws D} d path r d' :
  os_mkdir_all path d = (r, d') -> reliable -> healthy d -> healthy d'.
Proof. intros E Hrel Hd. destruct (os_mkdir_reliable d path Hrel Hd) as [_ Hd']. by rewrite E in Hd'. Qed.

#[export] Instance FS_stat : FileStat FS := {|
  os_stat path := os_call "stat" ;;;
    d <- sget ;; sret ((fun l => Z.of_nat (length l)) <$> files d !! path);
  os_mkdir_all _ := os_call "mkdir"
|}.

Module FSSize.
Import HeapPageFileManager.

Definition file_size (d : FS) (path : string) : option Z := (fun l => Z.of_nat (length l)) <$> files d !! path.

Lemma default_size d path : default 0 (file_size d path) = Z.of_nat (length (file_bytes d path)).
Proof. unfold file_size, file_bytes. by destruct (files d !! path). Qed.

Lemma write_at_length l off bs :
  bs <> [] \/ (off <= length l)%nat ->
  Z.of_nat (length (write_at l off bs)) = Z.max (Z.of_nat (length l)) (Z.of_nat off + Z.of_nat (length bs)).
Proof. destruct bs as [|b bs]; [intros [|]; [done|cbn; lia]|]. intros _. rewrite length_write_at by done. lia. Qed.

(** The calls of a write before its bytes go out keep every size, and so does
    a call that fails. *)
Lemma files_open path d r d' :
  OpenFileCreate path d = (r, d') ->
  (forall p, p <> path -> files d' !! p = files d !! p) /\ file_bytes d' path = file_bytes d path.
Proof.
  unfold OpenFileCreate, sbind. destruct (os_call_spec "open" d) as (r1 & d1 & -> & Hf & [->|[e ->]]); cbn.
  - intros [= <- <-]. cbn. unfold file_bytes; cbn. rewrite Hf. split.
    + intros p Hp. by rewrite lookup_insert_ne.
    + by rewrite lookup_insert_eq.
  - intros [= <- <-]. unfold file_bytes. by rewrite Hf.
Qed.

(** What [Write] does to the files: nothing elsewhere, and at its path the
    bytes are as before, or a prefix of the page has been written. *)
Lemma Write_files pg path d r d' :
  valid_buf (buf pg) -> 0 <= pageID pg < 2 ^ 31 -> Write (Some pg) path d = (r, d') ->
  (forall p, p <> path -> files d' !! p = files d !! p) /\
  (file_bytes d' path = file_bytes d path /\ r <> Ok tt \/
   exists n, file_bytes d' path =
     write_at (file_bytes d path) (Z.to_nat (pageID pg * PageSize)) (take n (buf pg)) /\
     (r = Ok tt -> (length (buf pg) <= n)%nat)).
Proof.
  intros Hv Hid. unfold Write. case_decide; [intros [= <- <-]; by split; [|left]|].
  rewrite (proj2 (Z.ltb_ge _ _)) by lia. unfold sbind at 1, slift. rewrite (IsValid_valid_buf pg Hv).
  cbn [negb]. unfold sbind at 1.
  destruct (os_call_spec "mkdir" d) as (r1 & d1 & -> & Hf1 & [->|[e ->]]); cbn.
  2:{ intros [= <- <-]. split; [by intros; rewrite Hf1|]. left. split; [|done]. unfold file_bytes. by rewrite Hf1. }
  unfold sbind. destruct (OpenFileCreate path d1) as [r2 d2] eqn:E2.
  destruct (files_open _ _ _ _ E2) as [Ho Hb].
  assert (Ho2 : forall p, p <> path -> files d2 !! p = files d !! p) by (intros; by rewrite Ho, Hf1).
  assert (Hb2 : file_bytes d2 path = file_bytes d path) by (rewrite Hb; unfold file_bytes; by rewrite Hf1).
  destruct r2 as [[]|e|]; cbn [fst snd]; [|intros [= <- <-]; by split; [|left]..].
  rewrite page_offset by done. unfold WriteAt. rewrite (proj2 (Z.ltb_ge _ _)) by (unfold PageSize; lia).
  assert (Hcase : forall fs n (r0 : outcome unit) d3, (r0 = Ok tt -> (length (buf pg) <= n)%nat) ->
    d3 = with_files (<[path := write_at (file_bytes d2 path) (Z.to_nat (pageID pg * PageSize)) (take n (buf pg))]>
           (files d2)) {| files := files d2; faults := fs |} ->
    (forall p, p <> path -> files d3 !! p = files d !! p) /\
    (file_bytes d3 path = file_bytes d path /\ r0 <> Ok tt \/ exists n, file_bytes d3 path =
       write_at (file_bytes d path) (Z.to_nat (pageID pg * PageSize)) (take n (buf pg)) /\
       (r0 = Ok tt -> (length (buf pg) <= n)%nat))).
  { intros fs n r0 d3 Hr ->. cbn. split; [intros p Hp; by rewrite lookup_insert_ne, Ho2|]. right. exists n.
    split; [|done]. unfold file_bytes at 1; cbn. by rewrite lookup_insert_eq, <- Hb2. }
  unfold sbind, next_fault. destruct (faults d2) as [|[|n] fs] eqn:Ef; cbn; intros [= <- <-].
  - apply (Hcase [] (length (buf pg))); [done|]. rewrite firstn_all. by destruct d2; cbn in *; subst.
  - apply (Hcase fs (length (buf pg))); [done|]. by rewrite firstn_all.
  - by apply (Hcase fs n).
Qed.
End FSSize.

Definition FS_stat_laws_of (b : Prop) : FileStatLaws (H0 := FS_laws b) FS.
Proof.
  refine (@Build_FileStatLaws FS _ (FS_laws b) _ FSSize.file_size _ _ _ _ _ _ _ _).
  - intros d path. cbn. unfold sbind.
    destruct (os_call_spec "stat" d) as (r & d' & -> & Hf & Hr).
    assert (Hs : forall p id, HeapPageFileManager.stored d' p id = HeapPageFileManager.stored d p id) by (intros; by apply same_bytes_stored, same_files).
    assert (Hz : forall p, FSSize.file_size d' p = FSSize.file_size d p)
      by (intros; unfold FSSize.file_size; by rewrite Hf).
    destruct Hr as [->|[e ->]].
    + exists (Ok (FSSize.file_size d' path)), d'. split; [done|]. split; [exact Hz|]. split; [exact Hs|].
      left. f_equal. apply Hz.
    + exists (Err e), d'. split; [done|]. split; [exact Hz|]. split; [exact Hs|]. right. by exists e.
  - intros d path _ Hd. pose proof Hd as [Hf _]. cbn. unfold sbind. by rewrite os_call_quiet.
  - intros d path _ Hd. pose proof Hd as [Hf _]. cbn. by rewrite os_call_quiet.
  - intros d path. cbn. destruct (os_call_spec "mkdir" d) as (r & d' & -> & Hf & Hr).
    eexists _, _. split; [done|]. unfold FSSize.file_size. rewrite Hf. split; [done|].
    split; [intros; by apply same_bytes_stored, same_files|done].
  - intros d id path p Hid. cbn. destruct (Read_spec id path d Hid) as (r & d' & -> & Hf & _).
    unfold FSSize.file_size. cbn. by rewrite Hf.
  - intros d pg path p Hv Hid Hne. cbn. destruct (HeapPageFileManager.Write (Some pg) path d) as [r d'] eqn:E.
    destruct (FSSize.Write_files _ _ _ _ _ Hv Hid E) as [Ho _]. unfold FSSize.file_size. cbn. by rewrite Ho.
  - intros d pg path n Hv Hid Hn Hin. cbn. destruct (HeapPageFileManager.Write (Some pg) path d) as [r d'] eqn:E.
    destruct (FSSize.Write_files _ _ _ _ _ Hv Hid E) as [_ Hb]. cbn. rewrite !FSSize.default_size in *.
    destruct Hb as [[-> _]|(m & -> & _)]; [done|]. destruct Hv as [Hl _]. unfold PageSize in *.
    rewrite FSSize.write_at_length by (right; lia). rewrite length_take. lia.
  - intros d pg path d' Hv Hid Hn E. cbn in E.
    destruct (FSSize.Write_files _ _ _ _ _ Hv Hid E) as [_ Hb]. rewrite !FSSize.default_size in *.
    destruct Hb as [[_ Hb]|(m & -> & Hm)]; [done|]. destruct Hv as [Hl _]. unfold PageSize in *.
    rewrite FSSize.write_at_length by (right; lia). rewrite length_take. specialize (Hm eq_refl). lia.
Defined.

#[export] Instance FS_stat_laws : FileStatLaws FS := FS_stat_laws_of False.

(** ** Operations on pages through pointers *)
Module PageStore.
Import HeapBufferPoolManager.

Section operations.
Context {R D : Type} `{!Replacer R, !PageFileManager D}.
Implicit Types (P : Pool R D) (pg : PageRef).

Definition set_mem (loc : nat) (b : list byte) P : Pool R D :=
  {| poolSize := poolSize P; replacer := replacer P; root := root P; pageTable := pageTable P;
     slots := slots P; mem := <[loc := b]> (mem P); next := next P; disk := disk P |}.

(** [slot.Page()], [p.Bytes()], [p.Size()], [p.Read(i)], [p.Write(data)]. *)
Definition Page (ref : nat) : ST (Pool R D) PageRef := s <- load ref ;; sret (bs_page s).
Definition Bytes pg : ST (Pool R D) (list byte) := p <- load_page pg ;; sret (buf p).
Definition Size pg : ST (Pool R D) Z := p <- load_page pg ;; slift (HeapPage.Size p).
Definition Read pg (i : Z) : ST (Pool R D) (list byte) := p <- load_page pg ;; slift (HeapPage.Read p i).
Definition Write pg (data : option (list byte)) : ST (Pool R D) unit :=
  p <- load_page pg ;;
  p' <- slift (HeapPage.Write p data) ;;
  smodify (set_mem (pg_buf pg) (buf p')).

(** [page.NewHeapPageFromBuffer(id, p.Bytes())] shares the array of [p];
    [page.NewHeapPage(id)] allocates one. *)
Definition FromBuffer (id : Z) pg : ST (Pool R D) PageRef :=
  b <- Bytes pg ;;
  p <- slift (NewHeapPageFromBuffer id (Some b)) ;;
  sret {| pg_id := pageID p; pg_buf := pg_buf pg |}.
Definition New (id : Z) : ST (Pool R D) PageRef :=
  p <- slift (NewHeapPage id) ;; alloc_page p.
End operations.

(** ** The store *)
Section store.
Context {R D : Type} `{RR : Replacer R, RL : !ReplacerLaws R, DM : PageFileManager D, DL : !PageFileLaws D}.
Context (root0 : string) (root_nonempty : root0 <> ""%string).
Implicit Types (P : Pool R D) (k : PageKey) (A : PageKey -> option (list byte)) (pg : PageRef).

Notation good := (BufferPoolSpec.good_key Filepath.simple_name).
Notation ok := (BufferPoolSpec.pool_ok root0 Filepath.simple_name).
Notation calm := PoolCalm.calm.
Notation represents := (BufferPoolSpec.represents root0).
Notation resident := BufferPoolSpec.resident.
Notation page_for := BufferPoolSpec.page_for.
Notation apart := BufferPoolSpec.apart.
Notation no_key := BufferPoolSpec.no_key.

Let join_inj f g : Filepath.simple_name f -> Filepath.simple_name g ->
  Filepath.Join root0 f = Filepath.Join root0 g -> f = g.
Proof. by apply Filepath.Join_inj. Qed.

Let join_nonempty f : Filepath.simple_name f -> Filepath.Join root0 f <> ""%string.
Proof. by apply Filepath.Join_nonempty. Qed.

(** What no client can observe, and on a reliable disk the pool stays calm. *)
Record evolves (X : PageKey -> Prop) P P' : Prop := {
  ev_pool :> BufferPoolSpec.evolves root0 Filepath.simple_name X P P';
  ev_calm : calm P -> calm P'
}.

Lemma steady_refl X P : ok P -> evolves X P P.
Proof. intros OK. split; [by apply BufferPoolSpec.evolves_refl|done]. Qed.

Lemma steady_trans X P1 P2 P3 : evolves X P1 P2 -> evolves X P2 P3 -> evolves X P1 P3.
Proof. intros [H1 C1] [H2 C2]. split; [by eapply BufferPoolSpec.evolves_trans|auto]. Qed.

(** A call evolves the pool if it does so without regard to the disk, and on a
    reliable disk keeps the peace. *)
Lemma calm_triple {B} (m : ST (Pool R D) B) P (Q : outcome B -> Pool R D -> Prop) (K : outcome B -> Prop) :
  triple m P Q -> (reliable -> PoolCalm.at_peace P -> triple m P (fun r P' => PoolCalm.at_peace P' /\ K r)) ->
  triple m P (fun r P' => Q r P' /\ (calm P -> calm P') /\ (reliable -> calm P -> K r)).
Proof.
  intros [Hnp HQ] Hp. split; [done|]. split; [done|]. split.
  - intros Hc Hrel. by apply (Hp Hrel (Hc Hrel)).
  - intros Hrel Hc. by apply (Hp Hrel (Hc Hrel)).
Qed.

(** The pool stands for [A], but for the key [k] that is being changed. *)
Definition store_but (E : PageKey -> Prop) A P : Prop := represents E A P /\ apart no_key P /\ calm P.
Definition store_of A P : Prop := store_but no_key A P.

(** One more key is being changed. *)
Definition also k (E : PageKey -> Prop) : PageKey -> Prop := fun k' => k' = k \/ E k'.

Definition put k (b : list byte) A : PageKey -> option (list byte) :=
  fun k' => if decide (k' = k) then Some b else A k'.

(** The slot [ref] of [k] is resident and holds the page [pg], whose bytes are
    [b]. *)
Definition in_slot P k (ref : nat) pg (b : list byte) : Prop :=
  pageTable P !! k = Some ref /\ (exists s, slots P !! ref = Some s /\ bs_page s = pg) /\
  page_for k pg P b.

Lemma store_but_of E A P : store_of A P -> store_but E A P.
Proof.
  intros [(OK & Hsz & Hr) Hac]. split; [|done]. split_and!; [done..|]. intros k Hg _. apply Hr; [done|].
  by intros [].
Qed.

Lemma store_evolves E A P P' : store_but E A P -> evolves no_key P P' -> store_but E A P'.
Proof.
  intros (Hr & Ha & Hc) Hev. split; [by eapply BufferPoolSpec.evolves_no_represents; [apply Hev|]|].
  split; [by apply (BufferPoolSpec.ev_apart _ _ _ _ _ Hev no_key)|by apply (ev_calm _ _ _ Hev)].
Qed.

(** The page of [k] is left alone: what is known of it stays known. *)
Definition leaves k P P' : Prop := forall E A, ~ E k -> store_but E A P ->
  exists E' A', ~ E' k /\ A' k = A k /\ store_but E' A' P'.

#[global] Instance leaves_preorder k : PreOrder (leaves k).
Proof.
  split; [intros P E A HE Hst; by exists E, A|]. intros P1 P2 P3 H1 H2 E A HE Hst.
  destruct (H1 E A HE Hst) as (E2 & A2 & HE2 & HA2 & Hst2). destruct (H2 E2 A2 HE2 Hst2) as (E3 & A3 & HE3 & HA3 & Hst3).
  exists E3, A3. split; [done|]. split; [congruence|done].
Qed.

Lemma leaves_evolves k P P' : evolves no_key P P' -> leaves k P P'.
Proof. intros Hev E A HE Hst. exists E, A. split; [done|]. split; [done|]. by eapply store_evolves. Qed.

Lemma store_mono (E E' : PageKey -> Prop) A P : (forall k, E k -> E' k) -> store_but E A P -> store_but E' A P.
Proof.
  intros HE [(OK & Hsz & Hr) Hac]. split; [|done]. split_and!; [done..|]. intros k Hg He. apply Hr; [done|]. auto.
Qed.

Lemma store_ok E A P : store_but E A P -> ok P /\ 0 < poolSize P.
Proof. by intros [(OK & Hsz & _) _]. Qed.

Lemma store_calm E A P : store_but E A P -> calm P.
Proof. by intros (_ & _ & Hc). Qed.

Lemma in_slot_resident P k ref pg b :
  in_slot P k ref pg b -> exists s, bs_page s = pg /\ slots P !! ref = Some s /\ resident P k = Some (s, b).
Proof.
  intros (Hk & (s & Hs & Hp) & Hb & _). exists s. split_and!; [done..|].
  eapply BufferPoolSpec.resident_intro; [done..|by rewrite Hp].
Qed.

Lemma in_slot_intro P k ref :
  ok P -> pageTable P !! k = Some ref -> exists pg b, in_slot P k ref pg b.
Proof.
  intros OK Hk. destruct (BufferPoolSpec.ok_slot _ _ _ OK _ _ Hk) as (_ & s & b & Hs & _ & Hp).
  exists (bs_page s), b. split_and!; eauto; apply Hp.
Qed.

(** Pointer operations on a resident page. *)
Lemma Page_run P k ref pg b : in_slot P k ref pg b -> Page ref P = (Ok pg, P).
Proof.
  intros (_ & (s & Hs & Hp) & _). unfold Page.
  rewrite (sbind_ok _ _ P s P) by by apply BufferPoolSpec.load_run. by rewrite Hp.
Qed.

Lemma load_in P k pg b : page_for k pg P b -> load_page pg P = (Ok {| pageID := PageID k; buf := b |}, P).
Proof. intros (Hb & <- & _). by apply BufferPoolSpec.load_page_run. Qed.

Lemma Bytes_run P k pg b : page_for k pg P b -> Bytes pg P = (Ok b, P).
Proof. intros H. unfold Bytes. by erewrite sbind_ok by by eapply load_in. Qed.

Lemma FromBuffer_run P k pg b : page_for k pg P b -> FromBuffer (PageID k) pg P = (Ok pg, P).
Proof.
  intros H. unfold FromBuffer. erewrite sbind_ok by by eapply Bytes_run.
  destruct H as (_ & Hid & Hl & Hs). unfold slift, sbind. rewrite NewHeapPageFromBuffer_good; [|lia|done].
  unfold sret; cbn. by rewrite <- Hid; destruct pg.
Qed.

Lemma Size_run P k pg b ds :
  page_for k pg P b -> page_repr {| pageID := PageID k; buf := b |} ds ->
  Size pg P = (Ok (Z.of_nat (length ds)), P).
Proof.
  intros H HR. unfold Size. erewrite sbind_ok by by eapply load_in. unfold slift.
  by rewrite (Size_repr _ _ HR).
Qed.

Lemma Read_run P k pg b i :
  page_for k pg P b -> Read pg i P = (HeapPage.Read {| pageID := PageID k; buf := b |} i, P).
Proof. intros H. unfold Read. by erewrite sbind_ok by by eapply load_in. Qed.

Lemma repr_valid p ds : page_repr p ds -> valid_buf (buf p).
Proof. intros HR. split; [apply (repr_len _ _ HR)|apply (repr_sig _ _ HR)]. Qed.

(** [Write] on a page that holds [ds]: the record is added, or nothing happens. *)
Lemma Write_run P k pg b ds d :
  page_for k pg P b -> page_repr {| pageID := PageID k; buf := b |} ds ->
  match PageSpec.insert ds d with
  | Some ds' => exists b', Write pg (Some d) P = (Ok tt, set_mem (pg_buf pg) b' P) /\
                  page_repr {| pageID := PageID k; buf := b' |} ds' /\ valid_buf b'
  | None => Write pg (Some d) P = (Err ErrNoSpace, P)
  end.
Proof.
  intros H HR. pose proof (Write_insert _ _ d HR) as Hw. unfold Write.
  destruct (PageSpec.insert ds d) as [ds'|].
  - destruct Hw as (p' & E & Hid & HR'). exists (buf p'). erewrite sbind_ok by by eapply load_in.
    cbn in Hid. replace {| pageID := PageID k; buf := buf p' |} with p' by (destruct p'; cbn in *; by subst).
    split; [|split; [done|by eapply repr_valid]]. unfold slift, sbind. by rewrite E.
  - erewrite sbind_ok by by eapply load_in. unfold slift, sbind. by rewrite Hw.
Qed.
(** *** Reading *)
Lemma get_page E A P k :
  store_but E A P -> good k ->
  triple (GetPage k) P (fun r P' =>
    store_but E A P' /\ evolves no_key P P' /\
    (forall ref, r = Ok ref -> exists pg b, in_slot P' k ref pg b /\ (~ E k -> A k = Some b)) /\
    (reliable -> ~ E k -> is_Some (A k) -> exists ref, r = Ok ref)).
Proof.
  intros Hst Hg. destruct (store_ok _ _ _ Hst) as [OK Hsz].
  eapply triple_mono; [eapply (calm_triple _ _ _ (fun r => is_Some (BufferPoolSpec.contents root0 P k) -> exists ref, r = Ok ref));
    [by apply (BufferPoolSpec.getPageLocked_spec root0 Filepath.simple_name)|
     intros Hrel Hp; by apply (PoolCalm.getPage_peace root0 Filepath.simple_name)]|].
  intros r P' _ ([Hev0 Hok] & Hcalm & Hfound). assert (Hev : evolves no_key P P') by by split.
  pose proof (store_evolves _ _ _ _ Hst Hev) as Hst'. split; [done|]. split; [done|]. split.
  2:{ intros Hrel He HA. apply (Hfound Hrel (store_calm _ _ _ Hst)).
      destruct Hst as [(_ & _ & Hr) _]. by destruct (Hr k Hg He) as [_ ->]. }
  intros ref ->. specialize (Hok ref eq_refl). destruct (in_slot_intro P' k ref) as (pg & b & Hin); [apply Hev|done|].
  exists pg, b. split; [done|]. intros He. destruct Hst' as [(_ & _ & Hr) _]. destruct (Hr k Hg He) as [_ <-].
  destruct (in_slot_resident _ _ _ _ _ Hin) as (s & _ & _ & Hres).
  unfold BufferPoolSpec.contents. by rewrite Hres.
Qed.

(** *** Changing a page in place *)
Lemma resident_set_mem P loc b' k :
  is_Some (mem P !! loc) ->
  resident (set_mem loc b' P) k =
    (fun sb => (sb.1, if decide (pg_buf (bs_page sb.1) = loc) then b' else sb.2)) <$> resident P k.
Proof.
  intros [b0 Hb0]. unfold BufferPoolSpec.resident. cbn. destruct (pageTable P !! k) as [ref|]; [|done]. cbn.
  destruct (slots P !! ref) as [s|]; [|done]. cbn. destruct (decide (pg_buf (bs_page s) = loc)) as [Hd|Hd].
  - rewrite Hd, lookup_insert_eq, Hb0.
    change (Some (s, b') = Some (s, if decide (pg_buf (bs_page s) = loc) then b' else b0)). by rewrite decide_True.
  - rewrite lookup_insert_ne by done. destruct (mem P !! pg_buf (bs_page s)) as [b|]; [|done].
    change (Some (s, b) = Some (s, if decide (pg_buf (bs_page s) = loc) then b' else b)). by rewrite decide_False.
Qed.

Lemma set_mem_ok P loc b' : ok P -> is_Some (mem P !! loc) -> valid_buf b' -> ok (set_mem loc b' P).
Proof.
  intros OK [b0 Hb0] Hv. split; cbn; try apply OK.
  - intros k ref Hk. destruct (BufferPoolSpec.ok_slot _ _ _ OK _ _ Hk) as (Hg & s & b & Hs & Hks & Hb & Hid & Hv').
    split; [done|]. destruct (decide (pg_buf (bs_page s) = loc)) as [<-|Hne].
    + exists s, b'. split_and!; try done. split; [|done]. cbn. by rewrite lookup_insert_eq.
    + exists s, b. split_and!; try done. split; [|done]. cbn. by rewrite lookup_insert_ne.
  - intros ref Hn. destruct (BufferPoolSpec.ok_next _ _ _ OK ref Hn) as [Hn1 Hn2]. split; [done|].
    rewrite lookup_insert_ne; [done|]. congruence.
Qed.

Lemma poke E E' A P k ref pg b b' :
  store_but E A P -> (forall k', E k' -> E' k') -> E' k -> in_slot P k ref pg b -> valid_buf b' ->
  store_but E' A (set_mem (pg_buf pg) b' P) /\ in_slot (set_mem (pg_buf pg) b' P) k ref pg b'.
Proof.
  intros [(OK & Hsz & Hr) [Ha Hcalm]] HE HEk Hin Hv. pose proof Hin as (Hk & (s & Hs & Hp) & Hb & Hid & _).
  assert (Hm : is_Some (mem P !! pg_buf pg)) by eauto.
  destruct (in_slot_resident _ _ _ _ _ Hin) as (s' & Hp' & Hs' & Hres). simplify_eq.
  assert (Hother : forall k', k <> k' -> resident (set_mem (pg_buf (bs_page s)) b' P) k' = resident P k').
  { intros k' Hne. rewrite resident_set_mem by done. destruct (resident P k') as [[s' c]|] eqn:Ek; [|done].
    cbn. rewrite decide_False; [done|]. intros Hd. apply Hne. symmetry. eapply Ha; eauto; by intros []. }
  split; [split; [split_and!|split; [|done]]|].
  - by apply set_mem_ok.
  - done.
  - intros k' Hg Hne. unfold BufferPoolSpec.coherent, BufferPoolSpec.contents. rewrite Hother by (by intros <-).
    apply Hr; [done|]. auto.
  - intros k1 k2 s1 b1 s2 b2 H1 H2. rewrite !resident_set_mem by done.
    destruct (resident P k1) as [[s1' b1']|] eqn:E1; [|done].
    destruct (resident P k2) as [[s2' b2']|] eqn:E2; [|done]. intros [= <- _] [= <- _].
    by eapply Ha.
  - split_and!; [done|by exists s|]. split; [|by split]. cbn. by rewrite lookup_insert_eq.
Qed.

(** Putting a page under its key, from an array no other key uses. *)
Lemma apart_put P P' k s b :
  ok P -> BufferPoolSpec.evolves root0 Filepath.simple_name (eq k) P P' -> apart no_key P -> resident P' k = Some (s, b) ->
  is_Some (mem P !! pg_buf (bs_page s)) ->
  (forall k' s' b', k <> k' -> resident P k' = Some (s', b') -> pg_buf (bs_page s') <> pg_buf (bs_page s)) ->
  apart no_key P'.
Proof.
  intros OK Hev Ha Hres Hm Hfree.
  assert (Ha' : apart (eq k) P').
  { apply Hev; [done|]. intros k1 k2 s1 b1 s2 b2 _ _. apply Ha; by intros []. }
  assert (Hne : forall k' s' b', k <> k' -> resident P' k' = Some (s', b') -> pg_buf (bs_page s') <> pg_buf (bs_page s)).
  { intros k' s' b' Hk' Hr'. destruct (BufferPoolSpec.ev_kept _ _ _ _ _ Hev k' s' b' Hk' Hr')
      as [(s0 & b0 & H0 & -> & _)|[_ Hn]]; [by eapply Hfree|].
    intros E. rewrite E in Hn. destruct Hm. congruence. }
  intros k1 k2 s1 b1 s2 b2 _ _ H1 H2 E.
  destruct (decide (k = k1)) as [<-|N1], (decide (k = k2)) as [<-|N2]; [done|..].
  - rewrite Hres in H1. injection H1 as <- <-. by destruct (Hne _ _ _ N2 H2).
  - rewrite Hres in H2. injection H2 as <- <-. by destruct (Hne _ _ _ N1 H1).
  - by eapply Ha'.
Qed.

(** [UpdatePage] of a resident page whose bytes were changed: the store is
    updated; it cannot fail. *)
Lemma update_page E A P k ref pg b :
  store_but (also k E) A P -> good k -> in_slot P k ref pg b ->
  triple (UpdatePage k (Some pg)) P (fun r P' =>
    r = Ok tt /\ store_but E (put k b A) P' /\ evolves (eq k) P P' /\
    rtc (BufferPoolSpec.disk_step root0 Filepath.simple_name (BufferPoolSpec.writable no_key P)) (disk P) (disk P') /\
    exists s, resident P' k = Some (s, b) /\ bs_dirty s = true /\ bs_page s = pg).
Proof.
  intros [(OK & Hsz & Hr) [Ha Hcalm]] Hg Hin. pose proof Hin as (Hk & _ & Hpg).
  destruct (calm_triple _ _ _ (fun _ => True)
    (BufferPoolSpec.UpdatePage_spec root0 Filepath.simple_name join_inj join_nonempty P k pg b OK Hg Hsz Hpg))
    as [Hnp ((Hev0 & Hok & Herr & Hd) & Hcalm' & _)].
  { intros Hrel Hp. eapply triple_mono; [by apply (PoolCalm.UpdatePage_peace root0 Filepath.simple_name join_inj join_nonempty Hrel P k pg b)|done]. }
  unfold triple. destruct (UpdatePage k (Some pg) P) as [r P']. cbn [fst snd] in *. split; [exact Hnp|].
  assert (Hev : evolves (eq k) P P') by by split.
  destruct r as [[]|e|]; [|destruct (Herr e eq_refl); congruence|done].
  destruct (Hok eq_refl) as (Hcon & Hcoh & s & Hres & Hdirty & Hp).
  split; [done|]. split; [|split; [done|]; split; [done|by exists s]]. split.
  - split_and!; [apply Hev|by rewrite (BufferPoolSpec.ev_size _ _ _ _ _ Hev)|]. intros k' Hg' He.
    unfold put. destruct (decide (k' = k)) as [->|Hne]; [done|].
    destruct (Hr k' Hg') as [Hc <-]; [by intros [?|?]|]. assert (k <> k') by congruence.
    split; [by apply (BufferPoolSpec.ev_coherent _ _ _ _ _ Hev)|by apply (BufferPoolSpec.ev_contents _ _ _ _ _ Hev)].
  - split; [|auto]. eapply (apart_put P); [done..|rewrite Hp; eexists; apply Hpg|].
    intros k' s' b' Hne Hr'. destruct (in_slot_resident _ _ _ _ _ Hin) as (s0 & E0 & _ & Hres0). rewrite Hp, <- E0.
    intros E1. apply Hne. symmetry. eapply Ha; eauto; by intros [].
Qed.
(** *** New pages *)

(** No resident page lives in the array of [pg]. *)
Definition unused P pg : Prop :=
  forall k s c, resident P k = Some (s, c) -> pg_buf (bs_page s) <> pg_buf pg.

Lemma new_array E A P id :
  store_but E A P ->
  triple (New id) P (fun r P' => exists pg b, r = Ok pg /\ store_but E A P' /\ evolves no_key P P' /\
    mem P' !! pg_buf pg = Some b /\ pg_id pg = id /\ page_repr {| pageID := id; buf := b |} [] /\ unused P' pg /\ mem P !! pg_buf pg = None).
Proof.
  intros Hst. destruct (store_ok _ _ _ Hst) as [OK Hsz]. destruct (NewHeapPage_repr id) as (p & E0 & Hid & HR).
  unfold New. apply triple_bind. eapply (BufferPoolSpec.triple_run _ _ p P); [unfold slift; by rewrite E0|].
  destruct (BufferPoolSpec.alloc_page_spec root0 Filepath.simple_name P p OK) as [Hev0 Hm]. split; [done|].
  assert (Hev : evolves no_key P (alloc_page p P).2) by by split.
  exists {| pg_id := pageID p; pg_buf := next P |}, (buf p).
  split; [done|]. split; [by eapply store_evolves|]. split; [done|]. split; [done|]. split; [done|].
  split; [by rewrite <- Hid; destruct p|].
  assert (Hfresh : mem P !! next P = None) by by apply (BufferPoolSpec.ok_next _ _ _ OK (next P)).
  split; [|exact Hfresh]. intros k s c. rewrite (BufferPoolSpec.alloc_resident root0 Filepath.simple_name) by done.
  intros (ref & _ & _ & Hb)%BufferPoolSpec.resident_inv. cbn. intros E1. rewrite E1 in Hb.
  congruence.
Qed.

(** Changing the array of a page that is not in the pool changes nothing. *)
Lemma poke_unused E A P pg b' :
  store_but E A P -> is_Some (mem P !! pg_buf pg) -> unused P pg -> valid_buf b' ->
  store_but E A (set_mem (pg_buf pg) b' P) /\ unused (set_mem (pg_buf pg) b' P) pg.
Proof.
  intros [(OK & Hsz & Hr) [Ha Hcalm]] Hm Hun Hv.
  assert (Hres : forall k, resident (set_mem (pg_buf pg) b' P) k = resident P k).
  { intros k. rewrite resident_set_mem by done. destruct (resident P k) as [[s c]|] eqn:Ek; [|done].
    cbn. rewrite decide_False; [done|]. by eapply Hun. }
  split; [split; [split_and!|split; [|done]]|].
  - by apply set_mem_ok.
  - done.
  - intros k Hg He. unfold BufferPoolSpec.coherent, BufferPoolSpec.contents. rewrite Hres. by apply Hr.
  - intros k1 k2 s1 b1 s2 b2. rewrite !Hres. by apply Ha.
  - intros k s c. rewrite Hres. by apply Hun.
Qed.

Lemma enter_page E A P k pg b :
  store_but E A P -> good k -> page_for k pg P b -> unused P pg ->
  triple (NewPage k (Some pg)) P (fun r P' =>
    rtc (BufferPoolSpec.disk_step root0 Filepath.simple_name (BufferPoolSpec.writable no_key P)) (disk P) (disk P') /\
    match r with
    | Ok ref => store_but (also k E) A P' /\ evolves (eq k) P P' /\ in_slot P' k ref pg b /\
        exists s, resident P' k = Some (s, b) /\ bs_dirty s = false
    | _ => store_but E A P' /\ evolves no_key P P'
    end).
Proof.
  intros Hst Hg Hpg Hfree. destruct (store_ok _ _ _ Hst) as [OK Hsz].
  eapply triple_mono; [eapply (calm_triple _ _ _ (fun _ => True));
    [by apply (BufferPoolSpec.NewPage_spec root0 Filepath.simple_name join_inj join_nonempty P k pg b)|]|].
  { intros Hrel Hp. eapply triple_mono; [by apply (PoolCalm.NewPage_peace root0 Filepath.simple_name join_inj join_nonempty Hrel P k pg b)|done]. }
  intros r P' Hnp ((Hev0 & Hok & Herr & Hd) & Hcalm' & _). assert (Hev : evolves (eq k) P P') by by split.
  split; [done|]. destruct r as [ref|e|]; [| |done].
  - destruct (Hok ref eq_refl) as (_ & Hk & Hs & Hres). destruct Hst as [(_ & _ & Hr) [Ha Hcalm]].
    split; [split|split; [done|split]].
    + split_and!; [apply Hev|by rewrite (BufferPoolSpec.ev_size _ _ _ _ _ Hev)|]. intros k' Hg' He.
      assert (k <> k') by (intros <-; apply He; by left). destruct (Hr k' Hg') as [Hc <-]; [intros He'; apply He; by right|].
      split; [by apply (BufferPoolSpec.ev_coherent _ _ _ _ _ Hev)|by apply (BufferPoolSpec.ev_contents _ _ _ _ _ Hev)].
    + split; [|auto]. eapply (apart_put P); [done..|eexists; apply Hpg|]. intros k' s' b' _ Hr'. by eapply Hfree.
    + split; [done|]. split; [by eexists|]. destruct Hpg as (Hb & Hid & Hv). split; [|done].
      eapply lookup_weaken; [exact Hb|apply Hev].
    + by eexists.
  - assert (Hev' : evolves no_key P P') by (split; [by apply (Herr e)|done]). split; [by eapply store_evolves|done].
Qed.

(** Calls on the disk that leave the pages on it alone. *)
Lemma store_disk E A P d' :
  store_but E A P -> (forall p id, stored d' p id = stored (disk P) p id) ->
  (reliable -> healthy (disk P) -> healthy d') -> store_but E A (with_disk d' P).
Proof.
  intros [(OK & Hsz & Hrep) [Ha Hcalm]] Hst Hd. split; [split_and!|split; [done|]]; try done; [by apply BufferPoolSpec.pool_ok_disk| |].
  2:{ intros Hrel. destruct (Hcalm Hrel) as [H1 H2]. split; [by apply Hd|exact H2]. }
  intros k Hg He. destruct (Hrep k Hg He) as [Hc Hk]. unfold BufferPoolSpec.coherent, BufferPoolSpec.contents,
    BufferPoolSpec.on_file in *. cbn in *. rewrite Hst. done.
Qed.

(** *** What is known of the pages

    The largest store a pool stands for: every page it is coherent about, with
    the contents it has.  A call that keeps this store keeps every store. *)
Definition vague P k : Prop := good k /\ ~ BufferPoolSpec.coherent root0 P k.
Notation known := (BufferPoolSpec.contents root0).

Definition kept P P' : Prop := forall E A, store_but E A P -> store_but E A P'.

#[global] Instance kept_preorder : PreOrder kept.
Proof. split; [by intros P E A|]. intros P1 P2 P3 H1 H2 E A Hst. by apply H2, H1. Qed.

Lemma known_coherent P k : good k -> ~ vague P k -> BufferPoolSpec.coherent root0 P k.
Proof.
  intros Hg Hv s b Hr Hd. destruct (decide (BufferPoolSpec.on_file root0 P k = Some b)) as [|Hn]; [done|].
  destruct Hv. split; [done|]. intros Hc. by apply Hn, (Hc s).
Qed.

Lemma store_known E A P k : store_but E A P -> good k -> ~ E k -> ~ vague P k /\ known P k = A k.
Proof. intros [(_ & _ & Hr) _] Hg He. destruct (Hr k Hg He) as [Hc HA]. split; [|done]. by intros [_ Hn]. Qed.

Lemma store_all E A P : store_but E A P -> store_but (vague P) (known P) P.
Proof.
  intros [(OK & Hsz & _) Hac]. split; [|done]. split_and!; [done..|]. intros k Hg Hv. split; [|done]. by apply known_coherent.
Qed.

Lemma kept_all P P' : store_but (vague P) (known P) P' -> kept P P'.
Proof.
  intros [(OK & Hsz & Hr) Hac] E A Hst. split; [|done]. split_and!; [done..|]. intros k Hg He.
  destruct (store_known E A P k Hst Hg He) as [Hv <-]. by apply Hr.
Qed.

Lemma kept_evolves P P' : evolves no_key P P' -> kept P P'.
Proof. intros Hev E A Hst. by eapply store_evolves. Qed.

(** *** Flushing one page *)
Lemma flush_page P k :
  ok P ->
  triple (FlushPage k) P (fun r P' =>
    evolves no_key P P' /\ pageTable P' = pageTable P /\ BufferPoolSpec.flushed_at k P P' r).
Proof.
  intros OK. eapply triple_mono; [eapply (calm_triple _ _ _ (fun _ => True));
    [by apply (BufferPoolSpec.FlushPage_spec root0 Filepath.simple_name join_inj join_nonempty)|]|].
  - intros Hrel Hp. eapply triple_mono; [by apply (PoolCalm.FlushPage_peace root0 Filepath.simple_name join_nonempty Hrel P k)|].
    by intros r P' _ [_ ?].
  - intros r P' _ ((Hev & Ht & Hf) & Hcalm & _). by split.
Qed.

Lemma flush_all P it :
  ok P -> (forall k ref, (k, ref) ∈ it -> pageTable P !! k = Some ref) ->
  triple (FlushAllPages it) P (fun r P' => evolves no_key P P').
Proof.
  intros OK Hit. eapply triple_mono; [eapply (calm_triple _ _ _ (fun _ => True));
    [by apply (BufferPoolSpec.FlushAllPages_spec root0 Filepath.simple_name join_inj join_nonempty it P OK)|]|].
  - intros Hrel Hp. eapply triple_mono; [by apply (PoolCalm.FlushAllPages_peace root0 Filepath.simple_name join_inj join_nonempty Hrel it P)|].
    by intros r P' _ [_ ?].
  - intros r P' _ ((Hev & _) & Hcalm & _). by split.
Qed.

Lemma FlushPage_disk P k s b :
  ok P -> resident P k = Some (s, b) -> bs_dirty s = true ->
  let w := pfm_write {| pageID := PageID k; buf := b |} (Filepath.Join root0 (FileID k)) (disk P) in
  post (FlushPage k) P (fun r P' => disk P' = w.2 /\ (r = Ok tt -> w.1 = Ok tt)).
Proof.
  unfold post.
  intros OK Hres Hd. apply BufferPoolSpec.resident_inv in Hres as (ref & Hk & Hs & Hb).
  destruct (BufferPoolSpec.resident_ok _ _ _ _ _ OK Hk) as (s0 & b0 & Hs0 & _ & (_ & Hid & _) & _). simplify_eq.
  unfold FlushPage. rewrite (sbind_ok _ _ P P P) by done. rewrite Hk. unfold flushSlotLocked.
  rewrite (sbind_ok _ _ P s P) by by apply BufferPoolSpec.load_run. rewrite Hd.
  rewrite (sbind_ok _ _ P {| pageID := PageID k; buf := b |} P)
    by (rewrite <- Hid; by apply BufferPoolSpec.load_page_run).
  rewrite (sbind_ok _ _ P P P) by done. unfold sbind, on_disk. rewrite (BufferPoolSpec.ok_root _ _ _ OK).
  destruct (pfm_write _ _ (disk P)) as [r d]. cbn [fst snd]. destruct r as [[]|e|]; [|done..].
  rewrite (BufferPoolSpec.store_run _ ref _ s) by done. done.
Qed.

(** *** Pages that are not written

    [spared k o P]: the file of [k] has [o] at its place, and there is no dirty
    copy of the page in the pool.  [spares X P P']: this stays so for all keys
    outside [X]. *)
Definition spared k (o : option (list byte)) P : Prop := BufferPoolSpec.on_file root0 P k = o /\ BufferPoolSpec.clean P k.
Definition spares (X : PageKey -> Prop) P P' : Prop := forall k o, good k -> ~ X k -> spared k o P -> spared k o P'.

#[global] Instance spares_preorder X : PreOrder (spares X).
Proof. split; [by intros P k o|]. intros P1 P2 P3 H1 H2 k o Hg Hx Hs. by apply H2, H1. Qed.

Lemma spares_mono (X Y : PageKey -> Prop) P P' : (forall k, X k -> Y k) -> spares X P P' -> spares Y P P'.
Proof. intros HX HP k o Hg Hy. apply HP; auto. Qed.

Lemma moves_on_file W d d' k :
  good k -> ~ W k -> rtc (BufferPoolSpec.disk_step root0 Filepath.simple_name W) d d' ->
  stored d' (BufferPoolSpec.path_of root0 k) (PageID k) = stored d (BufferPoolSpec.path_of root0 k) (PageID k).
Proof.
  intros Hg HW. induction 1 as [|d1 d2 d3 Hst _ IH]; [done|]. rewrite IH. destruct Hst as [id path Hid|k' p Hw Hg' Hv Hid].
  - by destruct (pfm_read_law d1 id path Hid) as (r & d' & -> & Hs & _).
  - destruct (pfm_write_law d1 p (BufferPoolSpec.path_of root0 k')) as (r & d' & -> & _ & Ho); [done|rewrite Hid; apply Hg'|by apply join_nonempty, Hg'|].
    apply Ho; [apply Hg|]. rewrite Hid. apply (BufferPoolSpec.path_other root0 Filepath.simple_name join_inj k' k Hg' Hg). by intros ->.
Qed.

Lemma spares_pool X P P' : BufferPoolSpec.evolves root0 Filepath.simple_name X P P' -> spares X P P'.
Proof.
  intros Hev k o Hg Hx [<- Hc]. split.
  - apply (moves_on_file (BufferPoolSpec.writable X P)); [done| |apply Hev]. intros Hw. destruct (Hw Hx) as (s & b & Hr & Hd).
    by rewrite (Hc s b Hr) in Hd.
  - intros s b Hr. destruct (BufferPoolSpec.ev_kept _ _ _ _ _ Hev k s b Hx Hr) as [(s0 & b0 & H0 & _ & Hd)|[Hd _]]; [|done].
    destruct (bs_dirty s); [|done]. specialize (Hc s0 b0 H0). by rewrite Hd in Hc.
Qed.

Lemma spares_evolves X P P' : evolves X P P' -> spares X P P'.
Proof. intros [Hev _]. by apply spares_pool. Qed.

Lemma spares_set_mem X P loc b : is_Some (mem P !! loc) -> spares X P (set_mem loc b P).
Proof.
  intros Hm k o _ _ [<- Hc]. split; [done|]. intros s c. rewrite resident_set_mem by done.
  destruct (resident P k) as [[s0 c0]|] eqn:E; [|done]. intros [= <- _]. by eapply Hc.
Qed.

Lemma spares_disk X P d' : (forall p id, stored d' p id = stored (disk P) p id) -> spares X P (with_disk d' P).
Proof. intros Hst k o _ _ [<- Hc]. split; [|done]. unfold BufferPoolSpec.on_file. cbn. by rewrite Hst. Qed.

(** A page that enters the pool is not written. *)
Lemma enter_spares E A P k pg b :
  store_but E A P -> good k -> page_for k pg P b ->
  post (NewPage k (Some pg)) P (fun r P' => forall ref, r = Ok ref -> spares no_key P P').
Proof.
  intros Hst Hg Hpg. destruct (store_ok _ _ _ Hst) as [OK Hsz].
  eapply post_mono; [apply triple_post; by apply (BufferPoolSpec.NewPage_spec root0 Filepath.simple_name join_inj join_nonempty P k pg b)|].
  intros r P' (Hev & Hok & _ & Hd) ref Er. destruct (Hok ref Er) as (Hk & _ & _ & Hres). intros k' o Hg' _ [<- Hc].
  destruct (decide (k' = k)) as [->|Hne]; [|by apply (spares_pool (eq k) P P')].
  split; [|intros s c; rewrite Hres; by intros [= <- _]].
  apply (moves_on_file (BufferPoolSpec.writable no_key P)); [done| |done].
  intros Hw. destruct (Hw id) as (s & c & Hr & _). unfold resident in Hr. by rewrite Hk in Hr.
Qed.

(** A page in the pool is found at once. *)
Lemma get_resident P k ref pg b :
  ok P -> in_slot P k ref pg b -> triple (GetPage k) P (fun r P' => r = Ok ref /\ in_slot P' k ref pg b).
Proof.
  intros OK (Hk & (s & Hs & Hpage) & Hpg). unfold GetPage, getPageLocked. apply triple_bind, triple_get. rewrite Hk.
  apply triple_bind. eapply BufferPoolSpec.triple_run; [by apply BufferPoolSpec.store_run|].
  set (P1 := with_slot ref (IncrementUsage s) P).
  assert (Hev : BufferPoolSpec.evolves root0 Filepath.simple_name no_key P P1).
  { destruct (BufferPoolSpec.resident_ok _ _ _ _ _ OK Hk) as (s0 & b0 & Hs0 & Hks & _). simplify_eq.
    eapply BufferPoolSpec.evolves_slot; try done. by left. }
  apply triple_bind. eapply triple_mono; [by apply (BufferPoolSpec.touch_spec root0 Filepath.simple_name P1 k ref); [apply Hev|exact Hk]|].
  intros r P2 _ (-> & _ & f & ->). apply triple_ret. split; [done|]. split; [exact Hk|]. split; [|exact Hpg].
  exists (IncrementUsage s). split; [by apply lookup_insert_eq|done].
Qed.

(** *** The size of a file, while the pool works *)
Section sizes.
Context `{FT : !FileStat D, FL : !FileStatLaws D}.

(** The file [f] holds [n] pages. *)
Definition size_is (f : string) (n : Z) (d : D) : Prop :=
  default 0 (file_size d (Filepath.Join root0 f)) = n * PageSize.

Definition all_clean (f : string) P : Prop := forall k, FileID k = f -> BufferPoolSpec.clean P k.

Lemma disk_moves_size W f n d d' :
  Filepath.simple_name f -> (forall k, W k -> good k -> FileID k = f -> PageID k < n) ->
  rtc (BufferPoolSpec.disk_step root0 Filepath.simple_name W) d d' -> size_is f n d -> size_is f n d'.
Proof.
  intros Hf HW. induction 1 as [|d1 d2 d3 Hst _ IH]; [done|]. intros Hs. apply IH. clear IH.
  destruct Hst as [id path Hid|k p Hw Hg Hv Hid]; unfold size_is in *.
  - by rewrite size_after_read.
  - unfold BufferPoolSpec.path_of. pose proof Hg as [Hfk Hk]. rewrite <- Hid in Hk.
    destruct (decide (FileID k = f)) as [E|E].
    + rewrite E. apply size_inside; try done. specialize (HW _ Hw Hg E). unfold PageSize. lia.
    + rewrite size_other; [done..|]. intros Ej. apply E. symmetry. by apply join_inj.
Qed.

Lemma evolves_all_clean X f P P' :
  evolves X P P' -> (forall k, X k -> FileID k <> f) -> all_clean f P -> all_clean f P'.
Proof.
  intros Hev HX Hc k Hk s b Hr. assert (Hx : ~ X k) by (intros Hx; by apply (HX k)).
  destruct (BufferPoolSpec.ev_kept _ _ _ _ _ Hev k s b Hx Hr) as [(s0 & b0 & H0 & _ & Hd)|[Hd _]]; [|done].
  destruct (bs_dirty s); [|done]. specialize (Hc k Hk s0 b0 H0). by rewrite Hd in Hc.
Qed.

Lemma evolves_size X f n P P' :
  Filepath.simple_name f -> evolves X P P' -> (forall k, X k -> FileID k <> f) ->
  all_clean f P -> size_is f n (disk P) -> size_is f n (disk P').
Proof.
  intros Hf Hev HX Hc. eapply disk_moves_size; [done| |apply Hev]. intros k Hw Hg Hk.
  destruct Hw as (s & b & Hr & Hd); [intros Hx; by apply (HX k)|]. rewrite (Hc k Hk s b Hr) in Hd. done.
Qed.
End sizes.
End store.
End PageStore.
