(* ===== verification/Json.v ===== *)
(** * Json: what the program uses of [encoding/json]

    The wire protocol is one JSON document per line.  [print] is the text that
    [json.Marshal] makes of a value (strings with HTML characters and control
    characters escaped, bytes that are not UTF-8 replaced); [parse] is the
    reading of [json.Unmarshal] before it looks at types: the whole text has to
    be one JSON value, nested at most [maxNestingDepth] deep.  Nothing here is
    code of the repository; [Protocol] builds on it.

    [parse_print]: reading what was written gives the value back, with its
    strings made valid.  [print_one_line]: no text has a line break or another
    control character, so that documents can be told apart by lines. *)

From S2P Require Import Prelude GoRuntime Utf8.
#[local] Open Scope Z_scope.

Module Json.

Inductive json : Type :=
  | JNull
  | JBool (b : bool)
  | JNumber (text : list byte)
  | JString (s : string)
  | JArray (vs : list json)
  | JObject (members : list (string * json)).

Definition quote : byte := Ascii.ascii_of_nat 34.
Definition eqc (c : byte) (b : byte) : bool := bool_decide (b = c).

(** ** Strings *)
Definition hex_digit (d : Z) : Z := if d <? 10 then 48 + d else 87 + d.
Definition hex_value (r : Z) : option Z :=
  if (48 <=? r) && (r <=? 57) then Some (r - 48)
  else if (97 <=? r) && (r <=? 102) then Some (r - 87)
  else if (65 <=? r) && (r <=? 70) then Some (r - 55)
  else None.

(** The characters that [Marshal] leaves as they are ([htmlSafeSet]). *)
Definition html_safe (r : Z) : bool :=
  (32 <=? r) && negb ((r =? 34) || (r =? 92) || (r =? 60) || (r =? 62) || (r =? 38)).

(** The runes written for one rune of a string; [None] is a byte that is not
    UTF-8. *)
Definition escape (o : option Z) : list Z :=
  match o with
  | None => [92; 117; 102; 102; 102; 100]
  | Some r =>
    if r <? 128 then
      if html_safe r then [r]
      else if (r =? 92) || (r =? 34) then [92; r]
      else if r =? 8 then [92; 98] else if r =? 12 then [92; 102] else if r =? 10 then [92; 110]
      else if r =? 13 then [92; 114] else if r =? 9 then [92; 116]
      else [92; 117; 48; 48; hex_digit (r / 16); hex_digit (r mod 16)]
    else if (r =? 0x2028) || (r =? 0x2029) then [92; 117; 50; 48; 50; hex_digit (r mod 16)]
    else [r]
  end.

Definition print_string (s : string) : list byte :=
  quote :: encode_runes (utf8_decode (bytes_of s) ≫= escape) ++ [quote].

(** The closing quote of a string: the text before it, and the rest.  Control
    characters and unknown escapes are errors. *)
Fixpoint scan_string (l : list byte) : option (list byte * list byte) :=
  match l with
  | [] => None
  | c :: l =>
    if eqc quote c then Some ([], l)
    else if u8 c =? 92 then
      match l with
      | [] => None
      | e :: l =>
        if bool_decide (u8 e ∈ [34; 92; 47; 98; 102; 110; 114; 116]) then
          '(raw, rest) ← scan_string l; Some (c :: e :: raw, rest)
        else if u8 e =? 117 then
          match l with
          | h1 :: h2 :: h3 :: h4 :: l =>
            if forallb (fun h => bool_decide (is_Some (hex_value (u8 h)))) [h1; h2; h3; h4] then
              '(raw, rest) ← scan_string l; Some (c :: e :: h1 :: h2 :: h3 :: h4 :: raw, rest)
            else None
          | _ => None
          end
        else None
      end
    else if u8 c <? 32 then None
    else '(raw, rest) ← scan_string l; Some (c :: raw, rest)
  end.

(** The rune of an escape with one letter. *)
Definition unescape (e : Z) : Z :=
  if e =? 98 then 8 else if e =? 102 then 12 else if e =? 110 then 10 else if e =? 114 then 13
  else if e =? 116 then 9 else e.

Definition hex4 (a b c d : Z) : Z :=
  let v x := default 0 (hex_value x) in v a * 4096 + v b * 256 + v c * 16 + v d.

Definition is_surrogate (r : Z) : bool := (0xD800 <=? r) && (r <? 0xE000).

(** [utf16.DecodeRune]. *)
Definition decode_surrogates (r1 r2 : Z) : Z :=
  if (0xD800 <=? r1) && (r1 <? 0xDC00) && (0xDC00 <=? r2) && (r2 <? 0xE000)
  then (r1 - 0xD800) * 1024 + (r2 - 0xDC00) + 0x10000 else rune_error.

(** [unquote] on the runes of a scanned string; the second half of a pair of
    surrogates is skipped by the count [skip]. *)
Fixpoint unquote_runes (skip : nat) (l : list Z) : list Z :=
  match l with
  | [] => []
  | r :: l1 =>
    match skip with
    | S skip => unquote_runes skip l1
    | O =>
      if r =? 92 then
        match l1 with
        | [] => []
        | e :: l2 =>
          if e =? 117 then
            match l2 with
            | a :: b :: c :: d :: l3 =>
              let rr := hex4 a b c d in
              if is_surrogate rr then
                match l3 with
                | r' :: u' :: a' :: b' :: c' :: d' :: _ =>
                  let dec := if (r' =? 92) && (u' =? 117) then decode_surrogates rr (hex4 a' b' c' d') else rune_error in
                  if dec =? rune_error then rune_error :: unquote_runes 5 l1 else dec :: unquote_runes 11 l1
                | _ => rune_error :: unquote_runes 5 l1
                end
              else rr :: unquote_runes 5 l1
            | _ => []
            end
          else unescape e :: unquote_runes 1 l1
        end
      else r :: unquote_runes 0 l1
    end
  end.

Definition unquote (raw : list byte) : string :=
  string_of_runes (unquote_runes 0 (default rune_error <$> utf8_decode raw)).

(** ** Numbers *)
Definition is_digit (c : byte) : bool := (48 <=? u8 c) && (u8 c <=? 57).

Fixpoint span_digits (l : list byte) : list byte * list byte :=
  match l with
  | [] => ([], [])
  | c :: l' => if is_digit c then let (ds, rest) := span_digits l' in (c :: ds, rest) else ([], l)
  end.

(** An optional part of a number that begins with one of [starts]: the part
    needs digits. *)
Definition scan_part (starts : list Z) (signed : bool) (l : list byte) : option (list byte * list byte) :=
  match l with
  | c :: l1 =>
    if bool_decide (u8 c ∈ starts) then
      let '(sign, l2) := match l1 with
        | s :: l2 => if signed && bool_decide (u8 s ∈ [43; 45]) then ([s], l2) else ([], l1)
        | [] => ([], l1)
        end in
      let (ds, rest) := span_digits l2 in
      match ds with [] => None | _ => Some (c :: sign ++ ds, rest) end
    else Some ([], l)
  | [] => Some ([], l)
  end.

Definition scan_number (l : list byte) : option (list byte * list byte) :=
  let '(sign, l) := match l with c :: l' => if u8 c =? 45 then ([c], l') else ([], l) | [] => ([], l) end in
  match l with
  | c :: l' =>
    if is_digit c then
      let '(int, l) := if u8 c =? 48 then ([c], l') else span_digits l in
      '(frac, l) ← scan_part [46] false l;
      '(exp, l) ← scan_part [69; 101] true l;
      Some (sign ++ int ++ frac ++ exp, l)
    else None
  | [] => None
  end.

(** ** Values *)
Definition maxNestingDepth : nat := Z.to_nat 10000.

Definition is_space (c : byte) : bool := bool_decide (u8 c ∈ [32; 9; 10; 13]).

Fixpoint skip_ws (l : list byte) : list byte :=
  match l with
  | c :: l' => if is_space c then skip_ws l' else l
  | [] => []
  end.

(** The literal at the beginning of the text. *)
Fixpoint after_prefix (p l : list byte) : option (list byte) :=
  match p, l with
  | [], _ => Some l
  | a :: p, b :: l => if eqc a b then after_prefix p l else None
  | _, [] => None
  end.

Fixpoint parse_value (fuel depth : nat) (l : list byte) {struct fuel} : option (json * list byte) :=
  match fuel with
  | O => None
  | S fuel =>
    match skip_ws l with
    | [] => None
    | c :: l1 =>
      if eqc quote c then '(raw, rest) ← scan_string l1; Some (JString (unquote raw), rest)
      else if eqc "{" c then
        if (maxNestingDepth <=? depth)%nat then None
        else match skip_ws l1 with
             | c2 :: l2 => if eqc "}" c2 then Some (JObject [], l2)
                           else '(ms, rest) ← parse_members fuel (S depth) (c2 :: l2); Some (JObject ms, rest)
             | [] => None
             end
      else if eqc "[" c then
        if (maxNestingDepth <=? depth)%nat then None
        else match skip_ws l1 with
             | c2 :: l2 => if eqc "]" c2 then Some (JArray [], l2)
                           else '(vs, rest) ← parse_elements fuel (S depth) (c2 :: l2); Some (JArray vs, rest)
             | [] => None
             end
      else if eqc "t" c then rest ← after_prefix (bytes_of "rue") l1; Some (JBool true, rest)
      else if eqc "f" c then rest ← after_prefix (bytes_of "alse") l1; Some (JBool false, rest)
      else if eqc "n" c then rest ← after_prefix (bytes_of "ull") l1; Some (JNull, rest)
      else '(text, rest) ← scan_number (c :: l1); Some (JNumber text, rest)
    end
  end
with parse_members (fuel depth : nat) (l : list byte) {struct fuel} : option (list (string * json) * list byte) :=
  match fuel with
  | O => None
  | S fuel =>
    match skip_ws l with
    | c :: l1 =>
      if eqc quote c then
        '(raw, l2) ← scan_string l1;
        match skip_ws l2 with
        | c2 :: l3 =>
          if eqc ":" c2 then
            '(v, l4) ← parse_value fuel depth l3;
            match skip_ws l4 with
            | c3 :: l5 =>
              if eqc "," c3 then '(ms, rest) ← parse_members fuel depth l5; Some ((unquote raw, v) :: ms, rest)
              else if eqc "}" c3 then Some ([(unquote raw, v)], l5)
              else None
            | [] => None
            end
          else None
        | [] => None
        end
      else None
    | [] => None
    end
  end
with parse_elements (fuel depth : nat) (l : list byte) {struct fuel} : option (list json * list byte) :=
  match fuel with
  | O => None
  | S fuel =>
    '(v, l1) ← parse_value fuel depth l;
    match skip_ws l1 with
    | c :: l2 =>
      if eqc "," c then '(vs, rest) ← parse_elements fuel depth l2; Some (v :: vs, rest)
      else if eqc "]" c then Some ([v], l2)
      else None
    | [] => None
    end
  end.

(** [None] is a syntax error. *)
Definition parse (l : list byte) : option json :=
  '(v, rest) ← parse_value (S (2 * length l)) 0 l;
  match skip_ws rest with [] => Some v | _ => None end.

(** ** Writing *)
Fixpoint separated (ps : list (list byte)) : list byte :=
  match ps with
  | [] => []
  | [p] => p
  | p :: ps => p ++ ","%char :: separated ps
  end.

Fixpoint print (v : json) : list byte :=
  match v with
  | JNull => bytes_of "null"
  | JBool b => bytes_of (if b then "true" else "false")
  | JNumber text => text
  | JString s => print_string s
  | JArray vs => "["%char :: separated (map print vs) ++ ["]"%char]
  | JObject ms => "{"%char :: separated (map (fun m => print_string m.1 ++ ":"%char :: print m.2) ms) ++ ["}"%char]
  end.

(** A string as it arrives: every byte that is not UTF-8 is U+FFFD. *)
Definition sanitize (s : string) : string := string_of_runes (runes_of s).

(** ** Strings, written and read *)
Lemma hex_value_digit d : 0 <= d < 16 -> hex_value (hex_digit d) = Some d.
Proof.
  intros Hd. unfold hex_digit, hex_value. destruct (Z.ltb_spec d 10).
  - rewrite (proj2 (Z.leb_le 48 _)), (proj2 (Z.leb_le _ 57)) by lia. cbn. f_equal. lia.
  - rewrite (proj2 (Z.leb_gt _ 57)), andb_false_r by lia.
    rewrite (proj2 (Z.leb_le 97 _)), (proj2 (Z.leb_le _ 102)) by lia. cbn. f_equal. lia.
Qed.

Lemma hex_digit_range d : 0 <= d < 16 -> 48 <= hex_digit d < 128.
Proof. intros Hd. unfold hex_digit. destruct (Z.ltb_spec d 10); lia. Qed.

(** The runes of a string: valid, or a byte that is none. *)
Definition rune_ok (o : option Z) : Prop := match o with Some r => valid_rune r | None => True end.

Lemma runes_ok l : Forall rune_ok (utf8_decode l).
Proof. apply Forall_forall. intros [r|] Hr; [|done]. by apply (utf8_decode_valid_rune l). Qed.

(** The cases of [escape]. *)
Inductive escaped : option Z -> list Z -> Prop :=
  | esc_bad : escaped None [92; 117; 102; 102; 102; 100]
  | esc_safe r : 32 <= r < 128 -> r <> 34 -> r <> 92 -> escaped (Some r) [r]
  | esc_letter r e : e ∈ [34; 92; 98; 102; 110; 114; 116] -> unescape e = r -> 0 <= r < 128 -> escaped (Some r) [92; e]
  | esc_low r : 0 <= r < 128 -> escaped (Some r) [92; 117; 48; 48; hex_digit (r / 16); hex_digit (r mod 16)]
  | esc_separator r : r = 0x2028 \/ r = 0x2029 -> escaped (Some r) [92; 117; 50; 48; 50; hex_digit (r mod 16)]
  | esc_high r : valid_rune r -> 128 <= r -> escaped (Some r) [r].

Lemma escape_cases o : rune_ok o -> escaped o (escape o).
Proof.
  destruct o as [r|]; cbn; intros Hr; [|constructor]. destruct (Z.ltb_spec r 128).
  - assert (0 <= r) by (destruct Hr; lia). unfold html_safe. destruct (Z.leb_spec 32 r).
    + destruct (Z.eqb_spec r 34) as [->|]; [apply (esc_letter 34 34); [set_solver|done|lia]|].
      destruct (Z.eqb_spec r 92) as [->|]; [apply (esc_letter 92 92); [set_solver|done|lia]|]. cbn [orb].
      destruct (Z.eqb_spec r 60) as [->|]; [by apply esc_low|]. destruct (Z.eqb_spec r 62) as [->|]; [by apply esc_low|].
      destruct (Z.eqb_spec r 38) as [->|]; [by apply esc_low|]. by constructor.
    + cbn [andb]. destruct (Z.eqb_spec r 92); [lia|]. destruct (Z.eqb_spec r 34); [lia|]. cbn [orb].
      destruct (Z.eqb_spec r 8) as [->|]; [apply (esc_letter 8 98); [set_solver|done|lia]|].
      destruct (Z.eqb_spec r 12) as [->|]; [apply (esc_letter 12 102); [set_solver|done|lia]|].
      destruct (Z.eqb_spec r 10) as [->|]; [apply (esc_letter 10 110); [set_solver|done|lia]|].
      destruct (Z.eqb_spec r 13) as [->|]; [apply (esc_letter 13 114); [set_solver|done|lia]|].
      destruct (Z.eqb_spec r 9) as [->|]; [apply (esc_letter 9 116); [set_solver|done|lia]|]. by apply esc_low.
  - destruct (Z.eqb_spec r 0x2028); [by apply esc_separator; left|]. destruct (Z.eqb_spec r 0x2029); [by apply esc_separator; right|].
    by constructor.
Qed.

Lemma low_digits r : 0 <= r < 128 -> 0 <= r / 16 < 16 /\ 0 <= r mod 16 < 16 /\ r / 16 * 16 + r mod 16 = r.
Proof. intros Hr. pose proof (Z.mod_pos_bound r 16). pose proof (Z.div_mod r 16). lia. Qed.

Lemma escaped_valid o l : escaped o l -> Forall valid_rune l.
Proof.
  intros [|r H ? ?|r e He _ _|r H|r H|r H ?].
  - repeat (constructor; [unfold valid_rune; lia|]). constructor.
  - constructor; [unfold valid_rune; lia|constructor].
  - assert (0 <= e < 128) by (repeat (apply elem_of_cons in He as [->|He]; [lia|]); by apply not_elem_of_nil in He).
    repeat (constructor; [unfold valid_rune; lia|]). constructor.
  - destruct (low_digits r H) as (H1 & H2 & _). apply hex_digit_range in H1, H2.
    repeat (constructor; [unfold valid_rune; lia|]). constructor.
  - pose proof (hex_digit_range (r mod 16) ltac:(pose proof (Z.mod_pos_bound r 16); lia)).
    repeat (constructor; [unfold valid_rune; lia|]). constructor.
  - by constructor.
Qed.

Lemma unquote_escaped o l t : escaped o l -> unquote_runes 0 (l ++ t) = default rune_error o :: unquote_runes 0 t.
Proof.
  intros [|r ? ? ?|r e He <- Hr|r Hr|r Hr|r ? ?]; cbn [app default].
  - done.
  - cbn [unquote_runes]. by rewrite (proj2 (Z.eqb_neq r 92)).
  - assert (He' : e <> 117) by (intros ->; set_solver). cbn [unquote_runes]. rewrite Z.eqb_refl. by rewrite (proj2 (Z.eqb_neq e 117)).
  - destruct (low_digits r Hr) as (H1 & H2 & H3).
    assert (E : hex4 48 48 (hex_digit (r / 16)) (hex_digit (r mod 16)) = r) by (unfold hex4; rewrite !hex_value_digit by done; cbn; lia).
    cbn [unquote_runes]. rewrite Z.eqb_refl, E. unfold is_surrogate. by rewrite (proj2 (Z.leb_gt _ _)) by lia.
  - by destruct Hr as [->| ->].
  - cbn [unquote_runes]. by rewrite (proj2 (Z.eqb_neq r 92)) by lia.
Qed.

Lemma unquote_escape os : Forall rune_ok os -> unquote_runes 0 (os ≫= escape) = default rune_error <$> os.
Proof.
  induction 1 as [|o os Ho _ IH]; [done|]. cbn [mbind list_bind fmap list_fmap].
  rewrite (unquote_escaped o) by by apply escape_cases. f_equal. exact IH.
Qed.

Lemma escape_valid os : Forall rune_ok os -> Forall valid_rune (os ≫= escape).
Proof.
  induction 1 as [|o os Ho _ IH]; [constructor|]. cbn [mbind list_bind]. apply Forall_app. split; [|done].
  eapply escaped_valid. by apply escape_cases.
Qed.

Lemma encode_runes_app a b : encode_runes (a ++ b) = encode_runes a ++ encode_runes b.
Proof. unfold encode_runes. apply bind_app. Qed.

Lemma encode_ascii r : 0 <= r < 128 -> encode_rune r = [byte_of r].
Proof. intros Hr. unfold encode_rune. rewrite decide_True by (left; lia). by rewrite (proj2 (Z.ltb_lt _ _)) by lia. Qed.

Lemma encode_high r : valid_rune r -> 128 <= r -> Forall (fun c => 128 <= u8 c) (encode_rune r).
Proof.
  intros Hr Hlo. unfold encode_rune. rewrite decide_True by done. rewrite (proj2 (Z.ltb_ge _ _)) by lia.
  assert (Hm : forall z, 128 <= u8 (byte_of (128 + z mod 64))).
  { intros z. pose proof (Z.mod_pos_bound z 64). rewrite u8_small by lia. lia. }
  assert (Hr' : r <= 0x10FFFF) by (destruct Hr; lia).
  pose proof (Z.div_mod r 64). pose proof (Z.mod_pos_bound r 64). pose proof (Z.div_mod r 4096). pose proof (Z.mod_pos_bound r 4096).
  pose proof (Z.div_mod r 262144). pose proof (Z.mod_pos_bound r 262144).
  destruct (Z.ltb_spec r 0x800); [|destruct (Z.ltb_spec r 0x10000)]; (constructor; [rewrite u8_small; lia|]);
    repeat (constructor; [apply Hm|]); constructor.
Qed.

(** Bytes that [scan_string] takes as they are. *)
Lemma scan_plain bs t : Forall (fun c => 32 <= u8 c /\ u8 c <> 34 /\ u8 c <> 92) bs ->
  scan_string (bs ++ t) = ('(raw, rest) ← scan_string t; Some (bs ++ raw, rest)).
Proof.
  induction 1 as [|c bs (H1 & H2 & H3) _ IH]; cbn [app].
  - by destruct (scan_string t) as [[raw rest]|].
  - cbn [scan_string]. unfold eqc at 1. rewrite bool_decide_eq_false_2 by (intros ->; by apply H2).
    rewrite (proj2 (Z.eqb_neq _ _) H3). rewrite (proj2 (Z.ltb_ge _ _)) by lia. rewrite IH. by destruct (scan_string t) as [[raw rest]|].
Qed.

Lemma scan_quote t : scan_string (quote :: t) = Some ([], t).
Proof. done. Qed.

Lemma scan_escape_letter e t : u8 e ∈ [34; 92; 47; 98; 102; 110; 114; 116] ->
  scan_string (byte_of 92 :: e :: t) = ('(raw, rest) ← scan_string t; Some (byte_of 92 :: e :: raw, rest)).
Proof. intros He. cbn [scan_string]. by rewrite bool_decide_eq_true_2 with (P := u8 e ∈ _). Qed.

Lemma scan_escape_code a b c d t : Forall (fun h => is_Some (hex_value (u8 h))) [a; b; c; d] ->
  scan_string (byte_of 92 :: byte_of 117 :: a :: b :: c :: d :: t) =
  ('(raw, rest) ← scan_string t; Some (byte_of 92 :: byte_of 117 :: a :: b :: c :: d :: raw, rest)).
Proof.
  intros Hh. cbn [scan_string].
  assert (E : forallb (fun h => bool_decide (is_Some (hex_value (u8 h)))) [a; b; c; d] = true).
  { apply forallb_forall. intros h Hin. apply bool_decide_eq_true_2. rewrite Forall_forall in Hh. by apply Hh, list_elem_of_In. }
  by rewrite E.
Qed.

Lemma u8_hex d : 0 <= d < 16 -> is_Some (hex_value (u8 (byte_of (hex_digit d)))).
Proof. intros Hd. pose proof (hex_digit_range d Hd). rewrite u8_small by lia. rewrite hex_value_digit by done. eauto. Qed.

Lemma scan_escaped o l t : escaped o l ->
  scan_string (encode_runes l ++ t) = ('(raw, rest) ← scan_string t; Some (encode_runes l ++ raw, rest)).
Proof.
  intros [|r Hr H1 H2|r e He _ _|r Hr|r Hr|r Hr Hlo].
  - change (encode_runes [92; 117; 102; 102; 102; 100]) with (map byte_of [92; 117; 102; 102; 102; 100]). apply scan_escape_code.
    repeat (constructor; [by eexists|]). constructor.
  - unfold encode_runes. cbn [mbind list_bind]. rewrite app_nil_r, encode_ascii by lia. apply scan_plain.
    constructor; [rewrite u8_small by lia; lia|constructor].
  - assert (0 <= e < 128) by (repeat (apply elem_of_cons in He as [->|He]; [lia|]); by apply not_elem_of_nil in He).
    unfold encode_runes. cbn [mbind list_bind]. rewrite app_nil_r, !encode_ascii by lia. cbn [app]. apply scan_escape_letter.
    rewrite u8_small by lia. set_solver.
  - destruct (low_digits r Hr) as (H1 & H2 & _). pose proof (hex_digit_range _ H1). pose proof (hex_digit_range _ H2).
    unfold encode_runes. cbn [mbind list_bind]. rewrite app_nil_r, !encode_ascii by lia. cbn [app]. apply scan_escape_code.
    repeat (constructor; [first [by eexists|by apply u8_hex]|]). constructor.
  - assert (Hm : 0 <= r mod 16 < 16) by (pose proof (Z.mod_pos_bound r 16); lia). pose proof (hex_digit_range _ Hm).
    unfold encode_runes. cbn [mbind list_bind]. rewrite app_nil_r, !encode_ascii by lia. cbn [app]. apply scan_escape_code.
    repeat (constructor; [first [by eexists|by apply u8_hex]|]). constructor.
  - unfold encode_runes. cbn [mbind list_bind]. rewrite app_nil_r. apply scan_plain.
    eapply Forall_impl; [by apply encode_high|]. cbn. intros c Hc. lia.
Qed.

Lemma scan_escape os t : Forall rune_ok os ->
  scan_string (encode_runes (os ≫= escape) ++ t) = ('(raw, rest) ← scan_string t; Some (encode_runes (os ≫= escape) ++ raw, rest)).
Proof.
  induction 1 as [|o os Ho _ IH].
  { change (scan_string t = ('(raw, rest) ← scan_string t; Some (raw, rest))). by destruct (scan_string t) as [[raw rest]|]. }
  change ((o :: os) ≫= escape) with (escape o ++ (os ≫= escape)).
  rewrite encode_runes_app, <- app_assoc, (scan_escaped o) by by apply escape_cases. rewrite IH.
  destruct (scan_string t) as [[raw rest]|]; [|done]. cbn. by rewrite app_assoc.
Qed.

(** The text between the quotes. *)
Definition quoted (s : string) : list byte := encode_runes (utf8_decode (bytes_of s) ≫= escape).

Lemma scan_quoted s t : scan_string (quoted s ++ quote :: t) = Some (quoted s, t).
Proof. unfold quoted. rewrite scan_escape by apply runes_ok. rewrite scan_quote. cbn. by rewrite app_nil_r. Qed.

Lemma unquote_quoted s : unquote (quoted s) = sanitize s.
Proof.
  unfold unquote, quoted, sanitize. f_equal.
  rewrite <- (app_nil_r (encode_runes _)), decode_encode_runes by apply escape_valid, runes_ok. cbn [utf8_decode]. rewrite app_nil_r.
  rewrite <- list_fmap_compose. change (default rune_error ∘ Some) with (fun r : Z => r). rewrite list_fmap_id.
  by apply unquote_escape, runes_ok.
Qed.

(** No line break, and no other control character. *)
Definition printable (l : list byte) : Prop := Forall (fun c => 32 <= u8 c) l.

Lemma escaped_printable o l : escaped o l -> printable (encode_runes l).
Proof.
  intros He. assert (Hr : Forall (fun r => 32 <= r) l /\ Forall valid_rune l).
  { split; [|by eapply escaped_valid]. destruct He as [|r Hr H1 H2|r e He _ _|r Hr|r Hr|r Hr Hlo].
    - repeat (constructor; [lia|]). constructor.
    - repeat (constructor; [lia|]). constructor.
    - repeat (apply elem_of_cons in He as [->|He]; [repeat (constructor; [lia|]); constructor|]). by apply not_elem_of_nil in He.
    - destruct (low_digits r Hr) as (H1 & H2 & _). apply hex_digit_range in H1, H2. repeat (constructor; [lia|]). constructor.
    - pose proof (hex_digit_range (r mod 16) ltac:(pose proof (Z.mod_pos_bound r 16); lia)). repeat (constructor; [lia|]). constructor.
    - repeat (constructor; [lia|]). constructor. }
  destruct Hr as [Hlo Hv]. clear He. unfold printable, encode_runes. induction Hv as [|r l Hr _ IH]; [constructor|].
  apply Forall_cons in Hlo as [Hr32 Hlo]. cbn [mbind list_bind]. apply Forall_app. split; [|by apply IH].
  destruct (Z.lt_ge_cases r 128).
  - rewrite encode_ascii by lia. constructor; [rewrite u8_small by lia; lia|constructor].
  - eapply Forall_impl; [by apply encode_high|]. cbn. intros c Hc. lia.
Qed.

Lemma quoted_printable s : printable (quoted s).
Proof.
  unfold quoted. pose proof (runes_ok (bytes_of s)) as Hos. induction Hos as [|o os Ho _ IH]; [constructor|].
  cbn [mbind list_bind]. rewrite encode_runes_app. apply Forall_app. split; [|done]. eapply escaped_printable. by apply escape_cases.
Qed.

(** ** Numbers *)

(** The value of decimal digits. *)
Definition digits_value (ds : list byte) : Z := fold_left (fun acc c => acc * 10 + (u8 c - 48)) ds 0.

Lemma digits_value_app a b : digits_value (a ++ b) = digits_value a * 10 ^ Z.of_nat (length b) + digits_value b.
Proof.
  unfold digits_value. rewrite fold_left_app. generalize (fold_left (fun acc c => acc * 10 + (u8 c - 48)) a 0) as x. intros x.
  assert (H : forall l y, fold_left (fun acc c => acc * 10 + (u8 c - 48)) l y =
    y * 10 ^ Z.of_nat (length l) + fold_left (fun acc c => acc * 10 + (u8 c - 48)) l 0).
  { intros l. induction l as [|c l IH]; intros y; [cbn; lia|]. cbn [fold_left length]. rewrite IH, (IH (0 * 10 + _)).
    rewrite Nat2Z.inj_succ, Z.pow_succ_r by lia. lia. }
  apply H.
Qed.

Lemma bytes_of_cons c s : bytes_of (String c s) = c :: bytes_of s.
Proof. done. Qed.

Lemma pretty_char_digit d : (d < 10)%N -> u8 (pretty_N_char d) = 48 + Z.of_N d.
Proof. intros Hd. destruct d as [|p]; [done|]. do 4 (destruct p as [p|p|]; try done; try lia). Qed.

(** The digits of a positive number. *)
Lemma pretty_digits x s : (0 < x)%N -> exists ds, bytes_of (pretty_N_go x s) = ds ++ bytes_of s /\
  Forall (fun c => is_digit c = true) ds /\ digits_value ds = Z.of_N x /\ exists c ds', ds = c :: ds' /\ u8 c <> 48.
Proof.
  revert s. induction (N.lt_wf_0 x) as [x _ IH]. intros s Hx. rewrite pretty_N_go_step by done.
  assert (Hm : (x mod 10 < 10)%N) by (apply N.mod_lt; lia). pose proof (N.div_mod x 10 ltac:(lia)) as Hdm.
  set (m := (x mod 10)%N) in *. set (c := pretty_N_char m). assert (Hc : u8 c = 48 + Z.of_N m) by by apply pretty_char_digit.
  assert (Hdig : is_digit c = true) by (unfold is_digit; rewrite Hc; apply andb_true_intro; split; apply Z.leb_le; lia).
  destruct (N.eq_dec (x / 10)%N 0%N) as [E|E].
  - rewrite E, pretty_N_go_0. exists [c]. split; [done|]. split; [by constructor|]. split; [unfold digits_value; cbn [fold_left]; lia|]. exists c, []. split; [done|]. lia.
  - destruct (IH (x / 10)%N ltac:(apply N.div_lt; lia) (String c s) ltac:(lia)) as (ds & H1 & H2 & H3 & c0 & ds' & -> & H5).
    exists ((c0 :: ds') ++ [c]). rewrite H1, bytes_of_cons, <- app_assoc. split; [done|]. split; [apply Forall_app; by split; [|constructor]|].
    split; [|by eexists c0, _]. rewrite digits_value_app, H3. unfold digits_value. cbn [fold_left length]. change (10 ^ Z.of_nat 1) with 10. lia.
Qed.

Lemma pretty_number (z : Z) : exists sign ds, bytes_of (pretty z) = sign ++ ds /\ Forall (fun c => is_digit c = true) ds /\
  (sign = [] /\ digits_value ds = z \/ sign = [byte_of 45] /\ digits_value ds = - z) /\
  (ds = [byte_of 48] \/ exists c ds', ds = c :: ds' /\ u8 c <> 48).
Proof.
  assert (Hpos : forall p, exists ds, bytes_of (pretty (N.pos p)) = ds /\ Forall (fun c => is_digit c = true) ds /\
    digits_value ds = Z.pos p /\ exists c ds', ds = c :: ds' /\ u8 c <> 48).
  { intros p. destruct (pretty_digits (N.pos p) "" ltac:(lia)) as (ds & H1 & H2 & H3 & H4). exists ds. rewrite app_nil_r in H1. by split_and!. }
  destruct z as [|p|p].
  - exists [], [byte_of 48]. split; [done|]. split; [by repeat constructor|]. split; [by left|by left].
  - destruct (Hpos p) as (ds & H1 & H2 & H3 & H4). exists [], ds. split; [done|]. split; [done|]. split; [by left|by right].
  - destruct (Hpos p) as (ds & H1 & H2 & H3 & H4). exists [byte_of 45], ds. split; [by rewrite <- H1|]. split; [done|]. split; [by right|by right].
Qed.

(** What may follow a value inside a document. *)
Definition delimited (rest : list byte) : Prop :=
  match rest with c :: _ => u8 c ∈ [32; 9; 10; 13; 44; 58; 93; 125] | [] => True end.

Lemma delimited_head c rest : delimited (c :: rest) ->
  is_digit c = false /\ u8 c <> 46 /\ u8 c <> 69 /\ u8 c <> 101.
Proof.
  intros Hc. cbn in Hc. unfold is_digit. repeat (apply elem_of_cons in Hc as [->|Hc]; [by split_and!|]). by apply not_elem_of_nil in Hc.
Qed.

Lemma span_digits_app ds rest : Forall (fun c => is_digit c = true) ds -> delimited rest -> span_digits (ds ++ rest) = (ds, rest).
Proof.
  induction 1 as [|c ds Hc _ IH]; intros Hr; cbn [app].
  - destruct rest as [|c rest]; [done|]. cbn. by rewrite (proj1 (delimited_head c rest Hr)).
  - cbn [span_digits]. by rewrite Hc, IH.
Qed.

Lemma scan_part_none starts sg rest : delimited rest -> (forall c, u8 c ∈ starts -> u8 c = 46 \/ u8 c = 69 \/ u8 c = 101) ->
  scan_part starts sg rest = Some ([], rest).
Proof.
  intros Hr Hs. destruct rest as [|c rest]; [done|]. cbn [scan_part]. apply delimited_head in Hr as (_ & H1 & H2 & H3).
  rewrite bool_decide_eq_false_2; [done|]. intros Hc. destruct (Hs c Hc) as [|[|]]; congruence.
Qed.

Lemma scan_number_pretty (z : Z) rest : delimited rest -> scan_number (bytes_of (pretty z) ++ rest) = Some (bytes_of (pretty z), rest).
Proof.
  intros Hr. destruct (pretty_number z) as (sign & ds & E & Hds & Hsign & Hhead). rewrite E. unfold scan_number.
  assert (Hnz : forall c ds', ds = c :: ds' -> is_digit c = true /\ u8 c <> 45).
  { intros c ds' ->. apply Forall_cons in Hds as [Hc _]. split; [done|]. intros H. unfold is_digit in Hc. by rewrite H in Hc. }
  assert (Hsplit : (match (sign ++ ds) ++ rest with c :: l' => if u8 c =? 45 then ([c], l') else ([], (sign ++ ds) ++ rest) | [] => ([], (sign ++ ds) ++ rest) end) = (sign, ds ++ rest)).
  { destruct Hsign as [[-> _]|[-> _]]; [|done]. cbn [app]. destruct ds as [|c ds']; [by destruct Hhead as [?|(? & ? & ? & ?)]|].
    destruct (Hnz c ds' eq_refl) as [_ Hc]. cbn [app]. by rewrite (proj2 (Z.eqb_neq _ _) Hc). }
  rewrite Hsplit. cbn beta iota. destruct ds as [|c ds']; [by destruct Hhead as [?|(? & ? & ? & ?)]|].
  destruct (Hnz c ds' eq_refl) as [Hc _]. cbn [app]. rewrite Hc.
  assert (Hint : (if u8 c =? 48 then ([c], ds' ++ rest) else span_digits (c :: ds' ++ rest)) = (c :: ds', rest)).
  { destruct (Z.eqb_spec (u8 c) 48) as [H48|H48].
    - destruct Hhead as [[= -> ->]|(c0 & ds0 & [= -> ->] & Hne)]; [done|congruence].
    - exact (span_digits_app (c :: ds') rest Hds Hr). }
  rewrite Hint. cbn beta iota. rewrite (scan_part_none [46] false) by (done || set_solver). cbn [mbind option_bind].
  rewrite (scan_part_none [69; 101] true) by (done || set_solver). cbn [mbind option_bind app]. by rewrite app_nil_r.
Qed.

(** ** Values, written and read *)

(** Induction on a value and the values in it. *)
Fixpoint json_rect' (P : json -> Prop) (Hn : P JNull) (Hb : forall b, P (JBool b)) (Hi : forall t, P (JNumber t))
    (Hs : forall s, P (JString s)) (Ha : forall vs, Forall P vs -> P (JArray vs))
    (Ho : forall ms, Forall (fun m : string * json => P m.2) ms -> P (JObject ms)) (v : json) {struct v} : P v :=
  let rec := json_rect' P Hn Hb Hi Hs Ha Ho in
  match v with
  | JNull => Hn | JBool b => Hb b | JNumber t => Hi t | JString s => Hs s
  | JArray vs => Ha vs ((fix all vs := match vs return Forall P vs with
      | [] => Forall_nil_2 P | v :: vs => Forall_cons_2 P v vs (rec v) (all vs) end) vs)
  | JObject ms => Ho ms ((fix all ms := match ms return Forall (fun m : string * json => P m.2) ms with
      | [] => Forall_nil_2 _ | m :: ms => Forall_cons_2 (fun m : string * json => P m.2) m ms (rec m.2) (all ms) end) ms)
  end.

(** The value that arrives. *)
Fixpoint clean (v : json) : json :=
  match v with
  | JString s => JString (sanitize s)
  | JArray vs => JArray (map clean vs)
  | JObject ms => JObject (map (fun m => (sanitize m.1, clean m.2)) ms)
  | _ => v
  end.

Fixpoint height (v : json) : nat :=
  match v with
  | JArray vs => S (max_list (map height vs))
  | JObject ms => S (max_list (map (fun m => height m.2) ms))
  | _ => 0
  end.

(** Numbers are those of integers. *)
Fixpoint numbers_ok (v : json) : Prop :=
  match v with
  | JNumber t => exists z : Z, t = bytes_of (pretty z)
  | JArray vs => fold_right (fun v => and (numbers_ok v)) True vs
  | JObject ms => fold_right (fun m : string * json => and (numbers_ok m.2)) True ms
  | _ => True
  end.

Definition reads_back (v : json) : Prop :=
  numbers_ok v -> forall n d rest, (length (print v) < n)%nat -> (d + height v <= maxNestingDepth)%nat -> delimited rest ->
    parse_value n d (print v ++ rest) = Some (clean v, rest).

(** The first character of a value. *)
Lemma print_head v : numbers_ok v -> exists c l, print v = c :: l /\ is_space c = false /\ eqc "]" c = false /\ eqc "}" c = false.
Proof.
  destruct v as [|[]|t|s|vs|ms]; cbn [print numbers_ok]; intros Hn; try (by eexists _, _; split_and!).
  destruct Hn as [z ->]. destruct (pretty_number z) as (sign & ds & E & Hds & Hs & Hh). rewrite E.
  destruct Hs as [[-> _]|[-> _]]; [|by eexists _, _; split_and!]. destruct Hh as [->|(c & ds' & -> & _)]; [by eexists _, _; split_and!|].
  apply Forall_cons in Hds as [Hc _]. exists c, ds'. split; [done|]. unfold is_digit in Hc. apply andb_true_iff in Hc as [H1%Z.leb_le H2%Z.leb_le].
  split_and!; apply bool_decide_eq_false_2; [|by intros ->..].
  intros Hin. repeat (apply elem_of_cons in Hin as [Hin|Hin]; [lia|]). by apply not_elem_of_nil in Hin.
Qed.

Lemma skip_print v rest : numbers_ok v -> skip_ws (print v ++ rest) = print v ++ rest.
Proof. intros Hn. destruct (print_head v Hn) as (c & l & -> & Hc & _). cbn. by rewrite Hc. Qed.

Lemma number_reads t : reads_back (JNumber t).
Proof.
  intros [z ->] n d rest Hlen _ Hr. destruct n as [|n]; [lia|]. cbn [parse_value print]. 
  assert (Hsk : skip_ws (bytes_of (pretty z) ++ rest) = bytes_of (pretty z) ++ rest) by (apply (skip_print (JNumber _)); by exists z).
  rewrite Hsk.
  pose proof (scan_number_pretty z rest Hr) as Hscan.
  destruct (pretty_number z) as (sign & ds & E & Hds & Hs & Hh). rewrite E in *.
  assert (Hc : exists c l, sign ++ ds = c :: l /\ (u8 c = 45 \/ 48 <= u8 c <= 57)).
  { destruct Hs as [[-> _]|[-> _]]; [|by eexists _, _; split; [|left]]. destruct Hh as [->|(c & ds' & -> & _)]; [by eexists _, _; split; [|right]|].
    apply Forall_cons in Hds as [Hc _]. exists c, ds'. split; [done|]. right. unfold is_digit in Hc. apply andb_true_iff in Hc as [?%Z.leb_le ?%Z.leb_le]. lia. }
  destruct Hc as (c & l & El & Hc). rewrite El in *. cbn [app] in *.
  assert (Hne : forall b, (u8 b < 45 \/ 57 < u8 b) -> eqc b c = false).
  { intros b Hb. apply bool_decide_eq_false_2. intros ->. lia. }
  rewrite !Hne by (first [left; vm_compute; reflexivity|right; vm_compute; reflexivity]). by rewrite Hscan.
Qed.

Lemma skip_char c rest : is_space c = false -> skip_ws (c :: rest) = c :: rest.
Proof. intros Hc. cbn. by rewrite Hc. Qed.

Lemma separated_cons p ps : ps <> [] -> separated (p :: ps) = p ++ ","%char :: separated ps.
Proof. by destruct ps. Qed.

Lemma max_list_le (l : list nat) x : x ∈ l -> (x <= max_list l)%nat.
Proof. induction l as [|y l IH]; intros Hx; [by apply not_elem_of_nil in Hx|]. apply elem_of_cons in Hx as [->|Hx]; cbn; [lia|]. apply IH in Hx. lia. Qed.

(** The elements of an array that is not empty, and the members of an object. *)
Lemma elements_read v vs : Forall reads_back (v :: vs) -> forall n d rest,
  numbers_ok (JArray (v :: vs)) -> (S (length (separated (map print (v :: vs)))) < n)%nat ->
  (d + max_list (map height (v :: vs)) <= maxNestingDepth)%nat ->
  parse_elements n d (separated (map print (v :: vs)) ++ "]"%char :: rest) = Some (map clean (v :: vs), rest).
Proof.
  revert v. induction vs as [|v2 vs IH]; intros v [Hv Hvs]%Forall_cons n d rest Hn Hlen Hd; (destruct n as [|n]; [lia|]);
    cbn [numbers_ok fold_right] in Hn; destruct Hn as [Hn1 Hn2].
  - cbn [map separated parse_elements] in Hlen |- *. cbn in Hd. rewrite Hv; [done|done|lia|lia|cbn; set_solver].
  - cbn [map] in Hlen |- *. rewrite separated_cons in Hlen |- * by done. rewrite <- app_assoc. cbn [app parse_elements].
    rewrite length_app in Hlen. cbn [length] in Hlen. rewrite Hv; [|done|lia|cbn in Hd; lia|cbn; set_solver]. cbn [mbind option_bind].
    rewrite skip_char by done. change (eqc "," ",") with true. cbn iota.
    assert (Hel := IH v2 Hvs n d rest Hn2). cbn [map] in Hel. rewrite Hel; [done|lia|cbn in Hd |- *; lia].
Qed.

Definition print_member (m : string * json) : list byte := print_string m.1 ++ ":"%char :: print m.2.

Lemma members_read m ms : Forall (fun m : string * json => reads_back m.2) (m :: ms) -> forall n d rest,
  numbers_ok (JObject (m :: ms)) -> (length (separated (map print_member (m :: ms))) < n)%nat ->
  (d + max_list (map (fun m : string * json => height m.2) (m :: ms)) <= maxNestingDepth)%nat ->
  parse_members n d (separated (map print_member (m :: ms)) ++ "}"%char :: rest) =
    Some (map (fun m : string * json => (sanitize m.1, clean m.2)) (m :: ms), rest).
Proof.
  assert (Hkey : forall (m : string * json) t, print_member m ++ t = quote :: quoted m.1 ++ quote :: ":"%char :: print m.2 ++ t).
  { intros [k v] t. unfold print_member, print_string. fold (quoted k). cbn [fst snd app]. by rewrite <- !app_assoc. }
  revert m. induction ms as [|m2 ms IH]; intros m [Hm Hms]%Forall_cons n d rest Hn Hlen Hd; (destruct n as [|n]; [lia|]);
    cbn [numbers_ok fold_right] in Hn; destruct Hn as [Hn1 Hn2].
  - cbn [map separated] in Hlen |- *. assert (Hl : (length (print m.2) < n)%nat).
    { unfold print_member in Hlen. rewrite length_app in Hlen. cbn [length] in Hlen. lia. }
    rewrite Hkey. cbn [parse_members]. rewrite skip_char by done. change (eqc quote quote) with true. cbn iota.
    rewrite scan_quoted. cbn [mbind option_bind]. rewrite skip_char by done. change (eqc ":" ":") with true. cbn iota.
    rewrite Hm; [|done|lia|cbn in Hd; lia|cbn; set_solver]. cbn [mbind option_bind]. rewrite skip_char by done.
    change (eqc "," "}") with false. change (eqc "}" "}") with true. cbn iota. by rewrite unquote_quoted.
  - cbn [map] in Hlen |- *. rewrite separated_cons in Hlen |- * by done. rewrite <- app_assoc, Hkey.
    rewrite length_app in Hlen. cbn [length] in Hlen. assert (Hl : (length (print m.2) < length (print_member m))%nat).
    { unfold print_member. rewrite length_app. cbn [length]. lia. }
    cbn [parse_members]. rewrite skip_char by done. change (eqc quote quote) with true. cbn iota.
    rewrite scan_quoted. cbn [mbind option_bind]. rewrite skip_char by done. change (eqc ":" ":") with true. cbn iota. cbn [app].
    rewrite Hm; [|done|lia|cbn in Hd; lia|cbn; set_solver]. cbn [mbind option_bind]. rewrite skip_char by done.
    change (eqc "," ",") with true. cbn iota. assert (Hel := IH m2 Hms n d rest Hn2). cbn [map] in Hel.
    rewrite Hel; [by rewrite unquote_quoted|lia|cbn in Hd |- *; lia].
Qed.

Lemma value_reads v : reads_back v.
Proof.
  induction v as [|[]|t|s|vs IH|ms IH] using json_rect'; intros Hn n d rest Hlen Hd Hr; (destruct n as [|n]; [lia|]).
  - done.
  - done.
  - done.
  - by apply number_reads.
  - cbn [print clean]. unfold print_string. fold (quoted s). cbn [app parse_value]. rewrite skip_char by done.
    change (eqc quote quote) with true. cbn iota. rewrite <- app_assoc. cbn [app]. rewrite scan_quoted. cbn. by rewrite unquote_quoted.
  - cbn [print] in Hlen |- *. cbn [height] in Hd. cbn [app parse_value]. rewrite skip_char by done.
    change (eqc quote "[") with false. change (eqc "{" "[") with false. change (eqc "[" "[") with true. cbn iota.
    rewrite (proj2 (Nat.leb_gt _ _)) by lia. destruct vs as [|v vs].
    { cbn. done. }
    rewrite <- app_assoc. cbn [length] in Hlen. rewrite length_app in Hlen. cbn [length] in Hlen.
    assert (Hel := elements_read v vs IH n (S d) rest Hn ltac:(lia) ltac:(lia)).
    destruct (print_head v (proj1 Hn)) as (c & l & E & Hc & Hb & _).
    assert (Es : exists l', separated (map print (v :: vs)) ++ "]"%char :: rest = c :: l').
    { destruct vs; cbn [map separated]; rewrite E; by eexists. }
    destruct Es as [l' El]. cbn [app]. rewrite El in *. rewrite skip_char by done. rewrite Hb. rewrite Hel. done.
  - cbn [print] in Hlen |- *. cbn [height] in Hd. cbn [app parse_value]. rewrite skip_char by done.
    change (eqc quote "{") with false. change (eqc "{" "{") with true. cbn iota.
    rewrite (proj2 (Nat.leb_gt _ _)) by lia. destruct ms as [|m ms].
    { cbn. done. }
    fold print_member in Hlen |- *. rewrite <- app_assoc. cbn [length] in Hlen. rewrite length_app in Hlen. cbn [length] in Hlen.
    assert (Hel := members_read m ms IH n (S d) rest Hn ltac:(lia) ltac:(lia)).
    assert (Es : exists l', separated (map print_member (m :: ms)) ++ "}"%char :: rest = quote :: l').
    { destruct ms; cbn [map separated]; unfold print_member, print_string; cbn [app]; by eexists. }
    destruct Es as [l' El]. cbn [app]. rewrite El in *. rewrite skip_char by done. change (eqc "}" quote) with false. cbn iota. rewrite Hel. done.
Qed.

(** Reading what was written, also with white space after it. *)
Lemma parse_print v space : numbers_ok v -> (height v <= maxNestingDepth)%nat -> Forall (fun c => is_space c = true) space ->
  parse (print v ++ space) = Some (clean v).
Proof.
  intros Hn Hh Hs. unfold parse.
  assert (Hd : delimited space).
  { destruct Hs as [|c l Hc _]; [done|]. unfold is_space in Hc. apply bool_decide_eq_true_1 in Hc. cbn. set_solver. }
  rewrite (value_reads v Hn (S (2 * length (print v ++ space))) 0%nat space); [|rewrite length_app; lia|lia|done]. cbn [mbind option_bind].
  assert (E : skip_ws space = []).
  { clear Hd. induction Hs as [|c l Hc _ IH]; [done|]. cbn. by rewrite Hc. }
  by rewrite E.
Qed.

Lemma separated_printable ps : Forall printable ps -> printable (separated ps).
Proof.
  induction 1 as [|p ps Hp Hps IH]; [constructor|]. destruct ps as [|p' ps]; [done|]. rewrite separated_cons by done.
  apply Forall_app. split; [done|]. constructor; [by vm_compute|done].
Qed.

Lemma printable_string s : printable (print_string s).
Proof.
  unfold print_string. fold (quoted s). constructor; [by vm_compute|]. apply Forall_app. split; [apply quoted_printable|].
  constructor; [by vm_compute|constructor].
Qed.

Lemma print_one_line v : numbers_ok v -> printable (print v).
Proof.
  induction v as [|b|t|s|vs IH|ms IH] using json_rect'; cbn [print numbers_ok]; intros Hn.
  - repeat (constructor; [by vm_compute|]). constructor.
  - destruct b; repeat (constructor; [by vm_compute|]); constructor.
  - destruct Hn as [z ->]. destruct (pretty_number z) as (sign & ds & -> & Hds & Hs & _). apply Forall_app. split.
    + destruct Hs as [[-> _]|[-> _]]; repeat (constructor; [by vm_compute|]); constructor.
    + eapply Forall_impl; [exact Hds|]. cbn. intros c Hc. unfold is_digit in Hc. apply andb_true_iff in Hc as [?%Z.leb_le _]. lia.
  - apply printable_string.
  - constructor; [by vm_compute|]. apply Forall_app. split; [|by constructor; [vm_compute|]]. apply separated_printable.
    induction IH as [|v vs Hv _ IH']; cbn in Hn |- *; [constructor|]. destruct Hn as [Hn1 Hn2]. constructor; auto.
  - constructor; [by vm_compute|]. apply Forall_app. split; [|by constructor; [vm_compute|]]. apply separated_printable.
    induction IH as [|[k v] ms Hv _ IH']; cbn in Hn |- *; [constructor|]. destruct Hn as [Hn1 Hn2]. constructor; [|auto].
    change (printable (print_string k ++ ":"%char :: print v)). apply Forall_app. split; [apply printable_string|]. constructor; [by vm_compute|by apply Hv].
Qed.

(** ** The fuel of [parse] is enough *)
Lemma skip_ws_length l : (length (skip_ws l) <= length l)%nat.
Proof. induction l as [|c l IH]; cbn; [done|]. destruct (is_space c); cbn; lia. Qed.

Lemma scan_string_length l raw rest : scan_string l = Some (raw, rest) -> (length rest < length l)%nat.
Proof.
  revert raw rest. induction l as [l IH] using (induction_ltof1 _ (@length byte)). unfold ltof in IH. intros raw rest H.
  destruct l as [|c l]; [done|]. cbn [scan_string] in H. destruct (eqc quote c); [injection H as <- <-; cbn; lia|].
  destruct (u8 c =? 92).
  - destruct l as [|e l]; [done|]. case_bool_decide.
    + destruct (scan_string l) as [[raw1 r]|] eqn:E; [|done]. cbn in H. injection H as <- <-. apply IH in E; cbn in *; lia.
    + destruct (u8 e =? 117); [|done]. destruct l as [|h1 [|h2 [|h3 [|h4 l]]]]; try done. destruct (forallb _ _); [|done].
      destruct (scan_string l) as [[raw1 r]|] eqn:E; [|done]. cbn in H. injection H as <- <-. apply IH in E; cbn in *; lia.
  - destruct (u8 c <? 32); [done|]. destruct (scan_string l) as [[raw1 r]|] eqn:E; [|done]. cbn in H. injection H as <- <-.
    apply IH in E; cbn in *; lia.
Qed.

Lemma span_digits_length l : (length (span_digits l).2 <= length l)%nat.
Proof. induction l as [|c l IH]; cbn; [done|]. destruct (is_digit c); [|done]. destruct (span_digits l); cbn in *; lia. Qed.

Lemma scan_part_length starts sg l ds rest : scan_part starts sg l = Some (ds, rest) -> (length rest <= length l)%nat.
Proof.
  destruct l as [|c l1]; cbn [scan_part]; [by intros [= <- <-]|]. case_bool_decide; [|by intros [= <- <-]]. intros H1.
  destruct l1 as [|s l2]; cbn in H1; [done|]. destruct (sg && _).
  - pose proof (span_digits_length l2). destruct (span_digits l2) as [[|d ds'] r]; [done|]. injection H1 as <- <-. cbn in *. lia.
  - pose proof (span_digits_length (s :: l2)). destruct (span_digits (s :: l2)) as [[|d ds'] r]; cbn in H1; [done|].
    injection H1 as <- <-. cbn in *. lia.
Qed.

Lemma scan_number_length l text rest : scan_number l = Some (text, rest) -> (length rest < length l)%nat.
Proof.
  unfold scan_number. intros H.
  assert (Hs : exists sign l1, (match l with c :: l' => if u8 c =? 45 then ([c], l') else ([], l) | [] => ([], l) end) = (sign, l1) /\ (length l1 <= length l)%nat).
  { destruct l as [|c l']; [by exists [], []|]. destruct (u8 c =? 45); [exists [c], l'|exists [], (c :: l')]; (split; [done|]); cbn; lia. }
  destruct Hs as (sign & l1 & E & Hl1). rewrite E in H. destruct l1 as [|c l']; [done|]. destruct (is_digit c) eqn:Ed; [|done].
  assert (Hi : exists int l2, (if u8 c =? 48 then ([c], l') else span_digits (c :: l')) = (int, l2) /\ (length l2 <= length l')%nat).
  { destruct (u8 c =? 48); [by exists [c], l'|]. cbn. rewrite Ed. pose proof (span_digits_length l'). destruct (span_digits l') as [ds r]. by exists (c :: ds), r. }
  destruct Hi as (int & l2 & Ei & Hl2). rewrite Ei in H.
  destruct (scan_part [46] false l2) as [[frac l3]|] eqn:E3; [|done]. cbn in H.
  destruct (scan_part [69; 101] true l3) as [[exp l4]|] eqn:E4; [|done]. cbn in H. injection H as <- <-.
  apply scan_part_length in E3, E4. cbn in Hl1. lia.
Qed.

Lemma after_prefix_length p l rest : after_prefix p l = Some rest -> (length rest <= length l)%nat.
Proof.
  revert l. induction p as [|a p IH]; intros l; cbn; [by intros [= <-]|]. destruct l as [|b l]; [done|]. destruct (eqc a b); [|done].
  intros H%IH. cbn. lia.
Qed.

(** What the three parsers leave is shorter than what they got. *)
Definition shortens {A} (f : list byte -> option (A * list byte)) : Prop :=
  forall l a rest, f l = Some (a, rest) -> (length rest < length l)%nat.

(** Two parsers that agree on texts of which twice the length and [k] are
    below [n]. *)
Definition agree {A} (n k : nat) (f g : list byte -> option (A * list byte)) : Prop :=
  forall l, (2 * length l + k < n)%nat -> f l = g l.

Ltac bind_step H :=
  match type of H with
  | (_ ← ?x; _) = Some _ => let E := fresh "E" in destruct x as [[? ?]|] eqn:E; cbn [mbind option_bind] in H; [|discriminate H]
  | (match ?x with _ => _ end) = Some _ => let E := fresh "E" in destruct x eqn:E; try discriminate H
  end.

Lemma parse_shortens n : forall d, shortens (parse_value n d) /\ shortens (parse_members n d) /\ shortens (parse_elements n d).
Proof.
  induction n as [|n IH]; intros d; [by split_and!|]. destruct (IH d) as (IHv & IHm & IHe). destruct (IH (S d)) as (_ & IHm' & IHe'). split_and!.
  - intros l v rest H. cbn [parse_value] in H. pose proof (skip_ws_length l) as Hw. destruct (skip_ws l) as [|c l1]; [done|].
    cbn [length] in Hw. destruct (eqc quote c); [|destruct (eqc "{" c); [|destruct (eqc "[" c); [|destruct (eqc "t" c); [|destruct (eqc "f" c); [|destruct (eqc "n" c)]]]]].
    + bind_step H. injection H as <- <-. apply scan_string_length in E. lia.
    + pose proof (skip_ws_length l1) as Hw1. repeat bind_step H; injection H as <- <-; cbn [length] in *; [lia|].
      apply IHm' in E2. cbn [length] in *. lia.
    + pose proof (skip_ws_length l1) as Hw1. repeat bind_step H; injection H as <- <-; cbn [length] in *; [lia|].
      apply IHe' in E2. cbn [length] in *. lia.
    + destruct (after_prefix _ l1) eqn:E; [|done]. injection H as <- <-. apply after_prefix_length in E. lia.
    + destruct (after_prefix _ l1) eqn:E; [|done]. injection H as <- <-. apply after_prefix_length in E. lia.
    + destruct (after_prefix _ l1) eqn:E; [|done]. injection H as <- <-. apply after_prefix_length in E. lia.
    + bind_step H. injection H as <- <-. apply scan_number_length in E. cbn [length] in *. lia.
  - intros l ms rest H. cbn [parse_members] in H. pose proof (skip_ws_length l) as Hw. destruct (skip_ws l) as [|c l1]; [done|].
    cbn [length] in Hw. destruct (eqc quote c); [|done]. destruct (scan_string l1) as [[raw l2]|] eqn:E; cbn [mbind option_bind] in H; [|done].
    apply scan_string_length in E. pose proof (skip_ws_length l2) as Hw1. destruct (skip_ws l2) as [|c2 l3]; [done|].
    cbn [length] in Hw1. destruct (eqc ":" c2); [|done].
    destruct (parse_value n d l3) as [[v l4]|] eqn:E0; cbn [mbind option_bind] in H; [|done]. apply IHv in E0.
    pose proof (skip_ws_length l4) as Hw2. destruct (skip_ws l4) as [|c3 l5]; [done|]. cbn [length] in Hw2. destruct (eqc "," c3).
    + destruct (parse_members n d l5) as [[ms' l6]|] eqn:E1; cbn [mbind option_bind] in H; [|done]. injection H as <- <-. apply IHm in E1. lia.
    + destruct (eqc "}" c3); [|done]. injection H as <- <-. lia.
  - intros l vs rest H. cbn [parse_elements] in H. destruct (parse_value n d l) as [[v l1]|] eqn:E; cbn [mbind option_bind] in H; [|done].
    apply IHv in E. pose proof (skip_ws_length l1) as Hw. destruct (skip_ws l1) as [|c l2]; [done|]. cbn [length] in Hw. destruct (eqc "," c).
    + destruct (parse_elements n d l2) as [[vs' l3]|] eqn:E0; cbn [mbind option_bind] in H; [|done]. injection H as <- <-. apply IHe in E0. lia.
    + destruct (eqc "]" c); [|done]. injection H as <- <-. lia.
Qed.

(** With fuel for the length of the text, more fuel changes nothing. *)
Lemma parse_fuel n : forall m d, (n <= m)%nat ->
  agree n 0 (parse_value m d) (parse_value n d) /\ agree n 0 (parse_members m d) (parse_members n d) /\
  agree n 1 (parse_elements m d) (parse_elements n d).
Proof.
  induction n as [|n IH]; intros m d Hm; [split_and!; intros l Hl; lia|]. destruct m as [|m]; [lia|].
  destruct (IH m d ltac:(lia)) as (IHv & IHm & IHe). destruct (IH m (S d) ltac:(lia)) as (_ & IHm' & IHe').
  destruct (parse_shortens n d) as (Sv & _ & _). split_and!.
  - intros l Hl. cbn [parse_value]. pose proof (skip_ws_length l) as Hw. destruct (skip_ws l) as [|c l1]; [done|]. cbn [length] in Hw.
    destruct (eqc quote c); [done|]. destruct (eqc "{" c); [|destruct (eqc "[" c); [|done]].
    + destruct (_ <=? _)%nat; [done|]. pose proof (skip_ws_length l1) as Hw1. destruct (skip_ws l1) as [|c2 l2]; [done|].
      destruct (eqc "}" c2); [done|]. rewrite IHm'; [done|]. cbn [length] in *. lia.
    + destruct (_ <=? _)%nat; [done|]. pose proof (skip_ws_length l1) as Hw1. destruct (skip_ws l1) as [|c2 l2]; [done|].
      destruct (eqc "]" c2); [done|]. rewrite IHe'; [done|]. cbn [length] in *. lia.
  - intros l Hl. cbn [parse_members]. pose proof (skip_ws_length l) as Hw. destruct (skip_ws l) as [|c l1]; [done|]. cbn [length] in Hw.
    destruct (eqc quote c); [|done]. destruct (scan_string l1) as [[raw l2]|] eqn:E; cbn [mbind option_bind]; [|done].
    apply scan_string_length in E. pose proof (skip_ws_length l2) as Hw1. destruct (skip_ws l2) as [|c2 l3]; [done|].
    cbn [length] in Hw1. destruct (eqc ":" c2); [|done]. rewrite IHv by lia.
    destruct (parse_value n d l3) as [[v l4]|] eqn:E0; cbn [mbind option_bind]; [|done]. apply Sv in E0.
    pose proof (skip_ws_length l4) as Hw2. destruct (skip_ws l4) as [|c3 l5]; [done|]. cbn [length] in Hw2. destruct (eqc "," c3); [|done].
    by rewrite IHm by lia.
  - intros l Hl. cbn [parse_elements]. rewrite IHv by lia. destruct (parse_value n d l) as [[v l1]|] eqn:E; cbn [mbind option_bind]; [|done].
    apply Sv in E. pose proof (skip_ws_length l1) as Hw. destruct (skip_ws l1) as [|c l2]; [done|]. cbn [length] in Hw.
    destruct (eqc "," c); [|done]. by rewrite IHe by lia.
Qed.

(** [parse] is the reading with any fuel that is large enough. *)
Lemma parse_any_fuel n l : (2 * length l < n)%nat ->
  parse l = ('(v, rest) ← parse_value n 0 l; match skip_ws rest with [] => Some v | _ => None end).
Proof.
  intros Hn. unfold parse. destruct (parse_fuel (S (2 * length l)) n 0 ltac:(lia)) as (H & _). by rewrite H by lia.
Qed.
End Json.
