(* ===== verification/Lexer.v ===== *)
(** * Lexer: SQL tokens

    Models the package [sql/lexer]: [SqlLexer] scans a slice of runes with a
    position, a line and a column, one definition per method.  The scanning
    loops take fuel; the length of the input is always enough
    ([Tokenize_total]).

    [lexes pre rest ts] is the specification: the declarative lexical grammar
    of the language, with maximal munch and with the source position of every
    token; [Tokenize_correct] says that the lexer implements it, in both
    directions. *)

From S2P Require Import Prelude GoRuntime Utf8.

(** ** Tokens *)
Inductive TokenType : Type :=
  | EOF | IDENT | NUMBER | STRING
  | CREATE | TABLE | INDEX | ON | USING | HASH | BTREE
  | INSERT | INTO | VALUES
  | SELECT | FROM | WHERE
  | AND | OR
  | EXPLAIN
  | INT64 | VARCHAR
  | LPAREN | RPAREN | COMMA | SEMICOLON | ASTERISK
  | EQ | NE | LT | LE | GT | GE.

#[export] Instance TokenType_eq_dec : EqDecision TokenType.
Proof. solve_decision. Defined.

Definition token_type_String (t : TokenType) : string :=
  match t with
  | EOF => "EOF" | IDENT => "IDENT" | NUMBER => "NUMBER" | STRING => "STRING"
  | CREATE => "CREATE" | TABLE => "TABLE" | INDEX => "INDEX" | ON => "ON" | USING => "USING"
  | HASH => "HASH" | BTREE => "BTREE" | INSERT => "INSERT" | INTO => "INTO" | VALUES => "VALUES"
  | SELECT => "SELECT" | FROM => "FROM" | WHERE => "WHERE" | AND => "AND" | OR => "OR"
  | EXPLAIN => "EXPLAIN" | INT64 => "INT64" | VARCHAR => "VARCHAR"
  | LPAREN => "LPAREN" | RPAREN => "RPAREN" | COMMA => "COMMA" | SEMICOLON => "SEMICOLON"
  | ASTERISK => "ASTERISK" | EQ => "EQ" | NE => "NE" | LT => "LT" | LE => "LE" | GT => "GT"
  | GE => "GE"
  end.

Record Token : Type := NewToken {
  Type_ : TokenType;
  Text : string;
  StartOffset : nat;
  EndOffset : nat;
  Line : nat;
  Column : nat
}.

#[export] Instance Token_eq_dec : EqDecision Token.
Proof. solve_decision. Defined.

Definition token_String (t : Token) : string :=
  (token_type_String (Type_ t) +:+ "(" +:+ Text t +:+ ")")%string.

(** The keyword table, by upper-case spelling. *)
Definition keywords : list (string * TokenType) :=
  [("CREATE", CREATE); ("TABLE", TABLE); ("INDEX", INDEX); ("ON", ON); ("USING", USING);
   ("HASH", HASH); ("BTREE", BTREE); ("INSERT", INSERT); ("INTO", INTO); ("VALUES", VALUES);
   ("SELECT", SELECT); ("FROM", FROM); ("WHERE", WHERE); ("AND", AND); ("OR", OR);
   ("EXPLAIN", EXPLAIN); ("INT64", INT64); ("VARCHAR", VARCHAR)]%string.

Fixpoint assoc {A} (k : string) (l : list (string * A)) : option A :=
  match l with
  | [] => None
  | (k', v) :: l => if decide (k = k') then Some v else assoc k l
  end.

(** [strings.ToUpper] on ASCII text (identifiers are ASCII). *)
Definition upper_byte (c : byte) : byte :=
  if (97 <=? u8 c) && (u8 c <=? 122) then byte_of (u8 c - 32) else c.
Definition ToUpper (s : string) : string := string_of (upper_byte <$> bytes_of s).

(** ** The scanner *)
Module SqlLexer.

Record t : Type := { input : list Z; pos : nat; line : nat; col : nat }.

(** Runes: [nl] is the newline, [quote] the apostrophe. *)
Definition nl : Z := 10.
Definition quote : Z := 39.
Definition minus : Z := 45.
Definition ch_eq : Z := 61.
Definition ch_gt : Z := 62.

Definition isWhitespace (c : Z) : bool := (c =? 32) || (c =? 9) || (c =? 13) || (c =? nl).
Definition isDigit (c : Z) : bool := (48 <=? c) && (c <=? 57).
Definition isIdentStart (c : Z) : bool :=
  ((65 <=? c) && (c <=? 90)) || ((97 <=? c) && (c <=? 122)) || (c =? 95).
Definition isIdentPart (c : Z) : bool := isIdentStart c || isDigit c.

Definition eof (l : t) : bool := (length (input l) <=? pos l)%nat.
Definition peek (l : t) : Z := default 0 (input l !! pos l).
Definition peekNext (l : t) : Z := default 0 (input l !! S (pos l)).

Definition advance (l : t) : t :=
  match input l !! pos l with
  | None => l
  | Some c =>
    if c =? nl then {| input := input l; pos := S (pos l); line := S (line l); col := 1 |}
    else {| input := input l; pos := S (pos l); line := line l; col := S (col l) |}
  end.

(** [for !eof() && p(peek()) { builder.WriteRune(peek()); advance() }]: the
    runes written and the lexer after the loop. *)
Fixpoint scan (fuel : nat) (p : Z -> bool) (l : t) : list Z * t :=
  match fuel with
  | O => ([], l)
  | S fuel =>
    if negb (eof l) && p (peek l) then
      let (cs, l') := scan fuel p (advance l) in (peek l :: cs, l')
    else ([], l)
  end.

Definition scan_all (p : Z -> bool) (l : t) : list Z * t := scan (S (length (input l))) p l.

Definition consumeWhitespace (l : t) : t := (scan_all isWhitespace l).2.

Definition readIdentOrKeyword (l : t) : Token * t :=
  let (cs, l') := scan_all isIdentPart l in
  let text := string_of_runes cs in
  let tokenType := default IDENT (assoc (ToUpper text) keywords) in
  (NewToken tokenType text (pos l) (pos l') (line l) (col l), l').

Definition readNumber (l : t) : Token * t :=
  let (sign, l1) := if peek l =? minus then ([minus], advance l) else ([], l) in
  let (cs, l') := scan_all isDigit l1 in
  (NewToken NUMBER (string_of_runes (sign ++ cs)) (pos l) (pos l') (line l) (col l), l').

(** The loop of [readString]; it stops at the end of the input or at the
    closing quote. *)
Fixpoint string_loop (fuel : nat) (l : t) : list Z * t :=
  match fuel with
  | O => ([], l)
  | S fuel =>
    if eof l then ([], l)
    else if peek l =? quote then
      if peekNext l =? quote then
        let (cs, l') := string_loop fuel (advance (advance l)) in (quote :: cs, l')
      else ([], l)
    else
      let (cs, l') := string_loop fuel (advance l) in (peek l :: cs, l')
  end.

Definition readString (l : t) : outcome (Token * t) :=
  let l1 := advance l in
  let (cs, l2) := string_loop (S (length (input l))) l1 in
  if eof l2 then Err (SqlSyntaxError "Unterminated string literal" (pos l) (line l) (col l))
  else
    let l3 := advance l2 in
    Ok (NewToken STRING (string_of_runes cs) (pos l) (pos l3) (line l) (col l), l3).

Definition handlerFn : Type := t -> outcome (Token * t).

Definition handleSingle (tokenType : TokenType) (text : string) : handlerFn := fun l =>
  let l' := advance l in
  Ok (NewToken tokenType text (pos l) (pos l') (line l) (col l), l').

Definition handleLT : handlerFn := fun l =>
  let l1 := advance l in
  if peek l1 =? ch_eq then
    let l2 := advance l1 in Ok (NewToken LE "<=" (pos l) (pos l2) (line l) (col l), l2)
  else if peek l1 =? ch_gt then
    let l2 := advance l1 in Ok (NewToken NE "<>" (pos l) (pos l2) (line l) (col l), l2)
  else Ok (NewToken LT "<" (pos l) (pos l1) (line l) (col l), l1).

Definition handleGT : handlerFn := fun l =>
  let l1 := advance l in
  if peek l1 =? ch_eq then
    let l2 := advance l1 in Ok (NewToken GE ">=" (pos l) (pos l2) (line l) (col l), l2)
  else Ok (NewToken GT ">" (pos l) (pos l1) (line l) (col l), l1).

Definition handleBang : handlerFn := fun l =>
  let l1 := advance l in
  if peek l1 =? ch_eq then
    let l2 := advance l1 in Ok (NewToken NE "!=" (pos l) (pos l2) (line l) (col l), l2)
  else Err (SqlSyntaxError "Unexpected character: '!'" (pos l) (line l) (col l)).

Definition handler (c : Z) : option handlerFn :=
  if c =? 40 then Some (handleSingle LPAREN "(")
  else if c =? 41 then Some (handleSingle RPAREN ")")
  else if c =? 44 then Some (handleSingle COMMA ",")
  else if c =? 59 then Some (handleSingle SEMICOLON ";")
  else if c =? 42 then Some (handleSingle ASTERISK "*")
  else if c =? ch_eq then Some (handleSingle EQ "=")
  else if c =? 60 then Some handleLT
  else if c =? ch_gt then Some handleGT
  else if c =? 33 then Some handleBang
  else None.

(** One round of the main loop: [None] after white space. *)
Definition step (l : t) : outcome (option Token * t) :=
  let c := peek l in
  if isWhitespace c then Ok (None, consumeWhitespace l)
  else if isIdentStart c then
    let (tok, l') := readIdentOrKeyword l in Ok (Some tok, l')
  else if isDigit c || ((c =? minus) && isDigit (peekNext l)) then
    let (tok, l') := readNumber l in Ok (Some tok, l')
  else if c =? quote then
    let! ' (tok, l') := readString l in Ok (Some tok, l')
  else
    match handler c with
    | None => Err (SqlSyntaxError ("Unexpected character: '" +:+ string_of_runes [c] +:+ "'")
                     (pos l) (line l) (col l))
    | Some h => let! ' (tok, l') := h l in Ok (Some tok, l')
    end.

(** The main loop; [None] when the fuel runs out. *)
Fixpoint loop (fuel : nat) (l : t) : option (outcome (list Token)) :=
  match fuel with
  | O => None
  | S fuel =>
    if eof l then Some (Ok [NewToken EOF "" (pos l) (pos l) (line l) (col l)])
    else
      match step l with
      | Ok (tok, l') =>
        match loop fuel l' with
        | None => None
        | Some r => Some (ofmap (fun out => option_list tok ++ out) r)
        end
      | Err e => Some (Err e)
      | Panic => Some Panic
      end
  end.

Definition start (rs : list Z) : t := {| input := rs; pos := 0; line := 1; col := 1 |}.

Definition tokenize_runes (rs : list Z) : option (outcome (list Token)) :=
  loop (S (length rs)) (start rs).

Definition Tokenize (sql : string) : outcome (list Token) :=
  default Panic (tokenize_runes (runes_of sql)).

End SqlLexer.

(** ** The lexical grammar *)
Module LexSpec.
Import SqlLexer.

(** Line and column after a prefix of the text, counted from 1. *)
Fixpoint line_after (l0 : nat) (pre : list Z) : nat :=
  match pre with [] => l0 | c :: pre => line_after (if c =? nl then S l0 else l0) pre end.
Fixpoint col_after (c0 : nat) (pre : list Z) : nat :=
  match pre with [] => c0 | c :: pre => col_after (if c =? nl then 1%nat else S c0) pre end.

(** No rune satisfying [p] follows: the longest match was taken. *)
Definition stops (p : Z -> bool) (rest : list Z) : Prop :=
  match rest with [] => True | c :: _ => p c = false end.

(** Doubling the quotes of a string literal. *)
Definition escape (cs : list Z) : list Z :=
  cs ≫= (fun c => if c =? quote then [quote; quote] else [c]).

(** [lexeme ty text lx rest]: the runes [lx], followed by [rest], are a token
    of type [ty] with text [text]. *)
Inductive lexeme : TokenType -> string -> list Z -> list Z -> Prop :=
  | lex_word c cs rest :
      isIdentStart c = true -> forallb isIdentPart cs = true -> stops isIdentPart rest ->
      let text := string_of_runes (c :: cs) in
      lexeme (default IDENT (assoc (ToUpper text) keywords)) text (c :: cs) rest
  | lex_number (neg : bool) d ds rest :
      isDigit d = true -> forallb isDigit ds = true -> stops isDigit rest ->
      let lx := (if neg then [minus] else []) ++ d :: ds in
      lexeme NUMBER (string_of_runes lx) lx rest
  | lex_string cs rest :
      stops (fun c => c =? quote) rest ->
      lexeme STRING (string_of_runes cs) (quote :: escape cs ++ [quote]) rest
  | lex_lparen rest : lexeme LPAREN "(" [40] rest
  | lex_rparen rest : lexeme RPAREN ")" [41] rest
  | lex_comma rest : lexeme COMMA "," [44] rest
  | lex_semicolon rest : lexeme SEMICOLON ";" [59] rest
  | lex_asterisk rest : lexeme ASTERISK "*" [42] rest
  | lex_eq rest : lexeme EQ "=" [ch_eq] rest
  | lex_le rest : lexeme LE "<=" [60; ch_eq] rest
  | lex_ne rest : lexeme NE "<>" [60; ch_gt] rest
  | lex_lt rest : stops (fun c => (c =? ch_eq) || (c =? ch_gt)) rest -> lexeme LT "<" [60] rest
  | lex_ge rest : lexeme GE ">=" [ch_gt; ch_eq] rest
  | lex_gt rest : stops (fun c => c =? ch_eq) rest -> lexeme GT ">" [ch_gt] rest
  | lex_bang rest : lexeme NE "!=" [33; ch_eq] rest.

(** The token of a lexeme that follows [pre]. *)
Definition token_at (pre lx : list Z) (ty : TokenType) (text : string) : Token :=
  NewToken ty text (length pre) (length pre + length lx) (line_after 1 pre) (col_after 1 pre).

(** [lexes pre rest ts]: after [pre], the text [rest] consists of white space
    and the lexemes of [ts], ending with the end-of-file token. *)
Inductive lexes : list Z -> list Z -> list Token -> Prop :=
  | lexes_eof pre : lexes pre [] [token_at pre [] EOF ""]
  | lexes_white pre c rest ts :
      isWhitespace c = true -> lexes (pre ++ [c]) rest ts -> lexes pre (c :: rest) ts
  | lexes_token pre lx rest ty text ts :
      lexeme ty text lx rest -> lexes (pre ++ lx) rest ts ->
      lexes pre (lx ++ rest) (token_at pre lx ty text :: ts).

(** A place where no token starts, and the message for it. *)
Inductive lex_error : list Z -> string -> Prop :=
  | bad_rune c rest :
      isWhitespace c = false -> isIdentStart c = false -> isDigit c = false ->
      ~ (c = minus /\ exists d rest', rest = d :: rest' /\ isDigit d = true) ->
      c <> quote -> handler c = None ->
      lex_error (c :: rest) ("Unexpected character: '" +:+ string_of_runes [c] +:+ "'")
  | bad_bang rest :
      stops (fun c => c =? ch_eq) rest -> lex_error (33 :: rest) "Unexpected character: '!'"
  | unterminated cs :
      lex_error (quote :: escape cs) "Unterminated string literal".

(** [lex_fails pre rest e]: white space and lexemes up to the place of the
    error [e]. *)
Inductive lex_fails : list Z -> list Z -> go_error -> Prop :=
  | fails_here pre rest msg :
      lex_error rest msg ->
      lex_fails pre rest (SqlSyntaxError msg (length pre) (line_after 1 pre) (col_after 1 pre))
  | fails_white pre c rest e :
      isWhitespace c = true -> lex_fails (pre ++ [c]) rest e -> lex_fails pre (c :: rest) e
  | fails_token pre lx rest ty text e :
      lexeme ty text lx rest -> lex_fails (pre ++ lx) rest e -> lex_fails pre (lx ++ rest) e.

End LexSpec.

(** ** The lexer implements the grammar *)
Module LexProofs.
Import SqlLexer LexSpec.

Section proofs.
Implicit Types (pre rest cs rs : list Z) (p : Z -> bool).

(** The lexer that has read [pre] and has [rest] ahead. *)
Definition at_ pre rest : t :=
  {| input := pre ++ rest; pos := length pre; line := line_after 1 pre; col := col_after 1 pre |}.

Lemma line_after_app l pre cs : line_after l (pre ++ cs) = line_after (line_after l pre) cs.
Proof. revert l. induction pre as [|c pre IH]; intros l; [done|]. apply IH. Qed.

Lemma col_after_app l pre cs : col_after l (pre ++ cs) = col_after (col_after l pre) cs.
Proof. revert l. induction pre as [|c pre IH]; intros l; [done|]. apply IH. Qed.

Lemma lookup_at pre rest i : (pre ++ rest) !! (length pre + i)%nat = rest !! i.
Proof. rewrite lookup_app_r by lia. f_equal. lia. Qed.

Lemma eof_at pre rest : eof (at_ pre rest) = match rest with [] => true | _ => false end.
Proof.
  unfold eof, at_; cbn. destruct rest; [apply Nat.leb_le|apply Nat.leb_gt]; len.
Qed.

Lemma peek_at pre c rest : peek (at_ pre (c :: rest)) = c.
Proof. unfold peek, at_; cbn. replace (length pre) with (length pre + 0)%nat by lia. by rewrite lookup_at. Qed.

Lemma peek_at_rest pre rest : peek (at_ pre rest) = default 0 (head rest).
Proof.
  destruct rest as [|c rest]; [|apply peek_at]. unfold peek, at_; cbn.
  by rewrite lookup_ge_None_2 by len.
Qed.

Lemma peekNext_at pre c rest : peekNext (at_ pre (c :: rest)) = default 0 (head rest).
Proof.
  unfold peekNext, at_; cbn. replace (S (length pre)) with (length pre + 1)%nat by lia.
  rewrite lookup_at. by destruct rest.
Qed.

Lemma peekNext_at2 pre c d rest : peekNext (at_ pre (c :: d :: rest)) = d.
Proof. by rewrite peekNext_at. Qed.

Lemma advance_at pre c rest : advance (at_ pre (c :: rest)) = at_ (pre ++ [c]) rest.
Proof.
  unfold advance, at_; cbn. replace (length pre) with (length pre + 0)%nat at 1 by lia.
  rewrite lookup_at; cbn. rewrite line_after_app, col_after_app, <- app_assoc, length_app.
  cbn. replace (length pre + 1)%nat with (S (length pre)) by lia. by destruct (c =? nl).
Qed.

(** Scanning takes the longest prefix. *)
Lemma scan_exact fuel p pre cs rest :
  forallb p cs = true -> stops p rest -> (length cs < fuel)%nat ->
  scan fuel p (at_ pre (cs ++ rest)) = (cs, at_ (pre ++ cs) rest).
Proof.
  revert pre cs. induction fuel as [|fuel IH]; intros pre cs Hcs Hst Hf; [lia|].
  cbn [scan]. rewrite eof_at. destruct cs as [|c cs]; cbn [app].
  - rewrite app_nil_r. destruct rest as [|c rest]; [done|]. rewrite peek_at. cbn in Hst. by rewrite Hst.
  - cbn in Hcs. apply andb_prop in Hcs as [Hc Hcs]. rewrite peek_at, Hc, advance_at. cbn [negb andb].
    rewrite IH by (done || cbn in Hf; lia). by rewrite <- app_assoc.
Qed.

Lemma scan_all_exact p pre cs rest :
  forallb p cs = true -> stops p rest ->
  scan_all p (at_ pre (cs ++ rest)) = (cs, at_ (pre ++ cs) rest).
Proof. intros. apply scan_exact; [done..|]. unfold at_; cbn. len. Qed.

Lemma split_while p rest : exists cs rest', rest = cs ++ rest' /\ forallb p cs = true /\ stops p rest'.
Proof.
  induction rest as [|c rest (cs & rest' & -> & Hcs & Hst)]; [by exists [], []|].
  destruct (p c) eqn:Hc.
  - exists (c :: cs), rest'. cbn. by rewrite Hc.
  - by exists [], (c :: cs ++ rest').
Qed.

(** The body of a string literal. *)
Lemma escape_cons c cs : escape (c :: cs) = (if c =? quote then [quote; quote] else [c]) ++ escape cs.
Proof. done. Qed.

Lemma string_loop_closed fuel pre cs rest :
  stops (fun c => c =? quote) rest -> (length (escape cs) < fuel)%nat ->
  string_loop fuel (at_ pre (escape cs ++ quote :: rest)) = (cs, at_ (pre ++ escape cs) (quote :: rest)).
Proof.
  intros Hst. revert pre cs. induction fuel as [|fuel IH]; intros pre cs Hf; [lia|].
  cbn [string_loop]. rewrite eof_at. destruct cs as [|c cs].
  - cbn [escape mbind list_bind app]. rewrite peek_at, peekNext_at, app_nil_r. cbn.
    destruct rest as [|c rest]; [done|]. cbn in Hst |- *. by rewrite Hst.
  - rewrite escape_cons in Hf |- *. destruct (Z.eqb_spec c quote) as [->|Hc]; cbn [app] in Hf |- *.
    + rewrite peek_at, peekNext_at. cbn [head default]. rewrite !Z.eqb_refl, !advance_at, IH.
      * by rewrite <- !app_assoc.
      * cbn in Hf. lia.
    + rewrite peek_at, (proj2 (Z.eqb_neq _ _) Hc), advance_at, IH by (cbn in Hf; lia).
      by rewrite <- app_assoc.
Qed.

Lemma string_loop_open fuel pre cs :
  (length (escape cs) < fuel)%nat ->
  string_loop fuel (at_ pre (escape cs)) = (cs, at_ (pre ++ escape cs) []).
Proof.
  revert pre cs. induction fuel as [|fuel IH]; intros pre cs Hf; [lia|].
  cbn [string_loop]. rewrite eof_at. destruct cs as [|c cs]; [cbn; by rewrite app_nil_r|].
  rewrite escape_cons in Hf |- *. destruct (Z.eqb_spec c quote) as [->|Hc]; cbn [app] in Hf |- *.
  - rewrite peek_at, peekNext_at. cbn [head default]. rewrite !Z.eqb_refl, !advance_at, IH.
    + by rewrite <- !app_assoc.
    + cbn in Hf. lia.
  - rewrite peek_at, (proj2 (Z.eqb_neq _ _) Hc), advance_at, IH by (cbn in Hf; lia).
    by rewrite <- app_assoc.
Qed.

Lemma split_string rest :
  (exists cs rest', rest = escape cs ++ quote :: rest' /\ stops (fun c => c =? quote) rest') \/
  exists cs, rest = escape cs.
Proof.
  remember (length rest) as n eqn:Hn. revert rest Hn.
  induction (lt_wf n) as [n _ IH]; intros rest ->. destruct rest as [|c rest]; [right; by exists []|].
  destruct (Z.eqb_spec c quote) as [->|Hc].
  - destruct rest as [|d rest]; [left; by exists [], []|].
    destruct (Z.eqb_spec d quote) as [->|Hd].
    + destruct (IH (length rest)) with (rest := rest) as [(cs & rest' & -> & Hst)|[cs ->]]; [cbn; lia|done|..].
      * left. by exists (quote :: cs), rest'.
      * right. by exists (quote :: cs).
    + left. exists [], (d :: rest). split; [done|]. by apply Z.eqb_neq.
  - apply Z.eqb_neq in Hc.
    destruct (IH (length rest)) with (rest := rest) as [(cs & rest' & -> & Hst)|[cs ->]]; [cbn; lia|done|..].
    + left. exists (c :: cs), rest'. by rewrite escape_cons, Hc.
    + right. exists (c :: cs). by rewrite escape_cons, Hc.
Qed.

(** *** One round of the main loop *)

Ltac classes :=
  unfold isIdentPart, isIdentStart, isWhitespace, isDigit, nl, quote, minus, ch_eq, ch_gt in *;
  repeat match goal with
         | H : context [?a <=? ?b] |- _ => destruct (Z.leb_spec a b); cbn in H
         | H : context [?a =? ?b] |- _ => destruct (Z.eqb_spec a b); cbn in H
         | |- context [?a <=? ?b] => destruct (Z.leb_spec a b); cbn
         | |- context [?a =? ?b] => destruct (Z.eqb_spec a b); cbn
         end; try discriminate; try lia; try reflexivity.

Lemma identStart_class c :
  isIdentStart c = true -> isWhitespace c = false /\ isIdentPart c = true.
Proof.
  intros H. split; [|unfold isIdentPart; by rewrite H].
  unfold isIdentStart, isWhitespace, nl in *. lia.
Qed.

Lemma digit_class c :
  isDigit c = true -> isWhitespace c = false /\ isIdentStart c = false /\ (c =? minus) = false.
Proof. unfold isDigit, isIdentStart, isWhitespace, nl, minus. lia. Qed.

Lemma token_at_eq pre lx r1 r2 ty text :
  NewToken ty text (pos (at_ pre r1)) (pos (at_ (pre ++ lx) r2)) (line (at_ pre r1))
    (col (at_ pre r1)) = token_at pre lx ty text.
Proof. unfold token_at, at_; cbn. by rewrite length_app. Qed.

(** What a round does on a text that starts with a lexeme. *)
Definition steps_to pre lx rest ty text : Prop :=
  step (at_ pre (lx ++ rest)) = Ok (Some (token_at pre lx ty text), at_ (pre ++ lx) rest).

Lemma step_word pre c cs rest :
  isIdentStart c = true -> forallb isIdentPart cs = true -> stops isIdentPart rest ->
  let text := string_of_runes (c :: cs) in
  steps_to pre (c :: cs) rest (default IDENT (assoc (ToUpper text) keywords)) text.
Proof.
  intros Hc Hcs Hst text. destruct (identStart_class c Hc) as [Hw Hp].
  unfold steps_to, step. cbn [app]. rewrite peek_at, Hw, Hc.
  unfold readIdentOrKeyword. change (c :: cs ++ rest) with ((c :: cs) ++ rest).
  rewrite scan_all_exact by (done || cbn; by rewrite Hp). by rewrite token_at_eq.
Qed.

Lemma step_number pre (neg : bool) d ds rest :
  isDigit d = true -> forallb isDigit ds = true -> stops isDigit rest ->
  let lx := (if neg then [minus] else []) ++ d :: ds in
  steps_to pre lx rest NUMBER (string_of_runes lx).
Proof.
  intros Hd Hds Hst lx. destruct (digit_class d Hd) as (Hw & Hi & Hm).
  assert (Hall : forallb isDigit (d :: ds) = true) by (cbn; by rewrite Hd).
  unfold steps_to, step, readNumber, lx. destruct neg; cbn [app].
  - rewrite peek_at, peekNext_at2, Hd. cbn -[scan_all string_of_runes at_ advance token_at].
    rewrite advance_at. change (d :: ds ++ rest) with ((d :: ds) ++ rest).
    rewrite scan_all_exact by done. rewrite <- app_assoc. cbn [app]. by rewrite token_at_eq.
  - rewrite peek_at, Hw, Hi, Hd, Hm. cbn [orb].
    change (d :: ds ++ rest) with ((d :: ds) ++ rest). rewrite scan_all_exact by done.
    by rewrite token_at_eq.
Qed.

Lemma readString_closed pre cs rest :
  stops (fun c => c =? quote) rest ->
  let lx := quote :: escape cs ++ [quote] in
  readString (at_ pre (lx ++ rest)) =
    Ok (token_at pre lx STRING (string_of_runes cs), at_ (pre ++ lx) rest).
Proof.
  intros Hst lx. unfold lx, readString. rewrite <- app_comm_cons, <- app_assoc, advance_at.
  cbn [app]. rewrite string_loop_closed; [|done|unfold at_; cbn [input]; rewrite length_app; cbn [length]; rewrite length_app; lia].
  rewrite eof_at, advance_at, <- !app_assoc. cbn [app]. by rewrite token_at_eq.
Qed.

Lemma readString_open pre cs :
  readString (at_ pre (quote :: escape cs)) =
    Err (SqlSyntaxError "Unterminated string literal" (length pre) (line_after 1 pre) (col_after 1 pre)).
Proof.
  unfold readString. rewrite advance_at, string_loop_open by (unfold at_; cbn [input]; len).
  by rewrite eof_at.
Qed.

Lemma peek_stops p pre rest :
  p 0 = false -> stops p rest -> p (peek (at_ pre rest)) = false.
Proof. intros H0 Hst. rewrite peek_at_rest. by destruct rest. Qed.

Lemma step_lexeme pre ty text lx rest :
  lexeme ty text lx rest -> steps_to pre lx rest ty text.
Proof.
  assert (Hone : forall c rest, peek (at_ pre (c :: rest)) = c) by (intros; apply peek_at).
  destruct 1 as [c cs rest|neg d ds rest|cs rest Hst| | | | | | | | |rest Hst| |rest Hst|];
    [by apply step_word|by apply step_number|..].
  { unfold steps_to, step. rewrite <- app_comm_cons, peek_at. cbn -[readString token_at].
    rewrite app_comm_cons, readString_closed by done. done. }
  all: unfold steps_to, step; cbn [app]; rewrite peek_at; unfold isWhitespace, isIdentStart, isDigit;
    cbn -[peek advance at_ token_at];
    unfold handleSingle, handleLT, handleGT, handleBang; rewrite ?advance_at, ?peek_at; cbn -[peek advance at_ token_at];
    rewrite ?advance_at, ?token_at_eq, <- ?app_assoc.
  all: try (cbn [app]; by rewrite ?token_at_eq).
  - pose proof (peek_stops _ (pre ++ [60]) rest (eq_refl false) Hst) as Hp. cbn beta in Hp.
    apply orb_false_elim in Hp as [-> ->]. done.
  - pose proof (peek_stops _ (pre ++ [ch_gt]) rest (eq_refl false) Hst) as Hp. cbn beta in Hp.
    by rewrite Hp.
Qed.

Lemma step_white pre c ws rest :
  isWhitespace c = true -> forallb isWhitespace ws = true -> stops isWhitespace rest ->
  step (at_ pre ((c :: ws) ++ rest)) = Ok (None, at_ (pre ++ c :: ws) rest).
Proof.
  intros Hc Hws Hst. unfold step, consumeWhitespace. cbn [app]. rewrite peek_at, Hc.
  change (c :: ws ++ rest) with ((c :: ws) ++ rest).
  by rewrite scan_all_exact by (done || cbn; by rewrite Hc).
Qed.

Lemma step_error pre rest msg :
  lex_error rest msg ->
  step (at_ pre rest) =
    Err (SqlSyntaxError msg (length pre) (line_after 1 pre) (col_after 1 pre)).
Proof.
  destruct 1 as [c rest Hw Hi Hd Hm Hq Hh|rest Hst|cs].
  - unfold step. rewrite peek_at, Hw, Hi, Hd, (proj2 (Z.eqb_neq _ _) Hq), Hh.
    destruct (Z.eqb_spec c minus) as [->|]; [|done]. rewrite peekNext_at.
    destruct rest as [|d rest]; [done|]. change (default 0 (head (d :: rest))) with d.
    destruct (isDigit d) eqn:Hd'; [|done]. exfalso. apply Hm. eauto.
  - unfold step. rewrite peek_at. cbn -[peek advance at_].
    unfold handleBang. rewrite advance_at.
    pose proof (peek_stops _ (pre ++ [33]) rest (eq_refl false) Hst) as Hp. cbn beta in Hp. by rewrite Hp.
  - unfold step. rewrite peek_at. cbn -[readString at_]. by rewrite readString_open.
Qed.

(** A non-empty text starts with white space, a lexeme or an error. *)
Lemma text_cases c rest :
  (exists ws rest', isWhitespace c = true /\ c :: rest = (c :: ws) ++ rest' /\
     forallb isWhitespace ws = true /\ stops isWhitespace rest') \/
  (exists ty text lx rest', lexeme ty text lx rest' /\ c :: rest = lx ++ rest' /\ lx <> []) \/
  exists msg, lex_error (c :: rest) msg.
Proof.
  destruct (isWhitespace c) eqn:Hw.
  { left. destruct (split_while isWhitespace rest) as (ws & rest' & -> & ? & ?). by exists ws, rest'. }
  right. destruct (isIdentStart c) eqn:Hi.
  { left. destruct (split_while isIdentPart rest) as (cs & rest' & -> & ? & ?).
    eexists _, _, (c :: cs), rest'. split; [by apply lex_word|done]. }
  destruct (isDigit c) eqn:Hd.
  { left. destruct (split_while isDigit rest) as (cs & rest' & -> & ? & ?).
    eexists _, _, _, rest'. split; [by apply (lex_number false c cs)|done]. }
  destruct (Z.eqb_spec c quote) as [->|Hq].
  { destruct (split_string rest) as [(cs & rest' & -> & Hst)|[cs ->]].
    - left. eexists _, _, _, rest'. split; [by apply lex_string|]. split; [|done].
      cbn. by rewrite <- app_assoc.
    - right. eexists. apply unterminated. }
  destruct (Z.eqb_spec c minus) as [->|Hm].
  { destruct rest as [|d rest]; [|destruct (isDigit d) eqn:Hd'].
    - right. eexists. apply bad_rune; try done. intros (_ & d & rest' & [=] & _).
    - left. destruct (split_while isDigit rest) as (cs & rest' & -> & ? & ?).
      eexists _, _, _, rest'. split; [by apply (lex_number true d cs)|done].
    - right. eexists. apply bad_rune; try done. intros (_ & d' & rest' & [= -> ->] & Hd''). congruence. }
  destruct (handler c) as [h|] eqn:Hh.
  2:{ right. eexists. apply bad_rune; try done. naive_solver. }
  unfold handler in Hh.
  repeat match type of Hh with
         | context [?a =? ?b] => destruct (Z.eqb_spec a b) as [->|]
         end; try done;
    try (left; eexists _, _, [_], rest; split; [constructor|done]; fail).
  - destruct rest as [|d rest]; [left; by eexists _, _, [_], []; split; [apply lex_lt|]|].
    destruct (Z.eqb_spec d ch_eq) as [->|H1]; [left; by eexists _, _, [_; _], rest; split; [apply lex_le|]|].
    destruct (Z.eqb_spec d ch_gt) as [->|H2]; [left; by eexists _, _, [_; _], rest; split; [apply lex_ne|]|].
    left. eexists _, _, [_], (d :: rest). split; [apply lex_lt|done]. cbn. lia.
  - destruct rest as [|d rest]; [left; by eexists _, _, [_], []; split; [apply lex_gt|]|].
    destruct (Z.eqb_spec d ch_eq) as [->|H1]; [left; by eexists _, _, [_; _], rest; split; [apply lex_ge|]|].
    left. eexists _, _, [_], (d :: rest). split; [apply lex_gt|done]. cbn. lia.
  - destruct rest as [|d rest]; [right; eexists; by apply bad_bang|].
    destruct (Z.eqb_spec d ch_eq) as [->|H1]; [left; by eexists _, _, [_; _], rest; split; [apply lex_bang|]|].
    right. eexists. apply bad_bang. cbn. lia.
Qed.

Lemma white_run pre ws rest ts :
  forallb isWhitespace ws = true -> lexes (pre ++ ws) rest ts -> lexes pre (ws ++ rest) ts.
Proof.
  revert pre. induction ws as [|c ws IH]; intros pre Hws Hl; [by rewrite app_nil_r in Hl|].
  cbn in Hws. apply andb_prop in Hws as [Hc Hws]. cbn. apply lexes_white; [done|].
  apply IH; [done|]. by rewrite <- app_assoc.
Qed.

Lemma white_run_fails pre ws rest e :
  forallb isWhitespace ws = true -> lex_fails (pre ++ ws) rest e -> lex_fails pre (ws ++ rest) e.
Proof.
  revert pre. induction ws as [|c ws IH]; intros pre Hws Hl; [by rewrite app_nil_r in Hl|].
  cbn in Hws. apply andb_prop in Hws as [Hc Hws]. cbn. apply fails_white; [done|].
  apply IH; [done|]. by rewrite <- app_assoc.
Qed.

Lemma loop_sound fuel pre rest :
  (length rest < fuel)%nat ->
  exists r, loop fuel (at_ pre rest) = Some r /\
    match r with
    | Ok ts => lexes pre rest ts
    | Err e => lex_fails pre rest e
    | Panic => False
    end.
Proof.
  revert pre rest. induction fuel as [|fuel IH]; intros pre rest Hf; [lia|].
  cbn [loop]. rewrite eof_at. destruct rest as [|c rest].
  { eexists. split; [done|]. cbn. pose proof (lexes_eof pre) as H. unfold token_at in H.
    cbn in H. by rewrite Nat.add_0_r in H. }
  destruct (text_cases c rest) as [(ws & rest' & Hc & E & Hws & Hst)|[(ty & text & lx & rest' & Hlx & E & Hne)|[msg Hmsg]]].
  - rewrite E in Hf |- *. rewrite step_white by done.
    destruct (IH (pre ++ c :: ws) rest') as (r & -> & Hr); [revert Hf; len|].
    eexists. split; [done|]. assert (Hall : forallb isWhitespace (c :: ws) = true) by (cbn; by rewrite Hc).
    destruct r as [ts|e|]; [by apply white_run|by apply white_run_fails|done].
  - rewrite E in Hf |- *. rewrite (step_lexeme _ _ _ _ _ Hlx).
    destruct (IH (pre ++ lx) rest') as (r & -> & Hr); [destruct lx; [done|]; revert Hf; len|].
    eexists. split; [done|]. destruct r as [ts|e|]; [by apply lexes_token|by eapply fails_token|done].
  - rewrite (step_error _ _ _ Hmsg). eexists. split; [done|]. by apply fails_here.
Qed.

(** *** Completeness *)

Lemma lexeme_head ty text lx rest :
  lexeme ty text lx rest -> exists c cs, lx = c :: cs /\ isWhitespace c = false.
Proof.
  destruct 1 as [c cs rest Hc _ _|neg d ds rest Hd _ _| | | | | | | | | | | | |]; try by eexists _, _.
  - exists c, cs. split; [done|]. by apply identStart_class.
  - destruct neg; eexists _, _; [done|]. split; [done|]. by apply digit_class.
Qed.

Lemma lexes_skip pre ws rest ts :
  forallb isWhitespace ws = true -> lexes pre (ws ++ rest) ts -> lexes (pre ++ ws) rest ts.
Proof.
  revert pre. induction ws as [|c ws IH]; intros pre Hws Hl; [by rewrite app_nil_r|].
  cbn in Hws. apply andb_prop in Hws as [Hc Hws].
  inversion Hl as [|? ? ? ? _ Hl'|? lx r ty text ts' Hlx Hl']; subst.
  - apply IH in Hl'; [|done]. by rewrite <- app_assoc in Hl'.
  - destruct (lexeme_head _ _ _ _ Hlx) as (d & ds & -> & Hd).
    match goal with H : (d :: ds) ++ _ = _ |- _ => injection H as -> _ end. congruence.
Qed.

Lemma loop_complete fuel pre rest ts :
  (length rest < fuel)%nat -> lexes pre rest ts -> loop fuel (at_ pre rest) = Some (Ok ts).
Proof.
  revert pre rest ts. induction fuel as [|fuel IH]; intros pre rest ts Hf Hl; [lia|].
  cbn [loop]. rewrite eof_at. destruct Hl as [pre|pre c rest ts Hc Hl|pre lx rest ty text ts Hlx Hl].
  - unfold token_at. cbn. by rewrite Nat.add_0_r.
  - destruct (split_while isWhitespace rest) as (ws & rest' & -> & Hws & Hst).
    change (c :: ws ++ rest') with ((c :: ws) ++ rest') in *. rewrite step_white by done.
    apply lexes_skip in Hl; [|done]. rewrite <- app_assoc in Hl. cbn [app] in Hl.
    rewrite (IH _ _ ts) by (done || revert Hf; len). done.
  - pose proof (step_lexeme pre _ _ _ _ Hlx) as Hs. unfold steps_to in Hs.
    destruct (lexeme_head _ _ _ _ Hlx) as (c & cs & -> & _). cbn [app] in *. rewrite Hs.
    assert (length rest < fuel)%nat by (cbn [length] in Hf; rewrite length_app in Hf; lia).
    by rewrite (IH _ _ ts).
Qed.

Lemma tokenize_runes_spec rs :
  exists r, tokenize_runes rs = Some r /\
    match r with
    | Ok ts => lexes [] rs ts
    | Err e => lex_fails [] rs e
    | Panic => False
    end.
Proof. apply (loop_sound (S (length rs)) [] rs). lia. Qed.

(** Positions: tokens do not overlap, and only white space is between them. *)
Definition gap_white rs (i j : nat) : Prop :=
  (i <= j)%nat /\ forallb isWhitespace (sub i (j - i) rs) = true.

Definition spans_ok rs (t : Token) : Prop :=
  (StartOffset t <= EndOffset t <= length rs)%nat /\
  (Type_ t <> EOF -> lexeme (Type_ t) (Text t)
     (sub (StartOffset t) (EndOffset t - StartOffset t) rs) (drop (EndOffset t) rs)) /\
  Line t = line_after 1 (take (StartOffset t) rs) /\
  Column t = col_after 1 (take (StartOffset t) rs).

Fixpoint chain rs (i : nat) (ts : list Token) : Prop :=
  match ts with
  | [] => i = length rs
  | t :: ts => gap_white rs i (StartOffset t) /\ spans_ok rs t /\ chain rs (EndOffset t) ts
  end.

Lemma gap_white_refl rs i : gap_white rs i i.
Proof. split; [lia|]. by rewrite Nat.sub_diag. Qed.

Lemma sub_S i n rs c : rs !! i = Some c -> sub i (S n) rs = c :: sub (S i) n rs.
Proof. intros Hc. unfold sub. by rewrite (drop_S _ _ _ Hc). Qed.

Lemma gap_white_cons rs i j c :
  rs !! i = Some c -> isWhitespace c = true -> gap_white rs (S i) j -> gap_white rs i j.
Proof.
  intros Hc Hw [Hle Hg]. split; [lia|]. replace (j - i)%nat with (S (j - S i)) by lia.
  rewrite (sub_S _ _ _ _ Hc). cbn. by rewrite Hw.
Qed.

Lemma spans_token pre lx rest ty text :
  lexeme ty text lx rest -> spans_ok (pre ++ lx ++ rest) (token_at pre lx ty text).
Proof.
  intros Hlx. unfold spans_ok, token_at; cbn [StartOffset EndOffset Type_ Text Line Column]. split_and!; [lia|len| | |].
  - intros _. replace (length pre + length lx - length pre)%nat with (length lx) by lia.
    rewrite (sub_app_exact _ _ pre lx rest) by done.
    by rewrite app_assoc, drop_app_length' by len.
  - by rewrite take_app_length.
  - by rewrite take_app_length.
Qed.

Lemma lexes_nonempty pre rest ts : lexes pre rest ts -> ts <> [].
Proof. by induction 1. Qed.

Lemma lexes_chain pre rest ts : lexes pre rest ts -> chain (pre ++ rest) (length pre) ts.
Proof.
  induction 1 as [pre|pre c rest ts Hc Hl IH|pre lx rest ty text ts Hlx Hl IH].
  - rewrite app_nil_r. cbn [chain]. unfold token_at, spans_ok; cbn. rewrite Nat.add_0_r.
    split_and!; first [done | lia | by intros [] | by rewrite firstn_all | apply gap_white_refl].
  - rewrite <- app_assoc in IH. cbn [app] in IH. rewrite length_app in IH. cbn [length] in IH.
    rewrite Nat.add_1_r in IH.
    assert (Hlk : (pre ++ c :: rest) !! length pre = Some c) by (by apply list_lookup_middle).
    destruct ts as [|t ts]; [by apply lexes_nonempty in Hl|]. cbn [chain] in *.
    destruct IH as (Hg & Hs & Hch). split; [|done]. by eapply gap_white_cons.
  - rewrite <- app_assoc in IH. cbn [chain]. split_and!.
    + apply gap_white_refl.
    + by apply spans_token.
    + cbn. by rewrite length_app in IH.
Qed.

(** *** Printing *)

(** A lexeme that white space may follow. *)
Definition printable (x : TokenType * string * list Z) : Prop :=
  lexeme x.1.1 x.1.2 x.2 [32] /\ Forall valid_rune x.2.

Definition print (xs : list (TokenType * string * list Z)) : list Z := xs ≫= (fun x => x.2 ++ [32]).

Lemma lexeme_space ty text lx rest : lexeme ty text lx [32] -> lexeme ty text lx (32 :: rest).
Proof. intros Hlx. remember [32] as r. by destruct Hlx; subst; constructor. Qed.

Lemma lexes_print pre xs :
  Forall printable xs ->
  exists ts, lexes pre (print xs) ts /\
    ((fun t => (Type_ t, Text t)) <$> ts) = (fst <$> xs) ++ [(EOF, "")].
Proof.
  intros Hxs. revert pre. induction Hxs as [|[[ty text] lx] xs [Hlx _] _ IH]; intros pre.
  { eexists. split; [apply lexes_eof|done]. }
  destruct (IH ((pre ++ lx) ++ [32])) as (ts & Hl & Hm).
  exists (token_at pre lx ty text :: ts). split; [|cbn; by rewrite Hm].
  change (print ((ty, text, lx) :: xs)) with ((lx ++ [32]) ++ print xs). rewrite <- app_assoc.
  apply lexes_token; [by apply lexeme_space|]. by apply lexes_white.
Qed.

Lemma print_valid xs : Forall printable xs -> Forall valid_rune (print xs).
Proof.
  induction 1 as [|x xs [_ Hv] _ IH]; [constructor|].
  change (print (x :: xs)) with ((x.2 ++ [32]) ++ print xs). rewrite !Forall_app. split; [split|]; [done| |done].
  constructor; [|constructor]. left. lia.
Qed.

End proofs.

Lemma Tokenize_lexes sql ts : Tokenize sql = Ok ts <-> lexes [] (runes_of sql) ts.
Proof.
  unfold Tokenize. destruct (tokenize_runes_spec (runes_of sql)) as (r & E & Hr). split.
  - rewrite E. cbn. by intros ->.
  - intros Hl. apply (loop_complete (S (length (runes_of sql)))) in Hl; [|lia].
    unfold tokenize_runes. change (start (runes_of sql)) with (at_ [] (runes_of sql)). by rewrite Hl.
Qed.

Lemma Tokenize_lexes_or_fails sql :
  (exists ts, Tokenize sql = Ok ts /\ lexes [] (runes_of sql) ts) \/
  exists e, Tokenize sql = Err e /\ lex_fails [] (runes_of sql) e.
Proof.
  unfold Tokenize. destruct (tokenize_runes_spec (runes_of sql)) as (r & -> & Hr). cbn.
  destruct r as [ts|e|]; [left|right|done]; eauto.
Qed.

(** C8: the lexer implements the lexical grammar: [Tokenize] returns exactly
    the token list the grammar gives to the text, with the positions of the
    tokens, and returns an error exactly when there is none, at the first
    place where no token starts; it always terminates and never panics. *)
Theorem Tokenize_correct sql :
  (forall ts, Tokenize sql = Ok ts <-> lexes [] (runes_of sql) ts) /\
  (forall e, Tokenize sql = Err e ->
     lex_fails [] (runes_of sql) e /\ forall ts, ~ lexes [] (runes_of sql) ts) /\
  Tokenize sql <> Panic.
Proof.
  split; [apply Tokenize_lexes|]. unfold Tokenize at 2.
  destruct (tokenize_runes_spec (runes_of sql)) as (r & E & Hr). split.
  - intros e He. split; [|intros ts Hl%Tokenize_lexes; congruence].
    unfold Tokenize in He. rewrite E in He. cbn in He. by subst r.
  - rewrite E. cbn. by intros ->.
Qed.

(** C32: source positions: the tokens of a text lie in order and do not
    overlap, only white space separates them or follows the last one, each
    token's offsets delimit exactly its lexeme in the text, and its line and
    column are those of its first rune. *)
Theorem Tokenize_positions sql ts :
  Tokenize sql = Ok ts -> chain (runes_of sql) 0 ts.
Proof.
  intros H. apply Tokenize_lexes in H. by apply lexes_chain in H.
Qed.

Definition sample_text : string := "SELECT *
 FROM t;".

Lemma Tokenize_positions_witness :
  exists ts, Tokenize sample_text = Ok ts /\ chain (runes_of sample_text) 0 ts /\
    (Line <$> ts) = [1; 1; 2; 2; 2; 2]%nat.
Proof.
  eexists. split; [vm_compute; reflexivity|]. split; [|reflexivity].
  apply (Tokenize_positions sample_text). vm_compute. reflexivity.
Defined.

(** Print then tokenize: writing any sequence of lexemes (identifiers,
    keywords in any case, numbers, string literals with doubled quotes,
    operators), each followed by a space, and reading it back gives the same
    token types and texts. *)
Theorem Tokenize_print xs :
  Forall printable xs ->
  exists ts, Tokenize (string_of_runes (print xs)) = Ok ts /\
    ((fun t => (Type_ t, Text t)) <$> ts) = (fst <$> xs) ++ [(EOF, "")].
Proof.
  intros Hxs. destruct (lexes_print [] xs Hxs) as (ts & Hl & Hm). exists ts. split; [|done].
  apply Tokenize_lexes. rewrite runes_of_string_of_runes by by apply print_valid. done.
Qed.

(** [WHERE name >= 'it''s' AND n = -5]. *)
Definition sample_lexemes : list (TokenType * string * list Z) :=
  [(WHERE, "where", runes_of "where"); (IDENT, "name", runes_of "name"); (GE, ">=", runes_of ">=");
   (STRING, "it's", runes_of "'it''s'"); (AND, "AND", runes_of "AND"); (IDENT, "n", runes_of "n");
   (EQ, "=", runes_of "="); (NUMBER, "-5", runes_of "-5")].

Lemma Tokenize_print_witness :
  Forall printable sample_lexemes /\
  exists ts, Tokenize (string_of_runes (print sample_lexemes)) = Ok ts /\ length ts = 9%nat.
Proof.
  assert (Hs : Forall printable sample_lexemes).
  { assert (Hv : Forall (fun x : TokenType * string * list Z => Forall valid_rune x.2) sample_lexemes)
      by (apply (bool_decide_unpack _); vm_compute; exact I).
    assert (Hl : Forall (fun x : TokenType * string * list Z => lexeme x.1.1 x.1.2 x.2 [32]) sample_lexemes).
    2:{ exact (proj2 (Forall_and _ _) (conj Hl Hv)). }
    unfold sample_lexemes. repeat (apply Forall_cons; split); [..|constructor].
    - exact (lex_word 119 (runes_of "here") [32] eq_refl eq_refl eq_refl).
    - exact (lex_word 110 (runes_of "ame") [32] eq_refl eq_refl eq_refl).
    - exact (lex_ge [32]).
    - exact (lex_string (runes_of "it's") [32] eq_refl).
    - exact (lex_word 65 (runes_of "ND") [32] eq_refl eq_refl eq_refl).
    - exact (lex_word 110 [] [32] eq_refl eq_refl eq_refl).
    - exact (lex_eq [32]).
    - exact (lex_number true 53 [] [32] eq_refl eq_refl eq_refl). }
  split; [exact Hs|]. destruct (Tokenize_print sample_lexemes Hs) as (ts & E & Hm).
  exists ts. split; [exact E|]. apply (f_equal length) in Hm. rewrite length_fmap in Hm. exact Hm.
Defined.

End LexProofs.
