(* ===== verification/Ast.v ===== *)
(** * Ast: the syntax trees of SQL statements

    Models the package [sql/ast] and [types/index_type.go]: a constructor per
    node type, with the fields of the Go structs in their order.  A missing
    WHERE clause is the Go nil interface, here [None]. *)

From S2P Require Import Prelude GoRuntime.

(** [type IndexType int] with its two constants. *)
Definition IndexType : Type := Z.
Definition IndexTypeHash : IndexType := 0.
Definition IndexTypeBTree : IndexType := 1.

#[export] Instance IndexType_eq_dec : EqDecision IndexType.
Proof. unfold IndexType. apply _. Defined.

Definition Ordinal (t : IndexType) : Z := t.
Definition IndexTypeFromOrdinal (o : Z) : IndexType := o.

Record SqlIdent : Type := NewSqlIdent {
  ident_text : string;
  ident_offset : nat;
  ident_line : nat;
  ident_column : nat
}.

#[export] Instance SqlIdent_eq_dec : EqDecision SqlIdent.
Proof. solve_decision. Defined.

Inductive Expr : Type :=
  | BinaryExpr (op : string) (left right : Expr)
  | ColumnRefExpr (name : SqlIdent)
  | LiteralInt64Expr (value : Z)
  | LiteralStringExpr (value : string).

#[export] Instance Expr_eq_dec : EqDecision Expr.
Proof. solve_decision. Defined.

Record ColumnDef : Type := NewColumnDef { cd_name : SqlIdent; cd_typeName : string }.

#[export] Instance ColumnDef_eq_dec : EqDecision ColumnDef.
Proof. solve_decision. Defined.

Inductive Statement : Type :=
  | CreateTableStmt (tableName : SqlIdent) (columns : list ColumnDef)
  | CreateIndexStmt (indexName tableName columnName : SqlIdent) (indexType : IndexType)
  | InsertStmt (tableName : SqlIdent) (values : list Expr)
  | SelectStmt (selectAll : bool) (columns : list SqlIdent) (tableName : SqlIdent)
      (where_ : option Expr)
  | ExplainStmt (inner : Statement).

#[export] Instance Statement_eq_dec : EqDecision Statement.
Proof. solve_decision. Defined.
