(* ===== verification/Parser.v ===== *)
(** * Parser: SQL statements

    Models [sql/parser/sql_parser.go]: a recursive-descent parser over a token
    slice and a position, one definition per method, in the state monad.  The
    loops and the recursion of expressions take fuel; the number of tokens is
    always enough for a token list that ends in [EOF], which every list of the
    lexer does ([Parse_correct] includes termination).

    [GStmt] is the specification: the grammar of the language, with the
    precedence and associativity of the operators; the theorems say that
    [Parse] returns exactly the tree the grammar gives. *)

From S2P Require Import Prelude GoRuntime Utf8 Lexer Ast.

(** ** [strconv.ParseInt(s, 10, 64)] *)
Definition digit_value (c : byte) : option Z :=
  if (48 <=? u8 c) && (u8 c <=? 57) then Some (u8 c - 48) else None.

Fixpoint digits_value (acc : Z) (l : list byte) : option Z :=
  match l with
  | [] => Some acc
  | c :: l => d ← digit_value c; digits_value (acc * 10 + d) l
  end.

Definition parse_magnitude (l : list byte) : option Z :=
  match l with [] => None | _ => digits_value 0 l end.

Definition ParseInt (s : string) : option Z :=
  v ← match bytes_of s with
      | "-"%char :: l => Z.opp <$> parse_magnitude l
      | "+"%char :: l => parse_magnitude l
      | l => parse_magnitude l
      end;
  if bool_decide (in_sint 64 v) then Some v else None.

Module SqlParser.

Record t : Type := { tokens : list Token; pos : nat }.

Definition current : ST t Token := fun p =>
  (of_option (tokens p !! Nat.min (pos p) (length (tokens p) - 1)), p).

Definition advance : ST t unit :=
  smodify (fun p => {| tokens := tokens p; pos := S (pos p) |}).

Definition currentType : ST t TokenType := tok <- current ;; sret (Type_ tok).

Definition errorf {A} (message : string) : ST t A :=
  tok <- current ;;
  sfail (SqlSyntaxError message (StartOffset tok) (Line tok) (Column tok)).

Definition match_ (ty : TokenType) : ST t bool :=
  cur <- currentType ;;
  if decide (cur = ty) then advance ;;; sret true else sret false.

Definition expect (ty : TokenType) : ST t unit :=
  cur <- currentType ;;
  if decide (cur = ty) then advance
  else errorf ("Expected " +:+ token_type_String ty +:+ ", got " +:+ token_type_String cur).

Definition expectIdent : ST t SqlIdent :=
  tok <- current ;;
  expect IDENT ;;;
  sret (NewSqlIdent (Text tok) (StartOffset tok) (Line tok) (Column tok)).

(** The lookup tables of the parser. *)
Definition comparisonOps (ty : TokenType) : option string :=
  match ty with
  | EQ => Some "=" | NE => Some "<>" | LT => Some "<"
  | LE => Some "<=" | GT => Some ">" | GE => Some ">="
  | _ => None
  end%string.
Definition indexTypes (ty : TokenType) : option IndexType :=
  match ty with HASH => Some IndexTypeHash | BTREE => Some IndexTypeBTree | _ => None end.
Definition typeTokens (ty : TokenType) : bool :=
  match ty with INT64 | VARCHAR | IDENT => true | _ => false end.
Definition literalTokens (ty : TokenType) : bool :=
  match ty with NUMBER | STRING => true | _ => false end.

(** The loop of [parseCommaList], after its first item. *)
Fixpoint comma_loop {A} (fuel : nat) (parse : ST t A) : ST t (list A) :=
  match fuel with
  | O => spanic
  | S fuel =>
    more <- match_ COMMA ;;
    if more : bool then
      item <- parse ;;
      items <- comma_loop fuel parse ;;
      sret (item :: items)
    else sret []
  end.

Definition parseCommaList {A} (fuel : nat) (parse : ST t A) : ST t (list A) :=
  item <- parse ;;
  items <- comma_loop fuel parse ;;
  sret (item :: items).

Definition parseParenList {A} (fuel : nat) (parse : ST t A) : ST t (list A) :=
  expect LPAREN ;;;
  items <- parseCommaList fuel parse ;;
  expect RPAREN ;;;
  sret items.

Definition parseLiteral : ST t Expr :=
  token <- current ;;
  advance ;;;
  if decide (Type_ token = NUMBER) then
    match ParseInt (Text token) with
    | None => errorf ("Invalid number: " +:+ Text token)
    | Some val => sret (LiteralInt64Expr val)
    end
  else sret (LiteralStringExpr (Text token)).

(** The loop of [parseBinaryLeft]. *)
Fixpoint binary_loop (fuel : nat) (next : ST t Expr) (op : TokenType) (opStr : string)
    (left : Expr) : ST t Expr :=
  match fuel with
  | O => spanic
  | S fuel =>
    more <- match_ op ;;
    if more : bool then
      right <- next ;;
      binary_loop fuel next op opStr (BinaryExpr opStr left right)
    else sret left
  end.

Definition parseBinaryLeft (fuel : nat) (next : ST t Expr) (op : TokenType) (opStr : string) :
    ST t Expr :=
  left <- next ;;
  binary_loop fuel next op opStr left.

Definition parsePrimary (parseExpr : ST t Expr) : ST t Expr :=
  tokenType <- currentType ;;
  if decide (tokenType = IDENT) then
    ident <- expectIdent ;; sret (ColumnRefExpr ident)
  else if literalTokens tokenType then parseLiteral
  else if decide (tokenType = LPAREN) then
    advance ;;;
    expr <- parseExpr ;;
    expect RPAREN ;;;
    sret expr
  else errorf ("Unexpected token: " +:+ token_type_String tokenType).

Definition parseComparison (parseExpr : ST t Expr) : ST t Expr :=
  left <- parsePrimary parseExpr ;;
  cur <- currentType ;;
  match comparisonOps cur with
  | Some op =>
    advance ;;;
    right <- parsePrimary parseExpr ;;
    sret (BinaryExpr op left right)
  | None => sret left
  end.

Fixpoint parseExpr (fuel : nat) : ST t Expr :=
  match fuel with
  | O => spanic
  | S fuel' =>
    parseBinaryLeft fuel
      (parseBinaryLeft fuel (parseComparison (parseExpr fuel')) AND "AND") OR "OR"
  end.

Definition parseColumnDef : ST t ColumnDef :=
  name <- expectIdent ;;
  cur <- current ;;
  if typeTokens (Type_ cur) then
    let typeName := ToUpper (Text cur) in
    advance ;;;
    sret (NewColumnDef name typeName)
  else errorf ("Expected type name, got " +:+ token_type_String (Type_ cur)).

Definition parseCreateTable (fuel : nat) : ST t Statement :=
  advance ;;;
  tableName <- expectIdent ;;
  columns <- parseParenList fuel parseColumnDef ;;
  match_ SEMICOLON ;;;
  sret (CreateTableStmt tableName columns).

Definition parseCreateIndex : ST t Statement :=
  advance ;;;
  indexName <- expectIdent ;;
  expect ON ;;;
  tableName <- expectIdent ;;
  expect LPAREN ;;;
  columnName <- expectIdent ;;
  expect RPAREN ;;;
  expect USING ;;;
  cur <- currentType ;;
  match indexTypes cur with
  | None => errorf ("Expected HASH or BTREE, got " +:+ token_type_String cur)
  | Some idxType =>
    advance ;;;
    match_ SEMICOLON ;;;
    sret (CreateIndexStmt indexName tableName columnName idxType)
  end.

Definition parseCreate (fuel : nat) : ST t Statement :=
  advance ;;;
  cur <- currentType ;;
  match cur with
  | TABLE => parseCreateTable fuel
  | INDEX => parseCreateIndex
  | _ => errorf ("Expected TABLE or INDEX, got " +:+ token_type_String cur)
  end.

Definition parseInsert (fuel : nat) : ST t Statement :=
  advance ;;;
  expect INTO ;;;
  tableName <- expectIdent ;;
  expect VALUES ;;;
  values <- parseParenList fuel parseLiteral ;;
  match_ SEMICOLON ;;;
  sret (InsertStmt tableName values).

Definition parseSelect (fuel : nat) : ST t Statement :=
  advance ;;;
  star <- match_ ASTERISK ;;
  columns <- (if star : bool then sret [] else parseCommaList fuel expectIdent) ;;
  expect FROM ;;;
  tableName <- expectIdent ;;
  has <- match_ WHERE ;;
  where_ <- (if has : bool then e <- parseExpr fuel ;; sret (Some e) else sret None) ;;
  match_ SEMICOLON ;;;
  sret (SelectStmt star columns tableName where_).

Fixpoint parseStatement (fuel : nat) : ST t Statement :=
  match fuel with
  | O => spanic
  | S fuel' =>
    cur <- currentType ;;
    match cur with
    | EXPLAIN =>
      advance ;;;
      inner <- parseStatement fuel' ;;
      match_ SEMICOLON ;;;
      sret (ExplainStmt inner)
    | CREATE => parseCreate fuel
    | INSERT => parseInsert fuel
    | SELECT => parseSelect fuel
    | _ => errorf ("Unexpected token: " +:+ token_type_String cur)
    end
  end.

(** A parse error is returned next to the statement it followed; the callers
    look at the error first. *)
Definition Parse (toks : list Token) : outcome Statement :=
  ((stmt <- parseStatement (S (length toks)) ;;
    expect EOF ;;;
    sret stmt) {| tokens := toks; pos := 0 |}).1.

End SqlParser.

(** ** The grammar *)
Module Grammar.
Import SqlParser.

Definition ident_of (t : Token) : SqlIdent :=
  NewSqlIdent (Text t) (StartOffset t) (Line t) (Column t).

Inductive GComma {A} (g : list Token -> A -> Prop) : list Token -> list A -> Prop :=
  | comma_one ts a : g ts a -> GComma g ts [a]
  | comma_more ts a c ts' l :
      g ts a -> Type_ c = COMMA -> GComma g ts' l -> GComma g (ts ++ c :: ts') (a :: l).

Inductive GParen {A} (g : list Token -> A -> Prop) : list Token -> list A -> Prop :=
  | paren_list lp ts rp l :
      Type_ lp = LPAREN -> GComma g ts l -> Type_ rp = RPAREN -> GParen g (lp :: ts ++ [rp]) l.

Inductive GIdent : list Token -> SqlIdent -> Prop :=
  | g_ident t : Type_ t = IDENT -> GIdent [t] (ident_of t).

Inductive GLiteral : list Token -> Expr -> Prop :=
  | g_number t v : Type_ t = NUMBER -> ParseInt (Text t) = Some v -> GLiteral [t] (LiteralInt64Expr v)
  | g_string t : Type_ t <> NUMBER -> GLiteral [t] (LiteralStringExpr (Text t)).

(** Expressions, by precedence level. *)
Inductive level : Type := LOr | LAnd | LCmp | LPrim.

Inductive GExpr : level -> list Token -> Expr -> Prop :=
  | prim_column t : Type_ t = IDENT -> GExpr LPrim [t] (ColumnRefExpr (ident_of t))
  | prim_literal t e : literalTokens (Type_ t) = true -> GLiteral [t] e -> GExpr LPrim [t] e
  | prim_paren lp ts rp e :
      Type_ lp = LPAREN -> GExpr LOr ts e -> Type_ rp = RPAREN -> GExpr LPrim (lp :: ts ++ [rp]) e
  | cmp_prim ts e : GExpr LPrim ts e -> GExpr LCmp ts e
  | cmp_op ts1 l o op ts2 r :
      GExpr LPrim ts1 l -> comparisonOps (Type_ o) = Some op -> GExpr LPrim ts2 r ->
      GExpr LCmp (ts1 ++ o :: ts2) (BinaryExpr op l r)
  | and_cmp ts e : GExpr LCmp ts e -> GExpr LAnd ts e
  | and_more ts1 l o ts2 r :
      GExpr LAnd ts1 l -> Type_ o = AND -> GExpr LCmp ts2 r ->
      GExpr LAnd (ts1 ++ o :: ts2) (BinaryExpr "AND" l r)
  | or_and ts e : GExpr LAnd ts e -> GExpr LOr ts e
  | or_more ts1 l o ts2 r :
      GExpr LOr ts1 l -> Type_ o = OR -> GExpr LAnd ts2 r ->
      GExpr LOr (ts1 ++ o :: ts2) (BinaryExpr "OR" l r).

Inductive GColumnDef : list Token -> ColumnDef -> Prop :=
  | g_column_def n ty :
      Type_ n = IDENT -> typeTokens (Type_ ty) = true ->
      GColumnDef [n; ty] (NewColumnDef (ident_of n) (ToUpper (Text ty))).

Inductive GColumns : list Token -> bool -> list SqlIdent -> Prop :=
  | g_star t : Type_ t = ASTERISK -> GColumns [t] true []
  | g_columns ts l : GComma GIdent ts l -> GColumns ts false l.

Inductive GWhere : list Token -> option Expr -> Prop :=
  | g_no_where : GWhere [] None
  | g_where t ts e : Type_ t = WHERE -> GExpr LOr ts e -> GWhere (t :: ts) (Some e).

(** [GStmt n ts s]: [ts] is the statement [s] without its trailing
    semicolons, of which it may have up to [n]. *)
Inductive GStmt : nat -> list Token -> Statement -> Prop :=
  | g_explain k n ts s :
      Type_ k = EXPLAIN -> GStmt n ts s -> GStmt (S n) (k :: ts) (ExplainStmt s)
  | g_create_table k1 k2 name ts cols :
      Type_ k1 = CREATE -> Type_ k2 = TABLE -> Type_ name = IDENT -> GParen GColumnDef ts cols ->
      GStmt 1 (k1 :: k2 :: name :: ts) (CreateTableStmt (ident_of name) cols)
  | g_create_index k1 k2 idx k3 tbl lp col rp k4 ty ity :
      Type_ k1 = CREATE -> Type_ k2 = INDEX -> Type_ idx = IDENT -> Type_ k3 = ON ->
      Type_ tbl = IDENT -> Type_ lp = LPAREN -> Type_ col = IDENT -> Type_ rp = RPAREN ->
      Type_ k4 = USING -> indexTypes (Type_ ty) = Some ity ->
      GStmt 1 [k1; k2; idx; k3; tbl; lp; col; rp; k4; ty]
        (CreateIndexStmt (ident_of idx) (ident_of tbl) (ident_of col) ity)
  | g_insert k1 k2 tbl k3 ts vals :
      Type_ k1 = INSERT -> Type_ k2 = INTO -> Type_ tbl = IDENT -> Type_ k3 = VALUES ->
      GParen GLiteral ts vals ->
      GStmt 1 (k1 :: k2 :: tbl :: k3 :: ts) (InsertStmt (ident_of tbl) vals)
  | g_select k1 cs star cols k2 tbl ws w :
      Type_ k1 = SELECT -> GColumns cs star cols -> Type_ k2 = FROM -> Type_ tbl = IDENT ->
      GWhere ws w ->
      GStmt 1 (k1 :: cs ++ k2 :: tbl :: ws) (SelectStmt star cols (ident_of tbl) w).

Definition semicolons (ts : list Token) : Prop := Forall (fun t => Type_ t = SEMICOLON) ts.

(** A whole input: a statement, its semicolons, and the end of the text. *)
Definition GInput (toks : list Token) (s : Statement) : Prop :=
  exists n ts semis e rest, toks = ts ++ semis ++ e :: rest /\ GStmt n ts s /\
    semicolons semis /\ (length semis <= n)%nat /\ Type_ e = EOF.

End Grammar.

(** ** Soundness *)
Module ParseProofs.
Import SqlParser Grammar.

Section proofs.
Implicit Types (pre rest ts toks : list Token).

Definition ends_eof toks : Prop := exists ts e, toks = ts ++ [e] /\ Type_ e = EOF.

(** The parser that has read [pre] and has [rest] ahead. *)
Definition St pre rest : t := {| tokens := pre ++ rest; pos := length pre |}.

(** A syntax error at a token of the input. *)
Definition token_error toks (e : go_error) : Prop :=
  exists tok msg, tok ∈ toks /\ e = SqlSyntaxError msg (StartOffset tok) (Line tok) (Column tok).

(** [yields m pre rest Q]: [m] returns a result and consumes tokens as [Q]
    says, or fails with an error at a token; it does not panic. *)
Definition yields {A} (m : ST t A) pre rest (Q : A -> list Token -> list Token -> Prop) : Prop :=
  match m (St pre rest) with
  | (Ok a, s') => exists ts rest', rest = ts ++ rest' /\ s' = St (pre ++ ts) rest' /\ Q a ts rest'
  | (Err e, _) => token_error (pre ++ rest) e
  | (Panic, _) => False
  end.

Lemma yields_bind {A B} (m : ST t A) (k : A -> ST t B) pre rest Q Q1 :
  yields m pre rest Q1 ->
  (forall a ts rest', rest = ts ++ rest' -> Q1 a ts rest' ->
     yields (k a) (pre ++ ts) rest' (fun b ts2 rest2 => Q b (ts ++ ts2) rest2)) ->
  yields (sbind m k) pre rest Q.
Proof.
  unfold yields, sbind. destruct (m (St pre rest)) as [[a|e|] s']; [|done..].
  intros (ts & rest' & -> & -> & HQ) Hk. specialize (Hk a ts rest' eq_refl HQ).
  destruct (k a (St (pre ++ ts) rest')) as [[b|e|] s''].
  - destruct Hk as (ts2 & rest2 & -> & -> & HQ2). exists (ts ++ ts2), rest2.
    by rewrite !app_assoc.
  - by rewrite <- app_assoc in Hk.
  - done.
Qed.

Lemma yields_mono {A} (m : ST t A) pre rest Q Q' :
  yields m pre rest Q -> (forall a ts rest', rest = ts ++ rest' -> Q a ts rest' -> Q' a ts rest') ->
  yields m pre rest Q'.
Proof.
  unfold yields. destruct (m (St pre rest)) as [[a|e|] s']; [|done..].
  intros (ts & rest' & -> & -> & HQ) H. exists ts, rest'. auto.
Qed.

Lemma yields_ret {A} (a : A) pre rest (Q : A -> list Token -> list Token -> Prop) :
  Q a [] rest -> yields (sret a) pre rest Q.
Proof. intros HQ. exists [], rest. by rewrite app_nil_r. Qed.

(** The token under the parser; at the end it is the final [EOF]. *)
Definition cur pre rest : Token :=
  default (NewToken EOF "" 0 0 0 0) (head (rest ++ option_list (last pre))).

Lemma ends_eof_last pre : ends_eof pre -> exists e, last pre = Some e /\ Type_ e = EOF /\ pre <> [].
Proof. intros (ts & e & -> & He). exists e. rewrite last_snoc. split_and!; [done|done|by destruct ts]. Qed.

Lemma current_run pre rest :
  ends_eof (pre ++ rest) ->
  current (St pre rest) = (Ok (cur pre rest), St pre rest) /\ cur pre rest ∈ pre ++ rest /\
  (rest = [] -> Type_ (cur pre rest) = EOF).
Proof.
  intros He. unfold current, St; cbn [tokens pos]. destruct rest as [|t rest].
  - rewrite app_nil_r in *. destruct (ends_eof_last _ He) as (e & Hl & Hty & Hne).
    assert (Hc : cur pre [] = e) by (unfold cur; cbn; by rewrite Hl). rewrite Hc.
    rewrite Nat.min_r by lia. rewrite last_lookup in Hl.
    replace (length pre - 1)%nat with (Init.Nat.pred (length pre)) by lia. rewrite Hl.
    split_and!; [done|by eapply list_elem_of_lookup_2|done].
  - change (cur pre (t :: rest)) with t. rewrite Nat.min_l by len.
    rewrite list_lookup_middle by done. split_and!; [done|set_solver|done].
Qed.

Lemma cur_cons pre t rest : cur pre (t :: rest) = t.
Proof. done. Qed.

Lemma yields_current pre rest :
  ends_eof (pre ++ rest) ->
  yields current pre rest (fun a ts _ => ts = [] /\ a = cur pre rest /\ (rest = [] -> Type_ a = EOF)).
Proof.
  intros He. destruct (current_run pre rest He) as (E & _ & Hty). unfold yields. rewrite E.
  exists [], rest. by rewrite app_nil_r.
Qed.

Lemma yields_currentType pre rest :
  ends_eof (pre ++ rest) ->
  yields currentType pre rest (fun ty ts _ => ts = [] /\ ty = Type_ (cur pre rest) /\ (rest = [] -> ty = EOF)).
Proof.
  intros He. unfold currentType. eapply yields_bind; [by apply yields_current|].
  intros a ts rest' -> (-> & -> & Hty). by apply yields_ret.
Qed.

Lemma yields_errorf {A} msg pre rest (Q : A -> list Token -> list Token -> Prop) :
  ends_eof (pre ++ rest) -> yields (errorf msg) pre rest Q.
Proof.
  intros He. destruct (current_run pre rest He) as (E & Hin & _).
  unfold yields, errorf, sbind. rewrite E. cbn. by exists (cur pre rest), msg.
Qed.

Lemma advance_run pre t rest : advance (St pre (t :: rest)) = (Ok tt, St (pre ++ [t]) rest).
Proof. unfold advance, smodify, St; cbn. rewrite <- app_assoc, length_app; cbn. by rewrite Nat.add_1_r. Qed.

Lemma yields_advance pre t rest :
  yields advance pre (t :: rest) (fun _ ts rest' => ts = [t] /\ rest' = rest).
Proof. unfold yields. rewrite advance_run. by exists [t], rest. Qed.

Lemma more_tokens pre t rest : ends_eof (pre ++ t :: rest) -> Type_ t <> EOF -> rest <> [].
Proof.
  intros (ts & e & E & He) Ht ->. apply app_inj_tail in E as [_ ->]. done.
Qed.

Lemma yields_match ty pre rest :
  ends_eof (pre ++ rest) -> ty <> EOF ->
  yields (match_ ty) pre rest (fun b ts rest' =>
    if b then exists t, ts = [t] /\ Type_ t = ty /\ rest' <> [] else ts = [] /\ Type_ (cur pre rest) <> ty).
Proof.
  intros He Hne. unfold match_. eapply yields_bind; [by apply yields_currentType|].
  intros c ts rest' -> (-> & -> & Hty). cbn [app] in *. rewrite app_nil_r. case_decide as Hc.
  - destruct rest' as [|t rest]; [by rewrite (Hty eq_refl) in Hc|]. rewrite cur_cons in Hc.
    eapply yields_bind; [apply yields_advance|]. intros [] ts r E [-> ->]. apply yields_ret.
    exists t. split_and!; [done|done|]. eapply more_tokens; [done|congruence].
  - apply yields_ret. done.
Qed.

Lemma yields_expect ty pre rest :
  ends_eof (pre ++ rest) -> ty <> EOF ->
  yields (expect ty) pre rest (fun _ ts rest' => exists t, ts = [t] /\ Type_ t = ty /\ rest' <> []).
Proof.
  intros He Hne. unfold expect. eapply yields_bind; [by apply yields_currentType|].
  intros c ts rest' -> (-> & -> & Hty). cbn [app] in *. rewrite app_nil_r. case_decide as Hc.
  - destruct rest' as [|t rest]; [by rewrite (Hty eq_refl) in Hc|]. rewrite cur_cons in Hc.
    eapply yields_mono; [apply yields_advance|]. intros [] ts r E [-> ->]. exists t.
    split_and!; [done|done|]. eapply more_tokens; [done|congruence].
  - by apply yields_errorf.
Qed.

Lemma yields_expectIdent pre rest :
  ends_eof (pre ++ rest) ->
  yields expectIdent pre rest (fun a ts rest' => GIdent ts a /\ rest' <> [] /\ ts <> []).
Proof.
  intros He. unfold expectIdent. eapply yields_bind; [by apply yields_current|].
  intros c ts rest' -> (-> & -> & _). cbn [app] in *. rewrite app_nil_r.
  eapply yields_bind; [by apply yields_expect|]. intros [] ts rest'' -> (t & -> & Ht & Hne).
  apply yields_ret. cbn [app]. split_and!; [by constructor|done|done].
Qed.

(** A sub-parser that is called with tokens ahead, at most [n] of them. *)
Definition sound_for {A} (n : nat) (p : ST t A) (g : list Token -> A -> Prop) : Prop :=
  forall pre rest, ends_eof (pre ++ rest) -> rest <> [] -> (length rest <= n)%nat ->
    yields p pre rest (fun a ts _ => g ts a /\ ts <> []).

Lemma ends_eof_app pre ts rest : ends_eof (pre ++ ts ++ rest) -> ends_eof ((pre ++ ts) ++ rest).
Proof. by rewrite app_assoc. Qed.
#[local] Hint Resolve ends_eof_app : core.

Lemma sound_literal n : sound_for n parseLiteral GLiteral.
Proof.
  intros pre rest He Hne _. destruct rest as [|t rest]; [done|]. unfold parseLiteral.
  eapply yields_bind; [by apply yields_current|].
  intros c ts rest' E (-> & -> & _). cbn [app] in E. subst rest'. rewrite cur_cons, app_nil_r.
  eapply yields_bind; [apply yields_advance|]. intros [] ts r E [-> ->].
  assert (He' : ends_eof ((pre ++ [t]) ++ rest)) by (rewrite <- app_assoc; done).
  case_decide as Hn.
  - destruct (ParseInt (Text t)) as [v|] eqn:Hv; [|by apply yields_errorf].
    apply yields_ret. cbn. split; [by constructor|done].
  - apply yields_ret. cbn. split; [by constructor|done].
Qed.

Lemma sound_ident n : sound_for n expectIdent GIdent.
Proof.
  intros pre rest He _ _. eapply yields_mono; [by apply yields_expectIdent|].
  intros a ts rest' _ (? & _ & ?). done.
Qed.

Lemma sound_columnDef n : sound_for n parseColumnDef GColumnDef.
Proof.
  intros pre rest He Hne _. unfold parseColumnDef.
  eapply yields_bind; [by apply yields_expectIdent|].
  intros a ts rest' -> (Ha & Hne' & _). destruct rest' as [|ty rest']; [done|].
  eapply yields_bind; [apply yields_current; auto|].
  intros c ts' r E (-> & -> & _). cbn [app] in E. subst r. rewrite cur_cons, app_nil_r.
  destruct (typeTokens (Type_ ty)) eqn:Hty; [|apply yields_errorf; auto].
  eapply yields_bind; [apply yields_advance|]. intros [] ts' r E [-> ->].
  apply yields_ret. cbn [app]. inversion Ha; subst. split; [by constructor|done].
Qed.

Section lists.
Context {A : Type} (p : ST t A) (g : list Token -> A -> Prop).

(** What the loop of [parseCommaList] reads after the first item. *)
Inductive comma_tail : list Token -> list A -> Prop :=
  | tail_end : comma_tail [] []
  | tail_item c ts a ts' l :
      Type_ c = COMMA -> g ts a -> comma_tail ts' l -> comma_tail (c :: ts ++ ts') (a :: l).

Lemma comma_tail_list ts a ts' l : g ts a -> comma_tail ts' l -> GComma g (ts ++ ts') (a :: l).
Proof.
  intros Ha Hl. revert ts a Ha. induction Hl as [|c ts1 a1 ts2 l Hc Ha1 Hl IH]; intros ts a Ha.
  - rewrite app_nil_r. by constructor.
  - apply comma_more; auto.
Qed.

Lemma yields_comma_loop fuel pre rest :
  ends_eof (pre ++ rest) -> (length rest < fuel)%nat -> sound_for (length rest) p g ->
  yields (comma_loop fuel p) pre rest (fun l ts _ => comma_tail ts l).
Proof.
  revert pre rest. induction fuel as [|fuel IH]; intros pre rest He Hf Hp; [lia|].
  cbn [comma_loop]. eapply yields_bind; [by apply yields_match|].
  intros more ts rest' E Hm. destruct more; [|apply yields_ret; destruct Hm as [-> _]; constructor].
  destruct Hm as (c & -> & Hc & Hne). subst rest. cbn [app] in *.
  assert (He' : ends_eof ((pre ++ [c]) ++ rest')) by (rewrite <- app_assoc; done).
  eapply yields_bind; [apply Hp; [done|done|cbn; lia]|].
  intros a ts rest2 -> [Ha Hts]. eapply yields_bind.
  { apply IH; [auto| |].
    - cbn in Hf. rewrite length_app in Hf. destruct ts; [done|]. cbn in Hf. lia.
    - intros pre' r He2 Hr Hl. apply Hp; [done..|]. cbn. len. }
  intros l ts2 rest3 -> Hl. apply yields_ret. rewrite app_nil_r. by constructor.
Qed.

Lemma yields_parenList fuel pre rest :
  ends_eof (pre ++ rest) -> (length rest <= fuel)%nat -> sound_for (length rest) p g ->
  yields (parseParenList fuel p) pre rest (fun l ts rest' => GParen g ts l /\ rest' <> []).
Proof.
  intros He Hf Hp. unfold parseParenList, parseCommaList.
  eapply yields_bind; [by apply yields_expect|].
  intros [] ts rest1 -> (lp & -> & Hlp & Hne1). cbn [app] in *.
  assert (He1 : ends_eof ((pre ++ [lp]) ++ rest1)) by (rewrite <- app_assoc; done).
  eapply yields_bind with (Q1 := fun l ts _ => GComma g ts l).
  - eapply yields_bind; [apply Hp; [done|done|cbn; lia]|].
    intros a ts rest2 -> [Ha Hts]. eapply yields_bind.
    { apply yields_comma_loop; [auto| |].
      - cbn in Hf. rewrite length_app in Hf. destruct ts; [done|]. cbn in Hf. lia.
      - intros pre' r He2 Hr Hl. apply Hp; [done..|]. cbn. len. }
    intros l ts2 rest3 -> Hl. apply yields_ret. rewrite app_nil_r. by apply comma_tail_list.
  - intros l ts rest2 -> Hl. eapply yields_bind; [apply yields_expect; auto|].
    intros [] ts' rest3 -> (rp & -> & Hrp & Hne3). apply yields_ret. rewrite app_nil_r.
    split; [by constructor|done].
Qed.

Lemma yields_commaList fuel pre rest :
  ends_eof (pre ++ rest) -> rest <> [] -> (length rest <= fuel)%nat -> sound_for (length rest) p g ->
  yields (parseCommaList fuel p) pre rest (fun l ts _ => GComma g ts l).
Proof.
  intros He Hne Hf Hp. unfold parseCommaList.
  eapply yields_bind; [by apply Hp|]. intros a ts rest2 -> [Ha Hts]. eapply yields_bind.
  { apply yields_comma_loop; [auto| |].
    - rewrite length_app in Hf. destruct ts; [done|]. cbn in Hf. lia.
    - intros pre' r He2 Hr Hl. apply Hp; [done..|]. len. }
  intros l ts2 rest3 -> Hl. apply yields_ret. rewrite app_nil_r. by apply comma_tail_list.
Qed.
End lists.

(** The loop of [parseBinaryLeft]: the tree grows to the left. *)
Definition left_more (op : TokenType) (opStr : string) (top next : level) : Prop :=
  forall ts1 l o ts2 r, GExpr top ts1 l -> Type_ o = op -> GExpr next ts2 r ->
    GExpr top (ts1 ++ o :: ts2) (BinaryExpr opStr l r).

Lemma yields_binary_loop fuel p op opStr top next pre rest ts0 left :
  left_more op opStr top next -> op <> EOF ->
  ends_eof (pre ++ rest) -> (length rest < fuel)%nat -> sound_for (length rest) p (GExpr next) ->
  GExpr top ts0 left ->
  yields (binary_loop fuel p op opStr left) pre rest (fun e ts _ => GExpr top (ts0 ++ ts) e).
Proof.
  intros Hmore Hop. revert pre rest ts0 left.
  induction fuel as [|fuel IH]; intros pre rest ts0 left He Hf Hp Hleft; [lia|].
  cbn [binary_loop]. eapply yields_bind; [by apply yields_match|].
  intros more ts rest' E Hm. destruct more; [|destruct Hm as [-> _]; apply yields_ret; by rewrite !app_nil_r].
  destruct Hm as (c & -> & Hc & Hne). subst rest. cbn [app] in *.
  assert (He' : ends_eof ((pre ++ [c]) ++ rest')) by (rewrite <- app_assoc; done).
  eapply yields_bind; [apply Hp; [done|done|cbn; lia]|].
  intros r ts rest2 -> [Hr Hts].
  eapply yields_mono; [apply (IH _ _ (ts0 ++ c :: ts))|].
  - auto.
  - cbn in Hf. rewrite length_app in Hf. destruct ts; [done|]. cbn in Hf. lia.
  - intros pre' r' He2 Hr' Hl. apply Hp; [done..|]. cbn. len.
  - by apply Hmore.
  - intros e ts3 rest3 -> Hgood. by rewrite <- app_assoc in Hgood.
Qed.

Lemma sound_binaryLeft n fuel p op opStr top next :
  left_more op opStr top next -> op <> EOF -> (forall ts e, GExpr next ts e -> GExpr top ts e) ->
  (n <= fuel)%nat -> sound_for n p (GExpr next) -> sound_for n (parseBinaryLeft fuel p op opStr) (GExpr top).
Proof.
  intros Hmore Hop Hup Hn Hp pre rest He Hne Hl. unfold parseBinaryLeft.
  eapply yields_bind; [by apply Hp|]. intros e ts rest' -> [He1 Hts].
  eapply yields_mono; [apply (yields_binary_loop fuel p op opStr top next _ _ ts e); auto|].
  - rewrite length_app in Hl. destruct ts; [done|]. cbn in Hl. lia.
  - intros pre' r He2 Hr Hl2. apply Hp; [done..|]. rewrite length_app in Hl. lia.
  - intros e2 ts2 rest2 -> Hg. split; [done|]. by destruct ts.
Qed.

Lemma sound_primary n p :
  (forall pre rest, ends_eof (pre ++ rest) -> rest <> [] -> (length rest < n)%nat ->
     yields p pre rest (fun e ts _ => GExpr LOr ts e /\ ts <> [])) ->
  sound_for n (parsePrimary p) (GExpr LPrim).
Proof.
  intros Hp pre rest He Hne Hl. unfold parsePrimary.
  eapply yields_bind; [by apply yields_currentType|].
  intros ty ts r E (-> & -> & _). cbn [app] in E. subst r. rewrite app_nil_r. cbn [app].
  destruct rest as [|t rest]; [done|]. rewrite cur_cons. case_decide as Hi.
  { eapply yields_bind; [by apply yields_expectIdent|]. intros a ts r E (Ha & _ & Hts).
    apply yields_ret. rewrite app_nil_r. inversion Ha; subst. split; [by constructor|done]. }
  destruct (literalTokens (Type_ t)) eqn:Hlit.
  { eapply yields_mono; [by apply (sound_literal (length (t :: rest)))|].
    intros e ts r E [Hg Hts]. split; [|done]. inversion Hg; subst; cbn in E; injection E as <- <-;
      by apply prim_literal. }
  case_decide as Hlp; [|by apply yields_errorf].
  assert (Hne' : rest <> []) by (eapply more_tokens; [done|congruence]).
  eapply yields_bind; [apply yields_advance|]. intros [] ts r E [-> ->].
  assert (He' : ends_eof ((pre ++ [t]) ++ rest)) by (rewrite <- app_assoc; done).
  eapply yields_bind; [apply Hp; [done|done|cbn in Hl; lia]|].
  intros e ts rest2 -> [Hg _]. eapply yields_bind; [apply yields_expect; auto|].
  intros [] ts' rest3 -> (rp & -> & Hrp & _). apply yields_ret. rewrite app_nil_r.
  cbn [app]. split; [by apply prim_paren|done].
Qed.

Lemma sound_comparison n p :
  sound_for n (parsePrimary p) (GExpr LPrim) -> sound_for n (parseComparison p) (GExpr LCmp).
Proof.
  intros Hp pre rest He Hne Hl. unfold parseComparison.
  eapply yields_bind; [by apply Hp|]. intros l ts rest1 -> [Hg Hts].
  eapply yields_bind; [apply yields_currentType; auto|].
  intros ty ts' r E (-> & -> & Hty). cbn [app] in E. subst r. rewrite app_nil_r. cbn [app].
  destruct (comparisonOps (Type_ (cur (pre ++ ts) rest1))) as [op|] eqn:Hop.
  - destruct rest1 as [|o rest1]; [by rewrite (Hty eq_refl) in Hop|]. rewrite cur_cons in *.
    eapply yields_bind; [apply yields_advance|]. intros [] ts' r E [-> ->].
    assert (He' : ends_eof (((pre ++ ts) ++ [o]) ++ rest1)) by (rewrite <- !app_assoc; done).
    assert (Hne' : rest1 <> []).
    { eapply (more_tokens (pre ++ ts) o); [by rewrite <- app_assoc|]. by intros Ho; rewrite Ho in Hop. }
    eapply yields_bind; [apply Hp; [done|done|rewrite length_app in Hl; cbn in Hl; lia]|].
    intros r ts2 rest2 -> [Hg2 _]. apply yields_ret. rewrite app_nil_r. split; [by apply cmp_op|].
    by destruct ts.
  - apply yields_ret. rewrite app_nil_r. split; [by apply cmp_prim|done].
Qed.

Lemma sound_expr fuel pre rest :
  ends_eof (pre ++ rest) -> rest <> [] -> (length rest <= fuel)%nat ->
  yields (parseExpr fuel) pre rest (fun e ts _ => GExpr LOr ts e /\ ts <> []).
Proof.
  revert pre rest. induction fuel as [|fuel IH]; intros pre rest He Hne Hl.
  { destruct rest; [done|]. cbn in Hl. lia. }
  cbn [parseExpr]. apply (sound_binaryLeft (length rest) _ _ _ _ LOr LAnd); [|done|apply or_and|lia| |done|done|lia].
  { intros ? ? ? ? ? ? ? ?. by apply or_more. }
  apply (sound_binaryLeft (length rest) _ _ _ _ LAnd LCmp); [|done|apply and_cmp|lia|].
  { intros ? ? ? ? ? ? ? ?. by apply and_more. }
  apply sound_comparison, sound_primary. intros pre' rest' He' Hne' Hl'. apply IH; [done|done|lia].
Qed.

(** An expression does not end at the end of the text. *)
Lemma expr_last l ts e : GExpr l ts e -> exists ts' t, ts = ts' ++ [t] /\ Type_ t <> EOF.
Proof.
  assert (Hlast : forall ts1 (o : Token) ts2, (exists ts' t, ts2 = ts' ++ [t] /\ Type_ t <> EOF) ->
    exists ts' t, ts1 ++ o :: ts2 = ts' ++ [t] /\ Type_ t <> EOF).
  { intros ts1 o ts2 (ts' & t & -> & Ht). exists (ts1 ++ o :: ts'), t. by rewrite <- app_assoc. }
  induction 1; eauto.
  - eexists [], _. split; [done|congruence].
  - eexists [], _. split; [done|]. intros Ht. by rewrite Ht in *.
  - exists (lp :: ts), rp. split; [done|congruence].
Qed.

Lemma ends_eof_more pre ts t rest : ends_eof (pre ++ (ts ++ [t]) ++ rest) -> Type_ t <> EOF -> rest <> [].
Proof.
  intros He Ht. apply (more_tokens (pre ++ ts) t); [|done].
  by rewrite <- !app_assoc in *.
Qed.

(** A statement with the semicolons it takes. *)
Definition stmt_with (s : Statement) ts (rest' : list Token) : Prop :=
  exists n body semis, ts = body ++ semis /\ GStmt n body s /\ semicolons semis /\
    (length semis <= n)%nat /\ rest' <> [].

(** The optional semicolon at the end of a statement. *)
Lemma yields_semi (s : Statement) n pre ts0 semis0 rest :
  ends_eof (pre ++ rest) -> rest <> [] -> GStmt n ts0 s -> semicolons semis0 ->
  (length semis0 < n)%nat ->
  yields (match_ SEMICOLON ;;; sret s) pre rest
    (fun s' ts rest' => s' = s /\ stmt_with s (ts0 ++ semis0 ++ ts) rest').
Proof.
  intros He Hne Hg Hs Hlen. eapply yields_bind; [by apply yields_match|].
  intros b ts rest' -> Hb. apply yields_ret. split; [done|]. rewrite app_nil_r.
  destruct b.
  - destruct Hb as (t & -> & Ht & Hne'). exists n, ts0, (semis0 ++ [t]). split_and!; try done.
    + apply Forall_app. split; [done|]. by constructor.
    + rewrite length_app. cbn. lia.
  - destruct Hb as [-> _]. exists n, ts0, semis0. cbn in Hne. rewrite !app_nil_r.
    split_and!; try done. lia.
Qed.

Lemma yields_semi1 (s : Statement) pre ts0 rest :
  ends_eof (pre ++ rest) -> rest <> [] -> GStmt 1 ts0 s ->
  yields (match_ SEMICOLON ;;; sret s) pre rest (fun s' ts rest' => stmt_with s' (ts0 ++ ts) rest').
Proof.
  intros He Hne Hg. eapply yields_mono; [apply (yields_semi s 1 pre ts0 []); [done|done|done|constructor|cbn; lia]|].
  by intros s' ts rest' _ [-> H].
Qed.

Lemma step_advance {B} (k : unit -> ST t B) pre tok rest Q :
  ends_eof (pre ++ tok :: rest) ->
  (ends_eof ((pre ++ [tok]) ++ rest) ->
   yields (k tt) (pre ++ [tok]) rest (fun b ts rest' => Q b (tok :: ts) rest')) ->
  yields (sbind advance k) pre (tok :: rest) Q.
Proof.
  intros He Hk. eapply yields_bind; [apply yields_advance|]. intros [] ts r E [-> ->].
  apply Hk. by rewrite <- app_assoc.
Qed.

Lemma step_expect {B} ty (k : unit -> ST t B) pre rest Q :
  ends_eof (pre ++ rest) -> ty <> EOF ->
  (forall tok rest', rest = tok :: rest' -> Type_ tok = ty -> rest' <> [] ->
     ends_eof ((pre ++ [tok]) ++ rest') ->
     yields (k tt) (pre ++ [tok]) rest' (fun b ts rest'' => Q b (tok :: ts) rest'')) ->
  yields (sbind (expect ty) k) pre rest Q.
Proof.
  intros He Hne Hk. eapply yields_bind; [by apply yields_expect|].
  intros [] ts r -> (tok & -> & Ht & Hr). apply Hk; try done. by rewrite <- app_assoc.
Qed.

Lemma step_ident {B} (k : SqlIdent -> ST t B) pre rest Q :
  ends_eof (pre ++ rest) ->
  (forall tok rest', rest = tok :: rest' -> Type_ tok = IDENT -> rest' <> [] ->
     ends_eof ((pre ++ [tok]) ++ rest') ->
     yields (k (ident_of tok)) (pre ++ [tok]) rest' (fun b ts rest'' => Q b (tok :: ts) rest'')) ->
  yields (sbind expectIdent k) pre rest Q.
Proof.
  intros He Hk. eapply yields_bind; [by apply yields_expectIdent|].
  intros a ts r -> (Ha & Hr & _). inversion Ha; subst. apply Hk; try done. by rewrite <- app_assoc.
Qed.

Lemma step_cur {B} (k : TokenType -> ST t B) pre rest Q :
  ends_eof (pre ++ rest) ->
  ((rest = [] -> Type_ (cur pre rest) = EOF) -> yields (k (Type_ (cur pre rest))) pre rest Q) ->
  yields (sbind currentType k) pre rest Q.
Proof.
  intros He Hk. eapply yields_bind; [by apply yields_currentType|].
  intros ty ts r E (-> & -> & Hty). cbn [app] in E. subst r. rewrite app_nil_r. cbn [app].
  eapply yields_mono; [by apply Hk|]. done.
Qed.

Lemma yields_createTable fuel k1 pre k2 rest :
  Type_ k1 = CREATE -> Type_ k2 = TABLE -> ends_eof (pre ++ k2 :: rest) -> (length rest <= fuel)%nat ->
  yields (parseCreateTable fuel) pre (k2 :: rest) (fun s ts rest' => stmt_with s (k1 :: ts) rest').
Proof.
  intros H1 H2 He Hf. unfold parseCreateTable. apply step_advance; [done|]. intros He1.
  apply step_ident; [done|]. intros name r -> Hn Hne He2.
  eapply yields_bind.
  { apply (yields_parenList parseColumnDef GColumnDef); [done|cbn in Hf; lia|apply sound_columnDef]. }
  intros cols ts rest' -> [Hg Hne']. eapply yields_mono; [apply yields_semi1; auto|].
  - by apply (g_create_table k1 k2 name ts cols).
  - intros s ts' r' _ Hs. done.
Qed.

Lemma yields_createIndex k1 pre k2 rest :
  Type_ k1 = CREATE -> Type_ k2 = INDEX -> ends_eof (pre ++ k2 :: rest) ->
  yields parseCreateIndex pre (k2 :: rest) (fun s ts rest' => stmt_with s (k1 :: ts) rest').
Proof.
  intros H1 H2 He. unfold parseCreateIndex. apply step_advance; [done|]. intros He1.
  apply step_ident; [done|]. intros idx r0 -> Hidx _ He2.
  apply step_expect; [done..|]. intros k3 r1 -> H3 _ He3.
  apply step_ident; [done|]. intros tbl r2 -> Htbl _ He4.
  apply step_expect; [done..|]. intros lp r3 -> Hlp _ He5.
  apply step_ident; [done|]. intros col r4 -> Hcol _ He6.
  apply step_expect; [done..|]. intros rp r5 -> Hrp _ He7.
  apply step_expect; [done..|]. intros k4 r6 -> Hk4 Hne He8.
  apply step_cur; [done|]. intros Hty. destruct r6 as [|ty r6]; [done|]. rewrite cur_cons.
  destruct (indexTypes (Type_ ty)) as [ity|] eqn:Hity; [|by apply yields_errorf].
  apply step_advance; [done|]. intros He9.
  assert (Hne9 : r6 <> []).
  { eapply more_tokens; [exact He8|]. intros E. by rewrite E in Hity. }
  eapply yields_mono; [apply yields_semi1; [done..|]|].
  - by apply (g_create_index k1 k2 idx k3 tbl lp col rp k4 ty ity).
  - intros s ts' r' _ Hs. done.
Qed.

Lemma yields_insert fuel pre k1 rest :
  Type_ k1 = INSERT -> ends_eof (pre ++ k1 :: rest) -> (length rest <= fuel)%nat ->
  yields (parseInsert fuel) pre (k1 :: rest) stmt_with.
Proof.
  intros H1 He Hf. unfold parseInsert. apply step_advance; [done|]. intros He1.
  apply step_expect; [done..|]. intros k2 r1 -> H2 _ He2.
  apply step_ident; [done|]. intros tbl r2 -> Htbl _ He3.
  apply step_expect; [done..|]. intros k3 r3 -> H3 _ He4.
  eapply yields_bind.
  { apply (yields_parenList parseLiteral GLiteral); [done|cbn in Hf; lia|apply sound_literal]. }
  intros vals ts rest' -> [Hg Hne']. eapply yields_mono; [apply yields_semi1; auto|].
  - by apply (g_insert k1 k2 tbl k3 ts vals).
  - intros s ts' r' _ Hs. done.
Qed.

Lemma yields_columns fuel pre rest :
  ends_eof (pre ++ rest) -> rest <> [] -> (length rest <= fuel)%nat ->
  forall (star : bool) ts1 rest1, rest = ts1 ++ rest1 ->
  (if star then exists tok, ts1 = [tok] /\ Type_ tok = ASTERISK /\ rest1 <> [] else
     ts1 = [] /\ Type_ (cur pre rest) <> ASTERISK) ->
  yields (if star then sret [] else parseCommaList fuel expectIdent) (pre ++ ts1) rest1
    (fun cols ts2 _ => GColumns (ts1 ++ ts2) star cols).
Proof.
  intros He Hne Hf star ts1 rest1 -> Hstar. destruct star.
  - destruct Hstar as (tok & -> & Ht & _). apply yields_ret. by constructor.
  - destruct Hstar as [-> _]. cbn [app] in *. rewrite app_nil_r.
    eapply yields_mono; [apply (yields_commaList expectIdent GIdent); [done..|apply sound_ident]|].
    intros l ts r' _ Hl. by constructor.
Qed.

Lemma yields_where fuel pre rest :
  ends_eof (pre ++ rest) -> rest <> [] -> (length rest <= fuel)%nat ->
  forall (has : bool) ts1 rest1, rest = ts1 ++ rest1 ->
  (if has then exists tok, ts1 = [tok] /\ Type_ tok = WHERE /\ rest1 <> [] else
     ts1 = [] /\ Type_ (cur pre rest) <> WHERE) ->
  yields (if has then e <- parseExpr fuel ;; sret (Some e) else sret None) (pre ++ ts1) rest1
    (fun w ts2 rest2 => GWhere (ts1 ++ ts2) w /\ rest2 <> []).
Proof.
  intros He Hne Hf has ts1 rest1 -> Hhas. destruct has.
  - destruct Hhas as (tok & -> & Ht & Hne1).
    assert (He1 : ends_eof ((pre ++ [tok]) ++ rest1)) by auto.
    eapply yields_bind; [apply sound_expr; [done|done|cbn in Hf; lia]|].
    intros e ts2 rest2 -> [Hg _]. apply yields_ret. rewrite app_nil_r. split; [by constructor|].
    destruct (expr_last _ _ _ Hg) as (ts' & tl & -> & Htl). by eapply ends_eof_more.
  - destruct Hhas as [-> _]. apply yields_ret. split; [constructor|done].
Qed.

Lemma yields_select fuel pre k1 rest :
  Type_ k1 = SELECT -> ends_eof (pre ++ k1 :: rest) -> (length rest <= fuel)%nat ->
  yields (parseSelect fuel) pre (k1 :: rest) stmt_with.
Proof.
  intros H1 He Hf. unfold parseSelect.
  assert (Hne : rest <> []) by (eapply more_tokens; [done|congruence]).
  apply step_advance; [done|]. intros He1.
  eapply yields_bind; [by apply yields_match|]. intros star ts1 rest1 -> Hstar.
  eapply yields_bind; [by apply (yields_columns fuel _ (ts1 ++ rest1))|].
  intros cols ts2 rest2 -> Hcols. rewrite !app_assoc in He1. rewrite <- app_assoc in He1.
  apply step_expect; [by rewrite app_assoc in He1|done|]. intros k2 r -> H2 _ He2.
  apply step_ident; [done|]. intros tbl r2 -> Htbl Hne2 He3.
  eapply yields_bind; [by apply yields_match|]. intros has ts3 rest3 -> Hhas.
  eapply yields_bind.
  { apply (yields_where fuel _ (ts3 ++ rest3)); [done|done| |done|exact Hhas].
    rewrite !length_app in Hf; cbn in Hf; rewrite length_app in Hf. rewrite length_app. lia. }
  intros w ts4 rest4 -> [Hw Hne4].
  eapply yields_mono; [apply yields_semi1; [auto|done|]|].
  - by apply (g_select k1 (ts1 ++ ts2) star cols k2 tbl (ts3 ++ ts4) w).
  - intros s ts5 rest5 _ Hs. cbn [app] in *. rewrite <- !app_assoc in *. cbn [app] in *.
    rewrite <- !app_assoc in *. exact Hs.
Qed.

Lemma yields_statement fuel pre rest :
  ends_eof (pre ++ rest) -> (length rest < fuel)%nat ->
  yields (parseStatement fuel) pre rest stmt_with.
Proof.
  revert pre rest. induction fuel as [|fuel IH]; intros pre rest He Hf; [lia|].
  cbn [parseStatement]. apply step_cur; [done|]. intros Hty.
  destruct rest as [|k1 rest].
  { rewrite (Hty eq_refl). by apply yields_errorf. }
  rewrite cur_cons. destruct (Type_ k1) eqn:H1; try by apply yields_errorf.
  - unfold parseCreate. apply step_advance; [done|]. intros He1.
    apply step_cur; [done|]. intros Hty2. destruct rest as [|k2 rest].
    { rewrite (Hty2 eq_refl). by apply yields_errorf. }
    rewrite cur_cons. destruct (Type_ k2) eqn:H2; try by apply yields_errorf.
    + apply yields_createTable; try done. cbn in Hf. lia.
    + by apply yields_createIndex.
  - apply yields_insert; try done. cbn in Hf. lia.
  - apply yields_select; try done. cbn in Hf. lia.
  - apply step_advance; [done|]. intros He1.
    eapply yields_bind; [apply IH; [done|cbn in Hf; lia]|].
    intros s ts rest' -> (n & body & semis & -> & Hg & Hs & Hl & Hne).
    eapply yields_mono; [apply (yields_semi (ExplainStmt s) (S n) _ (k1 :: body) semis); [auto|done|by constructor|done|lia]|].
    intros s' ts' rest2 _ [-> H]. by rewrite <- app_assoc.
Qed.

(** *** Completeness *)

(** [accepts m pre ts rest a]: with [ts] and then [rest] ahead, [m] consumes
    [ts] and returns [a]. *)
Definition accepts {A} (m : ST t A) pre ts rest (a : A) : Prop :=
  m (St pre (ts ++ rest)) = (Ok a, St (pre ++ ts) rest).

Lemma acc_bind {A B} (m : ST t A) (k : A -> ST t B) pre ts1 ts2 rest a b :
  accepts m pre ts1 (ts2 ++ rest) a -> accepts (k a) (pre ++ ts1) ts2 rest b ->
  accepts (sbind m k) pre (ts1 ++ ts2) rest b.
Proof.
  unfold accepts, sbind. rewrite <- !app_assoc. intros -> Hk. by rewrite app_assoc in Hk |- *.
Qed.

Lemma acc_ret {A} (a : A) pre rest : accepts (sret a) pre [] rest a.
Proof. unfold accepts. by rewrite app_nil_r. Qed.

(** The last step of a sequence returns. *)
Lemma acc_bind_ret {A B} (m : ST t A) (f : A -> B) pre ts rest a :
  accepts m pre ts rest a -> accepts (x <- m ;; sret (f x)) pre ts rest (f a).
Proof.
  intros Hm. rewrite <- (app_nil_r ts). eapply acc_bind; [|apply acc_ret].
  exact Hm.
Qed.

Lemma current_cons pre tok rest : current (St pre (tok :: rest)) = (Ok tok, St pre (tok :: rest)).
Proof.
  unfold current, St; cbn [tokens pos]. rewrite Nat.min_l by len. by rewrite list_lookup_middle.
Qed.

Definition ahead (P : TokenType -> Prop) rest : Prop :=
  match rest with tok :: _ => P (Type_ tok) | [] => False end.

Lemma acc_cur {A} (k : TokenType -> ST t A) pre ts rest tok r a :
  ts ++ rest = tok :: r -> accepts (k (Type_ tok)) pre ts rest a -> accepts (sbind currentType k) pre ts rest a.
Proof.
  intros E Hk. unfold accepts, currentType, sbind in *. rewrite E, current_cons in *. exact Hk.
Qed.

Lemma acc_current {A} (k : Token -> ST t A) pre ts rest tok r a :
  ts ++ rest = tok :: r -> accepts (k tok) pre ts rest a -> accepts (sbind current k) pre ts rest a.
Proof. intros E Hk. unfold accepts, sbind in *. rewrite E, current_cons in *. exact Hk. Qed.

Lemma acc_advance {A} (k : unit -> ST t A) pre tok ts rest a :
  accepts (k tt) (pre ++ [tok]) ts rest a -> accepts (sbind advance k) pre (tok :: ts) rest a.
Proof.
  intros Hk. apply (acc_bind _ _ _ [tok] ts rest tt a); [|exact Hk].
  unfold accepts. apply advance_run.
Qed.

Lemma acc_expect ty pre tok rest : Type_ tok = ty -> accepts (expect ty) pre [tok] rest tt.
Proof.
  intros <-. unfold expect. eapply acc_cur; [done|]. rewrite decide_True by done.
  unfold accepts. apply advance_run.
Qed.

Lemma acc_expect_k {A} ty (k : unit -> ST t A) pre tok ts rest a :
  Type_ tok = ty -> accepts (k tt) (pre ++ [tok]) ts rest a ->
  accepts (sbind (expect ty) k) pre (tok :: ts) rest a.
Proof. intros Ht Hk. apply (acc_bind _ _ _ [tok] ts rest tt a); [by apply acc_expect|done]. Qed.

Lemma acc_match_true ty pre tok rest : Type_ tok = ty -> accepts (match_ ty) pre [tok] rest true.
Proof.
  intros <-. unfold match_. eapply acc_cur; [done|]. rewrite decide_True by done.
  apply acc_advance, acc_ret.
Qed.

Lemma acc_match_false ty pre rest : ahead (.≠ ty) rest -> accepts (match_ ty) pre [] rest false.
Proof.
  intros Ha. destruct rest as [|tok rest]; [done|]. unfold match_.
  eapply acc_cur; [done|]. rewrite decide_False by done. apply acc_ret.
Qed.

Lemma acc_ident pre tok rest : Type_ tok = IDENT -> accepts expectIdent pre [tok] rest (ident_of tok).
Proof.
  intros Ht. unfold expectIdent. eapply acc_current; [done|].
  apply (acc_bind _ _ _ [tok] [] rest tt); [by apply acc_expect|apply acc_ret].
Qed.

Lemma acc_ident_k {A} (k : SqlIdent -> ST t A) pre tok ts rest a :
  Type_ tok = IDENT -> accepts (k (ident_of tok)) (pre ++ [tok]) ts rest a ->
  accepts (sbind expectIdent k) pre (tok :: ts) rest a.
Proof. intros Ht Hk. apply (acc_bind _ _ _ [tok] ts rest (ident_of tok) a); [by apply acc_ident|done]. Qed.

(** A sub-parser without lookahead. *)
Definition complete_for {A} (p : ST t A) (g : list Token -> A -> Prop) : Prop :=
  forall pre ts rest a, g ts a -> accepts p pre ts rest a.

Lemma complete_ident : complete_for expectIdent GIdent.
Proof. intros pre ts rest a Ha. inversion Ha; subst. by apply acc_ident. Qed.

Lemma complete_literal : complete_for parseLiteral GLiteral.
Proof.
  intros pre ts rest a Ha. unfold parseLiteral. inversion Ha as [tok v Ht Hv|tok Ht]; subst;
    (eapply acc_current; [done|]); apply acc_advance.
  - rewrite decide_True, Hv by done. apply acc_ret.
  - rewrite decide_False by done. apply acc_ret.
Qed.

Lemma complete_columnDef : complete_for parseColumnDef GColumnDef.
Proof.
  intros pre ts rest a Ha. inversion Ha as [n ty Hn Hty]; subst. unfold parseColumnDef.
  apply acc_ident_k; [done|]. eapply acc_current; [done|]. rewrite Hty. apply acc_advance, acc_ret.
Qed.

Section lists2.
Context {A : Type} (p : ST t A) (g : list Token -> A -> Prop) (Hp : complete_for p g).

Lemma comma_split ts l :
  GComma g ts l -> exists ts1 a ts2 l', ts = ts1 ++ ts2 /\ l = a :: l' /\ g ts1 a /\ comma_tail g ts2 l'.
Proof.
  induction 1 as [ts a Ha|ts a c ts' l Ha Hc Hl (ts1 & a1 & ts2 & l' & -> & -> & Ha1 & Ht)].
  - exists ts, a, [], []. rewrite app_nil_r. split_and!; try done. constructor.
  - exists ts, a, (c :: ts1 ++ ts2), (a1 :: l'). split_and!; try done. by constructor.
Qed.

Lemma acc_comma_loop fuel pre ts rest l :
  comma_tail g ts l -> ahead (.≠ COMMA) rest -> (length ts < fuel)%nat ->
  accepts (comma_loop fuel p) pre ts rest l.
Proof.
  intros Ht Hr. revert fuel pre. induction Ht as [|c ts a ts' l Hc Ha Ht IH]; intros [|fuel] pre Hf;
    try (cbn in Hf; lia); cbn [comma_loop].
  - apply (acc_bind _ _ _ [] [] rest false); [by apply acc_match_false|apply acc_ret].
  - apply (acc_bind _ _ _ [c] (ts ++ ts') rest true); [by apply acc_match_true|].
    eapply acc_bind; [by apply Hp|]. apply (acc_bind_ret _ (fun items => a :: items)).
    apply IH. cbn in Hf. rewrite length_app in Hf. lia.
Qed.

Lemma acc_commaList fuel pre ts rest l :
  GComma g ts l -> ahead (.≠ COMMA) rest -> (length ts < fuel)%nat ->
  accepts (parseCommaList fuel p) pre ts rest l.
Proof.
  intros (ts1 & a & ts2 & l' & -> & -> & Ha & Ht)%comma_split Hr Hf. unfold parseCommaList.
  eapply acc_bind; [by apply Hp|]. apply (acc_bind_ret _ (fun items => a :: items)).
  apply acc_comma_loop; [done..|]. rewrite length_app in Hf. lia.
Qed.

Lemma acc_parenList fuel pre ts rest l :
  GParen g ts l -> (length ts < fuel)%nat -> accepts (parseParenList fuel p) pre ts rest l.
Proof.
  intros Hg Hf. inversion Hg as [lp ts' rp l' Hlp Hl Hrp]; subst. unfold parseParenList.
  apply acc_expect_k; [done|]. eapply acc_bind.
  - apply acc_commaList; [done|cbn; by rewrite Hrp|]. cbn in Hf. rewrite length_app in Hf. lia.
  - apply acc_expect_k; [done|]. apply acc_ret.
Qed.
End lists2.

(** Operands of the loop of [parseBinaryLeft], the first one taken. *)
Inductive binary_tail (op : TokenType) (opStr : string) (next : level) :
    Expr -> list Token -> Expr -> Prop :=
  | btail_end l : binary_tail op opStr next l [] l
  | btail_more l o ts r ts' e :
      Type_ o = op -> GExpr next ts r -> binary_tail op opStr next (BinaryExpr opStr l r) ts' e ->
      binary_tail op opStr next l (o :: ts ++ ts') e.

Lemma btail_snoc op opStr next l ts e o ts2 r :
  binary_tail op opStr next l ts e -> Type_ o = op -> GExpr next ts2 r ->
  binary_tail op opStr next l (ts ++ o :: ts2) (BinaryExpr opStr e r).
Proof.
  intros Ht Ho Hr. induction Ht as [l|l o1 ts1 r1 ts' e Ho1 Hr1 Ht IH].
  - cbn [app]. rewrite <- (app_nil_r ts2) at 1.
    apply (btail_more _ _ _ l o ts2 r []); [done..|constructor].
  - rewrite <- app_comm_cons, <- app_assoc. eapply btail_more; eauto.
Qed.

Lemma and_split ts e :
  GExpr LAnd ts e -> exists ts1 l ts2, ts = ts1 ++ ts2 /\ GExpr LCmp ts1 l /\ binary_tail AND "AND" LCmp l ts2 e.
Proof.
  intros H. remember LAnd as lv eqn:E. induction H; try discriminate E.
  - exists ts, e, []. rewrite app_nil_r. split_and!; [done..|constructor].
  - destruct IHGExpr1 as (t1 & e1 & t2 & -> & Hg & Ht); [done|].
    exists t1, e1, (t2 ++ o :: ts2). rewrite <- app_assoc. split_and!; [done..|]. by apply btail_snoc.
Qed.

Lemma or_split ts e :
  GExpr LOr ts e -> exists ts1 l ts2, ts = ts1 ++ ts2 /\ GExpr LAnd ts1 l /\ binary_tail OR "OR" LAnd l ts2 e.
Proof.
  intros H. remember LOr as lv eqn:E. induction H; try discriminate E.
  - exists ts, e, []. rewrite app_nil_r. split_and!; [done..|constructor].
  - destruct IHGExpr1 as (t1 & e1 & t2 & -> & Hg & Ht); [done|].
    exists t1, e1, (t2 ++ o :: ts2). rewrite <- app_assoc. split_and!; [done..|]. by apply btail_snoc.
Qed.

(** What may follow an operand, by level. *)
Definition after_level (l : level) (ty : TokenType) : Prop :=
  match l with
  | LPrim => True
  | LCmp => comparisonOps ty = None
  | LAnd => comparisonOps ty = None /\ ty <> AND
  | LOr => comparisonOps ty = None /\ ty <> AND /\ ty <> OR
  end.

Definition complete_level (n : nat) (p : ST t Expr) (l : level) : Prop :=
  forall pre ts rest e, GExpr l ts e -> (length ts <= n)%nat -> ahead (after_level l) rest ->
    accepts p pre ts rest e.

Lemma ahead_mono (P Q : TokenType -> Prop) rest : (forall ty, P ty -> Q ty) -> ahead P rest -> ahead Q rest.
Proof. intros H. destruct rest; cbn; auto. Qed.

Lemma btail_head op opStr next l ts e rest (P Q : TokenType -> Prop) :
  binary_tail op opStr next l ts e -> ahead P rest -> (forall ty, P ty -> Q ty) -> Q op ->
  ahead Q (ts ++ rest).
Proof. intros Ht Hr HPQ Hop. destruct Ht; [by eapply ahead_mono|]. cbn. by subst. Qed.

Lemma acc_binary_loop n fuel p op opStr next top pre l ts rest e :
  complete_level n p next -> (forall ty, after_level top ty -> after_level next ty /\ ty <> op) ->
  after_level next op ->
  binary_tail op opStr next l ts e -> (length ts <= n)%nat -> (length ts < fuel)%nat ->
  ahead (after_level top) rest ->
  accepts (binary_loop fuel p op opStr l) pre ts rest e.
Proof.
  intros Hp Htop Hop Ht. revert fuel pre.
  induction Ht as [l|l o ts r ts' e Ho Hr Ht IH]; intros [|fuel] pre Hn Hf Ha;
    try (cbn in Hf; lia); cbn [binary_loop].
  - apply (acc_bind _ _ _ [] [] rest false); [|apply acc_ret].
    apply acc_match_false. eapply ahead_mono; [|exact Ha]. intros ty Hty. by apply Htop.
  - cbn [length] in Hn, Hf. rewrite length_app in Hn, Hf.
    apply (acc_bind _ _ _ [o] (ts ++ ts') rest true); [by apply acc_match_true|].
    eapply acc_bind.
    + apply Hp; [done|lia|]. eapply btail_head; [done|done| |done]. intros ty Hty. by apply Htop.
    + apply IH; [lia..|done].
Qed.

Lemma complete_binaryLeft n fuel p op opStr next top :
  complete_level n p next -> (forall ty, after_level top ty -> after_level next ty /\ ty <> op) ->
  after_level next op -> (n <= fuel)%nat ->
  (forall ts e, GExpr top ts e -> exists ts1 l ts2, ts = ts1 ++ ts2 /\ GExpr next ts1 l /\
     binary_tail op opStr next l ts2 e) ->
  complete_level n (parseBinaryLeft fuel p op opStr) top.
Proof.
  intros Hp Htop Hop Hf Hsplit pre ts rest e Hg Hn Ha. unfold parseBinaryLeft.
  destruct (Hsplit _ _ Hg) as (ts1 & l & ts2 & -> & Hg1 & Ht). rewrite length_app in Hn.
  assert (length ts1 <> 0%nat).
  { destruct (expr_last _ _ _ Hg1) as (ts' & tl & -> & _). rewrite length_app. cbn. lia. }
  eapply acc_bind.
  - apply Hp; [done|lia|]. eapply btail_head; [done|done| |done]. intros ty Hty. by apply Htop.
  - eapply acc_binary_loop; try done; lia.
Qed.

Lemma prim_head ts e rest : GExpr LPrim ts e -> exists tok r, ts ++ rest = tok :: r.
Proof. intros H. inversion H; subst; cbn; eauto. Qed.

Lemma complete_primary n p :
  (forall pre ts rest e, GExpr LOr ts e -> (S (length ts) < n)%nat -> ahead (after_level LOr) rest ->
     accepts p pre ts rest e) ->
  complete_level n (parsePrimary p) LPrim.
Proof.
  intros Hp pre ts rest e Hg Hn _. unfold parsePrimary.
  inversion Hg as [tok Ht|tok e' Hlit Hg1|lp ts' rp e' Hlp Hg1 Hrp| | | | | |]; subst.
  - eapply acc_cur; [done|]. rewrite decide_True by done.
    apply (acc_bind_ret _ ColumnRefExpr). by apply acc_ident.
  - eapply acc_cur; [done|]. rewrite decide_False by (intros E; by rewrite E in Hlit). rewrite Hlit.
    by apply complete_literal.
  - eapply acc_cur; [done|]. rewrite Hlp. cbn [literalTokens]. rewrite decide_False, decide_True by done.
    apply acc_advance. cbn [length] in Hn. rewrite length_app in Hn. cbn in Hn.
    eapply acc_bind; [apply Hp; [done|lia|]|].
    + cbn. by rewrite Hrp.
    + apply acc_expect_k; [done|apply acc_ret].
Qed.

Lemma complete_comparison n p :
  complete_level n (parsePrimary p) LPrim -> complete_level n (parseComparison p) LCmp.
Proof.
  intros Hp pre ts rest e Hg Hn Ha. unfold parseComparison.
  assert (Hany : forall r, r <> [] -> ahead (after_level LPrim) r) by (by intros [|]).
  inversion Hg as [| | |ts' e' Hg1|ts1 l o op ts2 r Hg1 Hop Hg2| | | |]; subst.
  - rewrite <- (app_nil_r ts). destruct rest as [|tok rest]; [done|]. cbn in Ha.
    eapply acc_bind; [by apply Hp|]. eapply acc_cur; [done|]. rewrite Ha. apply acc_ret.
  - rewrite length_app in Hn. cbn in Hn.
    eapply acc_bind; [apply Hp; [done|lia|done]|]. eapply acc_cur; [done|]. rewrite Hop.
    apply acc_advance. apply (acc_bind_ret _ (BinaryExpr op l)). apply Hp; [done|lia|].
    apply Hany. by destruct rest.
Qed.

Lemma complete_expr fuel : complete_level fuel (parseExpr fuel) LOr.
Proof.
  induction fuel as [|fuel IH].
  { intros pre ts rest e Hg Hn. destruct (expr_last _ _ _ Hg) as (ts' & tl & -> & _).
    rewrite length_app in Hn. cbn in Hn. lia. }
  cbn [parseExpr].
  assert (Hprim : complete_level (S fuel) (parsePrimary (parseExpr fuel)) LPrim).
  { apply complete_primary. intros pre ts rest e Hg Hn Ha. apply IH; [done|lia|done]. }
  apply complete_comparison in Hprim.
  apply (complete_binaryLeft (S fuel) _ _ _ _ LAnd LOr); [|cbn; tauto|done|lia|apply or_split].
  apply (complete_binaryLeft (S fuel) _ _ _ _ LCmp LAnd); [done|cbn; tauto|done|lia|apply and_split].
Qed.

(** What may follow a statement. *)
Definition stmt_end (ty : TokenType) : Prop := ty = EOF \/ ty = SEMICOLON.

Lemma acc_semi1 (s : Statement) pre semis rest :
  semicolons semis -> (length semis <= 1)%nat ->
  length semis = 1%nat \/ ahead (.≠ SEMICOLON) rest ->
  accepts (match_ SEMICOLON ;;; sret s) pre semis rest s.
Proof.
  intros Hs Hl Hor. destruct semis as [|c [|]]; [| |cbn in Hl; lia].
  - destruct Hor as [|Ha]; [done|].
    apply (acc_bind _ _ _ [] [] rest false); [by apply acc_match_false|apply acc_ret].
  - apply Forall_cons in Hs as [Hc _].
    apply (acc_bind _ _ _ [c] [] rest true); [by apply acc_match_true|apply acc_ret].
Qed.

Lemma ahead_semis semis rest (P : TokenType -> Prop) :
  semicolons semis -> ahead stmt_end rest -> P EOF -> P SEMICOLON -> ahead P (semis ++ rest).
Proof.
  intros Hs Ha HE HS. destruct Hs as [|c semis Hc _]; cbn; [|by rewrite Hc].
  destruct rest as [|tok rest]; [done|]. cbn in *. by destruct Ha as [-> | ->].
Qed.

Lemma acc_columns fuel pre ts rest star cols :
  GColumns ts star cols -> (length ts < fuel)%nat -> ahead (fun ty => ty = FROM) rest ->
  exists ts1 ts2, ts = ts1 ++ ts2 /\ accepts (match_ ASTERISK) pre ts1 (ts2 ++ rest) star /\
    accepts (if star then sret [] else parseCommaList fuel expectIdent) (pre ++ ts1) ts2 rest cols.
Proof.
  intros Hg Hf Ha. inversion Hg as [tok Ht|ts' l Hl]; subst.
  - exists [tok], []. split_and!; [done|by apply acc_match_true|apply acc_ret].
  - exists [], ts. split_and!; [done| |].
    + apply acc_match_false. assert (Hi : exists tok r, ts = tok :: r /\ Type_ tok = IDENT).
      { destruct (comma_split _ _ _ Hl) as (t1 & a & t2 & l' & -> & _ & Ha1 & _).
        inversion Ha1; subst. cbn. eauto. }
      destruct Hi as (tok & r & -> & Ht). cbn. by rewrite Ht.
    + apply (acc_commaList expectIdent GIdent complete_ident); [done| |done].
      eapply ahead_mono; [|exact Ha]. by intros ty ->.
Qed.

Lemma acc_where fuel pre ws rest w :
  GWhere ws w -> (length ws <= S fuel)%nat -> ahead stmt_end rest ->
  exists ts1 ts2 has, ws = ts1 ++ ts2 /\ accepts (match_ WHERE) pre ts1 (ts2 ++ rest) has /\
    accepts (if has : bool then e <- parseExpr fuel ;; sret (Some e) else sret None) (pre ++ ts1) ts2 rest w.
Proof.
  intros Hg Hf Ha. inversion Hg as [|tok ts e Ht He]; subst.
  - exists [], [], false. split_and!; [done| |apply acc_ret]. apply acc_match_false. cbn [app].
    eapply ahead_mono; [|exact Ha]. by intros ty [-> | ->].
  - exists [tok], ts, true. split_and!; [done|by apply acc_match_true|].
    apply (acc_bind_ret _ Some). apply complete_expr; [done|cbn in Hf; lia|].
    eapply ahead_mono; [|exact Ha]. by intros ty [-> | ->].
Qed.

Lemma accepts_app {A} (m : ST t A) pre ts ts' rest a :
  ts = ts' -> accepts m pre ts' rest a -> accepts m pre ts rest a.
Proof. by intros ->. Qed.

Lemma complete_select fuel k1 cs star cols k2 tbl ws w pre semis rest :
  Type_ k1 = SELECT -> GColumns cs star cols -> Type_ k2 = FROM -> Type_ tbl = IDENT -> GWhere ws w ->
  semicolons semis -> (length semis <= 1)%nat ->
  length semis = 1%nat \/ ahead (.≠ SEMICOLON) rest -> ahead stmt_end rest ->
  (length (k1 :: cs ++ k2 :: tbl :: ws) <= fuel)%nat ->
  accepts (parseSelect fuel) pre ((k1 :: cs ++ k2 :: tbl :: ws) ++ semis) rest
    (SelectStmt star cols (ident_of tbl) w).
Proof.
  intros H1 Hcs H2 Ht Hw Hs Hl Hor Ha Hf. cbn [length] in Hf. rewrite length_app in Hf. cbn in Hf.
  unfold parseSelect. cbn [app]. apply acc_advance.
  destruct (acc_columns fuel (pre ++ [k1]) cs (k2 :: tbl :: ws ++ semis ++ rest) star cols)
    as (c1 & c2 & -> & Hm & Hc); [done|lia|done|].
  eapply accepts_app; [by rewrite <- !app_assoc|]. cbn [app].
  eapply acc_bind; [by rewrite <- !app_assoc; cbn [app]; rewrite <- !app_assoc|].
  eapply acc_bind; [cbn [app]; rewrite <- (app_assoc ws); exact Hc|].
  apply acc_expect_k; [done|]. apply acc_ident_k; [done|].
  match goal with |- accepts _ ?q _ _ _ => destruct (acc_where fuel q ws (semis ++ rest) w)
    as (w1 & w2 & has & -> & Hmw & Hcw) end; [done|lia|by apply ahead_semis; [| |left|right]|].
  eapply accepts_app; [by rewrite <- !app_assoc|].
  eapply acc_bind; [rewrite <- (app_assoc w2); exact Hmw|]. eapply acc_bind; [exact Hcw|].
  by apply acc_semi1.
Qed.

Lemma complete_statement fuel n body s semis pre rest :
  GStmt n body s -> semicolons semis -> (length semis <= n)%nat ->
  length semis = n \/ ahead (.≠ SEMICOLON) rest -> ahead stmt_end rest ->
  (length body < fuel)%nat ->
  accepts (parseStatement fuel) pre (body ++ semis) rest s.
Proof.
  intros Hg. revert fuel semis pre rest.
  induction Hg as [k n ts s Hk Hg IH|k1 k2 name ts cols H1 H2 Hn Hg
    |k1 k2 idx k3 tbl lp col rp k4 ty ity H1 H2 Hi H3 Ht Hlp Hc Hrp H4 Hty
    |k1 k2 tbl k3 ts vals H1 H2 Ht H3 Hg|k1 cs star cols k2 tbl ws w H1 Hcs H2 Ht Hw];
    intros [|fuel] semis pre rest Hs Hl Hor Ha Hf; try lia; cbn [parseStatement];
    (eapply acc_cur; [cbn [app]; reflexivity|]).
  - rewrite Hk. cbn [app]. apply acc_advance.
    destruct (decide (length semis = S n)) as [E|E].
    + destruct (exists_last (l := semis)) as (semis' & c & ->); [by intros ->|].
      rewrite length_app in E, Hl. cbn in E, Hl. apply Forall_app in Hs as [Hs Hc].
      apply Forall_cons in Hc as [Hc _]. rewrite app_assoc.
      apply acc_bind with (a := s).
      * apply IH; [done|lia|left; lia|by right|cbn in Hf; lia].
      * apply acc_semi1; [by constructor|done|by left].
    + destruct Hor as [|Hor]; [done|]. rewrite <- (app_nil_r (ts ++ semis)).
      apply acc_bind with (a := s).
      * apply IH; [done|lia|by right|done|cbn in Hf; lia].
      * apply acc_semi1; [constructor|cbn; lia|by right].
  - rewrite H1. cbn [app]. unfold parseCreate. apply acc_advance. eapply acc_cur; [done|]. rewrite H2.
    unfold parseCreateTable. apply acc_advance. apply acc_ident_k; [done|].
    eapply acc_bind; [|by apply acc_semi1].
    apply (acc_parenList _ _ complete_columnDef); [done|cbn in Hf; lia].
  - rewrite H1. cbn [app]. unfold parseCreate. apply acc_advance. eapply acc_cur; [done|]. rewrite H2.
    unfold parseCreateIndex. apply acc_advance. apply acc_ident_k; [done|].
    apply acc_expect_k; [done|]. apply acc_ident_k; [done|]. apply acc_expect_k; [done|].
    apply acc_ident_k; [done|]. apply acc_expect_k; [done|]. apply acc_expect_k; [done|].
    eapply acc_cur; [done|]. rewrite Hty. apply acc_advance. by apply acc_semi1.
  - rewrite H1. cbn [app]. unfold parseInsert. apply acc_advance. apply acc_expect_k; [done|].
    apply acc_ident_k; [done|]. apply acc_expect_k; [done|].
    eapply acc_bind; [|by apply acc_semi1].
    apply (acc_parenList _ _ complete_literal); [done|cbn in Hf; lia].
  - rewrite H1. apply complete_select; try done; cbn in Hf |- *; lia.
Qed.

Lemma ends_eof_nonempty toks : ends_eof toks -> toks <> [].
Proof. intros (ts & e & -> & _). by destruct ts. Qed.

Lemma Parse_sound toks :
  ends_eof toks ->
  match Parse toks with
  | Ok s => GInput toks s
  | Err e => token_error toks e
  | Panic => False
  end.
Proof.
  intros He. unfold Parse.
  assert (Hy : yields (stmt <- parseStatement (S (length toks)) ;; expect EOF ;;; sret stmt) [] toks
    (fun s ts rest' => GInput (ts ++ rest') s)).
  { eapply yields_bind; [apply yields_statement; [done|lia]|].
    intros s ts rest' E (n & body & semis & -> & Hg & Hs & Hl & Hne). subst toks. cbn [app].
    unfold expect. destruct rest' as [|tok r]; [done|].
    assert (Hend : ends_eof ((body ++ semis) ++ tok :: r)) by done.
    eapply yields_bind with (Q1 := fun _ ts r' => ts = [tok] /\ Type_ tok = EOF).
    - apply step_cur; [done|]. intros _. rewrite cur_cons. case_decide as Hc; [|by apply yields_errorf].
      eapply yields_mono; [apply yields_advance|]. intros [] ts r' _ [-> _]. done.
    - intros [] ts r' E [-> Htok]. apply yields_ret. exists n, body, semis, tok, r'.
      split_and!; try done. rewrite app_nil_r, <- !app_assoc. done. }
  unfold yields in Hy. change (St [] toks) with {| tokens := toks; pos := 0 |} in Hy.
  destruct ((stmt <- parseStatement (S (length toks)) ;; expect EOF ;;; sret stmt)
    {| tokens := toks; pos := 0 |}) as [[s|e|] s']; cbn [fst]; [|done..].
  destruct Hy as (ts & rest' & -> & _ & Hg). done.
Qed.

Lemma Parse_complete toks s : GInput toks s -> Parse toks = Ok s.
Proof.
  intros (n & ts & semis & e & rest & -> & Hg & Hs & Hl & He). unfold Parse.
  assert (Ha : accepts (stmt <- parseStatement (S (length (ts ++ semis ++ e :: rest))) ;; expect EOF ;;; sret stmt)
    [] ((ts ++ semis) ++ [e]) rest s).
  { eapply acc_bind.
    - apply (complete_statement _ n); [done|done|done|right; cbn; by rewrite He|by left|].
      rewrite length_app. lia.
    - apply acc_expect_k; [done|apply acc_ret]. }
  unfold accepts, St in Ha. rewrite <- !app_assoc in Ha. cbn [app length] in Ha. by rewrite Ha.
Qed.

End proofs.

(** C7: the parser implements the grammar: on every token list that ends in
    [EOF], [Parse] returns a statement exactly when the list is derived from
    it (operator precedence, left associativity, optional semicolons
    included), otherwise an error at one of the tokens; it always terminates
    and never panics. *)
Theorem Parse_correct toks :
  ends_eof toks ->
  (forall s, Parse toks = Ok s <-> GInput toks s) /\
  (forall e, Parse toks = Err e -> token_error toks e /\ forall s, ~ GInput toks s) /\
  Parse toks <> Panic.
Proof.
  intros He. pose proof (Parse_sound toks He) as Hs. split_and!.
  - intros s. split; [|apply Parse_complete]. intros E. by rewrite E in Hs.
  - intros e E. rewrite E in Hs. split; [done|]. intros s Hg%Parse_complete. congruence.
  - intros E. by rewrite E in Hs.
Qed.

Lemma lexes_ends_eof pre rest ts : LexSpec.lexes pre rest ts -> ends_eof ts.
Proof.
  induction 1 as [pre| |pre lx rest ty text ts _ _ (ts' & e & -> & He)]; [|done|].
  - by eexists [], _.
  - exists (LexSpec.token_at pre lx ty text :: ts'), e. done.
Qed.

(** The front end: text to statement. *)
Definition parse_sql (sql : string) : outcome Statement :=
  let! toks := SqlLexer.Tokenize sql in Parse toks.

Definition sample_sql : string := "EXPLAIN SELECT a FROM t WHERE a = 1 OR b < 'x' AND c >= 2;".
Definition sample_tokens : list Token :=
  Eval vm_compute in match SqlLexer.Tokenize sample_sql with Ok ts => ts | _ => [] end.
Definition sample_stmt : Statement :=
  Eval vm_compute in match Parse sample_tokens with
                     | Ok s => s | _ => ExplainStmt (InsertStmt (NewSqlIdent "" 0 0 0) []) end.

Lemma Parse_correct_witness :
  ends_eof sample_tokens /\ Parse sample_tokens = Ok sample_stmt /\ GInput sample_tokens sample_stmt.
Proof.
  assert (He : ends_eof sample_tokens).
  { exists (take 18 sample_tokens), (NewToken EOF "" 58 58 1 59). split; reflexivity. }
  assert (E : Parse sample_tokens = Ok sample_stmt) by (vm_compute; reflexivity).
  split; [exact He|]. split; [exact E|]. exact (proj1 (proj1 (Parse_correct _ He) sample_stmt) E).
Defined.

(** The front end on arbitrary text: whatever bytes the client sends, the
    lexer and the parser terminate without panicking, with a statement or with
    a syntax error that has a position. *)
Theorem parse_sql_total sql :
  (exists s, parse_sql sql = Ok s) \/
  exists msg off line col, parse_sql sql = Err (SqlSyntaxError msg off line col).
Proof.
  unfold parse_sql. destruct (LexProofs.Tokenize_lexes_or_fails sql) as [(ts & E & Hl)|(e & E & Hf)].
  - rewrite E. cbn [obind]. apply lexes_ends_eof in Hl. pose proof (Parse_sound ts Hl) as Hs.
    destruct (Parse ts) as [s|e|]; [by left; exists s| |done].
    right. destruct Hs as (tok & msg & _ & ->). eauto.
  - right. rewrite E. cbn [obind]. clear E. induction Hf; eauto.
Qed.

(** A literal of a VALUES list may be any token: an unquoted word, a
    keyword or an operator is inserted as a string. *)
Theorem values_accept_any_token :
  parse_sql "INSERT INTO t VALUES (abc, SELECT, >=)" =
  Ok (InsertStmt (NewSqlIdent "t" 12 1 13)
        [LiteralStringExpr "abc"; LiteralStringExpr "SELECT"; LiteralStringExpr ">="]).
Proof. vm_compute. reflexivity. Qed.

(** An out-of-range number is reported at the position of the token after
    it: here the number starts at column 23 and the error says column 42. *)
Theorem invalid_number_position :
  parse_sql "INSERT INTO t VALUES (9223372036854775808)" =
  Err (SqlSyntaxError "Invalid number: 9223372036854775808" 41 1 42).
Proof. vm_compute. reflexivity. Qed.

End ParseProofs.
