(* ===== verification/CatalogModel.v ===== *)
(** * CatalogModel: catalog records and their binary form

    Models the package [catalog/model]: the four record types with their
    constructors, [ToBytes] and [...FromBytes], byte for byte.  [put*] and
    [get*] are the [binary.BigEndian] calls and [copy] at a running offset;
    the round-trip theorems hold for every record whose fields have their Go
    types, and say what the decoders do with too short and with trailing
    data. *)

From S2P Require Import Prelude GoRuntime Utf8 Ast.

Definition maxUint16 : Z := 0xFFFF.
Definition intSize : Z := 4.
Definition shortSize : Z := 2.

(** [unicode.IsSpace], and [strings.TrimSpace(s) == ""]. *)
Definition is_space (r : Z) : bool :=
  ((9 <=? r) && (r <=? 13)) || (r =? 32) || (r =? 0x85) || (r =? 0xA0) || (r =? 0x1680) ||
  ((0x2000 <=? r) && (r <=? 0x200A)) || (r =? 0x2028) || (r =? 0x2029) || (r =? 0x202F) ||
  (r =? 0x205F) || (r =? 0x3000).
Definition blank (s : string) : bool := forallb is_space (runes_of s).

(** ** Encoding at an offset *)
Definition cursor : Type := list byte * Z.

Definition putU32 (v : Z) (c : cursor) : outcome cursor :=
  let! b := go_write c.1 c.2 (be_bytes 4 (uint32 v)) in Ok (b, c.2 + intSize).
Definition putU16 (v : Z) (c : cursor) : outcome cursor :=
  let! b := go_write c.1 c.2 (be_bytes 2 (uint16 v)) in Ok (b, c.2 + shortSize).

(** [copy(buf[offset:], bs)] copies as many bytes as fit. *)
Definition putBytes (bs : list byte) (c : cursor) : outcome cursor :=
  let! _ := go_slice c.1 c.2 (Z.of_nat (length c.1)) in
  let! b := go_write c.1 c.2 (take (length c.1 - Z.to_nat c.2) bs) in
  Ok (b, c.2 + Z.of_nat (length bs)).

Definition make (n : Z) : cursor := (replicate (Z.to_nat n) (byte_of 0), 0).

(** ** Decoding at an offset *)
Definition getU32 (data : list byte) (off : Z) : outcome (Z * Z) :=
  let! b := go_slice data off (off + 4) in Ok (int32 (be_value b), off + intSize).
Definition getU16 (data : list byte) (off : Z) : outcome (Z * Z) :=
  let! b := go_slice data off (off + 2) in Ok (be_value b, off + shortSize).
Definition getString (data : list byte) (off n : Z) : outcome (string * Z) :=
  let! b := go_slice data off (off + n) in Ok (string_of b, off + n).

Definition len_of (s : string) : Z := Z.of_nat (length (bytes_of s)).

(** ** The records *)
Module TypeDefinition.
Record t : Type := { oid : Z; name : string; byteLength : Z }.

Definition New (oid : Z) (name : string) (byteLength : Z) : outcome t :=
  if decide (name = "") then Err ErrNameRequired
  else Ok {| oid := oid; name := name; byteLength := byteLength |}.

Definition ToBytes (d : t) : outcome (list byte) :=
  let nameBytes := bytes_of (name d) in
  if maxUint16 <? len_of (name d) then Err ErrNameTooLong
  else
    let! c := putU32 (oid d) (make (intSize + shortSize + len_of (name d) + intSize)) in
    let! c := putU16 (len_of (name d)) c in
    let! c := putBytes nameBytes c in
    let! c := putU32 (byteLength d) c in
    Ok c.1.

Definition FromBytes (data : list byte) : outcome t :=
  let minSize := intSize + shortSize + intSize in
  if Z.of_nat (length data) <? minSize then Err ErrDataTooShort
  else
    let! ' (oid, off) := getU32 data 0 in
    let! ' (nameLen, off) := getU16 data off in
    let! ' (name, off) := getString data off nameLen in
    let! ' (byteLength, off) := getU32 data off in
    Ok {| oid := oid; name := name; byteLength := byteLength |}.
End TypeDefinition.

Module TableDefinition.
Record t : Type := { oid : Z; name : string; typ : string; fileNode : string; pagesCount : Z }.

Definition New (oid : Z) (name typ fileNode : string) (pagesCount : Z) : outcome t :=
  if blank name then Err ErrNameRequired
  else if blank typ then Err ErrTypeRequired
  else if blank fileNode then Err ErrFileNodeRequired
  else Ok {| oid := oid; name := name; typ := typ; fileNode := fileNode; pagesCount := pagesCount |}.

Definition SetPagesCount (v : Z) (d : t) : t :=
  {| oid := oid d; name := name d; typ := typ d; fileNode := fileNode d; pagesCount := v |}.

Definition ToBytes (d : t) : outcome (list byte) :=
  if (maxUint16 <? len_of (name d)) || (maxUint16 <? len_of (typ d)) || (maxUint16 <? len_of (fileNode d))
  then Err ErrStringTooLong
  else
    let! c := putU32 (oid d) (make (intSize + shortSize + len_of (name d) + shortSize + len_of (typ d)
      + shortSize + len_of (fileNode d) + intSize)) in
    let! c := putU16 (len_of (name d)) c in
    let! c := putBytes (bytes_of (name d)) c in
    let! c := putU16 (len_of (typ d)) c in
    let! c := putBytes (bytes_of (typ d)) c in
    let! c := putU16 (len_of (fileNode d)) c in
    let! c := putBytes (bytes_of (fileNode d)) c in
    let! c := putU32 (pagesCount d) c in
    Ok c.1.

Definition FromBytes (data : list byte) : outcome t :=
  let minSize := intSize + shortSize * 3 + intSize in
  if Z.of_nat (length data) <? minSize then Err ErrDataTooShort
  else
    let! ' (oid, off) := getU32 data 0 in
    let! ' (nameLen, off) := getU16 data off in
    let! ' (name, off) := getString data off nameLen in
    let! ' (typeLen, off) := getU16 data off in
    let! ' (typ, off) := getString data off typeLen in
    let! ' (fileLen, off) := getU16 data off in
    let! ' (fileNode, off) := getString data off fileLen in
    let! ' (pagesCount, off) := getU32 data off in
    Ok {| oid := oid; name := name; typ := typ; fileNode := fileNode; pagesCount := pagesCount |}.
End TableDefinition.

Module ColumnDefinition.
Record t : Type := { oid : Z; tableOid : Z; typeOid : Z; name : string; position : Z }.

Definition New (oid tableOid typeOid : Z) (name : string) (position : Z) : outcome t :=
  if decide (name = "") then Err ErrNameRequired
  else Ok {| oid := oid; tableOid := tableOid; typeOid := typeOid; name := name; position := position |}.

Definition ToBytes (d : t) : outcome (list byte) :=
  if maxUint16 <? len_of (name d) then Err ErrNameTooLong
  else
    let! c := putU32 (oid d) (make (intSize * 3 + shortSize + len_of (name d) + intSize)) in
    let! c := putU32 (tableOid d) c in
    let! c := putU32 (typeOid d) c in
    let! c := putU16 (len_of (name d)) c in
    let! c := putBytes (bytes_of (name d)) c in
    let! c := putU32 (position d) c in
    Ok c.1.

Definition FromBytes (data : list byte) : outcome t :=
  let minSize := intSize * 3 + shortSize + intSize in
  if Z.of_nat (length data) <? minSize then Err ErrDataTooShort
  else
    let! ' (oid, off) := getU32 data 0 in
    let! ' (tableOid, off) := getU32 data off in
    let! ' (typeOid, off) := getU32 data off in
    let! ' (nameLen, off) := getU16 data off in
    let! ' (name, off) := getString data off nameLen in
    let! ' (position, off) := getU32 data off in
    Ok {| oid := oid; tableOid := tableOid; typeOid := typeOid; name := name; position := position |}.
End ColumnDefinition.

Module IndexDefinition.
Record t : Type := {
  oid : Z; name : string; tableOid : Z; columnOid : Z; keyTypeOid : Z; indexType : IndexType;
  fileNode : string; metaPageId : Z; rootPageId : Z
}.

Definition New (oid : Z) (name : string) (tableOid columnOid keyTypeOid : Z) (indexType : IndexType)
    (fileNode : string) (metaPageId rootPageId : Z) : outcome t :=
  if decide (name = "") then Err ErrNameRequired
  else if decide (fileNode = "") then Err ErrFileNodeRequired
  else Ok {| oid := oid; name := name; tableOid := tableOid; columnOid := columnOid;
             keyTypeOid := keyTypeOid; indexType := indexType; fileNode := fileNode;
             metaPageId := metaPageId; rootPageId := rootPageId |}.

Definition ToBytes (d : t) : outcome (list byte) :=
  if (maxUint16 <? len_of (name d)) || (maxUint16 <? len_of (fileNode d)) then Err ErrStringTooLong
  else
    let! c := putU32 (oid d) (make (intSize * 7 + shortSize + len_of (name d) + shortSize
      + len_of (fileNode d))) in
    let! c := putU32 (tableOid d) c in
    let! c := putU32 (columnOid d) c in
    let! c := putU32 (keyTypeOid d) c in
    let! c := putU32 (Ordinal (indexType d)) c in
    let! c := putU32 (metaPageId d) c in
    let! c := putU32 (rootPageId d) c in
    let! c := putU16 (len_of (name d)) c in
    let! c := putBytes (bytes_of (name d)) c in
    let! c := putU16 (len_of (fileNode d)) c in
    let! c := putBytes (bytes_of (fileNode d)) c in
    Ok c.1.

Definition FromBytes (data : list byte) : outcome t :=
  let minSize := intSize * 7 + shortSize * 2 in
  if Z.of_nat (length data) <? minSize then Err ErrDataTooShort
  else
    let! ' (oid, off) := getU32 data 0 in
    let! ' (tableOid, off) := getU32 data off in
    let! ' (columnOid, off) := getU32 data off in
    let! ' (keyTypeOid, off) := getU32 data off in
    let! ' (indexTypeOrd, off) := getU32 data off in
    let! ' (metaPageId, off) := getU32 data off in
    let! ' (rootPageId, off) := getU32 data off in
    let! ' (nameLen, off) := getU16 data off in
    let! ' (name, off) := getString data off nameLen in
    let! ' (fileLen, off) := getU16 data off in
    let! ' (fileNode, off) := getString data off fileLen in
    Ok {| oid := oid; name := name; tableOid := tableOid; columnOid := columnOid;
          keyTypeOid := keyTypeOid; indexType := IndexTypeFromOrdinal indexTypeOrd;
          fileNode := fileNode; metaPageId := metaPageId; rootPageId := rootPageId |}.
End IndexDefinition.

#[export] Instance TypeDefinition_eq_dec : EqDecision TypeDefinition.t.
Proof. solve_decision. Defined.
#[export] Instance TableDefinition_eq_dec : EqDecision TableDefinition.t.
Proof. solve_decision. Defined.
#[export] Instance ColumnDefinition_eq_dec : EqDecision ColumnDefinition.t.
Proof. solve_decision. Defined.
#[export] Instance IndexDefinition_eq_dec : EqDecision IndexDefinition.t.
Proof. solve_decision. Defined.

(** ** Running the encoders and decoders *)
Module Codec.
Section codec.
Implicit Types (pre post bs : list byte) (v n : Z).

Definition zero n : list byte := replicate (Z.to_nat n) (byte_of 0).

(** The encoder after writing [pre], with [n] bytes of the buffer left. *)
Definition wr pre n : cursor := (pre ++ zero n, Z.of_nat (length pre)).

Lemma make_wr n : make n = wr [] n.
Proof. done. Qed.

Lemma splice_zero pre n bs :
  Z.of_nat (length bs) <= n ->
  splice (length pre) bs (pre ++ zero n) = (pre ++ bs) ++ zero (n - Z.of_nat (length bs)).
Proof.
  intros Hl. unfold splice. rewrite take_app_length, drop_app_ge by lia. rewrite <- app_assoc. do 2 f_equal.
  unfold zero. rewrite drop_replicate. f_equal. lia.
Qed.

Lemma write_wr pre n bs :
  Z.of_nat (length bs) <= n ->
  go_write (wr pre n).1 (wr pre n).2 bs = Ok ((pre ++ bs) ++ zero (n - Z.of_nat (length bs))).
Proof.
  intros Hl. unfold wr; cbn [fst snd]. rewrite go_write_ok.
  - rewrite Nat2Z.id. by rewrite splice_zero.
  - lia.
  - rewrite length_app. unfold zero. rewrite length_replicate. lia.
Qed.

Lemma putU32_wr pre n v : 4 <= n -> putU32 v (wr pre n) = Ok (wr (pre ++ be_bytes 4 (uint32 v)) (n - 4)).
Proof.
  intros Hn. unfold putU32. rewrite write_wr by (rewrite length_be_bytes; lia). cbn [obind].
  unfold wr, intSize; cbn [fst snd]. rewrite length_app, length_be_bytes. do 2 f_equal; lia.
Qed.

Lemma putU16_wr pre n v : 2 <= n -> putU16 v (wr pre n) = Ok (wr (pre ++ be_bytes 2 (uint16 v)) (n - 2)).
Proof.
  intros Hn. unfold putU16. rewrite write_wr by (rewrite length_be_bytes; lia). cbn [obind].
  unfold wr, shortSize; cbn [fst snd]. rewrite length_app, length_be_bytes. do 2 f_equal; lia.
Qed.

Lemma putBytes_wr pre n bs :
  Z.of_nat (length bs) <= n -> putBytes bs (wr pre n) = Ok (wr (pre ++ bs) (n - Z.of_nat (length bs))).
Proof.
  intros Hn. unfold putBytes.
  assert (Hlen : Z.of_nat (length (wr pre n).1) = (wr pre n).2 + n).
  { unfold wr, zero; cbn. rewrite length_app, length_replicate. lia. }
  rewrite go_slice_ok by (rewrite Hlen; unfold wr; cbn; lia). cbn [obind].
  rewrite take_ge by (rewrite <- (Nat2Z.id (length (wr pre n).1)), Hlen; unfold wr; cbn; lia).
  rewrite write_wr by done. cbn [obind]. unfold wr; cbn [fst snd]. rewrite length_app. do 2 f_equal; lia.
Qed.

(** The decoder at the end of [pre]. *)
Lemma getU32_at pre v post :
  in_sint 32 v ->
  getU32 (pre ++ be_bytes 4 (uint32 v) ++ post) (Z.of_nat (length pre)) =
    Ok (v, Z.of_nat (length (pre ++ be_bytes 4 (uint32 v)))).
Proof.
  intros Hv. unfold getU32. rewrite go_slice_ok by (try rewrite !length_app, length_be_bytes; lia).
  rewrite Nat2Z.id. replace (Z.to_nat (Z.of_nat (length pre) + 4 - Z.of_nat (length pre))) with 4%nat by lia.
  rewrite (sub_app_exact _ _ pre _ post) by (done || by rewrite length_be_bytes). cbn [obind].
  rewrite (be_value_uint 4 32), !(sint_uint 32), (sint_id 32) by (done || lia).
  rewrite length_app, length_be_bytes. unfold intSize. do 2 f_equal. lia.
Qed.

Lemma getU16_at pre v post :
  in_uint 16 v ->
  getU16 (pre ++ be_bytes 2 (uint16 v) ++ post) (Z.of_nat (length pre)) =
    Ok (v, Z.of_nat (length (pre ++ be_bytes 2 (uint16 v)))).
Proof.
  intros Hv. unfold getU16. rewrite go_slice_ok by (try rewrite !length_app, length_be_bytes; lia).
  rewrite Nat2Z.id. replace (Z.to_nat (Z.of_nat (length pre) + 2 - Z.of_nat (length pre))) with 2%nat by lia.
  rewrite (sub_app_exact _ _ pre _ post) by (done || by rewrite length_be_bytes). cbn [obind].
  rewrite (be_value_uint 2 16), !(uint_id 16) by (done || apply uint_range; lia).
  rewrite length_app, length_be_bytes. unfold shortSize. do 2 f_equal. lia.
Qed.

Lemma getString_at pre s post :
  getString (pre ++ bytes_of s ++ post) (Z.of_nat (length pre)) (len_of s) =
    Ok (s, Z.of_nat (length (pre ++ bytes_of s))).
Proof.
  unfold getString, len_of. rewrite go_slice_ok by (try rewrite !length_app; lia).
  rewrite Nat2Z.id, (sub_app_exact _ _ pre _ post) by (done || lia). cbn [obind].
  rewrite string_of_bytes_of, length_app. do 2 f_equal. lia.
Qed.

Lemma len_of_range s : len_of s <= maxUint16 -> in_uint 16 (len_of s).
Proof. unfold len_of, maxUint16, in_uint. lia. Qed.

(** The same, on a text that splits at the offset. *)
Lemma getU32_in data pre v post :
  data = pre ++ be_bytes 4 (uint32 v) ++ post -> in_sint 32 v ->
  getU32 data (Z.of_nat (length pre)) = Ok (v, Z.of_nat (length (pre ++ be_bytes 4 (uint32 v)))).
Proof. intros ->. apply getU32_at. Qed.

Lemma getU16_in data pre v post :
  data = pre ++ be_bytes 2 (uint16 v) ++ post -> in_uint 16 v ->
  getU16 data (Z.of_nat (length pre)) = Ok (v, Z.of_nat (length (pre ++ be_bytes 2 (uint16 v)))).
Proof. intros ->. apply getU16_at. Qed.

Lemma getString_in data pre s post :
  data = pre ++ bytes_of s ++ post ->
  getString data (Z.of_nat (length pre)) (len_of s) = Ok (s, Z.of_nat (length (pre ++ bytes_of s))).
Proof. intros ->. apply getString_at. Qed.

Lemma wr_done pre n : n = 0 -> (wr pre n).1 = pre.
Proof. intros ->. unfold wr, zero. cbn. by rewrite app_nil_r. Qed.

End codec.

(** Evaluate an encoder, or a decoder on an encoding. *)
Ltac put_step :=
  first [rewrite putU32_wr by (unfold len_of, intSize, shortSize in *; lia)
        |rewrite putU16_wr by (unfold len_of, intSize, shortSize in *; lia)
        |rewrite putBytes_wr by (unfold len_of, intSize, shortSize in *; lia)]; cbn [obind].
Ltac split_text := rewrite <- ?app_assoc; reflexivity.
Ltac get_step :=
  match goal with
  | |- obind (getU32 ?data (Z.of_nat (length ?pre))) _ = _ =>
      erewrite (getU32_in data pre) by (split_text || assumption)
  | |- obind (getU16 ?data (Z.of_nat (length ?pre))) _ = _ =>
      erewrite (getU16_in data pre) by (split_text || (apply len_of_range; assumption))
  | |- obind (getString ?data (Z.of_nat (length ?pre)) (len_of ?s)) _ = _ =>
      erewrite (getString_in data pre s) by split_text
  end; cbn [obind].
Ltac encode :=
  rewrite make_wr; repeat put_step; rewrite wr_done by (unfold len_of, intSize, shortSize; lia);
  rewrite <- ?app_assoc; reflexivity.
Ltac decode :=
  match goal with |- obind (getU32 ?d 0) _ = _ => change (getU32 d 0) with (getU32 d (Z.of_nat (length (@nil byte)))) end;
  repeat get_step; reflexivity.

End Codec.

Module Roundtrips.
Import Codec.

Notation u32 v := (be_bytes 4 (uint32 v)).
Notation u16 v := (be_bytes 2 (uint16 v)).

(** The records whose fields have their Go types and whose strings fit. *)
Definition type_ok (d : TypeDefinition.t) : Prop :=
  in_sint 32 (TypeDefinition.oid d) /\ in_sint 32 (TypeDefinition.byteLength d) /\
  len_of (TypeDefinition.name d) <= maxUint16.

Definition type_bytes (d : TypeDefinition.t) : list byte :=
  u32 (TypeDefinition.oid d) ++ u16 (len_of (TypeDefinition.name d)) ++
  bytes_of (TypeDefinition.name d) ++ u32 (TypeDefinition.byteLength d).

Definition table_ok (d : TableDefinition.t) : Prop :=
  in_sint 32 (TableDefinition.oid d) /\ in_sint 32 (TableDefinition.pagesCount d) /\
  len_of (TableDefinition.name d) <= maxUint16 /\ len_of (TableDefinition.typ d) <= maxUint16 /\
  len_of (TableDefinition.fileNode d) <= maxUint16.

Definition table_bytes (d : TableDefinition.t) : list byte :=
  u32 (TableDefinition.oid d) ++
  u16 (len_of (TableDefinition.name d)) ++ bytes_of (TableDefinition.name d) ++
  u16 (len_of (TableDefinition.typ d)) ++ bytes_of (TableDefinition.typ d) ++
  u16 (len_of (TableDefinition.fileNode d)) ++ bytes_of (TableDefinition.fileNode d) ++
  u32 (TableDefinition.pagesCount d).

Definition column_ok (d : ColumnDefinition.t) : Prop :=
  in_sint 32 (ColumnDefinition.oid d) /\ in_sint 32 (ColumnDefinition.tableOid d) /\
  in_sint 32 (ColumnDefinition.typeOid d) /\ in_sint 32 (ColumnDefinition.position d) /\
  len_of (ColumnDefinition.name d) <= maxUint16.

Definition column_bytes (d : ColumnDefinition.t) : list byte :=
  u32 (ColumnDefinition.oid d) ++ u32 (ColumnDefinition.tableOid d) ++ u32 (ColumnDefinition.typeOid d) ++
  u16 (len_of (ColumnDefinition.name d)) ++ bytes_of (ColumnDefinition.name d) ++
  u32 (ColumnDefinition.position d).

Definition index_ok (d : IndexDefinition.t) : Prop :=
  in_sint 32 (IndexDefinition.oid d) /\ in_sint 32 (IndexDefinition.tableOid d) /\
  in_sint 32 (IndexDefinition.columnOid d) /\ in_sint 32 (IndexDefinition.keyTypeOid d) /\
  in_sint 32 (IndexDefinition.indexType d) /\ in_sint 32 (IndexDefinition.metaPageId d) /\
  in_sint 32 (IndexDefinition.rootPageId d) /\
  len_of (IndexDefinition.name d) <= maxUint16 /\ len_of (IndexDefinition.fileNode d) <= maxUint16.

Definition index_bytes (d : IndexDefinition.t) : list byte :=
  u32 (IndexDefinition.oid d) ++ u32 (IndexDefinition.tableOid d) ++ u32 (IndexDefinition.columnOid d) ++
  u32 (IndexDefinition.keyTypeOid d) ++ u32 (Ordinal (IndexDefinition.indexType d)) ++
  u32 (IndexDefinition.metaPageId d) ++ u32 (IndexDefinition.rootPageId d) ++
  u16 (len_of (IndexDefinition.name d)) ++ bytes_of (IndexDefinition.name d) ++
  u16 (len_of (IndexDefinition.fileNode d)) ++ bytes_of (IndexDefinition.fileNode d).

Lemma length_u32 v : length (u32 v) = 4%nat.
Proof. apply length_be_bytes. Qed.
Lemma length_u16 v : length (u16 v) = 2%nat.
Proof. apply length_be_bytes. Qed.

(** Type records: a record whose fields are in range is encoded, its
    encoding decodes to the same record whatever bytes follow it, a name over
    65535 bytes is refused, and fewer than 10 bytes are refused. *)
Theorem type_definition_roundtrip d post :
  (type_ok d -> exists bs, TypeDefinition.ToBytes d = Ok bs /\ TypeDefinition.FromBytes (bs ++ post) = Ok d) /\
  (maxUint16 < len_of (TypeDefinition.name d) -> TypeDefinition.ToBytes d = Err ErrNameTooLong) /\
  (Z.of_nat (length post) < 10 -> TypeDefinition.FromBytes post = Err ErrDataTooShort).
Proof.
  split_and!.
  - intros (Ho & Hb & Hn). exists (type_bytes d). split.
    + unfold TypeDefinition.ToBytes. rewrite (proj2 (Z.ltb_ge _ _)) by done. encode.
    + unfold TypeDefinition.FromBytes. rewrite (proj2 (Z.ltb_ge _ _)).
      * destruct d. unfold type_bytes; cbn [TypeDefinition.oid TypeDefinition.name TypeDefinition.byteLength] in *. decode.
      * unfold type_bytes. rewrite !length_app, !length_u32, length_u16. unfold intSize, shortSize. lia.
  - intros Hn. unfold TypeDefinition.ToBytes. by rewrite (proj2 (Z.ltb_lt _ _)).
  - intros Hn. unfold TypeDefinition.FromBytes, intSize, shortSize. by rewrite (proj2 (Z.ltb_lt _ _)).
Qed.

Lemma table_codec d post :
  table_ok d -> exists bs, TableDefinition.ToBytes d = Ok bs /\ TableDefinition.FromBytes (bs ++ post) = Ok d.
Proof.
  intros (Ho & Hp & Hn & Ht & Hf). exists (table_bytes d). split.
  - unfold TableDefinition.ToBytes. rewrite !(proj2 (Z.ltb_ge _ _)) by done. cbn [orb]. encode.
  - unfold TableDefinition.FromBytes. rewrite (proj2 (Z.ltb_ge _ _)).
    + destruct d. unfold table_bytes; cbn [TableDefinition.oid TableDefinition.name TableDefinition.typ TableDefinition.fileNode TableDefinition.pagesCount] in *. decode.
    + unfold table_bytes. rewrite !length_app, !length_u32, !length_u16. unfold intSize, shortSize. lia.
Qed.

(** Table records: encoding and decoding are inverse on records whose
    fields are in range, also when other bytes follow the encoding; over-long
    strings and too short data are refused. *)
Theorem table_definition_roundtrip d post :
  (table_ok d -> exists bs, TableDefinition.ToBytes d = Ok bs /\ TableDefinition.FromBytes (bs ++ post) = Ok d) /\
  (maxUint16 < len_of (TableDefinition.name d) \/ maxUint16 < len_of (TableDefinition.typ d) \/
   maxUint16 < len_of (TableDefinition.fileNode d) -> TableDefinition.ToBytes d = Err ErrStringTooLong) /\
  (Z.of_nat (length post) < 14 -> TableDefinition.FromBytes post = Err ErrDataTooShort).
Proof.
  split_and!.
  - apply table_codec.
  - intros Hn. unfold TableDefinition.ToBytes.
    destruct (Z.ltb_spec maxUint16 (len_of (TableDefinition.name d))),
      (Z.ltb_spec maxUint16 (len_of (TableDefinition.typ d))),
      (Z.ltb_spec maxUint16 (len_of (TableDefinition.fileNode d))); try done. lia.
  - intros Hn. unfold TableDefinition.FromBytes, intSize, shortSize. by rewrite (proj2 (Z.ltb_lt _ _)).
Qed.

(** Column records: the same for [ColumnDefinition]. *)
Theorem column_definition_roundtrip d post :
  (column_ok d -> exists bs, ColumnDefinition.ToBytes d = Ok bs /\ ColumnDefinition.FromBytes (bs ++ post) = Ok d) /\
  (maxUint16 < len_of (ColumnDefinition.name d) -> ColumnDefinition.ToBytes d = Err ErrNameTooLong) /\
  (Z.of_nat (length post) < 18 -> ColumnDefinition.FromBytes post = Err ErrDataTooShort).
Proof.
  split_and!.
  - intros (Ho & Ht & Hy & Hp & Hn). exists (column_bytes d). split.
    + unfold ColumnDefinition.ToBytes. rewrite (proj2 (Z.ltb_ge _ _)) by done. encode.
    + unfold ColumnDefinition.FromBytes. rewrite (proj2 (Z.ltb_ge _ _)).
      * destruct d. unfold column_bytes; cbn [ColumnDefinition.oid ColumnDefinition.tableOid ColumnDefinition.typeOid ColumnDefinition.name ColumnDefinition.position] in *. decode.
      * unfold column_bytes. rewrite !length_app, !length_u32, !length_u16. unfold intSize, shortSize. lia.
  - intros Hn. unfold ColumnDefinition.ToBytes. by rewrite (proj2 (Z.ltb_lt _ _)).
  - intros Hn. unfold ColumnDefinition.FromBytes, intSize, shortSize. by rewrite (proj2 (Z.ltb_lt _ _)).
Qed.

Lemma index_codec d post :
  index_ok d -> exists bs, IndexDefinition.ToBytes d = Ok bs /\ IndexDefinition.FromBytes (bs ++ post) = Ok d.
Proof.
  intros (Ho & Ht & Hc & Hk & Hi & Hm & Hr & Hn & Hf). exists (index_bytes d). split.
  - unfold IndexDefinition.ToBytes. rewrite !(proj2 (Z.ltb_ge _ _)) by done. cbn [orb]. encode.
  - unfold IndexDefinition.FromBytes. rewrite (proj2 (Z.ltb_ge _ _)).
    + destruct d. unfold index_bytes, Ordinal; cbn [IndexDefinition.oid IndexDefinition.name IndexDefinition.tableOid IndexDefinition.columnOid IndexDefinition.keyTypeOid IndexDefinition.indexType IndexDefinition.fileNode IndexDefinition.metaPageId IndexDefinition.rootPageId] in *. decode.
    + unfold index_bytes. rewrite !length_app, !length_u32, !length_u16. unfold intSize, shortSize. lia.
Qed.

(** Index records: the same for [IndexDefinition], for any ordinal of the
    index type. *)
Theorem index_definition_roundtrip d post :
  (index_ok d -> exists bs, IndexDefinition.ToBytes d = Ok bs /\ IndexDefinition.FromBytes (bs ++ post) = Ok d) /\
  (maxUint16 < len_of (IndexDefinition.name d) \/ maxUint16 < len_of (IndexDefinition.fileNode d) -> IndexDefinition.ToBytes d = Err ErrStringTooLong) /\
  (Z.of_nat (length post) < 32 -> IndexDefinition.FromBytes post = Err ErrDataTooShort).
Proof.
  split_and!.
  - apply index_codec.
  - intros Hn. unfold IndexDefinition.ToBytes.
    destruct (Z.ltb_spec maxUint16 (len_of (IndexDefinition.name d))),
      (Z.ltb_spec maxUint16 (len_of (IndexDefinition.fileNode d))); try done. lia.
  - intros Hn. unfold IndexDefinition.FromBytes, intSize, shortSize. by rewrite (proj2 (Z.ltb_lt _ _)).
Qed.

(** The decoders trust the lengths they read: ten bytes that claim a name
    of 65535 bytes pass the length check and make the decoder panic with a
    slice out of range instead of returning an error. *)
Theorem type_from_bytes_panics :
  TypeDefinition.FromBytes (u32 1 ++ u16 65535 ++ u32 8) = Panic.
Proof. vm_compute. reflexivity. Qed.

Definition users_table : TableDefinition.t :=
  {| TableDefinition.oid := -7; TableDefinition.name := "users"; TableDefinition.typ := "USER";
     TableDefinition.fileNode := "users.tbl"; TableDefinition.pagesCount := 3 |}.

Lemma table_definition_roundtrip_witness :
  table_ok users_table /\
  exists bs, TableDefinition.ToBytes users_table = Ok bs /\ TableDefinition.FromBytes (bs ++ u32 0) = Ok users_table.
Proof.
  assert (H : table_ok users_table) by (vm_compute; repeat split; congruence).
  split; [exact H|]. exact (proj1 (table_definition_roundtrip users_table (u32 0)) H).
Defined.

Definition int64_type : TypeDefinition.t :=
  {| TypeDefinition.oid := 1; TypeDefinition.name := "INT64"; TypeDefinition.byteLength := 8 |}.

Lemma type_definition_roundtrip_witness :
  type_ok int64_type /\
  exists bs, TypeDefinition.ToBytes int64_type = Ok bs /\ TypeDefinition.FromBytes (bs ++ []) = Ok int64_type.
Proof.
  assert (H : type_ok int64_type) by (vm_compute; repeat split; congruence).
  split; [exact H|]. exact (proj1 (type_definition_roundtrip int64_type []) H).
Defined.

Definition id_column : ColumnDefinition.t :=
  {| ColumnDefinition.oid := 12; ColumnDefinition.tableOid := 3; ColumnDefinition.typeOid := 1;
     ColumnDefinition.name := "id"; ColumnDefinition.position := 0 |}.

Lemma column_definition_roundtrip_witness :
  column_ok id_column /\
  exists bs, ColumnDefinition.ToBytes id_column = Ok bs /\ ColumnDefinition.FromBytes (bs ++ []) = Ok id_column.
Proof.
  assert (H : column_ok id_column) by (vm_compute; repeat split; congruence).
  split; [exact H|]. exact (proj1 (column_definition_roundtrip id_column []) H).
Defined.

Definition id_index : IndexDefinition.t :=
  {| IndexDefinition.oid := 20; IndexDefinition.name := "users_id"; IndexDefinition.tableOid := 3;
     IndexDefinition.columnOid := 12; IndexDefinition.keyTypeOid := 1;
     IndexDefinition.indexType := IndexTypeBTree; IndexDefinition.fileNode := "users_id.idx";
     IndexDefinition.metaPageId := 0; IndexDefinition.rootPageId := -1 |}.

Lemma index_definition_roundtrip_witness :
  index_ok id_index /\
  exists bs, IndexDefinition.ToBytes id_index = Ok bs /\ IndexDefinition.FromBytes (bs ++ []) = Ok id_index.
Proof.
  assert (H : index_ok id_index) by (vm_compute; repeat split; congruence).
  split; [exact H|]. exact (proj1 (index_definition_roundtrip id_index []) H).
Defined.

End Roundtrips.
