(* ===== verification/Semantic.v ===== *)
(** * Semantic: name resolution and type checking

    Models the package [sql/semantic]: [Analyzer] against any catalog (the
    interface [CatalogManager] is a type class of its queries, with the error
    and the nil results the Go interface allows), and the resolved query trees
    it builds.

    [has_type] is the specification, the typing rules of WHERE expressions;
    the theorems relate the analyzer to it in both directions and state what
    each kind of resolved statement guarantees to the planner and the
    executors. *)

From S2P Require Import Prelude GoRuntime Lexer Ast CatalogModel.

(** ** The catalog as the front end sees it

    A nil pointer is [None].  [error_text] is the [Error()] string of an error
    of the catalog. *)
Class CatalogManager (C : Type) : Type := {
  GetTable : C -> string -> outcome (option TableDefinition.t);
  GetColumns : C -> TableDefinition.t -> outcome (list ColumnDefinition.t);
  GetColumn : C -> TableDefinition.t -> string -> outcome (option ColumnDefinition.t);
  GetTypeByOid : C -> Z -> outcome (option TypeDefinition.t);
  GetTypeByName : C -> string -> outcome (option TypeDefinition.t);
  GetIndex : C -> string -> outcome (option IndexDefinition.t);
  ListIndexes : C -> TableDefinition.t -> outcome (list IndexDefinition.t);
  error_text : go_error -> string
}.

(** ** Resolved trees *)
Inductive ExprType : Type := ExprTypeInt64 | ExprTypeVarchar | ExprTypeBool.

#[export] Instance ExprType_eq_dec : EqDecision ExprType.
Proof. solve_decision. Defined.

(** [%v] of an [ExprType], an integer. *)
Definition show_type (t : ExprType) : string :=
  match t with ExprTypeInt64 => "0" | ExprTypeVarchar => "1" | ExprTypeBool => "2" end.

Inductive ResolvedExpr : Type :=
  | ResolvedBinaryExpr (op : string) (left right : ResolvedExpr) (exprType : ExprType)
  | ResolvedColumnRef (column : ColumnDefinition.t) (exprType : ExprType)
  | ResolvedConst (value : any) (exprType : ExprType).

Definition ExprType_of (e : ResolvedExpr) : ExprType :=
  match e with
  | ResolvedBinaryExpr _ _ _ t | ResolvedColumnRef _ t | ResolvedConst _ t => t
  end.

Record ResolvedCreateColumn : Type := { rc_name : SqlIdent; rc_typeDef : TypeDefinition.t }.

Inductive QueryTree : Type :=
  | CreateTableQueryTree (tableName : SqlIdent) (columns : list ResolvedCreateColumn)
  | InsertQueryTree (table : TableDefinition.t) (columns : list ColumnDefinition.t) (values : list any)
  | SelectQueryTree (table : TableDefinition.t) (targetColumns : list ColumnDefinition.t)
      (filter : option ResolvedExpr)
  | CreateIndexQueryTree (indexName : SqlIdent) (table : TableDefinition.t)
      (column : ColumnDefinition.t) (indexType : IndexType)
  | ExplainQueryTree (inner : QueryTree).

(** [QueryType.String]. *)
Definition query_type_name (q : QueryTree) : string :=
  match q with
  | CreateTableQueryTree _ _ => "CREATE_TABLE" | InsertQueryTree _ _ _ => "INSERT"
  | SelectQueryTree _ _ _ => "SELECT" | CreateIndexQueryTree _ _ _ _ => "CREATE_INDEX"
  | ExplainQueryTree _ => "EXPLAIN"
  end.

Module Analyzer.

Definition comparisonOps (op : string) : bool :=
  bool_decide (op ∈ ["="; "<>"; "<"; "<="; ">"; ">="]).
Definition logicalOps (op : string) : bool := bool_decide (op ∈ ["AND"; "OR"]).
Definition typeNames : list (string * string) := [("INT", "INT64"); ("INTEGER", "INT64")].
Definition exprTypes : list (string * ExprType) :=
  [("INT64", ExprTypeInt64); ("VARCHAR", ExprTypeVarchar)].

Definition errorf {A} (message : string) : outcome A := Err (SemanticError message None).
Definition errorAt {A} (message : string) (ident : SqlIdent) : outcome A :=
  Err (SemanticError message (Some (ident_offset ident, ident_line ident, ident_column ident))).

Definition toExprType (typeDef : TypeDefinition.t) : ExprType :=
  default ExprTypeInt64 (assoc (TypeDefinition.name typeDef) exprTypes).

Definition normalizeTypeName (typeName : string) : string :=
  let upper := ToUpper typeName in default upper (assoc upper typeNames).

(** [x, err := call; if err != nil || x == nil { return nil, fail }]. *)
Definition found {A B} (x : outcome (option A)) (fail : outcome B) (k : A -> outcome B) : outcome B :=
  match x with
  | Ok (Some a) => k a
  | Ok None | Err _ => fail
  | Panic => Panic
  end.

Section analyzer.
Context {C : Type} `{CatalogManager C} (catalog : C).
Implicit Types (table : TableDefinition.t) (expr : Expr).

Definition resolveColumnRef (name : SqlIdent) table : outcome ResolvedExpr :=
  found (GetColumn catalog table (ident_text name))
    (errorAt ("Column not found: " +:+ TableDefinition.name table +:+ "." +:+ ident_text name) name)
    (fun col =>
  found (GetTypeByOid catalog (ColumnDefinition.typeOid col))
    (errorf ("Unknown type oid: " +:+ pretty (ColumnDefinition.typeOid col)))
    (fun typeDef => Ok (ResolvedColumnRef col (toExprType typeDef)))).

Definition resolve_binary (op : string) (left right : ResolvedExpr) : outcome ResolvedExpr :=
  if logicalOps op then
    if decide (ExprType_of left <> ExprTypeBool) then errorf ("Left operand of " +:+ op +:+ " must be BOOL")
    else if decide (ExprType_of right <> ExprTypeBool) then
      errorf ("Right operand of " +:+ op +:+ " must be BOOL")
    else Ok (ResolvedBinaryExpr op left right ExprTypeBool)
  else if comparisonOps op then
    if decide (ExprType_of left <> ExprType_of right) then
      errorf ("Type mismatch in comparison: " +:+ show_type (ExprType_of left) +:+ " vs "
              +:+ show_type (ExprType_of right))
    else if decide (ExprType_of left = ExprTypeBool) then errorf "Cannot compare BOOL values"
    else Ok (ResolvedBinaryExpr op left right ExprTypeBool)
  else errorf ("Unsupported operator: " +:+ op).

Fixpoint resolveExpr expr table : outcome ResolvedExpr :=
  match expr with
  | ColumnRefExpr name => resolveColumnRef name table
  | LiteralInt64Expr v => Ok (ResolvedConst (AInt64 v) ExprTypeInt64)
  | LiteralStringExpr v => Ok (ResolvedConst (AString v) ExprTypeVarchar)
  | BinaryExpr op l r =>
    let! left := resolveExpr l table in
    let! right := resolveExpr r table in
    resolve_binary op left right
  end.

Definition resolveLiteral expr : outcome (any * ExprType) :=
  match expr with
  | LiteralInt64Expr v => Ok (AInt64 v, ExprTypeInt64)
  | LiteralStringExpr v => Ok (AString v, ExprTypeVarchar)
  | _ => errorf "Only literal values are supported in INSERT"
  end.

(** The loop of [analyzeCreateTable]; [seen] are the names so far. *)
Fixpoint create_columns (seen : list string) (cds : list ColumnDef) : outcome (list ResolvedCreateColumn) :=
  match cds with
  | [] => Ok []
  | cd :: cds =>
    let colName := ident_text (cd_name cd) in
    if decide (colName ∈ seen) then errorAt ("Duplicate column: " +:+ colName) (cd_name cd)
    else
      found (GetTypeByName catalog (normalizeTypeName (cd_typeName cd)))
        (errorAt ("Unknown type: " +:+ cd_typeName cd) (cd_name cd))
        (fun typeDef =>
      let! cols := create_columns (colName :: seen) cds in
      Ok ({| rc_name := cd_name cd; rc_typeDef := typeDef |} :: cols))
  end.

(** [table, _ := GetTable(name)]: an error leaves a nil table. *)
Definition existing {A} (x : outcome (option A)) : outcome bool :=
  match x with
  | Ok (Some _) => Ok true
  | Ok None | Err _ => Ok false
  | Panic => Panic
  end.

Definition analyzeCreateTable (tableName : SqlIdent) (columns : list ColumnDef) : outcome QueryTree :=
  let! exists_ := existing (GetTable catalog (ident_text tableName)) in
  if exists_ : bool then errorAt ("Table already exists: " +:+ ident_text tableName) tableName
  else
    let! cols := create_columns [] columns in
    Ok (CreateTableQueryTree tableName cols).

(** The loop of [analyzeInsert], over the columns and the value expressions. *)
Fixpoint insert_values (columns : list ColumnDefinition.t) (exprs : list Expr) : outcome (list any) :=
  match columns with
  | [] => Ok []
  | col :: columns =>
    found (GetTypeByOid catalog (ColumnDefinition.typeOid col))
      (errorf ("Unknown type oid: " +:+ pretty (ColumnDefinition.typeOid col)))
      (fun typeDef =>
    match exprs with
    | [] => Panic
    | expr :: exprs =>
      let! ' (val, valType) := resolveLiteral expr in
      let colType := toExprType typeDef in
      if decide (valType <> colType) then
        errorf ("Type mismatch for column " +:+ ColumnDefinition.name col +:+ ": expected "
                +:+ show_type colType +:+ " got " +:+ show_type valType)
      else
        let! values := insert_values columns exprs in
        Ok (val :: values)
    end)
  end.

(** [GetColumns] with its error reported. *)
Definition columns_of table : outcome (list ColumnDefinition.t) :=
  match GetColumns catalog table with
  | Err e => errorf ("Failed to get columns: " +:+ error_text e)
  | r => r
  end.

Definition analyzeInsert (tableName : SqlIdent) (values : list Expr) : outcome QueryTree :=
  found (GetTable catalog (ident_text tableName))
    (errorAt ("Table not found: " +:+ ident_text tableName) tableName)
    (fun table =>
  let! columns := columns_of table in
  if decide (length values <> length columns) then
    errorAt ("Values count mismatch: expected " +:+ pretty (length columns) +:+ " got "
             +:+ pretty (length values)) tableName
  else
    let! vals := insert_values columns values in
    Ok (InsertQueryTree table columns vals)).

(** The loop of [analyzeSelect] over the selected names. *)
Fixpoint select_columns (tableName : SqlIdent) table (names : list SqlIdent) :
    outcome (list ColumnDefinition.t) :=
  match names with
  | [] => Ok []
  | colName :: names =>
    found (GetColumn catalog table (ident_text colName))
      (errorAt ("Column not found: " +:+ ident_text tableName +:+ "." +:+ ident_text colName) colName)
      (fun col =>
    let! cols := select_columns tableName table names in
    Ok (col :: cols))
  end.

Definition analyze_where table (where_ : option Expr) : outcome (option ResolvedExpr) :=
  match where_ with
  | None => Ok None
  | Some e =>
    let! filter := resolveExpr e table in
    if decide (ExprType_of filter <> ExprTypeBool) then errorf "WHERE clause must be boolean"
    else Ok (Some filter)
  end.

Definition analyzeSelect (selectAll : bool) (columns : list SqlIdent) (tableName : SqlIdent)
    (where_ : option Expr) : outcome QueryTree :=
  found (GetTable catalog (ident_text tableName))
    (errorAt ("Table not found: " +:+ ident_text tableName) tableName)
    (fun table =>
  let! outCols := (if selectAll then columns_of table else select_columns tableName table columns) in
  let! filter := analyze_where table where_ in
  Ok (SelectQueryTree table outCols filter)).

Definition analyzeCreateIndex (indexName tableName columnName : SqlIdent) (indexType : IndexType) :
    outcome QueryTree :=
  let! exists_ := existing (GetIndex catalog (ident_text indexName)) in
  if exists_ : bool then errorAt ("Index already exists: " +:+ ident_text indexName) indexName
  else
    found (GetTable catalog (ident_text tableName))
      (errorAt ("Table not found: " +:+ ident_text tableName) tableName)
      (fun table =>
    found (GetColumn catalog table (ident_text columnName))
      (errorAt ("Column not found: " +:+ ident_text tableName +:+ "." +:+ ident_text columnName) columnName)
      (fun col => Ok (CreateIndexQueryTree indexName table col indexType))).

Fixpoint Analyze (stmt : Statement) : outcome QueryTree :=
  match stmt with
  | ExplainStmt inner => let! q := Analyze inner in Ok (ExplainQueryTree q)
  | CreateTableStmt tableName columns => analyzeCreateTable tableName columns
  | InsertStmt tableName values => analyzeInsert tableName values
  | SelectStmt selectAll columns tableName where_ => analyzeSelect selectAll columns tableName where_
  | CreateIndexStmt indexName tableName columnName indexType =>
    analyzeCreateIndex indexName tableName columnName indexType
  end.

End analyzer.
End Analyzer.

(** ** Typing rules *)
Module Typing.
Import Analyzer.

Section typing.
Context {C : Type} `{CatalogManager C} (catalog : C).
Implicit Types (table : TableDefinition.t).

(** A column of the table, with the type the catalog gives it. *)
Definition column_type table (name : string) (col : ColumnDefinition.t) (ty : ExprType) : Prop :=
  GetColumn catalog table name = Ok (Some col) /\
  exists td, GetTypeByOid catalog (ColumnDefinition.typeOid col) = Ok (Some td) /\ toExprType td = ty.

Inductive has_type table : Expr -> ExprType -> Prop :=
  | ty_column name col ty :
      column_type table (ident_text name) col ty -> has_type table (ColumnRefExpr name) ty
  | ty_int v : has_type table (LiteralInt64Expr v) ExprTypeInt64
  | ty_string v : has_type table (LiteralStringExpr v) ExprTypeVarchar
  | ty_logical op l r :
      logicalOps op = true -> has_type table l ExprTypeBool -> has_type table r ExprTypeBool ->
      has_type table (BinaryExpr op l r) ExprTypeBool
  | ty_comparison op l r ty :
      comparisonOps op = true -> ty <> ExprTypeBool -> has_type table l ty -> has_type table r ty ->
      has_type table (BinaryExpr op l r) ExprTypeBool.

(** [resolves table e r]: [r] is [e] with its names and types resolved. *)
Inductive resolves table : Expr -> ResolvedExpr -> Prop :=
  | res_column name col ty :
      column_type table (ident_text name) col ty ->
      resolves table (ColumnRefExpr name) (ResolvedColumnRef col ty)
  | res_int v : resolves table (LiteralInt64Expr v) (ResolvedConst (AInt64 v) ExprTypeInt64)
  | res_string v : resolves table (LiteralStringExpr v) (ResolvedConst (AString v) ExprTypeVarchar)
  | res_binary op l r l' r' :
      resolves table l l' -> resolves table r r' ->
      (logicalOps op = true /\ ExprType_of l' = ExprTypeBool /\ ExprType_of r' = ExprTypeBool) \/
      (comparisonOps op = true /\ ExprType_of l' = ExprType_of r' /\ ExprType_of l' <> ExprTypeBool) ->
      resolves table (BinaryExpr op l r) (ResolvedBinaryExpr op l' r' ExprTypeBool).

(** A value of a type: what a literal, and a field of a stored row, may be. *)
Definition value_type (v : any) (ty : ExprType) : Prop :=
  match v, ty with
  | AInt64 _, ExprTypeInt64 | AString _, ExprTypeVarchar | ABool _, ExprTypeBool => True
  | _, _ => False
  end.

End typing.
End Typing.

(** ** The specification of the analyzer *)
Module AnalyzerSpec.
Import Analyzer Typing.

Section spec.
Context {C : Type} `{CatalogManager C} (catalog : C).
Implicit Types (table : TableDefinition.t) (stmt : Statement) (q : QueryTree).

(** A lookup that finds nothing: a nil pointer or an error. *)
Definition absent {A} (x : outcome (option A)) : Prop := x = Ok None \/ exists e, x = Err e.

Inductive literal : Expr -> any -> ExprType -> Prop :=
  | lit_int v : literal (LiteralInt64Expr v) (AInt64 v) ExprTypeInt64
  | lit_string v : literal (LiteralStringExpr v) (AString v) ExprTypeVarchar.

(** The type of the values of a column. *)
Definition column_has_type (col : ColumnDefinition.t) (ty : ExprType) : Prop :=
  exists td, GetTypeByOid catalog (ColumnDefinition.typeOid col) = Ok (Some td) /\ toExprType td = ty.

(** The value expression of an INSERT is a literal of its column's type. *)
Definition assigns (col : ColumnDefinition.t) (expr : Expr) (v : any) : Prop :=
  exists ty, column_has_type col ty /\ literal expr v ty.

Definition declares (cd : ColumnDef) (rc : ResolvedCreateColumn) : Prop :=
  rc_name rc = cd_name cd /\
  GetTypeByName catalog (normalizeTypeName (cd_typeName cd)) = Ok (Some (rc_typeDef rc)).

Definition selects table (names : list SqlIdent) (cols : list ColumnDefinition.t) : Prop :=
  Forall2 (fun name col => GetColumn catalog table (ident_text name) = Ok (Some col)) names cols.

Definition filters table (where_ : option Expr) (filter : option ResolvedExpr) : Prop :=
  match where_, filter with
  | None, None => True
  | Some e, Some r => resolves catalog table e r /\ ExprType_of r = ExprTypeBool
  | _, _ => False
  end.

Inductive analyzes : Statement -> QueryTree -> Prop :=
  | an_explain stmt q : analyzes stmt q -> analyzes (ExplainStmt stmt) (ExplainQueryTree q)
  | an_create_table tn cds cols :
      absent (GetTable catalog (ident_text tn)) ->
      NoDup (map (fun cd => ident_text (cd_name cd)) cds) ->
      Forall2 declares cds cols ->
      analyzes (CreateTableStmt tn cds) (CreateTableQueryTree tn cols)
  | an_insert tn exprs table columns vals :
      GetTable catalog (ident_text tn) = Ok (Some table) ->
      GetColumns catalog table = Ok columns ->
      Forall3 assigns columns exprs vals ->
      analyzes (InsertStmt tn exprs) (InsertQueryTree table columns vals)
  | an_select_all names tn where_ table cols filter :
      GetTable catalog (ident_text tn) = Ok (Some table) ->
      GetColumns catalog table = Ok cols -> filters table where_ filter ->
      analyzes (SelectStmt true names tn where_) (SelectQueryTree table cols filter)
  | an_select names tn where_ table cols filter :
      GetTable catalog (ident_text tn) = Ok (Some table) ->
      selects table names cols -> filters table where_ filter ->
      analyzes (SelectStmt false names tn where_) (SelectQueryTree table cols filter)
  | an_create_index iname tn cname ty table col :
      absent (GetIndex catalog (ident_text iname)) ->
      GetTable catalog (ident_text tn) = Ok (Some table) ->
      GetColumn catalog table (ident_text cname) = Ok (Some col) ->
      analyzes (CreateIndexStmt iname tn cname ty) (CreateIndexQueryTree iname table col ty).

(** No query of the catalog panics. *)
Definition catalog_total : Prop :=
  (forall n, GetTable catalog n <> Panic) /\
  (forall t, GetColumns catalog t <> Panic) /\
  (forall t n, GetColumn catalog t n <> Panic) /\
  (forall o, GetTypeByOid catalog o <> Panic) /\
  (forall n, GetTypeByName catalog n <> Panic) /\
  (forall n, GetIndex catalog n <> Panic).

(** *** The combinators of the analyzer *)

Lemma found_ok {A B} (x : outcome (option A)) (fail : outcome B) k b :
  (forall b', fail <> Ok b') ->
  found x fail k = Ok b <-> exists a, x = Ok (Some a) /\ k a = Ok b.
Proof. intros Hf. destruct x as [[a|]|e|]; cbn; naive_solver. Qed.

Lemma existing_ok {A} (x : outcome (option A)) : existing x = Ok false <-> absent x.
Proof. unfold absent. destruct x as [[a|]|e|]; cbn; naive_solver. Qed.

Lemma found_at {A B} (x : outcome (option A)) m i k (b : B) :
  found x (errorAt m i) k = Ok b <-> exists a, x = Ok (Some a) /\ k a = Ok b.
Proof. by apply found_ok. Qed.

Lemma found_f {A B} (x : outcome (option A)) m k (b : B) :
  found x (errorf m) k = Ok b <-> exists a, x = Ok (Some a) /\ k a = Ok b.
Proof. by apply found_ok. Qed.

Lemma columns_of_ok table cols : columns_of catalog table = Ok cols <-> GetColumns catalog table = Ok cols.
Proof. unfold columns_of. destruct (GetColumns catalog table); naive_solver. Qed.
End spec.

Ltac case_dec := repeat match goal with |- context [decide ?P] => destruct (decide P) end.

Section resolution.
Context {C : Type} `{CatalogManager C} (catalog : C).
Implicit Types (table : TableDefinition.t) (stmt : Statement) (q : QueryTree).

Lemma logical_not_comparison op : logicalOps op = true -> comparisonOps op = false.
Proof. unfold logicalOps, comparisonOps. rewrite bool_decide_eq_true, bool_decide_eq_false. set_solver. Qed.

Lemma resolve_binary_ok op l r e :
  resolve_binary op l r = Ok e <->
  e = ResolvedBinaryExpr op l r ExprTypeBool /\
  ((logicalOps op = true /\ ExprType_of l = ExprTypeBool /\ ExprType_of r = ExprTypeBool) \/
   (comparisonOps op = true /\ ExprType_of l = ExprType_of r /\ ExprType_of l <> ExprTypeBool)).
Proof.
  unfold resolve_binary, errorf. pose proof (logical_not_comparison op) as Hx.
  destruct (logicalOps op), (comparisonOps op); try (specialize (Hx eq_refl); discriminate);
    destruct (ExprType_of l), (ExprType_of r); cbn; split; naive_solver congruence.
Qed.

Lemma resolveExpr_ok table e r : resolveExpr catalog e table = Ok r <-> resolves catalog table e r.
Proof.
  split.
  - revert r. induction e as [op l IHl r IHr|name|v|v]; intros res; cbn; intros E.
    + apply obind_ok in E as (l' & El & E). apply obind_ok in E as (r' & Er & E).
      apply resolve_binary_ok in E as [-> Hop]. constructor; auto.
    + unfold resolveColumnRef in E. apply found_at in E as (col & Hc & E).
      apply found_f in E as (td & Ht & [= <-]). constructor. split; eauto.
    + injection E as <-. constructor.
    + injection E as <-. constructor.
  - induction 1 as [name col ty [Hc (td & Ht & <-)]| | |op l r l' r' Hl IHl Hr IHr Hop]; cbn; try done.
    + unfold resolveColumnRef. by rewrite Hc; cbn; rewrite Ht.
    + rewrite IHl; cbn; rewrite IHr; cbn. by apply resolve_binary_ok.
Qed.

Lemma has_type_resolves table e ty :
  has_type catalog table e ty <-> exists r, resolves catalog table e r /\ ExprType_of r = ty.
Proof.
  split.
  - induction 1 as [name col ty Hc|v|v|op l r Hop _ (l' & Hl & El) _ (r' & Hr & Er)
                   |op l r ty Hop Hty _ (l' & Hl & El) _ (r' & Hr & Er)].
    1-3: by eexists; split; [constructor|].
    1-2: exists (ResolvedBinaryExpr op l' r' ExprTypeBool); split; [constructor; auto|done].
    right. subst ty. by rewrite Er.
  - intros (r & Hr & <-). induction Hr as [name col ty Hc| | |op l r l' r' Hl IHl Hr IHr Hop]; cbn; [by econstructor|constructor|constructor|].
    destruct Hop as [(Hop & El & Er)|(Hop & El & Hn)].
    + apply ty_logical; [done|by rewrite <- El|by rewrite <- Er].
    + apply (ty_comparison _ _ _ _ _ (ExprType_of l')); [done|done|done|by rewrite El].
Qed.

Lemma resolveLiteral_ok e v ty : resolveLiteral e = Ok (v, ty) <-> literal e v ty.
Proof.
  destruct e; cbn; split; intros E; try discriminate; try (injection E as <- <-; constructor);
    by inversion E.
Qed.

Lemma create_columns_ok cds seen cols :
  create_columns catalog seen cds = Ok cols <->
  NoDup (map (fun cd => ident_text (cd_name cd)) cds) /\
  (forall cd, cd ∈ cds -> ident_text (cd_name cd) ∉ seen) /\ Forall2 (declares catalog) cds cols.
Proof.
  revert seen cols. induction cds as [|cd cds IH]; intros seen cols; cbn [create_columns map].
  - split; [intros [= <-]; repeat split; [constructor|set_solver|constructor]|].
    intros (_ & _ & HF). by inversion HF.
  - case_dec.
    + split; [discriminate|]. intros (_ & Hs & _). destruct (Hs cd); [set_solver|done].
    + rewrite found_at. setoid_rewrite obind_ok. split.
      * intros (td & Ht & cols' & Hc & [= <-]). apply IH in Hc as (Hnd & Hs & HF). split; [|split].
        -- constructor; [|done]. intros Hin. apply list_elem_of_fmap in Hin as (cd' & Heq & Hin).
           apply (Hs cd' Hin). set_solver.
        -- intros cd' Hin. apply elem_of_cons in Hin as [->|Hin]; [done|]. specialize (Hs cd' Hin). set_solver.
        -- by constructor.
      * intros (Hnd & Hs & HF). apply NoDup_cons in Hnd as [Hn Hnd].
        inversion HF as [|? rc ? cols' [Hn' Ht] HF']; subst. exists (rc_typeDef rc). split; [done|].
        exists cols'. split; [|destruct rc; cbn in *; by subst]. apply IH. split; [done|]. split; [|done].
        intros cd' Hin. specialize (Hs cd'). apply not_elem_of_cons. split; [|set_solver].
        intros Heq. apply Hn. rewrite <- Heq. by apply (list_elem_of_fmap_2 (fun cd => ident_text (cd_name cd))).
Qed.

Lemma insert_values_ok columns exprs vals :
  length exprs = length columns ->
  insert_values catalog columns exprs = Ok vals <-> Forall3 (assigns catalog) columns exprs vals.
Proof.
  revert exprs vals. induction columns as [|col columns IH]; intros [|e exprs] vals Hlen; try discriminate Hlen;
    cbn [insert_values].
  - split; [intros [= <-]; constructor|by inversion 1].
  - rewrite found_f. setoid_rewrite obind_ok. split.
    + intros (td & Ht & [v ty] & Hl & E). case_decide as Hd; [discriminate E|].
      apply obind_ok in E as (vs & Hvs & [= <-]). constructor; [|apply IH; auto with lia].
      exists ty. split; [exists td; split; [done|]|by apply resolveLiteral_ok].
      done.
    + inversion 1 as [|? ? v ? ? vs (ty & (td & Ht & Hty) & Hl) HF]; subst.
      exists td. split; [done|]. exists (v, toExprType td). split; [by apply resolveLiteral_ok|].
      rewrite decide_False by naive_solver. apply obind_ok. exists vs. split; [|done].
      apply IH; [by injection Hlen|done].
Qed.

Lemma select_columns_ok tn table names cols :
  select_columns catalog tn table names = Ok cols <-> selects catalog table names cols.
Proof.
  unfold selects. revert cols. induction names as [|n names IH]; intros cols; cbn.
  - split; [intros [= <-]; constructor|by inversion 1].
  - rewrite found_at. setoid_rewrite obind_ok. split.
    + intros (col & Hc & cols' & Hcs & [= <-]). constructor; [done|by apply IH].
    + inversion 1 as [|? col ? cols' Hc HF]; subst. exists col. split; [done|].
      exists cols'. by rewrite IH.
Qed.

Lemma analyze_where_ok table w f : analyze_where catalog table w = Ok f <-> filters catalog table w f.
Proof.
  destruct w as [e|]; cbn; [|destruct f; naive_solver]. rewrite obind_ok. setoid_rewrite resolveExpr_ok.
  split.
  - intros (r & Hr & E). case_decide as Hd; [discriminate E|]. injection E as <-. split; [done|done].
  - destruct f as [r|]; [|done]. intros [Hr Hb]. exists r. split; [done|]. rewrite decide_False; naive_solver.
Qed.
End resolution.
End AnalyzerSpec.

(** ** A catalog held in lists, for the concrete instances of the theorems *)
Module ListCatalog.

Record t : Type := {
  tables : list (TableDefinition.t * list ColumnDefinition.t);
  types : list TypeDefinition.t;
  indexes : list IndexDefinition.t
}.

#[global] Instance list_catalog : CatalogManager t := {
  GetTable c n := Ok (fst <$> find (fun e => bool_decide (TableDefinition.name e.1 = n)) (tables c));
  GetColumns c tb :=
    Ok (default [] (snd <$> find (fun e => TableDefinition.oid e.1 =? TableDefinition.oid tb) (tables c)));
  GetColumn c tb n :=
    Ok (find (fun col => bool_decide (ColumnDefinition.name col = n))
          (default [] (snd <$> find (fun e => TableDefinition.oid e.1 =? TableDefinition.oid tb) (tables c))));
  GetTypeByOid c o := Ok (find (fun ty => TypeDefinition.oid ty =? o) (types c));
  GetTypeByName c n := Ok (find (fun ty => bool_decide (TypeDefinition.name ty = n)) (types c));
  GetIndex c n := Ok (find (fun ix => bool_decide (IndexDefinition.name ix = n)) (indexes c));
  ListIndexes c tb := Ok (filter (fun ix => IndexDefinition.tableOid ix = TableDefinition.oid tb) (indexes c));
  error_text _ := ""
}.

Definition int64 : TypeDefinition.t :=
  {| TypeDefinition.oid := 1; TypeDefinition.name := "INT64"; TypeDefinition.byteLength := 8 |}.
Definition varchar : TypeDefinition.t :=
  {| TypeDefinition.oid := 2; TypeDefinition.name := "VARCHAR"; TypeDefinition.byteLength := -1 |}.
Definition users : TableDefinition.t :=
  {| TableDefinition.oid := 1; TableDefinition.name := "users"; TableDefinition.typ := "TABLE";
     TableDefinition.fileNode := "1.dat"; TableDefinition.pagesCount := 0 |}.
Definition id : ColumnDefinition.t :=
  {| ColumnDefinition.oid := 1; ColumnDefinition.tableOid := 1; ColumnDefinition.typeOid := 1;
     ColumnDefinition.name := "id"; ColumnDefinition.position := 0 |}.
Definition name : ColumnDefinition.t :=
  {| ColumnDefinition.oid := 2; ColumnDefinition.tableOid := 1; ColumnDefinition.typeOid := 2;
     ColumnDefinition.name := "name"; ColumnDefinition.position := 1 |}.
Definition index (n : string) (o : Z) (col : ColumnDefinition.t) (ty : IndexType) : IndexDefinition.t :=
  {| IndexDefinition.oid := o; IndexDefinition.name := n; IndexDefinition.tableOid := 1;
     IndexDefinition.columnOid := ColumnDefinition.oid col;
     IndexDefinition.keyTypeOid := ColumnDefinition.typeOid col; IndexDefinition.indexType := ty;
     IndexDefinition.fileNode := n; IndexDefinition.metaPageId := 0; IndexDefinition.rootPageId := 0 |}.

(** A table [users (id INT64, name VARCHAR)] with a BTree index on [id] and
    a Hash index on [name]. *)
Definition sample : t :=
  {| tables := [(users, [id; name])]; types := [int64; varchar];
     indexes := [index "ix_id" 1 id IndexTypeBTree; index "ix_name" 2 name IndexTypeHash] |}.
End ListCatalog.

Module AnalyzerProofs.
Import Analyzer Typing AnalyzerSpec.

Section proofs.
Context {C : Type} `{CatalogManager C} (catalog : C).

(** Every failure of a computation is a [SemanticError]. *)
Definition semantic {A} (x : outcome A) : Prop :=
  match x with Ok _ => True | Err (SemanticError _ _) => True | _ => False end.

Lemma semantic_bind {A B} (x : outcome A) (k : A -> outcome B) :
  semantic x -> (forall a, semantic (k a)) -> semantic (obind x k).
Proof. destruct x as [a|e|]; cbn; auto. Qed.

Lemma semantic_found {A B} (x : outcome (option A)) (fail : outcome B) k :
  x <> Panic -> semantic fail -> (forall a, semantic (k a)) -> semantic (found x fail k).
Proof. destruct x as [[a|]|e|]; cbn; auto. Qed.

Lemma semantic_existing {A} (x : outcome (option A)) : x <> Panic -> semantic (existing x).
Proof. destruct x as [[a|]|e|]; cbn; auto. Qed.

Lemma semantic_binary op l r : semantic (resolve_binary op l r).
Proof. unfold resolve_binary, errorf. repeat case_match; exact I. Qed.

Lemma semantic_literal e : semantic (resolveLiteral e).
Proof. by destruct e. Qed.

Hypothesis total : catalog_total catalog.

Ltac sem := repeat first
  [ exact I | case_match | apply semantic_bind; [|intros ?] | apply semantic_found; [naive_solver|exact I|intros ?]
  | apply semantic_existing; naive_solver | apply semantic_binary | apply semantic_literal | solve [auto] ].

Lemma semantic_resolve table e : semantic (resolveExpr catalog e table).
Proof using total. destruct total as (? & ? & ? & ? & ? & ?). induction e; cbn; unfold resolveColumnRef; sem. Qed.

Lemma semantic_columns_of table : semantic (columns_of catalog table).
Proof using total.
  destruct total as (_ & Hc & _). unfold columns_of. specialize (Hc table). by destruct (GetColumns catalog table).
Qed.

Lemma semantic_create cds seen : semantic (create_columns catalog seen cds).
Proof using total.
  destruct total as (? & ? & ? & ? & ? & ?). revert seen. induction cds; intros seen; cbn; sem.
Qed.

Lemma semantic_insert columns exprs :
  length exprs = length columns -> semantic (insert_values catalog columns exprs).
Proof using total.
  destruct total as (? & ? & ? & ? & ? & ?).
  revert exprs. induction columns; intros [|e exprs] Hl; cbn [insert_values]; try discriminate Hl; sem.
Qed.

Lemma semantic_select tn table names : semantic (select_columns catalog tn table names).
Proof using total. destruct total as (? & ? & ? & ? & ? & ?). induction names; cbn; sem. Qed.

Lemma semantic_analyze stmt : semantic (Analyze catalog stmt).
Proof using total.
  pose proof semantic_resolve. pose proof semantic_columns_of. pose proof semantic_create.
  pose proof semantic_select. pose proof semantic_insert. destruct total as (? & ? & ? & ? & ? & ?).
  induction stmt; cbn [Analyze];
    unfold analyzeCreateTable, analyzeCreateIndex, analyzeInsert, analyzeSelect, analyze_where; sem.
  all: apply semantic_insert; by apply dec_stable.
Qed.
End proofs.

(** ** The properties *)
Section properties.
Context {C : Type} `{CatalogManager C} (catalog : C).

(** C31: [resolveExpr] implements the typing rules: an expression has a type
    exactly when it resolves, the tree it resolves to is the one [resolves]
    describes, and that tree carries the type. *)
Theorem resolveExpr_typed table e :
  (forall r, resolveExpr catalog e table = Ok r <-> resolves catalog table e r) /\
  (forall ty, has_type catalog table e ty <-> exists r, resolveExpr catalog e table = Ok r /\ ExprType_of r = ty).
Proof.
  split; [intros r; apply resolveExpr_ok|]. intros ty. setoid_rewrite resolveExpr_ok. apply has_type_resolves.
Qed.

Lemma Analyze_analyzes stmt q : Analyze catalog stmt = Ok q <-> analyzes catalog stmt q.
Proof.
  revert q. induction stmt as [tn cds|iname tn cname ty|tn exprs|all names tn w|stmt IH]; intros q; cbn [Analyze].
  - unfold analyzeCreateTable. rewrite obind_ok. split.
    + intros ([|] & Hx & E); [discriminate E|]. apply existing_ok in Hx.
      apply obind_ok in E as (cols & Hc & [= <-]). apply create_columns_ok in Hc as (? & _ & ?). by constructor.
    + inversion 1 as [| ? ? cols Hx Hnd HF| | | |]; subst. exists false. split; [by apply existing_ok|].
      apply obind_ok. exists cols. split; [|done]. apply create_columns_ok. set_solver.
  - unfold analyzeCreateIndex. rewrite obind_ok. split.
    + intros ([|] & Hx & E); [discriminate E|]. apply existing_ok in Hx.
      apply found_at in E as (table & ? & E). apply found_at in E as (col & ? & [= <-]). by constructor.
    + inversion 1; subst. exists false. split; [by apply existing_ok|]. apply found_at. eexists. split; [done|].
      apply found_at. by eexists.
  - unfold analyzeInsert. rewrite found_at. setoid_rewrite obind_ok. setoid_rewrite columns_of_ok. split.
    + intros (table & Ht & cols & Hc & E). case_decide as Hl; [discriminate E|].
      apply obind_ok in E as (vals & Hv & [= <-]). apply insert_values_ok in Hv; [|done]. by econstructor.
    + inversion 1 as [| |? ? table cols vals Ht Hc HF| | |]; subst. exists table. split; [done|]. exists cols. split; [done|].
      pose proof (Forall3_length_lm _ _ _ _ HF) as Hl. rewrite decide_False by (rewrite Hl; auto).
      apply obind_ok. exists vals. split; [|done]. by apply insert_values_ok.
  - unfold analyzeSelect. rewrite found_at. setoid_rewrite obind_ok. setoid_rewrite obind_ok.
    setoid_rewrite analyze_where_ok. split.
    + intros (table & Ht & cols & Hc & f & Hf & [= <-]).
      destruct all; [apply columns_of_ok in Hc|apply select_columns_ok in Hc]; by econstructor.
    + inversion 1; subst; eexists; (split; [done|]); eexists; (split; [by apply columns_of_ok || by apply select_columns_ok|]);
        by eexists.
  - rewrite obind_ok. split.
    + intros (q' & Hq & [= <-]). constructor. by apply IH.
    + inversion 1 as [? q' Hq| | | | |]; subst. exists q'. split; [by apply IH|done].
Qed.

(** C9: [Analyze] accepts exactly the statements the rules of [analyzes]
    accept, and returns the query tree the rules give: new names are new,
    column names distinct, types known, values literals of their column's
    type, filters boolean, and every column is one of the catalog's. *)
Theorem Analyze_correct stmt q : Analyze catalog stmt = Ok q <-> analyzes catalog stmt q.
Proof. apply Analyze_analyzes. Qed.

(** Over a catalog that answers its queries, [Analyze] never panics: a
    statement without a query tree is refused with a [SemanticError]. *)
Theorem Analyze_refuses stmt :
  catalog_total catalog ->
  (exists q, analyzes catalog stmt q /\ Analyze catalog stmt = Ok q) \/
  ((forall q, ~ analyzes catalog stmt q) /\ exists m pos, Analyze catalog stmt = Err (SemanticError m pos)).
Proof.
  intros Ht. pose proof (semantic_analyze catalog Ht stmt) as Hs.
  destruct (Analyze catalog stmt) as [q|[]|] eqn:E; cbn in Hs; try done.
  - left. exists q. split; [by apply Analyze_analyzes|done].
  - right. split; [|by eauto]. intros q Hq. apply Analyze_analyzes in Hq. congruence.
Qed.
End properties.

Definition ident (s : string) : SqlIdent := NewSqlIdent s 0 1 1.

(** [SELECT name FROM users WHERE id > "x"] compares an integer with a string. *)
Lemma Analyze_refuses_witness :
  (exists m pos, Analyze ListCatalog.sample
     (SelectStmt false [ident "name"] (ident "users")
        (Some (BinaryExpr ">" (ColumnRefExpr (ident "id")) (LiteralStringExpr "x")))) =
     Err (SemanticError m pos)).
Proof.
  destruct (Analyze_refuses ListCatalog.sample (SelectStmt false [ident "name"] (ident "users")
        (Some (BinaryExpr ">" (ColumnRefExpr (ident "id")) (LiteralStringExpr "x"))))) as [(q & _ & E)|[_ He]].
  - repeat split; intros; discriminate.
  - vm_compute in E. discriminate E.
  - exact He.
Defined.
End AnalyzerProofs.
