(* ===== verification/CatalogManager.v ===== *)
(** * CatalogManager: the catalog held in maps and kept in page files

    Models [catalog/manager/default_catalog_manager.go] over the buffer pool:
    the maps of [DefaultCatalogManager] are [maps], its file operations go
    through the pool and [os.Stat].  Each catalog file is a log of records.

    [wf] is the invariant of the maps: names and oids identify definitions,
    the columns of a table are at positions 0, 1, ..., and the next oids are
    fresh.  [journal] relates a catalog file to the list of its records;
    [replay] is the state the records of the four files stand for.  The
    theorems show that the public operations do what they say and keep [wf]
    whatever the disk does, and that what they report as done is found again
    by a manager started later on the same files.

    Pointers to definitions are their values: no definition that the catalog
    holds is changed in place. *)

From S2P Require Import Prelude GoRuntime Utf8 Ast HeapPage Replacer PageFile BufferPool PageStore CatalogModel Semantic.
From stdpp Require Import sorting.
#[local] Open Scope Z_scope.

Definition builtinInt64 : string := "INT64".
Definition builtinVarchar : string := "VARCHAR".
Definition tablesFile : string := "table_definitions.dat".
Definition columnsFile : string := "column_definitions.dat".
Definition typesFile : string := "types_definitions.dat".
Definition indexesFile : string := "index_definitions.dat".

Module DefaultCatalogManager.
Import HeapBufferPoolManager.

(** ** The maps *)
Record maps : Type := {
  tablesByOid : gmap Z TableDefinition.t;
  tablesByName : gmap string TableDefinition.t;
  columnsByOid : gmap Z ColumnDefinition.t;
  columnsByTableOid : gmap Z (list ColumnDefinition.t);
  typesByOid : gmap Z TypeDefinition.t;
  typesByName : gmap string TypeDefinition.t;
  indexesByOid : gmap Z IndexDefinition.t;
  indexesByName : gmap string IndexDefinition.t;
  indexesByTableOid : gmap Z (list IndexDefinition.t);
  nextTableOid : Z;
  nextColumnOid : Z;
  nextTypeOid : Z;
  nextIndexOid : Z
}.

Definition empty_maps : maps := {|
  tablesByOid := ∅; tablesByName := ∅; columnsByOid := ∅; columnsByTableOid := ∅; typesByOid := ∅;
  typesByName := ∅; indexesByOid := ∅; indexesByName := ∅; indexesByTableOid := ∅;
  nextTableOid := 1; nextColumnOid := 1; nextTypeOid := 1; nextIndexOid := 1 |}.

Definition with_next (t c y i : Z) (m : maps) : maps := {|
  tablesByOid := tablesByOid m; tablesByName := tablesByName m; columnsByOid := columnsByOid m;
  columnsByTableOid := columnsByTableOid m; typesByOid := typesByOid m; typesByName := typesByName m;
  indexesByOid := indexesByOid m; indexesByName := indexesByName m; indexesByTableOid := indexesByTableOid m;
  nextTableOid := t; nextColumnOid := c; nextTypeOid := y; nextIndexOid := i |}.

Definition indexType (typ : TypeDefinition.t) (m : maps) : maps := {|
  tablesByOid := tablesByOid m; tablesByName := tablesByName m; columnsByOid := columnsByOid m;
  columnsByTableOid := columnsByTableOid m;
  typesByOid := <[TypeDefinition.oid typ := typ]> (typesByOid m);
  typesByName := <[TypeDefinition.name typ := typ]> (typesByName m);
  indexesByOid := indexesByOid m; indexesByName := indexesByName m; indexesByTableOid := indexesByTableOid m;
  nextTableOid := nextTableOid m; nextColumnOid := nextColumnOid m; nextTypeOid := nextTypeOid m;
  nextIndexOid := nextIndexOid m |}.

Definition indexTable (table : TableDefinition.t) (m : maps) : maps := {|
  tablesByOid := <[TableDefinition.oid table := table]> (tablesByOid m);
  tablesByName := <[TableDefinition.name table := table]> (tablesByName m);
  columnsByOid := columnsByOid m; columnsByTableOid := columnsByTableOid m; typesByOid := typesByOid m;
  typesByName := typesByName m; indexesByOid := indexesByOid m; indexesByName := indexesByName m;
  indexesByTableOid := indexesByTableOid m; nextTableOid := nextTableOid m;
  nextColumnOid := nextColumnOid m; nextTypeOid := nextTypeOid m; nextIndexOid := nextIndexOid m |}.

(** [sort.Slice] by position: the positions of the columns of a table are
    distinct ([wf]), so there is one sorted list. *)
Definition position_le (a b : ColumnDefinition.t) : Prop :=
  ColumnDefinition.position a <= ColumnDefinition.position b.

#[export] Instance position_le_dec a b : Decision (position_le a b).
Proof. unfold position_le. apply _. Defined.

Definition indexColumn (column : ColumnDefinition.t) (m : maps) : maps :=
  let list_ := default [] (columnsByTableOid m !! ColumnDefinition.tableOid column) in
  let filtered := filter (fun existing => ColumnDefinition.oid existing <> ColumnDefinition.oid column) list_ in
  let filtered := merge_sort position_le (filtered ++ [column]) in
  {| tablesByOid := tablesByOid m; tablesByName := tablesByName m;
     columnsByOid := <[ColumnDefinition.oid column := column]> (columnsByOid m);
     columnsByTableOid := <[ColumnDefinition.tableOid column := filtered]> (columnsByTableOid m);
     typesByOid := typesByOid m; typesByName := typesByName m; indexesByOid := indexesByOid m;
     indexesByName := indexesByName m; indexesByTableOid := indexesByTableOid m;
     nextTableOid := nextTableOid m; nextColumnOid := nextColumnOid m; nextTypeOid := nextTypeOid m;
     nextIndexOid := nextIndexOid m |}.

Definition indexIndex (idx : IndexDefinition.t) (m : maps) : maps :=
  let list_ := default [] (indexesByTableOid m !! IndexDefinition.tableOid idx) in
  let filtered := filter (fun existing => IndexDefinition.oid existing <> IndexDefinition.oid idx) list_ in
  {| tablesByOid := tablesByOid m; tablesByName := tablesByName m; columnsByOid := columnsByOid m;
     columnsByTableOid := columnsByTableOid m; typesByOid := typesByOid m; typesByName := typesByName m;
     indexesByOid := <[IndexDefinition.oid idx := idx]> (indexesByOid m);
     indexesByName := <[IndexDefinition.name idx := idx]> (indexesByName m);
     indexesByTableOid := <[IndexDefinition.tableOid idx := filtered ++ [idx]]> (indexesByTableOid m);
     nextTableOid := nextTableOid m; nextColumnOid := nextColumnOid m; nextTypeOid := nextTypeOid m;
     nextIndexOid := nextIndexOid m |}.

(** The maximum over the keys of a map does not depend on the order in which
    Go visits them ([maxOid_le], [maxOid_in]). *)
Definition nextIdAfterMax {A} (m : gmap Z A) : Z :=
  int32 (map_fold (fun oid _ maxOid => if maxOid <? oid then oid else maxOid) 0 m + 1).

Definition recomputeNextOids (m : maps) : maps :=
  with_next (nextIdAfterMax (tablesByOid m)) (nextIdAfterMax (columnsByOid m))
    (nextIdAfterMax (typesByOid m)) (nextIdAfterMax (indexesByOid m)) m.

(** ** The manager *)
Record t {R D : Type} : Type := { root : string; bufferPool : Pool R D; cat : maps }.
Arguments t : clear implicits.

Section operations.
Context {R D : Type} `{!Replacer R, !PageFileManager D, !FileStat D}.
Implicit Types (m : maps) (cm : t R D).

Definition on_pool {A} (f : ST (Pool R D) A) : ST (t R D) A := fun cm =>
  let (r, P) := f (bufferPool cm) in (r, {| root := root cm; bufferPool := P; cat := cat cm |}).
Definition modify_maps (f : maps -> maps) : ST (t R D) unit :=
  smodify (fun cm => {| root := root cm; bufferPool := bufferPool cm; cat := f (cat cm) |}).
Definition get_maps : ST (t R D) maps := cm <- sget ;; sret (cat cm).

(** [os.Stat], with [os.IsNotExist] as [None]. *)
Definition Stat (fileID : string) : ST (t R D) (option Z) :=
  cm <- sget ;; on_pool (on_disk (os_stat (Filepath.Join (root cm) fileID))).

Definition pageCount (fileID : string) : ST (t R D) Z :=
  info <- Stat fileID ;;
  match info with
  | None => sret 0
  | Some size =>
    if size =? 0 then sret 0
    else if negb (Z.rem size PageSize =? 0) then sfail ErrCorruptedFile
    else sret (Z.quot size PageSize)
  end.

(** The page [p] for [key], made by the caller: entered, written, flushed. *)
Definition appendToNew (key : PageKey) (data : list byte) : ST (t R D) unit :=
  p <- on_pool (PageStore.New (PageID key)) ;;
  on_pool (NewPage key (Some p)) ;;;
  on_pool (PageStore.Write p (Some data)) ;;;
  on_pool (UpdatePage key (Some p)) ;;;
  on_pool (FlushPage key).

Definition appendRecord (fileID : string) (data : list byte) : ST (t R D) unit :=
  pages <- pageCount fileID ;;
  if pages =? 0 then appendToNew (NewPageKey fileID 0) data
  else
    let lastKey := NewPageKey fileID (pages - 1) in
    slot <- on_pool (GetPage lastKey) ;;
    last <- on_pool (PageStore.Page slot) ;;
    written <- on_pool (skip_error (PageStore.Write last (Some data))) ;;
    if negb written then appendToNew (NewPageKey fileID pages) data
    else
      on_pool (UpdatePage lastKey (Some last)) ;;;
      on_pool (FlushPage lastKey).

(** The loops of [readAllRecords], over the records of a page and over the
    pages. *)
Fixpoint read_records (p : PageRef) (consumer : list byte -> ST (t R D) unit) (recordID : Z) (fuel : nat) :
    ST (t R D) unit :=
  size <- on_pool (PageStore.Size p) ;;
  if size <=? recordID then sret tt
  else match fuel with
  | O => spanic
  | S fuel =>
    data <- on_pool (PageStore.Read p recordID) ;;
    consumer data ;;;
    read_records p consumer (recordID + 1) fuel
  end.

(** A page has at most 65535 records. *)
Definition max_records : nat := Z.to_nat 65535.

Fixpoint read_pages (fileID : string) (consumer : list byte -> ST (t R D) unit) (pageID : Z) (n : nat) :
    ST (t R D) unit :=
  match n with
  | O => sret tt
  | S n =>
    slot <- on_pool (GetPage (NewPageKey fileID pageID)) ;;
    p <- on_pool (PageStore.Page slot) ;;
    read_records p consumer 0 max_records ;;;
    read_pages fileID consumer (pageID + 1) n
  end.

Definition readAllRecords (fileID : string) (consumer : list byte -> ST (t R D) unit) : ST (t R D) unit :=
  pages <- pageCount fileID ;;
  read_pages fileID consumer 0 (Z.to_nat pages).

Definition loadFromDisk : ST (t R D) unit :=
  readAllRecords typesFile (fun data =>
    d <- slift (TypeDefinition.FromBytes data) ;; modify_maps (indexType d)) ;;;
  readAllRecords tablesFile (fun data =>
    d <- slift (TableDefinition.FromBytes data) ;; modify_maps (indexTable d)) ;;;
  readAllRecords columnsFile (fun data =>
    d <- slift (ColumnDefinition.FromBytes data) ;; modify_maps (indexColumn d)) ;;;
  readAllRecords indexesFile (fun data =>
    d <- slift (IndexDefinition.FromBytes data) ;; modify_maps (indexIndex d)) ;;;
  modify_maps recomputeNextOids.

Definition ensureCatalogDirectory : ST (t R D) unit :=
  cm <- sget ;; on_pool (on_disk (os_mkdir_all (root cm))).
Definition ensureBuiltinType (name : string) (byteLength : Z) : ST (t R D) bool :=
  m <- get_maps ;;
  match typesByName m !! name with
  | Some _ => sret false
  | None =>
    typ <- slift (TypeDefinition.New (nextTypeOid m) name byteLength) ;;
    modify_maps (fun m => with_next (nextTableOid m) (nextColumnOid m) (int32 (nextTypeOid m + 1)) (nextIndexOid m) m) ;;;
    modify_maps (indexType typ) ;;;
    data <- slift (TypeDefinition.ToBytes typ) ;;
    appendRecord typesFile data ;;;
    sret true
  end.

Definition ensureBuiltinTypesPresent : ST (t R D) unit :=
  c1 <- ensureBuiltinType builtinInt64 8 ;;
  c2 <- ensureBuiltinType builtinVarchar (-1) ;;
  if c1 || c2 then modify_maps recomputeNextOids else sret tt.

(** [NewDefaultCatalogManager]: the manager is returned only on success. *)
Definition NewDefaultCatalogManager (root : string) (P : Pool R D) : outcome (t R D) * Pool R D :=
  let (r, cm) := (ensureCatalogDirectory ;;; loadFromDisk ;;; ensureBuiltinTypesPresent)
                   {| root := root; bufferPool := P; cat := empty_maps |} in
  (ofmap (fun _ => cm) r, bufferPool cm).

(** The loop of [CreateTable] over the columns, from [position] on. *)
Fixpoint create_columns (table : TableDefinition.t) (columns : list ColumnDefinition.t) (position : Z) :
    ST (t R D) unit :=
  match columns with
  | [] => sret tt
  | proto :: columns =>
    m <- get_maps ;;
    modify_maps (fun m => with_next (nextTableOid m) (int32 (nextColumnOid m + 1)) (nextTypeOid m) (nextIndexOid m) m) ;;;
    col <- slift (ColumnDefinition.New (nextColumnOid m) (TableDefinition.oid table)
             (ColumnDefinition.typeOid proto) (ColumnDefinition.name proto) (int32 position)) ;;
    modify_maps (indexColumn col) ;;;
    colData <- slift (ColumnDefinition.ToBytes col) ;;
    appendRecord columnsFile colData ;;;
    create_columns table columns (position + 1)
  end.

Definition CreateTable (name : string) (columns : list ColumnDefinition.t) : ST (t R D) TableDefinition.t :=
  m <- get_maps ;;
  if decide (is_Some (tablesByName m !! name)) then sfail ErrTableExists
  else
    let oid := nextTableOid m in
    modify_maps (fun m => with_next (int32 (nextTableOid m + 1)) (nextColumnOid m) (nextTypeOid m) (nextIndexOid m) m) ;;;
    table <- slift (TableDefinition.New oid name "TABLE" (pretty oid +:+ ".dat") 0) ;;
    modify_maps (indexTable table) ;;;
    data <- slift (TableDefinition.ToBytes table) ;;
    appendRecord tablesFile data ;;;
    create_columns table columns 0 ;;;
    sret table.

Definition UpdatePagesCount (table : TableDefinition.t) (pagesCount : Z) : ST (t R D) unit :=
  updated <- slift (TableDefinition.New (TableDefinition.oid table) (TableDefinition.name table)
    (TableDefinition.typ table) (TableDefinition.fileNode table) pagesCount) ;;
  modify_maps (indexTable updated) ;;;
  data <- slift (TableDefinition.ToBytes updated) ;;
  appendRecord tablesFile data.

Definition CreateIndex (indexName tableName columnName : string) (indexType : IndexType) :
    ST (t R D) IndexDefinition.t :=
  m <- get_maps ;;
  if decide (is_Some (indexesByName m !! indexName)) then sfail ErrIndexExists
  else match tablesByName m !! tableName with
  | None => sfail ErrTableNotFound
  | Some table =>
    match list_find (fun c => ColumnDefinition.name c = columnName)
            (default [] (columnsByTableOid m !! TableDefinition.oid table)) with
    | None => sfail ErrColumnNotFound
    | Some (_, column) =>
      let oid := nextIndexOid m in
      modify_maps (fun m => with_next (nextTableOid m) (nextColumnOid m) (nextTypeOid m) (int32 (nextIndexOid m + 1)) m) ;;;
      definition <- slift (IndexDefinition.New oid indexName (TableDefinition.oid table)
        (ColumnDefinition.oid column) (ColumnDefinition.typeOid column) indexType (pretty oid +:+ ".idx") 0 0) ;;
      modify_maps (indexIndex definition) ;;;
      data <- slift (IndexDefinition.ToBytes definition) ;;
      appendRecord indexesFile data ;;;
      sret definition
    end
  end.

(** *** Queries: they only read the maps *)
Definition GetTable cm (tableName : string) : outcome (option TableDefinition.t) :=
  Ok (tablesByName (cat cm) !! tableName).

(** Go visits the map in any order: [it] is that order. *)
Definition ListTables cm (it : list (Z * TableDefinition.t)) : outcome (list TableDefinition.t) := Ok it.*2.

Definition GetColumns cm (table : TableDefinition.t) : outcome (list ColumnDefinition.t) :=
  Ok (default [] (columnsByTableOid (cat cm) !! TableDefinition.oid table)).

Definition GetColumn cm (table : TableDefinition.t) (columnName : string) : outcome (option ColumnDefinition.t) :=
  Ok (snd <$> list_find (fun c => ColumnDefinition.name c = columnName)
                (default [] (columnsByTableOid (cat cm) !! TableDefinition.oid table))).

Definition GetTypeByOid cm (oid : Z) : outcome (option TypeDefinition.t) := Ok (typesByOid (cat cm) !! oid).
Definition GetTypeByName cm (name : string) : outcome (option TypeDefinition.t) := Ok (typesByName (cat cm) !! name).
Definition GetIndex cm (indexName : string) : outcome (option IndexDefinition.t) :=
  Ok (indexesByName (cat cm) !! indexName).
Definition ListIndexes cm (table : TableDefinition.t) : outcome (list IndexDefinition.t) :=
  Ok (default [] (indexesByTableOid (cat cm) !! TableDefinition.oid table)).

(** No query returns an error, so [error_text] is never used. *)
#[export] Instance catalog_manager : CatalogManager (t R D) := {|
  Semantic.GetTable := GetTable;
  Semantic.GetColumns := GetColumns;
  Semantic.GetColumn := GetColumn;
  Semantic.GetTypeByOid := GetTypeByOid;
  Semantic.GetTypeByName := GetTypeByName;
  Semantic.GetIndex := GetIndex;
  Semantic.ListIndexes := ListIndexes;
  error_text _ := ""
|}.
End operations.
End DefaultCatalogManager.

(** ** The invariant of the maps *)
Module CatalogSpec.
Import HeapBufferPoolManager DefaultCatalogManager.

(** Two maps that hold the same definitions, by oid and by name; oids are
    positive and below the next one. *)
Definition named {A} (oid : A -> Z) (name : A -> string) (byOid : gmap Z A) (byName : gmap string A) (next : Z) : Prop :=
  (forall o a, byOid !! o = Some a -> oid a = o /\ 0 < o < next /\ byName !! name a = Some a) /\
  (forall n a, byName !! n = Some a -> name a = n /\ byOid !! oid a = Some a).

(** The definitions of a map, listed by the table they belong to; the tables
    are known. *)
Definition grouped {A} (oid group : A -> Z) (byOid : gmap Z A) (byGroup : gmap Z (list A)) (known : Z -> Prop) : Prop :=
  (forall o a, byOid !! o = Some a -> oid a = o /\ exists l, byGroup !! group a = Some l /\ a ∈ l) /\
  (forall g l, byGroup !! g = Some l -> known g /\ NoDup (oid <$> l) /\
     forall a, a ∈ l -> group a = g /\ byOid !! oid a = Some a).

Record wf (m : maps) : Prop := {
  wf_tables : named TableDefinition.oid TableDefinition.name (tablesByOid m) (tablesByName m) (nextTableOid m);
  wf_types : named TypeDefinition.oid TypeDefinition.name (typesByOid m) (typesByName m) (nextTypeOid m);
  wf_indexes : named IndexDefinition.oid IndexDefinition.name (indexesByOid m) (indexesByName m) (nextIndexOid m);
  wf_columns : grouped ColumnDefinition.oid ColumnDefinition.tableOid (columnsByOid m) (columnsByTableOid m)
    (fun o => is_Some (tablesByOid m !! o));
  wf_index_lists : grouped IndexDefinition.oid IndexDefinition.tableOid (indexesByOid m) (indexesByTableOid m)
    (fun o => is_Some (tablesByOid m !! o));
  wf_positions : forall o l, columnsByTableOid m !! o = Some l ->
    ColumnDefinition.position <$> l = seqZ 0 (Z.of_nat (length l));
  wf_next_column : forall o c, columnsByOid m !! o = Some c -> 0 < o < nextColumnOid m;
  wf_next : 0 < nextTableOid m /\ 0 < nextColumnOid m /\ 0 < nextTypeOid m /\ 0 < nextIndexOid m
}.

Section helpers.
Context {A : Type} (oid : A -> Z) (name : A -> string).
Implicit Types (byOid : gmap Z A) (byName : gmap string A).

Lemma named_fresh byOid byName next : named oid name byOid byName next -> byOid !! next = None.
Proof.
  intros [H _]. destruct (byOid !! next) as [a|] eqn:E; [|done]. destruct (H _ _ E) as (_ & ? & _). lia.
Qed.

Lemma named_add byOid byName next a :
  named oid name byOid byName next -> 0 < next -> oid a = next -> byName !! name a = None ->
  named oid name (<[oid a := a]> byOid) (<[name a := a]> byName) (next + 1).
Proof.
  intros Hn Hpos Ho Hname. pose proof (named_fresh _ _ _ Hn) as Hf. destruct Hn as [H1 H2]. split.
  - intros o b [[<- <-]|[Hne Hb]]%lookup_insert_Some.
    + rewrite lookup_insert_eq. split; [done|]. split; [lia|done].
    + destruct (H1 _ _ Hb) as (Hob & Hr & Hbn). split; [done|]. split; [lia|].
      rewrite lookup_insert_ne; [done|]. congruence.
  - intros n b [[<- <-]|[Hne Hb]]%lookup_insert_Some.
    + by rewrite lookup_insert_eq.
    + destruct (H2 _ _ Hb) as (Hbn & Hbo). split; [done|]. rewrite lookup_insert_ne; [done|]. congruence.
Qed.

(** A new version of a known definition, under the same name. *)
Lemma named_update byOid byName next a a0 :
  named oid name byOid byName next -> byOid !! oid a = Some a0 -> name a0 = name a ->
  named oid name (<[oid a := a]> byOid) (<[name a := a]> byName) next.
Proof.
  intros [H1 H2] Ha Hname. destruct (H1 _ _ Ha) as (Ho & Hr & Hn0). split.
  - intros o b [[<- <-]|[Hne Hb]]%lookup_insert_Some.
    + rewrite lookup_insert_eq. done.
    + destruct (H1 _ _ Hb) as (Hob & Hrb & Hbn). split; [done|]. split; [done|].
      rewrite lookup_insert_ne; [done|]. intros E. apply Hne. rewrite Hname, E in Hn0. congruence.
  - intros n b [[<- <-]|[Hne Hb]]%lookup_insert_Some.
    + by rewrite lookup_insert_eq.
    + destruct (H2 _ _ Hb) as (Hbn & Hbo). split; [done|]. rewrite lookup_insert_ne; [done|].
      intros E. rewrite <- E, Ha in Hbo. congruence.
Qed.

End helpers.

Section groups.
Context {A : Type} (oid : A -> Z) (group : A -> Z).
Implicit Types (byOid : gmap Z A) (byGroup : gmap Z (list A)).

Lemma grouped_known byOid byGroup (K K' : Z -> Prop) :
  (forall g, K g -> K' g) -> grouped oid group byOid byGroup K -> grouped oid group byOid byGroup K'.
Proof. intros HK [H1 H2]. split; [done|]. intros g l Hg. destruct (H2 _ _ Hg) as (? & ? & ?). auto. Qed.

Lemma grouped_absent byOid byGroup K a l :
  grouped oid group byOid byGroup K -> byOid !! oid a = None ->
  byGroup !! group a = Some l -> filter (fun x => oid x <> oid a) l = l.
Proof.
  intros [_ H] Ha Hl. apply filter_all. intros x Hx E. destruct (H _ _ Hl) as (_ & _ & Hin).
  destruct (Hin _ Hx) as [_ Hx']. congruence.
Qed.

(** Adding a definition at the end of its list. *)
Lemma grouped_add byOid byGroup (K : Z -> Prop) a :
  grouped oid group byOid byGroup K -> byOid !! oid a = None -> K (group a) ->
  grouped oid group (<[oid a := a]> byOid)
    (<[group a := default [] (byGroup !! group a) ++ [a]]> byGroup) K.
Proof.
  intros [H1 H2] Ha HK. split.
  - intros o b [[<- <-]|[Hne Hb]]%lookup_insert_Some.
    + split; [done|]. eexists. rewrite lookup_insert_eq. split; [done|]. set_solver.
    + destruct (H1 _ _ Hb) as (Ho & l & Hl & Hin). split; [done|].
      destruct (decide (group a = group b)) as [->|Hg].
      * eexists. rewrite lookup_insert_eq. split; [done|]. rewrite Hl. cbn. set_solver.
      * exists l. by rewrite lookup_insert_ne.
  - intros g l [[<- <-]|[Hne Hl]]%lookup_insert_Some.
    + split; [done|]. assert (Hd : NoDup (oid <$> default [] (byGroup !! group a)) /\
        forall b, b ∈ default [] (byGroup !! group a) -> group b = group a /\ byOid !! oid b = Some b).
      { destruct (byGroup !! group a) as [l|] eqn:Hl; cbn; [by destruct (H2 _ _ Hl) as (_ & ? & ?)|].
        split; [constructor|]. intros b Hb. by apply not_elem_of_nil in Hb. }
      destruct Hd as [Hnd Hin]. split.
      * rewrite fmap_app. apply NoDup_app. split; [done|]. split; [|apply NoDup_singleton].
        intros o (b & -> & Hb)%list_elem_of_fmap. destruct (Hin _ Hb) as [_ Hb'].
        cbn. rewrite list_elem_of_singleton. congruence.
      * intros b [Hb|Hb%list_elem_of_singleton]%elem_of_app; [|subst b; by rewrite lookup_insert_eq].
        destruct (Hin _ Hb) as [Hg Hb']. split; [done|]. rewrite lookup_insert_ne; [done|]. congruence.
    + destruct (H2 _ _ Hl) as (Hk & Hnd & Hin). split; [done|]. split; [done|]. intros b Hb.
      destruct (Hin _ Hb) as [Hg Hb']. split; [done|]. rewrite lookup_insert_ne; [done|]. congruence.
Qed.
End groups.

#[export] Instance position_le_trans : Transitive position_le.
Proof. intros a b c. unfold position_le. lia. Qed.
#[export] Instance position_le_total : Total position_le.
Proof. intros a b. unfold position_le. lia. Qed.

(** Sorting a list whose positions are 0, 1, ... leaves it as it is. *)
Lemma merge_sort_positions l :
  ColumnDefinition.position <$> l = seqZ 0 (Z.of_nat (length l)) -> merge_sort position_le l = l.
Proof.
  intros Hp.
  assert (Hat : forall i c, l !! i = Some c -> ColumnDefinition.position c = Z.of_nat i).
  { intros i c Hi. assert (E : (ColumnDefinition.position <$> l) !! i = Some (ColumnDefinition.position c)).
    { by rewrite list_lookup_fmap, Hi. }
    rewrite Hp in E. apply lookup_seqZ in E as [-> _]. done. }
  eapply StronglySorted_unique_strong; [|by apply StronglySorted_merge_sort; apply _| |apply merge_sort_Permutation].
  - intros a b Ha Hb Hab Hba. rewrite merge_sort_Permutation in Ha.
    apply list_elem_of_lookup in Ha as [i Hi], Hb as [j Hj]. unfold position_le in *.
    rewrite (Hat _ _ Hi), (Hat _ _ Hj) in *. assert (i = j) as -> by lia. congruence.
  - clear Hp. assert (Hoff : exists n, forall i c, l !! i = Some c -> ColumnDefinition.position c = n + Z.of_nat i)
      by (exists 0; intros; by apply Hat).
    clear Hat. destruct Hoff as [n Hat]. revert n Hat. induction l as [|c l IH]; intros n Hat; constructor.
    + apply (IH (n + 1)). intros i d Hi. rewrite (Hat (S i) d Hi). lia.
    + apply Forall_forall. intros d [i Hi]%list_elem_of_lookup. unfold position_le.
      rewrite (Hat 0%nat c eq_refl), (Hat (S i) d Hi). lia.
Qed.
(** ** Adding definitions *)

Definition bump_table (m : maps) : maps :=
  with_next (int32 (nextTableOid m + 1)) (nextColumnOid m) (nextTypeOid m) (nextIndexOid m) m.
Definition bump_column (m : maps) : maps :=
  with_next (nextTableOid m) (int32 (nextColumnOid m + 1)) (nextTypeOid m) (nextIndexOid m) m.
Definition bump_type (m : maps) : maps :=
  with_next (nextTableOid m) (nextColumnOid m) (int32 (nextTypeOid m + 1)) (nextIndexOid m) m.
Definition bump_index (m : maps) : maps :=
  with_next (nextTableOid m) (nextColumnOid m) (nextTypeOid m) (int32 (nextIndexOid m + 1)) m.

Lemma int32_small z : 0 <= z < 2 ^ 31 -> int32 z = z.
Proof. intros. apply sint_id; unfold in_sint; lia. Qed.

Lemma named_raise {A} (oid : A -> Z) name byOid byName next next' :
  named oid name byOid byName next -> next <= next' -> named oid name byOid byName next'.
Proof.
  intros [H1 H2] Hle. split; [|done]. intros o a Ha. destruct (H1 _ _ Ha) as (? & ? & ?).
  split; [done|]. split; [lia|done].
Qed.

(** Giving out oids that are then not used keeps the invariant. *)
Lemma wf_bump m m' t c y i :
  wf m -> m' = with_next t c y i m ->
  nextTableOid m <= t -> nextColumnOid m <= c -> nextTypeOid m <= y -> nextIndexOid m <= i -> wf m'.
Proof.
  intros [] -> Ht Hc Hy Hi. split; cbn; try done; try by eapply named_raise.
  - intros o d Hd. specialize (wf_next_column0 o d Hd). lia.
  - lia.
Qed.

Definition new_table (m : maps) (name : string) : TableDefinition.t :=
  {| TableDefinition.oid := nextTableOid m; TableDefinition.name := name; TableDefinition.typ := "TABLE";
     TableDefinition.fileNode := pretty (nextTableOid m) +:+ ".dat"; TableDefinition.pagesCount := 0 |}.

Lemma wf_new_table m name :
  wf m -> tablesByName m !! name = None -> nextTableOid m + 1 < 2 ^ 31 ->
  wf (indexTable (new_table m name) (bump_table m)).
Proof.
  intros [] Hn Hroom.
  assert (Hmono : forall o, is_Some (tablesByOid m !! o) ->
    is_Some (<[nextTableOid m := new_table m name]> (tablesByOid m) !! o)).
  { intros o Ho. destruct (decide (o = nextTableOid m)) as [->|]; [by rewrite lookup_insert_eq|].
    by rewrite lookup_insert_ne. }
  assert (Hnext : int32 (nextTableOid m + 1) = nextTableOid m + 1) by (apply int32_small; lia).
  split; cbn [indexTable bump_table with_next tablesByOid tablesByName typesByOid typesByName indexesByOid
    indexesByName columnsByOid columnsByTableOid indexesByTableOid nextTableOid nextColumnOid nextTypeOid nextIndexOid];
    try done.
  - rewrite Hnext. by apply (named_add TableDefinition.oid TableDefinition.name _ _ _ (new_table m name)); [|lia|..].
  - eapply grouped_known; [exact Hmono|done].
  - eapply grouped_known; [exact Hmono|done].
  - rewrite Hnext. lia.
Qed.

(** A new version of a table the catalog knows. *)
Definition knows_table (m : maps) (table : TableDefinition.t) : Prop :=
  exists t0, tablesByOid m !! TableDefinition.oid table = Some t0 /\
    TableDefinition.name t0 = TableDefinition.name table.

Lemma wf_update_table m table : wf m -> knows_table m table -> wf (indexTable table m).
Proof.
  intros [] (t0 & Ht & Hname).
  assert (Hmono : forall o, is_Some (tablesByOid m !! o) ->
    is_Some (<[TableDefinition.oid table := table]> (tablesByOid m) !! o)).
  { intros o Ho. destruct (decide (o = TableDefinition.oid table)) as [->|]; [by rewrite lookup_insert_eq|].
    by rewrite lookup_insert_ne. }
  split; cbn [indexTable tablesByOid tablesByName typesByOid typesByName indexesByOid
    indexesByName columnsByOid columnsByTableOid indexesByTableOid nextTableOid nextColumnOid nextTypeOid nextIndexOid];
    try done.
  - by eapply named_update.
  - eapply grouped_known; [exact Hmono|done].
  - eapply grouped_known; [exact Hmono|done].
Qed.

(** The columns of the table [oid]. *)
Definition columns_of (m : maps) (oid : Z) : list ColumnDefinition.t := default [] (columnsByTableOid m !! oid).
Definition indexes_of (m : maps) (oid : Z) : list IndexDefinition.t := default [] (indexesByTableOid m !! oid).

Definition new_column (m : maps) (table : TableDefinition.t) (proto : ColumnDefinition.t) (position : Z) :
    ColumnDefinition.t :=
  {| ColumnDefinition.oid := nextColumnOid m; ColumnDefinition.tableOid := TableDefinition.oid table;
     ColumnDefinition.typeOid := ColumnDefinition.typeOid proto;
     ColumnDefinition.name := ColumnDefinition.name proto; ColumnDefinition.position := position |}.

Lemma column_fresh m : wf m -> columnsByOid m !! nextColumnOid m = None.
Proof.
  intros W. destruct (columnsByOid m !! nextColumnOid m) as [c|] eqn:E; [|done].
  apply (wf_next_column _ W) in E. lia.
Qed.

Lemma positions_of m oid :
  wf m -> ColumnDefinition.position <$> columns_of m oid = seqZ 0 (Z.of_nat (length (columns_of m oid))).
Proof.
  intros W. unfold columns_of. destruct (columnsByTableOid m !! oid) as [l|] eqn:E; [|done]. by apply (wf_positions _ W oid).
Qed.

(** The next column of a table goes to the end of its list. *)
Lemma indexColumn_end m c :
  wf m -> columnsByOid m !! ColumnDefinition.oid c = None ->
  ColumnDefinition.position c = Z.of_nat (length (columns_of m (ColumnDefinition.tableOid c))) ->
  columnsByTableOid (indexColumn c m) =
    <[ColumnDefinition.tableOid c := columns_of m (ColumnDefinition.tableOid c) ++ [c]]> (columnsByTableOid m).
Proof.
  intros W Hf Hp. cbn. f_equal. fold (columns_of m (ColumnDefinition.tableOid c)).
  assert (Hfil : filter (fun x => ColumnDefinition.oid x <> ColumnDefinition.oid c)
      (columns_of m (ColumnDefinition.tableOid c)) = columns_of m (ColumnDefinition.tableOid c)).
  { unfold columns_of. destruct (columnsByTableOid m !! _) as [l|] eqn:E; [|done].
    eapply grouped_absent; [apply (wf_columns _ W)|done|done]. }
  rewrite Hfil. apply merge_sort_positions.
  rewrite fmap_app, (positions_of _ _ W), length_app, Nat2Z.inj_add, seqZ_app by lia. cbn [fmap list_fmap length].
  by rewrite Hp.
Qed.

Lemma wf_new_column m table proto :
  wf m -> is_Some (tablesByOid m !! TableDefinition.oid table) -> nextColumnOid m + 1 < 2 ^ 31 ->
  wf (indexColumn (new_column m table proto (Z.of_nat (length (columns_of m (TableDefinition.oid table))))) (bump_column m)).
Proof.
  intros W Ht Hroom. set (pos := Z.of_nat _). set (c := new_column m table proto pos).
  assert (Hf : columnsByOid m !! ColumnDefinition.oid c = None) by by apply column_fresh.
  assert (Hcols : columnsByTableOid (indexColumn c (bump_column m)) =
    <[TableDefinition.oid table := columns_of m (TableDefinition.oid table) ++ [c]]> (columnsByTableOid m)).
  { change (columnsByTableOid (indexColumn c (bump_column m))) with (columnsByTableOid (indexColumn c m)).
    by apply indexColumn_end. }
  assert (Hnext : int32 (nextColumnOid m + 1) = nextColumnOid m + 1).
  { apply int32_small. destruct (wf_next _ W) as (? & ? & ?). lia. }
  pose proof (wf_next _ W) as Hpos. pose proof (wf_columns _ W) as Hg. destruct W.
  split; try done.
  - rewrite Hcols. cbn. by apply (grouped_add ColumnDefinition.oid ColumnDefinition.tableOid _ _ _ c).
  - rewrite Hcols. intros o l [[<- <-]|[Hne Hl]]%lookup_insert_Some; [|by eapply wf_positions0].
    rewrite fmap_app, length_app, Nat2Z.inj_add, seqZ_app by lia. f_equal.
    unfold columns_of. destruct (columnsByTableOid m !! _) as [l|] eqn:E; [|done]. by eapply wf_positions0.
  - cbn. rewrite Hnext. intros o d [[<- <-]|[Hne Hd]]%lookup_insert_Some; [lia|].
    specialize (wf_next_column0 _ _ Hd). lia.
  - cbn. rewrite Hnext. lia.
Qed.

Definition new_index (m : maps) (name : string) (table : TableDefinition.t) (column : ColumnDefinition.t)
    (ty : IndexType) : IndexDefinition.t :=
  {| IndexDefinition.oid := nextIndexOid m; IndexDefinition.name := name;
     IndexDefinition.tableOid := TableDefinition.oid table; IndexDefinition.columnOid := ColumnDefinition.oid column;
     IndexDefinition.keyTypeOid := ColumnDefinition.typeOid column; IndexDefinition.indexType := ty;
     IndexDefinition.fileNode := pretty (nextIndexOid m) +:+ ".idx"; IndexDefinition.metaPageId := 0;
     IndexDefinition.rootPageId := 0 |}.

Lemma wf_new_index m name table column ty :
  wf m -> is_Some (tablesByOid m !! TableDefinition.oid table) -> indexesByName m !! name = None ->
  nextIndexOid m + 1 < 2 ^ 31 ->
  wf (indexIndex (new_index m name table column ty) (bump_index m)).
Proof.
  intros W Ht Hn Hroom. set (x := new_index m name table column ty).
  assert (Hnext : int32 (nextIndexOid m + 1) = nextIndexOid m + 1).
  { apply int32_small. destruct (wf_next _ W) as (? & ? & ? & ?). lia. }
  assert (Hf : indexesByOid m !! IndexDefinition.oid x = None) by (eapply named_fresh, W).
  assert (Hfil : filter (fun y => IndexDefinition.oid y <> IndexDefinition.oid x) (indexes_of m (TableDefinition.oid table))
    = indexes_of m (TableDefinition.oid table)).
  { unfold indexes_of. destruct (indexesByTableOid m !! _) as [l|] eqn:E; [|done].
    eapply (grouped_absent _ _ _ _ _ x); [apply (wf_index_lists _ W)|done|done]. }
  assert (Hlists : indexesByTableOid (indexIndex x (bump_index m)) =
    <[TableDefinition.oid table := indexes_of m (TableDefinition.oid table) ++ [x]]> (indexesByTableOid m)).
  { transitivity (<[TableDefinition.oid table := filter (fun y => IndexDefinition.oid y <> IndexDefinition.oid x)
      (indexes_of m (TableDefinition.oid table)) ++ [x]]> (indexesByTableOid m)); [done|]. by rewrite Hfil. }
  destruct W. split; try done.
  - cbn. rewrite Hnext. by apply (named_add IndexDefinition.oid IndexDefinition.name _ _ _ x); [|lia|..].
  - rewrite Hlists.
    by apply (grouped_add IndexDefinition.oid IndexDefinition.tableOid _ _ _ x).
  - cbn. rewrite Hnext. lia.
Qed.

Definition new_type (m : maps) (name : string) (byteLength : Z) : TypeDefinition.t :=
  {| TypeDefinition.oid := nextTypeOid m; TypeDefinition.name := name; TypeDefinition.byteLength := byteLength |}.

Lemma wf_new_type m name n :
  wf m -> typesByName m !! name = None -> nextTypeOid m + 1 < 2 ^ 31 ->
  wf (indexType (new_type m name n) (bump_type m)).
Proof.
  intros W Hn Hroom.
  assert (Hnext : int32 (nextTypeOid m + 1) = nextTypeOid m + 1).
  { apply int32_small. destruct (wf_next _ W) as (? & ? & ? & ?). lia. }
  destruct W. split; try done.
  - cbn. rewrite Hnext. by apply (named_add TypeDefinition.oid TypeDefinition.name _ _ _ (new_type m name n)); [|lia|..].
  - cbn. rewrite Hnext. lia.
Qed.
(** ** The operations on the maps *)

(** The columns of [CreateTable] from [position] on. *)
Fixpoint add_columns (table : TableDefinition.t) (columns : list ColumnDefinition.t) (position : Z) (m : maps) : maps :=
  match columns with
  | [] => m
  | proto :: columns =>
    add_columns table columns (position + 1) (indexColumn (new_column m table proto (int32 position)) (bump_column m))
  end.

Definition created_table (m : maps) (name : string) (columns : list ColumnDefinition.t) : maps :=
  add_columns (new_table m name) columns 0 (indexTable (new_table m name) (bump_table m)).

(** A new table has no columns yet. *)
Lemma columns_of_new m : wf m -> columns_of m (nextTableOid m) = [].
Proof.
  intros W. unfold columns_of. destruct (columnsByTableOid m !! nextTableOid m) as [l|] eqn:El; [|done].
  destruct (proj2 (wf_columns _ W) _ _ El) as ([t Ht] & _). by rewrite (named_fresh _ _ _ _ _ (wf_tables _ W)) in Ht.
Qed.

(** What adding columns to [table] changes: that table's list of columns. *)
Lemma add_columns_frame table cols pos m :
  let m' := add_columns table cols pos m in
  tablesByOid m' = tablesByOid m /\ tablesByName m' = tablesByName m /\ typesByOid m' = typesByOid m /\
  typesByName m' = typesByName m /\ indexesByOid m' = indexesByOid m /\ indexesByName m' = indexesByName m /\
  indexesByTableOid m' = indexesByTableOid m /\ nextTableOid m' = nextTableOid m /\ nextTypeOid m' = nextTypeOid m /\
  nextIndexOid m' = nextIndexOid m /\
  forall o, o <> TableDefinition.oid table -> columns_of m' o = columns_of m o.
Proof.
  revert pos m. induction cols as [|proto cols IH]; intros pos m; [done|]. cbn [add_columns].
  destruct (IH (pos + 1) (indexColumn (new_column m table proto (int32 pos)) (bump_column m)))
    as (H1 & H2 & H3 & H4 & H5 & H6 & H7 & H8 & H9 & H10 & H11).
  rewrite H1, H2, H3, H4, H5, H6, H7, H8, H9, H10. split_and!; try done.
  intros o Ho. rewrite H11 by done. unfold columns_of. cbn. by rewrite lookup_insert_ne.
Qed.

(** The columns a list of prototypes becomes. *)
Definition numbered (table : TableDefinition.t) (oid pos : Z) (cols : list ColumnDefinition.t) : list ColumnDefinition.t :=
  imap (fun i proto => {| ColumnDefinition.oid := oid + Z.of_nat i; ColumnDefinition.tableOid := TableDefinition.oid table;
    ColumnDefinition.typeOid := ColumnDefinition.typeOid proto; ColumnDefinition.name := ColumnDefinition.name proto;
    ColumnDefinition.position := pos + Z.of_nat i |}) cols.

Lemma numbered_cons table oid pos proto cols :
  numbered table oid pos (proto :: cols) =
    {| ColumnDefinition.oid := oid; ColumnDefinition.tableOid := TableDefinition.oid table;
       ColumnDefinition.typeOid := ColumnDefinition.typeOid proto; ColumnDefinition.name := ColumnDefinition.name proto;
       ColumnDefinition.position := pos |} :: numbered table (oid + 1) (pos + 1) cols.
Proof.
  unfold numbered. cbn [imap]. f_equal; [f_equal; cbn; lia|]. apply imap_ext. intros i c _. cbn. f_equal; lia.
Qed.

Lemma add_columns_list table cols pos m :
  wf m -> is_Some (tablesByOid m !! TableDefinition.oid table) ->
  pos = Z.of_nat (length (columns_of m (TableDefinition.oid table))) ->
  nextColumnOid m + Z.of_nat (length cols) < 2 ^ 31 -> pos + Z.of_nat (length cols) < 2 ^ 31 ->
  columns_of (add_columns table cols pos m) (TableDefinition.oid table) =
    columns_of m (TableDefinition.oid table) ++ numbered table (nextColumnOid m) pos cols.
Proof.
  revert pos m. induction cols as [|proto cols IH]; intros pos m W Ht Hpos Hr1 Hr2; cbn [add_columns length] in *.
  { unfold numbered. cbn. by rewrite app_nil_r. }
  pose proof (wf_next _ W) as (? & ? & ? & ?). rewrite (int32_small pos) by lia.
  set (c := new_column m table proto pos). set (m1 := indexColumn c (bump_column m)).
  assert (Hc1 : columns_of m1 (TableDefinition.oid table) = columns_of m (TableDefinition.oid table) ++ [c]).
  { unfold columns_of at 1. replace (columnsByTableOid m1)
      with (<[TableDefinition.oid table := columns_of m (TableDefinition.oid table) ++ [c]]> (columnsByTableOid m)).
    - by rewrite lookup_insert_eq.
    - symmetry. apply (indexColumn_end m c); [done|by apply column_fresh|done]. }
  assert (Hn : nextColumnOid m1 = nextColumnOid m + 1) by (cbn; rewrite int32_small; lia).
  rewrite IH; rewrite ?Hn; try done; try lia.
  - rewrite Hc1, numbered_cons, <- app_assoc. done.
  - unfold m1, c. rewrite Hpos. apply wf_new_column; [done..|lia].
  - rewrite Hc1, length_app. cbn. lia.
Qed.

(** ** Next oids *)
Definition maxOid {A} (m : gmap Z A) : Z := map_fold (fun oid _ mx => if mx <? oid then oid else mx) 0 m.

Lemma maxOid_spec {A} (m : gmap Z A) :
  0 <= maxOid m /\ (forall k, is_Some (m !! k) -> k <= maxOid m) /\ (maxOid m = 0 \/ is_Some (m !! maxOid m)).
Proof.
  unfold maxOid. apply (map_fold_weak_ind (fun mx m => 0 <= mx /\ (forall k, is_Some (m !! k) -> k <= mx) /\
    (mx = 0 \/ is_Some (m !! mx)))).
  - split; [done|]. split; [|by left]. intros k. rewrite lookup_empty. by intros [].
  - intros k a m' mx Hk (H0 & Hle & Hmax). split; [destruct (Z.ltb_spec mx k); lia|]. split.
    + intros k' Hk'. destruct (decide (k' = k)) as [->|Hne]; [destruct (Z.ltb_spec mx k); lia|].
      rewrite lookup_insert_ne in Hk' by done. specialize (Hle _ Hk'). destruct (Z.ltb_spec mx k); lia.
    + destruct (Z.ltb_spec mx k); [right; by rewrite lookup_insert_eq|].
      destruct Hmax as [->|Hmax]; [by left|]. right.
      destruct (decide (mx = k)) as [->|Hne]; [by rewrite lookup_insert_eq|]. by rewrite lookup_insert_ne.
Qed.

Lemma maxOid_unique {A} (m : gmap Z A) z :
  0 <= z -> (forall k, is_Some (m !! k) -> k <= z) -> (z = 0 \/ is_Some (m !! z)) -> maxOid m = z.
Proof.
  intros Hz Hle Hm. destruct (maxOid_spec m) as (H0 & Hle' & Hm').
  assert (maxOid m <= z) by (destruct Hm' as [->|Hm']; [lia|auto]).
  assert (z <= maxOid m) by (destruct Hm as [->|Hm]; [lia|auto]). lia.
Qed.

Lemma maxOid_insert {A} (m : gmap Z A) k a :
  0 <= k -> maxOid m <= k -> maxOid (<[k := a]> m) = k.
Proof.
  intros Hk Hle. destruct (maxOid_spec m) as (_ & Hle' & _). apply maxOid_unique; [done| |right; by rewrite lookup_insert_eq].
  intros k' Hk'. destruct (decide (k' = k)) as [->|Hne]; [done|]. rewrite lookup_insert_ne in Hk' by done.
  specialize (Hle' _ Hk'). lia.
Qed.

Lemma nextIdAfterMax_eq {A} (m : gmap Z A) : maxOid m + 1 < 2 ^ 31 -> nextIdAfterMax m = maxOid m + 1.
Proof. intros H. apply int32_small. destruct (maxOid_spec m). lia. Qed.

Lemma maxOid_below {A} (m : gmap Z A) n :
  0 < n -> (forall k a, m !! k = Some a -> 0 < k < n) -> 0 <= maxOid m < n.
Proof.
  intros Hn Hk. destruct (maxOid_spec m) as (H0 & _ & [E|[a E]]); [lia|]. specialize (Hk _ _ E). lia.
Qed.

(** Recomputing the next oids from the maps keeps the invariant. *)
Lemma wf_recompute m :
  wf m -> nextTableOid m < 2 ^ 31 -> nextColumnOid m < 2 ^ 31 -> nextTypeOid m < 2 ^ 31 -> nextIndexOid m < 2 ^ 31 ->
  wf (recomputeNextOids m) /\ nextTypeOid (recomputeNextOids m) <= nextTypeOid m.
Proof.
  intros W Ht Hc Hy Hi. pose proof (wf_next _ W) as (? & ? & ? & ?).
  assert (Bt : 0 <= maxOid (tablesByOid m) < nextTableOid m).
  { apply maxOid_below; [done|]. intros k a Hk. by apply (proj1 (wf_tables _ W)) in Hk as (_ & ? & _). }
  assert (Bc : 0 <= maxOid (columnsByOid m) < nextColumnOid m).
  { apply maxOid_below; [done|]. apply (wf_next_column _ W). }
  assert (By : 0 <= maxOid (typesByOid m) < nextTypeOid m).
  { apply maxOid_below; [done|]. intros k a Hk. by apply (proj1 (wf_types _ W)) in Hk as (_ & ? & _). }
  assert (Bi : 0 <= maxOid (indexesByOid m) < nextIndexOid m).
  { apply maxOid_below; [done|]. intros k a Hk. by apply (proj1 (wf_indexes _ W)) in Hk as (_ & ? & _). }
  unfold recomputeNextOids. rewrite !nextIdAfterMax_eq by lia. split; [|cbn; lia].
  assert (Hnamed : forall A (oid : A -> Z) name byOid byName next, named oid name byOid byName next ->
    named oid name byOid byName (maxOid byOid + 1)).
  { intros A oid name byOid byName next [Hn1 Hn2]. split; [|done]. intros o a Ho.
    destruct (Hn1 _ _ Ho) as (? & ? & ?). split; [done|]. split; [|done].
    destruct (maxOid_spec byOid) as (_ & Hle & _). specialize (Hle o). rewrite Ho in Hle. specialize (Hle ltac:(eauto)). lia. }
  destruct W. split; cbn; try done; try by eapply Hnamed.
  - intros o c Ho. destruct (wf_next_column0 _ _ Ho). destruct (maxOid_spec (columnsByOid m)) as (_ & Hle & _).
    specialize (Hle o). rewrite Ho in Hle. specialize (Hle ltac:(eauto)). lia.
  - lia.
Qed.

Section posts.
Context {R D : Type} `{!Replacer R, !PageFileManager D, !FileStat D}.
Implicit Types (cm : t R D) (m : maps).

(** A computation that does not touch the maps. *)
Definition quiet {A} (f : ST (t R D) A) : Prop :=
  forall cm, cat (f cm).2 = cat cm /\ DefaultCatalogManager.root (f cm).2 = DefaultCatalogManager.root cm.

Lemma quiet_on_pool {A} (f : ST (Pool R D) A) : quiet (on_pool f).
Proof. intros cm. unfold on_pool. by destruct (f (bufferPool cm)). Qed.

Lemma quiet_bind {A B} (f : ST (t R D) A) (k : A -> ST (t R D) B) :
  quiet f -> (forall a, quiet (k a)) -> quiet (sbind f k).
Proof.
  intros Hf Hk cm. unfold sbind. destruct (Hf cm) as [H1 H2]. destruct (f cm) as [[a|e|] cm']; [|done..].
  destruct (Hk a cm') as [H3 H4]. cbn in *. split; congruence.
Qed.

Lemma quiet_pageCount f : quiet (pageCount f).
Proof.
  apply quiet_bind; [apply quiet_bind; [done|intros; apply quiet_on_pool]|].
  intros [size|]; [|done]. destruct (size =? 0); [done|]. by destruct (negb _).
Qed.

Lemma quiet_appendToNew k data : quiet (appendToNew k data).
Proof. do 4 (apply quiet_bind; [apply quiet_on_pool|intros ?]). apply quiet_on_pool. Qed.

Lemma quiet_appendRecord f data : quiet (appendRecord f data).
Proof.
  apply quiet_bind; [apply quiet_pageCount|]. intros pages. destruct (pages =? 0); [apply quiet_appendToNew|].
  do 3 (apply quiet_bind; [apply quiet_on_pool|intros ?]). destruct (negb _); [apply quiet_appendToNew|].
  apply quiet_bind; [apply quiet_on_pool|intros ?]. apply quiet_on_pool.
Qed.

(** The end of an operation: encode the record, append it, go on. *)
Lemma post_append {A} (enc : outcome (list byte)) f (k : unit -> ST (t R D) A) cm Q :
  (forall r cm', r <> Ok tt -> cat cm' = cat cm -> DefaultCatalogManager.root cm' = DefaultCatalogManager.root cm ->
     forall e, (r = Err e -> Q (Err e) cm') /\ (r = Panic -> Q Panic cm')) ->
  (forall cm', cat cm' = cat cm -> post (k tt) cm' Q) ->
  post (data <- slift enc ;; x <- appendRecord f data ;; k x) cm Q.
Proof.
  intros Hbad Hgood. apply post_bind. unfold post at 1, slift. cbn.
  destruct enc as [data|e|]; [|by eapply (Hbad (Err e))|by eapply (Hbad Panic _ _ _ _ ErrNoVictim)].
  apply post_bind. destruct (quiet_appendRecord f data cm) as [H1 H2]. unfold post at 1.
  destruct (appendRecord f data cm) as [[[]|e|] cm']; [by apply Hgood|by eapply (Hbad (Err e))|].
  by eapply (Hbad Panic _ _ _ _ ErrNoVictim).
  Unshelve. all: done.
Qed.

Lemma post_get_maps cm (Q : outcome maps -> t R D -> Prop) : Q (Ok (cat cm)) cm -> post get_maps cm Q.
Proof. done. Qed.

Lemma post_modify f cm (Q : outcome unit -> t R D -> Prop) :
  Q (Ok tt) {| DefaultCatalogManager.root := DefaultCatalogManager.root cm; bufferPool := bufferPool cm; cat := f (cat cm) |} ->
  post (modify_maps f) cm Q.
Proof. done. Qed.

Lemma post_slift {A} (x : outcome A) cm (Q : outcome A -> t R D -> Prop) : Q x cm -> post (slift x) cm Q.
Proof. done. Qed.

Lemma create_columns_maps table cols pos cm :
  wf (cat cm) -> is_Some (tablesByOid (cat cm) !! TableDefinition.oid table) ->
  pos = Z.of_nat (length (columns_of (cat cm) (TableDefinition.oid table))) ->
  nextColumnOid (cat cm) + Z.of_nat (length cols) < 2 ^ 31 -> pos + Z.of_nat (length cols) < 2 ^ 31 ->
  post (create_columns table cols pos) cm (fun r cm' =>
    wf (cat cm') /\ tablesByOid (cat cm') = tablesByOid (cat cm) /\
    (r = Ok tt -> cat cm' = add_columns table cols pos (cat cm))).
Proof.
  revert pos cm. induction cols as [|proto cols IH]; intros pos cm W Ht Hpos Hr1 Hr2; [done|].
  cbn [create_columns length] in *. apply post_bind, post_get_maps, post_bind, post_modify. cbn beta iota.
  set (m := cat cm) in *. fold (bump_column m).
  assert (Hb : wf (bump_column m)).
  { pose proof (wf_next _ W) as (? & ? & ? & ?). eapply wf_bump; [done|reflexivity|lia| |lia|lia].
    rewrite int32_small; lia. }
  apply post_bind, post_slift. unfold ColumnDefinition.New. case_decide; [done|].
  rewrite (int32_small pos) by lia. fold (new_column m table proto pos).
  apply post_bind, post_modify. cbn beta iota. cbn [cat].
  assert (W' : wf (indexColumn (new_column m table proto pos) (bump_column m))).
  { rewrite Hpos. apply wf_new_column; [done..|lia]. }
  apply post_append.
  { intros r cm' _ E _ e. cbn [cat] in E. rewrite E. by split; intros ->. }
  intros cm' E. cbn [cat] in E. eapply post_mono; [apply IH; rewrite ?E|]; try done.
  - cbn. unfold columns_of in *. replace (columnsByTableOid (indexColumn (new_column m table proto pos) (bump_column m)))
      with (<[TableDefinition.oid table := columns_of m (TableDefinition.oid table) ++ [new_column m table proto pos]]>
              (columnsByTableOid m)).
    + rewrite lookup_insert_eq. cbn. unfold columns_of. rewrite length_app. cbn. lia.
    + symmetry. apply (indexColumn_end m (new_column m table proto pos)); [done|by apply column_fresh|done].
  - cbn. rewrite int32_small; [lia|]. pose proof (wf_next _ W) as (? & ? & ? & ?). lia.
  - lia.
  - intros r cm2 (W2 & Ht2 & Hok). rewrite E in Ht2, Hok. split; [done|]. split; [done|]. cbn [add_columns].
    by rewrite (int32_small pos) by lia.
Qed.
Lemma CreateTable_maps name cols cm :
  wf (cat cm) -> nextTableOid (cat cm) + 1 < 2 ^ 31 ->
  nextColumnOid (cat cm) + Z.of_nat (length cols) < 2 ^ 31 ->
  post (CreateTable name cols) cm (fun r cm' =>
    wf (cat cm') /\
    match tablesByName (cat cm) !! name with
    | Some _ => r = Err ErrTableExists /\ cm' = cm
    | None => forall t, r = Ok t -> t = new_table (cat cm) name /\ cat cm' = created_table (cat cm) name cols
    end).
Proof.
  intros W Hr1 Hr2. unfold CreateTable. apply post_bind, post_get_maps. cbn beta iota. set (m := cat cm) in *.
  case_decide as Hex; [destruct (tablesByName m !! name) as [t0|] eqn:Hn; [by split|by destruct Hex]|].
  destruct (tablesByName m !! name) as [t0|] eqn:Hn; [by destruct Hex; eauto|].
  pose proof (wf_next _ W) as (? & ? & ? & ?).
  apply post_bind, post_modify. cbn beta iota. fold m. fold (bump_table m).
  assert (Hb : wf (bump_table m)) by (eapply wf_bump; [done|reflexivity|rewrite int32_small; lia|lia..]).
  apply post_bind, post_slift. unfold TableDefinition.New.
  destruct (blank name); [done|]. destruct (blank "TABLE"); [done|].
  destruct (blank (pretty (nextTableOid m) +:+ ".dat")); [done|]. fold (new_table m name).
  apply post_bind, post_modify. cbn beta iota. cbn [cat].
  set (m1 := indexTable (new_table m name) (bump_table m)). fold m1.
  assert (W1 : wf m1) by by apply wf_new_table.
  apply post_append; [intros r cm' _ E _ e; cbn [cat] in E; rewrite E; by split; intros ->|].
  intros cm' E. cbn [cat] in E. apply post_bind.
  assert (Hcols : columns_of m1 (TableDefinition.oid (new_table m name)) = []) by exact (columns_of_new _ W).
  eapply post_mono; [apply create_columns_maps; rewrite ?E; try done|].
  - cbn. by rewrite lookup_insert_eq.
  - by rewrite Hcols.
  - lia.
  - intros r cm2 (W2 & _ & Hok). rewrite E in Hok. destruct r as [[]|e|]; [|done..].
    unfold post, sret; cbn. split; [done|]. intros t [= <-]. split; [done|]. by apply Hok.
Qed.

Lemma UpdatePagesCount_maps table n cm :
  wf (cat cm) -> knows_table (cat cm) table ->
  post (UpdatePagesCount table n) cm (fun r cm' =>
    wf (cat cm') /\
    (r = Ok tt -> exists updated, TableDefinition.New (TableDefinition.oid table) (TableDefinition.name table)
       (TableDefinition.typ table) (TableDefinition.fileNode table) n = Ok updated /\
       cat cm' = indexTable updated (cat cm))).
Proof.
  intros W Hk. unfold UpdatePagesCount. apply post_bind, post_slift.
  destruct (TableDefinition.New _ _ _ _ n) as [u|e|] eqn:Eu; [|done..].
  apply post_bind, post_modify. cbn beta iota.
  assert (W1 : wf (indexTable u (cat cm))).
  { apply wf_update_table; [done|]. unfold TableDefinition.New in Eu.
    repeat case_match; try done. by injection Eu as <-. }
  apply post_bind, post_slift. destruct (TableDefinition.ToBytes u) as [data|e|]; [|done..].
  destruct (quiet_appendRecord tablesFile data
    {| DefaultCatalogManager.root := DefaultCatalogManager.root cm; bufferPool := bufferPool cm; cat := indexTable u (cat cm) |}) as [E _].
  unfold post. cbn [cat] in E. rewrite E. eauto.
Qed.

Lemma CreateIndex_maps iname tname cname ty cm :
  wf (cat cm) -> nextIndexOid (cat cm) + 1 < 2 ^ 31 ->
  post (CreateIndex iname tname cname ty) cm (fun r cm' =>
    wf (cat cm') /\
    match indexesByName (cat cm) !! iname, tablesByName (cat cm) !! tname with
    | Some _, _ => r = Err ErrIndexExists /\ cm' = cm
    | None, None => r = Err ErrTableNotFound /\ cm' = cm
    | None, Some table =>
      match list_find (fun c => ColumnDefinition.name c = cname) (columns_of (cat cm) (TableDefinition.oid table)) with
      | None => r = Err ErrColumnNotFound /\ cm' = cm
      | Some (_, column) => forall d, r = Ok d ->
          d = new_index (cat cm) iname table column ty /\ cat cm' = indexIndex d (bump_index (cat cm))
      end
    end).
Proof.
  intros W Hroom. unfold CreateIndex. apply post_bind, post_get_maps. cbn beta iota. set (m := cat cm) in *.
  case_decide as Hex; [destruct (indexesByName m !! iname) as [d0|] eqn:Hn; [by split|by destruct Hex]|].
  destruct (indexesByName m !! iname) as [d0|] eqn:Hn; [by destruct Hex; eauto|].
  destruct (tablesByName m !! tname) as [table|] eqn:Ht; [|done]. fold (columns_of m (TableDefinition.oid table)).
  destruct (list_find _ _) as [[i column]|] eqn:Ec; [|done].
  pose proof (wf_next _ W) as (? & ? & ? & ?).
  apply post_bind, post_modify. cbn beta iota. fold m. fold (bump_index m).
  assert (Hb : wf (bump_index m)) by (eapply wf_bump; [done|reflexivity|lia..|rewrite int32_small; lia]).
  apply post_bind, post_slift. unfold IndexDefinition.New.
  destruct (decide (iname = "")); [done|]. destruct (decide (_ = "")); [done|]. fold (new_index m iname table column ty).
  apply post_bind, post_modify. cbn beta iota. cbn [cat].
  assert (W1 : wf (indexIndex (new_index m iname table column ty) (bump_index m))).
  { apply wf_new_index; [done| |done|done]. destruct (proj2 (wf_tables _ W) _ _ Ht) as [_ Ho]. eauto. }
  apply post_append; [intros r cm' _ E _ e; cbn [cat] in E; rewrite E; by split; intros ->|].
  intros cm' E. cbn [cat] in E. unfold post, sret; cbn. rewrite E. split; [done|]. by intros d [= <-].
Qed.
(** ** The invariant, from the first start on *)

Lemma ensureBuiltinType_maps name n cm :
  wf (cat cm) -> nextTypeOid (cat cm) + 1 < 2 ^ 31 ->
  post (ensureBuiltinType name n) cm (fun r cm' =>
    r <> Panic -> wf (cat cm') /\ nextTypeOid (cat cm') <= nextTypeOid (cat cm) + 1 /\
    nextTableOid (cat cm') = nextTableOid (cat cm) /\ nextColumnOid (cat cm') = nextColumnOid (cat cm) /\
    nextIndexOid (cat cm') = nextIndexOid (cat cm)).
Proof.
  intros W Hroom. unfold ensureBuiltinType. apply post_bind, post_get_maps. cbn beta iota.
  destruct (typesByName (cat cm) !! name) as [d|] eqn:Hn.
  { unfold post, sret; cbn [fst snd]. intros _. split_and!; try done; lia. }
  apply post_bind, post_slift. unfold TypeDefinition.New. case_decide.
  { intros _. split_and!; try done. lia. }
  pose proof (wf_next _ W) as (? & ? & ? & ?).
  apply post_bind, post_modify. cbn beta iota. apply post_bind, post_modify. cbn beta iota. cbn [cat].
  fold (bump_type (cat cm)). fold (new_type (cat cm) name n).
  assert (W1 : wf (indexType (new_type (cat cm) name n) (bump_type (cat cm)))) by by apply wf_new_type.
  assert (Hb : int32 (nextTypeOid (cat cm) + 1) = nextTypeOid (cat cm) + 1) by (apply int32_small; lia).
  apply post_append.
  - intros r cm' _ E _ e. cbn [cat] in E. rewrite E. cbn [indexType bump_type with_next nextTypeOid nextTableOid nextColumnOid nextIndexOid].
    rewrite Hb. split; intros -> Hp; [by split_and!|done].
  - intros cm' E. cbn [cat] in E. unfold post, sret; cbn [fst snd]. intros _. rewrite E.
    cbn [indexType bump_type with_next nextTypeOid nextTableOid nextColumnOid nextIndexOid]. rewrite Hb. by split_and!.
Qed.

(** The public operations that change the catalog; other users of the pool
    may change it between them. *)
Inductive catalog_op : Type :=
  | OpCreateTable (name : string) (columns : list ColumnDefinition.t)
  | OpUpdatePagesCount (table : TableDefinition.t) (n : Z)
  | OpCreateIndex (indexName tableName columnName : string) (ty : IndexType)
  | OpPool (P : Pool R D).

Definition run_op (op : catalog_op) : ST (t R D) unit :=
  match op with
  | OpCreateTable name columns => CreateTable name columns ;;; sret tt
  | OpUpdatePagesCount table n => UpdatePagesCount table n
  | OpCreateIndex i tb c ty => CreateIndex i tb c ty ;;; sret tt
  | OpPool P => smodify (fun cm =>
      {| DefaultCatalogManager.root := DefaultCatalogManager.root cm; bufferPool := P; cat := cat cm |})
  end.

(** The oids of the kind are not used up; a table whose pages are counted is
    one the catalog gave out. *)
Definition op_pre (op : catalog_op) m : Prop :=
  match op with
  | OpCreateTable _ columns =>
      nextTableOid m + 1 < 2 ^ 31 /\ nextColumnOid m + Z.of_nat (length columns) < 2 ^ 31
  | OpUpdatePagesCount table _ => knows_table m table
  | OpCreateIndex _ _ _ _ => nextIndexOid m + 1 < 2 ^ 31
  | OpPool _ => True
  end.

Definition catalog_step cm cm' : Prop := exists op, op_pre op (cat cm) /\ (run_op op cm).2 = cm'.

Lemma post_void {A} (f : ST (t R D) A) cm (Q : t R D -> Prop) :
  post f cm (fun _ cm' => Q cm') -> post (f ;;; sret tt) cm (fun _ cm' => Q cm').
Proof. unfold post, sbind. by destruct (f cm) as [[a|e|] cm']. Qed.

Lemma op_keeps_wf op cm : op_pre op (cat cm) -> wf (cat cm) -> wf (cat (run_op op cm).2).
Proof.
  intros Hpre W. change (post (run_op op) cm (fun _ cm' => wf (cat cm'))).
  destruct op as [name cols|table n|i tb c ty|P]; cbn [run_op op_pre] in *.
  - destruct Hpre. apply post_void. eapply post_mono; [by apply CreateTable_maps|]. by intros r cm' [? _].
  - eapply post_mono; [by apply UpdatePagesCount_maps|]. by intros r cm' [? _].
  - apply post_void. eapply post_mono; [by apply CreateIndex_maps|]. by intros r cm' [? _].
  - done.
Qed.

Section first_start.
Context `{DL : !PageFileLaws D} `{FL : !FileStatLaws D}.

Definition catalogFiles : list string := [typesFile; tablesFile; columnsFile; indexesFile].

(** No catalog file exists yet. *)
Definition no_files (root : string) (d : D) : Prop :=
  forall f, f ∈ catalogFiles -> file_size d (Filepath.Join root f) = None.

Lemma readAllRecords_absent f consumer cm :
  file_size (disk (bufferPool cm)) (Filepath.Join (DefaultCatalogManager.root cm) f) = None ->
  post (readAllRecords f consumer) cm (fun r cm' => cat cm' = cat cm /\
    DefaultCatalogManager.root cm' = DefaultCatalogManager.root cm /\
    forall p, file_size (disk (bufferPool cm')) p = file_size (disk (bufferPool cm)) p).
Proof.
  intros Hs. destruct (os_stat_law (disk (bufferPool cm)) (Filepath.Join (DefaultCatalogManager.root cm) f))
    as (r & d' & E & Hz & _ & Hr).
  unfold post, readAllRecords, pageCount, Stat, on_pool, on_disk, sbind, sget. rewrite E. cbn -[read_pages].
  rewrite Hs in Hr. destruct Hr as [->|[e ->]]; by cbn.
Qed.

Lemma wf_empty : wf empty_maps.
Proof. by split; cbn; try split; intros *; rewrite ?lookup_empty. Qed.

(** A manager under construction, with no file and no definition. *)
Definition blank_start root cm : Prop :=
  DefaultCatalogManager.root cm = root /\ cat cm = empty_maps /\ no_files root (disk (bufferPool cm)).

Lemma read_blank root f g cm (Q : outcome unit -> t R D -> Prop) :
  f ∈ catalogFiles -> blank_start root cm ->
  (forall cm', blank_start root cm' -> Q (Ok tt) cm') -> (forall r cm', r <> Ok tt -> Q r cm') ->
  post (readAllRecords f g) cm Q.
Proof.
  intros Hf (Hr & Hc & Hn) Hok Herr. eapply post_mono; [apply readAllRecords_absent; rewrite Hr; by apply Hn|].
  intros [[]|e|] cm' (Hc' & Hr' & Hs'); [|by apply Herr..]. apply Hok. split; [congruence|]. split; [congruence|].
  intros h Hh. rewrite Hs'. by apply Hn.
Qed.

Lemma load_blank root cm :
  blank_start root cm ->
  post loadFromDisk cm (fun r cm' => r = Ok tt -> cat cm' = recomputeNextOids empty_maps).
Proof.
  intros Hb. unfold loadFromDisk.
  apply post_bind, (read_blank root); [set_solver|done| |by intros [[]|e|]]. clear cm Hb. intros cm Hb. cbn beta iota.
  apply post_bind, (read_blank root); [set_solver|done| |by intros [[]|e|]]. clear cm Hb. intros cm Hb. cbn beta iota.
  apply post_bind, (read_blank root); [set_solver|done| |by intros [[]|e|]]. clear cm Hb. intros cm Hb. cbn beta iota.
  apply post_bind, (read_blank root); [set_solver|done| |by intros [[]|e|]]. clear cm Hb. intros cm (_ & Hc & _). cbn beta iota.
  apply post_modify. intros _. cbn [cat]. by rewrite Hc.
Qed.

Lemma builtins_wf cm :
  wf (cat cm) -> nextTypeOid (cat cm) + 2 < 2 ^ 31 -> nextTableOid (cat cm) < 2 ^ 31 ->
  nextColumnOid (cat cm) < 2 ^ 31 -> nextIndexOid (cat cm) < 2 ^ 31 ->
  post ensureBuiltinTypesPresent cm (fun r cm' => r = Ok tt -> wf (cat cm')).
Proof.
  intros W Hy Ht Hc Hi. unfold ensureBuiltinTypesPresent.
  apply post_bind. eapply post_mono; [apply ensureBuiltinType_maps; [done|lia]|].
  intros [b1|e|] cm1 H1; [|done..]. destruct H1 as (W1 & Hy1 & Ht1 & Hc1 & Hi1); [done|].
  apply post_bind. eapply post_mono; [apply ensureBuiltinType_maps; [done|lia]|].
  intros [b2|e|] cm2 H2; [|done..]. destruct H2 as (W2 & Hy2 & Ht2 & Hc2 & Hi2); [done|].
  destruct (b1 || b2); [|by intros _]. apply post_modify. intros _. cbn [cat].
  apply wf_recompute; [done|lia..].
Qed.

Lemma first_start_wf root P cm P' :
  no_files root (disk P) -> NewDefaultCatalogManager root P = (Ok cm, P') -> wf (cat cm).
Proof.
  intros Hno. unfold NewDefaultCatalogManager.
  set (cm0 := {| DefaultCatalogManager.root := root; bufferPool := P; cat := empty_maps |}).
  assert (Hload : post (ensureCatalogDirectory ;;; loadFromDisk ;;; ensureBuiltinTypesPresent) cm0
    (fun r cm' => r = Ok tt -> wf (cat cm'))).
  2:{ unfold post in Hload. destruct (sbind ensureCatalogDirectory _ cm0) as [[[]|e|] cm1]; cbn in *; [|done..].
      intros [= <- _]. auto. }
  apply post_bind. unfold ensureCatalogDirectory.
  destruct (os_mkdir_law (disk P) root) as (r & d' & E1 & Hz & _ & Hr).
  unfold post at 1, sbind, sget, on_pool, on_disk. cbn. rewrite E1. destruct Hr as [->|[e ->]]; cbn -[loadFromDisk]; [|done].
  fold (sbind (A:=unit) (B:=unit) (loadFromDisk (R:=R) (D:=D))). apply post_bind. eapply post_mono; [apply (load_blank root)|].
  { split; [done|]. split; [done|]. intros f Hf. cbn. rewrite Hz. by apply Hno. }
  intros [[]|e|] cm1 Hc; [|done..]. specialize (Hc eq_refl).
  apply builtins_wf; rewrite Hc; try done.
Qed.
End first_start.
(** ** What the theorems say *)

(** [CreateTable] on a catalog that satisfies the invariant: a known name
    is refused and nothing changes; on success the returned table has a new
    oid, is found under its name with the given columns at positions 0, 1,
    ... and no index, and no other table, column list or index list has
    changed. *)
Theorem CreateTable_spec name cols cm :
  wf (cat cm) -> nextTableOid (cat cm) + 1 < 2 ^ 31 ->
  nextColumnOid (cat cm) + Z.of_nat (length cols) < 2 ^ 31 ->
  post (CreateTable name cols) cm (fun r cm' =>
    match GetTable cm name with
    | Ok (Some _) => r = Err ErrTableExists /\ cm' = cm
    | _ => forall t, r = Ok t ->
        (forall n t', GetTable cm n = Ok (Some t') -> TableDefinition.oid t' <> TableDefinition.oid t) /\
        TableDefinition.name t = name /\ TableDefinition.pagesCount t = 0 /\
        GetTable cm' name = Ok (Some t) /\
        GetColumns cm' t = Ok (numbered t (nextColumnOid (cat cm)) 0 cols) /\ ListIndexes cm' t = Ok [] /\
        (forall n, n <> name -> GetTable cm' n = GetTable cm n) /\
        (forall t', TableDefinition.oid t' <> TableDefinition.oid t ->
           GetColumns cm' t' = GetColumns cm t' /\ ListIndexes cm' t' = ListIndexes cm t')
    end).
Proof.
  intros W Hr1 Hr2. pose proof (wf_next _ W) as (? & ? & ? & ?).
  eapply post_mono; [by apply CreateTable_maps|]. intros r cm' [W' Hcase]. unfold GetTable.
  destruct (tablesByName (cat cm) !! name) as [t0|] eqn:Hn; [done|]. intros t Hr. destruct (Hcase t Hr) as [-> Hc].
  unfold GetColumns, ListIndexes. rewrite Hc. unfold created_table. set (t := new_table (cat cm) name).
  set (m1 := indexTable t (bump_table (cat cm))).
  destruct (add_columns_frame t cols 0 m1) as (_ & -> & _ & _ & _ & _ & -> & _ & _ & _ & Ho).
  assert (Hnew : columns_of m1 (TableDefinition.oid t) = []) by exact (columns_of_new _ W).
  split_and!; try done.
  - intros n t' [= Ht'] E. destruct (proj2 (wf_tables _ W) _ _ Ht') as [_ Ht2].
    rewrite E in Ht2. change (TableDefinition.oid t) with (nextTableOid (cat cm)) in Ht2.
    by rewrite (named_fresh _ _ _ _ _ (wf_tables _ W)) in Ht2.
  - cbn. by rewrite lookup_insert_eq.
  - f_equal. change (columns_of (add_columns t cols 0 m1) (TableDefinition.oid t) = numbered t (nextColumnOid m1) 0 cols).
    rewrite add_columns_list, Hnew; [done|by apply wf_new_table| |by rewrite Hnew|done|lia].
    cbn. by rewrite lookup_insert_eq.
  - f_equal. cbn. destruct (indexesByTableOid (cat cm) !! nextTableOid (cat cm)) as [l|] eqn:El; [|done].
    destruct (proj2 (wf_index_lists _ W) _ _ El) as ([t' Ht'] & _). by rewrite (named_fresh _ _ _ _ _ (wf_tables _ W)) in Ht'.
  - intros n Hne. cbn. by rewrite lookup_insert_ne.
  - intros t' Hne. split; [|done]. f_equal.
    change (columns_of (add_columns t cols 0 m1) (TableDefinition.oid t') = columns_of (cat cm) (TableDefinition.oid t')).
    by rewrite Ho.
Qed.

(** [CreateIndex]: the errors in the order the code tests them, and on success
    a definition with a new oid on the column found, added at the end of the
    table's list. *)
Theorem CreateIndex_spec iname tname cname ty cm :
  wf (cat cm) -> nextIndexOid (cat cm) + 1 < 2 ^ 31 ->
  post (CreateIndex iname tname cname ty) cm (fun r cm' =>
    match GetIndex cm iname, GetTable cm tname with
    | Ok (Some _), _ => r = Err ErrIndexExists /\ cm' = cm
    | _, Ok (Some table) =>
      match GetColumn cm table cname with
      | Ok (Some column) => forall d, r = Ok d ->
          d = new_index (cat cm) iname table column ty /\ GetIndex cm' iname = Ok (Some d) /\
          (exists l, ListIndexes cm table = Ok l /\ ListIndexes cm' table = Ok (l ++ [d])) /\
          (forall n, n <> iname -> GetIndex cm' n = GetIndex cm n) /\
          (forall n, GetTable cm' n = GetTable cm n) /\ (forall t', GetColumns cm' t' = GetColumns cm t')
      | _ => r = Err ErrColumnNotFound /\ cm' = cm
      end
    | _, _ => r = Err ErrTableNotFound /\ cm' = cm
    end).
Proof.
  intros W Hroom. eapply post_mono; [by apply CreateIndex_maps|]. intros r cm' [W' Hcase].
  unfold GetIndex, GetTable, GetColumn, GetColumns, ListIndexes.
  destruct (indexesByName (cat cm) !! iname) as [d0|]; [done|].
  destruct (tablesByName (cat cm) !! tname) as [table|] eqn:Ht; [|done].
  fold (columns_of (cat cm) (TableDefinition.oid table)).
  destruct (list_find _ (columns_of (cat cm) (TableDefinition.oid table))) as [[i column]|]; [|done].
  cbn [fmap option_fmap option_map snd]. intros d Hr. destruct (Hcase d Hr) as [Hd Hc]. rewrite Hc. split_and!; try done.
  - cbn. rewrite Hd. by rewrite lookup_insert_eq.
  - eexists. split; [done|]. f_equal. cbn. subst d. rewrite lookup_insert_eq. cbn. f_equal.
    destruct (indexesByTableOid (cat cm) !! TableDefinition.oid table) as [l|] eqn:El; [|done].
    eapply (grouped_absent IndexDefinition.oid IndexDefinition.tableOid _ _ _ (new_index (cat cm) iname table column ty) l);
      [apply (wf_index_lists _ W)|apply (named_fresh _ _ _ _ _ (wf_indexes _ W))|done].
  - intros n Hne. cbn. subst d. by rewrite lookup_insert_ne.
Qed.

(** C16: the catalog's invariant: a manager first started in a directory
    without catalog files, and then used through any sequence of calls, with
    errors of the disk and of the pool anywhere (also between the records of
    one [CreateTable]), has maps that agree: names and oids identify the same
    definitions, every column and index is listed at its table and nowhere
    else, the columns of a table are at positions 0, 1, ..., and an oid to be
    given out next is not in use. *)
Theorem catalog_invariant `{DL : !PageFileLaws D} `{FL : !FileStatLaws D} root P cm0 P' cm :
  no_files root (disk P) -> NewDefaultCatalogManager root P = (Ok cm0, P') ->
  rtc catalog_step cm0 cm -> wf (cat cm).
Proof.
  intros Hno Hstart Hsteps. apply first_start_wf in Hstart; [|done].
  induction Hsteps as [cm|cm1 cm2 cm3 (op & Hpre & <-) _ IH]; [done|]. by apply IH, op_keeps_wf.
Qed.
End posts.

(** *** Witnesses *)
Definition a_start : outcome (t LRUReplacer.t FS) * Pool LRUReplacer.t FS := NewDefaultCatalogManager "data" BufferPoolSpec.lru_pool.
Definition a_catalog : t LRUReplacer.t FS :=
  match a_start.1 with Ok cm => cm | _ => {| DefaultCatalogManager.root := ""; bufferPool := BufferPoolSpec.lru_pool; cat := empty_maps |} end.

Definition proto (name : string) (typeOid : Z) : ColumnDefinition.t :=
  {| ColumnDefinition.oid := 0; ColumnDefinition.tableOid := 0; ColumnDefinition.typeOid := typeOid;
     ColumnDefinition.name := name; ColumnDefinition.position := 0 |}.

Definition create_users : catalog_op (R:=LRUReplacer.t) (D:=FS) := OpCreateTable "users" [proto "id" 1; proto "name" 2].

Lemma a_start_ok : a_start = (Ok a_catalog, a_start.2).
Proof. vm_compute. reflexivity. Qed.

Lemma a_no_files : no_files "data" (disk BufferPoolSpec.lru_pool).
Proof. intros f _. done. Qed.

Lemma a_catalog_wf : wf (cat a_catalog).
Proof. eapply first_start_wf; [exact a_no_files|exact a_start_ok]. Qed.

Lemma catalog_invariant_witness :
  no_files "data" (disk BufferPoolSpec.lru_pool) /\ a_start = (Ok a_catalog, a_start.2) /\
  wf (cat (run_op create_users a_catalog).2).
Proof.
  split; [exact a_no_files|]. split; [exact a_start_ok|].
  apply (catalog_invariant (R:=LRUReplacer.t) (D:=FS) "data" BufferPoolSpec.lru_pool a_catalog a_start.2); [exact a_no_files|exact a_start_ok|].
  apply rtc_once. exists create_users. split; [|reflexivity]. vm_compute. split; reflexivity.
Defined.

Lemma CreateTable_spec_witness :
  exists t cm', CreateTable "users" [proto "id" 1; proto "name" 2] a_catalog = (Ok t, cm') /\
    GetTable cm' "users" = Ok (Some t) /\
    GetColumns cm' t = Ok (numbered t (nextColumnOid (cat a_catalog)) 0 [proto "id" 1; proto "name" 2]).
Proof.
  pose proof (CreateTable_spec (R:=LRUReplacer.t) (D:=FS) "users" [proto "id" 1; proto "name" 2] a_catalog a_catalog_wf
    ltac:(vm_compute; reflexivity) ltac:(vm_compute; reflexivity)) as H.
  unfold post in H. destruct (CreateTable "users" _ a_catalog) as [r cm'] eqn:E.
  assert (Hr : exists t, r = Ok t).
  { assert (Hb : match (CreateTable "users" [proto "id" 1; proto "name" 2] a_catalog).1 with Ok _ => true | _ => false end = true)
      by (vm_compute; reflexivity).
    rewrite E in Hb. destruct r as [t|e|]; [by exists t|discriminate Hb..]. }
  destruct Hr as [t ->]. exists t, cm'. split; [reflexivity|].
  assert (Hn : GetTable a_catalog "users" = Ok None) by (vm_compute; reflexivity).
  rewrite Hn in H. destruct (H t eq_refl) as (_ & _ & _ & H1 & H2 & _). split; assumption.
Defined.
End CatalogSpec.
