(* ===== verification/CatalogJournal.v ===== *)
(** * CatalogJournal: the catalog on disk

    The second half of the proofs about [CatalogManager]: each catalog file is
    a log of records ([journal]), [appendRecord] adds a record to it and makes
    it durable, [readAllRecords] replays it, and so what the public operations
    report as done is found again by a manager started later
    ([catalog_recovers]).  A [session] may mix the calls of the manager with any
    calls of the other users of the pool on pages of their own files
    ([pool_work]), with flushes and with restarts.  Nothing is assumed about the
    disk: every system call may fail, and a failing call is then reported; on a
    disk that does not fail a restart succeeds. *)

From S2P Require Import Prelude GoRuntime Utf8 Ast HeapPage Replacer PageFile BufferPool PageStore CatalogModel Semantic CatalogManager.
#[local] Open Scope Z_scope.

Module CatalogJournal.
Import HeapBufferPoolManager DefaultCatalogManager CatalogSpec.

(** ** Typed logs *)
Record logs : Type := {
  l_types : list TypeDefinition.t;
  l_tables : list TableDefinition.t;
  l_columns : list ColumnDefinition.t;
  l_indexes : list IndexDefinition.t
}.

Definition add_type d (L : logs) : logs :=
  {| l_types := l_types L ++ [d]; l_tables := l_tables L; l_columns := l_columns L; l_indexes := l_indexes L |}.
Definition add_table d (L : logs) : logs :=
  {| l_types := l_types L; l_tables := l_tables L ++ [d]; l_columns := l_columns L; l_indexes := l_indexes L |}.
Definition add_column d (L : logs) : logs :=
  {| l_types := l_types L; l_tables := l_tables L; l_columns := l_columns L ++ [d]; l_indexes := l_indexes L |}.
Definition add_index d (L : logs) : logs :=
  {| l_types := l_types L; l_tables := l_tables L; l_columns := l_columns L; l_indexes := l_indexes L ++ [d] |}.

Definition insert_all {B} (ins : B -> maps -> maps) (l : list B) (m : maps) : maps :=
  fold_left (fun m d => ins d m) l m.
#[local] Arguments insert_all : simpl never.

(** The maps the logs stand for. *)
Definition rebuild (L : logs) : maps :=
  insert_all indexIndex (l_indexes L) (insert_all indexColumn (l_columns L)
    (insert_all indexTable (l_tables L) (insert_all indexType (l_types L) empty_maps))).
Definition replay (L : logs) : maps := recomputeNextOids (rebuild L).

Lemma insert_all_snoc {B} (ins : B -> maps -> maps) l d m : insert_all ins (l ++ [d]) m = ins d (insert_all ins l m).
Proof. unfold insert_all. by rewrite fold_left_app. Qed.

Lemma insert_all_comm {B C} (ins : B -> maps -> maps) (ins' : C -> maps -> maps) d l m :
  (forall x m, ins d (ins' x m) = ins' x (ins d m)) -> ins d (insert_all ins' l m) = insert_all ins' l (ins d m).
Proof. intros Hc. revert m. induction l as [|x l IH]; intros m; [done|].
  change (ins d (insert_all ins' l (ins' x m)) = insert_all ins' l (ins' x (ins d m))). by rewrite IH, Hc.
Qed.

Lemma rebuild_type d L : rebuild (add_type d L) = indexType d (rebuild L).
Proof.
  unfold rebuild; cbn. rewrite insert_all_snoc.
  rewrite (insert_all_comm indexType indexIndex), (insert_all_comm indexType indexColumn),
    (insert_all_comm indexType indexTable) by done. done.
Qed.
Lemma rebuild_table d L : rebuild (add_table d L) = indexTable d (rebuild L).
Proof.
  unfold rebuild; cbn. rewrite insert_all_snoc.
  rewrite (insert_all_comm indexTable indexIndex), (insert_all_comm indexTable indexColumn) by done. done.
Qed.
Lemma rebuild_column d L : rebuild (add_column d L) = indexColumn d (rebuild L).
Proof.
  unfold rebuild; cbn. rewrite insert_all_snoc. rewrite (insert_all_comm indexColumn indexIndex) by done. done.
Qed.
Lemma rebuild_index d L : rebuild (add_index d L) = indexIndex d (rebuild L).
Proof. unfold rebuild; cbn. by rewrite insert_all_snoc. Qed.

(** The next oid after a definition with the oid that was next. *)
Lemma next_after_insert {B} (m : gmap Z B) d :
  nextIdAfterMax m = maxOid m + 1 -> maxOid m + 2 < 2 ^ 31 ->
  int32 (nextIdAfterMax m + 1) = nextIdAfterMax (<[nextIdAfterMax m := d]> m).
Proof.
  intros E Hroom. destruct (maxOid_spec m) as [H0 _]. rewrite E.
  assert (Hm : maxOid (<[maxOid m + 1 := d]> m) = maxOid m + 1) by (apply maxOid_insert; lia).
  rewrite nextIdAfterMax_eq; rewrite Hm; [|lia]. apply int32_small. lia.
Qed.

Lemma next_after_update {B} (m : gmap Z B) k d :
  0 <= k -> is_Some (m !! k) -> nextIdAfterMax (<[k := d]> m) = nextIdAfterMax m.
Proof.
  intros Hk Hm. unfold nextIdAfterMax. fold (maxOid (<[k := d]> m)) (maxOid m). do 2 f_equal.
  destruct (maxOid_spec m) as (H0 & Hle & Hmx). apply maxOid_unique; [done| |].
  - intros k' Hk'. destruct (decide (k' = k)) as [->|Hne]; [auto|]. rewrite lookup_insert_ne in Hk' by done. auto.
  - destruct Hmx as [->|Hmx]; [by left|]. right. destruct (decide (maxOid m = k)) as [->|Hne].
    + by rewrite lookup_insert_eq.
    + by rewrite lookup_insert_ne.
Qed.

(** Below 2^31, the next oid is the maximum plus one. *)
Lemma next_is_max {B} (m : gmap Z B) :
  (forall k a, m !! k = Some a -> 0 < k < nextIdAfterMax m) -> 0 < nextIdAfterMax m ->
  (forall k a, m !! k = Some a -> k < 2 ^ 31 - 1) -> nextIdAfterMax m = maxOid m + 1.
Proof.
  intros H1 H2 H3. apply nextIdAfterMax_eq. destruct (maxOid_spec m) as (H0 & _ & [->|[a Ha]]); [done|].
  specialize (H3 _ _ Ha). lia.
Qed.

(** *** Replaying one more record is what the operations do to the maps *)
Lemma oid_next {B} (m : gmap Z B) :
  (forall k a, m !! k = Some a -> 0 < k < nextIdAfterMax m) -> 0 < nextIdAfterMax m -> nextIdAfterMax m + 1 < 2 ^ 31 ->
  forall d, int32 (nextIdAfterMax m + 1) = nextIdAfterMax (<[nextIdAfterMax m := d]> m).
Proof.
  intros H1 H2 H3 d. assert (E : nextIdAfterMax m = maxOid m + 1).
  { apply next_is_max; [done..|]. intros k a Ha. specialize (H1 _ _ Ha). lia. }
  apply next_after_insert; [done|]. rewrite E in H3. lia.
Qed.

Lemma replay_add_table L d :
  wf (replay L) -> nextTableOid (replay L) + 1 < 2 ^ 31 -> TableDefinition.oid d = nextTableOid (replay L) ->
  indexTable d (bump_table (replay L)) = replay (add_table d L).
Proof.
  intros W Hroom Hd. unfold replay at 2. rewrite rebuild_table.
  assert (E : int32 (nextTableOid (replay L) + 1) = nextIdAfterMax (<[TableDefinition.oid d := d]> (tablesByOid (rebuild L)))).
  { rewrite Hd. apply oid_next; [|apply W|done]. intros k a Ha. by destruct (proj1 (wf_tables _ W) k a Ha) as (_ & ? & _). }
  unfold recomputeNextOids, with_next; cbn. by rewrite <- E.
Qed.

Lemma replay_add_column L d :
  wf (replay L) -> nextColumnOid (replay L) + 1 < 2 ^ 31 -> ColumnDefinition.oid d = nextColumnOid (replay L) ->
  indexColumn d (bump_column (replay L)) = replay (add_column d L).
Proof.
  intros W Hroom Hd. unfold replay at 2. rewrite rebuild_column.
  assert (E : int32 (nextColumnOid (replay L) + 1) = nextIdAfterMax (<[ColumnDefinition.oid d := d]> (columnsByOid (rebuild L)))).
  { rewrite Hd. apply oid_next; [|apply W|done]. apply (wf_next_column _ W). }
  unfold recomputeNextOids, with_next; cbn. by rewrite <- E.
Qed.

Lemma replay_add_type L d :
  wf (replay L) -> nextTypeOid (replay L) + 1 < 2 ^ 31 -> TypeDefinition.oid d = nextTypeOid (replay L) ->
  indexType d (bump_type (replay L)) = replay (add_type d L).
Proof.
  intros W Hroom Hd. unfold replay at 2. rewrite rebuild_type.
  assert (E : int32 (nextTypeOid (replay L) + 1) = nextIdAfterMax (<[TypeDefinition.oid d := d]> (typesByOid (rebuild L)))).
  { rewrite Hd. apply oid_next; [|apply W|done]. intros k a Ha. by destruct (proj1 (wf_types _ W) k a Ha) as (_ & ? & _). }
  unfold recomputeNextOids, with_next; cbn. by rewrite <- E.
Qed.

Lemma replay_add_index L d :
  wf (replay L) -> nextIndexOid (replay L) + 1 < 2 ^ 31 -> IndexDefinition.oid d = nextIndexOid (replay L) ->
  indexIndex d (bump_index (replay L)) = replay (add_index d L).
Proof.
  intros W Hroom Hd. unfold replay at 2. rewrite rebuild_index.
  assert (E : int32 (nextIndexOid (replay L) + 1) = nextIdAfterMax (<[IndexDefinition.oid d := d]> (indexesByOid (rebuild L)))).
  { rewrite Hd. apply oid_next; [|apply W|done]. intros k a Ha. by destruct (proj1 (wf_indexes _ W) k a Ha) as (_ & ? & _). }
  unfold recomputeNextOids, with_next; cbn. by rewrite <- E.
Qed.

Lemma replay_update_table L d :
  wf (replay L) -> knows_table (replay L) d -> indexTable d (replay L) = replay (add_table d L).
Proof.
  intros W (t0 & Ht & _). unfold replay at 2. rewrite rebuild_table.
  assert (E : nextIdAfterMax (tablesByOid (rebuild L)) = nextIdAfterMax (<[TableDefinition.oid d := d]> (tablesByOid (rebuild L)))).
  { symmetry. apply next_after_update; [|by exists t0]. destruct (proj1 (wf_tables _ W) _ _ Ht) as (_ & ? & _). lia. }
  unfold recomputeNextOids, with_next; cbn. by rewrite <- E.
Qed.

(** *** The records of the log decode to the definitions *)
Definition decodes {B} (dec : list byte -> outcome B) (l : list B) (recs : list (list byte)) : Prop :=
  Forall2 (fun d r => dec r = Ok d) l recs.

Lemma decodes_snoc {B} (dec : list byte -> outcome B) l recs d r :
  decodes dec l recs -> dec r = Ok d -> decodes dec (l ++ [d]) (recs ++ [r]).
Proof. intros Hl Hd. apply Forall2_app; [done|]. by constructor. Qed.

(** The record of a definition whose numbers are in range: it decodes to the
    definition, or a string is too long for it. *)
Definition codec {B} (enc : B -> outcome (list byte)) (dec : list byte -> outcome B) (d : B) : Prop :=
  (exists bs, enc d = Ok bs /\ dec bs = Ok d) \/ exists e, enc d = Err e.

Lemma codec_type d :
  in_sint 32 (TypeDefinition.oid d) -> in_sint 32 (TypeDefinition.byteLength d) ->
  codec TypeDefinition.ToBytes TypeDefinition.FromBytes d.
Proof.
  intros Ho Hb. destruct (Z.ltb_spec maxUint16 (len_of (TypeDefinition.name d))) as [Hl|Hl].
  - right. unfold TypeDefinition.ToBytes. rewrite (proj2 (Z.ltb_lt _ _)) by done. eauto.
  - left. assert (Hok : Roundtrips.type_ok d) by by split_and!.
    destruct (proj1 (Roundtrips.type_definition_roundtrip d []) Hok) as (bs & E & Hd). rewrite app_nil_r in Hd. eauto.
Qed.

Lemma codec_table d :
  in_sint 32 (TableDefinition.oid d) -> in_sint 32 (TableDefinition.pagesCount d) ->
  codec TableDefinition.ToBytes TableDefinition.FromBytes d.
Proof.
  intros Ho Hp. destruct ((maxUint16 <? len_of (TableDefinition.name d)) || (maxUint16 <? len_of (TableDefinition.typ d)) ||
    (maxUint16 <? len_of (TableDefinition.fileNode d))) eqn:Hl.
  - right. unfold TableDefinition.ToBytes. rewrite Hl. eauto.
  - left. apply orb_false_iff in Hl as [[Hn Ht]%orb_false_iff Hf]. apply Z.ltb_ge in Hn, Ht, Hf.
    assert (Hok : Roundtrips.table_ok d) by by split_and!.
    destruct (Roundtrips.table_codec d [] Hok) as (bs & E & Hd). rewrite app_nil_r in Hd. eauto.
Qed.

Lemma codec_column d :
  in_sint 32 (ColumnDefinition.oid d) -> in_sint 32 (ColumnDefinition.tableOid d) ->
  in_sint 32 (ColumnDefinition.typeOid d) -> in_sint 32 (ColumnDefinition.position d) ->
  codec ColumnDefinition.ToBytes ColumnDefinition.FromBytes d.
Proof.
  intros Ho Ht Hy Hp. destruct (Z.ltb_spec maxUint16 (len_of (ColumnDefinition.name d))) as [Hl|Hl].
  - right. unfold ColumnDefinition.ToBytes. rewrite (proj2 (Z.ltb_lt _ _)) by done. eauto.
  - left. assert (Hok : Roundtrips.column_ok d) by by split_and!.
    destruct (proj1 (Roundtrips.column_definition_roundtrip d []) Hok) as (bs & E & Hd). rewrite app_nil_r in Hd. eauto.
Qed.

Lemma codec_index d :
  in_sint 32 (IndexDefinition.oid d) -> in_sint 32 (IndexDefinition.tableOid d) ->
  in_sint 32 (IndexDefinition.columnOid d) -> in_sint 32 (IndexDefinition.keyTypeOid d) ->
  in_sint 32 (IndexDefinition.indexType d) -> in_sint 32 (IndexDefinition.metaPageId d) ->
  in_sint 32 (IndexDefinition.rootPageId d) -> codec IndexDefinition.ToBytes IndexDefinition.FromBytes d.
Proof.
  intros Ho Ht Hc Hk Hi Hm Hr.
  destruct ((maxUint16 <? len_of (IndexDefinition.name d)) || (maxUint16 <? len_of (IndexDefinition.fileNode d))) eqn:Hl.
  - right. unfold IndexDefinition.ToBytes. rewrite Hl. eauto.
  - left. apply orb_false_iff in Hl as [Hn Hf]. apply Z.ltb_ge in Hn, Hf.
    assert (Hok : Roundtrips.index_ok d) by by split_and!.
    destruct (Roundtrips.index_codec d [] Hok) as (bs & E & Hd). rewrite app_nil_r in Hd. eauto.
Qed.

Section journal.
Context {R D : Type} `{RR : Replacer R, RL : !ReplacerLaws R, DM : PageFileManager D, DL : !PageFileLaws D}.
Context `{FT : !FileStat D, FL : !FileStatLaws D}.
Context (root0 : string) (root_nonempty : root0 <> ""%string).
Implicit Types (P : Pool R D) (k : PageKey) (E : PageKey -> Prop) (A : PageKey -> option (list byte)) (f g : string).

Notation good := (BufferPoolSpec.good_key Filepath.simple_name).
Notation evolves := (PageStore.evolves root0).
Notation no_key := BufferPoolSpec.no_key.
Notation store_of := (PageStore.store_of root0).
Notation store_but := (PageStore.store_but root0).
Notation in_slot := PageStore.in_slot.
Notation put := PageStore.put.
Notation also := PageStore.also.
Notation size_is := (PageStore.size_is root0).
Notation all_clean := PageStore.all_clean.
Notation spares := (PageStore.spares root0).

Let join_inj f g : Filepath.simple_name f -> Filepath.simple_name g ->
  Filepath.Join root0 f = Filepath.Join root0 g -> f = g.
Proof. by apply Filepath.Join_inj. Qed.

Let join_nonempty f : Filepath.simple_name f -> Filepath.Join root0 f <> ""%string.
Proof. by apply Filepath.Join_nonempty. Qed.

(** ** A file of [n] pages, all of them on disk *)
Definition filed f (n : Z) P : Prop := size_is f n (disk P) /\ all_clean f P.

Lemma filed_evolves X f n P P' :
  Filepath.simple_name f -> evolves X P P' -> (forall k, X k -> FileID k <> f) -> filed f n P -> filed f n P'.
Proof.
  intros Hf Hev HX [Hs Hc]. split; [by eapply PageStore.evolves_size|by eapply PageStore.evolves_all_clean].
Qed.

Lemma filed_set_mem f n P loc b : is_Some (mem P !! loc) -> filed f n P -> filed f n (PageStore.set_mem loc b P).
Proof.
  intros Hm [Hs Hc]. split; [done|]. intros k Hk s c. rewrite PageStore.resident_set_mem by done.
  destruct (BufferPoolSpec.resident P k) as [[s0 c0]|] eqn:E; [|done]. intros [= <- _]. by eapply Hc.
Qed.

(** A page that was changed in memory goes back to the pool and to disk: it
    becomes durable, and the file grows by one page if it was the next. *)
Lemma commit_page E A P k ref pg b n :
  store_but (also k E) A P -> good k -> in_slot P k ref pg b -> 0 <= PageID k <= n -> filed (FileID k) n P ->
  triple (UpdatePage k (Some pg) ;;; FlushPage k) P (fun r P' =>
    r = Ok tt ->
    store_but E (put k b A) P' /\ spares (eq k) P P' /\ filed (FileID k) (Z.max n (PageID k + 1)) P' /\
    forall g m, Filepath.simple_name g -> g <> FileID k -> filed g m P -> filed g m P').
Proof.
  intros Hst Hg Hin Hid Hfiled. pose proof Hg as [Hfk Hidr]. apply triple_bind.
  eapply triple_mono; [by apply (PageStore.update_page root0 root_nonempty E A P k ref pg b)|].
  intros r1 P1 _ (-> & Hst1 & Hev1 & Hd1 & s & Hres1 & Hdirty & Hpg).
  destruct (PageStore.store_ok _ _ _ _ Hst1) as [OK1 Hsz1].
  pose proof (PageStore.FlushPage_disk root0 P1 k s b OK1 Hres1 Hdirty) as Hfd. cbv zeta in Hfd.
  eapply triple_mono; [eapply (triple_and_post _ _ _ _
    (PageStore.flush_page root0 root_nonempty P1 k OK1) Hfd)|].
  intros r2 P2 _ [(Hev2 & _ & Hfl) [Hdisk Hw]] ->. specialize (Hw eq_refl).
  split; [by eapply PageStore.store_evolves|].
  split. { etrans; [by apply PageStore.spares_evolves|]. apply (PageStore.spares_mono root0 no_key); [by intros ? []|by apply PageStore.spares_evolves]. }
  destruct (BufferPoolSpec.flushed_clean _ _ _ _ Hfl) as [Hkeep Hk].
  assert (Hv : valid_buf b) by apply Hin.
  assert (Hother : forall g m, Filepath.simple_name g -> g <> FileID k -> filed g m P -> filed g m P2).
  { intros g m Hg' Hne Hf. eapply filed_evolves; [done|exact Hev2|by intros ? []|].
    eapply filed_evolves; [done|exact Hev1| |done]. by intros k' <-. }
  split; [|done]. destruct Hfiled as [Hsize Hclean]. split.
  - assert (Hsize1 : size_is (FileID k) n (disk P1)).
    { eapply PageStore.disk_moves_size; [done|exact Hfk| |exact Hd1|done]. intros k' Hw' _ Hf.
      destruct Hw' as (s' & b' & Hr' & Hd'); [by intros []|]. by rewrite (Hclean k' Hf s' b' Hr') in Hd'. }
    rewrite Hdisk. unfold PageStore.size_is in *. destruct (decide (PageID k = n)) as [<-|Hne].
    + rewrite Z.max_r by lia.
      destruct (pfm_write _ _ (disk P1)) as [rw d'] eqn:Ew. cbn in Hw. subst rw.
      pose proof (size_end _ {| pageID := PageID k; buf := b |} _ d' Hv Hidr Hsize1 Ew) as Hs. cbn in *. lia.
    + rewrite Z.max_l by lia. apply size_inside; [done..|]. cbn. unfold PageSize. lia.
  - intros k' Hf. destruct (decide (k' = k)) as [->|Hne]; [by apply Hk|]. apply Hkeep.
    intros s' b' Hr'. destruct (BufferPoolSpec.ev_kept _ _ _ _ _ (PageStore.ev_pool _ _ _ _ Hev1) k' s' b' (not_eq_sym Hne) Hr')
      as [(s0 & b0 & H0 & _ & Hd)|[Hd _]]; [|done].
    destruct (bs_dirty s'); [|done]. specialize (Hclean k' Hf s0 b0 H0). by rewrite Hd in Hclean.
Qed.
(** ** A catalog file as a log

    [journal A P f dss]: in the store [A], page [i] of [f] holds the records
    [dss !! i], and the file on disk has exactly these pages. *)
Definition page_key f (i : nat) : PageKey := NewPageKey f (Z.of_nat i).

Record journal A P f (dss : list (list (list byte))) : Prop := {
  j_filed : filed f (Z.of_nat (length dss)) P;
  j_pages : forall i ds, dss !! i = Some ds -> exists b, A (page_key f i) = Some b /\
    page_repr {| pageID := Z.of_nat i; buf := b |} ds
}.

(** Every catalog file has at most this many pages. *)
Definition max_pages : Z := 2 ^ 31 - 2.

(** The manager [cm] stands on the logs [J]; the store is known but for the
    keys [E], which others are changing. *)
Record stands E A (J : string -> list (list (list byte))) (cm : t R D) : Prop := {
  st_root : DefaultCatalogManager.root cm = root0;
  st_store : store_but E A (bufferPool cm);
  st_journal : forall f, f ∈ catalogFiles -> journal A (bufferPool cm) f (J f)
}.

Lemma catalog_simple f : f ∈ catalogFiles -> Filepath.simple_name f.
Proof. revert f. apply (Forall_forall Filepath.simple_name). by apply (bool_decide_unpack _); vm_compute. Qed.

Definition with_pool P (cm : t R D) : t R D :=
  {| DefaultCatalogManager.root := DefaultCatalogManager.root cm; bufferPool := P; cat := cat cm |}.

Lemma triple_on_pool {B} (m : ST (Pool R D) B) cm Q :
  triple m (bufferPool cm) (fun r P' => Q r (with_pool P' cm)) -> triple (on_pool m) cm Q.
Proof. unfold triple, on_pool, with_pool. by destruct (m (bufferPool cm)). Qed.

Lemma journal_evolves A P P' f dss :
  f ∈ catalogFiles -> evolves no_key P P' -> journal A P f dss -> journal A P' f dss.
Proof.
  intros Hf Hev [Hfd Hp]. split; [|done]. eapply filed_evolves; [by apply catalog_simple|exact Hev|by intros ? []|done].
Qed.

Lemma stands_evolves E A J cm P :
  evolves no_key (bufferPool cm) P -> stands E A J cm -> stands E A J (with_pool P cm).
Proof.
  intros Hev [Hr Hs Hj]. split; [done|by eapply PageStore.store_evolves|].
  intros f Hf. cbn. eapply journal_evolves; [done|exact Hev|auto].
Qed.

(** A call that leaves pages and sizes as they are on disk. *)
Lemma stands_disk E A J cm d' :
  (forall p, file_size d' p = file_size (disk (bufferPool cm)) p) ->
  (forall p id, stored d' p id = stored (disk (bufferPool cm)) p id) ->
  (reliable -> healthy (disk (bufferPool cm)) -> healthy d') ->
  stands E A J cm -> stands E A J (with_pool (with_disk d' (bufferPool cm)) cm).
Proof.
  intros Hz Hst Hd [Hr Hs Hj]. split; [done|by apply PageStore.store_disk|].
  intros f Hf. destruct (Hj f Hf) as [[Hs1 Hc1] Hp]. split; [|done]. split; [|done].
    unfold PageStore.size_is in *. cbn. by rewrite Hz.
Qed.

Lemma pageCount_spec E A J cm f :
  stands E A J cm -> f ∈ catalogFiles ->
  triple (pageCount f) cm (fun r cm' => stands E A J cm' /\ cat cm' = cat cm /\ spares no_key (bufferPool cm) (bufferPool cm') /\
    (reliable -> exists n, r = Ok n) /\ forall n, r = Ok n -> n = Z.of_nat (length (J f))).
Proof.
  intros Hst Hf. destruct (st_journal _ _ _ _ Hst f Hf) as [[Hsize _] _]. unfold PageStore.size_is in Hsize.
  unfold pageCount, Stat. apply triple_bind, triple_bind, triple_get, triple_on_pool.
  rewrite (st_root _ _ _ _ Hst).
  destruct (os_stat_law (disk (bufferPool cm)) (Filepath.Join root0 f)) as (r & d' & Eo & Hz & Hs & Hr).
  unfold on_disk, triple.
  assert (Hsure : reliable -> r = Ok (file_size (disk (bufferPool cm)) (Filepath.Join root0 f))).
  { intros Hrel. destruct (os_stat_reliable (disk (bufferPool cm)) (Filepath.Join root0 f) Hrel) as [Hok _]; [|by rewrite Eo in Hok].
    by apply (PageStore.store_calm _ _ _ _ (st_store _ _ _ _ Hst)). }
  rewrite Eo. cbn [fst snd].
  pose proof (stands_disk E A J cm d' Hz Hs (stat_healthy _ _ _ _ Eo) Hst) as Hst'.
  assert (Hsp : spares no_key (bufferPool cm) (with_disk d' (bufferPool cm))) by by apply PageStore.spares_disk.
  destruct Hr as [->|[e ->]]; [|split_and!; try done; intros Hrel; discriminate (Hsure Hrel)]. split; [done|].
  destruct (file_size (disk (bufferPool cm)) (Filepath.Join root0 f)) as [size|]; cbn in Hsize.
  2:{ split; [done|]. split; [done|]. split; [done|]. split; [done|]. split; [by eauto|]. intros n [= <-]. unfold PageSize in Hsize. lia. }
  subst size. destruct (Z.eqb_spec (Z.of_nat (length (J f)) * PageSize) 0) as [E0|E0].
  { split; [done|]. split; [done|]. split; [done|]. split; [done|]. split; [by eauto|]. intros n [= <-]. unfold PageSize in E0. lia. }
  rewrite Z.rem_mul by (unfold PageSize; lia). cbn [Z.eqb negb].
  split; [done|]. split; [done|]. split; [done|]. split; [done|]. split; [by eauto|]. intros n [= <-]. rewrite Z.quot_mul; [done|unfold PageSize; lia].
Qed.

(** The logs after page [i] of [f] became [ds]. *)
Definition log_page f (i : nat) (ds : list (list byte)) (J : string -> list (list (list byte))) :
    string -> list (list (list byte)) :=
  fun g => if decide (g = f) then take i (J f) ++ [ds] ++ drop (S i) (J f) else J g.

(** The journals after page [i] of [f] got the bytes [b]. *)
Lemma journals_put A J cm k f i b ds P :
  f ∈ catalogFiles -> k = page_key f i -> (i <= length (J f))%nat ->
  page_repr {| pageID := Z.of_nat i; buf := b |} ds ->
  (forall g, g ∈ catalogFiles -> journal A (bufferPool cm) g (J g)) ->
  filed f (Z.max (Z.of_nat (length (J f))) (PageID k + 1)) P ->
  (forall g m, Filepath.simple_name g -> g <> FileID k -> filed g m (bufferPool cm) -> filed g m P) ->
  forall g, g ∈ catalogFiles -> journal (put k b A) P g (log_page f i ds J g).
Proof.
  intros Hf -> Hi HR Hj Hfd Ho g Hg. unfold log_page. destruct (decide (g = f)) as [->|Hne].
  - split.
    + destruct (decide (i = length (J f))) as [->|Hlt].
      * rewrite firstn_all, drop_ge by lia. cbn in *.
        replace (Z.of_nat (length (J f ++ [ds]))) with (Z.max (Z.of_nat (length (J f))) (Z.of_nat (length (J f)) + 1)); [done|].
        rewrite length_app. cbn. lia.
      * cbn in Hfd. replace (Z.of_nat (length (take i (J f) ++ [ds] ++ drop (S i) (J f))))
          with (Z.max (Z.of_nat (length (J f))) (Z.of_nat i + 1)); [done|].
        rewrite !length_app, length_take, length_drop. cbn. lia.
    + intros j ds' Hd. unfold PageStore.put. destruct (decide (j = i)) as [->|Hji].
      * rewrite lookup_app_r in Hd by (rewrite length_take; lia).
        rewrite length_take, Nat.min_l, Nat.sub_diag in Hd by lia. injection Hd as <-.
        exists b. by rewrite decide_True.
      * rewrite decide_False by (intros [= ?]; lia).
        destruct (Hj f Hf) as [_ Hp]. apply Hp.
        destruct (decide (j < i)%nat) as [Hlt|Hge].
        -- rewrite lookup_app_l in Hd by (rewrite length_take; lia). by rewrite lookup_take_lt in Hd.
        -- rewrite lookup_app_r in Hd by (rewrite length_take; lia). rewrite length_take, Nat.min_l in Hd by lia.
           destruct (j - i)%nat as [|q] eqn:Eq; [lia|].
           change (drop (S i) (J f) !! q = Some ds') in Hd. rewrite lookup_drop in Hd.
           by replace j with (S i + q)%nat by lia.
  - destruct (Hj g Hg) as [Hfg Hp]. split.
    + apply Ho; [by apply catalog_simple|done|done].
    + intros j ds' Hd. unfold PageStore.put. rewrite decide_False; [by apply Hp|]. intros [= ? _]. done.
Qed.
(** ** Appending a record *)

(** No page of a catalog file is being changed by others. *)
Definition catalog_untouched E : Prop := forall k, E k -> FileID k ∉ catalogFiles.

Lemma catalog_free E f i : f ∈ catalogFiles -> catalog_untouched E -> ~ E (page_key f i).
Proof. intros Hf HE He. by apply (HE _ He). Qed.

(** Two stores that agree outside the file [f]. *)
Definition elsewhere f A A' : Prop := forall k, FileID k <> f -> A' k = A k.

Lemma elsewhere_put f i b A : elsewhere f A (put (page_key f i) b A).
Proof. intros k Hk. unfold PageStore.put. rewrite decide_False; [done|]. by intros ->. Qed.


Definition in_file f k : Prop := FileID k = f.

(** The end of both branches of [appendRecord]. *)
Lemma commit_record E A J cm f (i : nat) ref pg b ds :
  f ∈ catalogFiles -> (i <= length (J f))%nat -> Z.of_nat i < 2 ^ 31 ->
  DefaultCatalogManager.root cm = root0 -> store_but (also (page_key f i) E) A (bufferPool cm) ->
  (forall g, g ∈ catalogFiles -> journal A (bufferPool cm) g (J g)) ->
  in_slot (bufferPool cm) (page_key f i) ref pg b ->
  page_repr {| pageID := Z.of_nat i; buf := b |} ds ->
  triple (on_pool (UpdatePage (page_key f i) (Some pg)) ;;; on_pool (FlushPage (page_key f i))) cm (fun r cm' =>
    r = Ok tt -> cat cm' = cat cm /\ spares (eq (page_key f i)) (bufferPool cm) (bufferPool cm') /\
      stands E (put (page_key f i) b A) (log_page f i ds J) cm').
Proof.
  intros Hf Hi Hi31 Hroot Hst Hj Hin HR. set (k := page_key f i).
  assert (Hcomm : triple (UpdatePage k (Some pg) ;;; FlushPage k) (bufferPool cm) (fun r P' => r = Ok tt ->
    spares (eq k) (bufferPool cm) P' /\ stands E (put k b A) (log_page f i ds J) (with_pool P' cm))).
  { eapply triple_mono; [apply (commit_page E A (bufferPool cm) k ref pg b (Z.of_nat (length (J f))))|]; try done.
    - split; [by apply catalog_simple|cbn; lia].
    - cbn. lia.
    - apply (Hj f Hf).
    - intros r P' _ Hok Hr. destruct (Hok Hr) as (Hs & Hsp & Hfd & Ho). split; [done|]. split; [done|done|]. cbn.
      by eapply (journals_put A J cm k f i b ds P'). }
  unfold triple in *. unfold sbind, on_pool in *.
  destruct (UpdatePage k (Some pg) (bufferPool cm)) as [[[]|e|] P1]; [|by split|by destruct Hcomm].
  cbn [bufferPool cat fst snd DefaultCatalogManager.root] in *. destruct (FlushPage k P1) as [r P2].
  cbn [fst snd] in *. destruct Hcomm as [Hnp Hc]. split; [done|].
  intros Hr. split; [done|]. by apply Hc.
Qed.

Lemma appendToNew_spec E A J cm f data :
  stands E A J cm -> f ∈ catalogFiles -> Z.of_nat (length (J f)) < 2 ^ 31 ->
  triple (appendToNew (page_key f (length (J f))) data) cm (fun r cm' =>
    r = Ok tt -> cat cm' = cat cm /\ spares (in_file f) (bufferPool cm) (bufferPool cm') /\
      exists A', stands E A' (log_page f (length (J f)) [data] J) cm' /\ elsewhere f A A').
Proof.
  intros Hst Hf Hlen. set (k := page_key f (length (J f))).
  assert (Hg : good k) by (split; [by apply catalog_simple|cbn; lia]).
  unfold appendToNew. apply triple_bind, triple_on_pool.
  eapply triple_mono; [apply (PageStore.new_array root0 E A); apply (st_store _ _ _ _ Hst)|].
  intros r1 P1 _ (pg & b & -> & Hs1 & Hev1 & Hb & Hid & HR & Hun & _).
  pose proof (stands_evolves _ _ _ _ _ Hev1 Hst) as Hst1. set (cm1 := with_pool P1 cm) in *.
  assert (Hpg : BufferPoolSpec.page_for k pg P1 b).
  { split; [done|]. split; [done|]. by eapply (PageStore.repr_valid {| pageID := _; buf := b |}). }
  apply triple_bind, triple_on_pool.
  eapply triple_mono; [by apply (PageStore.enter_page root0 root_nonempty E A P1 k pg b)|].
  intros r2 P2 _ [Hd2 H2]. destruct r2 as [ref|e|]; [|done..].
  destruct H2 as (Hs2 & Hev2 & Hin2 & s & Hres2 & Hclean2).
  assert (Hj2 : forall g, g ∈ catalogFiles -> journal A P2 g (J g)).
  { intros g Hgf. destruct (st_journal _ _ _ _ Hst1 g Hgf) as [Hfd Hp]. split; [|done].
    destruct (decide (g = f)) as [->|Hne].
    - destruct Hfd as [Hsz Hcl]. split.
      + eapply PageStore.disk_moves_size; [done|by apply catalog_simple| |exact Hd2|done].
        intros k' Hw _ Hk'. destruct Hw as (s' & b' & Hr' & Hd'); [by intros []|].
        by rewrite (Hcl k' Hk' s' b' Hr') in Hd'.
      + intros k' Hk' s' b' Hr'. destruct (decide (k' = k)) as [->|Hne]; [congruence|].
        destruct (BufferPoolSpec.ev_kept _ _ _ _ _ (PageStore.ev_pool _ _ _ _ Hev2) k' s' b' (not_eq_sym Hne) Hr')
          as [(s0 & b0 & H0 & _ & Hd)|[Hd _]]; [|done].
        destruct (bs_dirty s'); [|done]. specialize (Hcl k' Hk' s0 b0 H0). by rewrite Hd in Hcl.
    - eapply filed_evolves; [by apply catalog_simple|exact Hev2| |done]. intros k' <-. cbn. congruence. }
  apply triple_bind, triple_on_pool.
  pose proof (PageStore.Write_run P2 k pg b [] data (proj2 (proj2 Hin2)) HR) as Hw.
  destruct (PageSpec.insert [] data) as [ds|] eqn:Ei.
  2:{ unfold triple. change (bufferPool (with_pool P2 cm1)) with P2. rewrite Hw. by split. }
  destruct Hw as (b' & Hw & HR' & Hv'). eapply BufferPoolSpec.triple_run; [exact Hw|]. cbn beta iota.
  assert (ds = [data]) as -> by (unfold PageSpec.insert in Ei; case_decide; [by injection Ei as <-|done]).
  destruct (PageStore.poke root0 (also k E) (also k E) A P2 k ref pg b b' Hs2) as [Hs3 Hin3]; [done|by left|done..|].
  eapply triple_mono; [apply (commit_record E A J _ f (length (J f)) ref pg b' [data]); try done; [apply (st_root _ _ _ _ Hst)|]|].
  2:{ intros r cm' _ Hok Hr. destruct (Hok Hr) as (-> & Hsp & Hst'). split; [done|]. split; [|eauto using elsewhere_put].
      assert (Hin_f : forall k', k = k' -> in_file f k') by by intros k' <-.
      etrans; [eapply PageStore.spares_mono; [|by apply PageStore.spares_evolves]; by intros ? []|].
      etrans; [eapply PageStore.spares_mono; [exact Hin_f|by apply PageStore.spares_evolves]|].
      etrans; [|eapply PageStore.spares_mono; [exact Hin_f|exact Hsp]]. apply PageStore.spares_set_mem. eexists. apply Hin2. }
  intros g Hgf. destruct (Hj2 g Hgf) as [Hfd Hp]. split; [|done]. apply filed_set_mem; [|done]. eexists. apply Hin2.
Qed.
(** [appendRecord] adds the record to the log of its file; every page of the
    log is on disk when it reports success. *)
Definition appended f (data : list byte) (J J' : string -> list (list (list byte))) : Prop :=
  concat (J' f) = concat (J f) ++ [data] /\ (length (J' f) <= S (length (J f)))%nat /\
  forall g, g <> f -> J' g = J g.

Lemma log_page_end f data J : appended f data J (log_page f (length (J f)) [data] J).
Proof.
  unfold appended, log_page. rewrite !decide_True by done. rewrite firstn_all, drop_ge by lia. split_and!.
  - by rewrite concat_app.
  - rewrite length_app. cbn. lia.
  - intros g Hg. by rewrite decide_False.
Qed.

Lemma log_page_last f data J i ds :
  J f !! i = Some ds -> length (J f) = S i -> appended f data J (log_page f i (ds ++ [data]) J).
Proof.
  intros Hi Hl. unfold appended, log_page. rewrite !decide_True by done. rewrite (drop_ge (J f)) by lia. split_and!.
  - rewrite concat_app. cbn. rewrite app_nil_r. rewrite <- (take_drop_middle _ _ _ Hi) at 2.
    rewrite (drop_ge (J f)) by lia. rewrite concat_app. cbn. by rewrite app_nil_r, app_assoc.
  - rewrite length_app, length_take. cbn. lia.
  - intros g Hg. by rewrite decide_False.
Qed.

Lemma appendRecord_spec E A J cm f data :
  catalog_untouched E -> stands E A J cm -> f ∈ catalogFiles -> Z.of_nat (length (J f)) < 2 ^ 31 ->
  triple (appendRecord f data) cm (fun r cm' =>
    r = Ok tt -> cat cm' = cat cm /\ spares (in_file f) (bufferPool cm) (bufferPool cm') /\
      exists A' J', stands E A' J' cm' /\ appended f data J J' /\ elsewhere f A A').
Proof.
  intros HE Hst Hf Hlen. unfold appendRecord. apply triple_bind.
  eapply triple_mono; [by apply pageCount_spec|]. intros r0 cm0 _ (Hst0 & Hc0 & Hsp0 & _ & Hn).
  apply (PageStore.spares_mono root0 no_key (in_file f)) in Hsp0; [|by intros ? []].
  destruct r0 as [n|e|]; [|done..]. specialize (Hn n eq_refl). subst n.
  assert (Hnew : forall cm1, stands E A J cm1 -> cat cm1 = cat cm -> spares (in_file f) (bufferPool cm) (bufferPool cm1) ->
    triple (appendToNew (page_key f (length (J f))) data) cm1 (fun r cm' =>
      r = Ok tt -> cat cm' = cat cm /\ spares (in_file f) (bufferPool cm) (bufferPool cm') /\
        exists A' J', stands E A' J' cm' /\ appended f data J J' /\ elsewhere f A A')).
  { intros cm1 Hst1 Hc1 Hsp1. eapply triple_mono; [by apply (appendToNew_spec E A)|]. intros r cm' _ Hok Hr.
    destruct (Hok Hr) as (Hc & Hsp & A' & Hst' & He). split; [congruence|]. split; [by etrans|]. exists A', (log_page f (length (J f)) [data] J).
    split; [done|]. split; [apply log_page_end|done]. }
  destruct (Z.eqb_spec (Z.of_nat (length (J f))) 0) as [E0|E0].
  { replace (NewPageKey f 0) with (page_key f (length (J f))); [by apply Hnew|]. unfold page_key. by rewrite E0. }
  destruct (lookup_lt_is_Some_2 (J f) (length (J f) - 1)) as [ds Hds]; [lia|].
  set (i := (length (J f) - 1)%nat) in *. set (k := page_key f i).
  replace (NewPageKey f (Z.of_nat (length (J f)) - 1)) with k by (unfold k, page_key, i; f_equal; lia).
  assert (Hg : good k) by (split; [by apply catalog_simple|cbn; lia]).
  apply triple_bind, triple_on_pool.
  eapply triple_mono; [apply (PageStore.get_page root0 root_nonempty E A _ k); [apply (st_store _ _ _ _ Hst0)|done]|].
  intros r1 P1 _ (Hs1 & Hev1 & Hslot & _). destruct r1 as [ref|e|]; [|done..].
  destruct (Hslot ref eq_refl) as (pg & b & Hin & HA). specialize (HA (catalog_free E f i Hf HE)).
  pose proof (stands_evolves _ _ _ _ _ Hev1 Hst0) as Hst1. set (cm1 := with_pool P1 cm0) in *.
  assert (Hsp1 : spares (in_file f) (bufferPool cm) P1).
  { etrans; [exact Hsp0|]. eapply PageStore.spares_mono; [|by apply PageStore.spares_evolves]. by intros ? []. }
  destruct (j_pages _ _ _ _ (st_journal _ _ _ _ Hst1 f Hf) i ds Hds) as (b0 & HA0 & HR).
  fold k in HA0. rewrite HA in HA0. injection HA0 as <-.
  apply triple_bind, triple_on_pool. eapply BufferPoolSpec.triple_run; [exact (PageStore.Page_run P1 k ref pg b Hin)|].
  cbn beta iota. apply triple_bind, triple_on_pool. change (bufferPool (with_pool P1 cm1)) with P1.
  pose proof (PageStore.Write_run P1 k pg b ds data (proj2 (proj2 Hin)) HR) as Hw.
  destruct (PageSpec.insert ds data) as [ds'|] eqn:Ei.
  2:{ eapply BufferPoolSpec.triple_run; [unfold skip_error; by rewrite Hw|]. cbn [negb]. by apply Hnew. }
  destruct Hw as (b' & Hw & HR' & Hv').
  eapply BufferPoolSpec.triple_run; [unfold skip_error; by rewrite Hw|]. cbn [negb].
  assert (ds' = ds ++ [data]) as -> by (unfold PageSpec.insert in Ei; case_decide; [by injection Ei as <-|done]).
  destruct (PageStore.poke root0 E (also k E) A P1 k ref pg b b' Hs1) as [Hs3 Hin3]; [by right|by left|done..|].
  eapply triple_mono; [apply (commit_record E A J _ f i ref pg b' (ds ++ [data])); try done; [lia|lia|apply (st_root _ _ _ _ Hst0)|]|].
  - intros g Hgf. destruct (st_journal _ _ _ _ Hst1 g Hgf) as [Hfd Hp]. split; [|done].
    apply filed_set_mem; [|done]. eexists. apply Hin.
  - intros r cm' _ Hok Hr. destruct (Hok Hr) as (-> & Hsp & Hst'). split; [done|]. split.
    { etrans; [exact Hsp1|]. etrans; [|eapply PageStore.spares_mono; [|exact Hsp]; by intros ? <-].
      apply PageStore.spares_set_mem. eexists. apply Hin. }
    eexists _, _. split; [exact Hst'|].
    split; [apply log_page_last; [done|lia]|apply elsewhere_put].
Qed.
(** ** Reading the logs back

    A call that reads fails only when the disk may fail. *)
Definition surely (r : outcome unit) (Q : Prop) : Prop := (reliable -> r = Ok tt) /\ (r = Ok tt -> Q).

Lemma surely_ok (Q : Prop) : Q -> surely (Ok tt) Q.
Proof. by split. Qed.
Lemma surely_err e (Q Q' : Prop) : surely (Err e) Q -> surely (Err e) Q'.
Proof. intros [H _]. by split. Qed.
Lemma surely_mono r (Q Q' : Prop) : (Q -> Q') -> surely r Q -> surely r Q'.
Proof. intros HQ [H1 H2]. split; auto. Qed.

Definition with_cat (m : maps) (cm : t R D) : t R D :=
  {| DefaultCatalogManager.root := DefaultCatalogManager.root cm; bufferPool := bufferPool cm; cat := m |}.

(** On the records [recs], the consumer only applies [step] to the maps. *)
Definition consumes (consumer : list byte -> ST (t R D) unit) (step : list byte -> maps -> maps)
    (recs : list (list byte)) : Prop :=
  forall data cm, data ∈ recs -> consumer data cm = (Ok tt, with_cat (step data (cat cm)) cm).

Definition replay_with (step : list byte -> maps -> maps) (recs : list (list byte)) (m : maps) : maps :=
  fold_left (fun m data => step data m) recs m.

Lemma read_records_run k pg b ds consumer step fuel i cm :
  BufferPoolSpec.page_for k pg (bufferPool cm) b -> page_repr {| pageID := PageID k; buf := b |} ds ->
  consumes consumer step ds -> (length ds <= i + fuel)%nat ->
  read_records pg consumer (Z.of_nat i) fuel cm = (Ok tt, with_cat (replay_with step (drop i ds) (cat cm)) cm).
Proof.
  intros Hpg HR Hcons. revert i cm Hpg. induction fuel as [|fuel IH]; intros i cm Hpg Hi; cbn [read_records].
  - assert (Hsz : on_pool (PageStore.Size pg) cm = (Ok (Z.of_nat (length ds)), cm)).
    { unfold on_pool. rewrite (PageStore.Size_run _ _ _ _ _ Hpg HR). by destruct cm. }
    erewrite sbind_ok by exact Hsz. rewrite (proj2 (Z.leb_le _ _)) by lia. rewrite drop_ge by lia. by destruct cm.
  - assert (Hsz : on_pool (PageStore.Size pg) cm = (Ok (Z.of_nat (length ds)), cm)).
    { unfold on_pool. rewrite (PageStore.Size_run _ _ _ _ _ Hpg HR). by destruct cm. }
    erewrite sbind_ok by exact Hsz. destruct (Z.leb_spec (Z.of_nat (length ds)) (Z.of_nat i)).
    { rewrite drop_ge by lia. by destruct cm. }
    destruct (lookup_lt_is_Some_2 ds i) as [data Hd]; [lia|].
    assert (Hrd : on_pool (PageStore.Read pg (Z.of_nat i)) cm = (Ok data, cm)).
    { unfold on_pool. rewrite (PageStore.Read_run _ _ _ _ _ Hpg), (Read_repr _ _ _ HR), decide_True, Nat2Z.id, Hd by lia.
      by destruct cm. }
    erewrite sbind_ok by exact Hrd.
    erewrite sbind_ok by (apply Hcons; by eapply list_elem_of_lookup_2).
    replace (Z.of_nat i + 1) with (Z.of_nat (S i)) by lia. rewrite IH; [|done|lia].
    by rewrite (drop_S _ _ _ Hd).
Qed.

Lemma read_pages_spec E A J f consumer step n i cm :
  catalog_untouched E -> stands E A J cm -> f ∈ catalogFiles -> (i + n = length (J f))%nat -> Z.of_nat (length (J f)) < 2 ^ 31 ->
  consumes consumer step (concat (J f)) ->
  triple (read_pages f consumer (Z.of_nat i) n) cm (fun r cm' =>
    surely r (stands E A J cm' /\ cat cm' = replay_with step (concat (drop i (J f))) (cat cm))).
Proof.
  intros HE Hst Hf Hn Hlen Hcons. revert i cm Hn Hst. induction n as [|n IH]; intros i cm Hn Hst; cbn [read_pages].
  { apply triple_ret, surely_ok. rewrite drop_ge by lia. done. }
  set (k := page_key f i). fold (page_key f i). fold k.
  assert (Hg : good k) by (split; [by apply catalog_simple|cbn; lia]).
  destruct (lookup_lt_is_Some_2 (J f) i) as [ds Hds]; [lia|].
  apply triple_bind, triple_on_pool.
  eapply triple_mono; [apply (PageStore.get_page root0 root_nonempty E A _ k); [apply (st_store _ _ _ _ Hst)|done]|].
  intros r1 P1 _ (Hs1 & Hev1 & Hslot & Hsure). destruct r1 as [ref|e|]; [|split; [|done]|done].
  2:{ intros Hrel. destruct (Hsure Hrel) as [ref ?]; [by apply catalog_free| |done].
      destruct (j_pages _ _ _ _ (st_journal _ _ _ _ Hst f Hf) i ds Hds) as (b0 & HA0 & _). by exists b0. }
  destruct (Hslot ref eq_refl) as (pg & b & Hin & HA). specialize (HA (catalog_free E f i Hf HE)).
  pose proof (stands_evolves _ _ _ _ _ Hev1 Hst) as Hst1. set (cm1 := with_pool P1 cm) in *.
  destruct (j_pages _ _ _ _ (st_journal _ _ _ _ Hst1 f Hf) i ds Hds) as (b0 & HA0 & HR).
  fold k in HA0. rewrite HA in HA0. injection HA0 as <-.
  apply triple_bind, triple_on_pool. eapply BufferPoolSpec.triple_run; [exact (PageStore.Page_run P1 k ref pg b Hin)|].
  cbn beta iota. change (with_pool P1 cm1) with cm1. apply triple_bind.
  assert (Hrun : read_records pg consumer 0 max_records cm1 = (Ok tt, with_cat (replay_with step ds (cat cm1)) cm1)).
  { change 0 with (Z.of_nat 0). erewrite (read_records_run k pg b ds consumer step max_records 0 cm1); [done| |exact HR| |].
    - apply Hin.
    - intros data cm2 Hd. apply Hcons, list_elem_of_In, in_concat. exists ds.
      split; [|by apply list_elem_of_In]. apply list_elem_of_In. by eapply list_elem_of_lookup_2.
    - pose proof (repr_fits _ _ HR) as Hfit. unfold PageSpec.used, PageSpec.capacity, max_records in *. lia. }
  unfold triple at 1. rewrite Hrun. split; [done|]. cbn [fst snd].
  replace (Z.of_nat i + 1) with (Z.of_nat (S i)) by lia.
  eapply triple_mono; [apply IH; [lia|]|].
  - destruct Hst1. by split.
  - intros r cm' _. apply surely_mono. intros [Hst' ->]. split; [done|].
    rewrite (drop_S _ _ _ Hds). cbn [concat]. unfold replay_with. by rewrite fold_left_app.
Qed.

Lemma readAllRecords_spec E A J f consumer step cm :
  catalog_untouched E -> stands E A J cm -> f ∈ catalogFiles -> Z.of_nat (length (J f)) < 2 ^ 31 ->
  consumes consumer step (concat (J f)) ->
  triple (readAllRecords f consumer) cm (fun r cm' =>
    surely r (stands E A J cm' /\ cat cm' = replay_with step (concat (J f)) (cat cm))).
Proof.
  intros HE Hst Hf Hlen Hcons. unfold readAllRecords. apply triple_bind.
  eapply triple_mono; [by apply pageCount_spec|]. intros r0 cm0 _ (Hst0 & Hc0 & _ & Hsure & Hn).
  destruct r0 as [n|e|]; [|by split; [intros Hrel; destruct (Hsure Hrel)|]|done]. rewrite (Hn n eq_refl), Nat2Z.id.
  eapply triple_mono; [by apply (read_pages_spec E A J f consumer step (length (J f)) 0 cm0)|].
  intros r cm' _. apply surely_mono. intros [Hst' ->]. by rewrite Hc0.
Qed.

End journal.

Section recovery.
Context {R D : Type} `{RR : Replacer R, RL : !ReplacerLaws R, DM : PageFileManager D, DL : !PageFileLaws D}.
Context `{FT : !FileStat D, FL : !FileStatLaws D}.
Context (root0 : string) (root_nonempty : root0 <> ""%string).
Implicit Types (P : Pool R D) (k : PageKey) (A : PageKey -> option (list byte)) (f g : string).
Context (others : PageKey -> Prop) (untouched : catalog_untouched others).

Notation no_key := BufferPoolSpec.no_key.
Notation store_of := (PageStore.store_of root0).
Notation size_is := (PageStore.size_is root0).
Notation filed := (filed root0).
Notation stands := (stands root0 others).

(** ** The state of a manager and its logs *)
Record holds (J : string -> list (list (list byte))) (L : logs) : Prop := {
  h_types : decodes TypeDefinition.FromBytes (l_types L) (concat (J typesFile));
  h_tables : decodes TableDefinition.FromBytes (l_tables L) (concat (J tablesFile));
  h_columns : decodes ColumnDefinition.FromBytes (l_columns L) (concat (J columnsFile));
  h_indexes : decodes IndexDefinition.FromBytes (l_indexes L) (concat (J indexesFile))
}.

(** Oids and type oids are 32-bit integers. *)
Definition in_range (m : maps) : Prop :=
  nextTableOid m < 2 ^ 31 /\ nextColumnOid m < 2 ^ 31 /\ nextTypeOid m < 2 ^ 31 /\ nextIndexOid m < 2 ^ 31 /\
  forall o c, columnsByOid m !! o = Some c -> in_sint 32 (ColumnDefinition.typeOid c).

Record persisted (L : logs) (cm : t R D) : Prop := {
  p_logs : exists A J, stands A J cm /\ holds J L;
  p_wf : wf (cat cm);
  p_cat : cat cm = replay L;
  p_range : in_range (cat cm)
}.

(** The catalog files can grow by [n] more pages. *)
Definition disk_room (n : Z) (cm : t R D) : Prop := forall f, f ∈ catalogFiles ->
  default 0 (file_size (disk (bufferPool cm)) (Filepath.Join root0 f)) + n * PageSize <= 2 ^ 31 * PageSize.

Lemma disk_room_log A J cm n f :
  stands A J cm -> f ∈ catalogFiles -> disk_room n cm -> Z.of_nat (length (J f)) + n <= 2 ^ 31.
Proof.
  intros Hst Hf Hroom. destruct (st_journal _ _ _ _ _ Hst f Hf) as [[Hs _] _]. specialize (Hroom f Hf).
  unfold PageStore.size_is in Hs. rewrite Hs in Hroom. unfold PageSize in Hroom. lia.
Qed.

(** One append: the log of [f] grows, and there is room for one page less. *)
Lemma append_step A J cm f data n :
  stands A J cm -> f ∈ catalogFiles -> 1 <= n -> disk_room n cm ->
  triple (appendRecord f data) cm (fun r cm' =>
    r = Ok tt -> cat cm' = cat cm /\ disk_room (n - 1) cm' /\ exists A' J', stands A' J' cm' /\ appended f data J J').
Proof.
  intros Hst Hf Hn Hroom. eapply triple_mono; [apply (appendRecord_spec root0 root_nonempty others A J); [done..|]|].
  { pose proof (disk_room_log _ _ _ _ _ Hst Hf Hroom). lia. }
  intros r cm' _ Hok Hr. destruct (Hok Hr) as (Hc & _ & A' & J' & Hst' & Happ & _). split; [done|]. split; [|eauto].
  intros g Hg. destruct (st_journal _ _ _ _ _ Hst' g Hg) as [[Hs _] _]. unfold PageStore.size_is in Hs. rewrite Hs.
  pose proof (disk_room_log _ _ _ _ _ Hst Hg Hroom) as Hl. destruct Happ as (_ & Hlen & Ho). unfold PageSize.
  destruct (decide (g = f)) as [->|Hne]; [|rewrite (Ho g Hne)]; lia.
Qed.

Lemma files_in : typesFile ∈ catalogFiles /\ tablesFile ∈ catalogFiles /\ columnsFile ∈ catalogFiles /\
  indexesFile ∈ catalogFiles.
Proof using Type. clear. unfold catalogFiles. set_solver. Qed.

Lemma holds_type J J' L d bs :
  holds J L -> appended typesFile bs J J' -> TypeDefinition.FromBytes bs = Ok d -> holds J' (add_type d L).
Proof.
  intros [] (Hc & _ & Ho) Hd. split; cbn; [rewrite Hc; by apply decodes_snoc|..]; by rewrite Ho.
Qed.
Lemma holds_table J J' L d bs :
  holds J L -> appended tablesFile bs J J' -> TableDefinition.FromBytes bs = Ok d -> holds J' (add_table d L).
Proof.
  intros [] (Hc & _ & Ho) Hd. split; cbn; [|rewrite Hc; by apply decodes_snoc|..]; by rewrite Ho.
Qed.
Lemma holds_column J J' L d bs :
  holds J L -> appended columnsFile bs J J' -> ColumnDefinition.FromBytes bs = Ok d -> holds J' (add_column d L).
Proof.
  intros [] (Hc & _ & Ho) Hd. split; cbn; [| |rewrite Hc; by apply decodes_snoc|]; by rewrite Ho.
Qed.
Lemma holds_index J J' L d bs :
  holds J L -> appended indexesFile bs J J' -> IndexDefinition.FromBytes bs = Ok d -> holds J' (add_index d L).
Proof.
  intros [] (Hc & _ & Ho) Hd. split; cbn; [| | |rewrite Hc; by apply decodes_snoc]; by rewrite Ho.
Qed.

Lemma stands_with_cat A J cm m : stands A J cm -> stands A J (with_cat m cm).
Proof. by intros []. Qed.
(** ** The operations keep the logs and the maps together *)
Lemma triple_maps (f : maps -> maps) cm (Q : outcome unit -> t R D -> Prop) :
  Q (Ok tt) (with_cat (f (cat cm)) cm) -> triple (modify_maps f) cm Q.
Proof. done. Qed.

Lemma triple_get_maps cm (Q : outcome maps -> t R D -> Prop) : Q (Ok (cat cm)) cm -> triple get_maps cm Q.
Proof. done. Qed.

Lemma triple_slift {B} (x : outcome B) cm (Q : outcome B -> t R D -> Prop) :
  x <> Panic -> Q x cm -> triple (slift x) cm Q.
Proof. done. Qed.

(** Encode the definition [d], append it, go on. *)
Lemma triple_record {B C} (enc : B -> outcome (list byte)) dec d f n A J cm (k : unit -> ST (t R D) C) Q :
  codec enc dec d -> stands A J cm -> f ∈ catalogFiles -> 1 <= n -> disk_room n cm ->
  (forall bs cm' A' J', dec bs = Ok d -> cat cm' = cat cm -> disk_room (n - 1) cm' -> stands A' J' cm' ->
     appended f bs J J' -> triple (k tt) cm' Q) ->
  (forall e cm', Q (Err e) cm') ->
  triple (data <- slift (enc d) ;; x <- appendRecord f data ;; k x) cm Q.
Proof.
  intros Hc Hst Hf Hn Hroom Hgood Hbad. apply triple_bind.
  destruct Hc as [(bs & E & Hd)|[e E]]; (apply triple_slift; rewrite E; [done|]); [|done].
  apply triple_bind. eapply triple_mono; [by apply (append_step A J cm f bs n)|].
  intros [[]|e|] cm' _ Hok; [|done..]. destruct (Hok eq_refl) as (H1 & H2 & A' & J' & H3 & H4). by eapply Hgood.
Qed.

Lemma small_oid z : 0 < z -> z + 1 < 2 ^ 31 -> in_sint 32 z.
Proof. unfold in_sint. lia. Qed.

Definition protos_ok (cols : list ColumnDefinition.t) : Prop :=
  Forall (fun c => in_sint 32 (ColumnDefinition.typeOid c)) cols.

Lemma create_columns_persist L table cols pos cm n :
  persisted L cm -> is_Some (tablesByOid (cat cm) !! TableDefinition.oid table) -> in_sint 32 (TableDefinition.oid table) ->
  pos = Z.of_nat (length (columns_of (cat cm) (TableDefinition.oid table))) ->
  protos_ok cols -> nextColumnOid (cat cm) + Z.of_nat (length cols) < 2 ^ 31 ->
  pos + Z.of_nat (length cols) < 2 ^ 31 -> Z.of_nat (length cols) <= n -> disk_room n cm ->
  triple (create_columns table cols pos) cm (fun r cm' => r = Ok tt -> exists L', persisted L' cm').
Proof.
  revert L pos cm n. induction cols as [|proto cols IH]; intros L pos cm n HP Ht Hto Hpos Hty Hr1 Hr2 Hn Hroom.
  { apply triple_ret. eauto. }
  cbn [create_columns length] in *. destruct HP as [(A & J & Hst & HJ) W Hc Hrg].
  apply Forall_cons in Hty as [Hty1 Hty]. pose proof (wf_next _ W) as (? & ? & ? & ?).
  apply triple_bind, triple_get_maps. cbn beta iota. apply triple_bind, triple_maps. cbn beta iota.
  apply triple_bind, triple_slift. { unfold ColumnDefinition.New. by case_decide. }
  unfold ColumnDefinition.New. case_decide; [done|]. rewrite (int32_small pos) by lia.
  set (m := cat cm) in *. fold (bump_column m). fold (new_column m table proto pos). set (c := new_column m table proto pos).
  apply triple_bind, triple_maps. cbn beta iota.
  set (m1 := indexColumn c (bump_column m)).
  change (cat (with_cat (bump_column m) cm)) with (bump_column m). fold m1.
  assert (W1 : wf m1) by (unfold m1, c; rewrite Hpos; apply wf_new_column; [done..|lia]).
  assert (Hm1 : m1 = replay (add_column c L)).
  { unfold m1. rewrite Hc. apply replay_add_column; rewrite <- ?Hc; [done|lia|done]. }
  assert (Hcols : columns_of m1 (TableDefinition.oid table) = columns_of m (TableDefinition.oid table) ++ [c]).
  { unfold columns_of at 1. replace (columnsByTableOid m1)
      with (<[TableDefinition.oid table := columns_of m (TableDefinition.oid table) ++ [c]]> (columnsByTableOid m)).
    - by rewrite lookup_insert_eq.
    - symmetry. apply (indexColumn_end m c); [done|by apply column_fresh|done]. }
  eapply (triple_record _ ColumnDefinition.FromBytes c columnsFile n A J).
  - apply codec_column; [apply small_oid; cbn; lia|done|done|]. cbn. unfold in_sint. lia.
  - by do 2 apply stands_with_cat.
  - apply files_in.
  - lia.
  - done.
  - intros bs cm' A' J' Hd Hc' Hroom' Hst' Happ. cbn [cat with_cat] in Hc'.
    apply (IH (add_column c L) (pos + 1) cm' (n - 1)); rewrite ?Hc'; try done; try lia.
    + split; [|by rewrite Hc'|by rewrite Hc'|].
      * exists A', J'. split; [done|]. by eapply holds_column.
      * rewrite Hc'. destruct Hrg as (Hg1 & Hg2 & Hg3 & Hg4 & Hg5). split_and!; try done.
        -- change (int32 (nextColumnOid m + 1) < 2 ^ 31). rewrite int32_small; lia.
        -- intros o d Ho. change (<[nextColumnOid m := c]> (columnsByOid m) !! o = Some d) in Ho.
           apply lookup_insert_Some in Ho as [[_ <-]|[_ Ho]]; [done|by eapply Hg5].
    + rewrite Hcols, length_app. cbn. lia.
    + change (nextColumnOid m1) with (int32 (nextColumnOid m + 1)). rewrite int32_small; lia.
  - done.
Qed.

Lemma CreateTable_persist L name cols cm n :
  persisted L cm -> protos_ok cols -> nextTableOid (cat cm) + 1 < 2 ^ 31 ->
  nextColumnOid (cat cm) + Z.of_nat (length cols) < 2 ^ 31 ->
  Z.of_nat (length cols) + 1 <= n -> disk_room n cm ->
  triple (CreateTable name cols) cm (fun r cm' => forall t, r = Ok t -> exists L', persisted L' cm').
Proof.
  intros HP Hty Hr1 Hr2 Hn Hroom. pose proof HP as [(A & J & Hst & HJ) W Hc Hrg]. pose proof (wf_next _ W) as (? & ? & ? & ?).
  unfold CreateTable. apply triple_bind, triple_get_maps. cbn beta iota. set (m := cat cm) in *.
  case_decide as Hex; [done|]. apply eq_None_not_Some in Hex.
  apply triple_bind, triple_maps. cbn beta iota. fold (bump_table m).
  apply triple_bind, triple_slift. { unfold TableDefinition.New. by repeat case_match. }
  unfold TableDefinition.New. destruct (blank name); [done|]. destruct (blank "TABLE"); [done|].
  destruct (blank (pretty (nextTableOid m) +:+ ".dat")); [done|]. fold (new_table m name). set (t := new_table m name).
  apply triple_bind, triple_maps. cbn beta iota.
  change (cat (with_cat (bump_table m) cm)) with (bump_table m). set (m1 := indexTable t (bump_table m)).
  assert (W1 : wf m1) by by apply wf_new_table.
  assert (Hm1 : m1 = replay (add_table t L)).
  { unfold m1. rewrite Hc. apply replay_add_table; rewrite <- ?Hc; [done|lia|done]. }
  eapply (triple_record _ TableDefinition.FromBytes t tablesFile n A J).
  - apply codec_table; [apply small_oid; cbn; lia|done].
  - by do 2 apply stands_with_cat.
  - apply files_in.
  - lia.
  - done.
  - intros bs cm' A' J' Hd Hc' Hroom' Hst' Happ. cbn [cat with_cat] in Hc'. apply triple_bind.
    eapply triple_mono; [apply (create_columns_persist (add_table t L) t cols 0 cm' (n - 1)); rewrite ?Hc'|].
    + split; [|by rewrite Hc'|by rewrite Hc'|].
      * exists A', J'. split; [done|]. by eapply holds_table.
      * rewrite Hc'. destruct Hrg as (Hg1 & Hg2 & Hg3 & Hg4 & Hg5). split_and!; try done.
        change (int32 (nextTableOid m + 1) < 2 ^ 31). rewrite int32_small; lia.
    + cbn. by rewrite lookup_insert_eq.
    + apply small_oid; cbn; lia.
    + symmetry. exact (f_equal (fun l => Z.of_nat (length l)) (columns_of_new _ W)).
    + done.
    + done.
    + lia.
    + lia.
    + done.
    + intros [[]|e|] cm2 _ Hok; [|done..]. apply triple_ret. intros t' _. auto.
  - done.
Qed.

Lemma CreateIndex_persist L iname tname cname ty cm n :
  persisted L cm -> in_sint 32 ty -> nextIndexOid (cat cm) + 1 < 2 ^ 31 -> 1 <= n -> disk_room n cm ->
  triple (CreateIndex iname tname cname ty) cm (fun r cm' => forall d, r = Ok d -> exists L', persisted L' cm').
Proof.
  intros HP Hty Hr1 Hn Hroom. pose proof HP as [(A & J & Hst & HJ) W Hc Hrg]. pose proof (wf_next _ W) as (? & ? & ? & ?).
  unfold CreateIndex. apply triple_bind, triple_get_maps. cbn beta iota. set (m := cat cm) in *.
  case_decide as Hex; [done|]. apply eq_None_not_Some in Hex.
  destruct (tablesByName m !! tname) as [table|] eqn:Ht; [|done]. fold (columns_of m (TableDefinition.oid table)).
  destruct (list_find _ _) as [[i column]|] eqn:Ec; [|done].
  assert (Hto : tablesByOid m !! TableDefinition.oid table = Some table) by by apply (wf_tables _ W) in Ht as [_ ?].
  assert (Hco : columnsByOid m !! ColumnDefinition.oid column = Some column).
  { apply list_find_Some in Ec as (Hi & _ & _). apply list_elem_of_lookup_2 in Hi. unfold columns_of in Hi.
    destruct (columnsByTableOid m !! TableDefinition.oid table) as [l|] eqn:El; [|by apply not_elem_of_nil in Hi].
    by apply (proj2 (wf_columns _ W) _ _ El). }
  apply triple_bind, triple_maps. cbn beta iota. fold (bump_index m).
  apply triple_bind, triple_slift. { unfold IndexDefinition.New. by repeat case_match. }
  unfold IndexDefinition.New. destruct (decide (iname = "")); [done|]. destruct (decide (_ = "")); [done|].
  fold (new_index m iname table column ty). set (d := new_index m iname table column ty).
  apply triple_bind, triple_maps. cbn beta iota.
  change (cat (with_cat (bump_index m) cm)) with (bump_index m). set (m1 := indexIndex d (bump_index m)).
  assert (W1 : wf m1) by (by apply wf_new_index).
  assert (Hm1 : m1 = replay (add_index d L)).
  { unfold m1. rewrite Hc. apply replay_add_index; rewrite <- ?Hc; [done|lia|done]. }
  eapply (triple_record _ IndexDefinition.FromBytes d indexesFile n A J).
  - destruct (proj1 (wf_tables _ W) _ _ Hto) as (_ & ? & _). pose proof (wf_next_column _ W _ _ Hco).
    destruct Hrg as (Hg1 & Hg2 & _ & _ & Hg5).
    apply codec_index; cbn; try done; [apply small_oid; lia|unfold in_sint; lia|unfold in_sint; lia|by eapply Hg5].
  - by do 2 apply stands_with_cat.
  - apply files_in.
  - done.
  - done.
  - intros bs cm' A' J' Hd Hc' Hroom' Hst' Happ. cbn [cat with_cat] in Hc'. apply triple_ret. intros _ _.
    exists (add_index d L). split; [|by rewrite Hc'|by rewrite Hc'|].
    + exists A', J'. split; [done|]. by eapply holds_index.
    + rewrite Hc'. destruct Hrg as (Hg1 & Hg2 & Hg3 & Hg4 & Hg5). split_and!; try done.
      change (int32 (nextIndexOid m + 1) < 2 ^ 31). rewrite int32_small; lia.
  - done.
Qed.

Lemma UpdatePagesCount_persist L table (k : Z) cm (n : Z) :
  persisted L cm -> knows_table (cat cm) table -> in_sint 32 k -> 1 <= n -> disk_room n cm ->
  triple (UpdatePagesCount table k) cm (fun r cm' => r = Ok tt -> exists L', persisted L' cm').
Proof.
  intros HP Hk Hki Hn Hroom. pose proof HP as [(A & J & Hst & HJ) W Hc Hrg].
  unfold UpdatePagesCount. apply triple_bind, triple_slift. { unfold TableDefinition.New. by repeat case_match. }
  destruct (TableDefinition.New _ _ _ _ k) as [u|e|] eqn:Eu; [|done..].
  assert (Hu : TableDefinition.oid u = TableDefinition.oid table /\ TableDefinition.name u = TableDefinition.name table /\
    TableDefinition.pagesCount u = k).
  { unfold TableDefinition.New in Eu. repeat case_match; try done. by injection Eu as <-. }
  destruct Hu as (Huo & Hun & Hup).
  assert (Hku : knows_table (cat cm) u) by (unfold knows_table; by rewrite Huo, Hun).
  apply triple_bind, triple_maps. cbn beta iota. set (m := cat cm) in *.
  assert (W1 : wf (indexTable u m)) by by apply wf_update_table.
  assert (Hm1 : indexTable u m = replay (add_table u L)) by (rewrite Hc; apply replay_update_table; by rewrite <- Hc).
  pose proof Hku as (t0 & Ht0 & _). destruct (proj1 (wf_tables _ W) _ _ Ht0) as (_ & ? & _). destruct Hrg as (Hg1 & Hg2 & Hg3 & Hg4 & Hg5).
  apply triple_bind. destruct (codec_table u) as [(bs & E & Hd)|[e E]]; [unfold in_sint; lia|by rewrite Hup|..];
    (apply triple_slift; rewrite E; [done|]); [|done].
  eapply triple_mono; [by apply (append_step A J _ tablesFile bs n); [by apply stands_with_cat|apply files_in|..]|].
  intros r cm' _ Hok Hr'. destruct (Hok Hr') as (Hc' & _ & A' & J' & Hst' & Happ). cbn [cat with_cat] in Hc'.
  exists (add_table u L). split; [|by rewrite Hc'|by rewrite Hc'|by rewrite Hc'].
  exists A', J'. split; [done|]. by eapply holds_table.
Qed.
(** ** Starting a manager *)

(** A pool as [NewHeapBufferPoolManager] makes it, over the disk [d]. *)
Definition fresh_pool (d : D) P : Prop :=
  exists size r, NewHeapBufferPoolManager size d r root0 = Ok P /\ rep_ok r /\ rep_view r = ∅.

Definition started P : t R D :=
  {| DefaultCatalogManager.root := root0; bufferPool := P; cat := empty_maps |}.

Lemma fresh_store d P :
  fresh_pool d P -> (reliable -> healthy d) ->
  PageStore.store_but root0 no_key (BufferPoolSpec.contents root0 P) P /\ disk P = d /\
  forall k, BufferPoolSpec.resident P k = None.
Proof.
  intros (size & r & Hnew & Hrep & Hview) Hhealthy.
  destruct (BufferPoolSpec.new_pool_ok root0 root_nonempty size d r P Hnew Hrep Hview) as (OK & Hps & Hpos & Ht).
  assert (Hd : disk P = d).
  { unfold NewHeapBufferPoolManager in Hnew. repeat case_match; try done. by injection Hnew as <-. }
  assert (Hres : forall k, BufferPoolSpec.resident P k = None).
  { intros k. unfold BufferPoolSpec.resident. by rewrite Ht, lookup_empty. }
  split; [|done]. split; [split_and!; [done|lia|]|].
  - intros k Hg _. split; [|done]. intros s b. by rewrite Hres.
  - split; [intros k1 k2 s1 b1 s2 b2 _ _; by rewrite Hres|]. intros Hrel. split; [rewrite Hd; by apply Hhealthy|].
    intros k ref. by rewrite Ht, lookup_empty.
Qed.

Lemma fresh_stands d P J :
  fresh_pool d P -> (reliable -> healthy d) ->
  (forall f, f ∈ catalogFiles -> size_is f (Z.of_nat (length (J f))) d) ->
  (forall f i ds, f ∈ catalogFiles -> J f !! i = Some ds ->
     exists b, stored d (Filepath.Join root0 f) (Z.of_nat i) = Some b /\
       page_repr {| pageID := Z.of_nat i; buf := b |} ds) ->
  CatalogJournal.stands root0 no_key (BufferPoolSpec.contents root0 P) J (started P).
Proof.
  intros Hfresh Hhealthy Hsize Hpages. destruct (fresh_store d P Hfresh Hhealthy) as (Hst & Hd & Hres).
  split; [done|exact Hst|]. intros f Hf. split; [split|].
  - cbn. rewrite Hd. auto.
  - intros k _ s b. cbn. by rewrite Hres.
  - intros i ds Hi. unfold BufferPoolSpec.contents. rewrite Hres. unfold BufferPoolSpec.on_file, BufferPoolSpec.path_of.
      cbn. rewrite Hd. eauto.
Qed.

(** A later pool on the same disk finds the same logs. *)
Lemma restart_stands A J cm P :
  stands A J cm -> disk_room 0 cm -> fresh_pool (disk (bufferPool cm)) P ->
  CatalogJournal.stands root0 no_key (BufferPoolSpec.contents root0 P) J (started P).
Proof.
  intros Hst Hroom Hfresh. eapply fresh_stands; [done| | |].
  - intros Hrel. by apply (PageStore.store_calm _ _ _ _ (st_store _ _ _ _ _ Hst)).
  - intros f Hf. apply (st_journal _ _ _ _ _ Hst f Hf).
  - intros f i ds Hf Hi. destruct (st_journal _ _ _ _ _ Hst f Hf) as [[_ Hcl] Hp]. destruct (Hp i ds Hi) as (b & HA & HR).
    exists b. split; [|done]. rewrite <- HA.
    assert (Hg : BufferPoolSpec.good_key Filepath.simple_name (page_key f i)).
    { split; [by apply catalog_simple|]. pose proof (disk_room_log _ _ _ _ _ Hst Hf Hroom). apply lookup_lt_Some in Hi. cbn. lia. }
    destruct (st_store _ _ _ _ _ Hst) as [(_ & _ & Hr) _]. destruct (Hr _ Hg) as [Hc <-]; [by apply catalog_free|].
    rewrite <- (BufferPoolSpec.clean_on_file root0 (bufferPool cm) (page_key f i) (Hcl (page_key f i) eq_refl) Hc). done.
Qed.

(** One [readAllRecords] of [loadFromDisk]. *)
Definition decode_step {B} (dec : list byte -> outcome B) (ins : B -> maps -> maps) (data : list byte) (m : maps) : maps :=
  match dec data with Ok d => ins d m | _ => m end.

Lemma load_log {B} (dec : list byte -> outcome B) (ins : B -> maps -> maps) l A J cm f :
  decodes dec l (concat (J f)) -> stands A J cm -> f ∈ catalogFiles -> Z.of_nat (length (J f)) < 2 ^ 31 ->
  triple (readAllRecords f (fun data => d <- slift (dec data) ;; modify_maps (ins d))) cm (fun r cm' =>
    surely r (stands A J cm' /\ cat cm' = insert_all ins l (cat cm))).
Proof.
  intros Hd Hst Hf Hlen. eapply triple_mono; [apply (readAllRecords_spec root0 root_nonempty others A J f _ (decode_step dec ins)); try done|].
  - intros data cm0 Hin. apply list_elem_of_lookup in Hin as [i Hi].
    destruct (Forall2_lookup_r _ _ _ _ _ Hd Hi) as (d & _ & E).
    unfold sbind, slift, decode_step. by rewrite E.
  - intros r cm' _. apply surely_mono. intros [Hst' ->]. split; [done|].
    clear -Hd. generalize (cat cm). induction Hd as [|d data l recs E _ IH]; intros m; [done|].
    unfold replay_with. cbn [fold_left]. fold (replay_with (decode_step dec ins) recs (decode_step dec ins data m)).
    rewrite IH. unfold decode_step. by rewrite E.
Qed.

Lemma load_spec A J L cm :
  stands A J cm -> holds J L -> cat cm = empty_maps -> (forall f, f ∈ catalogFiles -> Z.of_nat (length (J f)) < 2 ^ 31) ->
  triple loadFromDisk cm (fun r cm' => surely r (stands A J cm' /\ cat cm' = replay L)).
Proof.
  intros Hst [H1 H2 H3 H4] Hc Hlen. destruct files_in as (F1 & F2 & F3 & F4). unfold loadFromDisk.
  apply triple_bind. eapply triple_mono; [by apply (load_log _ indexType (l_types L) A J cm); [..|apply Hlen]|].
  intros [[]|e|] cm1 _ Hok; [|by eapply surely_err|done]. destruct (proj2 Hok eq_refl) as [Hst1 Hc1].
  apply triple_bind. eapply triple_mono; [by apply (load_log _ indexTable (l_tables L) A J cm1); [..|apply Hlen]|].
  clear Hok. intros [[]|e|] cm2 _ Hok; [|by eapply surely_err|done]. destruct (proj2 Hok eq_refl) as [Hst2 Hc2].
  apply triple_bind. eapply triple_mono; [by apply (load_log _ indexColumn (l_columns L) A J cm2); [..|apply Hlen]|].
  clear Hok. intros [[]|e|] cm3 _ Hok; [|by eapply surely_err|done]. destruct (proj2 Hok eq_refl) as [Hst3 Hc3].
  apply triple_bind. eapply triple_mono; [by apply (load_log _ indexIndex (l_indexes L) A J cm3); [..|apply Hlen]|].
  clear Hok. intros [[]|e|] cm4 _ Hok; [|by eapply surely_err|done]. destruct (proj2 Hok eq_refl) as [Hst4 Hc4].
  apply triple_maps, surely_ok. split; [by apply stands_with_cat|]. cbn [cat with_cat].
  unfold replay, rebuild. by rewrite Hc4, Hc3, Hc2, Hc1, Hc.
Qed.

Definition has_builtins (m : maps) : Prop :=
  is_Some (typesByName m !! builtinInt64) /\ is_Some (typesByName m !! builtinVarchar).

Lemma ensureBuiltinType_persist L (name : string) (k : Z) cm (n : Z) :
  persisted L cm -> nextTypeOid (cat cm) + 1 < 2 ^ 31 -> in_sint 32 k -> 1 <= n -> disk_room n cm ->
  triple (ensureBuiltinType name k) cm (fun r cm' => forall b, r = Ok b ->
    (is_Some (typesByName (cat cm) !! name) -> b = false /\ cm' = cm) /\ is_Some (typesByName (cat cm') !! name) /\
    (forall s, is_Some (typesByName (cat cm) !! s) -> is_Some (typesByName (cat cm') !! s)) /\
    nextTypeOid (cat cm') <= nextTypeOid (cat cm) + 1 /\ disk_room (n - 1) cm' /\ exists L', persisted L' cm').
Proof.
  intros HP Hr Hk Hn Hroom. pose proof HP as [(A & J & Hst & HJ) W Hc Hrg]. pose proof (wf_next _ W) as (? & ? & ? & ?).
  unfold ensureBuiltinType. apply triple_bind, triple_get_maps. cbn beta iota. set (m := cat cm) in *.
  destruct (typesByName m !! name) as [d0|] eqn:Hname.
  { apply triple_ret. intros b [= <-]. fold m. split_and!; try done; [lia| |by exists L].
    intros f Hf. specialize (Hroom f Hf). unfold PageSize in *. lia. }
  apply triple_bind, triple_slift. { unfold TypeDefinition.New. by case_decide. }
  unfold TypeDefinition.New. case_decide; [done|].
  apply triple_bind, triple_maps. cbn beta iota. fold (bump_type m). apply triple_bind, triple_maps. cbn beta iota.
  fold (new_type m name k). set (d := new_type m name k).
  change (cat (with_cat (bump_type m) cm)) with (bump_type m). set (m1 := indexType d (bump_type m)).
  assert (W1 : wf m1) by by apply wf_new_type.
  assert (Hm1 : m1 = replay (add_type d L)).
  { unfold m1. rewrite Hc. apply replay_add_type; rewrite <- ?Hc; done. }
  eapply (triple_record _ TypeDefinition.FromBytes d typesFile n A J).
  - apply codec_type; [apply small_oid; cbn; lia|done].
  - by do 2 apply stands_with_cat.
  - apply files_in.
  - done.
  - done.
  - intros bs cm' A' J' Hd Hc' Hroom' Hst' Happ. cbn [cat with_cat] in Hc'. apply triple_ret. intros b [= <-].
    assert (Hn1 : nextTypeOid m1 = nextTypeOid m + 1) by (change (int32 (nextTypeOid m + 1) = nextTypeOid m + 1); apply int32_small; lia).
    rewrite Hc'. split_and!; try done.
    + change (is_Some (<[name := d]> (typesByName m) !! name)). by rewrite lookup_insert_eq.
    + intros s Hs. change (is_Some (<[name := d]> (typesByName m) !! s)).
      destruct (decide (s = name)) as [->|]; [by rewrite lookup_insert_eq|by rewrite lookup_insert_ne].
    + change (nextTypeOid m1 <= nextTypeOid m + 1). lia.
    + exists (add_type d L). split; [|by rewrite Hc'|by rewrite Hc'|].
      * exists A', J'. split; [done|]. by eapply holds_type.
      * rewrite Hc'. destruct Hrg as (Hg1 & Hg2 & Hg3 & Hg4 & Hg5). change (in_range m1). unfold in_range. rewrite Hn1.
        split_and!; try done; lia.
  - done.
Qed.

Lemma builtins_persist L cm :
  persisted L cm -> nextTypeOid (cat cm) + 2 < 2 ^ 31 -> disk_room 2 cm ->
  triple ensureBuiltinTypesPresent cm (fun r cm' => r = Ok tt ->
    has_builtins (cat cm') /\ (exists L', persisted L' cm') /\ (has_builtins (cat cm) -> cat cm' = cat cm)).
Proof.
  intros HP Hy Hroom. unfold ensureBuiltinTypesPresent.
  apply triple_bind. eapply triple_mono; [apply (ensureBuiltinType_persist L builtinInt64 8 cm 2); try done; lia|].
  intros [b1|e|] cm1 _ H1; [|done..]. destruct (H1 b1 eq_refl) as (Hb1 & Hi1 & _ & Hy1 & Hr1 & L1 & HP1).
  apply triple_bind. eapply triple_mono; [apply (ensureBuiltinType_persist L1 builtinVarchar (-1) cm1 1); try done; lia|].
  intros [b2|e|] cm2 _ H2; [|done..]. destruct (H2 b2 eq_refl) as (Hb2 & Hi2 & Hkeep & Hy2 & Hr2 & L2 & HP2).
  assert (Hsame : has_builtins (cat cm) -> cm2 = cm /\ b1 || b2 = false).
  { intros [B1 B2]. destruct (Hb1 B1) as [-> ->]. by destruct (Hb2 B2) as [-> ->]. }
  assert (Hbuilt : has_builtins (cat cm2)) by (split; [by apply Hkeep|done]).
  destruct (b1 || b2).
  - apply triple_maps. intros _.
    assert (E : recomputeNextOids (cat cm2) = cat cm2) by (rewrite (p_cat _ _ HP2); done).
    rewrite E. replace (with_cat (cat cm2) cm2) with cm2 by (by destruct cm2). split; [done|]. split; [by exists L2|].
    intros Hb. by destruct (Hsame Hb).
  - apply triple_ret. intros _. split; [done|]. split; [by exists L2|]. intros Hb. by destruct (Hsame Hb) as [-> _].
Qed.
(** *** From a pool on the logs to a running manager *)
Definition start_room (m : maps) (cm : t R D) : Prop := nextTypeOid m + 2 < 2 ^ 31 /\ disk_room 2 cm.

Lemma disk_room_same E' A A' J cm cm' n :
  stands A J cm -> CatalogJournal.stands root0 E' A' J cm' -> disk_room n cm -> disk_room n cm'.
Proof.
  intros Hst Hst' Hroom f Hf. pose proof (disk_room_log _ _ _ _ _ Hst Hf Hroom).
  destruct (st_journal _ _ _ _ _ Hst' f Hf) as [[Hs _] _]. unfold PageStore.size_is in Hs. rewrite Hs. unfold PageSize. lia.
Qed.

Lemma builtins_present cm : has_builtins (cat cm) -> ensureBuiltinTypesPresent cm = (Ok tt, cm).
Proof.
  assert (Hty : forall name (size : Z), is_Some (typesByName (cat cm) !! name) -> ensureBuiltinType name size cm = (Ok false, cm)).
  { intros name size [d Hd]. unfold ensureBuiltinType. rewrite (sbind_ok _ _ cm (cat cm) cm) by done. by rewrite Hd. }
  intros [H1 H2]. unfold ensureBuiltinTypesPresent. rewrite (sbind_ok _ _ cm false cm) by by apply Hty.
  by rewrite (sbind_ok _ _ cm false cm) by by apply Hty.
Qed.

Lemma start_persist A J L P :
  stands A J (started P) -> holds J L -> wf (replay L) -> in_range (replay L) ->
  start_room (replay L) (started P) ->
  (NewDefaultCatalogManager root0 P).1 <> Panic /\
  (reliable -> has_builtins (replay L) -> exists cm, (NewDefaultCatalogManager root0 P).1 = Ok cm) /\
  forall cm P', NewDefaultCatalogManager root0 P = (Ok cm, P') ->
    has_builtins (cat cm) /\ (exists L', persisted L' cm) /\ (has_builtins (replay L) -> cat cm = replay L).
Proof.
  intros Hst HJ W Hrg [Hy Hroom]. unfold NewDefaultCatalogManager. fold (started P).
  assert (Hrun : triple (ensureCatalogDirectory ;;; loadFromDisk ;;; ensureBuiltinTypesPresent) (started P) (fun r cm =>
    (reliable -> has_builtins (replay L) -> r = Ok tt) /\
    (r = Ok tt -> has_builtins (cat cm) /\ (exists L', persisted L' cm) /\ (has_builtins (replay L) -> cat cm = replay L)))).
  2:{ unfold triple in Hrun. destruct (sbind ensureCatalogDirectory _ (started P)) as [[[]|e|] cm1]; cbn in *;
        (split; [by destruct Hrun|]); destruct Hrun as (_ & Hsure & Hok); (split; [intros Hrel Hb; specialize (Hsure Hrel Hb); by eauto|]);
        intros cm P'; [|done..]. intros [= <- _]. by apply Hok. }
  apply triple_bind. unfold ensureCatalogDirectory. apply triple_bind, triple_get, triple_on_pool.
  assert (Hpeace : reliable -> healthy (disk P)).
  { intros Hrel. by apply (PageStore.store_calm _ _ _ _ (st_store _ _ _ _ _ Hst)). }
  destruct (os_mkdir_law (disk P) root0) as (r & d' & E & Hz & Hs & Hr).
  pose proof (stands_disk root0 others A J (started P) d' Hz Hs (mkdir_healthy _ _ _ _ E) Hst) as Hst1.
  unfold on_disk, triple at 1. cbn [bufferPool started DefaultCatalogManager.root]. rewrite E. cbn [fst snd].
  destruct Hr as [->|[e ->]].
  2:{ split; [done|]. split; [|done]. intros Hrel _. destruct (os_mkdir_reliable (disk P) root0 Hrel (Hpeace Hrel)) as [Hok _]. by rewrite E in Hok. }
  split; [done|].
  apply triple_bind. eapply triple_mono; [apply (load_spec A J L); [exact Hst1|done|done|]|].
  { intros f Hf. pose proof (disk_room_log _ _ _ _ _ Hst Hf Hroom). lia. }
  intros [[]|e|] cm2 _ Hok; [|by split; [intros Hrel; destruct (proj1 Hok Hrel)|]|done]. destruct (proj2 Hok eq_refl) as [Hst2 Hc2].
  assert (Hpresent : has_builtins (replay L) -> ensureBuiltinTypesPresent cm2 = (Ok tt, cm2)).
  { intros Hb. apply builtins_present. by rewrite Hc2. }
  eapply triple_mono; [eapply (triple_and_post _ _ _ (fun r cm3 => has_builtins (replay L) -> r = Ok tt)); [apply (builtins_persist L cm2)|]|].
  - split; rewrite ?Hc2; eauto.
  - by rewrite Hc2.
  - by apply (disk_room_same others A A J (started P) cm2).
  - intros Hb. by rewrite (Hpresent Hb).
  - intros r cm3 _ [Hok3 Hb3]. split; [auto|]. intros Hr3. destruct (Hok3 Hr3) as (Hb & HL & Hsame). rewrite Hc2 in Hsame. by split_and!.
Qed.

Definition session_pre (op : catalog_op (R:=R) (D:=D)) (cm : t R D) : Prop :=
  op_pre op (cat cm) /\
  match op with
  | OpCreateTable _ cols => protos_ok cols /\ disk_room (Z.of_nat (length cols) + 1) cm
  | OpUpdatePagesCount _ n => in_sint 32 n /\ disk_room 1 cm
  | OpCreateIndex _ _ _ ty => in_sint 32 ty /\ disk_room 1 cm
  | OpPool _ => False
  end.

Lemma replay_nil : replay {| l_types := []; l_tables := []; l_columns := []; l_indexes := [] |} = recomputeNextOids empty_maps.
Proof. done. Qed.


Lemma triple_void_ok {B} (m : ST (t R D) B) cm (Q : t R D -> Prop) :
  triple m cm (fun r cm' => forall b, r = Ok b -> Q cm') ->
  triple (m ;;; sret tt) cm (fun r cm' => r = Ok tt -> Q cm').
Proof. unfold triple, sbind. destruct (m cm) as [[b|e|] cm']; cbn; naive_solver. Qed.

Lemma op_persist L op cm :
  persisted L cm -> session_pre op cm ->
  triple (run_op op) cm (fun r cm' => r = Ok tt -> exists L', persisted L' cm').
Proof.
  intros HP [Hpre Hs]. destruct op as [name cols|table n|i tb c ty|P]; cbn [run_op op_pre] in *.
  - destruct Hpre, Hs. apply triple_void_ok. by eapply CreateTable_persist.
  - destruct Hs. by eapply UpdatePagesCount_persist.
  - destruct Hs. apply triple_void_ok. by eapply CreateIndex_persist.
  - destruct Hs.
Qed.
Lemma op_types op cm :
  wf (cat cm) -> session_pre op cm ->
  post (run_op op) cm (fun r cm' => r = Ok tt -> typesByName (cat cm') = typesByName (cat cm)).
Proof.
  assert (Hvoid : forall B (m : ST (t R D) B) (Q : t R D -> Prop), post m cm (fun r cm' => forall b, r = Ok b -> Q cm') ->
    post (m ;;; sret tt) cm (fun r cm' => r = Ok tt -> Q cm')).
  { intros B m Q. unfold post, sbind. destruct (m cm) as [[b|e|] cm']; cbn; naive_solver. }
  intros W [Hpre Hs]. destruct op as [name cols|table n|i tb c ty|P]; cbn [run_op op_pre] in *.
  - destruct Hpre. apply Hvoid. eapply post_mono; [by apply CreateTable_maps|]. intros r cm' [_ Hcase] t0 Hr.
    destruct (tablesByName (cat cm) !! name); [by destruct Hcase as [-> _]|]. destruct (Hcase t0 Hr) as [_ ->].
    unfold created_table. by destruct (add_columns_frame (new_table (cat cm) name) cols 0
      (indexTable (new_table (cat cm) name) (bump_table (cat cm)))) as (_ & _ & _ & -> & _).
  - eapply post_mono; [by apply UpdatePagesCount_maps|]. intros r cm' [_ Hok] Hr. by destruct (Hok Hr) as (u & _ & ->).
  - apply Hvoid. eapply post_mono; [by apply CreateIndex_maps|]. intros r cm' [_ Hcase] d Hr.
    destruct (indexesByName (cat cm) !! i); [by destruct Hcase as [-> _]|].
    destruct (tablesByName (cat cm) !! tb); [|by destruct Hcase as [-> _]].
    destruct (list_find _ _) as [[j col]|]; [|by destruct Hcase as [-> _]]. by destruct (Hcase d Hr) as [_ ->].
  - done.
Qed.

End recovery.

Section sessions.
Context {R D : Type} `{RR : Replacer R, RL : !ReplacerLaws R, DM : PageFileManager D, DL : !PageFileLaws D}.
Context `{FT : !FileStat D, FL : !FileStatLaws D}.
Context (root0 : string) (root_nonempty : root0 <> ""%string).
Implicit Types (P : Pool R D) (k : PageKey) (E X : PageKey -> Prop) (A : PageKey -> option (list byte)) (f g : string).

Notation no_key := BufferPoolSpec.no_key.
Notation stands := (stands root0).
Notation good := (BufferPoolSpec.good_key Filepath.simple_name).
Notation in_slot := PageStore.in_slot.
Notation also := PageStore.also.

(** ** Sessions

    The other users of the pool, the table heaps and the indexes, call it with
    keys of their own files, change pages through the pointers they got, and
    anyone may flush.  [pool_work X P P']: one such call, whatever its result;
    [X] are the keys whose pages it may change. *)
Definition outside k : Prop := good k /\ FileID k ∉ catalogFiles.

Inductive pool_work P : (PageKey -> Prop) -> Pool R D -> Prop :=
  | work_get k : good k -> pool_work P no_key (GetPage k P).2
  | work_array id : pool_work P no_key (PageStore.New id P).2
  | work_fill pg b : is_Some (mem P !! pg_buf pg) -> PageStore.unused P pg -> valid_buf b ->
      pool_work P no_key (PageStore.set_mem (pg_buf pg) b P)
  | work_new k pg b : outside k -> BufferPoolSpec.page_for k pg P b -> PageStore.unused P pg ->
      pool_work P (eq k) (NewPage k (Some pg) P).2
  | work_change k ref pg b b' : outside k -> in_slot P k ref pg b -> valid_buf b' ->
      pool_work P (eq k) (PageStore.set_mem (pg_buf pg) b' P)
  | work_update k ref pg b : outside k -> in_slot P k ref pg b -> pool_work P (eq k) (UpdatePage k (Some pg) P).2
  | work_flush k : pool_work P no_key (FlushPage k P).2
  | work_flush_all it : it ≡ₚ map_to_list (pageTable P) -> pool_work P no_key (FlushAllPages it P).2
  | work_stat path : pool_work P no_key (on_disk (os_stat path) P).2
  | work_mkdir path : pool_work P no_key (on_disk (os_mkdir_all path) P).2.

Lemma evolves_stands E E' A J cm X P' :
  stands E A J cm -> PageStore.evolves root0 X (bufferPool cm) P' -> catalog_untouched X ->
  PageStore.store_but root0 E' A P' -> stands E' A J (with_pool P' cm).
Proof.
  intros [Hr Hs Hj] Hev HX Hst. split; [done|done|]. intros f Hf. destruct (Hj f Hf) as [Hfd Hp]. split; [|done].
  eapply (filed_evolves root0 root_nonempty); [by apply catalog_simple|exact Hev| |done]. intros k Hk <-. by apply (HX k).
Qed.

(** Whatever the others do, the logs stand. *)
Lemma work_stands E A J cm X P' :
  catalog_untouched E -> stands E A J cm -> pool_work (bufferPool cm) X P' ->
  catalog_untouched (fun k => X k \/ E k) /\ exists A', stands (fun k => X k \/ E k) A' J (with_pool P' cm).
Proof.
  intros HE Hst Hw. set (E' := fun k => X k \/ E k).
  assert (HEE : forall k, E k -> E' k) by by right.
  pose proof (st_store _ _ _ _ _ Hst) as Hs. destruct (PageStore.store_ok _ _ _ _ Hs) as [OK _].
  assert (Hquiet : PageStore.evolves root0 no_key (bufferPool cm) P' -> exists A', stands E' A' J (with_pool P' cm)).
  { intros Hev. exists A. eapply evolves_stands; [done|exact Hev|by intros k []|].
    eapply PageStore.store_mono; [exact HEE|by eapply PageStore.store_evolves]. }
  assert (Hdisk : forall d', (forall p, file_size d' p = file_size (disk (bufferPool cm)) p) ->
    (forall p id, stored d' p id = stored (disk (bufferPool cm)) p id) ->
    (reliable -> healthy (disk (bufferPool cm)) -> healthy d') -> P' = with_disk d' (bufferPool cm) ->
    exists A', stands E' A' J (with_pool P' cm)).
  { intros d' Hz Hp Hh ->. exists A. destruct (stands_disk root0 E A J cm d' Hz Hp Hh Hst) as [H1 H2 H3].
    split; [done|by eapply PageStore.store_mono|done]. }
  destruct Hw as [k Hg|id|pg b Hm Hun Hv|k pg b [Hg Hk] Hpg Hun|k ref pg b b' [Hg Hk] Hin Hv|k ref pg b [Hg Hk] Hin|k|it Hit|path|path].
  all: (split; [intros k' [Hx|Hx]; [|by apply HE]; try (by destruct Hx); by subst k'|]).
  - apply Hquiet. by destruct (PageStore.get_page root0 root_nonempty E A (bufferPool cm) k Hs Hg) as [_ (_ & Hev & _)].
  - apply Hquiet. by destruct (PageStore.new_array root0 E A (bufferPool cm) id Hs) as [_ (pg & b & _ & _ & Hev & _)].
  - exists A. destruct (PageStore.poke_unused root0 E A (bufferPool cm) pg b Hs Hm Hun Hv) as [Hs' _].
    destruct Hst as [H1 H2 H3]. split; [done|by eapply PageStore.store_mono|]. intros f Hf. destruct (H3 f Hf) as [Hfd Hp]. split; [|done].
    by apply filed_set_mem.
  - exists A. destruct (PageStore.enter_page root0 root_nonempty E A (bufferPool cm) k pg b Hs Hg Hpg Hun) as [_ [_ Hr]].
    assert (Hc : catalog_untouched (eq k)) by by intros k' <-.
    destruct (NewPage k (Some pg) (bufferPool cm)) as [r P']. cbn [fst snd] in *. destruct r as [ref|e|].
    + destruct Hr as (Hs' & Hev & _). eapply evolves_stands; [done|exact Hev|done|].
      eapply PageStore.store_mono; [|exact Hs']. intros k' [->|?]; [by left|by right].
    + destruct Hr as (Hs' & Hev). eapply evolves_stands; [done|exact Hev|by intros ? []|]. by eapply PageStore.store_mono.
    + destruct Hr as (Hs' & Hev). eapply evolves_stands; [done|exact Hev|by intros ? []|]. by eapply PageStore.store_mono.
  - exists A. destruct (PageStore.poke root0 E E' A (bufferPool cm) k ref pg b b' Hs HEE) as [Hs' _]; [by left|done|done|].
    destruct Hst as [H1 H2 H3]. split; [done|done|]. intros f Hf. destruct (H3 f Hf) as [Hfd Hp]. split; [|done].
    apply filed_set_mem; [|done]. eexists. apply Hin.
  - destruct (PageStore.update_page root0 root_nonempty E A (bufferPool cm) k ref pg b) as [_ (_ & Hs' & Hev & _)];
      [eapply PageStore.store_mono; [|exact Hs]; by right|done|done|].
    exists (PageStore.put k b A). destruct Hst as [H1 H2 H3]. split; [done|by eapply PageStore.store_mono|].
    intros f Hf. destruct (H3 f Hf) as [Hfd Hp]. split.
    + eapply (filed_evolves root0 root_nonempty); [by apply catalog_simple|exact Hev| |done]. intros k' <- E0. apply Hk. by rewrite E0.
    + intros i ds Hi. destruct (Hp i ds Hi) as (c & Hc & HR). exists c. split; [|done]. unfold PageStore.put.
      rewrite decide_False; [done|]. intros E0. apply Hk. by rewrite <- E0.
  - apply Hquiet. by destruct (PageStore.flush_page root0 root_nonempty (bufferPool cm) k OK) as [_ (Hev & _)].
  - apply Hquiet. destruct (PageStore.flush_all root0 root_nonempty (bufferPool cm) it OK) as [_ Hev]; [|done].
    intros k ref. by apply BufferPoolSpec.it_table.
  - destruct (os_stat_law (disk (bufferPool cm)) path) as (r & d' & Eo & Hz & Hp & _).
    apply (Hdisk d'); [done|done|by eapply stat_healthy|]. unfold on_disk. by rewrite Eo.
  - destruct (os_mkdir_law (disk (bufferPool cm)) path) as (r & d' & Eo & Hz & Hp & _).
    apply (Hdisk d'); [done|done|by eapply mkdir_healthy|]. unfold on_disk. by rewrite Eo.
Qed.
End sessions.

Section recovers.
Context {R D : Type} `{RR : Replacer R, RL : !ReplacerLaws R, DM : PageFileManager D, DL : !PageFileLaws D}.
Context `{FT : !FileStat D, FL : !FileStatLaws D}.
Context (root0 : string) (root_nonempty : root0 <> ""%string).
Implicit Types (P : Pool R D) (E X : PageKey -> Prop).

Notation no_key := BufferPoolSpec.no_key.
Notation persisted := (persisted root0).
Notation session_pre := (session_pre root0).
Notation fresh_pool := (fresh_pool root0).
Notation start_room := (start_room root0).

(** A run of the database as far as the catalog is concerned: a first start in
    a directory without catalog files, calls that succeed, calls of others on
    the pool, and restarts on the files left behind (the pool of the earlier
    manager is gone).  [session E cm]: [E] are the keys of the pages that
    others have changed since the last start. *)
Inductive session : (PageKey -> Prop) -> t R D -> Prop :=
  | session_first d P cm P' :
      no_files root0 d -> (reliable -> healthy d) -> fresh_pool d P -> NewDefaultCatalogManager root0 P = (Ok cm, P') -> session no_key cm
  | session_op E cm op cm' :
      session E cm -> session_pre op cm -> run_op op cm = (Ok tt, cm') -> session E cm'
  | session_work E cm X P :
      session E cm -> pool_work (bufferPool cm) X P -> session (fun k => X k \/ E k) (with_pool P cm)
  | session_restart E cm P cm' P' :
      session E cm -> start_room (cat cm) cm -> fresh_pool (disk (bufferPool cm)) P ->
      NewDefaultCatalogManager root0 P = (Ok cm', P') -> session no_key cm'.

Lemma no_key_untouched : catalog_untouched no_key.
Proof. by intros k []. Qed.

(** A start on the files of a manager that persists. *)
Lemma restarted E L cm P :
  catalog_untouched E -> persisted E L cm -> start_room (cat cm) cm -> fresh_pool (disk (bufferPool cm)) P ->
  (NewDefaultCatalogManager root0 P).1 <> Panic /\
  (reliable -> has_builtins (cat cm) -> exists cm', (NewDefaultCatalogManager root0 P).1 = Ok cm') /\
  forall cm' P', NewDefaultCatalogManager root0 P = (Ok cm', P') ->
    has_builtins (cat cm') /\ (exists L', persisted no_key L' cm') /\ (has_builtins (cat cm) -> cat cm' = cat cm).
Proof.
  intros HE [(A & J & Hst & HJ) W Hc Hrg] Hroom Hfresh.
  assert (Hst' : stands root0 no_key (BufferPoolSpec.contents root0 P) J (started root0 P)).
  { eapply (restart_stands root0 root_nonempty E HE); [exact Hst| |done]. intros f Hf. destruct Hroom as [_ Hroom]. specialize (Hroom f Hf).
    unfold PageSize in *. lia. }
  rewrite Hc in Hroom, W, Hrg |- *. destruct Hroom as [Hy Hd].
  apply (start_persist root0 root_nonempty no_key no_key_untouched _ J L P Hst' HJ W Hrg). split; [done|].
  by apply (disk_room_same root0 E no_key A _ J cm (started root0 P) 2 Hst Hst').
Qed.

Lemma session_persisted E cm : session E cm -> catalog_untouched E /\ has_builtins (cat cm) /\ exists L, persisted E L cm.
Proof.
  induction 1 as [d P cm P' Hno Hd Hfresh E0|E cm op cm' _ (HE & Hb & L & HP) Hpre E0|E cm X P _ (HE & Hb & L & HP) Hw|
    E cm P cm' P' _ (HE & Hb & L & HP) Hroom Hfresh E0].
  - set (L := {| l_types := []; l_tables := []; l_columns := []; l_indexes := [] |}).
    assert (Hst : stands root0 no_key (BufferPoolSpec.contents root0 P) (fun _ => []) (started root0 P)).
    { eapply fresh_stands; [done..| |].
      - intros f Hf. unfold PageStore.size_is. by rewrite (Hno f Hf).
      - intros f i ds _ Hi. done. }
    assert (W : wf (replay L)).
    { change (wf (recomputeNextOids empty_maps)). apply wf_recompute; [apply wf_empty|done..]. }
    destruct (start_persist root0 root_nonempty no_key no_key_untouched _ _ L P Hst) as (_ & _ & Hok); try done.
    + split; constructor.
    + split; [done|]. intros f Hf. destruct (st_journal _ _ _ _ _ Hst f Hf) as [[Hs _] _].
      unfold PageStore.size_is in Hs. rewrite Hs. unfold PageSize. cbn. lia.
    + destruct (Hok cm P' E0) as (Hb & HL & _). split; [apply no_key_untouched|done].
  - destruct (triple_and_post _ _ _ _ (op_persist root0 root_nonempty E HE L op cm HP Hpre) (op_types root0 root_nonempty op cm (p_wf _ _ _ _ HP) Hpre)) as [_ [H1 H2]].
    rewrite E0 in H1, H2. cbn in H1, H2. split; [done|]. split; [|by apply H1]. unfold has_builtins. by rewrite H2.
  - destruct HP as [(A & J & Hst & HJ) W Hc Hrg].
    destruct (work_stands root0 root_nonempty E A J cm X P HE Hst Hw) as [HE' (A' & Hst')].
    split; [exact HE'|]. split; [exact Hb|]. exists L. split; [by exists A', J|exact W|exact Hc|exact Hrg].
  - split; [apply no_key_untouched|]. destruct (restarted E L cm P HE HP Hroom Hfresh) as (_ & _ & Hok).
    by destruct (Hok cm' P' E0) as (Hb' & HL & _).
Qed.

(** C15: the catalog survives a restart: after any session (a first start in an
    empty directory, successful calls of the manager, any calls of the table
    heaps and indexes on the pages of their own files, flushes, earlier
    restarts, in any order), a manager started on the files with a new pool has
    exactly the same maps and next oids as the manager it replaces, if it
    starts; it does start on a disk that does not fail; and neither a call nor
    a start panics. *)
Theorem catalog_recovers E cm P :
  session E cm -> start_room (cat cm) cm -> fresh_pool (disk (bufferPool cm)) P ->
  (NewDefaultCatalogManager root0 P).1 <> Panic /\
  (forall cm' P', NewDefaultCatalogManager root0 P = (Ok cm', P') -> cat cm' = cat cm) /\
  (reliable -> exists cm', (NewDefaultCatalogManager root0 P).1 = Ok cm') /\
  (forall op, session_pre op cm -> (run_op op cm).1 <> Panic).
Proof.
  intros Hs Hroom Hfresh. destruct (session_persisted E cm Hs) as (HE & Hb & L & HP).
  destruct (restarted E L cm P HE HP Hroom Hfresh) as (Hnp & Hsure & Hok). split; [done|]. split; [|split; [by auto|]].
  - intros cm' P' E0. by apply (Hok cm' P' E0).
  - intros op Hop. by eapply op_persist.
Qed.
End recovers.

(** ** Pools of the modelled parts *)
Definition pool_on (d : FS) : Pool LRUReplacer.t FS :=
  {| poolSize := 2; replacer := LRUReplacer.New; HeapBufferPoolManager.root := "data"; pageTable := ∅; slots := ∅;
     mem := ∅; next := 0; disk := d |}.

Lemma pool_on_fresh d : fresh_pool "data" d (pool_on d).
Proof. exists 2, LRUReplacer.New. split; [reflexivity|]. split; [apply LRU.lru_ok_New|reflexivity]. Qed.

Lemma disk_room_dec n (cm : t LRUReplacer.t FS) :
  forallb (fun f => default 0 (file_size (disk (bufferPool cm)) (Filepath.Join "data" f)) + n * PageSize
    <=? 2 ^ 31 * PageSize) catalogFiles = true -> disk_room "data" n cm.
Proof. intros H f Hf. apply Z.leb_le. rewrite forallb_forall in H. by apply H, list_elem_of_In. Qed.

End CatalogJournal.
