(* ===== verification/Eval.v ===== *)
(** * Eval: evaluation of WHERE predicates

    Models the evaluator of [execution/executors/filter_executor.go] ([eval],
    [evalBool], [evalBinary], [compare]) on rows of dynamic values.  An index
    or a type assertion that fails panics.

    [truth] is the meaning of a predicate, with the mathematical orders on
    integers and on byte strings; the theorem says that a predicate the
    analyzer resolved is evaluated to it, without a panic, on every row whose
    fields have the types of their columns. *)

From S2P Require Import Prelude GoRuntime Ast CatalogModel Semantic.

Notation row := (list any).

Module FilterEval.

(** [compare(a, b any) int]. *)
Definition compare (a b : any) : outcome Z :=
  match a with
  | AInt64 ai =>
    match b with AInt64 bi => Ok (cmp3 (ai <? bi) (bi <? ai)) | _ => Panic end
  | AString sa =>
    match b with AString sb => Ok (cmp3 (string_lt sa sb) (string_lt sb sa)) | _ => Panic end
  | _ => Ok 0
  end.

(** [b, ok := v.(bool)] with false for everything that is not a [bool]. *)
Definition as_bool (v : any) : bool := match v with ABool b => b | _ => false end.

(** The comparison operators of [evalBinary]. *)
Definition eval_comparison (op : string) (left right : any) : outcome any :=
  if decide (op = "=") then Ok (ABool (bool_decide (left = right)))
  else if decide (op = "<>") then Ok (ABool (bool_decide (left <> right)))
  else
    let! cmp := compare left right in
    Ok (ABool
      (if decide (op = "<") then cmp <? 0
       else if decide (op = "<=") then cmp <=? 0
       else if decide (op = ">") then 0 <? cmp
       else if decide (op = ">=") then 0 <=? cmp
       else false)).

Fixpoint eval (expr : ResolvedExpr) (r : row) : outcome any :=
  match expr with
  | ResolvedConst v _ => Ok v
  | ResolvedColumnRef col _ => go_index r (ColumnDefinition.position col)
  | ResolvedBinaryExpr op lhs rhs _ =>
    let evalBool e := let! v := eval e r in Ok (as_bool v) in
    if decide (op = "AND") then
      let! l := evalBool lhs in
      if l : bool then let! x := evalBool rhs in Ok (ABool x) else Ok (ABool false)
    else if decide (op = "OR") then
      let! l := evalBool lhs in
      if l : bool then Ok (ABool true) else let! x := evalBool rhs in Ok (ABool x)
    else
      let! l := eval lhs r in
      let! x := eval rhs r in
      eval_comparison op l x
  end.

Definition evalBool (expr : ResolvedExpr) (r : row) : outcome bool :=
  let! v := eval expr r in Ok (as_bool v).

End FilterEval.

(** ** The meaning of predicates *)
Module Predicates.
Import Analyzer Typing AnalyzerSpec FilterEval.

(** The order of the values of a type. *)
Definition value_lt (a b : any) : Prop :=
  match a, b with
  | AInt64 x, AInt64 y => x < y
  | AString x, AString y => string_lt x y = true
  | _, _ => False
  end.

Definition related (op : string) (a b : any) : Prop :=
  (op = "=" /\ a = b) \/ (op = "<>" /\ a <> b) \/
  (op = "<" /\ value_lt a b) \/ (op = "<=" /\ (value_lt a b \/ a = b)) \/
  (op = ">" /\ value_lt b a) \/ (op = ">=" /\ (value_lt b a \/ a = b)).

(** The value of an operand of a comparison in a row. *)
Definition operand (r : row) (e : ResolvedExpr) (v : any) : Prop :=
  match e with
  | ResolvedConst c _ => v = c
  | ResolvedColumnRef col _ => 0 <= ColumnDefinition.position col /\
      r !! Z.to_nat (ColumnDefinition.position col) = Some v
  | ResolvedBinaryExpr _ _ _ _ => False
  end.

Fixpoint truth (r : row) (e : ResolvedExpr) : Prop :=
  match e with
  | ResolvedBinaryExpr op lhs rhs _ =>
    (op = "AND" /\ truth r lhs /\ truth r rhs) \/
    (op = "OR" /\ (truth r lhs \/ truth r rhs)) \/
    exists a b, operand r lhs a /\ operand r rhs b /\ related op a b
  | _ => False
  end.

Section typed_rows.
Context {C : Type} `{CatalogManager C} (catalog : C).

(** The fields of a row of the table have the types of their columns. *)
Definition row_typed (table : TableDefinition.t) (r : row) : Prop :=
  forall name col ty, column_type catalog table name col ty ->
    0 <= ColumnDefinition.position col /\
    exists v, r !! Z.to_nat (ColumnDefinition.position col) = Some v /\ value_type v ty.

Lemma value_type_fun v ty ty' : value_type v ty -> value_type v ty' -> ty = ty'.
Proof. by destruct v, ty, ty'. Qed.

Lemma value_lt_trichotomy a b ty :
  value_type a ty -> value_type b ty -> ty <> ExprTypeBool -> value_lt a b \/ a = b \/ value_lt b a.
Proof.
  destruct a as [|x|x|x], b as [|y|y|y], ty; cbn; try done; intros _ _ _.
  - destruct (Z.lt_trichotomy x y) as [|[->|]]; auto.
  - destruct (string_lt x y) eqn:E1; [by auto|]. destruct (string_lt y x) eqn:E2; [by auto|].
    right; left. f_equal. by apply string_lt_total.
Qed.

Lemma value_lt_irrefl a : ~ value_lt a a.
Proof. destruct a; cbn; try tauto; [lia|]. rewrite string_lt_irrefl. congruence. Qed.

Lemma value_lt_trans a b c : value_lt a b -> value_lt b c -> value_lt a c.
Proof. destruct a, b, c; cbn; try tauto; [lia|]. apply string_lt_trans. Qed.

Lemma value_lt_asym a b : value_lt a b -> ~ value_lt b a.
Proof. intros Hab Hba. exact (value_lt_irrefl a (value_lt_trans _ _ _ Hab Hba)). Qed.

(** [compare] is the sign of the order. *)
Lemma compare_spec a b ty :
  value_type a ty -> value_type b ty -> ty <> ExprTypeBool ->
  exists c, compare a b = Ok c /\
    (c = -1 /\ value_lt a b \/ c = 0 /\ a = b \/ c = 1 /\ value_lt b a).
Proof.
  intros Ha Hb Hty. destruct a as [|x|x|x], b as [|y|y|y], ty; cbn in *; try done; eexists; (split; [done|]); unfold cmp3.
  - destruct (Z.ltb_spec x y), (Z.ltb_spec y x); [lia|by left|by right; right|].
    right; left. split; [done|]. f_equal; lia.
  - destruct (string_lt x y) eqn:E1; [by auto|]. destruct (string_lt y x) eqn:E2; [by auto|].
    right; left. split; [done|]. f_equal. by apply string_lt_total.
Qed.

Lemma comparison_spec op a b ty :
  comparisonOps op = true -> value_type a ty -> value_type b ty -> ty <> ExprTypeBool ->
  exists x, eval_comparison op a b = Ok (ABool x) /\ (x = true <-> related op a b).
Proof.
  intros Hop Ha Hb Hty. destruct (compare_spec a b ty Ha Hb Hty) as (c & Ec & Hc).
  pose proof (value_lt_irrefl b) as Hirr. pose proof (value_lt_asym a b) as Hasym.
  unfold comparisonOps in Hop. apply bool_decide_eq_true in Hop. unfold eval_comparison, related. rewrite Ec.
  repeat (apply elem_of_cons in Hop as [->|Hop]; [cbn; eexists; (split; [done|])|]); [..|by apply not_elem_of_nil in Hop].
  all: rewrite ?bool_decide_eq_true.
  all: destruct Hc as [[-> Hlt]|[[-> ->]|[-> Hlt]]]; cbn; naive_solver.
Qed.

Lemma operand_eval r e v : operand r e v -> eval e r = Ok v.
Proof.
  destruct e as [op l x t|col t|c t]; cbn; [done| |by intros ->].
  intros [Hp Hv]. unfold go_index. rewrite decide_True by lia. by rewrite Hv.
Qed.

(** An expression of a type that is not boolean is an operand. *)
Lemma operand_typed table r e re :
  row_typed table r -> resolves catalog table e re -> ExprType_of re <> ExprTypeBool ->
  exists v, operand r re v /\ value_type v (ExprType_of re).
Proof.
  intros Hr Hres Hty. destruct Hres as [name col ty Hc|v|v|]; cbn in *; try done; [|by eexists..].
  destruct (Hr _ _ _ Hc) as (Hp & v & Hv & Ht). by exists v.
Qed.

Lemma logical_ops op : logicalOps op = true <-> op = "AND" \/ op = "OR".
Proof. unfold logicalOps. rewrite bool_decide_eq_true. set_solver. Qed.

Lemma comparison_not_logical op : comparisonOps op = true -> op <> "AND" /\ op <> "OR".
Proof. intros Hc. split; intros ->; by vm_compute in Hc. Qed.

Lemma related_comparison op a b : related op a b -> comparisonOps op = true.
Proof. unfold related. intuition subst; done. Qed.

(** A resolved predicate evaluates to its truth value. *)
Lemma eval_truth table r e re :
  row_typed table r -> resolves catalog table e re -> ExprType_of re = ExprTypeBool ->
  exists x, eval re r = Ok (ABool x) /\ (x = true <-> truth r re).
Proof.
  intros Hr Hres. induction Hres as [name col ty Hc|v|v|op l x l' x' Hl IHl Hx IHx Hop]; try done.
  { intros Hb. cbn in Hb. subst ty. destruct (Hr _ _ _ Hc) as (Hp & v & Hv & Ht).
    destruct Hc as (_ & td & _ & Htd). exfalso. clear -Htd. unfold toExprType, exprTypes in Htd.
    cbn in Htd. by repeat case_decide. }
  intros _. cbn [eval truth]. destruct Hop as [(Hop & Tl & Tx)|(Hop & Heq & Hn)].
  - destruct (IHl Tl) as (bl & El & Bl), (IHx Tx) as (bx & Ex & Bx).
    assert (Hno : forall a b, ~ related op a b).
    { intros a b Hr'. apply related_comparison, comparison_not_logical in Hr'. apply logical_ops in Hop. tauto. }
    apply logical_ops in Hop as [->| ->]; cbn; rewrite El; cbn; destruct bl; rewrite ?Ex; cbn;
      eexists; (split; [done|]); naive_solver.
  - destruct (comparison_not_logical _ Hop) as [Na No]. rewrite !decide_False by done.
    destruct (operand_typed _ _ _ _ Hr Hl Hn) as (a & Oa & Ta).
    assert (Hn' : ExprType_of x' <> ExprTypeBool) by congruence.
    destruct (operand_typed _ _ _ _ Hr Hx Hn') as (b & Ob & Tb).
    rewrite (operand_eval _ _ _ Oa), (operand_eval _ _ _ Ob). cbn [obind]. rewrite <- Heq in Tb.
    destruct (comparison_spec op a b _ Hop Ta Tb Hn) as (y & Ey & Hy). exists y. split; [done|].
    rewrite Hy. split; [naive_solver|]. intros [[-> _]|[[-> _]|(a' & b' & Oa' & Ob' & Hab)]]; try done.
    apply operand_eval in Oa', Ob', Oa, Ob. naive_solver congruence.
Qed.

End typed_rows.

(** C10: on a row whose fields have the types of their columns, a predicate the
    analyzer resolved to a boolean is evaluated without a panic, and to its
    meaning. *)
Theorem evalBool_correct {C : Type} `{CatalogManager C} (catalog : C) table r e pred :
  row_typed catalog table r -> resolveExpr catalog e table = Ok pred -> ExprType_of pred = ExprTypeBool ->
  exists x, evalBool pred r = Ok x /\ (x = true <-> truth r pred).
Proof.
  intros Hr Hres Hty. apply resolveExpr_ok in Hres.
  destruct (eval_truth catalog table r e pred Hr Hres Hty) as (x & E & Hx).
  exists x. unfold evalBool. by rewrite E.
Qed.

Definition id_at_least_2_named_b : Expr :=
  BinaryExpr "AND" (BinaryExpr ">=" (ColumnRefExpr (AnalyzerProofs.ident "id")) (LiteralInt64Expr 2))
    (BinaryExpr "=" (ColumnRefExpr (AnalyzerProofs.ident "name")) (LiteralStringExpr "b")).
Definition resolved_sample : ResolvedExpr := Eval vm_compute in
  match resolveExpr ListCatalog.sample id_at_least_2_named_b ListCatalog.users with
  | Ok e => e
  | _ => ResolvedConst ANil ExprTypeBool
  end.

Lemma sample_row_typed n s : row_typed ListCatalog.sample ListCatalog.users [AInt64 n; AString s].
Proof.
  intros name col ty (Hc & td & Ht & <-). cbn in Hc. injection Hc as Hc.
  repeat case_bool_decide; try discriminate Hc; injection Hc as <-; cbn in Ht; injection Ht as <-.
  - split; [done|]. by exists (AInt64 n).
  - split; [done|]. by exists (AString s).
Qed.

Lemma evalBool_correct_witness :
  exists x, evalBool resolved_sample [AInt64 5; AString "b"] = Ok x /\
    (x = true <-> truth [AInt64 5; AString "b"] resolved_sample).
Proof.
  apply (evalBool_correct ListCatalog.sample ListCatalog.users _ id_at_least_2_named_b).
  - apply sample_row_typed.
  - vm_compute. reflexivity.
  - reflexivity.
Defined.
End Predicates.
