(* ===== verification/Planner.v ===== *)
(** * Planner: logical plans

    Models the packages [planner] and [planner/nodes]: the logical plan nodes
    with their display names and children, [PrintPlan], and
    [DefaultPlanner.Plan].  A node holds the fields of the query tree it wraps.

    [lrows] is the relational meaning of a logical plan over the rows of the
    tables; the optimizer and the executors are measured against it. *)

From S2P Require Import Prelude GoRuntime Ast CatalogModel Semantic Eval.

Inductive LogicalPlanNode : Type :=
  | CreateTableNode (tableName : SqlIdent) (columns : list ResolvedCreateColumn)
  | InsertNode (table : TableDefinition.t) (columns : list ColumnDefinition.t) (values : list any)
  | CreateIndexNode (indexName : SqlIdent) (table : TableDefinition.t) (column : ColumnDefinition.t)
      (indexType : IndexType)
  | ScanNode (table : TableDefinition.t)
  | FilterNode (child : LogicalPlanNode) (predicate : ResolvedExpr)
  | ProjectNode (child : LogicalPlanNode) (columns : list ColumnDefinition.t)
  | ExplainNode (inner : LogicalPlanNode).

(** [strings.Join]. *)
Definition join (sep : string) (names : list string) : string := String.concat sep names.

(** [fmt.Sprintf("%v", v)] of a dynamic value. *)
Definition show_any (v : any) : string :=
  match v with
  | ANil => "<nil>" | AInt64 n => pretty n | AString s => s
  | ABool true => "true" | ABool false => "false"
  end.

Definition nl : string := String (Ascii.ascii_of_nat 10) "".
Fixpoint indentation (n : nat) : string := match n with O => "" | S n => "  " +:+ indentation n end.

Module LogicalPlan.

Definition DisplayName (node : LogicalPlanNode) : string :=
  match node with
  | CreateTableNode tn _ => "CreateTable(" +:+ ident_text tn +:+ ")"
  | InsertNode table _ _ => "Insert(" +:+ TableDefinition.name table +:+ ")"
  | CreateIndexNode name _ _ _ => "CreateIndex(" +:+ ident_text name +:+ ")"
  | ScanNode table => "Scan(" +:+ TableDefinition.name table +:+ ")"
  | FilterNode _ _ => "Filter"
  | ProjectNode _ cols => "Project(" +:+ join "," (map ColumnDefinition.name cols) +:+ ")"
  | ExplainNode _ => "Explain"
  end.

Definition Children (node : LogicalPlanNode) : list LogicalPlanNode :=
  match node with
  | FilterNode child _ | ProjectNode child _ | ExplainNode child => [child]
  | _ => []
  end.

(** [printNode]: what it appends to the builder.  A node has at most one
    child, so the loop over [Children] is the recursive call on it. *)
Fixpoint printNode (node : LogicalPlanNode) (indent : nat) : string :=
  indentation indent +:+ DisplayName node +:+ nl +:+
  match node with
  | FilterNode child _ | ProjectNode child _ | ExplainNode child => printNode child (S indent)
  | _ => ""
  end.

Definition PrintPlan (node : LogicalPlanNode) : string := printNode node 0.

End LogicalPlan.

Module DefaultPlanner.

Definition planSelect (table : TableDefinition.t) (targetColumns : list ColumnDefinition.t)
    (filter : option ResolvedExpr) : LogicalPlanNode :=
  let node := ScanNode table in
  let node := match filter with Some f => FilterNode node f | None => node end in
  ProjectNode node targetColumns.

Fixpoint Plan (query : QueryTree) : LogicalPlanNode :=
  match query with
  | CreateTableQueryTree tn cols => CreateTableNode tn cols
  | InsertQueryTree table cols vals => InsertNode table cols vals
  | CreateIndexQueryTree name table col ty => CreateIndexNode name table col ty
  | SelectQueryTree table cols filter => planSelect table cols filter
  | ExplainQueryTree inner => ExplainNode (Plan inner)
  end.

End DefaultPlanner.

(** ** The meaning of a logical plan *)
Section meaning.
Context (rows : TableDefinition.t -> list row).

Definition satisfies (pred : ResolvedExpr) (r : row) : Prop := FilterEval.evalBool pred r = Ok true.

#[global] Instance satisfies_dec pred r : Decision (satisfies pred r).
Proof.
  unfold satisfies. destruct (FilterEval.evalBool pred r) as [[]|e|];
    [by left|right; discriminate..].
Defined.

Definition project (cols : list ColumnDefinition.t) (r : row) : row :=
  map (fun col => default ANil (r !! Z.to_nat (ColumnDefinition.position col))) cols.

Fixpoint lrows (node : LogicalPlanNode) : list row :=
  match node with
  | ScanNode table => rows table
  | FilterNode child pred => filter (satisfies pred) (lrows child)
  | ProjectNode child cols => project cols <$> lrows child
  | _ => []
  end.

Lemma lrows_select table cols f :
  lrows (DefaultPlanner.Plan (SelectQueryTree table cols f)) =
  project cols <$> match f with Some p => filter (satisfies p) (rows table) | None => rows table end.
Proof. by destruct f. Qed.
End meaning.
