(* ===== verification/Optimizer.v ===== *)
(** * Optimizer: physical plans and the choice of an index

    Models the packages [optimizer] and [optimizer/nodes]: [range.go],
    [extract.go], [default_optimizer.go] and the physical plan nodes with
    their printer.  A type assertion that fails in [compareAny] panics.

    [prows] is the meaning of a physical plan: a scan through an index returns
    the rows whose indexed column has the key, or lies in the range.  The
    theorems: the range of a predicate the analyzer resolved contains every
    row that satisfies it (and building it never panics), and the plan the
    optimizer chooses for a SELECT has the meaning of the logical plan. *)

From S2P Require Import Prelude GoRuntime Lexer Ast CatalogModel Semantic Eval Planner.

Inductive PhysicalPlanNode : Type :=
  | PCreateTableNode (tableName : SqlIdent) (columns : list ResolvedCreateColumn)
  | PInsertNode (table : TableDefinition.t) (columns : list ColumnDefinition.t) (values : list any)
  | PCreateIndexNode (indexName : SqlIdent) (table : TableDefinition.t) (column : ColumnDefinition.t)
      (indexType : IndexType)
  | SeqScanNode (table : TableDefinition.t)
  | HashIndexScanNode (table : TableDefinition.t) (index : IndexDefinition.t) (value : any)
  | BTreeIndexScanNode (table : TableDefinition.t) (index : IndexDefinition.t)
      (from : any) (fromInclusive : bool) (to : any) (toInclusive : bool)
  | PFilterNode (child : PhysicalPlanNode) (predicate : ResolvedExpr)
  | PProjectNode (child : PhysicalPlanNode) (columns : list ColumnDefinition.t)
  | PExplainNode (inner : PhysicalPlanNode).

Module PhysicalPlan.

Definition show_bool (b : bool) : string := show_any (ABool b).
Definition show_bound (v : any) : string := if decide (v = ANil) then "nil" else show_any v.

Definition DisplayName (node : PhysicalPlanNode) : string :=
  match node with
  | PCreateTableNode tn _ => "CreateTable(" +:+ ident_text tn +:+ ")"
  | PInsertNode table _ _ => "Insert(" +:+ TableDefinition.name table +:+ ")"
  | PCreateIndexNode name _ _ _ => "CreateIndex(" +:+ ident_text name +:+ ")"
  | SeqScanNode table => "SeqScan(" +:+ TableDefinition.name table +:+ ")"
  | HashIndexScanNode table index value =>
    "HashIndexScan(" +:+ TableDefinition.name table +:+ ", idx=" +:+ IndexDefinition.name index
      +:+ ", value=" +:+ show_any value +:+ ")"
  | BTreeIndexScanNode table index from fi to ti =>
    "BTreeIndexScan(" +:+ TableDefinition.name table +:+ ", idx=" +:+ IndexDefinition.name index
      +:+ ", from=" +:+ show_bound from +:+ " inc=" +:+ show_bool fi
      +:+ ", to=" +:+ show_bound to +:+ " inc=" +:+ show_bool ti +:+ ")"
  | PFilterNode _ _ => "Filter"
  | PProjectNode _ cols => "Project(" +:+ join "," (map ColumnDefinition.name cols) +:+ ")"
  | PExplainNode _ => "Explain"
  end.

Definition Children (node : PhysicalPlanNode) : list PhysicalPlanNode :=
  match node with
  | PFilterNode child _ | PProjectNode child _ | PExplainNode child => [child]
  | _ => []
  end.

(** [printNode]: what it appends to the builder. *)
Fixpoint printNode (node : PhysicalPlanNode) (indent : nat) : string :=
  indentation indent +:+ DisplayName node +:+ nl +:+
  match node with
  | PFilterNode child _ | PProjectNode child _ | PExplainNode child => printNode child (S indent)
  | _ => ""
  end.

Definition PrintPlan (node : PhysicalPlanNode) : string := printNode node 0.

End PhysicalPlan.

(** ** [extract.go] *)
Module Extract.

Definition tryExtractColVal (colExpr valExpr : ResolvedExpr) : option (ColumnDefinition.t * any) :=
  match colExpr, valExpr with
  | ResolvedColumnRef col _, ResolvedConst v _ => Some (col, v)
  | _, _ => None
  end.

(** A nil column is [None]. *)
Definition extractEquality (pred : ResolvedExpr) : option (ColumnDefinition.t * any) :=
  match pred with
  | ResolvedBinaryExpr op l r _ =>
    if decide (op = "=") then
      match tryExtractColVal l r with
      | Some cv => Some cv
      | None => tryExtractColVal r l
      end
    else None
  | _ => None
  end.

Definition compareInt64 (a b : Z) : Z := cmp3 (a <? b) (b <? a).
Definition compareString (a b : string) : Z := cmp3 (string_lt a b) (string_lt b a).

Definition compareAny (a b : any) : outcome Z :=
  match a with
  | AInt64 av => match b with AInt64 bv => Ok (compareInt64 av bv) | _ => Panic end
  | AString av => match b with AString bv => Ok (compareString av bv) | _ => Panic end
  | _ => Ok 0
  end.

End Extract.

(** ** [range.go] *)
Module Range.
Import Extract.

Record rangeInfo : Type := {
  column : ColumnDefinition.t; from : any; fromInclusive : bool; to : any; toInclusive : bool
}.

Definition empty (col : ColumnDefinition.t) : rangeInfo :=
  {| column := col; from := ANil; fromInclusive := false; to := ANil; toInclusive := false |}.
Definition set_from (v : any) (inc : bool) (r : rangeInfo) : rangeInfo :=
  {| column := column r; from := v; fromInclusive := inc; to := to r; toInclusive := toInclusive r |}.
Definition set_to (v : any) (inc : bool) (r : rangeInfo) : rangeInfo :=
  {| column := column r; from := from r; fromInclusive := fromInclusive r; to := v; toInclusive := inc |}.

Definition buildEqRange (r : rangeInfo) (v : any) : rangeInfo := set_to v true (set_from v true r).
Definition buildGtRange (r : rangeInfo) (v : any) : rangeInfo := set_from v false r.
Definition buildGteRange (r : rangeInfo) (v : any) : rangeInfo := set_from v true r.
Definition buildLtRange (r : rangeInfo) (v : any) : rangeInfo := set_to v false r.
Definition buildLteRange (r : rangeInfo) (v : any) : rangeInfo := set_to v true r.

Definition mergeFrom (l r : rangeInfo) : outcome (any * bool) :=
  if decide (from l = ANil) then Ok (from r, fromInclusive r)
  else if decide (from r = ANil) then Ok (from l, fromInclusive l)
  else
    let! cmp := compareAny (from l) (from r) in
    if 0 <? cmp then Ok (from l, fromInclusive l)
    else if cmp <? 0 then Ok (from r, fromInclusive r)
    else Ok (from l, fromInclusive l && fromInclusive r).

Definition mergeTo (l r : rangeInfo) : outcome (any * bool) :=
  if decide (to l = ANil) then Ok (to r, toInclusive r)
  else if decide (to r = ANil) then Ok (to l, toInclusive l)
  else
    let! cmp := compareAny (to l) (to r) in
    if cmp <? 0 then Ok (to l, toInclusive l)
    else if 0 <? cmp then Ok (to r, toInclusive r)
    else Ok (to l, toInclusive l && toInclusive r).

(** A nil range is [None]. *)
Definition mergeRanges (l r : rangeInfo) : outcome (option rangeInfo) :=
  let! ' (f, fi) := mergeFrom l r in
  let! ' (t, ti) := mergeTo l r in
  let merged := {| column := column l; from := f; fromInclusive := fi; to := t; toInclusive := ti |} in
  if decide (f <> ANil /\ t <> ANil) then
    let! cmp := compareAny f t in
    if 0 <? cmp then Ok None else Ok (Some merged)
  else Ok (Some merged).

End Range.

(** ** [default_optimizer.go] *)
Module DefaultOptimizer.
Import Extract Range.

Definition invertedOps : list (string * string) := [("<", ">"); ("<=", ">="); (">", "<"); (">=", "<=")].
Definition rangeBuilders : list (string * (rangeInfo -> any -> rangeInfo)) :=
  [("=", buildEqRange); (">", buildGtRange); (">=", buildGteRange); ("<", buildLtRange); ("<=", buildLteRange)].

Definition invertOp (op : string) : string := default op (assoc op invertedOps).

Definition extractColValOp (op : string) (l r : ResolvedExpr) : option (ColumnDefinition.t * any * string) :=
  match tryExtractColVal l r with
  | Some (col, v) => Some (col, v, op)
  | None =>
    match tryExtractColVal r l with
    | Some (col, v) => Some (col, v, invertOp op)
    | None => None
    end
  end.

Definition extractSingleRange (op : string) (l r : ResolvedExpr) : option rangeInfo :=
  match extractColValOp op l r with
  | None => None
  | Some (col, v, op) =>
    match assoc op rangeBuilders with
    | None => None
    | Some builder => Some (builder (empty col) v)
    end
  end.

Definition mergeAndRanges (l r : option rangeInfo) : outcome (option rangeInfo) :=
  match l, r with
  | None, _ => Ok r
  | _, None => Ok l
  | Some a, Some b =>
    if decide (ColumnDefinition.oid (column a) <> ColumnDefinition.oid (column b)) then Ok None
    else mergeRanges a b
  end.

Fixpoint extractRange (pred : ResolvedExpr) : outcome (option rangeInfo) :=
  match pred with
  | ResolvedBinaryExpr op l r _ =>
    if decide (op = "AND") then
      let! a := extractRange l in
      let! b := extractRange r in
      mergeAndRanges a b
    else Ok (extractSingleRange op l r)
  | _ => Ok None
  end.

Section optimizer.
Context {C : Type} `{CatalogManager C} (catalog : C).
Implicit Types (table : TableDefinition.t) (col : ColumnDefinition.t).

(** [indexes, _ := ListIndexes(table)], and the first index that matches. *)
Definition findIndex table col (t : IndexType) : outcome (option IndexDefinition.t) :=
  let! indexes := (match ListIndexes catalog table with Err _ => Ok [] | x => x end) in
  Ok (find (fun idx => bool_decide (IndexDefinition.indexType idx = t) &&
                       (IndexDefinition.columnOid idx =? ColumnDefinition.oid col)) indexes).

Definition tryHashScan table (pred : ResolvedExpr) : outcome (option PhysicalPlanNode) :=
  match extractEquality pred with
  | None => Ok None
  | Some (col, v) =>
    let! idx := findIndex table col IndexTypeHash in
    Ok ((fun idx => HashIndexScanNode table idx v) <$> idx)
  end.

Definition tryBTreeScan table (pred : ResolvedExpr) : outcome (option PhysicalPlanNode) :=
  let! rng := extractRange pred in
  match rng with
  | None => Ok None
  | Some rng =>
    let! idx := findIndex table (column rng) IndexTypeBTree in
    Ok ((fun idx => BTreeIndexScanNode table idx (from rng) (fromInclusive rng) (to rng) (toInclusive rng)) <$> idx)
  end.

Definition chooseBestScan table (pred : ResolvedExpr) : outcome PhysicalPlanNode :=
  let! node := tryHashScan table pred in
  match node with
  | Some node => Ok node
  | None =>
    let! node := tryBTreeScan table pred in
    match node with
    | Some node => Ok node
    | None => Ok (SeqScanNode table)
    end
  end.

Fixpoint Optimize (plan : LogicalPlanNode) : outcome PhysicalPlanNode :=
  match plan with
  | ExplainNode inner => let! p := Optimize inner in Ok (PExplainNode p)
  | CreateTableNode tn cols => Ok (PCreateTableNode tn cols)
  | CreateIndexNode name table col ty => Ok (PCreateIndexNode name table col ty)
  | InsertNode table cols vals => Ok (PInsertNode table cols vals)
  | ProjectNode child cols => let! p := Optimize child in Ok (PProjectNode p cols)
  | FilterNode child pred =>
    match child with
    | ScanNode table => let! best := chooseBestScan table pred in Ok (PFilterNode best pred)
    | _ => let! p := Optimize child in Ok (PFilterNode p pred)
    end
  | ScanNode table => Ok (SeqScanNode table)
  end.

End optimizer.
End DefaultOptimizer.

(** ** The meaning of a physical plan *)
Module PhysicalSpec.
Import Analyzer Typing AnalyzerSpec FilterEval Predicates Extract Range DefaultOptimizer.

#[global] Instance value_lt_dec a b : Decision (value_lt a b).
Proof. unfold value_lt. destruct a, b; apply _. Defined.

(** A value lies above a lower bound, below an upper one; nil is no bound. *)
Definition above (f : any) (inc : bool) (v : any) : Prop :=
  f = ANil \/ value_lt f v \/ (inc = true /\ v = f).
Definition below (t : any) (inc : bool) (v : any) : Prop :=
  t = ANil \/ value_lt v t \/ (inc = true /\ v = t).

Section meaning.
Context {C : Type} `{CatalogManager C} (catalog : C) (rows : TableDefinition.t -> list row).

(** The field of a row that an index of the table is about. *)
Definition indexed_value (table : TableDefinition.t) (index : IndexDefinition.t) (r : row) : option any :=
  match GetColumns catalog table with
  | Ok cols =>
    match find (fun col => ColumnDefinition.oid col =? IndexDefinition.columnOid index) cols with
    | Some col => r !! Z.to_nat (ColumnDefinition.position col)
    | None => None
    end
  | _ => None
  end.

Definition has_key table index (v : any) (r : row) : Prop := indexed_value table index r = Some v.
Definition key_between table index (f : any) (fi : bool) (t : any) (ti : bool) (r : row) : Prop :=
  match indexed_value table index r with Some v => above f fi v /\ below t ti v | None => False end.

#[global] Instance has_key_dec table index v r : Decision (has_key table index v r).
Proof. unfold has_key. apply _. Defined.
#[global] Instance key_between_dec table index f fi t ti r : Decision (key_between table index f fi t ti r).
Proof. unfold key_between, above, below. destruct (indexed_value table index r); apply _. Defined.

Fixpoint prows (node : PhysicalPlanNode) : list row :=
  match node with
  | SeqScanNode table => rows table
  | HashIndexScanNode table index v => filter (has_key table index v) (rows table)
  | BTreeIndexScanNode table index f fi t ti => filter (key_between table index f fi t ti) (rows table)
  | PFilterNode child pred => filter (satisfies pred) (prows child)
  | PProjectNode child cols => project cols <$> prows child
  | _ => []
  end.

(** An index scan of a plan uses an index the catalog lists for the table, of
    the right kind, with keys of the type of the indexed column. *)
Definition index_listed table (index : IndexDefinition.t) (t : IndexType) : Prop :=
  exists l, ListIndexes catalog table = Ok l /\ index ∈ l /\ IndexDefinition.indexType index = t.
Definition key_type table (index : IndexDefinition.t) (ty : ExprType) : Prop :=
  exists n col, column_type catalog table n col ty /\
    IndexDefinition.columnOid index = ColumnDefinition.oid col /\ ty <> ExprTypeBool.
Definition bound_typed (v : any) (ty : ExprType) : Prop := v = ANil \/ value_type v ty.

(** A plan an executor can run: index scans as above, predicates that evaluate
    and projected columns that exist in every row they are applied to. *)
Fixpoint plan_ok (node : PhysicalPlanNode) : Prop :=
  match node with
  | HashIndexScanNode table index v =>
    index_listed table index IndexTypeHash /\ exists ty, key_type table index ty /\ value_type v ty
  | BTreeIndexScanNode table index f fi t ti =>
    index_listed table index IndexTypeBTree /\
    exists ty, key_type table index ty /\ bound_typed f ty /\ bound_typed t ty
  | PFilterNode child pred =>
    plan_ok child /\ forall r, r ∈ prows child -> exists b, evalBool pred r = Ok b
  | PProjectNode child cols =>
    plan_ok child /\ forall r col, r ∈ prows child -> col ∈ cols ->
      0 <= ColumnDefinition.position col /\ is_Some (r !! Z.to_nat (ColumnDefinition.position col))
  | SeqScanNode _ => True
  | _ => False
  end.

(** The tables a plan scans. *)
Fixpoint plan_tables (node : PhysicalPlanNode) : list TableDefinition.t :=
  match node with
  | SeqScanNode table | HashIndexScanNode table _ _ | BTreeIndexScanNode table _ _ _ _ _ => [table]
  | PFilterNode child _ | PProjectNode child _ => plan_tables child
  | _ => []
  end.

(** What the catalog guarantees about a table: the columns found by name are
    its columns, and their oids are distinct. *)
Record table_wf (table : TableDefinition.t) : Prop := {
  wf_listed : forall n col, GetColumn catalog table n = Ok (Some col) ->
    exists cols, GetColumns catalog table = Ok cols /\ col ∈ cols;
  wf_oids : forall cols, GetColumns catalog table = Ok cols -> NoDup (ColumnDefinition.oid <$> cols);
  wf_indexes : ListIndexes catalog table <> Panic
}.
End meaning.

Section ranges.
Context {C : Type} `{CatalogManager C} (catalog : C) (table : TableDefinition.t).
Context (wf : table_wf catalog table).
Implicit Types (col : ColumnDefinition.t) (rng l r : rangeInfo).

(** A range over a column of the table, with bounds of the column's type. *)
Definition range_typed rng : Prop :=
  exists n ty, column_type catalog table n (column rng) ty /\ ty <> ExprTypeBool /\
    bound_typed (from rng) ty /\ bound_typed (to rng) ty.

Definition in_range rng (v : any) : Prop :=
  above (from rng) (fromInclusive rng) v /\ below (to rng) (toInclusive rng) v.

(** The field of a row at a column. *)
Definition field_in rng (rw : row) : Prop :=
  exists v, rw !! Z.to_nat (ColumnDefinition.position (column rng)) = Some v /\ in_range rng v.

Lemma compareAny_spec a b ty :
  value_type a ty -> value_type b ty -> ty <> ExprTypeBool ->
  exists c, compareAny a b = Ok c /\
    (c = -1 /\ value_lt a b \/ c = 0 /\ a = b \/ c = 1 /\ value_lt b a).
Proof. apply compare_spec. Qed.

Lemma mergeFrom_spec l r ty :
  bound_typed (from l) ty -> bound_typed (from r) ty -> ty <> ExprTypeBool ->
  exists f fi, mergeFrom l r = Ok (f, fi) /\ bound_typed f ty /\
    forall v, above (from l) (fromInclusive l) v -> above (from r) (fromInclusive r) v -> above f fi v.
Proof.
  intros Hl Hr Hty. unfold mergeFrom. case_decide as Dl; [by eauto 10|]. case_decide as Dr; [by eauto 10|].
  destruct Hl as [?|Hl], Hr as [?|Hr]; try done.
  destruct (compareAny_spec _ _ _ Hl Hr Hty) as (c & -> & [[-> Hc]|[[-> Hc]|[-> Hc]]]); cbn.
  - exists (from r), (fromInclusive r). split; [done|]. split; [by right|auto].
  - exists (from l), (fromInclusive l && fromInclusive r). split; [done|]. split; [by right|].
    intros v Hv1 Hv2. unfold above in *. rewrite <- Hc in Hv2. rewrite andb_true_iff. naive_solver.
  - exists (from l), (fromInclusive l). split; [done|]. split; [by right|auto].
Qed.

Lemma mergeTo_spec l r ty :
  bound_typed (to l) ty -> bound_typed (to r) ty -> ty <> ExprTypeBool ->
  exists t ti, mergeTo l r = Ok (t, ti) /\ bound_typed t ty /\
    forall v, below (to l) (toInclusive l) v -> below (to r) (toInclusive r) v -> below t ti v.
Proof.
  intros Hl Hr Hty. unfold mergeTo. case_decide as Dl; [by eauto 10|]. case_decide as Dr; [by eauto 10|].
  destruct Hl as [?|Hl], Hr as [?|Hr]; try done.
  destruct (compareAny_spec _ _ _ Hl Hr Hty) as (c & -> & [[-> Hc]|[[-> Hc]|[-> Hc]]]); cbn.
  - exists (to l), (toInclusive l). split; [done|]. split; [by right|auto].
  - exists (to l), (toInclusive l && toInclusive r). split; [done|]. split; [by right|].
    intros v Hv1 Hv2. unfold below in *. rewrite <- Hc in Hv2. rewrite andb_true_iff. naive_solver.
  - exists (to r), (toInclusive r). split; [done|]. split; [by right|auto].
Qed.

(** Two ranges over columns with one oid are over one column. *)
Lemma same_column col col' n n' ty ty' :
  column_type catalog table n col ty -> column_type catalog table n' col' ty' ->
  ColumnDefinition.oid col = ColumnDefinition.oid col' -> col = col' /\ ty = ty'.
Proof using wf.
  intros (Hc & td & Ht & <-) (Hc' & td' & Ht' & <-) Ho.
  destruct (wf_listed _ _ wf _ _ Hc) as (cols & Hcols & Hin).
  destruct (wf_listed _ _ wf _ _ Hc') as (cols' & Hcols' & Hin').
  rewrite Hcols in Hcols'. injection Hcols' as <-.
  assert (col = col') as -> by (by eapply (distinct_eq ColumnDefinition.oid); [apply (wf_oids _ _ wf)|..]).
  split; [done|]. rewrite Ht in Ht'. by injection Ht' as <-.
Qed.

(** The intersection of two ranges of a column; none when it is empty. *)
Lemma mergeRanges_spec l r n ty :
  column r = column l -> column_type catalog table n (column l) ty -> ty <> ExprTypeBool ->
  bound_typed (from l) ty -> bound_typed (to l) ty -> bound_typed (from r) ty -> bound_typed (to r) ty ->
  exists o, mergeRanges l r = Ok o /\
    match o with
    | Some m => range_typed m /\ column m = column l /\ forall v, in_range l v -> in_range r v -> in_range m v
    | None => True
    end.
Proof.
  intros Hcol Hct Hty Fl Tl Fr Tr. unfold mergeRanges.
  destruct (mergeFrom_spec l r ty) as (f & fi & -> & Hf & Hfv); [done..|]. cbn [obind].
  destruct (mergeTo_spec l r ty) as (t & ti & -> & Ht & Htv); [done..|]. cbn [obind].
  set (m := {| column := column l; from := f; fromInclusive := fi; to := t; toInclusive := ti |}).
  assert (Hm : range_typed m /\ column m = column l /\ forall v, in_range l v -> in_range r v -> in_range m v).
  { split; [by exists n, ty|]. split; [done|]. unfold in_range. naive_solver. }
  case_decide as Hd; [|by eexists]. destruct Hd as [Nf Nt], Hf as [?|Hf], Ht as [?|Ht]; try done.
  destruct (compareAny_spec _ _ _ Hf Ht Hty) as (c & -> & _). cbn [obind].
  destruct (0 <? c); by eexists.
Qed.

Lemma extractColValOp_spec op lhs rhs e1 e2 col v op' rw :
  resolves catalog table e1 lhs -> resolves catalog table e2 rhs ->
  ExprType_of lhs = ExprType_of rhs -> ExprType_of lhs <> ExprTypeBool ->
  extractColValOp op lhs rhs = Some (col, v, op') ->
  (exists n, column_type catalog table n col (ExprType_of lhs)) /\ value_type v (ExprType_of lhs) /\
  forall a b, operand rw lhs a -> operand rw rhs b -> related op a b ->
    exists x, rw !! Z.to_nat (ColumnDefinition.position col) = Some x /\ related op' x v.
Proof.
  intros Hl Hr Heq Hty. unfold extractColValOp, tryExtractColVal.
  destruct Hl as [n1 c1 t1 H1|v1|v1|], Hr as [n2 c2 t2 H2|v2|v2|]; try done; cbn in *; intros [= <- <- <-]; subst.
  1-2: split; [by eauto|]; split; [done|]; intros a b [_ Ha] -> Hrel; by eauto.
  1-2: split; [by eauto|]; split; [done|]; intros a b -> [_ Hb] Hrel; exists b; (split; [done|]);
    unfold related in Hrel; destruct Hrel as [[-> ->]|[[-> Hn]|[[-> ?]|[[-> [?| ->]]|[[-> ?]|[-> [?| ->]]]]]]];
    vm_compute invertOp; unfold related; naive_solver.
Qed.

Lemma extractSingleRange_spec op lhs rhs e1 e2 rng :
  resolves catalog table e1 lhs -> resolves catalog table e2 rhs ->
  ExprType_of lhs = ExprType_of rhs -> ExprType_of lhs <> ExprTypeBool ->
  extractSingleRange op lhs rhs = Some rng ->
  range_typed rng /\
  forall rw a b, operand rw lhs a -> operand rw rhs b -> related op a b -> field_in rng rw.
Proof.
  intros Hl Hr Heq Hty E. unfold extractSingleRange in E.
  destruct (extractColValOp op lhs rhs) as [[[col v] op']|] eqn:Ex; [|discriminate E].
  destruct (assoc op' rangeBuilders) as [builder|] eqn:Eb; [|discriminate E]. injection E as <-.
  pose proof (fun rw => extractColValOp_spec op lhs rhs e1 e2 col v op' rw Hl Hr Heq Hty Ex) as Hs.
  destruct (Hs []) as ([n Hn] & Hv & _).
  assert (Hrel : forall x, related op' x v -> in_range (builder (empty col) v) x).
  { cbn [assoc rangeBuilders] in Eb. unfold in_range, above, below, related. intros x Hx.
    repeat case_decide; try discriminate Eb; injection Eb as <-; subst; cbn; naive_solver. }
  assert (Hb : range_typed (builder (empty col) v) /\ column (builder (empty col) v) = col).
  { cbn [assoc rangeBuilders] in Eb.
    repeat case_decide; try discriminate Eb; injection Eb as <-; subst; cbn; (split; [|done]);
      exists n, (ExprType_of lhs); unfold bound_typed; cbn; naive_solver. }
  destruct Hb as [Hb Hc]. split; [done|]. intros rw a b Ha Hb' Hab.
  destruct (Hs rw) as (_ & _ & Hf). destruct (Hf a b Ha Hb' Hab) as (x & Hx & Hxv).
  exists x. rewrite Hc. auto.
Qed.

(** Every row that satisfies a resolved predicate lies in its range. *)
Lemma extractRange_ok e pred :
  resolves catalog table e pred ->
  exists o, extractRange pred = Ok o /\
    forall rng, o = Some rng -> range_typed rng /\ forall rw, truth rw pred -> field_in rng rw.
Proof using wf.
  induction 1 as [name col ty Hc|v|v|op l x l' x' Hl IHl Hx IHx Hop]; try by (eexists; split; [done|discriminate]).
  cbn [extractRange]. destruct IHl as (ol & El & Ol), IHx as (ox & Ex & Ox). case_decide as Hand.
  - subst op. rewrite El. cbn [obind]. rewrite Ex. cbn [obind].
    assert (Ht : forall rw, truth rw (ResolvedBinaryExpr "AND" l' x' ExprTypeBool) -> truth rw l' /\ truth rw x').
    { intros rw. cbn. intros [?|[[? _]|(a & b & _ & _ & Hab)]]; [naive_solver|discriminate|].
      by apply related_comparison in Hab. }
    destruct ol as [rl|], ox as [rx|]; cbn [mergeAndRanges]; try (eexists; (split; [done|]); naive_solver).
    case_decide as Ho; [by eexists|]. destruct (Ol rl eq_refl) as [(n & ty & Hct & Hty & Fl & Tl) Hl'].
    destruct (Ox rx eq_refl) as [(n' & ty' & Hct' & Hty' & Fx & Tx) Hx'].
    destruct (same_column _ _ _ _ _ _ Hct Hct') as [Hsame <-]; [done|].
    destruct (mergeRanges_spec rl rx n ty) as (o & Eo & Hm); [done..|].
    exists o. split; [done|]. intros rng ->. destruct Hm as (Hrt & Hcm & Hin). split; [done|].
    intros rw Hrw. destruct (Ht rw Hrw) as [H1 H2]. destruct (Hl' rw H1) as (v1 & Hv1 & Hi1).
    destruct (Hx' rw H2) as (v2 & Hv2 & Hi2). rewrite <- Hsame, Hv1 in Hv2. injection Hv2 as <-.
    exists v1. rewrite Hcm. auto.
  - eexists. split; [done|]. intros rng E. destruct Hop as [(Hop & _)|(Hop & Heq & Hn)].
    + exfalso. apply logical_ops in Hop as [->| ->]; [done|]. revert E. unfold extractSingleRange, extractColValOp.
      destruct (tryExtractColVal l' x') as [[]|]; [done|]. by destruct (tryExtractColVal x' l') as [[]|].
    + destruct (extractSingleRange_spec op l' x' l x rng) as [Hrt Hin]; [done..|]. split; [done|].
      intros rw. cbn. destruct (comparison_not_logical _ Hop) as [Na No].
      intros [[-> _]|[[-> _]|(a & b & Ha & Hb & Hab)]]; [done..|by eapply Hin].
Qed.
End ranges.

Section selection.
Context {C : Type} `{CatalogManager C} (catalog : C) (rows : TableDefinition.t -> list row).
Implicit Types (table : TableDefinition.t) (col : ColumnDefinition.t).

(** A SELECT over a well-formed table with typed rows, and its filter. *)
Definition table_ok table : Prop :=
  table_wf catalog table /\ forall r, r ∈ rows table -> row_typed catalog table r.

Lemma findIndex_ok table col t :
  table_wf catalog table ->
  exists o, findIndex catalog table col t = Ok o /\
    forall idx, o = Some idx ->
      IndexDefinition.columnOid idx = ColumnDefinition.oid col /\ index_listed catalog table idx t.
Proof.
  intros wf. unfold findIndex. pose proof (wf_indexes _ _ wf) as Hp.
  destruct (ListIndexes catalog table) as [l|e|] eqn:El; cbn; [|by eexists|done].
  eexists. split; [done|]. intros idx E. apply find_some in E as [Hin E].
  apply andb_true_iff in E as [Et Eo]. apply bool_decide_eq_true in Et. apply Z.eqb_eq in Eo.
  split; [done|]. exists l. by rewrite list_elem_of_In.
Qed.

Lemma indexed_value_column table index col n ty r :
  table_wf catalog table -> column_type catalog table n col ty ->
  IndexDefinition.columnOid index = ColumnDefinition.oid col ->
  indexed_value catalog table index r = r !! Z.to_nat (ColumnDefinition.position col).
Proof.
  intros wf [Hc _] Ho. unfold indexed_value.
  destruct (wf_listed _ _ wf _ _ Hc) as (cols & Hcols & Hin).
  pose proof (wf_oids _ _ wf cols Hcols) as Hnd. rewrite Hcols.
  destruct (find _ cols) as [c|] eqn:Ef.
  - apply find_some in Ef as [Hc' Ef]. apply Z.eqb_eq in Ef. apply list_elem_of_In in Hc'.
    by rewrite (distinct_eq ColumnDefinition.oid cols c col) by congruence.
  - apply list_elem_of_In in Hin. pose proof (find_none _ _ Ef col Hin) as Hf. cbn in Hf.
    apply Z.eqb_neq in Hf. congruence.
Qed.

Lemma extractEquality_ok table e pred col v r :
  resolves catalog table e pred -> extractEquality pred = Some (col, v) ->
  (exists n ty, column_type catalog table n col ty /\ ty <> ExprTypeBool /\ value_type v ty) /\
  (truth r pred -> r !! Z.to_nat (ColumnDefinition.position col) = Some v).
Proof.
  intros Hres E. destruct Hres as [| | |op l x l' x' Hl Hx Hop]; try discriminate E. cbn in E.
  case_decide as Heq; [subst op|discriminate E]. cbn [truth].
  assert (Ht : ExprType_of l' = ExprType_of x' /\ ExprType_of l' <> ExprTypeBool).
  { destruct Hop as [(Hop & _)|(_ & ? & ?)]; [by apply logical_ops in Hop as [?|?]|done]. }
  destruct Ht as [Ht Hn].
  destruct Hl as [n1 c1 t1 H1|v1|v1|], Hx as [n2 c2 t2 H2|v2|v2|]; try discriminate E; cbn in E, Ht, Hn; subst;
    injection E as <- <-; (split; [by eexists _, _; split; [done|split]|]);
    intros [[? _]|[[? _]|(a & b & Ha & Hb & Hab)]]; try discriminate; cbn in Ha, Hb; unfold related in Hab; naive_solver.
Qed.

(** What an index scan leaves out does not satisfy the predicate. *)
Lemma filter_scan table e pred (Q : row -> Prop) `{!forall r, Decision (Q r)} :
  table_ok table -> resolves catalog table e pred -> ExprType_of pred = ExprTypeBool ->
  (forall r, r ∈ rows table -> truth r pred -> Q r) ->
  filter (satisfies pred) (filter Q (rows table)) = filter (satisfies pred) (rows table).
Proof.
  intros [_ Htyped] Hres Hb HQ. apply filter_pre. intros r Hin Hsat. apply HQ; [done|].
  destruct (eval_truth catalog table r e pred (Htyped r Hin) Hres Hb) as (x & E & Hx).
  apply Hx. unfold satisfies, evalBool in Hsat. rewrite E in Hsat. by injection Hsat.
Qed.

(** The scan chosen for a predicate reads rows of the table, at least those
    that satisfy the predicate. *)
Definition scan_for table (pred : ResolvedExpr) (p : PhysicalPlanNode) : Prop :=
  plan_ok catalog rows p /\ (forall r, r ∈ prows catalog rows p -> r ∈ rows table) /\
  filter (satisfies pred) (prows catalog rows p) = filter (satisfies pred) (rows table).

Lemma scan_for_filter table e pred p (Q : row -> Prop) `{!forall r, Decision (Q r)} :
  table_ok table -> resolves catalog table e pred -> ExprType_of pred = ExprTypeBool ->
  plan_ok catalog rows p -> prows catalog rows p = filter Q (rows table) ->
  (forall r, truth r pred -> Q r) -> scan_for table pred p.
Proof.
  intros Hok Hres Hb Hp E HQ. split; [done|]. rewrite E. split; [intros r Hr; by apply list_elem_of_filter in Hr as [_ Hr]|].
  eapply filter_scan; eauto.
Qed.

Lemma tryBTreeScan_ok table e pred :
  table_ok table -> resolves catalog table e pred -> ExprType_of pred = ExprTypeBool ->
  exists o, tryBTreeScan catalog table pred = Ok o /\ forall p, o = Some p -> scan_for table pred p.
Proof.
  intros Hok Hres Hb. pose proof (proj1 Hok) as wf. unfold tryBTreeScan.
  destruct (extractRange_ok catalog table wf e pred Hres) as (o & -> & Ho). cbn [obind].
  destruct o as [rng|]; [|by eexists]. destruct (Ho rng eq_refl) as [(n & ty & Hct & Hty & Hf & Ht) Hin].
  destruct (findIndex_ok table (column rng) IndexTypeBTree wf) as (oi & -> & Hoi). cbn [obind].
  eexists. split; [done|]. intros p Ep. destruct oi as [idx|]; [|discriminate Ep]. injection Ep as <-.
  destruct (Hoi idx eq_refl) as [Hoid Hl]. eapply scan_for_filter; [done..| |done|].
  - split; [done|]. exists ty. split; [by exists n, (column rng)|done].
  - intros r Hr. destruct (Hin r Hr) as (v & Hv & Hrange).
    unfold key_between. rewrite (indexed_value_column table idx _ n ty r wf Hct Hoid), Hv. exact Hrange.
Qed.

Lemma tryHashScan_ok table e pred :
  table_ok table -> resolves catalog table e pred -> ExprType_of pred = ExprTypeBool ->
  exists o, tryHashScan catalog table pred = Ok o /\ forall p, o = Some p -> scan_for table pred p.
Proof.
  intros Hok Hres Hb. pose proof (proj1 Hok) as wf. unfold tryHashScan.
  destruct (extractEquality pred) as [[col v]|] eqn:Ee; [|by eexists].
  destruct (findIndex_ok table col IndexTypeHash wf) as (oi & -> & Hoi). cbn [obind].
  eexists. split; [done|]. intros p Ep. destruct oi as [idx|]; [|discriminate Ep]. injection Ep as <-.
  destruct (Hoi idx eq_refl) as [Hoid Hl].
  destruct (extractEquality_ok table e pred col v [] Hres Ee) as [(n & ty & Hct & Hty & Hv) _].
  eapply scan_for_filter; [done..| |done|].
  - split; [done|]. exists ty. split; [by exists n, col|done].
  - intros r Hr. unfold has_key. rewrite (indexed_value_column table idx col n ty r wf Hct Hoid).
    by apply (extractEquality_ok table e pred col v r Hres Ee).
Qed.

Lemma chooseBestScan_ok table e pred :
  table_ok table -> resolves catalog table e pred -> ExprType_of pred = ExprTypeBool ->
  exists p, chooseBestScan catalog table pred = Ok p /\ scan_for table pred p.
Proof.
  intros Hok Hres Hb. unfold chooseBestScan.
  destruct (tryHashScan_ok table e pred Hok Hres Hb) as ([p|] & -> & Hp); cbn [obind]; [by eauto|].
  destruct (tryBTreeScan_ok table e pred Hok Hres Hb) as ([p'|] & -> & Hp'); cbn [obind]; [by eauto|].
  by eexists.
Qed.

Lemma evaluates table e pred r :
  table_ok table -> resolves catalog table e pred -> ExprType_of pred = ExprTypeBool -> r ∈ rows table ->
  exists b, evalBool pred r = Ok b.
Proof.
  intros [_ Ht] Hres Hb Hr. destruct (eval_truth catalog table r e pred (Ht r Hr) Hres Hb) as (x & E & _).
  exists x. unfold evalBool. by rewrite E.
Qed.

(** The columns an analyzed SELECT projects exist in the rows of the table. *)
Definition columns_in table (cols : list ColumnDefinition.t) : Prop :=
  forall r col, r ∈ rows table -> col ∈ cols ->
    0 <= ColumnDefinition.position col /\ is_Some (r !! Z.to_nat (ColumnDefinition.position col)).

Lemma Optimize_select_ok table cols w f :
  table_ok table -> filters catalog table w f ->
  exists p, Optimize catalog (DefaultPlanner.Plan (SelectQueryTree table cols f)) = Ok p /\
    (columns_in table cols -> plan_ok catalog rows p) /\
    prows catalog rows p = lrows rows (DefaultPlanner.Plan (SelectQueryTree table cols f)).
Proof.
  intros Hok Hf. destruct f as [pred|]; [|by eexists]. destruct w as [e|]; [|done].
  destruct Hf as [Hres Hb]. destruct (chooseBestScan_ok table e pred Hok Hres Hb) as (p & Ep & Hp & Hsub & Heq).
  cbn. rewrite Ep. cbn. eexists. split; [done|]. split; [|cbn; by rewrite Heq].
  intros Hcols. cbn. split; [split; [done|]|]; intros r.
  - intros Hr. by eapply evaluates; eauto.
  - intros col Hr. apply list_elem_of_filter in Hr as [_ Hr]. auto.
Qed.
End selection.

(** The plan of a SELECT scans its table and no other. *)
Lemma plan_tables_select {C} `{CatalogManager C} (catalog : C) table cols f p :
  Optimize catalog (DefaultPlanner.Plan (SelectQueryTree table cols f)) = Ok p -> Forall (eq table) (plan_tables p).
Proof.
  destruct f as [pred|]; cbn; [|by intros [= <-]; repeat constructor].
  assert (Hbest : forall best, chooseBestScan catalog table pred = Ok best -> Forall (eq table) (plan_tables best)).
  { intros best. unfold chooseBestScan, tryHashScan, tryBTreeScan.
    assert (Hbt : (let! node := (let! rng := extractRange pred in match rng with
        | None => Ok None
        | Some rng => let! idx := findIndex catalog table (column rng) IndexTypeBTree in
          Ok ((fun idx => BTreeIndexScanNode table idx (from rng) (fromInclusive rng) (to rng) (toInclusive rng)) <$> idx) end) in
        match node with Some node => Ok node | None => Ok (SeqScanNode table) end) = Ok best -> Forall (eq table) (plan_tables best)).
    { destruct (extractRange pred) as [[rng|]|e|]; cbn; [|by intros [= <-]; repeat constructor|by intros [=]..].
      destruct (findIndex _ _ _ _) as [[idx|]|e|]; cbn; [..|by intros [=]|by intros [=]]; intros [= <-]; repeat constructor. }
    destruct (extractEquality pred) as [[col v]|]; cbn [obind]; [|exact Hbt].
    destruct (findIndex catalog table col IndexTypeHash) as [[idx|]|e|]; cbn [obind fmap option_fmap option_map]; [|exact Hbt|by intros [=]..].
    intros [= <-]. repeat constructor. }
  destruct (chooseBestScan catalog table pred) as [best|e|]; cbn; [|done..]. intros [= <-]. cbn. by apply Hbest.
Qed.

(** ** The properties *)
Section properties.
Context {C : Type} `{CatalogManager C} (catalog : C) (rows : TableDefinition.t -> list row).

(** C11: the range extracted from a predicate the analyzer resolved contains
    the field of every row that satisfies the predicate, its bounds have the
    type of the column, and extracting it does not panic. *)
Theorem extractRange_sound table e pred :
  table_wf catalog table -> resolveExpr catalog e table = Ok pred ->
  exists o, extractRange pred = Ok o /\
    forall rng, o = Some rng -> range_typed catalog table rng /\
      forall r, truth r pred -> exists v,
        r !! Z.to_nat (ColumnDefinition.position (column rng)) = Some v /\ in_range rng v.
Proof. intros wf Hres. apply resolveExpr_ok in Hres. by apply extractRange_ok with e. Qed.

(** C5: the plan the optimizer chooses for an analyzed SELECT, whether it
    reads the table, a hash index or a BTree index, has exactly the rows of
    the query: the target columns of the rows of the table that satisfy the
    WHERE clause; and neither extraction nor the choice of the index panics. *)
Theorem Optimize_select all names tn w table cols f :
  Analyze catalog (SelectStmt all names tn w) = Ok (SelectQueryTree table cols f) ->
  table_ok catalog rows table ->
  exists p, Optimize catalog (DefaultPlanner.Plan (SelectQueryTree table cols f)) = Ok p /\
    prows catalog rows p =
      project cols <$> match f with Some pred => filter (satisfies pred) (rows table) | None => rows table end.
Proof.
  intros Ha Hok. apply AnalyzerProofs.Analyze_analyzes in Ha. setoid_rewrite <- lrows_select.
  assert (Hf : filters catalog table w f) by (by inversion Ha).
  destruct (Optimize_select_ok catalog rows table cols w f Hok Hf) as (p & Ep & _ & Hp). by exists p.
Qed.
End properties.

(** The sample catalog, with three users. *)
Definition sample_rows (table : TableDefinition.t) : list row :=
  if decide (table = ListCatalog.users)
  then [[AInt64 1; AString "a"]; [AInt64 2; AString "b"]; [AInt64 3; AString "b"]]
  else [].

Lemma sample_table_wf : table_wf ListCatalog.sample ListCatalog.users.
Proof.
  split.
  - intros n col E. exists [ListCatalog.id; ListCatalog.name]. split; [done|].
    injection E as E. repeat case_bool_decide; try discriminate E; injection E as <-; set_solver.
  - intros cols [= <-]. vm_compute. repeat constructor; set_solver.
  - discriminate.
Qed.

Lemma sample_table_ok : table_ok ListCatalog.sample sample_rows ListCatalog.users.
Proof.
  split; [apply sample_table_wf|]. intros r Hr. vm_compute in Hr.
  repeat (apply elem_of_cons in Hr as [->|Hr]; [apply sample_row_typed|]). by apply not_elem_of_nil in Hr.
Qed.

Lemma extractRange_sound_witness :
  exists o, extractRange resolved_sample = Ok o /\
    forall rng, o = Some rng -> range_typed ListCatalog.sample ListCatalog.users rng /\
      forall r, truth r resolved_sample -> exists v,
        r !! Z.to_nat (ColumnDefinition.position (column rng)) = Some v /\ in_range rng v.
Proof.
  apply (extractRange_sound ListCatalog.sample ListCatalog.users id_at_least_2_named_b).
  - apply sample_table_wf.
  - vm_compute. reflexivity.
Defined.

Definition sample_select : Statement :=
  SelectStmt true [] (AnalyzerProofs.ident "users")
    (Some (BinaryExpr ">=" (ColumnRefExpr (AnalyzerProofs.ident "id")) (LiteralInt64Expr 2))).
Definition sample_filter : ResolvedExpr := Eval vm_compute in
  match Analyze ListCatalog.sample sample_select with
  | Ok (SelectQueryTree _ _ (Some f)) => f
  | _ => ResolvedConst ANil ExprTypeBool
  end.

Lemma Optimize_select_witness :
  exists p,
    Optimize ListCatalog.sample (DefaultPlanner.Plan
      (SelectQueryTree ListCatalog.users [ListCatalog.id; ListCatalog.name] (Some sample_filter))) = Ok p /\
    prows ListCatalog.sample sample_rows p =
      project [ListCatalog.id; ListCatalog.name] <$>
        filter (satisfies sample_filter) (sample_rows ListCatalog.users).
Proof.
  apply (Optimize_select ListCatalog.sample sample_rows true [] (AnalyzerProofs.ident "users")
    (Some (BinaryExpr ">=" (ColumnRefExpr (AnalyzerProofs.ident "id")) (LiteralInt64Expr 2)))).
  - vm_compute. reflexivity.
  - apply sample_table_ok.
Defined.
End PhysicalSpec.
