(* ===== verification/Storage.v ===== *)
(** * Storage: what the executors use of the layers below

    [TID] is [index/tid.go].  [Storage W] is the interface of the executors to
    the table heap ([storage.TableHeap]), the indexes ([index.Index],
    [index.IndexManager]) and the updates of the catalog, over a state [W] of
    pages, files and maps; the queries of the catalog are [CatalogManager W].

    [StorageLaws] is the contract of the reading calls: relative to the
    contents of the tables ([contents]) and the catalog, which reading calls
    keep ([same]), a scan lists the rows, a read returns one, and an index
    search returns the TIDs of the rows with the key, in some order.  With
    [faulty] a call may also fail with an error; nothing panics.  [ListStore]
    is a storage held in lists that meets the contract. *)

From S2P Require Import Prelude GoRuntime Ast CatalogModel Semantic Eval Planner Optimizer.

Record TID : Type := NewTID { tid_pageID : Z; tid_slotID : Z }.

#[export] Instance TID_eq_dec : EqDecision TID.
Proof. solve_decision. Defined.

Class Storage (W : Type) : Type := {
  storage_catalog :: CatalogManager W;
  TableHeap : Type;
  Index : Type;
  NewTableHeap : TableDefinition.t -> ST W TableHeap;
  ScanTids : TableHeap -> ST W (list TID);
  ReadRow : TableHeap -> TID -> ST W row;
  InsertRow : TableHeap -> list any -> ST W TID;
  GetOrCreate : IndexDefinition.t -> ST W Index;
  Search : Index -> any -> ST W (list TID);
  RangeSearch : Index -> any -> bool -> any -> bool -> ST W (list TID);
  IndexInsert : Index -> any -> TID -> ST W unit;
  CreateTable : string -> list ColumnDefinition.t -> ST W TableDefinition.t;
  CreateIndex : string -> string -> string -> IndexType -> ST W IndexDefinition.t;
  FlushAllPages : ST W unit
}.

(** A reading call: it keeps [same], and returns a value that satisfies [Q]
    or, in a faulty storage, an error. *)
Definition reads {W A} (same : W -> W -> Prop) (faulty : Prop) (m : ST W A) (w : W) (Q : A -> Prop) : Prop :=
  same w (m w).2 /\
  match (m w).1 with Ok a => Q a | Err _ => faulty | Panic => False end.

(** [sound w t]: the storage holds the table and its indexes well.
    [heap_for], [index_for]: the handle is one of the table, of the index. *)
Class StorageLaws (W : Type) `{Storage W} : Type := {
  faulty : Prop;
  contents : W -> TableDefinition.t -> list (TID * row);
  sound : W -> TableDefinition.t -> Prop;
  heap_for : W -> TableHeap -> TableDefinition.t -> Prop;
  index_for : W -> Index -> IndexDefinition.t -> Prop;
  same : relation W;
  same_preorder :: PreOrder same;
  same_sound w w' t : same w w' -> sound w t -> sound w' t;
  same_contents w w' t : same w w' -> sound w t -> contents w' t = contents w t;
  same_heap w w' h t : same w w' -> heap_for w h t -> heap_for w' h t;
  same_index w w' ix idx : same w w' -> index_for w ix idx -> index_for w' ix idx;
  same_GetColumns w w' t : same w w' -> GetColumns w' t = GetColumns w t;
  same_ListIndexes w w' t : same w w' -> ListIndexes w' t = ListIndexes w t;
  same_GetColumn w w' t n : same w w' -> GetColumn w' t n = GetColumn w t n;
  same_GetTypeByOid w w' o : same w w' -> GetTypeByOid w' o = GetTypeByOid w o;
  rows_nonempty w t tid r : sound w t -> (tid, r) ∈ contents w t -> r <> [];
  heap_reads w t : sound w t -> reads same faulty (NewTableHeap t) w (fun h => heap_for w h t);
  scan_reads w h t :
    sound w t -> heap_for w h t -> reads same faulty (ScanTids h) w (fun tids => tids = fst <$> contents w t);
  row_reads w h t tid r :
    sound w t -> heap_for w h t -> (tid, r) ∈ contents w t -> reads same faulty (ReadRow h tid) w (fun r' => r' = r);
  index_reads w t idx kt ty :
    sound w t -> PhysicalSpec.index_listed w t idx kt -> PhysicalSpec.key_type w t idx ty ->
    reads same faulty (GetOrCreate idx) w (fun ix => index_for w ix idx);
  search_reads w t ix idx v ty :
    sound w t -> index_for w ix idx -> PhysicalSpec.index_listed w t idx IndexTypeHash ->
    PhysicalSpec.key_type w t idx ty -> Typing.value_type v ty ->
    reads same faulty (Search ix v) w (fun tids =>
      tids ≡ₚ fst <$> filter (fun e => PhysicalSpec.has_key w t idx v e.2) (contents w t));
  range_reads w t ix idx f fi u ui ty :
    sound w t -> index_for w ix idx -> PhysicalSpec.index_listed w t idx IndexTypeBTree ->
    PhysicalSpec.key_type w t idx ty ->
    PhysicalSpec.bound_typed f ty -> PhysicalSpec.bound_typed u ty ->
    reads same faulty (RangeSearch ix f fi u ui) w (fun tids =>
      tids ≡ₚ fst <$> filter (fun e => PhysicalSpec.key_between w t idx f fi u ui e.2) (contents w t))
}.

(** ** A storage held in lists *)
Module ListStore.

Record t : Type := {
  cat : ListCatalog.t;
  data : list (TableDefinition.t * list row)
}.

Definition rows_of (s : t) (table : TableDefinition.t) : list row :=
  default [] (snd <$> find (fun e => TableDefinition.oid e.1 =? TableDefinition.oid table) (data s)).

Definition contents (s : t) (table : TableDefinition.t) : list (TID * row) :=
  filter (fun e => e.2 <> []) (imap (fun i r => (NewTID 0 (Z.of_nat i), r)) (rows_of s table)).

#[global] Instance catalog : CatalogManager t := {
  GetTable s := GetTable (cat s);
  GetColumns s := GetColumns (cat s);
  GetColumn s := GetColumn (cat s);
  GetTypeByOid s := GetTypeByOid (cat s);
  GetTypeByName s := GetTypeByName (cat s);
  GetIndex s := GetIndex (cat s);
  ListIndexes s := ListIndexes (cat s);
  error_text _ := ""
}.

(** An index is its table and its definition. *)
Definition handle : Type := IndexDefinition.t.

Definition table_of (s : t) (ix : handle) : option TableDefinition.t :=
  fst <$> find (fun e => TableDefinition.oid e.1 =? IndexDefinition.tableOid ix) (ListCatalog.tables (cat s)).

Definition select (s : t) (ix : handle) (P : TableDefinition.t -> row -> Prop)
    `{!forall tb r, Decision (P tb r)} : list TID :=
  match table_of s ix with
  | Some tb => fst <$> filter (fun e => P tb e.2) (contents s tb)
  | None => []
  end.

Definition insert_row (table : TableDefinition.t) (vals : row) : ST t TID := fun s =>
  (Ok (NewTID 0 (Z.of_nat (length (rows_of s table)))),
   {| cat := cat s; data := (table, rows_of s table ++ [vals]) :: data s |}).

Definition create_table (n : string) (cols : list ColumnDefinition.t) : ST t TableDefinition.t := fun s =>
  let tb := {| TableDefinition.oid := Z.of_nat (S (length (ListCatalog.tables (cat s))));
               TableDefinition.name := n; TableDefinition.typ := "TABLE";
               TableDefinition.fileNode := n; TableDefinition.pagesCount := 0 |} in
  (Ok tb, {| cat := {| ListCatalog.tables := ListCatalog.tables (cat s) ++ [(tb, cols)];
                       ListCatalog.types := ListCatalog.types (cat s);
                       ListCatalog.indexes := ListCatalog.indexes (cat s) |}; data := data s |}).

Definition create_index (n tn cn : string) (ty : IndexType) : ST t IndexDefinition.t := fun s =>
  match find (fun e => bool_decide (TableDefinition.name e.1 = tn)) (ListCatalog.tables (cat s)) with
  | None => (Err ErrTableNotFound, s)
  | Some (tb, cols) =>
    match find (fun col => bool_decide (ColumnDefinition.name col = cn)) cols with
    | None => (Err ErrColumnNotFound, s)
    | Some col =>
      let def := {| IndexDefinition.oid := Z.of_nat (S (length (ListCatalog.indexes (cat s))));
                    IndexDefinition.name := n; IndexDefinition.tableOid := TableDefinition.oid tb;
                    IndexDefinition.columnOid := ColumnDefinition.oid col;
                    IndexDefinition.keyTypeOid := ColumnDefinition.typeOid col;
                    IndexDefinition.indexType := ty; IndexDefinition.fileNode := n;
                    IndexDefinition.metaPageId := 0; IndexDefinition.rootPageId := 0 |} in
      (Ok def, {| cat := {| ListCatalog.tables := ListCatalog.tables (cat s);
                            ListCatalog.types := ListCatalog.types (cat s);
                            ListCatalog.indexes := ListCatalog.indexes (cat s) ++ [def] |};
                  data := data s |})
    end
  end.

#[global] Instance storage : Storage t := {
  TableHeap := TableDefinition.t;
  Index := handle;
  NewTableHeap tb := sret tb;
  ScanTids tb := fun s => (Ok (fst <$> contents s tb), s);
  ReadRow tb tid := fun s =>
    (match rows_of s tb !! Z.to_nat (tid_slotID tid) with Some r => Ok r | None => Err ErrSlotIndex end, s);
  InsertRow := insert_row;
  GetOrCreate def := sret def;
  Search ix v := fun s => (Ok (select s ix (fun tb => PhysicalSpec.has_key s tb ix v)), s);
  RangeSearch ix f fi u ui := fun s => (Ok (select s ix (fun tb => PhysicalSpec.key_between s tb ix f fi u ui)), s);
  IndexInsert _ _ _ := sret tt;
  CreateTable := create_table;
  CreateIndex := create_index;
  FlushAllPages := sret tt
}.

Lemma same_oid s tb tb' :
  TableDefinition.oid tb = TableDefinition.oid tb' ->
  contents s tb = contents s tb' /\
  forall ix r, PhysicalSpec.indexed_value s tb ix r = PhysicalSpec.indexed_value s tb' ix r.
Proof.
  intros E. unfold contents, rows_of, PhysicalSpec.indexed_value. cbn. rewrite E. done.
Qed.

Lemma table_of_listed s tb ix ty kt :
  PhysicalSpec.index_listed s tb ix kt -> PhysicalSpec.key_type s tb ix ty ->
  exists tb', table_of s ix = Some tb' /\ TableDefinition.oid tb' = TableDefinition.oid tb.
Proof.
  intros (l & Hl & Hin & _) (n & col & [Hc _] & _). injection Hl as <-.
  apply list_elem_of_filter in Hin as [Ho _]. unfold table_of. rewrite Ho. injection Hc as Hc.
  destruct (find _ (ListCatalog.tables (cat s))) as [[tb' cols]|] eqn:Ef; [|discriminate Hc].
  exists tb'. split; [done|]. apply find_some in Ef as [_ Ef]. by apply Z.eqb_eq in Ef.
Qed.

Lemma select_spec s tb ix ty kt (P : TableDefinition.t -> row -> Prop) `{!forall tb r, Decision (P tb r)} :
  PhysicalSpec.index_listed s tb ix kt -> PhysicalSpec.key_type s tb ix ty ->
  (forall tb' r, (forall r, PhysicalSpec.indexed_value s tb' ix r = PhysicalSpec.indexed_value s tb ix r) ->
    P tb' r <-> P tb r) ->
  select s ix P = fst <$> filter (fun e => P tb e.2) (contents s tb).
Proof.
  intros Hl Hk HP. destruct (table_of_listed s tb ix ty kt Hl Hk) as (tb' & E & Ho). unfold select. rewrite E.
  destruct (same_oid s tb' tb Ho) as [-> Hv]. f_equal. apply list_filter_iff. intros e. by apply HP.
Qed.

#[global] Program Instance laws : StorageLaws t := {
  faulty := False;
  Storage.contents := contents;
  sound _ _ := True;
  heap_for _ h tb := h = tb;
  index_for _ ix idx := ix = idx;
  same := eq
}.
Next Obligation. done. Qed.
Next Obligation. by intros w w' tb ->. Qed.
Next Obligation. by intros w w' h tb ->. Qed.
Next Obligation. by intros w w' ix idx ->. Qed.
Next Obligation. by intros w w' tb ->. Qed.
Next Obligation. by intros w w' tb ->. Qed.
Next Obligation. by intros w w' tb n ->. Qed.
Next Obligation. by intros w w' o ->. Qed.
Next Obligation. intros w tb tid r _ Hin. by apply list_elem_of_filter in Hin as [? _]. Qed.
Next Obligation. done. Qed.
Next Obligation. intros w h tb _ Hh. cbn in Hh. by subst. Qed.
Next Obligation.
  intros w h tb tid r _ Hh Hin. cbn in Hh. subst h. apply list_elem_of_filter in Hin as [_ Hin].
  apply elem_of_lookup_imap in Hin as (i & x & [= -> ->] & Hx). unfold reads. cbn.
  by rewrite Nat2Z.id, Hx.
Qed.
Next Obligation. done. Qed.
Next Obligation.
  intros w tb ix idx v ty _ Hi Hl Hk _. cbn in Hi. subst ix. split; [done|]. cbn. rewrite (select_spec w tb idx ty IndexTypeHash); [done..|].
  intros tb' r Hv. unfold PhysicalSpec.has_key. by rewrite Hv.
Qed.
Next Obligation.
  intros w tb ix idx f fi u ui ty _ Hi Hl Hk _ _. cbn in Hi. subst ix. split; [done|]. cbn. rewrite (select_spec w tb idx ty IndexTypeBTree); [done..|].
  intros tb' r Hv. unfold PhysicalSpec.key_between. by rewrite Hv.
Qed.
End ListStore.
