(* ===== verification/TableHeap.v ===== *)
(** * TableHeap: the rows of a table in the pages of its file

    Models [storage/table_heap.go] over the buffer pool and the catalog
    manager.  A row is the concatenation of its serialized fields; a page
    holds rows as records; a [TID] is a page and a slot number.  The table
    definition a heap works with is the one it was created with: a heap that
    adds a page tells the catalog, which makes a new definition.

    [holds] relates a store of pages to the records of a table.  The theorems
    show that encoding and decoding rows are inverse, that scanning and reading
    see exactly the rows of the readable pages, and that inserting puts the row
    into the first readable page with room and changes no other row.  A row for
    which a page must be added is accepted but is not durable
    ([added_row_not_durable]; [inserted_row_lost] is an example): the page never
    becomes dirty.  To the catalog an insertion is a step of a session
    ([InsertRow_session]). *)

From S2P Require Import Prelude GoRuntime Utf8 Ast HeapPage TupleSerializer Replacer PageFile BufferPool PageStore CatalogModel Semantic CatalogManager CatalogJournal Eval Planner Optimizer Storage.
From stdpp Require Import sorting.
#[local] Open Scope Z_scope.

Module TableHeap.
Import HeapBufferPoolManager DefaultCatalogManager.

(** ** Names of types *)

(** [unicode.IsSpace]. *)
Definition IsSpace (c : Z) : bool :=
  (9 <=? c) && (c <=? 13) || (c =? 0x20) || (c =? 0x85) || (c =? 0xA0) || (c =? 0x1680) ||
  (0x2000 <=? c) && (c <=? 0x200a) || (c =? 0x2028) || (c =? 0x2029) || (c =? 0x202f) ||
  (c =? 0x205f) || (c =? 0x3000).

Fixpoint trim_left (f : Z -> bool) (l : list Z) : list Z :=
  match l with
  | [] => []
  | c :: l' => if f c then trim_left f l' else l
  end.
Definition trim_right (f : Z -> bool) (l : list Z) : list Z := reverse (trim_left f (reverse l)).

(** [unicode.ToUpper], on the runes whose upper case is an ASCII letter (the
    letters a to z, dotless i and long s).  Other runes stay outside ASCII and
    are left as they are: the result is only compared with ASCII names. *)
Definition upper_rune (c : Z) : Z :=
  if (97 <=? c) && (c <=? 122) then c - 32 else if c =? 0x131 then 73 else if c =? 0x17F then 83 else c.

(** [strings.ToUpper(strings.TrimSpace(strings.TrimRight(name, "\x00")))], as
    runes. *)
Definition normalized (name : string) : list Z :=
  upper_rune <$> trim_right IsSpace (trim_left IsSpace (trim_right (Z.eqb 0) (runes_of name))).

Definition typeNameToDataType (name : string) : Z :=
  let spells s := bool_decide (normalized name = runes_of s) in
  if spells "INT64" || spells "INT" || spells "INTEGER" then INT64
  else if spells "VARCHAR" then VARCHAR
  else 0.

(** ** The heap *)
Record t : Type := { table : TableDefinition.t; columns : list ColumnDefinition.t }.

Definition pageKey (heap : t) (pageID : Z) : PageKey :=
  NewPageKey (TableDefinition.fileNode (table heap)) pageID.

(** [append(a, b...)] on slices that may be nil. *)
Definition append_opt (a b : option (list byte)) : option (list byte) :=
  match a, default [] b with
  | None, [] => None
  | _, l => Some (default [] a ++ l)
  end.

Definition getFieldLength (dt : Z) (data : list byte) : outcome Z :=
  if dt =? INT64 then Ok 8
  else if dt =? VARCHAR then let! b := go_index data 0 in Ok (1 + u8 b)
  else Ok 0.

Section operations.
Context {R D : Type} `{!Replacer R, !PageFileManager D, !FileStat D}.
Implicit Types (cm : DefaultCatalogManager.t R D) (heap : t).

(** The data type of a column: [GetTypeByOid], [typeDef.Name()] (a nil
    dereference for an unknown oid) and the test for an unknown type. *)
Definition column_type cm (col : ColumnDefinition.t) : outcome Z :=
  let! typeDef := GetTypeByOid cm (ColumnDefinition.typeOid col) in
  match typeDef with
  | None => Panic
  | Some typeDef =>
    let dt := typeNameToDataType (TypeDefinition.name typeDef) in
    if dt =? 0 then Err (Errorf "unknown type") else Ok dt
  end.

Fixpoint serialize_columns cm (columns : list ColumnDefinition.t) (values : list any) (i : Z)
    (data : option (list byte)) : outcome (option (list byte)) :=
  match columns with
  | [] => Ok data
  | col :: columns =>
    let! dt := column_type cm col in
    let! value := go_index values i in
    let! tuple := Serialize value dt in
    serialize_columns cm columns values (i + 1) (append_opt data (TupleSerializer.data tuple))
  end.

Definition serializeRow cm heap (values : list any) : outcome (option (list byte)) :=
  serialize_columns cm (columns heap) values 0 None.

Fixpoint deserialize_columns cm (columns : list ColumnDefinition.t) (data : list byte) (offset : Z)
    (row : list any) : outcome (list any) :=
  match columns with
  | [] => Ok row
  | col :: columns =>
    let! dt := column_type cm col in
    let! rest := go_slice data offset (Z.of_nat (length data)) in
    let! len := getFieldLength dt rest in
    let! fieldData := go_slice data offset (offset + len) in
    let! value := Deserialize (NewHeapTuple (Some fieldData) dt) in
    deserialize_columns cm columns data (offset + len) (row ++ [value])
  end.

Definition deserializeRow cm heap (data : list byte) : outcome (list any) :=
  deserialize_columns cm (columns heap) data 0 [].

Definition NewTableHeap (table : TableDefinition.t) : ST (DefaultCatalogManager.t R D) t :=
  cm <- sget ;;
  columns <- slift (GetColumns cm table) ;;
  sret {| table := table; columns := columns |}.

(** [GetPage] and [NewHeapPageFromBuffer] on the bytes of its page. *)
Definition heapPage heap (pageID : Z) : ST (DefaultCatalogManager.t R D) PageRef :=
  slot <- on_pool (GetPage (pageKey heap pageID)) ;;
  p <- on_pool (PageStore.Page slot) ;;
  on_pool (PageStore.FromBuffer pageID p).

(** The TIDs of the slots of a page. *)
Definition slot_tids (pageID slotCount : Z) : list TID :=
  (fun slotID => NewTID pageID (int16 slotID)) <$> seqZ 0 slotCount.

Fixpoint scan_pages heap (pageID : Z) (n : nat) (tids : list TID) : ST (DefaultCatalogManager.t R D) (list TID) :=
  match n with
  | O => sret tids
  | S n =>
    p <- catch (heapPage heap pageID) ;;
    match p with
    | None => scan_pages heap (pageID + 1) n tids
    | Some p =>
      slotCount <- on_pool (PageStore.Size p) ;;
      scan_pages heap (pageID + 1) n (tids ++ slot_tids pageID slotCount)
    end
  end.

Definition ScanTids heap : ST (DefaultCatalogManager.t R D) (list TID) :=
  scan_pages heap 0 (Z.to_nat (TableDefinition.pagesCount (table heap))) [].

Definition ReadRow heap (tid : TID) : ST (DefaultCatalogManager.t R D) (list any) :=
  p <- heapPage heap (tid_pageID tid) ;;
  data <- on_pool (PageStore.Read p (tid_slotID tid)) ;;
  cm <- sget ;; slift (deserializeRow cm heap data).

Definition tryInsertIntoPage heap (pageID : Z) (data : option (list byte)) : ST (DefaultCatalogManager.t R D) TID :=
  p <- heapPage heap pageID ;;
  slotID <- on_pool (PageStore.Size p) ;;
  on_pool (PageStore.Write p data) ;;;
  on_pool (UpdatePage (pageKey heap pageID) (Some p)) ;;;
  sret (NewTID (int32 pageID) (int16 slotID)).

Definition insertIntoNewPage heap (data : option (list byte)) : ST (DefaultCatalogManager.t R D) TID :=
  let pageID := TableDefinition.pagesCount (table heap) in
  newPage <- on_pool (PageStore.New pageID) ;;
  on_pool (PageStore.Write newPage data) ;;;
  on_pool (NewPage (pageKey heap pageID) (Some newPage)) ;;;
  UpdatePagesCount (table heap) (int32 (pageID + 1)) ;;;
  sret (NewTID (int32 pageID) 0).

(** The loop of [InsertRow] over the pages from [pageID] on: the TID of the
    first page that takes the record. *)
Fixpoint insert_pages heap (pageID : Z) (n : nat) (data : option (list byte)) :
    ST (DefaultCatalogManager.t R D) (option TID) :=
  match n with
  | O => sret None
  | S n =>
    tid <- catch (tryInsertIntoPage heap pageID data) ;;
    match tid with
    | Some tid => sret (Some tid)
    | None => insert_pages heap (pageID + 1) n data
    end
  end.

Definition InsertRow heap (values : list any) : ST (DefaultCatalogManager.t R D) TID :=
  cm <- sget ;;
  data <- slift (serializeRow cm heap values) ;;
  tid <- insert_pages heap 0 (Z.to_nat (TableDefinition.pagesCount (table heap))) data ;;
  match tid with
  | Some tid => sret tid
  | None => insertIntoNewPage heap data
  end.
End operations.
End TableHeap.

(** ** Properties *)
Module HeapSpec.
Import HeapBufferPoolManager DefaultCatalogManager CatalogSpec TableHeap.

(** *** Rows as bytes *)
Lemma append_opt_some a b : b <> [] -> append_opt a (Some b) = Some (default [] a ++ b).
Proof. by destruct a, b. Qed.

Lemma append_opt_default a b : default [] (append_opt a b) = default [] a ++ default [] b.
Proof. destruct a as [a|], b as [[|c b]|]; cbn; by rewrite ?app_nil_r. Qed.

Lemma append_opt_app a b c : c <> [] -> append_opt (append_opt a (Some b)) (Some c) = append_opt a (Some (b ++ c)).
Proof.
  intros Hc. rewrite (append_opt_some a (b ++ c)) by (by intros [_ ?]%app_eq_nil). rewrite append_opt_some by done.
  by rewrite append_opt_default, app_assoc.
Qed.

(** A storable value as the bytes of its field: the length of the field is
    found from its first bytes, whatever follows. *)
Lemma field_codec v dt :
  storable v dt -> exists bs, Serialize v dt = Ok (NewHeapTuple (Some bs) dt) /\ bs <> [] /\
    Deserialize (NewHeapTuple (Some bs) dt) = Ok v /\
    forall rest, getFieldLength dt (bs ++ rest) = Ok (Z.of_nat (length bs)).
Proof.
  intros Hs. pose proof Hs as Hs0. destruct v as [|n|s|b]; try done.
  - destruct Hs as [-> Hn]. exists (be_bytes 8 (uint64 n)). split; [done|]. split; [done|].
    split; [by apply deserializeInt64_bytes|]. intros rest. by rewrite length_be_bytes.
  - destruct Hs as (-> & Hl & Hv). unfold Serialize, serializers, serializeVarchar, maxVarCharLength. rewrite decide_False by done. cbn -[bytes_of]. unfold string_len in Hl. rewrite (proj2 (Z.ltb_ge _ _)) by lia.
    eexists. split; [done|]. split; [done|]. split.
    + unfold Deserialize, deserializers. cbn -[deserializeVarchar bytes_of].
      unfold string_len in *. rewrite deserializeVarchar_bytes, Hv by done. by rewrite string_of_bytes_of.
    + intros rest. change (Ok (1 + u8 (byte_of (Z.of_nat (length (bytes_of s))))) =
        Ok (Z.of_nat (S (length (bytes_of s))))). rewrite u8_byte_of, Z.mod_small by lia. f_equal. lia.
Qed.

Section rows.
Context {R D : Type} `{!Replacer R, !PageFileManager D, !FileStat D}.
Implicit Types (cm : DefaultCatalogManager.t R D) (heap : t).

(** The columns have known types, and the values can be stored in them. *)
Definition typed cm (cols : list ColumnDefinition.t) (dts : list Z) : Prop :=
  Forall2 (fun col dt => column_type cm col = Ok dt) cols dts.
Definition row_ok cm (cols : list ColumnDefinition.t) (values : list any) : Prop :=
  exists dts, typed cm cols dts /\ Forall2 storable values dts.

Lemma columns_codec cm cols dts values :
  typed cm cols dts -> Forall2 storable values dts ->
  exists bs, (cols <> [] -> bs <> []) /\
    (forall pre more acc, serialize_columns cm cols (pre ++ values ++ more) (Z.of_nat (length pre)) acc =
       Ok (append_opt acc (Some bs))) /\
    forall pre rest row, deserialize_columns cm cols (pre ++ bs ++ rest) (Z.of_nat (length pre)) row = Ok (row ++ values).
Proof.
  intros Ht. revert values. induction Ht as [|col dt cols dts Hcol _ IH]; intros values Hv.
  { inversion Hv; subst. exists []. split; [done|]. split.
    - intros pre more acc. cbn. destruct acc; cbn; by rewrite ?app_nil_r.
    - intros. cbn. by rewrite app_nil_r. }
  inversion Hv as [|v ? values' ? Hst Hv']; subst. destruct (IH _ Hv') as (bs & _ & Hser & Hdes).
  destruct (field_codec v dt Hst) as (fb & Es & Hne & Ed & Hlen). exists (fb ++ bs).
  split; [by destruct fb|]. split.
  - intros pre more acc. cbn [serialize_columns]. rewrite Hcol. cbn [obind].
    unfold go_index. rewrite decide_True by lia. rewrite Nat2Z.id, lookup_app_r, Nat.sub_diag by done. cbn [of_option obind].
    change (((v :: values') ++ more) !! 0%nat) with (Some v). cbn [of_option obind]. rewrite Es. cbn [obind].
    specialize (Hser (pre ++ [v]) more (append_opt acc (Some fb))).
    rewrite <- app_assoc in Hser. cbn [app] in Hser.
    replace (Z.of_nat (length (pre ++ [v]))) with (Z.of_nat (length pre) + 1) in Hser by len.
    cbn [data NewHeapTuple]. rewrite <- app_comm_cons, Hser. f_equal. destruct bs as [|b0 bs].
    + rewrite app_nil_r. rewrite (append_opt_some _ fb) by done. destruct acc; cbn; by rewrite ?app_nil_r.
    + by rewrite append_opt_app.
  - intros pre rest row. cbn [deserialize_columns]. rewrite Hcol. cbn [obind].
    rewrite (go_slice_ok _ _ (Z.of_nat (length _))) by len. cbn [obind].
    assert (Hsub : sub (Z.to_nat (Z.of_nat (length pre)))
      (Z.to_nat (Z.of_nat (length (pre ++ (fb ++ bs) ++ rest)) - Z.of_nat (length pre))) (pre ++ (fb ++ bs) ++ rest)
      = fb ++ bs ++ rest).
    { unfold sub. rewrite Nat2Z.id, drop_app_length, take_ge by len. by rewrite <- app_assoc. }
    rewrite Hsub, Hlen. cbn [obind].
    rewrite go_slice_ok by len. cbn [obind].
    rewrite <- (app_assoc fb). rewrite (sub_app_exact _ _ pre fb) by lia. rewrite Ed. cbn [obind].
    specialize (Hdes (pre ++ fb) rest (row ++ [v])).
    rewrite <- !app_assoc in Hdes. cbn [app] in Hdes.
    replace (Z.of_nat (length pre) + Z.of_nat (length fb)) with (Z.of_nat (length (pre ++ fb))) by len. exact Hdes.
Qed.

(** C19: rows survive the heap's encoding: a row of storable values (one per
    column of a table with columns, further values being ignored) is encoded,
    and decoding the bytes gives the values back, also when other bytes follow
    them. *)
Theorem row_roundtrip cm heap values more :
  columns heap <> [] -> row_ok cm (columns heap) values ->
  exists bs, serializeRow cm heap (values ++ more) = Ok (Some bs) /\
    forall rest, deserializeRow cm heap (bs ++ rest) = Ok values.
Proof.
  intros Hc (dts & Ht & Hv). destruct (columns_codec _ _ _ _ Ht Hv) as (bs & Hne & Hser & Hdes). exists bs. split.
  - unfold serializeRow. etransitivity; [exact (Hser [] more None)|]. rewrite append_opt_some; auto.
  - intros rest. exact (Hdes [] rest []).
Qed.

(** [d] is the record of the row [r]. *)
Definition encodes cm heap (r : list any) (d : list byte) : Prop :=
  row_ok cm (columns heap) r /\ serializeRow cm heap r = Ok (Some d).

Lemma encodes_decodes cm heap r d : columns heap <> [] -> encodes cm heap r d -> deserializeRow cm heap d = Ok r.
Proof.
  intros Hc [(dts & Ht & Hv) E]. destruct (columns_codec _ _ _ _ Ht Hv) as (bs & Hne & Hser & Hdes).
  specialize (Hser [] [] None). specialize (Hdes [] [] []). rewrite !app_nil_r in *. cbn [length app] in *.
  unfold serializeRow in E. change (Z.of_nat 0) with 0 in Hser. rewrite Hser in E.
  rewrite append_opt_some in E by auto. injection E as <-. exact Hdes.
Qed.

(** Only the types of the catalog matter. *)
Lemma column_type_types cm cm' col :
  typesByOid (cat cm') = typesByOid (cat cm) -> column_type cm' col = column_type cm col.
Proof. intros E. unfold column_type, GetTypeByOid. by rewrite E. Qed.

Lemma serialize_columns_types cm cm' cols values i acc :
  typesByOid (cat cm') = typesByOid (cat cm) ->
  serialize_columns cm' cols values i acc = serialize_columns cm cols values i acc.
Proof.
  intros E. revert i acc. induction cols as [|col cols IH]; intros i acc; cbn [serialize_columns]; [done|].
  rewrite (column_type_types cm cm') by done. destruct (column_type cm col); cbn [obind]; [|done..].
  destruct (go_index values i); cbn [obind]; [|done..]. destruct (Serialize _ _); cbn [obind]; [|done..]. apply IH.
Qed.

Lemma encodes_types cm cm' heap r d :
  typesByOid (cat cm') = typesByOid (cat cm) -> encodes cm heap r d -> encodes cm' heap r d.
Proof.
  intros E [(dts & Ht & Hv) Hs]. split.
  - exists dts. split; [|done]. eapply Forall2_impl; [exact Ht|]. intros col dt. by rewrite (column_type_types cm cm').
  - unfold serializeRow. by rewrite (serialize_columns_types cm cm').
Qed.
End rows.

(** *** Tables as pages of rows *)
Section heap.
Context {R D : Type} `{RR : Replacer R, RL : !ReplacerLaws R, DM : PageFileManager D, DL : !PageFileLaws D}.
Context `{FT : !FileStat D, FL : !FileStatLaws D}.
Context (root0 : string) (root_nonempty : root0 <> ""%string).
Implicit Types (cm : DefaultCatalogManager.t R D) (heap : t) (k : PageKey) (A : PageKey -> option (list byte)).

Notation evolves := (PageStore.evolves root0).
Notation no_key := BufferPoolSpec.no_key.
Notation stands := (CatalogJournal.stands root0).
Notation in_slot := PageStore.in_slot.
Notation put := PageStore.put.
Notation also := PageStore.also.
Notation with_pool := CatalogJournal.with_pool.

Definition heap_key heap (i : nat) : PageKey := pageKey heap (Z.of_nat i).

(** Page [i] of the table holds the rows [rows], or cannot be read ([None]). *)
Definition page_rows cm A heap (i : nat) (o : option (list row)) : Prop :=
  match o with
  | Some rows => exists b ds, A (heap_key heap i) = Some b /\
      page_repr {| pageID := Z.of_nat i; buf := b |} ds /\ Forall2 (encodes cm heap) rows ds
  | None => A (heap_key heap i) = None
  end.

(** The table as it is read: it has these pages of rows; [E] are the keys
    whose pages are not determined by the store. *)
Record table_at (E : PageKey -> Prop) A heap (pages : list (option (list row))) cm : Prop := {
  ta_store : PageStore.store_but root0 E A (bufferPool cm);
  ta_file : Filepath.simple_name (TableDefinition.fileNode (table heap));
  ta_columns : columns heap <> [];
  ta_count : TableDefinition.pagesCount (table heap) = Z.of_nat (length pages);
  ta_range : Z.of_nat (length pages) + 1 < 2 ^ 31;
  ta_pages : forall i o, pages !! i = Some o -> ~ E (heap_key heap i) /\ page_rows cm A heap i o
}.

(** The heap's table as others see it: its file is no catalog file, and the
    catalog stands. *)
Record table_in (E : PageKey -> Prop) A (J : string -> list (list (list byte))) heap
    (pages : list (option (list row))) cm : Prop := {
  ti_stands : stands E A J cm;
  ti_free : CatalogJournal.catalog_untouched E;
  ti_file : Filepath.simple_name (TableDefinition.fileNode (table heap));
  ti_other : TableDefinition.fileNode (table heap) ∉ catalogFiles;
  ti_columns : columns heap <> [];
  ti_count : TableDefinition.pagesCount (table heap) = Z.of_nat (length pages);
  ti_range : Z.of_nat (length pages) + 1 < 2 ^ 31;
  ti_pages : forall i o, pages !! i = Some o -> ~ E (heap_key heap i) /\ page_rows cm A heap i o
}.

Lemma page_rows_types cm cm' A heap i o :
  typesByOid (cat cm') = typesByOid (cat cm) -> page_rows cm A heap i o -> page_rows cm' A heap i o.
Proof.
  intros Ht. destruct o as [rows|]; [|done]. intros (b & ds & HA & HR & Hds). exists b, ds.
  split; [done|]. split; [done|]. eapply Forall2_impl; [exact Hds|]. intros r d. by apply encodes_types.
Qed.

Lemma table_in_pool E A J heap pages cm P :
  evolves no_key (bufferPool cm) P -> table_in E A J heap pages cm -> table_in E A J heap pages (with_pool P cm).
Proof.
  intros Hev []. split; try done; [by eapply CatalogJournal.stands_evolves|]. intros i o Ho.
  destruct (ti_pages0 i o Ho) as [? Hp]. split; [done|]. by eapply page_rows_types; [|exact Hp].
Qed.

Lemma table_in_at E A J heap pages cm : table_in E A J heap pages cm -> table_at E A heap pages cm.
Proof. intros []. split; try done. by apply CatalogJournal.st_store in ti_stands0. Qed.

Lemma table_at_pool E A heap pages cm P :
  PageStore.store_but root0 E A P -> table_at E A heap pages cm -> table_at E A heap pages (with_pool P cm).
Proof.
  intros Hst []. split; try done. intros i o Ho. destruct (ta_pages0 i o Ho) as [? Hp]. split; [done|].
  by eapply page_rows_types; [|exact Hp].
Qed.

Lemma table_at_evolves E A heap pages cm P :
  evolves no_key (bufferPool cm) P -> table_at E A heap pages cm -> table_at E A heap pages (with_pool P cm).
Proof. intros Hev HT. apply table_at_pool; [|done]. by eapply PageStore.store_evolves; [apply HT|]. Qed.

Lemma table_at_key E A heap pages cm i :
  table_at E A heap pages cm -> (i <= length pages)%nat ->
  BufferPoolSpec.good_key Filepath.simple_name (heap_key heap i).
Proof. intros H Hi. pose proof (ta_range _ _ _ _ _ H). split; [apply H|cbn; lia]. Qed.

Lemma table_key E A J heap pages cm i :
  table_in E A J heap pages cm -> (i <= length pages)%nat ->
  BufferPoolSpec.good_key Filepath.simple_name (heap_key heap i).
Proof. intros H. eapply table_at_key. by eapply table_in_at. Qed.

(** The page cannot be read at some moment during the call. *)
Definition unread cm heap (i : nat) : Prop :=
  exists P e, evolves no_key (bufferPool cm) P /\ (GetPage (heap_key heap i) P).1 = Err e.

Lemma unread_evolves cm P heap i :
  evolves no_key (bufferPool cm) P -> unread (with_pool P cm) heap i -> unread cm heap i.
Proof. intros Hev (P' & e & Hev' & He). exists P', e. split; [|done]. by eapply PageStore.steady_trans. Qed.

Lemma store_contents E A J cm k :
  stands E A J cm -> BufferPoolSpec.good_key Filepath.simple_name k -> ~ E k ->
  A k = BufferPoolSpec.contents root0 (bufferPool cm) k.
Proof. intros Hst Hg He. destruct (CatalogJournal.st_store _ _ _ _ _ Hst) as [(_ & _ & Hr) _]. by destruct (Hr k Hg He). Qed.

(** On a reliable disk every page with rows is read. *)
Lemma unread_reliable E A heap pages cm i rows :
  table_at E A heap pages cm -> pages !! i = Some (Some rows) -> unread cm heap i -> ~ reliable.
Proof.
  intros HT Hi (P & e & Hev & He) Hrel. pose proof (lookup_lt_Some _ _ _ Hi) as Hlt.
  destruct (ta_pages _ _ _ _ _ HT i _ Hi) as [HE (b & ds & HA & _)].
  destruct (PageStore.get_page root0 root_nonempty E A P (heap_key heap i)) as [_ (_ & _ & _ & Hfound)].
  - by eapply PageStore.store_evolves; [apply HT|].
  - eapply table_at_key; [done|lia].
  - destruct (Hfound Hrel HE (ex_intro _ b HA)) as [ref Hr]. congruence.
Qed.

Lemma heapPage_spec E A heap pages cm i :
  table_at E A heap pages cm -> (i < length pages)%nat ->
  triple (heapPage heap (Z.of_nat i)) cm (fun r cm' => exists P', cm' = with_pool P' cm /\
    evolves no_key (bufferPool cm) P' /\
    match r with
    | Ok pg => exists ref b ds rows, pages !! i = Some (Some rows) /\ in_slot P' (heap_key heap i) ref pg b /\
        page_repr {| pageID := Z.of_nat i; buf := b |} ds /\ Forall2 (encodes cm heap) rows ds
    | _ => unread cm heap i
    end).
Proof.
  intros HT Hi. pose proof (table_at_key _ _ _ _ _ i HT ltac:(lia)) as Hg.
  destruct (PageStore.store_ok _ _ _ _ (ta_store _ _ _ _ _ HT)) as [OK _].
  destruct (lookup_lt_is_Some_2 pages i Hi) as [o Ho]. destruct (ta_pages _ _ _ _ _ HT i o Ho) as [HE Hpage].
  unfold heapPage. apply triple_bind, CatalogJournal.triple_on_pool. fold (heap_key heap i).
  destruct (PageStore.get_page root0 root_nonempty E A (bufferPool cm) (heap_key heap i)) as [Hnp (_ & Hev & Hslot & _)];
    [apply HT|done|].
  unfold triple at 1. destruct (GetPage (heap_key heap i) (bufferPool cm)) as [[ref|e|] P1] eqn:Eg;
    cbn [fst snd] in *; [| |done]; (split; [done|]).
  2:{ exists P1. split; [done|]. split; [done|].
      exists (bufferPool cm), e. rewrite Eg. split; [by apply PageStore.steady_refl|done]. }
  destruct (Hslot ref eq_refl) as (pg & b & Hin & HA). specialize (HA HE).
  apply triple_bind, CatalogJournal.triple_on_pool.
  eapply BufferPoolSpec.triple_run; [exact (PageStore.Page_run P1 _ ref pg b Hin)|]. cbn beta iota.
  apply CatalogJournal.triple_on_pool. change (bufferPool (with_pool P1 (with_pool P1 cm))) with P1.
  eapply BufferPoolSpec.triple_run; [exact (PageStore.FromBuffer_run P1 (heap_key heap i) pg b (proj2 (proj2 Hin)))|].
  exists P1. split; [done|]. split; [done|].
  destruct o as [rows|]; [|cbn in Hpage; congruence].
  destruct Hpage as (b' & ds & HA' & HR & Hds). assert (b' = b) as -> by congruence. by exists ref, b, ds, rows.
Qed.

Definition row_tids (i : nat) (rows : list row) : list TID :=
  (fun slot => NewTID (Z.of_nat i) (Z.of_nat slot)) <$> seq 0 (length rows).

Lemma page_slots p ds : page_repr p ds -> (length ds <= 2045)%nat.
Proof. intros HR. pose proof (repr_fits _ _ HR). unfold PageSpec.used, PageSpec.capacity in *. lia. Qed.

Lemma int16_slot n : (n <= 2045)%nat -> int16 (Z.of_nat n) = Z.of_nat n.
Proof. intros H. apply sint_id; [done|]. unfold in_sint. lia. Qed.

Lemma slot_tids_eq i (rows : list row) n :
  n = Z.of_nat (length rows) -> (length rows <= 2045)%nat -> slot_tids (Z.of_nat i) n = row_tids i rows.
Proof.
  intros -> Hn. unfold slot_tids, row_tids, seqZ. rewrite Nat2Z.id, <- list_fmap_compose.
  apply list_fmap_ext. intros j slot Hj. cbn. f_equal. rewrite Z.add_0_r. apply int16_slot.
  apply lookup_seq in Hj as [-> Hj]. lia.
Qed.

(** The TIDs of the pages that could be read, page by page. *)
Definition listing cm heap (pages : list (option (list row))) (i : nat) (tids : list TID) : Prop :=
  exists parts, tids = concat parts /\ length parts = length (drop i pages) /\
    forall j part, parts !! j = Some part ->
      (exists rows, pages !! (i + j)%nat = Some (Some rows) /\ part = row_tids (i + j) rows) \/
      (part = [] /\ unread cm heap (i + j)).

Lemma scan_pages_spec E A heap pages n i tids cm :
  table_at E A heap pages cm -> (i + n = length pages)%nat ->
  triple (scan_pages heap (Z.of_nat i) n tids) cm (fun r cm' => exists P', cm' = with_pool P' cm /\
    evolves no_key (bufferPool cm) P' /\
    exists l, r = Ok (tids ++ l) /\ listing cm heap pages i l).
Proof.
  revert i tids cm. induction n as [|n IH]; intros i tids cm HT Hi; cbn [scan_pages].
  { destruct (PageStore.store_ok _ _ _ _ (ta_store _ _ _ _ _ HT)) as [OK _].
    apply triple_ret. exists (bufferPool cm). split; [by destruct cm|]. split; [by apply PageStore.steady_refl|].
    exists []. rewrite app_nil_r. split; [done|]. exists []. rewrite drop_ge by lia. by split_and!. }
  assert (Hnext : forall P1 part tids', evolves no_key (bufferPool cm) P1 ->
    table_at E A heap pages (with_pool P1 cm) -> tids' = tids ++ part ->
    ((exists rows, pages !! i = Some (Some rows) /\ part = row_tids i rows) \/ (part = [] /\ unread cm heap i)) ->
    triple (scan_pages heap (Z.of_nat i + 1) n tids') (with_pool P1 cm) (fun r cm' => exists P', cm' = with_pool P' cm /\
      evolves no_key (bufferPool cm) P' /\
      exists l, r = Ok (tids ++ l) /\ listing cm heap pages i l)).
  { intros P1 part tids' Hev HT1 -> Hpart. replace (Z.of_nat i + 1) with (Z.of_nat (S i)) by lia.
    eapply triple_mono; [apply (IH (S i) _ _ HT1); lia|].
    intros r cm' _ (P2 & -> & Hev2 & l & -> & parts & -> & Hl & Hp). exists P2. split; [done|].
    split; [by eapply PageStore.steady_trans|]. exists (part ++ concat parts).
    split; [by rewrite app_assoc|]. exists (part :: parts). split; [done|]. split.
    { cbn [length]. rewrite Hl, !length_drop. lia. }
    intros [|j] part' Hj.
    - injection Hj as <-. by rewrite Nat.add_0_r.
    - replace (i + S j)%nat with (S i + j)%nat by lia. destruct (Hp j part' Hj) as [?|[? Hu]]; [by left|].
      right. split; [done|]. by eapply unread_evolves. }
  apply triple_bind, triple_catch. eapply triple_mono; [by apply (heapPage_spec E A heap pages cm i); [|lia]|].
  intros r cm' Hnp (P1 & -> & Hev & Hcase). pose proof (table_at_evolves _ _ _ _ _ _ Hev HT) as HT1. destruct r as [pg|e|]; [| |done].
  - destruct Hcase as (ref & b & ds & rows & Ho & Hin & HR & Hds). apply triple_bind, CatalogJournal.triple_on_pool.
    eapply BufferPoolSpec.triple_run;
      [exact (PageStore.Size_run P1 (heap_key heap i) pg b ds (proj2 (proj2 Hin)) HR)|].
    apply (Hnext P1 (row_tids i rows)); [done..| |left; by exists rows].
    f_equal. pose proof (Forall2_length _ _ _ Hds) as Hl. pose proof (page_slots _ _ HR).
    apply slot_tids_eq; lia.
  - apply (Hnext P1 []); [done..|by rewrite app_nil_r|by right].
Qed.

Lemma ReadRow_spec E A heap pages cm i slot :
  table_at E A heap pages cm -> (i < length pages)%nat ->
  triple (ReadRow heap (NewTID (Z.of_nat i) slot)) cm (fun r cm' => exists P', cm' = with_pool P' cm /\
    evolves no_key (bufferPool cm) P' /\
    match r with
    | Ok values => exists rows, pages !! i = Some (Some rows) /\ 0 <= slot /\ rows !! Z.to_nat slot = Some values
    | _ => unread cm heap i \/
        exists rows, pages !! i = Some (Some rows) /\ ~ (0 <= slot < Z.of_nat (length rows))
    end).
Proof.
  intros HT Hi. unfold ReadRow. apply triple_bind.
  eapply triple_mono; [by apply (heapPage_spec E A heap pages cm i)|].
  intros r cm' Hnp (P1 & -> & Hev & Hcase). destruct r as [pg|e|]; [| |done].
  2:{ exists P1. split; [done|]. split; [done|]. by left. }
  destruct Hcase as (ref & b & ds & rows & Ho & Hin & HR & Hds).
  apply triple_bind, CatalogJournal.triple_on_pool. unfold triple at 1.
  rewrite (PageStore.Read_run P1 (heap_key heap i) pg b _ (proj2 (proj2 Hin))). cbn [PageID heap_key pageKey tid_slotID].
  pose proof (Forall2_length _ _ _ Hds) as Hl.
  rewrite (Read_repr _ ds slot HR). destruct (decide (0 <= slot)) as [Hs|Hs].
  2:{ cbn [fst snd]. split; [done|]. exists P1. split; [done|]. split; [done|]. right. exists rows. split; [done|]. lia. }
  destruct (ds !! Z.to_nat slot) as [d|] eqn:Ed; cbn [fst snd]; (split; [done|]).
  2:{ exists P1. split; [done|]. split; [done|]. right. exists rows. split; [done|]. apply lookup_ge_None_1 in Ed. lia. }
  destruct (Forall2_lookup_r _ _ _ _ _ Hds Ed) as (values & Hv & He). apply triple_bind, triple_get.
  unfold triple. cbn [fst snd slift].
  assert (Hdec : deserializeRow (with_pool P1 cm) heap d = Ok values).
  { apply encodes_decodes; [apply HT|]. by eapply encodes_types; [|exact He]. }
  change (with_pool P1 (with_pool P1 cm)) with (with_pool P1 cm).
  unfold slift. cbn [fst snd]. rewrite Hdec. split; [done|]. exists P1. split; [done|]. split; [done|]. by exists rows.
Qed.

(** C18: a scan reads every page of the table and never fails: it returns, page
    by page, the TIDs of exactly the rows of the page, leaving out only pages
    that could not be read, and changes no table.  Reading a row returns the
    row of the page and slot, or an error when the page cannot be read or has
    no such slot; it never panics on the rows the heap has written. *)
Theorem heap_reads E A J heap pages cm :
  table_in E A J heap pages cm ->
  triple (ScanTids heap) cm (fun r cm' => table_in E A J heap pages cm' /\ cat cm' = cat cm /\
    exists tids, r = Ok tids /\ listing cm heap pages 0 tids) /\
  forall i slot, (i < length pages)%nat ->
    triple (ReadRow heap (NewTID (Z.of_nat i) slot)) cm (fun r cm' => table_in E A J heap pages cm' /\ cat cm' = cat cm /\
      match r with
      | Ok values => exists rows, pages !! i = Some (Some rows) /\ 0 <= slot /\ rows !! Z.to_nat slot = Some values
      | _ => unread cm heap i \/
          exists rows, pages !! i = Some (Some rows) /\ ~ (0 <= slot < Z.of_nat (length rows))
      end).
Proof.
  intros HT. split.
  - unfold ScanTids. rewrite (ti_count _ _ _ _ _ _ HT), Nat2Z.id. change 0 with (Z.of_nat 0).
    eapply triple_mono; [apply (scan_pages_spec E A heap pages); [by eapply table_in_at|done]|].
    intros r cm' _ (P' & -> & Hev & l & -> & Hl). split; [by apply table_in_pool|]. split; [done|]. by exists l.
  - intros i slot Hi. eapply triple_mono; [by apply (ReadRow_spec E A heap pages cm); [eapply table_in_at|]|].
    intros r cm' _ (P' & -> & Hev & Hcase). split; [by apply table_in_pool|done].
Qed.

(** *** Inserting *)
Lemma heap_key_ne heap i j : i <> j -> heap_key heap i <> heap_key heap j.
Proof. intros Hne [= ?]. lia. Qed.

(** Something else that is known of the pages and the catalog manager, and is
    not about the pages of the heap: it is kept while the pool works and when
    one of these pages is changed. *)
Record beside (E : PageKey -> Prop) heap (X : (PageKey -> option (list byte)) -> DefaultCatalogManager.t R D -> Prop) : Prop := {
  bs_pool A cm P : evolves no_key (bufferPool cm) P -> X A cm -> X A (with_pool P cm);
  bs_update A cm i ref pg b b' P' : X A cm -> in_slot (bufferPool cm) (heap_key heap i) ref pg b ->
    PageStore.store_but root0 E (put (heap_key heap i) b' A) P' ->
    evolves (eq (heap_key heap i)) (PageStore.set_mem (pg_buf pg) b' (bufferPool cm)) P' ->
    X (put (heap_key heap i) b' A) (with_pool P' cm)
}.

Lemma nothing_beside E heap : beside E heap (fun _ _ => True).
Proof. by split. Qed.

(** A page of the heap that was changed in memory goes back to the pool. *)
Lemma update_row X E A heap pages cm i ref pg b b' ds values d rows :
  beside E heap X -> table_at E A heap pages cm -> X A cm -> (i < length pages)%nat ->
  in_slot (bufferPool cm) (heap_key heap i) ref pg b -> page_repr {| pageID := Z.of_nat i; buf := b' |} (ds ++ [d]) ->
  pages !! i = Some (Some rows) -> Forall2 (encodes cm heap) rows ds -> encodes cm heap values d ->
  triple (UpdatePage (heap_key heap i) (Some pg)) (PageStore.set_mem (pg_buf pg) b' (bufferPool cm)) (fun r P' =>
    r = Ok tt /\
    table_at E (put (heap_key heap i) b' A) heap (<[i := Some (rows ++ [values])]> pages) (with_pool P' cm) /\
    X (put (heap_key heap i) b' A) (with_pool P' cm)).
Proof.
  intros HB HT HX Hi Hin HR Ho Hds Hd. set (k := heap_key heap i) in *.
  assert (Hv : valid_buf b') by by apply (PageStore.repr_valid {| pageID := Z.of_nat i; buf := b' |} (ds ++ [d])).
  destruct (PageStore.poke root0 E (also k E) A (bufferPool cm) k ref pg b b') as [Hs1 Hin1];
    [apply HT|by right|by left|done|done|].
  eapply triple_mono; [apply (PageStore.update_page root0 root_nonempty E A _ k ref pg b' Hs1); [|done]|].
  { by eapply (table_at_key E A heap pages cm); [|lia]. }
  intros r P' _ (-> & Hs' & Hev & _). split; [done|]. split; [split; try apply HT|by eapply (bs_update _ _ _ HB)].
  - done.
  - rewrite length_insert. apply HT.
  - rewrite length_insert. apply HT.
  - intros j o Hj. destruct (decide (j = i)) as [->|Hne].
    + rewrite list_lookup_insert_eq in Hj by done. injection Hj as <-.
      split; [by eapply (ta_pages _ _ _ _ _ HT)|]. exists b', (ds ++ [d]). unfold PageStore.put.
      rewrite decide_True by done. split; [done|]. split; [done|]. apply Forall2_app; [|constructor; [|done]].
      * eapply Forall2_impl; [exact Hds|]. intros r0 d0. by apply encodes_types.
      * by eapply encodes_types; [|exact Hd].
    + rewrite list_lookup_insert_ne in Hj by done. destruct (ta_pages _ _ _ _ _ HT j o Hj) as [HE Hpage].
      split; [done|]. destruct o as [rows'|]; cbn; unfold PageStore.put; rewrite decide_False by by apply heap_key_ne.
      * destruct Hpage as (c & ds' & Hc & HRc & Hds'). exists c, ds'. split; [done|]. split; [done|].
        eapply Forall2_impl; [exact Hds'|]. intros r0 d0. by apply encodes_types.
      * done.
Qed.

(** Page [i] has no room for the record [d]. *)
Definition full cm heap (pages : list (option (list row))) (i : nat) (d : list byte) : Prop :=
  exists rows ds, pages !! i = Some (Some rows) /\ Forall2 (encodes cm heap) rows ds /\ PageSpec.insert ds d = None.

(** The page was tried in vain. *)
Definition passed cm heap pages i d : Prop := unread cm heap i \/ full cm heap pages i d.

(** The row went to the end of page [i]. *)
Definition row_put X E A heap pages cm (values : row) (tid : TID) (i : nat) (cm' : DefaultCatalogManager.t R D) : Prop :=
  exists rows b, pages !! i = Some (Some rows) /\ tid = NewTID (Z.of_nat i) (Z.of_nat (length rows)) /\
    cat cm' = cat cm /\
    table_at E (put (heap_key heap i) b A) heap (<[i := Some (rows ++ [values])]> pages) cm' /\
    X (put (heap_key heap i) b A) cm'.

Lemma tryInsert_spec X E A heap pages cm i values d :
  beside E heap X -> table_at E A heap pages cm -> X A cm -> (i < length pages)%nat -> encodes cm heap values d ->
  triple (tryInsertIntoPage heap (Z.of_nat i) (Some d)) cm (fun r cm' =>
    match r with
    | Ok tid => row_put X E A heap pages cm values tid i cm'
    | _ => exists P', cm' = with_pool P' cm /\ evolves no_key (bufferPool cm) P' /\ passed cm heap pages i d
    end).
Proof.
  intros HB HT HX Hi Hd. unfold tryInsertIntoPage. apply triple_bind.
  eapply triple_mono; [by apply (heapPage_spec E A heap pages cm i)|].
  intros r cm' Hnp (P1 & -> & Hev & Hcase). pose proof (table_at_evolves _ _ _ _ _ _ Hev HT) as HT1.
  pose proof (bs_pool _ _ _ HB _ _ _ Hev HX) as HX1. destruct r as [pg|e|]; [| |done].
  2:{ exists P1. by split_and!; [..|left]. }
  destruct Hcase as (ref & b & ds & rows & Ho & Hin & HR & Hds).
  pose proof (Forall2_length _ _ _ Hds) as Hl. pose proof (page_slots _ _ HR) as Hslots.
  apply triple_bind, CatalogJournal.triple_on_pool.
  eapply BufferPoolSpec.triple_run; [exact (PageStore.Size_run P1 (heap_key heap i) pg b ds (proj2 (proj2 Hin)) HR)|].
  cbn beta iota. apply triple_bind, CatalogJournal.triple_on_pool.
  change (bufferPool (with_pool P1 (with_pool P1 cm))) with P1.
  pose proof (PageStore.Write_run P1 (heap_key heap i) pg b ds d (proj2 (proj2 Hin)) HR) as Hw.
  destruct (PageSpec.insert ds d) as [ds'|] eqn:Ei.
  2:{ unfold triple. rewrite Hw. split; [done|]. cbn [fst snd]. exists P1. split; [done|]. split; [done|].
      right. by exists rows, ds. }
  destruct Hw as (b' & Hw & HR' & _). assert (ds' = ds ++ [d]) as ->.
  { unfold PageSpec.insert in Ei. case_decide; [by injection Ei as <-|done]. }
  eapply BufferPoolSpec.triple_run; [exact Hw|]. cbn beta iota. apply triple_bind, CatalogJournal.triple_on_pool.
  eapply triple_mono; [apply (update_row X E A heap pages (with_pool P1 cm) i ref pg b b' ds values d rows); try done|].
  - eapply Forall2_impl; [exact Hds|]. intros r0 d0. by apply encodes_types.
  - by eapply encodes_types; [|exact Hd].
  - intros r P2 _ (-> & HT2 & HX2). apply triple_ret. exists rows, b'. split; [done|].
    split; [|split; [done|split; [exact HT2|exact HX2]]]. rewrite int16_slot by done. f_equal; [|lia].
    apply sint_id; [done|]. pose proof (ta_range _ _ _ _ _ HT). unfold in_sint. lia.
Qed.

Lemma passed_evolves cm P heap pages i d :
  evolves no_key (bufferPool cm) P -> passed (with_pool P cm) heap pages i d -> passed cm heap pages i d.
Proof.
  intros Hev [Hu|(rows & ds & Ho & Hds & Hi)]; [left; by eapply unread_evolves|]. right. exists rows, ds.
  split; [done|]. split; [|done]. eapply Forall2_impl; [exact Hds|]. intros r d'. by apply encodes_types.
Qed.

Lemma insert_pages_spec X E A heap pages n i values d cm :
  beside E heap X -> table_at E A heap pages cm -> X A cm -> (i + n = length pages)%nat -> encodes cm heap values d ->
  triple (insert_pages heap (Z.of_nat i) n (Some d)) cm (fun r cm' =>
    match r with
    | Ok (Some tid) => exists j, (i <= j)%nat /\ (forall l, (i <= l < j)%nat -> passed cm heap pages l d) /\
        row_put X E A heap pages cm values tid j cm'
    | Ok None => exists P', cm' = with_pool P' cm /\ evolves no_key (bufferPool cm) P' /\
        forall l, (i <= l < length pages)%nat -> passed cm heap pages l d
    | _ => False
    end).
Proof.
  intros HB. revert i cm. induction n as [|n IH]; intros i cm HT HX Hi Hd; cbn [insert_pages].
  { destruct (PageStore.store_ok _ _ _ _ (ta_store _ _ _ _ _ HT)) as [OK _].
    apply triple_ret. exists (bufferPool cm). split; [by destruct cm|]. split; [by apply PageStore.steady_refl|].
    intros l Hl. lia. }
  apply triple_bind, triple_catch. eapply triple_mono; [by apply (tryInsert_spec X E A heap pages cm i values d); [..|lia|]|].
  intros r cm' Hnp Hcase. destruct r as [tid|e|]; [| |done].
  { apply triple_ret. exists i. split; [lia|]. split; [|done]. intros l Hl. lia. }
  destruct Hcase as (P1 & -> & Hev & Hpass). replace (Z.of_nat i + 1) with (Z.of_nat (S i)) by lia.
  eapply triple_mono; [apply (IH (S i) (with_pool P1 cm)); [by apply table_at_evolves|by eapply (bs_pool _ _ _ HB)|lia|by eapply encodes_types; [|exact Hd]]|].
  assert (Hall : forall j, (forall l, (S i <= l < j)%nat -> passed (with_pool P1 cm) heap pages l d) ->
    forall l, (i <= l < j)%nat -> passed cm heap pages l d).
  { intros j H l Hl. destruct (decide (l = i)) as [->|]; [done|]. eapply passed_evolves; [done|]. apply H. lia. }
  intros [[tid|]|e0|] cm' _; [| |done..].
  - intros (j & Hj & Hp & rows & b & Hins). exists j. split; [lia|]. split; [by apply Hall|].
    exists rows, b. exact Hins.
  - intros (P2 & -> & Hev2 & Hp). exists P2. split; [done|].
    split; [by eapply PageStore.steady_trans|]. by apply Hall.
Qed.

(** With a page that can be read and has room for the row, it goes to the first
    such page. *)
Lemma InsertRow_at X E A heap pages cm values more d j :
  beside E heap X -> table_at E A heap pages cm -> X A cm -> encodes cm heap values d ->
  (j < length pages)%nat -> ~ passed cm heap pages j d ->
  triple (InsertRow heap (values ++ more)) cm (fun r cm' => exists tid i, r = Ok tid /\
    (forall l, (l < i)%nat -> passed cm heap pages l d) /\ row_put X E A heap pages cm values tid i cm').
Proof.
  intros HB HT HX [(dts & Ht & Hv) Hs] Hj Hroom. assert (Henc : serializeRow cm heap (values ++ more) = Ok (Some d)).
  { destruct (columns_codec _ _ _ _ Ht Hv) as (d' & Hne & Hser & _). unfold serializeRow in *.
    pose proof (Hser [] [] None) as H0. rewrite app_nil_r in H0. cbn [length app] in H0. change (Z.of_nat 0) with 0 in H0.
    rewrite Hs in H0. etransitivity; [exact (Hser [] more None)|]. by symmetry. }
  unfold InsertRow. apply triple_bind, triple_get. cbn beta iota. apply triple_bind.
  apply CatalogJournal.triple_slift; rewrite Henc; [done|]. cbn beta iota.
  rewrite (ta_count _ _ _ _ _ HT), Nat2Z.id. apply triple_bind. change 0 with (Z.of_nat 0).
  eapply triple_mono; [by apply (insert_pages_spec X E A heap pages (length pages) 0 values d cm HB HT HX); [|split; [by exists dts|]]|].
  intros r cm1 Hnp Hcase. destruct r as [[tid|]|e|]; [| |done..].
  - apply triple_ret. destruct Hcase as (i & _ & Hp & Hput). exists tid, i. split; [done|]. split; [|done]. intros l Hl. apply Hp. lia.
  - destruct Hcase as (P1 & _ & _ & Hp). destruct Hroom. apply Hp. lia.
Qed.

(** The table and its catalog. *)
Definition journaled (E : PageKey -> Prop) J heap A cm : Prop :=
  stands E A J cm /\ CatalogJournal.catalog_untouched E /\ TableDefinition.fileNode (table heap) ∉ catalogFiles.

Lemma table_in_journaled E A J heap pages cm :
  table_in E A J heap pages cm <-> table_at E A heap pages cm /\ journaled E J heap A cm.
Proof.
  split.
  - intros HT. split; [by eapply table_in_at|]. by destruct HT.
  - intros [[] (?&?&?)]. by split.
Qed.

Lemma journaled_beside E J heap : beside E heap (journaled E J heap).
Proof.
  split.
  - intros A cm P Hev (Hst & HE). split; [by eapply CatalogJournal.stands_evolves|done].
  - intros A cm i ref pg b b' P' ([Hroot _ Hj] & HE & Hother) Hin Hs' Hev. split; [|done]. split; [done|done|].
    intros f Hf. destruct (Hj f Hf) as [Hfd Hp]. split.
    + eapply (CatalogJournal.filed_evolves root0 root_nonempty); [by apply CatalogJournal.catalog_simple|exact Hev| |].
      * intros k' <-. cbn. intros E0. apply Hother. by rewrite E0.
      * apply CatalogJournal.filed_set_mem; [|done]. eexists. apply Hin.
    + intros j ds' Hj'. destruct (Hp j ds' Hj') as (c & Hc & HRc). exists c. split; [|done].
      unfold PageStore.put. rewrite decide_False; [done|]. intros [= E0 _]. apply Hother. by rewrite <- E0.
Qed.

(** The row went to the end of page [i], and the catalog stands as before. *)
Definition inserted E A J heap pages cm (values : row) (tid : TID) (i : nat) (cm' : DefaultCatalogManager.t R D) : Prop :=
  exists rows b, pages !! i = Some (Some rows) /\ tid = NewTID (Z.of_nat i) (Z.of_nat (length rows)) /\
    cat cm' = cat cm /\
    table_in E (put (heap_key heap i) b A) J heap (<[i := Some (rows ++ [values])]> pages) cm'.

(** *** A new page *)
Lemma UpdatePagesCount_spec E A J table n cm :
  CatalogJournal.catalog_untouched E -> stands E A J cm -> in_sint 32 (TableDefinition.oid table) -> in_sint 32 n ->
  Z.of_nat (length (J tablesFile)) < 2 ^ 31 ->
  triple (UpdatePagesCount table n) cm (fun r cm' => r = Ok tt ->
    cat cm' = indexTable (TableDefinition.SetPagesCount n table) (cat cm) /\
    PageStore.spares root0 (CatalogJournal.in_file tablesFile) (bufferPool cm) (bufferPool cm') /\
    exists A' J', stands E A' J' cm' /\ CatalogJournal.elsewhere tablesFile A A').
Proof.
  intros HE Hst Ho Hn Hroom. unfold UpdatePagesCount. apply triple_bind.
  apply CatalogJournal.triple_slift; [unfold TableDefinition.New; by repeat case_match|].
  unfold TableDefinition.New. destruct (blank (TableDefinition.name table)); [done|].
  destruct (blank (TableDefinition.typ table)); [done|]. destruct (blank (TableDefinition.fileNode table)); [done|].
  fold (TableDefinition.SetPagesCount n table). set (u := TableDefinition.SetPagesCount n table).
  apply triple_bind, CatalogJournal.triple_maps. cbn beta iota. apply triple_bind.
  destruct (CatalogJournal.codec_table u Ho Hn) as [(bs & Eb & _)|[e Eb]];
    (apply CatalogJournal.triple_slift; rewrite Eb; [done|]); [|done].
  eapply triple_mono; [apply (CatalogJournal.appendRecord_spec root0 root_nonempty E A J); try done|].
  - by destruct Hst.
  - apply (proj1 (proj2 CatalogJournal.files_in)).
  - intros r cm' _ Hok Hr. destruct (Hok Hr) as (Hc & Hsp & A' & J' & Hst' & _ & He). split; [exact Hc|].
    split; [exact Hsp|]. by exists A', J'.
Qed.

(** Rows of a page in the pool are read. *)
Lemma ReadRow_resident cm heap P i ref pg b rows ds (slot : nat) values :
  BufferPoolSpec.pool_ok root0 Filepath.simple_name P -> columns heap <> [] ->
  in_slot P (heap_key heap i) ref pg b -> page_repr {| pageID := Z.of_nat i; buf := b |} ds ->
  Forall2 (encodes cm heap) rows ds -> rows !! slot = Some values ->
  (ReadRow heap (NewTID (Z.of_nat i) (Z.of_nat slot)) (with_pool P cm)).1 = Ok values.
Proof.
  intros OK Hcols Hin HR Hds Hv. destruct (Forall2_lookup_l _ _ _ _ _ Hds Hv) as (d & Ed & He).
  assert (H : triple (ReadRow heap (NewTID (Z.of_nat i) (Z.of_nat slot))) (with_pool P cm) (fun r _ => r = Ok values));
    [|exact (proj2 H)].
  unfold ReadRow, heapPage. apply triple_bind, triple_bind, CatalogJournal.triple_on_pool.
  eapply triple_mono; [by apply (PageStore.get_resident root0 P (heap_key heap i) ref pg b)|].
  intros r P1 _ [-> Hin1]. apply triple_bind, CatalogJournal.triple_on_pool.
  eapply BufferPoolSpec.triple_run; [exact (PageStore.Page_run P1 _ ref pg b Hin1)|]. cbn beta iota.
  apply CatalogJournal.triple_on_pool.
  eapply BufferPoolSpec.triple_run; [exact (PageStore.FromBuffer_run P1 (heap_key heap i) pg b (proj2 (proj2 Hin1)))|].
  cbn beta iota. apply triple_bind, CatalogJournal.triple_on_pool.
  pose proof (PageStore.Read_run P1 (heap_key heap i) pg b (Z.of_nat slot) (proj2 (proj2 Hin1))) as Hread.
  cbn [PageID heap_key pageKey] in Hread. rewrite (Read_repr _ ds (Z.of_nat slot) HR), decide_True, Nat2Z.id, Ed in Hread by lia.
  eapply BufferPoolSpec.triple_run; [exact Hread|].
  cbn beta iota. apply triple_bind, triple_get, CatalogJournal.triple_slift; rewrite (encodes_decodes _ _ values d); try done.
  all: by eapply encodes_types; [|exact He].
Qed.

(** A page was added for the row [values] with record [d]: at the moment the
    page entered the pool, its only record was [d] and the row was found under
    [tid]; nothing else had changed, and the catalog then counted the page.
    The page is not in the store, for it is neither dirty nor on disk. *)
Definition page_added E A J heap pages cm (values : row) (d : list byte) (tid : TID)
    (cm' : DefaultCatalogManager.t R D) : Prop :=
  let n := Z.of_nat (length pages) in let k := heap_key heap (length pages) in
  tid = NewTID n 0 /\ cat cm' = indexTable (TableDefinition.SetPagesCount (n + 1) (table heap)) (cat cm) /\
  (exists P ref pg b, in_slot P k ref pg b /\ page_repr {| pageID := n; buf := b |} [d] /\
     table_in (also k E) A J heap pages (with_pool P cm) /\
     (ReadRow heap tid (with_pool P cm)).1 = Ok values /\
     UpdatePagesCount (table heap) (n + 1) (with_pool P cm) = (Ok tt, cm')) /\
  exists A' J', table_in (also k E) A' J' heap pages cm' /\ CatalogJournal.elsewhere tablesFile A A'.

(** The state is one of a run of the database, as the catalog sees it. *)
Definition in_session cm : Prop := exists F, CatalogJournal.session root0 F cm.

Lemma session_works cm X P : in_session cm -> CatalogJournal.pool_work (bufferPool cm) X P -> in_session (with_pool P cm).
Proof. intros [F Hs] Hw. eexists. by eapply (CatalogJournal.session_work root0 F). Qed.

(** A page of its own array enters the pool under the next key of the table. *)
Lemma table_in_entered E A J heap pages cm P pg b P' :
  let k := heap_key heap (length pages) in
  table_in E A J heap pages (with_pool P cm) -> is_Some (mem P !! pg_buf pg) ->
  PageStore.store_but root0 (also k E) A P' -> evolves (eq k) (PageStore.set_mem (pg_buf pg) b P) P' ->
  table_in (also k E) A J heap pages (with_pool P' cm).
Proof.
  intros k HT Hm Hs Hev. split; try apply HT.
  - split; [apply (ti_stands _ _ _ _ _ _ HT)|exact Hs|]. intros f Hf.
    destruct (CatalogJournal.st_journal _ _ _ _ _ (ti_stands _ _ _ _ _ _ HT) f Hf) as [Hfd Hp]. split; [|done].
    eapply (CatalogJournal.filed_evolves root0 root_nonempty); [by apply CatalogJournal.catalog_simple|exact Hev| |].
    + intros k' <-. cbn. intros E0. apply (ti_other _ _ _ _ _ _ HT). by rewrite E0.
    + apply CatalogJournal.filed_set_mem; [exact Hm|exact Hfd].
  - intros k' [->|He]; [exact (ti_other _ _ _ _ _ _ HT)|by apply (ti_free _ _ _ _ _ _ HT)].
  - intros i o Ho. destruct (ti_pages _ _ _ _ _ _ HT i o Ho) as [HE Hpage].
    assert (heap_key heap i <> k) by (apply heap_key_ne; apply lookup_lt_Some in Ho; lia).
    split; [by intros [?|?]|]. by eapply page_rows_types; [|exact Hpage].
Qed.

(** The page with the record [d] enters the pool. *)
Lemma enter_row {B} E A J heap pages cm d (m : ST (DefaultCatalogManager.t R D) B) Q :
  let n := Z.of_nat (length pages) in let k := heap_key heap (length pages) in
  table_in E A J heap pages cm -> (forall e cm', Q (Err e) cm') ->
  (forall P ref pg b, Z.of_nat (length d) <= 8178 -> in_slot P k ref pg b -> page_repr {| pageID := n; buf := b |} [d] ->
    table_in (also k E) A J heap pages (with_pool P cm) -> PageStore.spares root0 no_key (bufferPool cm) P ->
    (in_session cm -> in_session (with_pool P cm)) ->
    triple m (with_pool P cm) Q) ->
  triple (newPage <- on_pool (PageStore.New n) ;; on_pool (PageStore.Write newPage (Some d)) ;;;
          on_pool (NewPage k (Some newPage)) ;;; m) cm Q.
Proof.
  intros n k HT Herr Hm. pose proof (ti_stands _ _ _ _ _ _ HT) as Hst.
  pose proof (table_key _ _ _ _ _ _ (length pages) HT ltac:(lia)) as Hg. fold k in Hg.
  apply triple_bind, CatalogJournal.triple_on_pool.
  eapply triple_mono; [apply triple_run_state, (PageStore.new_array root0 E A), (CatalogJournal.st_store _ _ _ _ _ Hst)|].
  intros r1 P1 _ [(pg & b & -> & Hs1 & Hev1 & Hb & Hid & HR & Hun & _) HP1].
  pose proof (table_in_pool _ _ _ _ _ _ _ Hev1 HT) as HT1. set (cm1 := with_pool P1 cm) in *.
  assert (Hpg : BufferPoolSpec.page_for k pg P1 b).
  { split; [done|]. split; [done|]. by eapply (PageStore.repr_valid {| pageID := _; buf := b |}). }
  apply triple_bind, CatalogJournal.triple_on_pool. change (bufferPool cm1) with P1.
  pose proof (PageStore.Write_run P1 k pg b [] d Hpg HR) as Hw. destruct (PageSpec.insert [] d) as [ds|] eqn:Ei.
  2:{ unfold triple. rewrite Hw. split; [done|apply Herr]. }
  destruct Hw as (b' & Hw & HR' & Hv'). eapply BufferPoolSpec.triple_run; [exact Hw|]. cbn beta iota.
  assert (Hlen : Z.of_nat (length d) <= 8178 /\ ds = [d]).
  { unfold PageSpec.insert, PageSpec.used, PageSpec.payload, PageSpec.capacity in Ei. cbn in Ei.
    case_decide; [|done]. injection Ei as <-. split; [lia|done]. }
  destruct Hlen as [Hlen ->].
  destruct (PageStore.poke_unused root0 E A P1 pg b' Hs1) as [Hs2 Hun2]; [by eexists|done|done|].
  set (P2 := PageStore.set_mem (pg_buf pg) b' P1) in *. apply triple_bind, CatalogJournal.triple_on_pool.
  assert (Hpg2 : BufferPoolSpec.page_for k pg P2 b').
  { split; [by apply lookup_insert_eq|]. split; [done|done]. }
  eapply triple_mono; [apply triple_run_state, triple_and_post; [by apply (PageStore.enter_page root0 root_nonempty E A P2 k pg b')|
    by apply (PageStore.enter_spares root0 root_nonempty E A P2 k pg b')]|].
  intros r3 P3 Hnp3 [[[_ H3] Hsp] HP3]. destruct r3 as [ref|e|]; [|apply Herr|done].
  destruct H3 as (Hs3 & Hev3 & Hin3 & _).
  assert (Hkeep : in_session cm -> in_session (with_pool P3 cm)).
  { intros Hse. rewrite HP3. change (in_session (with_pool (NewPage k (Some pg) P2).2 (with_pool P2 cm1))).
    eapply session_works; [|by apply CatalogJournal.work_new with (b := b'); [split; [exact Hg|exact (ti_other _ _ _ _ _ _ HT)]|..]].
    eapply session_works; [|by apply CatalogJournal.work_fill; [eexists| |]]. unfold cm1. rewrite HP1.
    eapply session_works; [exact Hse|apply CatalogJournal.work_array]. }
  clear HP3 HP1. change (with_pool P3 (with_pool P2 cm1)) with (with_pool P3 cm).
  apply (Hm P3 ref pg b' Hlen Hin3 HR'); [| |exact Hkeep].
  - by apply (table_in_entered E A J heap pages cm P1 pg b' P3); [|eexists|..].
  - etransitivity; [by apply (PageStore.spares_evolves root0 root_nonempty no_key _ P1)|].
    etransitivity; [apply (PageStore.spares_set_mem root0 no_key P1 (pg_buf pg) b'); by eexists|by apply (Hsp ref)].
Qed.

(** The catalog counts the page, and no page of the table changes. *)
Lemma table_counted E A A' J J' heap pages cm cm' u :
  table_in E A J heap pages cm -> stands E A' J' cm' -> CatalogJournal.elsewhere tablesFile A A' ->
  cat cm' = indexTable u (cat cm) -> table_in E A' J' heap pages cm'.
Proof.
  intros HT Hst Helse Hc. split; [exact Hst|apply HT..|]. intros i o Ho. destruct (ti_pages _ _ _ _ _ _ HT i o Ho) as [HE Hpage].
  split; [exact HE|]. assert (HA : A' (heap_key heap i) = A (heap_key heap i)).
  { apply Helse. cbn. intros E0. apply (ti_other _ _ _ _ _ _ HT). rewrite E0. apply (proj1 (proj2 CatalogJournal.files_in)). }
  destruct o as [rows|]; cbn in *; rewrite HA; [|done]. destruct Hpage as (c & ds' & Hc' & HRc & Hds). exists c, ds'.
  split; [done|]. split; [done|]. eapply Forall2_impl; [exact Hds|]. intros r0 d0. apply encodes_types. by rewrite Hc.
Qed.

(** What the file holds at the place of the new page stays there. *)
Definition not_written heap (pages : list (option (list row))) cm cm' : Prop :=
  forall o, PageStore.spared root0 (heap_key heap (length pages)) o (bufferPool cm) ->
    PageStore.spared root0 (heap_key heap (length pages)) o (bufferPool cm').

Lemma insertIntoNewPage_spec E A J heap pages cm values d :
  table_in E A J heap pages cm -> in_sint 32 (TableDefinition.oid (table heap)) ->
  Z.of_nat (length (J tablesFile)) < 2 ^ 31 -> encodes cm heap values d ->
  triple (insertIntoNewPage heap (Some d)) cm (fun r cm' => forall tid, r = Ok tid ->
    Z.of_nat (length d) <= 8178 /\ page_added E A J heap pages cm values d tid cm' /\ not_written heap pages cm cm').
Proof.
  intros HT Hoid Hroom Hd. pose proof (ti_range _ _ _ _ _ _ HT) as Hrange. unfold insertIntoNewPage.
  rewrite (ti_count _ _ _ _ _ _ HT). set (n := Z.of_nat (length pages)) in *. set (k := heap_key heap (length pages)).
  change (pageKey heap n) with k. apply (enter_row E A J); [done|done|]. fold n k.
  intros P ref pg b Hlen Hin HR HT1 Hsp _. assert (Hn32 : in_sint 32 (n + 1)) by (unfold in_sint; lia).
  rewrite (sint_id 32 ltac:(lia) (n + 1)) by done. apply triple_bind.
  pose proof (UpdatePagesCount_spec (also k E) A J (table heap) (n + 1) _ (ti_free _ _ _ _ _ _ HT1)
    (ti_stands _ _ _ _ _ _ HT1) Hoid Hn32 Hroom) as HU. unfold triple in HU |- *.
  destruct (UpdatePagesCount (table heap) (n + 1) (with_pool P cm)) as [[[]|e|] cm4] eqn:EU; cbn [fst snd] in *;
    [|by split|by destruct HU].
  destruct HU as [_ HU]. destruct (HU eq_refl) as (Hc4 & Hsp4 & A' & J' & Hst4 & Helse).
  split; [done|]. split; [done|]. cbn [fst snd sret]. intros tid [= <-]. split; [exact Hlen|].
  rewrite (sint_id 32 ltac:(lia) n) by (unfold in_sint; lia). split.
  - split; [done|]. split; [exact Hc4|]. split.
    + exists P, ref, pg, b. split; [done|]. split; [done|]. split; [done|]. split; [|exact EU].
      destruct (PageStore.store_ok _ _ _ _ (CatalogJournal.st_store _ _ _ _ _ (ti_stands _ _ _ _ _ _ HT1))) as [OK _].
      by apply (ReadRow_resident cm heap P (length pages) ref pg b [values] [d] 0 values); [|apply HT|..|constructor|].
    + exists A', J'. split; [|done]. by eapply table_counted.
  - intros o Ho. apply Hsp4; [| |apply Hsp; [|by intros []|exact Ho]].
    all: try (eapply (table_key _ _ _ _ _ _ (length pages) HT); lia).
    intros E0. apply (ti_other _ _ _ _ _ _ HT). unfold CatalogJournal.in_file in E0. cbn in E0. rewrite E0.
    apply (proj1 (proj2 CatalogJournal.files_in)).
Qed.

(** Both ways of inserting. *)
Lemma InsertRow_spec E A J heap pages cm values more :
  table_in E A J heap pages cm -> row_ok cm (columns heap) values ->
  in_sint 32 (TableDefinition.oid (table heap)) -> Z.of_nat (length (J tablesFile)) < 2 ^ 31 ->
  exists d, encodes cm heap values d /\
  triple (InsertRow heap (values ++ more)) cm (fun r cm' => forall tid, r = Ok tid ->
    (exists i, (forall j, (j < i)%nat -> passed cm heap pages j d) /\ inserted E A J heap pages cm values tid i cm') \/
    (forall j, (j < length pages)%nat -> passed cm heap pages j d) /\
      page_added E A J heap pages cm values d tid cm' /\ not_written heap pages cm cm').
Proof.
  intros HT Hrow Hoid Hroom. destruct Hrow as (dts & Ht & Hv).
  destruct (columns_codec _ _ _ _ Ht Hv) as (d & Hne & Hser & _). specialize (Hne (ti_columns _ _ _ _ _ _ HT)).
  assert (Henc : forall more, serializeRow cm heap (values ++ more) = Ok (Some d)).
  { intros more'. unfold serializeRow. etransitivity; [exact (Hser [] more' None)|]. by rewrite append_opt_some. }
  exists d. assert (Hd : encodes cm heap values d).
  { split; [by exists dts|]. rewrite <- (app_nil_r values). apply Henc. }
  split; [done|]. unfold InsertRow. apply triple_bind, triple_get. cbn beta iota. apply triple_bind.
  apply CatalogJournal.triple_slift; rewrite Henc; [done|]. cbn beta iota.
  rewrite (ti_count _ _ _ _ _ _ HT), Nat2Z.id. apply triple_bind. change 0 with (Z.of_nat 0).
  pose proof (proj1 (table_in_journaled _ _ _ _ _ _) HT) as [HTa HX].
  eapply triple_mono; [by apply (insert_pages_spec _ E A heap pages (length pages) 0 values d cm (journaled_beside E J heap))|].
  intros r cm1 Hnp Hcase. destruct r as [[tid|]|e|]; [| |done..].
  - apply triple_ret. intros tid' [= <-]. left. destruct Hcase as (j & _ & Hp & rows & b & Ho & -> & Hc & HT' & HX'). exists j.
    split; [intros l Hl; apply Hp; lia|]. exists rows, b. split_and!; [done..|]. by apply table_in_journaled.
  - destruct Hcase as (P1 & -> & Hev & Hp). pose proof (table_in_pool _ _ _ _ _ _ _ Hev HT) as HT1.
    eapply triple_mono; [apply (insertIntoNewPage_spec E A J heap pages (with_pool P1 cm) values d); try done; by eapply encodes_types; [|exact Hd]|].
    intros r cm' _ Hok tid Hr. right. split; [intros j Hj; apply Hp; lia|]. destruct (Hok tid Hr) as (_ & Hadd & Hnot).
    split; [exact Hadd|]. intros o Ho. apply Hnot. apply (PageStore.spares_evolves root0 root_nonempty no_key _ _ Hev); [|by intros []|done].
    eapply (table_key _ _ _ _ _ _ (length pages) HT); lia.
Qed.

(** C17: inserting a row puts it at the end of the first page of the table that
    can be read and has room for it, where it is found under the returned TID;
    every other row, every other table and the catalog stay as they are.  When
    there is no such page, a page enters the pool whose only record is the
    row's, and the row is found there under the returned TID; then the catalog
    counts the page, and no other row changes.  No call panics. *)
Theorem InsertRow_refines E A J heap pages cm values more :
  table_in E A J heap pages cm -> row_ok cm (columns heap) values ->
  in_sint 32 (TableDefinition.oid (table heap)) -> Z.of_nat (length (J tablesFile)) < 2 ^ 31 ->
  exists d, encodes cm heap values d /\
  triple (InsertRow heap (values ++ more)) cm (fun r cm' => forall tid, r = Ok tid ->
    (exists i, (forall j, (j < i)%nat -> passed cm heap pages j d) /\ inserted E A J heap pages cm values tid i cm') \/
    (forall j, (j < length pages)%nat -> passed cm heap pages j d) /\ page_added E A J heap pages cm values d tid cm').
Proof.
  intros HT Hrow Hoid Hroom. destruct (InsertRow_spec E A J heap pages cm values more HT Hrow Hoid Hroom) as (d & Hd & H).
  exists d. split; [exact Hd|]. eapply triple_mono; [exact H|]. intros r cm' _ Hok tid Hr.
  destruct (Hok tid Hr) as [?|(Hp & Hadd & _)]; [by left|by right].
Qed.

(** A page that is not on the file is not read, whatever happened to other pages. *)
Lemma ReadRow_missing d P heap tid cm k :
  CatalogJournal.fresh_pool root0 d P -> (reliable -> healthy d) -> k = pageKey heap (tid_pageID tid) ->
  BufferPoolSpec.good_key Filepath.simple_name k -> stored d (BufferPoolSpec.path_of root0 k) (PageID k) = None ->
  PageStore.leaves root0 k P (bufferPool cm) -> forall values, (ReadRow heap tid cm).1 <> Ok values.
Proof.
  intros Hfresh Hh -> Hg Hno Hev values. set (k := pageKey heap (tid_pageID tid)) in *.
  destruct (CatalogJournal.fresh_store root0 root_nonempty d P Hfresh Hh) as (Hs & Hd & Hres).
  assert (HA : BufferPoolSpec.contents root0 P k = None).
  { unfold BufferPoolSpec.contents, BufferPoolSpec.on_file. by rewrite Hres, Hd. }
  destruct (Hev _ _ (fun H => H) Hs) as (E' & A' & HE & HEA & Hs').
  destruct (PageStore.get_page root0 root_nonempty _ _ _ k Hs' Hg) as [_ (_ & _ & Hslot & _)].
  unfold ReadRow, heapPage, sbind, on_pool. fold k.
  destruct (GetPage k (bufferPool cm)) as [[ref|e|] P1]; cbn [fst snd] in *; [|done..].
  destruct (Hslot ref eq_refl) as (pg & b & _ & HA'). rewrite HEA, HA in HA'. discriminate (HA' HE).
Qed.

(** *** Inserting, in a run of the database *)
Lemma heapPage_pool E A heap pages cm i :
  table_at E A heap pages cm -> (i < length pages)%nat ->
  post (heapPage heap (Z.of_nat i)) cm (fun _ cm' => cm' = with_pool (GetPage (heap_key heap i) (bufferPool cm)).2 cm).
Proof.
  intros HT Hi. apply triple_post. unfold heapPage. apply triple_bind, CatalogJournal.triple_on_pool. fold (heap_key heap i).
  eapply triple_mono; [apply triple_run_state, (PageStore.get_page root0 root_nonempty E A _ (heap_key heap i)); [apply HT|]|].
  { eapply table_at_key; [done|lia]. }
  intros [ref|e|] P1 Hnp [(_ & _ & Hslot & _) ->]; [|done..]. destruct (Hslot ref eq_refl) as (pg & b & Hin & _).
  apply triple_bind, CatalogJournal.triple_on_pool.
  eapply BufferPoolSpec.triple_run; [exact (PageStore.Page_run _ _ ref pg b Hin)|]. cbn beta iota.
  apply CatalogJournal.triple_on_pool.
  by eapply BufferPoolSpec.triple_run; [exact (PageStore.FromBuffer_run _ (heap_key heap i) pg b (proj2 (proj2 Hin)))|].
Qed.

Lemma tryInsert_session E A heap pages cm i d :
  table_at E A heap pages cm -> TableDefinition.fileNode (table heap) ∉ catalogFiles -> in_session cm ->
  (i < length pages)%nat -> post (tryInsertIntoPage heap (Z.of_nat i) (Some d)) cm (fun _ cm' => in_session cm').
Proof.
  intros HT Ho Hse Hi. apply triple_post. unfold tryInsertIntoPage. apply triple_bind.
  pose proof (table_at_key _ _ _ _ _ i HT ltac:(lia)) as Hg. set (k := heap_key heap i) in *.
  assert (Hout : CatalogJournal.outside k) by (split; [exact Hg|exact Ho]).
  eapply triple_mono; [apply triple_and_post; [by apply (heapPage_spec E A heap pages cm i)|by eapply heapPage_pool]|].
  intros r cm1 Hnp [(P1 & Hcm1 & Hev & Hcase) Hget]. fold k in Hget.
  assert (Hs1 : in_session cm1).
  { rewrite Hget. eapply session_works; [exact Hse|by apply CatalogJournal.work_get]. }
  subst cm1. clear Hget. destruct r as [pg|e|]; [|done..]. destruct Hcase as (ref & b & ds & rows & _ & Hin & HR & _). fold k in Hin.
  apply triple_bind, CatalogJournal.triple_on_pool.
  eapply BufferPoolSpec.triple_run; [exact (PageStore.Size_run P1 k pg b ds (proj2 (proj2 Hin)) HR)|].
  cbn beta iota. apply triple_bind, CatalogJournal.triple_on_pool.
  change (bufferPool (with_pool P1 (with_pool P1 cm))) with P1.
  pose proof (PageStore.Write_run P1 k pg b ds d (proj2 (proj2 Hin)) HR) as Hw.
  destruct (PageSpec.insert ds d) as [ds'|] eqn:Ei; [|unfold triple; rewrite Hw; by split].
  destruct Hw as (b' & Hw & _ & Hv). eapply BufferPoolSpec.triple_run; [exact Hw|]. cbn beta iota.
  pose proof (PageStore.store_evolves root0 _ _ _ _ (ta_store _ _ _ _ _ HT) Hev) as Hst1.
  destruct (PageStore.poke root0 E (also k E) A P1 k ref pg b b' Hst1) as [Hs2 Hin2]; [by right|by left|exact Hin|exact Hv|].
  apply triple_bind, CatalogJournal.triple_on_pool.
  eapply triple_mono; [by apply triple_run_state, (PageStore.update_page root0 root_nonempty E A _ k ref pg b')|].
  intros r P2 _ [(-> & _) ->]. apply triple_ret.
  change (in_session (with_pool (UpdatePage k (Some pg) (PageStore.set_mem (pg_buf pg) b' P1)).2
    (with_pool (PageStore.set_mem (pg_buf pg) b' P1) (with_pool P1 cm)))).
  eapply session_works; [|by eapply CatalogJournal.work_update]. eapply session_works; [exact Hs1|by eapply CatalogJournal.work_change].
Qed.

Lemma insert_pages_session E A heap pages n i values d cm :
  table_at E A heap pages cm -> TableDefinition.fileNode (table heap) ∉ catalogFiles -> in_session cm ->
  (i + n = length pages)%nat -> encodes cm heap values d ->
  post (insert_pages heap (Z.of_nat i) n (Some d)) cm (fun _ cm' => in_session cm').
Proof.
  intros HT Ho Hse Hi Hd. apply triple_post. revert i cm HT Hse Hi Hd.
  induction n as [|n IH]; intros i cm HT Hse Hi Hd; cbn [insert_pages]; [by apply triple_ret|].
  apply triple_bind, triple_catch. eapply triple_mono; [apply triple_and_post;
    [by apply (tryInsert_spec (fun _ _ => True) E A heap pages cm i values d (nothing_beside E heap)); [..|lia|]|by apply (tryInsert_session E A heap pages cm i d); [..|lia]]|].
  intros r cm' Hnp [Hcase Hs']. destruct r as [tid|e|]; [by apply triple_ret| |done].
  destruct Hcase as (P1 & -> & Hev & _). replace (Z.of_nat i + 1) with (Z.of_nat (S i)) by lia.
  apply IH; [by apply table_at_evolves|done|lia|by eapply encodes_types; [|exact Hd]].
Qed.

Lemma insertIntoNewPage_session E A J heap pages cm d :
  table_in E A J heap pages cm -> knows_table (cat cm) (table heap) -> CatalogJournal.disk_room root0 1 cm -> in_session cm ->
  triple (insertIntoNewPage heap (Some d)) cm (fun r cm' => forall tid, r = Ok tid -> in_session cm').
Proof.
  intros HT Hk Hroom Hse. unfold insertIntoNewPage. rewrite (ti_count _ _ _ _ _ _ HT). pose proof (ti_range _ _ _ _ _ _ HT) as Hrange.
  set (n := Z.of_nat (length pages)) in *. change (pageKey heap n) with (heap_key heap (length pages)).
  apply (enter_row E A J); [done|done|]. intros P ref pg b _ _ _ HT1 _ Hs1. specialize (Hs1 Hse).
  assert (Hn32 : in_sint 32 (n + 1)) by (unfold in_sint; lia). fold n. rewrite (sint_id 32 ltac:(lia) (n + 1)) by done.
  pose proof (CatalogJournal.disk_room_same root0 E _ _ _ J _ _ 1 (ti_stands _ _ _ _ _ _ HT) (ti_stands _ _ _ _ _ _ HT1) Hroom) as Hroom1.
  destruct Hs1 as [F HF]. set (op := OpUpdatePagesCount (R:=R) (D:=D) (table heap) (n + 1)).
  assert (Hpre : CatalogJournal.session_pre root0 op (with_pool P cm)) by by split.
  destruct (CatalogJournal.session_persisted root0 root_nonempty F _ HF) as (HE & _ & L & HP).
  pose proof (CatalogJournal.op_persist root0 root_nonempty F HE L op _ HP Hpre) as [Hnp _].
  change (run_op op) with (UpdatePagesCount (R:=R) (D:=D) (table heap) (n + 1)) in Hnp.
  apply triple_bind. unfold triple at 1. 
  destruct (UpdatePagesCount (table heap) (n + 1) (with_pool P cm)) as [[[]|e|] cm4] eqn:EU; cbn [fst snd] in *; [|by split|by destruct Hnp].
  split; [done|]. apply triple_ret. intros tid _. exists F. by eapply (CatalogJournal.session_op root0 F (with_pool P cm) op).
Qed.

(** Inserting a row is a step of a session, also when it adds a page. *)
Lemma InsertRow_session E A J heap pages cm values more :
  table_in E A J heap pages cm -> row_ok cm (columns heap) values -> knows_table (cat cm) (table heap) ->
  CatalogJournal.disk_room root0 1 cm -> in_session cm ->
  post (InsertRow heap (values ++ more)) cm (fun r cm' => forall tid, r = Ok tid -> in_session cm').
Proof.
  intros HT (dts & Ht & Hv) Hk Hroom Hse. apply triple_post.
  destruct (columns_codec _ _ _ _ Ht Hv) as (d & Hne & Hser & _). specialize (Hne (ti_columns _ _ _ _ _ _ HT)).
  assert (Henc : forall more, serializeRow cm heap (values ++ more) = Ok (Some d)).
  { intros more'. unfold serializeRow. etransitivity; [exact (Hser [] more' None)|]. by rewrite append_opt_some. }
  assert (Hd : encodes cm heap values d) by (split; [by exists dts|rewrite <- (app_nil_r values); apply Henc]).
  unfold InsertRow. apply triple_bind, triple_get. cbn beta iota. apply triple_bind.
  apply CatalogJournal.triple_slift; rewrite Henc; [done|]. cbn beta iota.
  rewrite (ti_count _ _ _ _ _ _ HT), Nat2Z.id. apply triple_bind. change 0 with (Z.of_nat 0).
  pose proof (table_in_at _ _ _ _ _ _ HT) as HTa.
  eapply triple_mono; [apply triple_and_post; [by apply (insert_pages_spec (fun _ _ => True) E A heap pages (length pages) 0 values d cm (nothing_beside E heap))|
    by apply (insert_pages_session E A heap pages (length pages) 0 values d cm HTa (ti_other _ _ _ _ _ _ HT))]|].
  intros r cm1 Hnp [Hcase Hs1]. destruct r as [[tid|]|e|]; [by apply triple_ret; intros ? _| |done..].
  destruct Hcase as (P1 & -> & Hev & _). pose proof (table_in_pool _ _ _ _ _ _ _ Hev HT) as HT1.
  pose proof (CatalogJournal.disk_room_same root0 E _ _ _ J _ _ 1 (ti_stands _ _ _ _ _ _ HT) (ti_stands _ _ _ _ _ _ HT1) Hroom) as Hroom1.
  eapply triple_mono; [apply (insertIntoNewPage_session E A J heap pages (with_pool P1 cm) d); done|done].
Qed.

(** C20: the page an insertion adds is not saved: on any disk, whatever is
    flushed afterwards and with whatever result, the file of the table still
    holds at its place what it held before the insertion (provided the pool had
    no dirty copy of it).  If that is nothing, the inserted row cannot be read
    under its TID after a restart, whatever happened to the other pages. *)
Theorem added_row_not_durable E A J heap pages cm values more tid cm' it o :
  let k := heap_key heap (length pages) in
  table_in E A J heap pages cm -> row_ok cm (columns heap) values ->
  in_sint 32 (TableDefinition.oid (table heap)) -> Z.of_nat (length (J tablesFile)) < 2 ^ 31 ->
  PageStore.spared root0 k o (bufferPool cm) ->
  InsertRow heap (values ++ more) cm = (Ok tid, cm') -> tid_pageID tid = Z.of_nat (length pages) ->
  it ≡ₚ map_to_list (pageTable (bufferPool cm')) ->
  let d := disk (FlushAllPages it (bufferPool cm')).2 in
  stored d (BufferPoolSpec.path_of root0 k) (PageID k) = o /\
  (o = None -> forall P heap2 cm2, CatalogJournal.fresh_pool root0 d P ->
    PageStore.leaves root0 k P (bufferPool cm2) ->
    TableDefinition.fileNode (table heap2) = TableDefinition.fileNode (table heap) ->
    forall row, (ReadRow heap2 tid cm2).1 <> Ok row).
Proof.
  intros k HT Hrow Hoid Hroom Ho EI Htid Hit d.
  pose proof (table_key _ _ _ _ _ _ (length pages) HT ltac:(lia)) as Hg. fold k in Hg.
  destruct (InsertRow_spec E A J heap pages cm values more HT Hrow Hoid Hroom) as (bs & _ & _ & H). rewrite EI in H.
  destruct (H tid eq_refl) as [(i & _ & rows & b & Hi & -> & _)|(_ & (_ & _ & _ & A' & J' & HT' & _) & Hnot)].
  { apply lookup_lt_Some in Hi. cbn in Htid. lia. }
  pose proof (CatalogJournal.st_store _ _ _ _ _ (ti_stands _ _ _ _ _ _ HT')) as Hs'. cbn [fst snd] in Hs', Hnot.
  destruct (PageStore.store_ok _ _ _ _ Hs') as [OK _].
  destruct (PageStore.flush_all root0 root_nonempty (bufferPool cm') it OK) as [_ Hev].
  { intros k' ref. by apply BufferPoolSpec.it_table. }
  assert (Hfile : stored d (BufferPoolSpec.path_of root0 k) (PageID k) = o).
  { by apply (PageStore.spares_evolves root0 root_nonempty no_key _ _ Hev k o Hg (fun H => H)), Hnot. }
  split; [exact Hfile|]. intros -> P heap2 cm2 Hfresh Hev2 Hnode.
  apply (ReadRow_missing d P heap2 tid cm2 k Hfresh); [| |exact Hg|exact Hfile|exact Hev2].
  - intros Hrel. by apply (PageStore.store_calm _ _ _ _ (PageStore.store_evolves root0 _ _ _ _ Hs' Hev)).
  - unfold k, heap_key, pageKey. by rewrite Htid, Hnode.
Qed.
End heap.

(** ** Witnesses: a table with one row, in a file of one page *)
Definition a_row : row := [AInt64 7; AString "ann"].
Definition a_record : list byte := be_bytes 8 7 ++ byte_of 3 :: bytes_of "ann".
Definition a_page : HeapPage :=
  match NewHeapPage 0 with
  | Ok p => match HeapPage.Write p (Some a_record) with Ok p' => p' | _ => p end
  | _ => {| pageID := 0; buf := [] |}
  end.
Definition a_disk : FS := {| files := {["data/1.dat"%string := buf a_page]}; faults := [] |}.

Definition started_on (d : FS) : DefaultCatalogManager.t LRUReplacer.t FS :=
  match (NewDefaultCatalogManager "data" (CatalogJournal.pool_on d)).1 with
  | Ok cm => cm
  | _ => CatalogJournal.started "data" (CatalogJournal.pool_on d)
  end.
Definition a_table (pages : Z) : TableDefinition.t :=
  {| TableDefinition.oid := 1; TableDefinition.name := "users"; TableDefinition.typ := "TABLE";
     TableDefinition.fileNode := "1.dat"; TableDefinition.pagesCount := pages |}.
Definition count_page : catalog_op (R:=LRUReplacer.t) (D:=FS) := OpUpdatePagesCount (a_table 0) 1.
Definition two_steps (d : FS) := (run_op count_page (run_op create_users (started_on d)).2).2.
Definition a_state : DefaultCatalogManager.t LRUReplacer.t FS := two_steps a_disk.
Definition a_heap : t :=
  {| table := a_table 1; columns := default [] (columnsByTableOid (cat a_state) !! 1) |}.

Definition a_heap0 : t := {| table := a_table 0; columns := columns a_heap |}.

Lemma a_page_repr : page_repr a_page [a_record].
Proof.
  destruct (NewHeapPage_repr 0) as (p & E & Hid & HR). destruct (Write_insert p [] a_record HR) as (p' & E' & Hid' & HR').
  unfold a_page. by rewrite E, E'.
Qed.

Lemma heap_no_files : no_files "data" a_disk.
Proof.
  intros f Hf. unfold catalogFiles in Hf. rewrite !elem_of_cons, elem_of_nil in Hf.
  destruct Hf as [->|[->|[->|[->|[]]]]]; vm_compute; reflexivity.
Qed.

Lemma a_state_session : CatalogJournal.session "data" BufferPoolSpec.no_key a_state.
Proof.
  assert (H0 : CatalogJournal.session "data" BufferPoolSpec.no_key (started_on a_disk)).
  { eapply (CatalogJournal.session_first "data" a_disk (CatalogJournal.pool_on a_disk)); [exact heap_no_files|intros []| |].
    - apply CatalogJournal.pool_on_fresh.
    - vm_compute. reflexivity. }
  assert (H1 : CatalogJournal.session "data" BufferPoolSpec.no_key (run_op create_users (started_on a_disk)).2).
  { eapply (CatalogJournal.session_op "data" _ _ create_users); [exact H0| |vm_compute; reflexivity].
    split; [vm_compute; split; reflexivity|]. split; [by repeat constructor|].
    apply CatalogJournal.disk_room_dec. vm_compute. reflexivity. }
  eapply (CatalogJournal.session_op "data" _ _ count_page); [exact H1| |vm_compute; reflexivity].
  split; [|split; [vm_compute; split; congruence|]].
  - exists (a_table 0). vm_compute. split; reflexivity.
  - apply CatalogJournal.disk_room_dec. vm_compute. reflexivity.
Qed.

Definition a_column (oid typeOid position : Z) (name : string) : ColumnDefinition.t :=
  {| ColumnDefinition.oid := oid; ColumnDefinition.tableOid := 1; ColumnDefinition.typeOid := typeOid;
     ColumnDefinition.name := name; ColumnDefinition.position := position |}.

Lemma a_columns : columns a_heap = [a_column 1 1 0 "id"; a_column 2 2 1 "name"].
Proof. vm_compute. reflexivity. Qed.

Lemma a_typed : typed a_state (columns a_heap) [INT64; VARCHAR].
Proof.
  rewrite a_columns. constructor; [vm_compute; reflexivity|]. constructor; [vm_compute; reflexivity|constructor].
Qed.

Lemma storable_by_dec vs dts : bool_decide (Forall2 storable vs dts) = true -> Forall2 storable vs dts.
Proof. apply bool_decide_eq_true. Qed.

Lemma a_encodes : encodes a_state a_heap a_row a_record.
Proof.
  split; [|vm_compute; reflexivity]. exists [INT64; VARCHAR]. split; [exact a_typed|].
  apply storable_by_dec. vm_compute. reflexivity.
Qed.

Lemma a_table_in : exists A J,
  table_in "data" BufferPoolSpec.no_key A J a_heap [Some [a_row]] a_state /\ Z.of_nat (length (J tablesFile)) < 2 ^ 31.
Proof.
  destruct (CatalogJournal.session_persisted (R:=LRUReplacer.t) (D:=FS) "data" ltac:(discriminate) _ _ a_state_session) as (_ & _ & L & HP).
  destruct (CatalogJournal.p_logs _ _ _ _ HP) as (A & J & Hst & _). exists A, J.
  assert (Hroom : Z.of_nat (length (J tablesFile)) + 1 <= 2 ^ 31).
  { apply (CatalogJournal.disk_room_log (R:=LRUReplacer.t) (D:=FS) "data" BufferPoolSpec.no_key A J a_state 1); [exact Hst|apply (proj1 (proj2 CatalogJournal.files_in))|].
    apply CatalogJournal.disk_room_dec. vm_compute. reflexivity. }
  split; [|lia]. split; [exact Hst|by intros k []| | | |reflexivity|vm_compute; reflexivity|].
  - apply (bool_decide_unpack _). vm_compute. exact I.
  - apply (bool_decide_unpack _). vm_compute. exact I.
  - rewrite a_columns. discriminate.
  - intros i o Hi. split; [by intros []|]. destruct i as [|i]; [|discriminate Hi]. injection Hi as <-.
    exists (buf a_page), [a_record].
    split.
    { rewrite (store_contents (R:=LRUReplacer.t) (D:=FS) "data" _ _ _ _ (heap_key a_heap 0) Hst); [vm_compute; reflexivity| |intros []].
      split; [apply (bool_decide_unpack _); vm_compute; exact I|vm_compute; split; congruence]. } split; [|constructor; [apply a_encodes|constructor]].
    pose proof a_page_repr as HR. assert (Hid : a_page = {| pageID := Z.of_nat 0; buf := buf a_page |}) by (vm_compute; reflexivity).
    rewrite <- Hid. exact HR.
Qed.

Lemma row_roundtrip_witness :
  exists bs, serializeRow a_state a_heap (a_row ++ []) = Ok (Some bs) /\
    deserializeRow a_state a_heap (bs ++ [zero; one]) = Ok a_row.
Proof.
  destruct (row_roundtrip a_state a_heap a_row []) as (bs & Hs & Hd); [rewrite a_columns; discriminate|exact (proj1 a_encodes)|].
  exists bs. split; [exact Hs|exact (Hd _)].
Defined.

Lemma heap_reads_witness :
  (ScanTids a_heap a_state).1 = Ok [NewTID 0 0] /\
  forall values, (ReadRow a_heap (NewTID 0 0) a_state).1 = Ok values -> values = a_row.
Proof.
  split; [vm_compute; reflexivity|]. destruct a_table_in as (A & J & HT & _).
  destruct (heap_reads (R:=LRUReplacer.t) (D:=FS) "data" ltac:(discriminate) _ A J a_heap [Some [a_row]] a_state HT) as [_ Hread].
  destruct (Hread 0%nat 0 (le_n 1)) as (_ & _ & _ & H). change (Z.of_nat 0) with 0 in H. intros values E. rewrite E in H.
  destruct H as (rows & [= <-] & _ & [= <-]). reflexivity.
Defined.

Definition b_row : row := [AInt64 (-1); AString "bob"].

Lemma InsertRow_refines_witness :
  (InsertRow a_heap (b_row ++ []) a_state).1 = Ok (NewTID 0 1) /\
  exists A' J', table_in "data" BufferPoolSpec.no_key A' J' a_heap [Some [a_row; b_row]] (InsertRow a_heap (b_row ++ []) a_state).2.
Proof.
  assert (E : (InsertRow a_heap (b_row ++ []) a_state).1 = Ok (NewTID 0 1)) by (vm_compute; reflexivity).
  split; [exact E|]. destruct a_table_in as (A & J & HT & Hroom).
  destruct (InsertRow_refines (R:=LRUReplacer.t) (D:=FS) "data" ltac:(discriminate) _ A J a_heap [Some [a_row]] a_state b_row [] HT)
    as (d & _ & _ & Hins).
  - exists [INT64; VARCHAR]. split; [exact a_typed|]. apply storable_by_dec. vm_compute. reflexivity.
  - vm_compute. split; congruence.
  - exact Hroom.
  - destruct (Hins _ E) as [(i & _ & rows & b & Ho & Ht & _ & HT')|(_ & Ht & _)]; [|discriminate Ht].
    destruct i as [|i]; [|discriminate Ho]. injection Ho as <-. eexists _, J. exact HT'.
Defined.

(** *** A row that is lost *)
Definition new_users : DefaultCatalogManager.t LRUReplacer.t FS :=
  (run_op create_users (started_on {| files := ∅; faults := [] |})).2.
Definition inserted_users := (InsertRow a_heap0 a_row new_users).2.
Definition flushed_users : outcome unit * Pool LRUReplacer.t FS :=
  FlushAllPages (map_to_list (pageTable (bufferPool inserted_users))) (bufferPool inserted_users).
Definition restarted_users := started_on (disk flushed_users.2).

Lemma new_users_session : CatalogJournal.session "data" BufferPoolSpec.no_key new_users.
Proof.
  assert (H0 : CatalogJournal.session "data" BufferPoolSpec.no_key (started_on {| files := ∅; faults := [] |})).
  { eapply (CatalogJournal.session_first "data" {| files := ∅; faults := [] |} (CatalogJournal.pool_on {| files := ∅; faults := [] |}));
      [intros f Hf|intros []|apply CatalogJournal.pool_on_fresh|vm_compute; reflexivity].
    unfold catalogFiles in Hf. rewrite !elem_of_cons, elem_of_nil in Hf.
    destruct Hf as [->|[->|[->|[->|[]]]]]; vm_compute; reflexivity. }
  eapply (CatalogJournal.session_op "data" _ _ create_users); [exact H0| |vm_compute; reflexivity].
  split; [vm_compute; split; reflexivity|]. split; [by repeat constructor|].
  apply CatalogJournal.disk_room_dec. vm_compute. reflexivity.
Qed.

Lemma new_table_in : exists A J,
  table_in "data" BufferPoolSpec.no_key A J a_heap0 [] new_users /\ Z.of_nat (length (J tablesFile)) < 2 ^ 31.
Proof.
  destruct (CatalogJournal.session_persisted (R:=LRUReplacer.t) (D:=FS) "data" ltac:(discriminate) _ _ new_users_session) as (_ & _ & L & HP).
  destruct (CatalogJournal.p_logs _ _ _ _ HP) as (A & J & Hst & _). exists A, J.
  assert (Hroom : Z.of_nat (length (J tablesFile)) + 1 <= 2 ^ 31).
  { apply (CatalogJournal.disk_room_log (R:=LRUReplacer.t) (D:=FS) "data" BufferPoolSpec.no_key A J new_users 1);
      [exact Hst|apply (proj1 (proj2 CatalogJournal.files_in))|].
    apply CatalogJournal.disk_room_dec. vm_compute. reflexivity. }
  split; [|lia]. split; [exact Hst|by intros k []| | | |reflexivity|vm_compute; reflexivity|].
  - apply (bool_decide_unpack _). vm_compute. exact I.
  - apply (bool_decide_unpack _). vm_compute. exact I.
  - unfold a_heap0. cbn [columns]. rewrite a_columns. discriminate.
  - intros i o Hi. discriminate Hi.
Qed.

(** The first row of a new table. *)
Lemma added_row_not_durable_witness :
  (InsertRow a_heap0 (a_row ++ []) new_users).1 = Ok (NewTID 0 0) /\ flushed_users.1 = Ok tt /\
  stored (disk flushed_users.2) "data/1.dat" 0 = None /\
  forall row, (ReadRow a_heap (NewTID 0 0) (CatalogJournal.with_pool (CatalogJournal.pool_on (disk flushed_users.2)) new_users)).1 <> Ok row.
Proof.
  split; [vm_compute; reflexivity|]. split; [vm_compute; reflexivity|]. destruct new_table_in as (A & J & HT & Hroom).
  destruct (added_row_not_durable (R:=LRUReplacer.t) (D:=FS) "data" ltac:(discriminate) BufferPoolSpec.no_key A J a_heap0 [] new_users
    a_row [] (NewTID 0 0) inserted_users (map_to_list (pageTable (bufferPool inserted_users))) None HT) as [Hfile Hread].
  - exists [INT64; VARCHAR]. split; [|apply storable_by_dec; vm_compute; reflexivity].
    unfold a_heap0. cbn [columns]. rewrite a_columns.
    constructor; [vm_compute; reflexivity|]. constructor; [vm_compute; reflexivity|constructor].
  - vm_compute. split; congruence.
  - exact Hroom.
  - split; [vm_compute; reflexivity|]. intros s b Hr. vm_compute in Hr. discriminate Hr.
  - vm_compute. reflexivity.
  - reflexivity.
  - reflexivity.
  - split; [exact Hfile|]. intros row.
    apply (Hread eq_refl (CatalogJournal.pool_on (disk flushed_users.2)) a_heap
      (CatalogJournal.with_pool (CatalogJournal.pool_on (disk flushed_users.2)) new_users));
      [apply CatalogJournal.pool_on_fresh|reflexivity|reflexivity].
Defined.

(** A run of the database: a table is created, its first row is inserted into a
    new page, the pool is flushed and an index is created. *)
Definition indexed_users : DefaultCatalogManager.t LRUReplacer.t FS :=
  (run_op (OpCreateIndex "users_id" "users" "id" IndexTypeBTree) (CatalogJournal.with_pool flushed_users.2 inserted_users)).2.

Lemma indexed_users_session : exists E, CatalogJournal.session "data" E indexed_users.
Proof.
  destruct new_table_in as (A & J & HT & _).
  assert (H1 : in_session "data" inserted_users).
  { apply (InsertRow_session (R:=LRUReplacer.t) (D:=FS) "data" ltac:(discriminate) _ A J a_heap0 [] new_users a_row [] HT) with (tid := NewTID 0 0);
      [| | |eexists; exact new_users_session|vm_compute; reflexivity].
    - exists [INT64; VARCHAR]. split; [|apply storable_by_dec; vm_compute; reflexivity].
      unfold a_heap0. cbn [columns]. rewrite a_columns.
      constructor; [vm_compute; reflexivity|]. constructor; [vm_compute; reflexivity|constructor].
    - exists (a_table 0). vm_compute. split; reflexivity.
    - apply CatalogJournal.disk_room_dec. vm_compute. reflexivity. }
  apply (session_works "data" inserted_users BufferPoolSpec.no_key flushed_users.2) in H1 as [E H2].
  2:{ by apply CatalogJournal.work_flush_all. }
  exists E. eapply (CatalogJournal.session_op "data" E _ (OpCreateIndex "users_id" "users" "id" IndexTypeBTree)); [exact H2| |].
  2:{ vm_compute. reflexivity. }
  split; [vm_compute; reflexivity|]. split; [vm_compute; split; congruence|].
  apply CatalogJournal.disk_room_dec. vm_compute. reflexivity.
Qed.

Lemma catalog_recovers_witness :
  exists cm', (NewDefaultCatalogManager "data" (CatalogJournal.pool_on (disk (bufferPool indexed_users)))).1 = Ok cm' /\
    cat cm' = cat indexed_users /\ GetTable cm' "users" = Ok (Some (a_table 1)) /\
    is_Some (indexesByName (cat cm') !! "users_id"%string).
Proof.
  destruct indexed_users_session as [E Hs].
  destruct (CatalogJournal.catalog_recovers (R:=LRUReplacer.t) (D:=FS) "data" ltac:(discriminate) E indexed_users
    (CatalogJournal.pool_on (disk (bufferPool indexed_users)))) as (_ & Hok & _).
  - exact Hs.
  - split; [vm_compute; reflexivity|]. apply CatalogJournal.disk_room_dec. vm_compute. reflexivity.
  - apply CatalogJournal.pool_on_fresh.
  - assert (Hb : match (NewDefaultCatalogManager "data" (CatalogJournal.pool_on (disk (bufferPool indexed_users)))).1 with Ok _ => true | _ => false end = true)
      by (vm_compute; reflexivity).
    destruct (NewDefaultCatalogManager "data" (CatalogJournal.pool_on (disk (bufferPool indexed_users)))) as [[cm'|e|] P']; try discriminate Hb.
    exists cm'. split; [reflexivity|]. unfold GetTable. rewrite (Hok cm' P' eq_refl). split; [reflexivity|].
    split; [vm_compute; reflexivity|]. vm_compute. eexists. reflexivity.
Defined.

(** The first row of a table is lost: it is inserted into the empty table
    and the insertion succeeds, all pages are flushed with success, and after
    a restart on the files the catalog counts one page in the table, a scan
    finds no row and reading the TID is an error: the page was never written,
    and the table has no file. *)
Theorem inserted_row_lost :
  (NewTableHeap (a_table 0) new_users).1 = Ok a_heap0 /\
  (InsertRow a_heap0 a_row new_users).1 = Ok (NewTID 0 0) /\
  (ReadRow a_heap0 (NewTID 0 0) inserted_users).1 = Ok a_row /\
  flushed_users.1 = Ok tt /\
  GetTable restarted_users "users" = Ok (Some (a_table 1)) /\
  (NewTableHeap (a_table 1) restarted_users).1 = Ok a_heap /\
  (ScanTids a_heap restarted_users).1 = Ok [] /\
  (ReadRow a_heap (NewTID 0 0) restarted_users).1 = Err (OSError "open").
Proof. split_and!; vm_compute; reflexivity. Qed.
End HeapSpec.
