(* ===== verification/IndexPage.v ===== *)
(** * IndexPage: what the two disk indexes share

    The hash index and the BTree index keep fields at fixed offsets of raw
    page buffers ([encoding/binary] on [slot.Page().Bytes()]) and change pages
    in place, through the pool: get the slot, write into its page, hand the
    page back with [UpdatePage].  This file has the field accesses, with the
    panics of Go's slices, the pointer operations, and the lemmas on them: a
    page that a client holds keeps its bytes while the pool works
    ([held_evolves]), changing it and handing it back updates the store
    ([modify_page]), and so does making a page and filling it
    ([new_filled]). *)

From S2P Require Import Prelude GoRuntime Utf8 Ast HeapPage Replacer PageFile BufferPool PoolCalm PageStore CatalogModel Semantic CatalogManager Storage.
#[local] Open Scope Z_scope.

(** ** Fields of a buffer

    [binary.BigEndian.Uint32(buf[off:])] and its companions, which panic when
    the field does not lie inside the buffer. *)
Definition getU32 (b : list byte) (off : Z) : outcome Z := let! f := go_slice b off (off + 4) in Ok (be_value f).
Definition getI32 (b : list byte) (off : Z) : outcome Z := ofmap int32 (getU32 b off).
Definition getU16 (b : list byte) (off : Z) : outcome Z := let! f := go_slice b off (off + 2) in Ok (be_value f).
Definition getI64 (b : list byte) (off : Z) : outcome Z :=
  let! f := go_slice b off (off + 8) in Ok (int64 (be_value f)).

Definition putU32 (off v : Z) (b : list byte) : outcome (list byte) := go_write b off (be_bytes 4 (uint32 v)).
Definition putU16 (off v : Z) (b : list byte) : outcome (list byte) := go_write b off (be_bytes 2 (uint16 v)).
Definition putU64 (off v : Z) (b : list byte) : outcome (list byte) := go_write b off (be_bytes 8 (uint64 v)).

(** [copy(buf[off:], bs)]: as many bytes as fit. *)
Definition go_copy (off : Z) (bs b : list byte) : outcome (list byte) :=
  let! _ := go_slice b off (Z.of_nat (length b)) in
  go_write b off (take (length b - Z.to_nat off) bs).

(** The type assertions [key.(int64)] and [key.(string)]. *)
Definition as_int64 (k : any) : outcome Z := match k with AInt64 n => Ok n | _ => Panic end.
Definition as_string (k : any) : outcome string := match k with AString s => Ok s | _ => Panic end.

(** The bytes of a TID, and of a key of an index. *)
Definition tid_bytes (tid : TID) : list byte :=
  be_bytes 4 (uint32 (tid_pageID tid)) ++ be_bytes 2 (uint16 (tid_slotID tid)).

Definition key_bytes (k : any) : list byte :=
  match k with
  | AInt64 n => be_bytes 8 (uint64 n)
  | AString s => be_bytes 2 (uint16 (string_len s)) ++ bytes_of s
  | _ => []
  end.

(** The keys of an index over a column of the type [tn]; a key to search for
    need not fit on a page. *)
Definition key_kind (tn : string) (k : any) : Prop :=
  match k with
  | AInt64 _ => tn = "INT64"%string
  | AString _ => tn = "VARCHAR"%string
  | _ => False
  end.

Lemma sub_add {A} pos n m (l : list A) : sub pos (n + m) l = sub pos n l ++ sub (pos + n) m l.
Proof. unfold sub. by rewrite <- drop_drop, take_take_drop. Qed.

Section fields.
Implicit Types (b bs : list byte).

Lemma getU32_field b off :
  0 <= off -> off + 4 <= Z.of_nat (length b) -> getU32 b off = Ok (field 4 (Z.to_nat off) b).
Proof. intros. unfold getU32. rewrite go_slice_ok by lia. cbn [obind]. unfold field. do 3 f_equal. lia. Qed.

Lemma getI32_field b off :
  0 <= off -> off + 4 <= Z.of_nat (length b) -> getI32 b off = Ok (int32 (field 4 (Z.to_nat off) b)).
Proof. intros. unfold getI32. by rewrite getU32_field. Qed.

Lemma getU16_field b off :
  0 <= off -> off + 2 <= Z.of_nat (length b) -> getU16 b off = Ok (field 2 (Z.to_nat off) b).
Proof. intros. unfold getU16. rewrite go_slice_ok by lia. cbn [obind]. unfold field. do 3 f_equal. lia. Qed.

Lemma getI64_field b off :
  0 <= off -> off + 8 <= Z.of_nat (length b) -> getI64 b off = Ok (int64 (field 8 (Z.to_nat off) b)).
Proof. intros. unfold getI64. rewrite go_slice_ok by lia. cbn [obind]. unfold field. do 4 f_equal. lia. Qed.

(** A field whose bytes are known. *)
Lemma field_sub n pos b v : sub pos n b = be_bytes n v -> 0 <= v < 256 ^ Z.of_nat n -> field n pos b = v.
Proof. intros Hs Hv. unfold field. rewrite Hs. by apply be_value_id. Qed.

Lemma put_wrote n off v b :
  0 <= off -> off + Z.of_nat n <= Z.of_nat (length b) ->
  exists b', go_write b off (be_bytes n v) = Ok b' /\ wrote b b' (Z.to_nat off) (be_bytes n v).
Proof. intros. apply go_write_wrote; [done|]. by rewrite length_be_bytes. Qed.

Lemma go_copy_wrote off bs b :
  0 <= off -> off + Z.of_nat (length bs) <= Z.of_nat (length b) ->
  exists b', go_copy off bs b = Ok b' /\ wrote b b' (Z.to_nat off) bs.
Proof.
  intros H1 H2. unfold go_copy. rewrite go_slice_ok by lia. cbn [obind]. rewrite take_ge by lia.
  by apply go_write_wrote.
Qed.

Lemma uint32_range v : 0 <= uint32 v < 256 ^ Z.of_nat 4.
Proof. apply (uint_range 32). lia. Qed.

Lemma int32_uint32 v : in_sint 32 v -> int32 (uint32 v) = v.
Proof. intros. rewrite sint_uint by lia. by apply sint_id. Qed.

(** Reading what stands between [pre] and [post]. *)
Lemma go_slice_at b pre bs post lo hi :
  b = pre ++ bs ++ post -> lo = Z.of_nat (length pre) -> hi = lo + Z.of_nat (length bs) ->
  go_slice b lo hi = Ok bs.
Proof.
  intros -> -> ->. rewrite go_slice_ok by len. f_equal. apply sub_app_exact; lia.
Qed.

Lemma getI32_at b pre v post off :
  b = pre ++ be_bytes 4 (uint32 v) ++ post -> off = Z.of_nat (length pre) -> in_sint 32 v -> getI32 b off = Ok v.
Proof.
  intros Hb Hoff Hv. unfold getI32, getU32. rewrite (go_slice_at b pre (be_bytes 4 (uint32 v)) post) by (done || by rewrite length_be_bytes).
  cbn [obind]. rewrite be_value_id by (apply (uint_range 32); lia). unfold ofmap. cbn [obind]. by rewrite int32_uint32.
Qed.

Lemma getU16_bytes b pre v post off :
  b = pre ++ be_bytes 2 (uint16 v) ++ post -> off = Z.of_nat (length pre) -> getU16 b off = Ok (uint16 v).
Proof.
  intros Hb Hoff. unfold getU16. rewrite (go_slice_at b pre (be_bytes 2 (uint16 v)) post) by (done || by rewrite length_be_bytes).
  cbn [obind]. by rewrite be_value_id by (apply (uint_range 16); lia).
Qed.

Lemma getI64_at b pre v post off :
  b = pre ++ be_bytes 8 (uint64 v) ++ post -> off = Z.of_nat (length pre) -> in_sint 64 v -> getI64 b off = Ok v.
Proof.
  intros Hb Hoff Hv. unfold getI64. rewrite (go_slice_at b pre (be_bytes 8 (uint64 v)) post) by (done || by rewrite length_be_bytes).
  cbn [obind]. rewrite be_value_id by (apply (uint_range 64); lia). rewrite sint_uint by lia. by rewrite sint_id.
Qed.

(** The heap header of the page is not touched by a write behind it. *)
Lemma wrote_valid b b' pos bs : wrote b b' pos bs -> (10 <= pos)%nat -> valid_buf b -> valid_buf b'.
Proof.
  intros (Hl & _ & Hf) Hp [Hlen Hsig]. split; [lia|]. unfold field in *. by rewrite Hf by lia.
Qed.

Lemma int32_fits z : - 2 ^ 31 <= z < 2 ^ 31 -> int32 z = z.
Proof. intros. by apply sint_id. Qed.

End fields.

Definition tid_ok (tid : TID) : Prop := in_sint 32 (tid_pageID tid) /\ in_sint 16 (tid_slotID tid).

Lemma length_tid tid : length (tid_bytes tid) = 6%nat.
Proof. unfold tid_bytes. len. Qed.

Lemma tid_at b pre tid post off :
  b = pre ++ tid_bytes tid ++ post -> off = Z.of_nat (length pre) -> tid_ok tid ->
  getI32 b off = Ok (tid_pageID tid) /\ getU16 b (off + 4) = Ok (uint16 (tid_slotID tid)).
Proof.
  intros Hb Hoff [Hp _]. unfold tid_bytes in Hb. split.
  - eapply (getI32_at b pre); [|done|done]. by rewrite Hb, <- !app_assoc.
  - eapply (getU16_bytes b (pre ++ be_bytes 4 (uint32 (tid_pageID tid)))); [|len]. by rewrite Hb, <- !app_assoc.
Qed.


(** ** Pages through the pool *)
Module IndexPage.
Import HeapBufferPoolManager.

Section operations.
Context {R D : Type} `{!Replacer R, !PageFileManager D}.

(** [slot, err := GetPage(key)] and [slot.Page()]: the page pointer of the
    slot, which no other call changes while a client uses it. *)
Definition fetch (key : PageKey) : ST (Pool R D) PageRef :=
  slot <- GetPage key ;; PageStore.Page slot.

(** Writes into the array of the page, in place. *)
Definition Modify (pg : PageRef) (f : list byte -> outcome (list byte)) : ST (Pool R D) unit :=
  b <- PageStore.Bytes pg ;;
  b' <- slift (f b) ;;
  smodify (PageStore.set_mem (pg_buf pg) b').
End operations.

(** ** An index object and the pool

    A call of an index works on the pool and on the fields of the index
    object, of type [X]; [key] is its [key] method. *)
Section client.
Context {R D X : Type} `{!Replacer R, !PageFileManager D} (key : X -> Z -> PageKey).

Definition on_pool {A} (f : ST (Pool R D) A) : ST (Pool R D * X) A := fun s =>
  let (r, P) := f s.1 in (r, (P, s.2)).
Definition self : ST (Pool R D * X) X := fun s => (Ok s.2, s).

(** [GetPage(idx.key(pageID))] and its page. *)
Definition page (pageID : Z) : ST (Pool R D * X) PageRef := idx <- self ;; on_pool (fetch (key idx pageID)).
Definition UpdatePage (pageID : Z) (pg : PageRef) : ST (Pool R D * X) unit :=
  idx <- self ;; on_pool (HeapBufferPoolManager.UpdatePage (key idx pageID) (Some pg)).

(** [NewPage(idx.key(pageID), page.NewHeapPage(pageID))]. *)
Definition newPage (pageID : Z) : ST (Pool R D * X) unit :=
  idx <- self ;;
  pg <- on_pool (PageStore.New pageID) ;;
  on_pool (NewPage (key idx pageID) (Some pg)) ;;;
  sret tt.
End client.

Section store.
Context {R D : Type} `{RR : Replacer R, RL : !ReplacerLaws R, DM : PageFileManager D, DL : !PageFileLaws D}.
Context (root0 : string) (root_nonempty : root0 <> ""%string).
Implicit Types (P : Pool R D) (k : PageKey) (E : PageKey -> Prop) (A : PageKey -> option (list byte)) (pg : PageRef).

Notation good := (BufferPoolSpec.good_key Filepath.simple_name).
Notation evolves := (PageStore.evolves root0).
Notation resident := BufferPoolSpec.resident.
Notation no_key := BufferPoolSpec.no_key.
Notation store_but := (PageStore.store_but root0).
Notation in_slot := PageStore.in_slot.
Notation put := PageStore.put.
Notation also := PageStore.also.

Let join_inj f g : Filepath.simple_name f -> Filepath.simple_name g ->
  Filepath.Join root0 f = Filepath.Join root0 g -> f = g.
Proof. by apply Filepath.Join_inj. Qed.

Let join_nonempty f : Filepath.simple_name f -> Filepath.Join root0 f <> ""%string.
Proof. by apply Filepath.Join_nonempty. Qed.

(** Other files have not changed. *)
Definition elsewhere (file : string) A A' : Prop := forall k, FileID k <> file -> A' k = A k.

Lemma elsewhere_refl file A : elsewhere file A A.
Proof. by intros k _. Qed.

Lemma elsewhere_trans file A1 A2 A3 : elsewhere file A1 A2 -> elsewhere file A2 A3 -> elsewhere file A1 A3.
Proof. intros H1 H2 k Hk. by rewrite H2, H1. Qed.

Lemma elsewhere_page k b A : elsewhere (FileID k) A (put k b A).
Proof. intros k' Hk. unfold PageStore.put. rewrite decide_False; [done|]. intros ->. by apply Hk. Qed.

(** The key is no longer an exception. *)
Definition less k E : PageKey -> Prop := fun k' => k' <> k /\ E k'.

Lemma store_weaken E E' A P : (forall k, E k -> E' k) -> store_but E A P -> store_but E' A P.
Proof. intros HE [(OK & Hsz & Hr) Hac]. split; [|done]. split_and!; [done..|]. intros k Hg He. apply Hr; auto. Qed.

Lemma also_less k E k' : E k' -> also k (less k E) k'.
Proof. intros He. destruct (decide (k' = k)) as [->|Hne]; [by left|by right]. Qed.

(** A client holds the page [pg] of [k]: its bytes are [b], and no other key
    uses its array, whether [k] is resident or not. *)
Definition held P k pg (b : list byte) : Prop :=
  BufferPoolSpec.page_for k pg P b /\
  forall k' s c, resident P k' = Some (s, c) -> pg_buf (bs_page s) = pg_buf pg -> k' = k.

Lemma held_slot E A P k ref pg b : store_but E A P -> in_slot P k ref pg b -> held P k pg b.
Proof.
  intros (_ & Ha & _) Hin. split; [apply Hin|]. intros k' s c Hr Hb.
  destruct (PageStore.in_slot_resident _ _ _ _ _ Hin) as (s0 & E0 & _ & Hr0). eapply Ha; eauto; [by intros []..|]. congruence.
Qed.

(** Held pages survive what the pool does for other keys. *)
Definition keeps k P P' : Prop := forall k0 pg b, k0 <> k -> held P k0 pg b -> held P' k0 pg b.

Lemma page_for_evolves X P P' k pg b : BufferPoolSpec.evolves root0 Filepath.simple_name X P P' -> BufferPoolSpec.page_for k pg P b -> BufferPoolSpec.page_for k pg P' b.
Proof. intros Hev [Hm ?]. split; [|done]. eapply lookup_weaken; [exact Hm|apply Hev]. Qed.

Lemma held_evolves P P' k pg b : evolves no_key P P' -> held P k pg b -> held P' k pg b.
Proof.
  intros Hev [Hp Hh]. split; [by eapply page_for_evolves; [apply Hev|]|]. intros k' s c Hr Hb.
  destruct (BufferPoolSpec.ev_kept _ _ _ _ _ (PageStore.ev_pool _ _ _ _ Hev) k' s c (fun H => H) Hr) as [(s0 & b0 & H0 & Hs & _)|[_ Hn]].
  - eapply Hh; [exact H0|congruence].
  - destruct Hp as [Hm _]. congruence.
Qed.

Lemma keeps_trans k P1 P2 P3 : keeps k P1 P2 -> keeps k P2 P3 -> keeps k P1 P3.
Proof. intros H1 H2 k0 pg b Hne Hh. by apply H2, H1. Qed.

(** A page was put under [k]: a page held for another key survives if it is
    in another array. *)
Lemma held_put P P' k s b k0 pg c :
  evolves (eq k) P P' -> resident P' k = Some (s, b) -> k0 <> k -> held P k0 pg c ->
  pg_buf (bs_page s) <> pg_buf pg -> held P' k0 pg c.
Proof.
  intros Hev Hres Hne [Hp Ho] Hfree. split; [by eapply page_for_evolves; [apply Hev|]|].
  intros k' s' c' Hr Hb. destruct (decide (k = k')) as [<-|Hk].
  - rewrite Hres in Hr. by injection Hr as <- <-.
  - destruct (BufferPoolSpec.ev_kept _ _ _ _ _ (PageStore.ev_pool _ _ _ _ Hev) k' s' c' Hk Hr) as [(s0 & b0 & H0 & Hs & _)|[_ Hn]].
    + eapply Ho; [exact H0|congruence].
    + destruct Hp as [Hm _]. congruence.
Qed.

Lemma fetch_spec E A P k :
  store_but E A P -> good k ->
  triple (fetch k) P (fun r P' => store_but E A P' /\ evolves no_key P P' /\
    (forall pg, r = Ok pg -> exists ref b, in_slot P' k ref pg b /\ (~ E k -> A k = Some b)) /\
    (reliable -> ~ E k -> is_Some (A k) -> exists pg, r = Ok pg)).
Proof.
  intros Hst Hg. unfold fetch. apply triple_bind.
  eapply triple_mono; [by apply (PageStore.get_page root0 root_nonempty E A P k)|].
  intros r P1 _ (Hst1 & Hev & Hslot & Hfound). destruct r as [ref|e|]; [| |done].
  2:{ split_and!; [done..|]. intros Hrel He HA. by destruct (Hfound Hrel He HA). }
  destruct (Hslot ref eq_refl) as (pg & b & Hin & HA).
  eapply BufferPoolSpec.triple_run; [exact (PageStore.Page_run P1 k ref pg b Hin)|].
  split; [done|]. split; [done|]. split; [intros pg' [= <-]; by exists ref, b|]. intros _ _ _. by exists pg.
Qed.

Lemma Modify_run P k pg f b b' :
  BufferPoolSpec.page_for k pg P b -> f b = Ok b' -> Modify pg f P = (Ok tt, PageStore.set_mem (pg_buf pg) b' P).
Proof.
  intros Hp Hf. unfold Modify. rewrite (sbind_ok _ _ P b P) by by eapply PageStore.Bytes_run.
  unfold slift, sbind. by rewrite Hf.
Qed.

(** Changing a resident page and handing it back. *)
Lemma modify_slot E A P k ref pg b f b' :
  store_but E A P -> good k -> in_slot P k ref pg b -> f b = Ok b' -> valid_buf b' ->
  triple (Modify pg f ;;; HeapBufferPoolManager.UpdatePage k (Some pg)) P (fun r P' =>
    r = Ok tt /\ store_but (less k E) (put k b' A) P' /\ keeps k P P').
Proof.
  intros Hst Hg Hin Hf Hv. apply triple_bind.
  eapply BufferPoolSpec.triple_run; [exact (Modify_run P k pg f b b' (proj2 (proj2 Hin)) Hf)|]. cbn beta iota.
  destruct (PageStore.poke root0 E (also k (less k E)) A P k ref pg b b' Hst) as [Hst1 Hin1];
    [intros; by apply also_less|by left|done|done|].
  eapply triple_mono; [by apply (PageStore.update_page root0 root_nonempty (less k E) A _ k ref pg b' Hst1)|].
  intros r P' _ (-> & Hst' & Hev & _ & s & Hres & _ & Hp). split; [done|]. split; [done|].
  intros k0 pg0 c Hne [Hp0 Ho]. pose proof (held_slot _ _ _ _ _ _ _ Hst Hin) as [_ Hhk].
  destruct (PageStore.in_slot_resident _ _ _ _ _ Hin) as (s1 & E1 & _ & Hr1).
  assert (Hloc : pg_buf pg0 <> pg_buf pg).
  { intros Eb. apply Hne. symmetry. eapply Ho; [exact Hr1|congruence]. }
  eapply (held_put _ P' k s b' k0 pg0 c Hev Hres); [done| |congruence]. split.
    + destruct Hp0 as [Hm ?]. split; [|done]. cbn. by rewrite lookup_insert_ne.
    + intros k' s' c' Hr Hb. rewrite PageStore.resident_set_mem in Hr by (eexists; apply Hin).
      destruct (resident P k') as [[s2 c2]|] eqn:E2; [|done]. injection Hr as <- _. by eapply Ho.
Qed.

(** [fetch], change and hand back: the store's page is replaced, or the page
    could not be read and nothing has changed. *)
Lemma modify_page E A P k f :
  store_but E A P -> good k -> (forall b, valid_buf b -> (~ E k -> A k = Some b) -> exists b', f b = Ok b' /\ valid_buf b') ->
  triple (pg <- fetch k ;; Modify pg f ;;; HeapBufferPoolManager.UpdatePage k (Some pg)) P (fun r P' => keeps k P P' /\
    match r with
    | Ok _ => exists b b', valid_buf b /\ (~ E k -> A k = Some b) /\ f b = Ok b' /\ store_but (less k E) (put k b' A) P'
    | _ => store_but E A P'
    end).
Proof.
  intros Hst Hg Hf. apply triple_bind. eapply triple_mono; [by apply (fetch_spec E A P k)|].
  intros r P1 _ (Hst1 & Hev & Hslot & _).
  assert (Hk1 : keeps k P P1) by (intros k0 pg0 c _; by apply held_evolves).
  destruct r as [pg|e|]; [|by split|done]. destruct (Hslot pg eq_refl) as (ref & b & Hin & HA).
  assert (Hv : valid_buf b) by apply Hin. destruct (Hf b Hv HA) as (b' & Hb' & Hv').
  eapply triple_mono; [by apply (modify_slot E A P1 k ref pg b f b')|].
  intros r P2 _ (-> & Hst2 & Hk2). split; [by eapply keeps_trans|]. by exists b, b'.
Qed.

(** Making a page: it is resident, but the store does not have it yet. *)
Lemma new_page E A P k :
  store_but E A P -> good k ->
  triple (pg <- PageStore.New (PageID k) ;; NewPage k (Some pg) ;;; sret tt) P (fun r P' => keeps k P P' /\
    match r with
    | Ok _ => store_but (also k E) A P'
    | _ => store_but E A P'
    end).
Proof.
  intros Hst Hg. apply triple_bind. eapply triple_mono; [by apply (PageStore.new_array root0 E A)|].
  intros r1 P1 _ (pg & b & -> & Hst1 & Hev1 & Hb & Hid & HR & Hun & Hnew).
  assert (Hpg : BufferPoolSpec.page_for k pg P1 b).
  { split; [done|]. split; [done|]. by eapply (PageStore.repr_valid {| pageID := _; buf := b |}). }
  assert (Hk1 : keeps k P P1) by (intros k0 pg0 c _; by apply held_evolves).
  apply triple_bind. eapply triple_mono; [by apply (PageStore.enter_page root0 root_nonempty E A P1 k pg b)|].
  intros r2 P2 _ [_ H2]. destruct r2 as [ref|e|].
  - destruct H2 as (Hst2 & Hev2 & Hin & _). apply triple_ret. split; [|done]. intros k0 pg0 c Hne Hh.
    destruct (PageStore.in_slot_resident _ _ _ _ _ Hin) as (s & Es & _ & Hres).
    eapply (held_put P1 P2 k s b); [done|done|done|by apply Hk1|]. destruct Hh as [[Hm _] _]. congruence.
  - split; [|apply H2]. destruct H2 as [_ Hev2]. intros k0 pg0 c Hne Hh. eapply held_evolves; [exact Hev2|]. by apply Hk1.
  - done.
Qed.

(** Changing a page that is held, perhaps no longer resident. *)
Lemma modify_held E A P k pg b f b' :
  store_but E A P -> good k -> held P k pg b -> f b = Ok b' -> valid_buf b' ->
  triple (Modify pg f ;;; HeapBufferPoolManager.UpdatePage k (Some pg)) P (fun r P' =>
    r = Ok tt -> store_but (less k E) (put k b' A) P').
Proof.
  intros [(OK & Hsz & Hr) [Ha Hcalm]] Hg [Hp Ho] Hf Hv. apply triple_bind.
  eapply BufferPoolSpec.triple_run; [exact (Modify_run P k pg f b b' Hp Hf)|]. cbn beta iota.
  set (P1 := PageStore.set_mem (pg_buf pg) b' P). destruct Hp as (Hm & Hid & Hvb).
  assert (OK1 : BufferPoolSpec.pool_ok root0 Filepath.simple_name P1) by (apply PageStore.set_mem_ok; [done|by eexists|done]).
  assert (Hp1 : BufferPoolSpec.page_for k pg P1 b') by (split; [by apply lookup_insert_eq|done]).
  assert (Hother : forall k', k' <> k -> resident P1 k' = resident P k').
  { intros k' Hne. unfold P1. rewrite PageStore.resident_set_mem by by eexists.
    destruct (resident P k') as [[s c]|] eqn:Ek; [|done]. cbn. rewrite decide_False; [done|].
    intros Eb. by apply Hne, (Ho k' s c). }
  assert (Hsame : forall k' s c, resident P1 k' = Some (s, c) -> exists c0, resident P k' = Some (s, c0)).
  { intros k' s c. unfold P1. rewrite PageStore.resident_set_mem by by eexists.
    destruct (resident P k') as [[s0 c0]|]; [|done]. intros [= <- _]. by exists c0. }
  eapply triple_mono; [eapply (PageStore.calm_triple _ _ _ (fun _ => True));
    [by apply (BufferPoolSpec.UpdatePage_spec root0 Filepath.simple_name join_inj join_nonempty P1 k pg b')|]|].
  { intros Hrel Hpeace. eapply triple_mono; [by apply (PoolCalm.UpdatePage_peace root0 Filepath.simple_name join_inj join_nonempty Hrel P1 k pg b')|done]. }
  intros r P' _ ((Hev & Hok & _ & _) & Hcalm' & _) ->. destruct (Hok eq_refl) as (Hcon & Hcoh & s & Hres & _ & Hs). split.
  - split_and!; [apply Hev|by rewrite (BufferPoolSpec.ev_size _ _ _ _ _ Hev)|]. intros k' Hg' He.
    unfold PageStore.put. destruct (decide (k' = k)) as [->|Hne]; [done|].
    destruct (Hr k' Hg') as [Hc Hk]; [intros He'; by apply He|]. assert (k <> k') by congruence.
    assert (Hc1 : BufferPoolSpec.coherent root0 P1 k').
    { intros s' c'. rewrite Hother by done. apply Hc. }
    split; [by apply (BufferPoolSpec.ev_coherent _ _ _ _ _ Hev)|].
    rewrite (BufferPoolSpec.ev_contents _ _ _ _ _ Hev) by done. rewrite <- Hk.
    unfold BufferPoolSpec.contents. by rewrite Hother.
  - split; [|by apply Hcalm']. eapply (PageStore.apart_put root0 P1); [done|done| |exact Hres|rewrite Hs; eexists; apply Hp1|].
    + intros k1 k2 s1 b1 s2 b2 N1 N2 H1 H2 Eb. destruct (Hsame _ _ _ H1) as [c1 H1']. destruct (Hsame _ _ _ H2) as [c2 H2'].
      by eapply Ha.
    + intros k' s' c' Hne Hr' Eb. rewrite Hs in Eb. destruct (Hsame _ _ _ Hr') as [c0 H0]. by apply Hne, eq_sym, (Ho k' s' c0).
Qed.

(** ** The same for an index object *)
Section clients.
Context {X : Type} (key : X -> Z -> PageKey).
Implicit Types (idx : X).

Lemma triple_pool {B} (f : ST (Pool R D) B) P idx (Q : outcome B -> Pool R D * X -> Prop) :
  triple f P (fun r P' => Q r (P', idx)) -> triple (on_pool f) (P, idx) Q.
Proof. unfold triple, on_pool. cbn. by destruct (f P). Qed.

Lemma triple_self {B} P idx (k : X -> ST (Pool R D * X) B) Q :
  triple (k idx) (P, idx) Q -> triple (x <- self ;; k x) (P, idx) Q.
Proof. done. Qed.

(** Calls on the pool in sequence are one call. *)
Lemma on_pool_seq {B C F} (f : ST (Pool R D) B) (g : B -> ST (Pool R D) C) (c : F) P idx :
  (x <- on_pool f ;; on_pool (g x) ;;; sret c) (P, idx) = on_pool (x <- f ;; g x ;;; sret c) (P, idx).
Proof.
  unfold on_pool, sbind. cbn [fst snd]. destruct (f P) as [[x|e|] P1]; [|done..]. cbn [fst snd].
  by destruct (g x P1) as [[y|e|] P2].
Qed.

Lemma on_pool_update {B C F} (n : X -> ST (Pool R D) B) (f : B -> ST (Pool R D) C) (g : X -> B -> ST (Pool R D) F) P idx :
  (x <- (i <- self ;; on_pool (n i)) ;; on_pool (f x) ;;; (i <- self ;; on_pool (g i x))) (P, idx) =
  on_pool (x <- n idx ;; f x ;;; g idx x) (P, idx).
Proof.
  unfold on_pool, self, sbind. cbn [fst snd]. destruct (n idx P) as [[x|e|] P1]; [|done..]. cbn [fst snd].
  by destruct (f x P1) as [[y|e|] P2].
Qed.

(** Reading a page does not change the index object. *)
Lemma page_self {B} id (k : PageRef -> X -> ST (Pool R D * X) B) P idx :
  (pg <- page key id ;; i <- self ;; k pg i) (P, idx) = (pg <- page key id ;; k pg idx) (P, idx).
Proof.
  unfold sbind. destruct (page key id (P, idx)) as [r s] eqn:Ep. assert (s.2 = idx) as Hs.
  { revert Ep. unfold page, on_pool, sbind, self. cbn [fst snd]. destruct (fetch (key idx id) P). by intros [= <- <-]. }
  destruct r as [pg|e|]; [|done..]. unfold self. cbn [fst snd]. by rewrite Hs.
Qed.

Lemma slift_ok {S B C} (x : B) (k : B -> ST S C) : sbind (slift (Ok x)) k = k x.
Proof. done. Qed.

Lemma sbind_assoc {S B C F} (m : ST S B) (f : B -> ST S C) (g : C -> ST S F) s :
  sbind (sbind m f) g s = sbind m (fun x => sbind (f x) g) s.
Proof. unfold sbind. by destruct (m s) as [[x|e|] s1]. Qed.

Lemma triple_step {S B C} (m : ST S B) x s' (k : B -> ST S C) s Q :
  m s = (Ok x, s') -> triple (k x) s' Q -> triple (sbind m k) s Q.
Proof. unfold triple, sbind. by intros ->. Qed.

Lemma triple_eq {S B} (m m' : ST S B) s Q : m s = m' s -> triple m' s Q -> triple m s Q.
Proof. unfold triple. by intros ->. Qed.

(** Reading a page of the store. *)
Lemma read_page {B} E A P idx id b (k : PageRef -> list byte -> ST (Pool R D * X) B) Q :
  store_but E A P -> good (key idx id) -> ~ E (key idx id) -> A (key idx id) = Some b ->
  (forall P' pg ref, store_but E A P' -> in_slot P' (key idx id) ref pg b -> triple (k pg b) (P', idx) Q) ->
  (forall e P', store_but E A P' -> ~ reliable -> Q (Err e) (P', idx)) ->
  triple (pg <- page key id ;; buf <- on_pool (PageStore.Bytes pg) ;; k pg buf) (P, idx) Q.
Proof.
  intros Hst Hg HE HA Hk He. apply triple_bind. unfold page. apply triple_self, triple_pool.
  eapply triple_mono; [by apply (fetch_spec E A P (key idx id))|].
  intros r P1 _ (Hst1 & _ & Hslot & Hfound). destruct r as [pg|e|]; [| |done].
  2:{ apply He; [done|]. intros Hrel. by destruct (Hfound Hrel HE (ex_intro _ b HA)). }
  destruct (Hslot pg eq_refl) as (ref & c & Hin & HA'). specialize (HA' HE). assert (c = b) as -> by congruence.
  apply triple_bind, triple_pool. eapply BufferPoolSpec.triple_run; [by eapply PageStore.Bytes_run, Hin|].
  by eapply Hk.
Qed.

(** Changing a page, whether the store knows it or not. *)
Lemma change_page E A P idx id f (Q : outcome unit -> Pool R D * X -> Prop) :
  store_but E A P -> good (key idx id) ->
  (forall b, valid_buf b -> (~ E (key idx id) -> A (key idx id) = Some b) -> exists b', f b = Ok b' /\ valid_buf b') ->
  (forall P' b b', keeps (key idx id) P P' -> valid_buf b -> (~ E (key idx id) -> A (key idx id) = Some b) -> f b = Ok b' ->
     store_but (less (key idx id) E) (put (key idx id) b' A) P' -> Q (Ok tt) (P', idx)) ->
  (forall e P', Q (Err e) (P', idx)) ->
  triple (pg <- page key id ;; on_pool (Modify pg f) ;;; UpdatePage key id pg) (P, idx) Q.
Proof.
  intros Hst Hg Hf Hok He.
  eapply triple_eq; [apply on_pool_update|]. apply triple_pool.
  eapply triple_mono; [by apply (modify_page E A P (key idx id) f)|].
  intros r P' Hnp [Hk H]. destruct r as [[]|e|]; [|by apply He|done].
  destruct H as (b & b' & Hv & HA & Hb & Hst'). by eapply Hok.
Qed.

(** Making a page and going on. *)
Lemma create_page {B} E A P idx id (k : ST (Pool R D * X) B) Q :
  store_but E A P -> good (key idx id) -> PageID (key idx id) = id ->
  (forall P', store_but (also (key idx id) E) A P' -> triple k (P', idx) Q) -> (forall e s, Q (Err e) s) ->
  triple (newPage key id ;;; k) (P, idx) Q.
Proof.
  intros Hst Hg Hid Hk He. apply triple_bind. unfold newPage. apply triple_self. eapply triple_eq; [apply on_pool_seq|]. apply triple_pool.
  pose proof (new_page E A P (key idx id) Hst Hg) as Hnew. rewrite Hid in Hnew. eapply triple_mono; [exact Hnew|].
  intros r P' Hnp [_ Hr]. destruct r as [[]|e|]; [by apply Hk|by apply He|done].
Qed.

(** Handing back a changed page and going on. *)
Lemma write_back {B} P idx pg f id (k : ST (Pool R D * X) B) Q0 Q :
  triple (Modify pg f ;;; HeapBufferPoolManager.UpdatePage (key idx id) (Some pg)) P Q0 ->
  (forall P', Q0 (Ok tt) P' -> triple k (P', idx) Q) -> (forall e s, Q (Err e) s) ->
  triple (on_pool (Modify pg f) ;;; UpdatePage key id pg ;;; k) (P, idx) Q.
Proof.
  intros H Hk He. unfold UpdatePage, on_pool, self, triple, sbind in *. cbn [fst snd].
  destruct (Modify pg f P) as [[[]|e|] P1]; cbn [fst snd] in *; [|by split; [|apply He]|by destruct H].
  destruct (HeapBufferPoolManager.UpdatePage _ _ P1) as [[[]|e|] P2]; cbn [fst snd] in *;
    [by apply Hk, H|by split; [|apply He]|by destruct H].
Qed.

End clients.

Section files.
Context `{FT : !FileStat D, FL : !FileStatLaws D}.

Lemma stat_spec E A P path :
  store_but E A P ->
  triple (on_disk (os_stat path)) P (fun r P' => store_but E A P' /\
    (forall p, file_size (disk P') p = file_size (disk P) p) /\ forall s, r = Ok s -> s = file_size (disk P) path).
Proof.
  intros Hst. destruct (os_stat_law (disk P) path) as (r & d' & Eo & Hz & Hs & Hr). unfold on_disk, triple. rewrite Eo.
  cbn [fst snd]. pose proof (PageStore.store_disk _ _ _ _ d' Hst Hs (stat_healthy _ _ _ _ Eo)). destruct Hr as [->|[e ->]]; split_and!; try done. by intros s [= <-].
Qed.

Lemma mkdir_spec E A P path :
  store_but E A P ->
  triple (on_disk (os_mkdir_all path)) P (fun r P' => store_but E A P' /\
    forall p, file_size (disk P') p = file_size (disk P) p).
Proof.
  intros Hst. destruct (os_mkdir_law (disk P) path) as (r & d' & Eo & Hz & Hs & Hr). unfold on_disk, triple. rewrite Eo.
  cbn [fst snd]. pose proof (PageStore.store_disk _ _ _ _ d' Hst Hs (mkdir_healthy _ _ _ _ Eo)). by destruct Hr as [->|[e ->]]; split_and!.
Qed.
End files.
End store.
End IndexPage.

(** A pool over an empty disk, on which the indexes are run. *)
Module IndexSample.
Import HeapBufferPoolManager.

Definition a_pool : Pool LRUReplacer.t FS :=
  {| poolSize := 100; replacer := LRUReplacer.New; HeapBufferPoolManager.root := "data"; pageTable := ∅; slots := ∅;
     mem := ∅; next := 0; disk := {| files := ∅; faults := [] |} |}.
Definition no_pages : PageKey -> option (list byte) := BufferPoolSpec.contents "data" a_pool.

Lemma a_store : PageStore.store_but "data" BufferPoolSpec.no_key no_pages a_pool.
Proof.
  assert (Hnew : NewHeapBufferPoolManager 100 {| files := ∅; faults := [] |} LRUReplacer.New "data" = Ok a_pool) by reflexivity.
  destruct (BufferPoolSpec.new_pool_ok (R:=LRUReplacer.t) (D:=FS) "data" ltac:(discriminate) _ _ _ _ Hnew)
    as (OK & Hps & Hpos & Ht); [apply LRU.lru_ok_New|reflexivity|].
  assert (Hres : forall k, BufferPoolSpec.resident a_pool k = None).
  { intros k. unfold BufferPoolSpec.resident. rewrite Ht, lookup_empty. reflexivity. }
  split; [split; [exact OK|split; [reflexivity|]]|].
  - intros k Hg _. split; [|reflexivity]. intros s b. rewrite Hres. discriminate.
  - split; [intros k1 k2 s1 b1 s2 b2 _ _; rewrite Hres; discriminate|intros []].
Qed.

Lemma triple_pair {S T B} (m : ST (S * T) B) s Q : triple m (s.1, s.2) Q -> triple m s Q.
Proof. by destruct s. Qed.
End IndexSample.
