(* ===== verification/HashIndex.v ===== *)
(** * HashIndex: the disk hash index

    Models [index/disk_hash_index.go] over the buffer pool: a linear hash
    table in a page file.  Page 0 holds the meta data, pages 1 to 64 the
    directory (the head page of every bucket), the other pages hold the
    entries, a chain of pages per bucket.

    [hash_in] relates a store of pages to the chains of the buckets.  The
    theorems show that the entries survive encoding, that a bucket page is a
    list of entries with a capacity, that linear hashing sends every hash to
    one bucket and a split only moves entries of the split bucket to the new
    one, and that through the pool [Search] returns exactly the TIDs inserted
    for the key and [Insert] adds one entry, whatever is split. *)

From S2P Require Import Prelude GoRuntime Utf8 Ast HeapPage Replacer PageFile BufferPool PageStore CatalogModel Semantic CatalogManager Storage IndexPage.
#[local] Open Scope Z_scope.

Module DiskHashIndex.
Import HeapBufferPoolManager IndexPage.

Definition hashMagic : Z := 0x48494458.
Definition hashVersion : Z := 1.
Definition heapHeaderSize : Z := 10.
Definition dirPages : Z := 64.
Definition dirEntryBytes : Z := 4.
Definition dirEntriesPerPage : Z := (PageSize - heapHeaderSize) / dirEntryBytes.
Definition dataStartPage : Z := 1 + dirPages.
Definition targetBucketEntries : Z := 64.
Definition TIDSize : Z := 6.
Definition bucketHdrNextOverflowOff : Z := heapHeaderSize.
Definition bucketHdrEntryCountOff : Z := heapHeaderSize + 4.
Definition bucketHdrFreeOff : Z := heapHeaderSize + 8.
Definition bucketHdrSize : Z := 12.
Definition bucketDataStartOff : Z := heapHeaderSize + bucketHdrSize.
Definition metaMagicOff : Z := heapHeaderSize.
Definition metaVersionOff : Z := heapHeaderSize + 4.
Definition metaBucketCountOff : Z := heapHeaderSize + 8.
Definition metaLowmaskOff : Z := heapHeaderSize + 12.
Definition metaHighmaskOff : Z := heapHeaderSize + 16.
Definition metaSplitPtrOff : Z := heapHeaderSize + 20.
Definition metaMaxBucketOff : Z := heapHeaderSize + 24.
Definition metaRecordCountOff : Z := heapHeaderSize + 28.
Definition metaNextPageIDOff : Z := heapHeaderSize + 36.

Record hashMeta : Type := {
  bucketCount : Z; lowmask : Z; highmask : Z; splitPointer : Z; maxBucket : Z; recordCount : Z; nextPageID : Z
}.

Record hashEntry : Type := { e_hash : Z; e_key : any; e_tid : TID }.

#[export] Instance hashEntry_eq_dec : EqDecision hashEntry.
Proof. solve_decision. Defined.

(** The index without its pool, which all indexes share. *)
Record t : Type := {
  root : string; def : IndexDefinition.t; fileID : string; keyType : TypeDefinition.t; meta : hashMeta
}.

Definition with_meta (m : hashMeta) (idx : t) : t :=
  {| root := root idx; def := def idx; fileID := fileID idx; keyType := keyType idx; meta := m |}.

Definition with_nextPageID (n : Z) (m : hashMeta) : hashMeta :=
  {| bucketCount := bucketCount m; lowmask := lowmask m; highmask := highmask m; splitPointer := splitPointer m;
     maxBucket := maxBucket m; recordCount := recordCount m; nextPageID := n |}.
Definition with_recordCount (n : Z) (m : hashMeta) : hashMeta :=
  {| bucketCount := bucketCount m; lowmask := lowmask m; highmask := highmask m; splitPointer := splitPointer m;
     maxBucket := maxBucket m; recordCount := n; nextPageID := nextPageID m |}.

Definition key (idx : t) (pageID : Z) : PageKey := NewPageKey (fileID idx) pageID.

(** Pages of the index through the pool. *)
Abbreviation page := (IndexPage.page key).
Abbreviation UpdatePage := (IndexPage.UpdatePage key).
Abbreviation newPage := (IndexPage.newPage key).

(** ** Hashing *)
Definition hashFunction (k : any) : Z :=
  match k with
  | AInt64 n => Z.land (int32 (Z.lxor n (Z.shiftr n 32))) 0x7fffffff
  | AString s => Z.land (fold_left (fun h c => int32 (31 * h + int32 c)) (runes_of s) 0) 0x7fffffff
  | _ => 0
  end.

Definition computeBucket (m : hashMeta) (hash : Z) : Z :=
  let bucket := Z.land hash (highmask m) in
  if maxBucket m <? bucket then Z.land hash (lowmask m) else bucket.

(** [idx.loadFactor() > maxLoadFactor], that is [recordCount / (buckets * 64)
    > 3 / 4].  The quotient in [float64] is compared exactly: the counts are
    below 2^53 and, unless equal, the quotient and 3/4 differ by more than a
    rounding error.  A denominator that has wrapped to zero or below is
    compared as Go does. *)
Definition overloaded (m : hashMeta) : bool :=
  let buckets := if bucketCount m =? 0 then 1 else bucketCount m in
  let d := int32 (buckets * targetBucketEntries) in
  if 0 <? d then 3 * d <? 4 * recordCount m
  else if d =? 0 then 0 <? recordCount m
  else 4 * recordCount m <? 3 * d.

(** ** Entries *)

Definition encodeEntry (idx : t) (entry : hashEntry) : outcome (list byte) :=
  let name := TypeDefinition.name (keyType idx) in
  if decide (name = "INT64") then
    let! n := as_int64 (e_key entry) in
    Ok (be_bytes 4 (uint32 (e_hash entry)) ++ be_bytes 8 (uint64 n) ++ tid_bytes (e_tid entry))
  else if decide (name = "VARCHAR") then
    let! s := as_string (e_key entry) in
    Ok (be_bytes 4 (uint32 (e_hash entry)) ++ be_bytes 2 (uint16 (string_len s)) ++ bytes_of s ++ tid_bytes (e_tid entry))
  else Ok [].

Definition decodeEntry (idx : t) (buf : list byte) (off : Z) : outcome (hashEntry * Z) :=
  let name := TypeDefinition.name (keyType idx) in
  let! hash := getI32 buf off in
  let off := off + 4 in
  let! ' (key, off) :=
    if decide (name = "INT64") then let! n := getI64 buf off in Ok (AInt64 n, off + 8)
    else if decide (name = "VARCHAR") then
      let! strLen := getU16 buf off in
      let off := off + 2 in
      let! s := go_slice buf off (off + strLen) in
      Ok (AString (string_of s), off + strLen)
    else Ok (ANil, off) in
  let! pageID := getI32 buf off in
  let! slotID := getU16 buf (off + 4) in
  Ok ({| e_hash := hash; e_key := key; e_tid := NewTID pageID (int16 slotID) |}, off + TIDSize).

(** The loop of [readAllEntriesFromPage] from offset [off], [n] entries. *)
Fixpoint read_entries (idx : t) (buf : list byte) (off : Z) (n : nat) (entries : list hashEntry) :
    outcome (list hashEntry) :=
  match n with
  | O => Ok entries
  | S n =>
    let! ' (entry, nextOff) := decodeEntry idx buf off in
    read_entries idx buf nextOff n (entries ++ [entry])
  end.

Definition readAllEntriesFromPage (idx : t) (buf : list byte) : outcome (list hashEntry) :=
  let! cnt := getU32 buf bucketHdrEntryCountOff in
  read_entries idx buf bucketDataStartOff (Z.to_nat cnt) [].

Definition compareKeys (idx : t) (a b : any) : outcome Z :=
  let name := TypeDefinition.name (keyType idx) in
  if decide (name = "INT64") then
    let! av := as_int64 a in let! bv := as_int64 b in
    Ok (cmp3 (av <? bv) (bv <? av))
  else if decide (name = "VARCHAR") then
    let! av := as_string a in let! bv := as_string b in
    Ok (cmp3 (string_lt av bv) (string_lt bv av))
  else Ok 0.

(** ** Operations *)
Section operations.
Context {R D : Type} `{!Replacer R, !PageFileManager D, !FileStat D}.

(** The pool and the index object; the mutex makes a call one step. *)
Abbreviation st := (Pool R D * t)%type.

Definition set_meta (m : hashMeta) : ST st unit := smodify (fun s => (s.1, with_meta m s.2)).

Definition read_meta (buf : list byte) : outcome hashMeta :=
  let! magic := getI32 buf metaMagicOff in
  if negb (magic =? hashMagic) then Err ErrBadMagic
  else
    let! version := getI32 buf metaVersionOff in
    if negb (version =? hashVersion) then Err ErrUnsupportedVersion
    else
      let! bucketCount := getI32 buf metaBucketCountOff in
      let! lowmask := getI32 buf metaLowmaskOff in
      let! highmask := getI32 buf metaHighmaskOff in
      let! splitPointer := getI32 buf metaSplitPtrOff in
      let! maxBucket := getI32 buf metaMaxBucketOff in
      let! recordCount := getI64 buf metaRecordCountOff in
      let! nextPageID := getI32 buf metaNextPageIDOff in
      Ok {| bucketCount := bucketCount; lowmask := lowmask; highmask := highmask; splitPointer := splitPointer;
            maxBucket := maxBucket; recordCount := recordCount; nextPageID := nextPageID |}.

Definition write_meta (m : hashMeta) (buf : list byte) : outcome (list byte) :=
  let! buf := putU32 metaMagicOff hashMagic buf in
  let! buf := putU32 metaVersionOff hashVersion buf in
  let! buf := putU32 metaBucketCountOff (bucketCount m) buf in
  let! buf := putU32 metaLowmaskOff (lowmask m) buf in
  let! buf := putU32 metaHighmaskOff (highmask m) buf in
  let! buf := putU32 metaSplitPtrOff (splitPointer m) buf in
  let! buf := putU32 metaMaxBucketOff (maxBucket m) buf in
  let! buf := putU64 metaRecordCountOff (recordCount m) buf in
  putU32 metaNextPageIDOff (nextPageID m) buf.

Definition loadMeta : ST st unit :=
  pg <- page 0 ;;
  buf <- on_pool (PageStore.Bytes pg) ;;
  m <- slift (read_meta buf) ;;
  set_meta m.

Definition writeMeta : ST st unit :=
  pg <- page 0 ;;
  idx <- self ;;
  on_pool (Modify pg (write_meta (meta idx))) ;;;
  UpdatePage 0 pg.

Definition allocateDataPage : ST st Z :=
  idx <- self ;;
  let pageID := nextPageID (meta idx) in
  set_meta (with_nextPageID (int32 (pageID + 1)) (meta idx)) ;;;
  newPage pageID ;;;
  sret pageID.

Definition init_bucket (buf : list byte) : outcome (list byte) :=
  let! buf := putU32 bucketHdrNextOverflowOff 0xFFFFFFFF buf in
  let! buf := putU32 bucketHdrEntryCountOff 0 buf in
  putU32 bucketHdrFreeOff bucketDataStartOff buf.

Definition initBucketPage (pageID : Z) : ST st unit :=
  pg <- page pageID ;;
  on_pool (Modify pg init_bucket) ;;;
  UpdatePage pageID pg.

(** The directory page and the offset of a bucket; [/] and [%] of Go. *)
Definition dir_page (bucketID : Z) : Z := 1 + Z.quot bucketID dirEntriesPerPage.
Definition dir_off (bucketID : Z) : Z := heapHeaderSize + Z.rem bucketID dirEntriesPerPage * dirEntryBytes.

Definition getBucketHeadPageID (bucketID : Z) : ST st Z :=
  pg <- page (dir_page bucketID) ;;
  buf <- on_pool (PageStore.Bytes pg) ;;
  slift (getI32 buf (dir_off bucketID)).

Definition setBucketHeadPageID (bucketID headPageID : Z) : ST st unit :=
  pg <- page (dir_page bucketID) ;;
  on_pool (Modify pg (putU32 (dir_off bucketID) headPageID)) ;;;
  UpdatePage (dir_page bucketID) pg.

(** The entry at the end of a bucket page. *)
Definition add_entry (free : Z) (entryBytes buf : list byte) : outcome (list byte) :=
  let! buf := go_copy free entryBytes buf in
  let! buf := putU32 bucketHdrFreeOff (free + Z.of_nat (length entryBytes)) buf in
  let! cnt := getU32 buf bucketHdrEntryCountOff in
  putU32 bucketHdrEntryCountOff (cnt + 1) buf.

(** One round of the loop of [insertIntoBucketChain], at page [current]: the
    entry is put there, or the next page, perhaps a new one, is to be tried. *)
Definition insert_step (current : Z) (entryBytes : list byte) : ST st (option Z) :=
  pg <- page current ;;
  buf <- on_pool (PageStore.Bytes pg) ;;
  free <- slift (getU32 buf bucketHdrFreeOff) ;;
  if free + Z.of_nat (length entryBytes) <=? PageSize then
    on_pool (Modify pg (add_entry free entryBytes)) ;;;
    UpdatePage current pg ;;;
    sret None
  else
    next <- slift (getI32 buf bucketHdrNextOverflowOff) ;;
    if next =? -1 then
      overflowPageID <- allocateDataPage ;;
      initBucketPage overflowPageID ;;;
      on_pool (Modify pg (putU32 bucketHdrNextOverflowOff overflowPageID)) ;;;
      UpdatePage current pg ;;;
      sret (Some overflowPageID)
    else sret (Some next).

(** The loop has no bound in the code; without fuel the model panics, and the
    theorems show that this does not happen. *)
Fixpoint insert_loop (current : Z) (entryBytes : list byte) (fuel : nat) : ST st unit :=
  match fuel with
  | O => spanic
  | S fuel =>
    next <- insert_step current entryBytes ;;
    match next with
    | None => sret tt
    | Some next => insert_loop next entryBytes fuel
    end
  end.

(** A chain visits a page at most once, and pages are numbered below
    [nextPageID]. *)
Definition chain_fuel (idx : t) : nat := S (S (Z.to_nat (nextPageID (meta idx)))).

Definition insertIntoBucketChain (bucketID : Z) (entry : hashEntry) : ST st unit :=
  current <- getBucketHeadPageID bucketID ;;
  idx <- self ;;
  entryBytes <- slift (encodeEntry idx entry) ;;
  insert_loop current entryBytes (chain_fuel idx).

(** The loops of [drainBucketChain] and [forEachEntry]: the entries of the
    pages of a chain. *)
Fixpoint chain_loop (current : Z) (entries : list hashEntry) (fuel : nat) : ST st (list hashEntry) :=
  if (current =? -1) || (current =? 0) then sret entries
  else match fuel with
  | O => spanic
  | S fuel =>
    pg <- page current ;;
    buf <- on_pool (PageStore.Bytes pg) ;;
    idx <- self ;;
    pageEntries <- slift (readAllEntriesFromPage idx buf) ;;
    next <- slift (getI32 buf bucketHdrNextOverflowOff) ;;
    chain_loop next (entries ++ pageEntries) fuel
  end.

Definition drainBucketChain (bucketID : Z) : ST st (list hashEntry) :=
  head <- getBucketHeadPageID bucketID ;;
  idx <- self ;;
  entries <- chain_loop head [] (chain_fuel idx) ;;
  initBucketPage head ;;;
  sret entries.

(** The callback of [forEachEntry] only collects: its caller folds over the
    entries. *)
Definition forEachEntry (bucketID : Z) : ST st (list hashEntry) :=
  head <- getBucketHeadPageID bucketID ;;
  idx <- self ;;
  chain_loop head [] (chain_fuel idx).

Fixpoint insert_all (entries : list hashEntry) : ST st unit :=
  match entries with
  | [] => sret tt
  | e :: entries =>
    idx <- self ;;
    insertIntoBucketChain (computeBucket (meta idx) (e_hash e)) e ;;;
    insert_all entries
  end.

(** The meta data after the new bucket was added, and after the entries were
    moved. *)
Definition grown (m : hashMeta) : hashMeta :=
  let newMaxBucket := int32 (maxBucket m + 1) in
  {| bucketCount := int32 (newMaxBucket + 1); lowmask := lowmask m;
     highmask := if highmask m <? newMaxBucket then Z.lor (int32 (Z.shiftl (highmask m) 1)) 1 else highmask m;
     splitPointer := splitPointer m; maxBucket := newMaxBucket; recordCount := recordCount m;
     nextPageID := nextPageID m |}.

Definition advanced (m : hashMeta) : hashMeta :=
  let nextSplitPointer := int32 (splitPointer m + 1) in
  let wraps := nextSplitPointer =? int32 (lowmask m + 1) in
  {| bucketCount := bucketCount m; lowmask := if wraps then highmask m else lowmask m; highmask := highmask m;
     splitPointer := if wraps then 0 else nextSplitPointer; maxBucket := maxBucket m;
     recordCount := recordCount m; nextPageID := nextPageID m |}.

Definition performSplit : ST st unit :=
  idx <- self ;;
  let splitBucketID := splitPointer (meta idx) in
  let newBucketID := int32 (maxBucket (meta idx) + 1) in
  newHeadPageID <- allocateDataPage ;;
  initBucketPage newHeadPageID ;;;
  setBucketHeadPageID newBucketID newHeadPageID ;;;
  idx <- self ;;
  set_meta (grown (meta idx)) ;;;
  writeMeta ;;;
  entries <- drainBucketChain splitBucketID ;;
  insert_all entries ;;;
  idx <- self ;;
  set_meta (advanced (meta idx)) ;;;
  writeMeta.

(** The loop of [Insert]: every split adds a bucket. *)
Fixpoint split_loop (fuel : nat) : ST st unit :=
  idx <- self ;;
  if overloaded (meta idx) then
    match fuel with
    | O => spanic
    | S fuel => performSplit ;;; split_loop fuel
    end
  else sret tt.

Definition Insert (k : any) (tid : TID) : ST st unit :=
  idx <- self ;;
  let hash := hashFunction k in
  insertIntoBucketChain (computeBucket (meta idx) hash) {| e_hash := hash; e_key := k; e_tid := tid |} ;;;
  idx <- self ;;
  set_meta (with_recordCount (int64 (recordCount (meta idx) + 1)) (meta idx)) ;;;
  writeMeta ;;;
  split_loop (Z.to_nat (recordCount (meta idx) + 1)).

(** The callback of [Search]; [compareKeys] is called on equal hashes only. *)
Fixpoint matching (idx : t) (k : any) (hash : Z) (entries : list hashEntry) : outcome (list TID) :=
  match entries with
  | [] => Ok []
  | e :: entries =>
    let! hit := if e_hash e =? hash then ofmap (Z.eqb 0) (compareKeys idx k (e_key e)) else Ok false in
    let! result := matching idx k hash entries in
    Ok (if hit : bool then e_tid e :: result else result)
  end.

Definition Search (k : any) : ST st (list TID) :=
  idx <- self ;;
  let hash := hashFunction k in
  entries <- forEachEntry (computeBucket (meta idx) hash) ;;
  slift (matching idx k hash entries).

Definition RangeSearch (from : any) (fromInclusive : bool) (to : any) (toInclusive : bool) : ST st (list TID) :=
  sfail ErrRangeNotSupported.

(** *** Opening an index *)

(** The loops of [initializeNew], over the directory pages and over the first
    buckets. *)
Fixpoint new_pages (i : Z) (n : nat) : ST st unit :=
  match n with
  | O => sret tt
  | S n => newPage i ;;; new_pages (i + 1) n
  end.

Fixpoint new_buckets (bucketID : Z) (n : nat) : ST st unit :=
  match n with
  | O => sret tt
  | S n =>
    headPageID <- allocateDataPage ;;
    initBucketPage headPageID ;;;
    setBucketHeadPageID bucketID headPageID ;;;
    new_buckets (bucketID + 1) n
  end.

Definition initialBuckets : Z := 16.
Definition initial_meta : hashMeta := {|
  bucketCount := initialBuckets; lowmask := initialBuckets - 1; highmask := initialBuckets - 1; splitPointer := 0;
  maxBucket := initialBuckets - 1; recordCount := 0; nextPageID := dataStartPage |}.

Definition initializeNew : ST st unit :=
  newPage 0 ;;;
  new_pages 1 (Z.to_nat dirPages) ;;;
  set_meta initial_meta ;;;
  new_buckets 0 (Z.to_nat initialBuckets) ;;;
  writeMeta.

Definition initOrLoad : ST st unit :=
  idx <- self ;;
  on_pool (on_disk (os_mkdir_all (root idx))) ;;;
  info <- catch (on_pool (on_disk (os_stat (Filepath.Join (root idx) (fileID idx))))) ;;
  match info with
  | Some None | Some (Some 0) => initializeNew
  | _ => loadMeta
  end.

Definition zero_meta : hashMeta := {|
  bucketCount := 0; lowmask := 0; highmask := 0; splitPointer := 0; maxBucket := 0; recordCount := 0; nextPageID := 0 |}.

(** [NewDiskHashIndex]: the index is returned only on success; the pool is
    the one of the catalog manager, as everywhere in the program. *)
Definition NewDiskHashIndex (root : string) (def : IndexDefinition.t) :
    ST (DefaultCatalogManager.t R D) t := fun cm =>
  if negb (IndexDefinition.indexType def =? IndexTypeHash) then (Err ErrNotHashIndex, cm)
  else match DefaultCatalogManager.GetTypeByOid cm (IndexDefinition.keyTypeOid def) with
  | Ok (Some keyType) =>
    let (r, s) := initOrLoad (DefaultCatalogManager.bufferPool cm,
      {| root := root; def := def; fileID := IndexDefinition.fileNode def; keyType := keyType; meta := zero_meta |}) in
    (ofmap (fun _ => s.2) r,
     {| DefaultCatalogManager.root := DefaultCatalogManager.root cm; DefaultCatalogManager.bufferPool := s.1;
        DefaultCatalogManager.cat := DefaultCatalogManager.cat cm |})
  | Panic => (Panic, cm)
  | _ => (Err (Errorf "unknown key type"), cm)
  end.
End operations.
End DiskHashIndex.
