(* ===== verification/HashIndexProofs.v ===== *)
(** * HashIndexProofs: the hash index is a multimap

    The proofs about [HashIndex]: linear hashing ([linear], [address]), the
    encoding of entries and of bucket pages ([bucket_page]), chains of pages
    ([chain_in]) and the whole index in the pool ([hash_in]). *)

From S2P Require Import Prelude GoRuntime Utf8 Ast HeapPage Replacer PageFile BufferPool PageStore CatalogModel Semantic CatalogManager Storage IndexPage HashIndex.
#[local] Open Scope Z_scope.

Module HashSpec.
Import HeapBufferPoolManager IndexPage DiskHashIndex.

(** ** Linear hashing

    With [maxB + 1] buckets and [2^k <= maxB + 1 <= 2^(k+1)], the bucket of a
    hash is its remainder by [2^(k+1)], or by [2^k] when there is no such
    bucket yet. *)
Definition address (k maxB h : Z) : Z :=
  let b := h mod 2 ^ (k + 1) in if maxB <? b then h mod 2 ^ k else b.

(** The meta data of a table with [maxBucket + 1] buckets. *)
Record linear (k : Z) (m : hashMeta) : Prop := {
  lin_k : 0 <= k < 28;
  lin_low : lowmask m = 2 ^ k - 1;
  lin_split : 0 <= splitPointer m < 2 ^ k;
  lin_max : maxBucket m = 2 ^ k - 1 + splitPointer m;
  lin_high : highmask m = (if decide (splitPointer m = 0) then 2 ^ k - 1 else 2 ^ (k + 1) - 1);
  lin_count : bucketCount m = maxBucket m + 1
}.

Lemma pow_succ k : 0 <= k -> 2 ^ (k + 1) = 2 * 2 ^ k.
Proof. intros. by rewrite Z.pow_add_r, Z.mul_comm by lia. Qed.

Lemma pow_bound k : 0 <= k < 28 -> 0 < 2 ^ k /\ 2 ^ k <= 2 ^ 27.
Proof. intros. split; [apply Z.pow_pos_nonneg; lia|apply Z.pow_le_mono_r; lia]. Qed.

Lemma land_mask h k : 0 <= k -> Z.land h (2 ^ k - 1) = h mod 2 ^ k.
Proof. intros. rewrite <- Z.land_ones by done. by rewrite Z.ones_equiv, Z.sub_1_r. Qed.

(** The remainders by [2^k] and [2^(k+1)] agree, or differ by [2^k]. *)
Lemma mod_twice h k : 0 <= k ->
  h mod 2 ^ (k + 1) = h mod 2 ^ k \/ h mod 2 ^ (k + 1) = h mod 2 ^ k + 2 ^ k.
Proof.
  intros Hk. assert (0 < 2 ^ k) by (apply Z.pow_pos_nonneg; lia). rewrite pow_succ, Z.mul_comm by done.
  rewrite Z.rem_mul_r by lia. destruct (Z.mod_pos_bound (h / 2 ^ k) 2); [lia|].
  assert (h / 2 ^ k mod 2 = 0 \/ h / 2 ^ k mod 2 = 1) as [-> | ->] by lia; [left|right]; lia.
Qed.

Lemma computeBucket_address k m h : linear k m -> computeBucket m h = address k (maxBucket m) h.
Proof.
  intros [Hk Hl Hs Hm Hh _]. unfold computeBucket, address. rewrite Hh, Hl. destruct (pow_bound k Hk).
  pose proof (Z.mod_pos_bound h (2 ^ k)). destruct (decide (splitPointer m = 0)) as [E|E].
  - rewrite !land_mask by lia. rewrite (proj2 (Z.ltb_ge _ _)) by lia.
    destruct (mod_twice h k) as [->| ->]; [lia| |]; destruct (Z.ltb_spec (maxBucket m) (h mod 2 ^ k + 2 ^ k));
      destruct (Z.ltb_spec (maxBucket m) (h mod 2 ^ k)); lia.
  - by rewrite !land_mask by lia.
Qed.

Lemma address_range k maxB h : 0 <= k -> 2 ^ k - 1 <= maxB -> 0 <= address k maxB h <= maxB.
Proof.
  intros Hk Hm. unfold address. pose proof (Z.mod_pos_bound h (2 ^ k)).
  assert (0 < 2 ^ (k + 1)) by (apply Z.pow_pos_nonneg; lia). assert (0 < 2 ^ k) by (apply Z.pow_pos_nonneg; lia).
  pose proof (Z.mod_pos_bound h (2 ^ (k + 1))). destruct (Z.ltb_spec maxB (h mod 2 ^ (k + 1))); lia.
Qed.

(** One more bucket: only hashes of the split bucket are sent elsewhere, and
    they go to the new one. *)
Lemma address_grow k s h :
  0 <= k -> 0 <= s < 2 ^ k ->
  address k (2 ^ k + s) h = address k (2 ^ k - 1 + s) h \/
  (address k (2 ^ k - 1 + s) h = s /\ address k (2 ^ k + s) h = 2 ^ k + s).
Proof.
  intros Hk Hs. unfold address. destruct (Z.ltb_spec (2 ^ k + s) (h mod 2 ^ (k + 1)));
    destruct (Z.ltb_spec (2 ^ k - 1 + s) (h mod 2 ^ (k + 1))); try lia.
  right. pose proof (Z.mod_pos_bound h (2 ^ k)). destruct (mod_twice h k); lia.
Qed.

(** When all buckets below [2^k] have been split, one more bit is in use. *)
Lemma address_next k h : 0 <= k -> address (k + 1) (2 ^ (k + 1) - 1) h = address k (2 ^ (k + 1) - 1) h.
Proof.
  intros Hk. unfold address. assert (0 < 2 ^ (k + 1)) by (apply Z.pow_pos_nonneg; lia).
  pose proof (Z.mod_pos_bound h (2 ^ (k + 1))). rewrite (proj2 (Z.ltb_ge _ (h mod 2 ^ (k + 1)))) by lia.
  destruct (mod_twice h (k + 1)) as [->| ->]; [lia| |]; rewrite ?(pow_succ (k + 1)) by lia;
    match goal with |- context [?a <? ?b] => destruct (Z.ltb_spec a b) end; lia.
Qed.

(** [(newHighmask << 1) | 1]. *)
Lemma double_mask k : 0 <= k < 28 -> Z.lor (int32 (Z.shiftl (2 ^ k - 1) 1)) 1 = 2 ^ (k + 1) - 1.
Proof.
  intros Hk. destruct (pow_bound k Hk). rewrite Z.shiftl_mul_pow2 by lia. rewrite int32_fits by lia.
  change (2 ^ 1) with 2. rewrite <- Z.add_nocarry_lor; [rewrite pow_succ; lia|].
  change 1 with (2 ^ 1 - 1) at 2. rewrite land_mask by lia. change (2 ^ 1) with 2. by rewrite Z.mod_mul.
Qed.

Section split.
Context (k : Z) (m : hashMeta) (HL : linear k m).

Let bounds : 0 < 2 ^ k /\ 2 ^ k <= 2 ^ 27.
Proof. apply pow_bound, HL. Qed.
Let facts := (lin_k _ _ HL, lin_low _ _ HL, lin_split _ _ HL, lin_max _ _ HL, lin_count _ _ HL).

Lemma linear_max : 0 <= maxBucket m < 2 ^ 29.
Proof using HL. destruct facts as [[[[? ?] ?] ?] ?]. lia. Qed.

Lemma grown_max : maxBucket (grown m) = maxBucket m + 1.
Proof using HL. pose proof linear_max. apply int32_fits. lia. Qed.

Lemma grown_high : highmask (grown m) = 2 ^ (k + 1) - 1.
Proof using HL.
  destruct facts as [[[[Hk Hl] Hs] Hm] _]. pose proof (pow_succ k ltac:(lia)). pose proof linear_max.
  unfold grown. cbn [highmask]. rewrite int32_fits, (lin_high _ _ HL) by lia. case_decide.
  - rewrite (proj2 (Z.ltb_lt _ _)) by lia. by apply double_mask.
  - by rewrite (proj2 (Z.ltb_ge _ _)) by lia.
Qed.

(** The buckets while a split is under way ... *)
Lemma grown_address h : computeBucket (grown m) h = address k (maxBucket m + 1) h.
Proof using HL.
  destruct facts as [[[[Hk Hl] Hs] Hm] _]. unfold computeBucket, address.
  rewrite grown_max, grown_high. change (lowmask (grown m)) with (lowmask m).
  by rewrite Hl, !land_mask by lia.
Qed.

(** ... and after it. *)
Lemma advanced_linear : k < 27 -> exists k', linear k' (advanced (grown m)).
Proof using HL.
  intros Hk27. destruct facts as [[[[Hk Hl] Hs] Hm] _]. pose proof (pow_succ k ltac:(lia)) as Hp. pose proof linear_max.
  assert (Hw : (int32 (splitPointer (grown m) + 1) =? int32 (lowmask (grown m) + 1)) = bool_decide (splitPointer m + 1 = 2 ^ k)).
  { change (splitPointer (grown m)) with (splitPointer m). change (lowmask (grown m)) with (lowmask m).
    rewrite !int32_fits by lia. case_bool_decide; [apply Z.eqb_eq|apply Z.eqb_neq]; lia. }
  assert (Hc : bucketCount (grown m) = maxBucket m + 2).
  { unfold grown. cbn [bucketCount]. rewrite (int32_fits (maxBucket m + 1)) by lia. rewrite int32_fits; lia. }
  unfold advanced. rewrite Hw. case_bool_decide as He.
  - exists (k + 1). split; cbn [lowmask highmask splitPointer maxBucket bucketCount]; rewrite ?grown_max, ?grown_high; try lia.
    rewrite decide_True by done. lia.
  - exists k. assert (int32 (splitPointer (grown m) + 1) = splitPointer m + 1) as E by (apply int32_fits; cbn; lia).
    split; cbn [lowmask highmask splitPointer maxBucket bucketCount]; rewrite ?grown_max, ?grown_high, ?E; try lia; [done|].
    rewrite decide_False by lia. done.
Qed.

Lemma advanced_address h : computeBucket (advanced (grown m)) h = address k (maxBucket m + 1) h.
Proof using HL.
  destruct facts as [[[[Hk Hl] Hs] Hm] _]. rewrite <- grown_address. unfold computeBucket at 1.
  change (highmask (advanced (grown m))) with (highmask (grown m)).
  change (maxBucket (advanced (grown m))) with (maxBucket (grown m)). unfold computeBucket.
  destruct (Z.ltb_spec (maxBucket (grown m)) (Z.land h (highmask (grown m)))) as [Hlt|]; [|done].
  unfold advanced. cbn [lowmask]. destruct (Z.eqb_spec (int32 (splitPointer (grown m) + 1)) (int32 (lowmask (grown m) + 1))) as [E|];
    [|done]. exfalso. pose proof linear_max. rewrite !int32_fits in E by (cbn; lia). cbn in E.
  rewrite grown_high, grown_max, land_mask in Hlt by lia. pose proof (pow_succ k ltac:(lia)).
  pose proof (Z.mod_pos_bound h (2 ^ (k + 1))). lia.
Qed.
End split.

(** ** Entries as bytes *)

(** The keys of an index over a column of the type [name]. *)
Definition key_ok (name : string) (k : any) : Prop :=
  match k with
  | AInt64 n => name = "INT64"%string /\ in_sint 64 n
  | AString s => name = "VARCHAR"%string /\ string_len s <= 8158
  | _ => False
  end.

Lemma hash_key_kind tn k : key_ok tn k -> key_kind tn k.
Proof. destruct k; cbn; tauto. Qed.

(** The type name that decides how keys are encoded. *)
Definition type_name (idx : t) : string := TypeDefinition.name (keyType idx).

Record entry_ok (tn : string) (e : hashEntry) : Prop := {
  eo_hash : e_hash e = hashFunction (e_key e);
  eo_key : key_ok tn (e_key e);
  eo_tid : tid_ok (e_tid e)
}.

Lemma hash_range k : 0 <= hashFunction k < 2 ^ 31.
Proof.
  assert (H : forall z, 0 <= Z.land z 0x7fffffff < 2 ^ 31).
  { intros z. change 0x7fffffff with (2 ^ 31 - 1). rewrite land_mask by lia. apply Z.mod_pos_bound. lia. }
  destruct k; cbn [hashFunction]; auto; lia.
Qed.

(** The bytes of an entry. *)
Definition entry_bytes (e : hashEntry) : list byte :=
  be_bytes 4 (uint32 (e_hash e)) ++ key_bytes (e_key e) ++ tid_bytes (e_tid e).

Lemma encode_entry idx e : entry_ok (type_name idx) e -> encodeEntry idx e = Ok (entry_bytes e).
Proof.
  intros [_ Hk _]. unfold type_name in Hk. unfold encodeEntry, entry_bytes. destruct (e_key e) as [|n|s|b]; try done.
  - destruct Hk as [-> _]. done.
  - destruct Hk as [-> _]. rewrite decide_False, decide_True by done. cbn [as_string obind key_bytes]. by rewrite <- app_assoc.
Qed.

Lemma entry_size tn e : entry_ok tn e -> 12 <= Z.of_nat (length (entry_bytes e)) <= 8170.
Proof.
  intros [_ Hk _]. unfold entry_bytes. rewrite !length_app, length_be_bytes, length_tid.
  destruct (e_key e) as [|n|s|b]; try done; cbn [key_bytes].
  rewrite length_app, ?length_be_bytes. destruct Hk as [_ Hk]. unfold string_len in Hk. lia.
Qed.

(** An entry reads back from wherever its bytes stand. *)
Lemma decode_entry idx e b pre post off :
  entry_ok (type_name idx) e -> b = pre ++ entry_bytes e ++ post -> off = Z.of_nat (length pre) ->
  decodeEntry idx b off = Ok (e, off + Z.of_nat (length (entry_bytes e))).
Proof.
  intros [Hh Hk Ht] Hb Hoff. unfold type_name in Hk. assert (Hh32 : in_sint 32 (e_hash e)) by (rewrite Hh; pose proof (hash_range (e_key e)); unfold in_sint; lia).
  unfold entry_bytes in *. rewrite <- !app_assoc in Hb. unfold decodeEntry. rewrite (getI32_at b pre (e_hash e) _ off Hb Hoff Hh32).
  cbn [obind]. set (pre1 := pre ++ be_bytes 4 (uint32 (e_hash e))).
  assert (Hb1 : b = pre1 ++ key_bytes (e_key e) ++ tid_bytes (e_tid e) ++ post) by (unfold pre1; by rewrite <- app_assoc).
  assert (Ho1 : off + 4 = Z.of_nat (length pre1)) by (unfold pre1; len).
  assert (Htid : forall off', off' = off + 4 + Z.of_nat (length (key_bytes (e_key e))) ->
    (let! pageID := getI32 b off' in let! slotID := getU16 b (off' + 4) in
     Ok ({| e_hash := e_hash e; e_key := e_key e; e_tid := NewTID pageID (int16 slotID) |}, off' + TIDSize))
    = Ok (e, off + Z.of_nat (length (be_bytes 4 (uint32 (e_hash e)) ++ key_bytes (e_key e) ++ tid_bytes (e_tid e))))).
  { intros off' ->. destruct (tid_at b (pre1 ++ key_bytes (e_key e)) (e_tid e) post (off + 4 + Z.of_nat (length (key_bytes (e_key e))))) as [-> ->];
      [by rewrite <- app_assoc|len|done|]. cbn [obind]. destruct Ht as [_ Ht].
    rewrite sint_uint by lia. rewrite sint_id by done. rewrite !length_app, length_be_bytes, length_tid. unfold TIDSize.
    destruct e as [h k [p sl]]; cbn in *. do 2 f_equal. lia. }
  destruct (e_key e) as [|n|s|bb] eqn:Ek; try done; cbn [key_ok] in Hk.
  - destruct Hk as [-> Hn]. rewrite decide_True by done. rewrite (getI64_at b pre1 n _ _ Hb1 Ho1 Hn). cbn [obind].
    apply Htid. cbn [key_bytes]. by rewrite length_be_bytes.
  - destruct Hk as [-> Hl]. rewrite decide_False, decide_True by done. cbn [key_bytes] in Hb1. rewrite <- app_assoc in Hb1.
    rewrite (getU16_bytes b pre1 (string_len s) _ _ Hb1 Ho1). cbn [obind].
    assert (Hu : uint16 (string_len s) = string_len s) by (apply uint_id; unfold in_uint, string_len in *; lia).
    rewrite Hu. rewrite (go_slice_at b (pre1 ++ be_bytes 2 (uint16 (string_len s))) (bytes_of s) (tid_bytes (e_tid e) ++ post));
      [|by rewrite <- app_assoc|len|unfold string_len; lia].
    cbn [obind]. rewrite string_of_bytes_of. apply Htid. cbn [key_bytes]. rewrite length_app, length_be_bytes. unfold string_len. lia.
Qed.

(** The entries of an index survive their encoding: an entry with a key of
    the index's type is encoded, and decoded again from wherever the bytes
    stand in a buffer, up to the next entry. *)
Lemma entry_roundtrip idx e pre post :
  entry_ok (type_name idx) e -> exists bs, encodeEntry idx e = Ok bs /\
    decodeEntry idx (pre ++ bs ++ post) (Z.of_nat (length pre)) = Ok (e, Z.of_nat (length (pre ++ bs))).
Proof.
  intros He. exists (entry_bytes e). split; [by apply encode_entry|]. erewrite decode_entry by done. do 2 f_equal. len.
Qed.

(** ** Bucket pages *)
Definition entries_bytes (es : list hashEntry) : list byte := concat (entry_bytes <$> es).

(** The page holds these entries, and the number of the next page. *)
Record bucket_page (tn : string) (b : list byte) (next : Z) (es : list hashEntry) : Prop := {
  bp_valid : valid_buf b;
  bp_next : field 4 10 b = uint32 next /\ in_sint 32 next;
  bp_count : field 4 14 b = Z.of_nat (length es);
  bp_free : field 4 18 b = 22 + Z.of_nat (length (entries_bytes es));
  bp_fits : 22 + Z.of_nat (length (entries_bytes es)) <= 8192;
  bp_bytes : sub 22 (length (entries_bytes es)) b = entries_bytes es;
  bp_ok : Forall (entry_ok tn) es
}.

Lemma valid_length b : valid_buf b -> Z.of_nat (length b) = 8192.
Proof. by intros [H _]. Qed.

Lemma entries_app es es' : entries_bytes (es ++ es') = entries_bytes es ++ entries_bytes es'.
Proof. unfold entries_bytes. by rewrite fmap_app, concat_app. Qed.

Lemma entries_count tn es : Forall (entry_ok tn) es -> (12 * length es <= length (entries_bytes es))%nat.
Proof.
  induction 1 as [|e es He _ IH]; [done|]. change (entries_bytes (e :: es)) with (entry_bytes e ++ entries_bytes es).
  rewrite length_app. pose proof (entry_size tn e He). cbn [length]. lia.
Qed.

Lemma read_entries_run idx b pre es post acc off :
  Forall (entry_ok (type_name idx)) es -> b = pre ++ entries_bytes es ++ post -> off = Z.of_nat (length pre) ->
  read_entries idx b off (length es) acc = Ok (acc ++ es).
Proof.
  intros Hes. revert pre acc off. induction Hes as [|e es He _ IH]; intros pre acc off Hb Hoff; cbn [length read_entries].
  { by rewrite app_nil_r. }
  change (entries_bytes (e :: es)) with (entry_bytes e ++ entries_bytes es) in Hb. rewrite <- app_assoc in Hb.
  rewrite (decode_entry idx e b pre _ off He Hb Hoff). cbn [obind].
  rewrite (IH (pre ++ entry_bytes e)); [by rewrite <- app_assoc|by rewrite <- app_assoc|len].
Qed.

Lemma page_entries idx b next es : bucket_page (type_name idx) b next es -> readAllEntriesFromPage idx b = Ok es.
Proof.
  intros [Hv _ Hc _ Hf Hb Ho]. pose proof (valid_length b Hv) as Hl. unfold readAllEntriesFromPage, bucketHdrEntryCountOff, heapHeaderSize.
  rewrite getU32_field by lia. cbn [obind]. change (Z.to_nat (10 + 4)) with 14%nat. rewrite Hc, Nat2Z.id.
  rewrite (read_entries_run idx b (take 22 b) es (drop (22 + length (entries_bytes es)) b) []); [done|done| |].
  - rewrite <- Hb at 1. unfold sub. rewrite <- (drop_drop _ _ 22), take_drop. by rewrite take_drop.
  - unfold bucketDataStartOff, heapHeaderSize, bucketHdrSize. rewrite length_take. lia.
Qed.

(** Run the next [putU32] of a buffer of page size: the new buffer [b'], its
    validity and what was written. *)
Ltac put_step b' W :=
  match goal with
  | |- context [putU32 ?off ?v ?b] =>
      let E := fresh "E" in
      destruct (put_wrote 4 off (uint32 v) b) as (b' & E & W);
      [done|rewrite ?valid_length by eassumption; lia|];
      unfold putU32 at 1; rewrite E; clear E; cbn [obind];
      let n := eval vm_compute in (Z.to_nat off) in change (Z.to_nat off) with n in W;
      let V := fresh "V" in
      assert (V : valid_buf b') by (eapply wrote_valid; [exact W|lia|eassumption])
  end.

Ltac fields :=
  repeat match goal with
  | W : wrote ?b ?b' ?pos (be_bytes 4 ?v) |- context [field 4 ?pos ?b'] =>
      rewrite (field_wrote_same b b' pos 4 v W) by apply uint32_range
  | W : wrote ?b ?b' ?pos ?bs |- context [field 4 ?q ?b'] =>
      rewrite (field_wrote_other b b' pos bs 4 q W) by (rewrite ?length_be_bytes; lia)
  end.

Lemma init_page tn b : valid_buf b -> exists b', init_bucket b = Ok b' /\ bucket_page tn b' (-1) [].
Proof.
  intros Hv. unfold init_bucket, bucketHdrNextOverflowOff, bucketHdrEntryCountOff, bucketHdrFreeOff, heapHeaderSize.
  put_step b1 W1. put_step b2 W2. put_step b3 W3. exists b3. split; [done|].
  split; try done; fields; done.
Qed.

Lemma linked_page tn b next es id :
  bucket_page tn b next es -> in_sint 32 id ->
  exists b', putU32 bucketHdrNextOverflowOff id b = Ok b' /\ bucket_page tn b' id es.
Proof.
  intros [Hv Hn Hc Hf Hfit Hb Ho] Hid. unfold bucketHdrNextOverflowOff, heapHeaderSize.
  put_step b1 W1. exists b1. split; [done|]. split; try done; fields; try done.
  destruct W1 as (_ & _ & ->); [done|]. rewrite length_be_bytes. lia.
Qed.

Lemma page_next tn b next es : bucket_page tn b next es -> getI32 b bucketHdrNextOverflowOff = Ok next.
Proof.
  intros [Hv [Hn Hr] _ _ _ _ _]. pose proof (valid_length b Hv). unfold bucketHdrNextOverflowOff, heapHeaderSize.
  rewrite getI32_field by lia. change (Z.to_nat 10) with 10%nat. by rewrite Hn, int32_uint32.
Qed.

Lemma page_free tn b next es :
  bucket_page tn b next es -> getU32 b bucketHdrFreeOff = Ok (22 + Z.of_nat (length (entries_bytes es))).
Proof.
  intros [Hv _ _ Hf _ _ _]. pose proof (valid_length b Hv). unfold bucketHdrFreeOff, heapHeaderSize.
  rewrite getU32_field by lia. change (Z.to_nat (10 + 8)) with 18%nat. by rewrite Hf.
Qed.

Lemma uint32_fits v : 0 <= v < 2 ^ 32 -> uint32 v = v.
Proof. intros. by apply uint_id. Qed.

(** An entry that fits is added at the end. *)
Lemma added_page tn b next es e :
  bucket_page tn b next es -> entry_ok tn e ->
  22 + Z.of_nat (length (entries_bytes es)) + Z.of_nat (length (entry_bytes e)) <= 8192 ->
  exists b', add_entry (22 + Z.of_nat (length (entries_bytes es))) (entry_bytes e) b = Ok b' /\
    bucket_page tn b' next (es ++ [e]).
Proof.
  intros [Hv [Hn Hnr] Hc Hf Hfit Hb Ho] He Hroom. pose proof (valid_length b Hv) as Hl.
  set (n := length (entries_bytes es)) in *. set (eb := entry_bytes e) in *. unfold add_entry.
  destruct (go_copy_wrote (22 + Z.of_nat n) eb b) as (b1 & -> & W1); [lia|lia|]. cbn [obind].
  replace (Z.to_nat (22 + Z.of_nat n)) with (22 + n)%nat in W1 by lia.
  assert (V1 : valid_buf b1) by (eapply wrote_valid; [exact W1|lia|done]).
  unfold bucketHdrFreeOff, bucketHdrEntryCountOff, heapHeaderSize. put_step b2 W2.
  pose proof (valid_length b2 V) as Hl2. rewrite getU32_field by lia. cbn [obind].
  change (Z.to_nat (10 + 4)) with 14%nat.
  assert (Hcnt : field 4 14 b2 = Z.of_nat (length es)) by (fields; done). rewrite Hcnt. put_step b3 W3. exists b3. split; [done|].
  pose proof (entries_count tn es Ho) as Hce. fold n in Hce.
  assert (Hes : length (entries_bytes (es ++ [e])) = (n + length eb)%nat).
  { rewrite entries_app, length_app. unfold entries_bytes at 2. cbn. by rewrite app_nil_r. }
  split; rewrite ?Hes.
  - done.
  - split; [fields; done|done].
  - fields. rewrite uint32_fits; [len|lia].
  - fields. rewrite uint32_fits; lia.
  - lia.
  - destruct W3 as (_ & _ & ->); [|rewrite length_be_bytes; lia]. destruct W2 as (_ & _ & ->); [|rewrite length_be_bytes; lia].
    rewrite entries_app. change (entries_bytes [e]) with (eb ++ []). rewrite app_nil_r.
    rewrite <- Hb. destruct W1 as (_ & W1 & Wo). rewrite <- (Wo 22%nat n) by lia. by rewrite sub_add, W1.
  - apply Forall_app. split; [done|]. by constructor.
Qed.

(** ** Chains of pages *)
Definition chain : Type := list (Z * list hashEntry).
Definition chain_ids (c : chain) : list Z := c.*1.
Definition chain_entries (c : chain) : list hashEntry := concat c.*2.

Definition room (es : list hashEntry) (e : hashEntry) : Prop :=
  22 + Z.of_nat (length (entries_bytes es)) + Z.of_nat (length (entry_bytes e)) <= 8192.

#[export] Instance room_dec es e : Decision (room es e).
Proof. unfold room. apply _. Defined.

(** Inserting into a chain: into the first page with room, or into a new page
    [new] at the end. *)
Fixpoint chain_add (e : hashEntry) (new : Z) (c : chain) : chain :=
  match c with
  | [] => [(new, [e])]
  | (id, es) :: c => if decide (room es e) then (id, es ++ [e]) :: c else (id, es) :: chain_add e new c
  end.

(** All pages of the chain are full for the entry. *)
Definition chain_full (e : hashEntry) (c : chain) : bool := forallb (fun p => bool_decide (~ room p.2 e)) c.

Lemma chain_ids_cons id es c : chain_ids ((id, es) :: c) = id :: chain_ids c.
Proof. done. Qed.

Lemma chain_add_entries e new c : chain_entries (chain_add e new c) ≡ₚ e :: chain_entries c.
Proof.
  unfold chain_entries. induction c as [|[id es] c IH]; cbn [chain_add]; [done|].
  case_decide; cbn.
  - rewrite <- app_assoc. cbn. by rewrite <- Permutation_middle.
  - rewrite IH. by rewrite <- Permutation_middle.
Qed.

Lemma chain_add_ids e new c :
  chain_ids (chain_add e new c) = chain_ids c ++ (if chain_full e c then [new] else []).
Proof.
  unfold chain_ids. induction c as [|[id es] c IH]; cbn [chain_add]; [done|].
  change (chain_full e ((id, es) :: c)) with (bool_decide (~ room es e) && chain_full e c).
  destruct (decide (room es e)) as [Hr|Hr].
  - rewrite (bool_decide_eq_false_2 (~ room es e)) by tauto. cbn. by rewrite app_nil_r.
  - rewrite (bool_decide_eq_true_2 (~ room es e)) by done. cbn. by f_equal.
Qed.

Section chains.
Context {R D : Type} `{RR : Replacer R, RL : !ReplacerLaws R, DM : PageFileManager D, DL : !PageFileLaws D}.
Context `{FT : !FileStat D}.
Context (root0 : string) (root_nonempty : root0 <> ""%string).
Implicit Types (P : Pool R D) (idx : t) (E : PageKey -> Prop) (A : PageKey -> option (list byte)).

Notation good := (BufferPoolSpec.good_key Filepath.simple_name).
Notation store_but := (PageStore.store_but root0).
Notation in_slot := PageStore.in_slot.
Notation put := PageStore.put.
Notation also := PageStore.also.
Notation read_page := (IndexPage.read_page root0 root_nonempty key).
Notation change_page := (IndexPage.change_page root0 root_nonempty key).

(** The chain of pages that starts at page [head] of the file. *)
Fixpoint chain_in A (file tn : string) (head : Z) (c : chain) : Prop :=
  match c with
  | [] => head = -1
  | (id, es) :: c => head = id /\ exists b next, A (NewPageKey file id) = Some b /\
      bucket_page tn b next es /\ chain_in A file tn next c
  end.

Lemma chain_frame A A' file tn head c :
  (forall id, id ∈ chain_ids c -> A' (NewPageKey file id) = A (NewPageKey file id)) ->
  chain_in A file tn head c -> chain_in A' file tn head c.
Proof.
  revert head. induction c as [|[id es] c IH]; intros head HA; [done|]. intros [-> (b & next & Hb & Hp & Hc)].
  split; [done|]. exists b, next. split; [|split; [done|]].
  - rewrite HA; [done|]. apply elem_of_cons. by left.
  - apply IH; [|done]. intros id' Hin. apply HA, elem_of_cons. by right.
Qed.

(** A page made and filled in: [allocateDataPage] and [initBucketPage]. *)
Lemma new_bucket_page {B} E A P idx (k : Z -> ST (Pool R D * t) B) Q :
  let n := nextPageID (meta idx) in let idx' := with_meta (with_nextPageID (n + 1) (meta idx)) idx in
  store_but E A P -> good (key idx n) -> n + 1 < 2 ^ 31 -> ~ E (key idx n) ->
  (forall P' b, keeps (key idx n) P P' -> bucket_page (type_name idx) b (-1) [] ->
     store_but E (put (key idx n) b A) P' -> triple (k n) (P', idx') Q) ->
  (forall e s, Q (Err e) s) ->
  triple (id <- allocateDataPage ;; initBucketPage id ;;; k id) (P, idx) Q.
Proof.
  intros n idx' Hst Hg Hn HE Hk He. pose proof Hg as [_ Hid]. change (0 <= n < 2 ^ 31) in Hid.
  apply triple_bind. unfold allocateDataPage. apply triple_self. fold n.
  rewrite int32_fits by lia. apply triple_bind, triple_modify. cbn beta iota. cbn [fst snd]. fold idx'.
  apply triple_bind. unfold newPage. apply triple_self. change (key idx' n) with (key idx n).
  eapply triple_eq; [apply on_pool_seq|]. apply triple_pool.
  eapply triple_mono; [by apply (new_page root0 root_nonempty E A P (key idx n))|].
  intros r P1 Hnp [Hk1 Hst1]. destruct r as [[]|e|]; [|by apply He|done]. apply triple_ret.
  apply triple_bind. unfold initBucketPage.
  apply (change_page (also (key idx n) E) A P1 idx' n init_bucket); [done|done| | |auto].
  - intros b Hv _. destruct (init_page (type_name idx) b Hv) as (b' & Hb & Hp). exists b'. split; [done|apply Hp].
  - intros P2 b b' Hk2 Hv _ Hb Hst2. destruct (init_page (type_name idx) b Hv) as (b2 & Hb2 & Hp).
    assert (b2 = b') as -> by congruence. change (key idx' n) with (key idx n) in *. apply (Hk P2 b').
    + by eapply keeps_trans.
    + done.
    + eapply store_weaken; [|exact Hst2]. intros k0 [Hne [?|?]]; [done|done].
Qed.

(** *** One round of the insertion loop *)
Section step.
Context (E : PageKey -> Prop) (A : PageKey -> option (list byte)) (P : Pool R D) (idx : t) (id : Z) (e : hashEntry).
Context (b : list byte) (next : Z) (es : list hashEntry).
Context (Hst : store_but E A P) (Hg : good (key idx id)) (HE : ~ E (key idx id)).
Context (HA : A (key idx id) = Some b) (Hp : bucket_page (type_name idx) b next es).

Lemma step_room (Q : outcome (option Z) -> Pool R D * t -> Prop) :
  entry_ok (type_name idx) e -> room es e ->
  (forall P' b', bucket_page (type_name idx) b' next (es ++ [e]) -> store_but E (put (key idx id) b' A) P' -> Q (Ok None) (P', idx)) ->
  (forall err s, Q (Err err) s) ->
  triple (insert_step id (entry_bytes e)) (P, idx) Q.
Proof using All.
  intros He Hroom Hok Herr. apply (read_page E A P idx id b); [done..| |auto].
  intros P1 pg ref Hst1 Hin. rewrite (page_free _ _ _ _ Hp).
  rewrite slift_ok. cbn beta. rewrite (proj2 (Z.leb_le _ _)) by (unfold room in Hroom; unfold PageSize; lia).
  destruct (added_page _ b next es e Hp He Hroom) as (b' & Hf & Hp').
  eapply write_back; [by eapply (modify_slot root0 root_nonempty E A); eauto; apply Hp'| |done].
  intros P2 (_ & Hst2 & _). apply triple_ret. eapply Hok; [done|]. eapply store_weaken; [|exact Hst2]. by intros k [].
Qed.

Lemma step_next (Q : outcome (option Z) -> Pool R D * t -> Prop) :
  ~ room es e -> next <> -1 -> (forall P', store_but E A P' -> Q (Ok (Some next)) (P', idx)) ->
  (forall err s, Q (Err err) s) ->
  triple (insert_step id (entry_bytes e)) (P, idx) Q.
Proof using All.
  intros Hroom Hn Hok Herr. apply (read_page E A P idx id b); [done..| |auto].
  intros P1 pg ref Hst1 Hin. rewrite (page_free _ _ _ _ Hp).
  rewrite slift_ok. cbn beta. rewrite (proj2 (Z.leb_gt _ _)) by (unfold room in Hroom; unfold PageSize; lia).
  rewrite (page_next _ _ _ _ Hp), slift_ok. cbn beta. rewrite (proj2 (Z.eqb_neq _ _)) by done.
  apply triple_ret. by apply Hok.
Qed.

(** The page is full and the last one: it is linked to a new page. *)
Lemma step_new (Q : outcome (option Z) -> Pool R D * t -> Prop) :
  let n := nextPageID (meta idx) in let idx' := with_meta (with_nextPageID (n + 1) (meta idx)) idx in
  ~ room es e -> next = -1 -> id < n -> n + 1 < 2 ^ 31 -> ~ E (key idx n) ->
  (forall P' b' b2, bucket_page (type_name idx) b' n es -> bucket_page (type_name idx) b2 (-1) [] ->
     store_but E (put (key idx id) b' (put (key idx n) b2 A)) P' -> Q (Ok (Some n)) (P', idx')) ->
  (forall err s, Q (Err err) s) ->
  triple (insert_step id (entry_bytes e)) (P, idx) Q.
Proof using All.
  intros n idx' Hroom -> Hid Hn HEn Hok Herr. pose proof Hg as [Hfile Hidr]. cbn in Hidr, Hfile.
  apply (read_page E A P idx id b); [done..| |auto].
  intros P1 pg ref Hst1 Hin. rewrite (page_free _ _ _ _ Hp).
  rewrite slift_ok. cbn beta. rewrite (proj2 (Z.leb_gt _ _)) by (unfold room in Hroom; unfold PageSize; lia).
  rewrite (page_next _ _ _ _ Hp), slift_ok. cbn beta. rewrite Z.eqb_refl.
  pose proof (held_slot root0 E A P1 _ _ _ _ Hst1 Hin) as Hheld.
  assert (Hgn : good (key idx n)) by (split; [done|cbn; lia]).
  assert (Hne : key idx id <> key idx n) by (intros [= Hidn]; lia).
  apply (new_bucket_page E A P1 idx); [done..| |auto].
  intros P2 b2 Hk2 Hp2 Hst2. fold n. fold idx'.
  destruct (linked_page _ b (-1) es n Hp) as (b' & Hf & Hp'); [unfold in_sint; lia|].
  eapply write_back; [eapply (modify_held root0 root_nonempty E (put (key idx n) b2 A) P2 (key idx id)); eauto; apply Hp'| |done].
  intros P3 H3. apply triple_ret. eapply Hok; [done..|]. eapply store_weaken; [|by apply H3]. by intros k [].
Qed.
End step.

(** *** Walking a chain *)
Notation file_key idx := (NewPageKey (fileID idx)).

(** Only the pages [ids] of the file have changed. *)
Definition frame (file : string) (ids : list Z) A A' : Prop :=
  forall k, (forall id, id ∈ ids -> k <> NewPageKey file id) -> A' k = A k.

Lemma frame_put file ids id b A : id ∈ ids -> frame file ids A (put (NewPageKey file id) b A).
Proof. intros Hin k Hk. unfold put, PageStore.put. rewrite decide_False; [done|]. by apply Hk. Qed.

Lemma frame_sub file ids ids' A A' : (forall id, id ∈ ids -> id ∈ ids') -> frame file ids A A' -> frame file ids' A A'.
Proof. intros Hs Hf k Hk. apply Hf. auto. Qed.

Lemma frame_trans file ids A1 A2 A3 : frame file ids A1 A2 -> frame file ids A2 A3 -> frame file ids A1 A3.
Proof. intros H1 H2 k Hk. by rewrite H2, H1. Qed.

Lemma frame_id file ids A A' id : frame file ids A A' -> id ∉ ids -> A' (NewPageKey file id) = A (NewPageKey file id).
Proof. intros Hf Hid. apply Hf. intros id' Hin [= <-]. done. Qed.

Lemma chain_frame_ids A A' file tn ids head c :
  frame file ids A A' -> (forall id, id ∈ chain_ids c -> id ∉ ids) ->
  chain_in A file tn head c -> chain_in A' file tn head c.
Proof. intros Hf Hd. apply chain_frame. intros id Hin. eapply frame_id; [done|]. auto. Qed.

Lemma room_empty tn e : entry_ok tn e -> room [] e.
Proof. intros He. pose proof (entry_size tn e He). unfold room. change (length (entries_bytes [])) with 0%nat. lia. Qed.

(** The pages a table may use: page numbers from [dataStartPage] below [n]. *)
Definition data_id (n id : Z) : Prop := 65 <= id < n.

Section walk.
Context (E : PageKey -> Prop) (idx : t) (e : hashEntry).
Let file := fileID idx.
Let tn := type_name idx.
Let n := nextPageID (meta idx).
Context (Hfile : Filepath.simple_name (fileID idx)) (HE : forall id, 65 <= id -> ~ E (key idx id)).

Let data_good id : 65 <= id < 2 ^ 31 -> good (key idx id).
Proof. intros Hid. split; [done|]. change (0 <= id < 2 ^ 31). lia. Qed.

(** [insertIntoBucketChain] from the head page on. *)
Lemma insert_loop_spec A c : forall P head fuel (Q : outcome unit -> Pool R D * t -> Prop),
  entry_ok tn e -> n + 1 < 2 ^ 31 -> 65 <= n ->
  store_but E A P -> c <> [] -> chain_in A file tn head c -> NoDup (chain_ids c) -> Forall (data_id n) (chain_ids c) ->
  (length c < fuel)%nat ->
  (forall P' A', store_but E A' P' -> chain_in A' file tn head (chain_add e n c) -> frame file (n :: chain_ids c) A A' ->
     Q (Ok tt) (P', if chain_full e c then with_meta (with_nextPageID (n + 1) (meta idx)) idx else idx)) ->
  (forall err s, Q (Err err) s) ->
  triple (insert_loop head (entry_bytes e) fuel) (P, idx) Q.
Proof using Hfile HE root_nonempty RL DL FT.
  induction c as [|[id es] c IH]; intros P head fuel Q He Hn31 Hn65 Hst Hne Hc Hnd Hids Hfuel Hok Herr; [done|].
  destruct Hc as [-> (b & next & Hb & Hp & Hc)]. rewrite chain_ids_cons in Hnd, Hids. apply NoDup_cons in Hnd as [Hnotin Hnd].
  apply Forall_cons in Hids as [Hid Hids]. unfold data_id in Hid. change (file) with (fileID idx) in Hb.
  destruct fuel as [|fuel]; [cbn in Hfuel; lia|]. cbn [insert_loop]. cbn [length] in Hfuel.
  change (chain_full e ((id, es) :: c)) with (bool_decide (~ room es e) && chain_full e c) in Hok. cbn [chain_add] in Hok.
  apply triple_bind. destruct (decide (room es e)) as [Hroom|Hroom].
  - rewrite (bool_decide_eq_false_2 (~ room es e)) in Hok by tauto. cbn [andb] in Hok.
    apply (step_room E A P idx id e b next es); auto; [apply data_good; lia|apply HE; lia|].
    intros P' b' Hp' Hst'. apply triple_ret. eapply Hok; [done| |].
    + split; [done|]. exists b', next. split; [by unfold put, PageStore.put; rewrite decide_True|]. split; [done|].
      eapply (chain_frame_ids A); [by apply (frame_put file [id] id), list_elem_of_singleton| |done].
      intros id' Hin ->%list_elem_of_singleton. done.
    + apply frame_put. apply elem_of_cons. right. apply elem_of_cons. by left.
  - rewrite (bool_decide_eq_true_2 (~ room es e)) in Hok by done. cbn [andb] in Hok. destruct c as [|[id2 es2] c].
    + cbn in Hc. subst next. apply (step_new E A P idx id e b (-1) es); auto;
        try apply data_good; try apply HE; try (fold n; lia).
      intros P' b' b2 Hp' Hp2 Hst'. fold n. fold n in Hp', Hst'.
      set (idx' := with_meta _ _). set (A2 := put _ _ _) in Hst'.
      assert (Hne2 : NewPageKey file n <> NewPageKey file id) by (intros [= ?]; lia).
      destruct fuel as [|fuel]; [lia|]. cbn [insert_loop]. apply triple_bind.
      apply (step_room E A2 P' idx' n e b2 (-1) []); auto; [apply data_good; lia|apply HE; lia| |by eapply room_empty|].
      { unfold A2, put, PageStore.put. rewrite decide_False by done. by rewrite decide_True. }
      intros P3 b3 Hp3 Hst3. apply triple_ret. eapply Hok; [done| |].
      * split; [done|]. exists b', n. split; [|split; [done|]].
        { unfold A2, put, PageStore.put. rewrite decide_False by done. by rewrite decide_True. }
        split; [done|]. exists b3, (-1). split; [|done]. unfold put, PageStore.put. by rewrite decide_True.
      * eapply frame_trans; [eapply frame_trans|]; apply frame_put; set_solver.
    + pose proof Hc as [Hnext _]. subst next. rewrite chain_ids_cons in Hids. pose proof (proj1 (Forall_cons _ _ _) Hids) as [Hid2 _]. unfold data_id in Hid2.
      apply (step_next E A P idx id e b id2 es); auto; [apply data_good; lia|apply HE; lia|lia|].
      intros P' Hst'. apply (IH P' id2); auto; [cbn [length] in *; lia|].
      intros P2 A2 Hst2 Hc2 Hf. apply (Hok P2 A2); [done| |].
      * split; [done|]. exists b, id2. split; [|done]. rewrite <- Hb. eapply frame_id; [done|].
        intros [->|?]%elem_of_cons; [lia|done].
      * eapply frame_sub; [|done]. set_solver.
Qed.

(** [forEachEntry] and [drainBucketChain] from the head page on. *)
Lemma chain_loop_spec A c : forall P head acc fuel (Q : outcome (list hashEntry) -> Pool R D * t -> Prop),
  store_but E A P -> chain_in A file tn head c -> Forall (data_id n) (chain_ids c) -> n < 2 ^ 31 ->
  (length c <= fuel)%nat ->
  (forall P', store_but E A P' -> Q (Ok (acc ++ chain_entries c)) (P', idx)) ->
  (forall err P', store_but E A P' -> ~ reliable -> Q (Err err) (P', idx)) ->
  triple (chain_loop head acc fuel) (P, idx) Q.
Proof using Hfile HE root_nonempty RL DL FT.
  induction c as [|[id es] c IH]; intros P head acc fuel Q Hst Hc Hids Hn Hfuel Hok Herr.
  - cbn in Hc. subst head. replace (chain_loop (-1) acc fuel) with (sret acc : ST (Pool R D * t) _) by by destruct fuel.
    apply triple_ret. rewrite <- (app_nil_r acc). by apply Hok.
  - destruct Hc as [-> (b & next & Hb & Hp & Hc)]. rewrite chain_ids_cons in Hids. apply Forall_cons in Hids as [Hid Hids]. unfold data_id in Hid.
    destruct fuel as [|fuel]; [cbn in Hfuel; lia|]. cbn [chain_loop]. cbn [length] in Hfuel.
    rewrite (proj2 (Z.eqb_neq _ _)), (proj2 (Z.eqb_neq _ _)) by lia. cbn [orb].
    apply (read_page E A P idx id b); auto; [apply data_good; lia|apply HE; lia|].
    intros P1 pg ref Hst1 _. apply triple_self. rewrite (page_entries _ _ _ _ Hp), slift_ok. cbn beta.
    rewrite (page_next _ _ _ _ Hp), slift_ok. cbn beta. apply IH; auto; [lia|]. intros P' Hst'.
    rewrite <- app_assoc. by apply Hok.
Qed.
End walk.

(** ** The table: a directory and a chain for every bucket *)

(** The directory has the head page of bucket [i]. *)
Definition dir_slot A (file : string) (i head : Z) : Prop :=
  exists b, A (NewPageKey file (dir_page i)) = Some b /\ valid_buf b /\
    field 4 (Z.to_nat (dir_off i)) b = uint32 head /\ in_sint 32 head.

Definition maxBuckets : Z := dirPages * dirEntriesPerPage.

Lemma dir_bounds i : 0 <= i < maxBuckets ->
  1 <= dir_page i <= 64 /\ 10 <= dir_off i /\ dir_off i + 4 <= 8192.
Proof.
  unfold maxBuckets, dir_page, dir_off, dirPages. change dirEntriesPerPage with 2045. unfold heapHeaderSize, dirEntryBytes. intros Hi.
  rewrite Z.quot_div_nonneg, Z.rem_mod_nonneg by lia. pose proof (Z.mod_pos_bound i 2045). pose proof (Z.div_mod i 2045). lia.
Qed.

Lemma dir_apart i j : 0 <= i < maxBuckets -> 0 <= j < maxBuckets -> i <> j ->
  dir_page i <> dir_page j \/ dir_off i + 4 <= dir_off j \/ dir_off j + 4 <= dir_off i.
Proof.
  unfold maxBuckets, dir_page, dir_off, dirPages. change dirEntriesPerPage with 2045. unfold heapHeaderSize, dirEntryBytes. intros Hi Hj Hne.
  rewrite !Z.quot_div_nonneg, !Z.rem_mod_nonneg by lia. pose proof (Z.div_mod i 2045). pose proof (Z.div_mod j 2045).
  destruct (Z.eq_dec (i / 2045) (j / 2045)); lia.
Qed.

Section directory.
Context (E : PageKey -> Prop) (idx : t) (Hfile : Filepath.simple_name (fileID idx)).

Let dir_good i : 0 <= i < maxBuckets -> good (key idx (dir_page i)).
Proof. intros Hi. pose proof (dir_bounds i Hi). split; [done|]. change (0 <= dir_page i < 2 ^ 31). lia. Qed.

Lemma get_head {B} A P i head (k : Z -> ST (Pool R D * t) B) Q :
  store_but E A P -> 0 <= i < maxBuckets -> ~ E (key idx (dir_page i)) -> dir_slot A (fileID idx) i head ->
  (forall P', store_but E A P' -> triple (k head) (P', idx) Q) ->
  (forall err P', store_but E A P' -> ~ reliable -> Q (Err err) (P', idx)) ->
  triple (h <- getBucketHeadPageID i ;; k h) (P, idx) Q.
Proof using Hfile root_nonempty RL DL FT.
  intros Hst Hi HE (b & HA & Hv & Hf & Hh) Hk Herr. apply triple_bind. unfold getBucketHeadPageID.
  apply (read_page E A P idx (dir_page i) b); auto. intros P' pg ref Hst' _.
  pose proof (dir_bounds i Hi) as (_ & H1 & H2). pose proof (valid_length b Hv).
  rewrite getI32_field, Hf, int32_uint32 by (done || lia). apply (triple_ret head). by apply Hk.
Qed.

(** A directory slot is set; the others keep their values. *)
Lemma set_head {B} A P i head (k : ST (Pool R D * t) B) Q :
  store_but E A P -> 0 <= i < maxBuckets -> in_sint 32 head ->
  (forall P' A', store_but (less (key idx (dir_page i)) E) A' P' -> dir_slot A' (fileID idx) i head ->
     (forall j h, 0 <= j < maxBuckets -> j <> i -> ~ E (key idx (dir_page j)) -> dir_slot A (fileID idx) j h ->
        dir_slot A' (fileID idx) j h) ->
     frame (fileID idx) [dir_page i] A A' -> triple k (P', idx) Q) ->
  (forall err s, Q (Err err) s) ->
  triple (setBucketHeadPageID i head ;;; k) (P, idx) Q.
Proof using Hfile root_nonempty RL DL FT.
  intros Hst Hi Hh Hk Herr. apply triple_bind. unfold setBucketHeadPageID.
  pose proof (dir_bounds i Hi) as (_ & H1 & H2).
  assert (Hw : forall b, valid_buf b -> exists b', putU32 (dir_off i) head b = Ok b' /\ valid_buf b' /\
    wrote b b' (Z.to_nat (dir_off i)) (be_bytes 4 (uint32 head))).
  { intros b Hv. pose proof (valid_length b Hv). destruct (put_wrote 4 (dir_off i) (uint32 head) b) as (b' & Hb' & W); [lia..|].
    exists b'. split; [done|]. split; [|done]. eapply wrote_valid; [exact W|lia|done]. }
  apply (change_page E A P idx (dir_page i) (putU32 (dir_off i) head)); auto.
  { intros b Hv _. destruct (Hw b Hv) as (b' & ? & ? & _). by exists b'. }
  intros P' b b2 _ Hv Hb Hf Hst'. destruct (Hw b Hv) as (b' & Hb' & Hv' & W). assert (b2 = b') as -> by congruence.
  apply (Hk P' _ Hst').
  - exists b'. unfold put, PageStore.put. rewrite decide_True by done. split; [done|]. split; [done|]. split; [|done].
    apply (field_wrote_same b b' _ 4 _ W). apply uint32_range.
  - intros j h Hj Hne HEj (bj & HAj & Hvj & Hfj & Hhj). unfold put, PageStore.put, dir_slot. case_decide as Hd.
    + exists b'. split; [done|]. split; [done|]. split; [|done]. injection Hd as Hd.
      rewrite <- Hd in Hb. specialize (Hb HEj). assert (bj = b) as -> by (unfold key in Hb; congruence).
      pose proof (dir_bounds j Hj) as (_ & H3 & H4). destruct (dir_apart i j Hi Hj (not_eq_sym Hne)) as [?|Hap]; [congruence|].
      rewrite (field_wrote_other b b' _ _ 4 _ W); [done|]. rewrite length_be_bytes. lia.
    + by exists bj.
  - apply frame_put. by apply list_elem_of_singleton.
Qed.
End directory.

Definition all_ids (chains : list chain) : list Z := concat (chain_ids <$> chains).
Definition all_entries (chains : list chain) : list hashEntry := concat (chain_entries <$> chains).
Definition head_id (c : chain) : Z := match c with [] => -1 | (id, _) :: _ => id end.

(** The file holds these chains: in the directory and in pages below [n]. *)
Record table_in E A (file tn : string) (n : Z) (chains : list chain) : Prop := {
  ti_file : Filepath.simple_name file;
  ti_known id : 65 <= id -> ~ E (NewPageKey file id);
  ti_next : 65 <= n < 2 ^ 31;
  ti_len : Z.of_nat (length chains) <= maxBuckets;
  ti_nodup : NoDup (all_ids chains);
  ti_ids : Forall (data_id n) (all_ids chains);
  ti_bucket i c : chains !! i = Some c ->
    ~ E (NewPageKey file (dir_page (Z.of_nat i))) /\ dir_slot A file (Z.of_nat i) (head_id c) /\
    chain_in A file tn (head_id c) c /\ c <> []
}.

(** *** Replacing a chain, adding a chain *)
Lemma concat_insert {X} (f : chain -> list X) chains i c :
  chains !! i = Some c ->
  exists rest, concat (f <$> chains) ≡ₚ f c ++ rest /\ forall c', concat (f <$> <[i := c']> chains) ≡ₚ f c' ++ rest.
Proof.
  intros Hi. exists (concat (f <$> take i chains) ++ concat (f <$> drop (S i) chains)).
  assert (H : forall c', concat (f <$> take i chains ++ c' :: drop (S i) chains) ≡ₚ
    f c' ++ concat (f <$> take i chains) ++ concat (f <$> drop (S i) chains)).
  { intros c'. rewrite fmap_app, concat_app. cbn. by rewrite !app_assoc, (Permutation_app_comm (f c')). }
  split; [by rewrite <- (take_drop_middle chains i c Hi) at 1|].
  intros c'. rewrite insert_take_drop; [apply H|]. by eapply lookup_lt_Some.
Qed.

Lemma ids_apart chains : forall i j c d id, NoDup (all_ids chains) ->
  chains !! i = Some c -> chains !! j = Some d -> i <> j -> id ∈ chain_ids c -> id ∈ chain_ids d -> False.
Proof.
  assert (Hin : forall l j d id, l !! j = Some d -> id ∈ chain_ids d -> id ∈ all_ids l).
  { induction l as [|x l IH]; intros [|j] d id; [done..| |]; cbn; unfold all_ids; cbn; intros Hl Hd; apply elem_of_app.
    - injection Hl as ->. by left.
    - right. by eapply IH. }
  induction chains as [|x l IH]; intros i j c d id Hnd; [done|]. unfold all_ids in Hnd. cbn in Hnd.
  apply NoDup_app in Hnd as (_ & Hx & Hnd). destruct i as [|i], j as [|j]; cbn; intros Hi Hj Hne Hc Hd; simplify_eq.
  - eapply Hx; [exact Hc|]. by eapply Hin.
  - eapply Hx; [exact Hd|]. by eapply Hin.
  - eapply (IH i j); eauto.
Qed.

(** Nothing outside the file has changed, and not its meta page. *)
Definition beyond (file : string) A A' : Prop := forall k, FileID k <> file \/ PageID k = 0 -> A' k = A k.

Lemma beyond_trans file A1 A2 A3 : beyond file A1 A2 -> beyond file A2 A3 -> beyond file A1 A3.
Proof. intros H1 H2 k Hk. by rewrite H2, H1. Qed.

Lemma frame_beyond file ids A A' : (forall id, id ∈ ids -> 1 <= id) -> frame file ids A A' -> beyond file A A'.
Proof. intros Hids Hf k Hk. apply Hf. intros id Hin ->. specialize (Hids id Hin). cbn in Hk. destruct Hk; [done|lia]. Qed.

Section tables.
Context (E E' : PageKey -> Prop) (A A' : PageKey -> option (list byte)) (file tn : string) (n n' : Z) (chains : list chain).
Context (HT : table_in E A file tn n chains) (HE : forall k, E' k -> E k) (Hn : n <= n' < 2 ^ 31).

Lemma ids_of i c : chains !! i = Some c -> Forall (data_id n) (chain_ids c) /\ NoDup (chain_ids c).
Proof using HT.
  intros Hi. destruct (concat_insert chain_ids chains i c Hi) as (rest & Hp & _).
  pose proof (ti_ids _ _ _ _ _ _ HT) as Hids. pose proof (ti_nodup _ _ _ _ _ _ HT) as Hnd.
  unfold all_ids in *. rewrite Hp in Hids, Hnd. apply Forall_app in Hids as [? _]. by apply NoDup_app in Hnd as [? _].
Qed.

(** The pages of a bucket stay as they are when others are written. *)
Lemma bucket_frame i c ids :
  chains !! i = Some c -> frame file ids A A' -> (forall id, id ∈ chain_ids c -> id ∉ ids) ->
  dir_slot A' file (Z.of_nat i) (head_id c) ->
  ~ E' (NewPageKey file (dir_page (Z.of_nat i))) /\ dir_slot A' file (Z.of_nat i) (head_id c) /\
    chain_in A' file tn (head_id c) c /\ c <> [].
Proof using HT HE.
  intros Hi Hf Hd Hs. destruct (ti_bucket _ _ _ _ _ _ HT i c Hi) as (He & _ & Hc & Hne).
  split; [auto|]. split; [done|]. split; [|done]. by eapply chain_frame_ids.
Qed.

Lemma dir_frame i h ids : frame file ids A A' -> dir_page i ∉ ids -> dir_slot A file i h -> dir_slot A' file i h.
Proof. intros Hf Hd (b & HA & H). exists b. split; [|done]. rewrite <- HA. by eapply frame_id. Qed.

Lemma bucket_index i c : chains !! i = Some c -> 0 <= Z.of_nat i < maxBuckets.
Proof using HT. intros Hi%lookup_lt_Some. pose proof (ti_len _ _ _ _ _ _ HT). lia. Qed.

Lemma table_update i c c' :
  chains !! i = Some c -> frame file (n :: chain_ids c) A A' ->
  head_id c' = head_id c -> chain_in A' file tn (head_id c') c' -> c' <> [] -> NoDup (chain_ids c') ->
  (forall id, id ∈ chain_ids c' -> id ∈ chain_ids c \/ (id = n /\ n < n')) ->
  table_in E' A' file tn n' (<[i := c']> chains).
Proof using HT HE Hn.
  intros Hi Hf Hh Hc' Hne Hnd Hids. pose proof (ids_of i c Hi) as [Hr _]. rewrite Forall_forall in Hr.
  destruct (concat_insert chain_ids chains i c Hi) as (rest & Hp & Hp').
  pose proof (ti_ids _ _ _ _ _ _ HT) as Ha. pose proof (ti_nodup _ _ _ _ _ _ HT) as Hn0. pose proof (ti_next _ _ _ _ _ _ HT) as H65.
  unfold all_ids in Ha, Hn0. rewrite Hp in Ha, Hn0. apply Forall_app in Ha as [_ Ha]. rewrite Forall_forall in Ha.
  apply NoDup_app in Hn0 as (_ & Hx & Hrest).
  split.
  - apply HT.
  - intros id Hid He. eapply (ti_known _ _ _ _ _ _ HT); eauto.
  - lia.
  - rewrite length_insert. apply HT.
  - unfold all_ids. rewrite Hp'. apply NoDup_app. split; [done|]. split; [|done]. intros id Hid Hr'.
    destruct (Hids id Hid) as [Ho|[-> _]]; [by eapply Hx|]. specialize (Ha n Hr'). unfold data_id in Ha. lia.
  - unfold all_ids. rewrite Hp'. apply Forall_app. rewrite !Forall_forall. split; intros id Hid.
    + destruct (Hids id Hid) as [Ho|[-> ?]]; [|unfold data_id; lia]. specialize (Hr id Ho). unfold data_id in *. lia.
    + specialize (Ha id Hid). unfold data_id in *. lia.
  - intros j d Hj.
    assert (Hdir : forall h, 0 <= Z.of_nat j < maxBuckets -> dir_slot A file (Z.of_nat j) h -> dir_slot A' file (Z.of_nat j) h).
    { intros h Hb. apply (dir_frame _ _ (n :: chain_ids c)); [done|]. pose proof (dir_bounds _ Hb) as [? _].
      intros [?|Hin]%elem_of_cons; [lia|]. specialize (Hr _ Hin). unfold data_id in Hr. lia. }
    destruct (decide (i = j)) as [<-|Hij].
    + rewrite list_lookup_insert_eq in Hj by (by eapply lookup_lt_Some). injection Hj as <-.
      destruct (ti_bucket _ _ _ _ _ _ HT i c Hi) as (He & Hs & _ & _). split; [auto|]. split; [|done].
      rewrite Hh. apply Hdir; [by eapply bucket_index|done].
    + rewrite list_lookup_insert_ne in Hj by done. eapply bucket_frame; [done..| |].
      * intros id Hd. pose proof (ids_of j d Hj) as [Hrd _]. rewrite Forall_forall in Hrd. specialize (Hrd id Hd). unfold data_id in Hrd.
        intros [->|Hin]%elem_of_cons; [lia|]. eapply (ids_apart chains i j c d id); eauto; apply HT.
      * apply Hdir; [by eapply bucket_index|]. by apply (ti_bucket _ _ _ _ _ _ HT j d Hj).
Qed.

(** A new bucket with an empty page. *)
Lemma table_snoc b :
  let i := Z.of_nat (length chains) in
  i < maxBuckets -> n < n' -> frame file [n; dir_page i] A A' -> ~ E' (NewPageKey file (dir_page i)) -> dir_slot A' file i n ->
  (forall j c, chains !! j = Some c -> dir_slot A' file (Z.of_nat j) (head_id c)) ->
  A' (NewPageKey file n) = Some b -> bucket_page tn b (-1) [] ->
  table_in E' A' file tn n' (chains ++ [[(n, [])]]).
Proof using HT HE Hn.
  intros i Hi Hlt Hf HEi Hs Hdir Hb Hp. pose proof (ti_next _ _ _ _ _ _ HT) as H65.
  pose proof (ti_ids _ _ _ _ _ _ HT) as Ha. assert (Hall : all_ids (chains ++ [[(n, [])]]) = all_ids chains ++ [n]).
  { unfold all_ids. by rewrite fmap_app, concat_app. }
  split.
  - apply HT.
  - intros id Hid He. eapply (ti_known _ _ _ _ _ _ HT); eauto.
  - lia.
  - rewrite length_app. cbn [length]. lia.
  - rewrite Hall. apply NoDup_app. split; [apply HT|]. split; [|apply NoDup_singleton]. intros id Hid ->%list_elem_of_singleton.
    rewrite Forall_forall in Ha. specialize (Ha n Hid). unfold data_id in Ha. lia.
  - rewrite Hall. apply Forall_app. split; [|apply Forall_singleton; unfold data_id; lia].
    eapply Forall_impl; [exact Ha|]. unfold data_id. lia.
  - intros j c Hj. apply lookup_app_Some in Hj as [Hj|[Hl Hj]].
    + eapply bucket_frame; [done..| |by apply Hdir]. intros id Hd.
      pose proof (ids_of j c Hj) as [Hrd _]. rewrite Forall_forall in Hrd. specialize (Hrd id Hd). unfold data_id in Hrd.
      pose proof (dir_bounds i) as H64. intros [->|Hin]%elem_of_cons; [lia|]. apply list_elem_of_singleton in Hin as ->. lia.
    + apply list_lookup_singleton_Some in Hj as [Hj <-]. assert (j = length chains) as -> by lia. fold i.
      split; [done|]. split; [done|]. split; [|done]. split; [done|]. by exists b, (-1).
Qed.
End tables.

(** *** The operations on a table *)
Definition with_next (n : Z) (idx : t) : t := with_meta (with_nextPageID n (meta idx)) idx.

Lemma with_next_same idx : with_next (nextPageID (meta idx)) idx = idx.
Proof. by destruct idx as [? ? ? ? []]. Qed.

Lemma ids_length n ids : NoDup ids -> Forall (data_id n) ids -> (length ids <= Z.to_nat n)%nat.
Proof.
  intros Hnd Hids. rewrite Forall_forall in Hids. destruct (decide (65 <= n)) as [Hn|Hn].
  - assert (Hs : ids ⊆+ seqZ 0 n).
    { apply NoDup_submseteq; [done|]. intros id Hin. apply elem_of_seqZ. specialize (Hids id Hin). unfold data_id in Hids. lia. }
    apply submseteq_length in Hs. by rewrite length_seqZ in Hs.
  - destruct ids as [|id ids]; [cbn; lia|]. specialize (Hids id ltac:(by left)). unfold data_id in Hids. lia.
Qed.

Section operations.
Context (E : PageKey -> Prop) (A : PageKey -> option (list byte)) (P : Pool R D) (idx : t) (chains : list chain).
Let file := fileID idx.
Let tn := type_name idx.
Let n := nextPageID (meta idx).
Context (Hst : store_but E A P) (HT : table_in E A file tn n chains).

Let Hfile : Filepath.simple_name (fileID idx) := ti_file _ _ _ _ _ _ HT.
Let HE : forall id, 65 <= id -> ~ E (key idx id) := ti_known _ _ _ _ _ _ HT.

Lemma read_chain i c (Q : outcome (list hashEntry) -> Pool R D * t -> Prop) :
  chains !! i = Some c ->
  (forall P', store_but E A P' -> Q (Ok (chain_entries c)) (P', idx)) ->
  (forall err P', store_but E A P' -> ~ reliable -> Q (Err err) (P', idx)) ->
  triple (forEachEntry (Z.of_nat i)) (P, idx) Q.
Proof using Hst HT root_nonempty RL DL FT.
  intros Hi Hok Herr. destruct (ti_bucket _ _ _ _ _ _ HT i c Hi) as (Hd & Hs & Hc & _).
  destruct (ids_of E A file tn n chains HT i c Hi) as [Hr Hnd].
  eapply (get_head E idx Hfile A); [done|by eapply bucket_index|done|done| |done].
  intros P1 Hst1. apply triple_self. apply (chain_loop_spec E idx Hfile HE A c); auto; [apply HT|].
  pose proof (ids_length _ _ Hnd Hr) as Hl. unfold chain_ids in Hl. rewrite length_fmap in Hl. unfold chain_fuel. fold n. lia.
Qed.

Lemma drain_chain {B} i c (k : list hashEntry -> ST (Pool R D * t) B) Q :
  chains !! i = Some c ->
  (forall P' A', store_but E A' P' -> table_in E A' file tn n (<[i := [(head_id c, [])]]> chains) -> beyond file A A' ->
     triple (k (chain_entries c)) (P', idx) Q) ->
  (forall err s, Q (Err err) s) ->
  triple (es <- drainBucketChain (Z.of_nat i) ;; k es) (P, idx) Q.
Proof using Hst HT root_nonempty RL DL FT.
  intros Hi Hok Herr. destruct (ti_bucket _ _ _ _ _ _ HT i c Hi) as (Hd & Hs & Hc & Hne).
  destruct (ids_of E A file tn n chains HT i c Hi) as [Hr Hnd]. pose proof (ti_next _ _ _ _ _ _ HT) as Hn.
  apply triple_bind. eapply (get_head E idx Hfile A); [done|by eapply bucket_index|done|done| |auto].
  intros P1 Hst1. apply triple_self, triple_bind. apply (chain_loop_spec E idx Hfile HE A c); auto; [apply HT| |].
  { pose proof (ids_length _ _ Hnd Hr) as Hl. unfold chain_ids in Hl. rewrite length_fmap in Hl. unfold chain_fuel. fold n. lia. }
  intros P2 Hst2. destruct c as [|[h es] c]; [done|]. cbn [head_id] in *. rewrite chain_ids_cons in Hr, Hnd.
  pose proof (proj1 (Forall_cons _ _ _) Hr) as [Hh _]. unfold data_id in Hh.
  apply triple_bind. apply (change_page E A P2 idx h init_bucket); auto.
  { split; [done|]. change (0 <= h < 2 ^ 31). lia. }
  { intros b Hv _. destruct (init_page tn b Hv) as (b' & Hb & Hp). exists b'. split; [done|apply Hp]. }
  intros P3 b b2 _ Hv _ Hb Hst3. destruct (init_page tn b Hv) as (b' & Hb' & Hp). assert (b2 = b') as -> by congruence.
  apply triple_ret. apply (Hok P3 (put (key idx h) b' A)).
  - eapply store_weaken; [|exact Hst3]. by intros k0 [].
  - eapply (table_update E E A); eauto; [lia|apply frame_put; rewrite chain_ids_cons; set_solver| | |].
    + split; [done|]. exists b', (-1). split; [|done]. unfold put, PageStore.put. by rewrite decide_True.
    + apply NoDup_singleton.
    + intros id Hin. cbn in Hin. apply list_elem_of_singleton in Hin as ->. left. rewrite chain_ids_cons. by left.
  - eapply (frame_beyond _ [h]); [|by apply frame_put, list_elem_of_singleton]. intros id ->%list_elem_of_singleton. lia.
Qed.

Lemma table_insert {B} i c e (k : ST (Pool R D * t) B) Q :
  chains !! i = Some c -> entry_ok tn e -> n + 1 < 2 ^ 31 ->
  (forall P' A' n', store_but E A' P' -> n <= n' <= n + 1 -> table_in E A' file tn n' (<[i := chain_add e n c]> chains) ->
     beyond file A A' -> triple k (P', with_next n' idx) Q) ->
  (forall err s, Q (Err err) s) ->
  triple (insertIntoBucketChain (Z.of_nat i) e ;;; k) (P, idx) Q.
Proof using Hst HT root_nonempty RL DL FT.
  intros Hi He Hn31 Hok Herr. destruct (ti_bucket _ _ _ _ _ _ HT i c Hi) as (Hd & Hs & Hc & Hne).
  destruct (ids_of E A file tn n chains HT i c Hi) as [Hr Hnd]. pose proof (ti_next _ _ _ _ _ _ HT) as Hn.
  apply triple_bind. eapply (get_head E idx Hfile A); [done|by eapply bucket_index|done|done| |auto].
  intros P1 Hst1. apply triple_self. rewrite (encode_entry idx e He), slift_ok. cbn beta.
  apply (insert_loop_spec E idx e Hfile HE A c); auto; [lia| |].
  { pose proof (ids_length _ _ Hnd Hr) as Hl. unfold chain_ids in Hl. rewrite length_fmap in Hl. unfold chain_fuel. fold n. lia. }
  intros P' A' Hst' Hc' Hf. fold file tn n in Hc', Hf |- *.
  assert (Hb : beyond file A A').
  { eapply frame_beyond; [|exact Hf]. rewrite Forall_forall in Hr. intros id [->|Hin]%elem_of_cons; [lia|].
    specialize (Hr id Hin). unfold data_id in Hr. lia. }
  assert (Hh : head_id (chain_add e n c) = head_id c) by (destruct c as [|[id es] c]; [done|]; cbn; by case_decide).
  assert (Hne' : chain_add e n c <> []) by (destruct c as [|[id es] c]; [done|]; cbn; by case_decide).
  set (full := chain_full e c) in *. set (n' := if full then n + 1 else n).
  replace (if full then _ else idx) with (with_next n' idx)
    by (unfold n'; destruct full; [done|apply with_next_same]).
  apply (Hok P' A' n'); [done|unfold n'; destruct full; lia| |done].
  eapply (table_update E E A); eauto; [unfold n'; destruct full; lia|by rewrite Hh| |];
    rewrite chain_add_ids; fold full.
  - unfold n'. destruct full; [|by rewrite app_nil_r]. apply NoDup_app. split; [done|]. split; [|apply NoDup_singleton].
    intros id Hin ->%list_elem_of_singleton. rewrite Forall_forall in Hr. specialize (Hr n Hin). unfold data_id in Hr. lia.
  - intros id. unfold n'. destruct full; [|rewrite app_nil_r; by left].
    intros [?|Hin]%elem_of_app; [by left|]. apply list_elem_of_singleton in Hin. right. lia.
Qed.

(** [allocateDataPage], [initBucketPage] and [setBucketHeadPageID] of a new
    bucket. *)
Lemma add_bucket {B} (k : ST (Pool R D * t) B) Q :
  let i := Z.of_nat (length chains) in
  i < maxBuckets -> n + 1 < 2 ^ 31 ->
  (forall P' E' A', (forall k, E' k -> E k) -> store_but E' A' P' -> table_in E' A' file tn (n + 1) (chains ++ [[(n, [])]]) ->
     beyond file A A' -> triple k (P', with_next (n + 1) idx) Q) ->
  (forall err s, Q (Err err) s) ->
  triple (id <- allocateDataPage ;; initBucketPage id ;;; setBucketHeadPageID i id ;;; k) (P, idx) Q.
Proof using Hst HT root_nonempty RL DL FT.
  intros i Hi Hn31 Hok Herr. pose proof (ti_next _ _ _ _ _ _ HT) as Hn. pose proof (dir_bounds i) as Hdb.
  apply (new_bucket_page E A P idx); auto.
  { split; [done|]. change (0 <= n < 2 ^ 31). lia. }
  { apply HE. fold n. lia. }
  intros P1 b _ Hp Hst1. fold n. fold (with_next (n + 1) idx). change (key idx n) with (NewPageKey file n) in Hst1.
  set (A1 := put (NewPageKey file n) b A) in Hst1.
  apply (set_head E (with_next (n + 1) idx) Hfile A1); [done|lia|unfold in_sint; lia| |done].
  intros P2 A2 Hst2 Hs Hother Hf. change (fileID (with_next (n + 1) idx)) with file in *.
  assert (HnI : n <> dir_page i) by lia.
  assert (Hf2 : frame file [n; dir_page i] A A2).
  { eapply frame_trans; [apply frame_put; by left|]. eapply frame_sub; [|exact Hf]. set_solver. }
  eapply Hok; [|exact Hst2| |].
  - by intros k0 [].
  - eapply (table_snoc E _ A A2); eauto.
    + by intros k0 [].
    + lia.
    + lia.
    + by intros [Hx _].
    + intros j c Hj. destruct (ti_bucket _ _ _ _ _ _ HT j c Hj) as (Hd & Hsj & _ & _).
      pose proof (bucket_index _ _ _ _ _ _ HT j c Hj) as Hjb. apply Hother; [done| |done|].
      * apply lookup_lt_Some in Hj. lia.
      * eapply (dir_frame A A1 file _ _ [n]); [by apply frame_put; left| |done]. pose proof (dir_bounds _ Hjb).
        intros Hx%list_elem_of_singleton. lia.
    + rewrite (frame_id file [dir_page i] A1 A2 n Hf); [unfold A1, put, PageStore.put; by rewrite decide_True|].
      by intros ?%list_elem_of_singleton.
  - eapply frame_beyond; [|exact Hf2]. intros id [->|Hin]%elem_of_cons; [lia|]. apply list_elem_of_singleton in Hin. lia.
Qed.
End operations.

(** *** The meta page *)
Definition meta_ok (m : hashMeta) : Prop :=
  Forall (in_sint 32) [bucketCount m; lowmask m; highmask m; splitPointer m; maxBucket m; nextPageID m] /\
  in_sint 64 (recordCount m).

Lemma write_meta_run m b :
  valid_buf b -> meta_ok m -> exists b', write_meta m b = Ok b' /\ valid_buf b' /\ read_meta b' = Ok m.
Proof.
  intros Hv [Hs Hr]. rewrite !Forall_cons in Hs. destruct Hs as (H1 & H2 & H3 & H4 & H5 & H6 & _).
  unfold write_meta, metaMagicOff, metaVersionOff, metaBucketCountOff, metaLowmaskOff, metaHighmaskOff, metaSplitPtrOff,
    metaMaxBucketOff, metaRecordCountOff, metaNextPageIDOff, heapHeaderSize.
  put_step b1 W1. put_step b2 W2. put_step b3 W3. put_step b4 W4. put_step b5 W5. put_step b6 W6. put_step b7 W7.
  pose proof (valid_length b7 V5) as Hl7.
  destruct (put_wrote 8 (10 + 28) (uint64 (recordCount m)) b7) as (b8 & E8 & W8); [lia..|].
  unfold putU64. rewrite E8. cbn [obind]. change (Z.to_nat (10 + 28)) with 38%nat in W8.
  assert (V8 : valid_buf b8) by (eapply wrote_valid; [exact W8|lia|done]). put_step b9 W9.
  exists b9. split; [done|]. split; [done|]. pose proof (valid_length b9 V6) as Hl.
  unfold read_meta, metaMagicOff, metaVersionOff, metaBucketCountOff, metaLowmaskOff, metaHighmaskOff, metaSplitPtrOff,
    metaMaxBucketOff, metaRecordCountOff, metaNextPageIDOff, heapHeaderSize.
  rewrite !getI32_field by lia. rewrite getI64_field by lia. cbn [obind].
  repeat match goal with |- context [Z.to_nat ?x] => let n := eval vm_compute in (Z.to_nat x) in change (Z.to_nat x) with n end.
  assert (H8 : field 8 38 b9 = uint64 (recordCount m)).
  { rewrite (field_wrote_other b8 b9 46 _ 8 38 W9) by (rewrite length_be_bytes; lia).
    apply (field_wrote_same b7 b8 38 8 _ W8), (uint_range 64). lia. }
  rewrite H8. fields. change (int32 (uint32 hashMagic)) with hashMagic. change (int32 (uint32 hashVersion)) with hashVersion.
  rewrite !Z.eqb_refl. cbn [negb]. rewrite !int32_uint32 by done. rewrite sint_uint by lia. rewrite sint_id by done.
  by destruct m.
Qed.

(** ** The index *)

(** Every entry is in the bucket of its hash. *)
Definition placed (f : Z -> Z) (chains : list chain) : Prop :=
  forall i c e, chains !! i = Some c -> e ∈ chain_entries c -> f (e_hash e) = Z.of_nat i.

Lemma write_meta_page {B} E A P idx (k : ST (Pool R D * t) B) Q :
  store_but E A P -> Filepath.simple_name (fileID idx) -> meta_ok (meta idx) ->
  (forall P' b, store_but (less (key idx 0) E) (put (key idx 0) b A) P' -> read_meta b = Ok (meta idx) -> triple k (P', idx) Q) ->
  (forall err s, Q (Err err) s) ->
  triple (writeMeta ;;; k) (P, idx) Q.
Proof.
  intros Hst Hf Hm Hok Herr. apply triple_bind.
  assert (Heq : writeMeta (P, idx) = (pg <- page 0 ;; on_pool (Modify pg (write_meta (meta idx))) ;;; UpdatePage 0 pg) (P, idx)).
  { apply (page_self key 0). }
  eapply triple_eq; [exact Heq|]. apply (change_page E A P idx 0 (write_meta (meta idx))); auto.
  - split; [done|]. change (0 <= 0 < 2 ^ 31). lia.
  - intros b Hv _. destruct (write_meta_run (meta idx) b Hv Hm) as (b' & H1 & H2 & _). by exists b'.
  - intros P' b b2 _ Hv _ Hb Hst'. destruct (write_meta_run (meta idx) b Hv Hm) as (b' & H1 & _ & H3).
    assert (b2 = b') as -> by congruence. by eapply Hok.
Qed.

(** Writing the meta page leaves the table alone. *)
Lemma table_meta E A file tn n chains b :
  table_in E A file tn n chains ->
  table_in (less (NewPageKey file 0) E) (put (NewPageKey file 0) b A) file tn n chains.
Proof.
  intros HT. assert (Hf : frame file [0] A (put (NewPageKey file 0) b A)) by (apply frame_put; by left).
  split; try apply HT.
  - intros id Hid [_ He]. by eapply (ti_known _ _ _ _ _ _ HT).
  - intros i c Hi. eapply (bucket_frame E _ A _ file tn n chains HT); [by intros k []|done|exact Hf| |].
    + intros id Hd. pose proof (ids_of _ _ _ _ _ _ HT i c Hi) as [Hrd _]. rewrite Forall_forall in Hrd. specialize (Hrd id Hd).
      unfold data_id in Hrd. intros ->%list_elem_of_singleton. lia.
    + destruct (ti_bucket _ _ _ _ _ _ HT i c Hi) as (_ & Hs & _). eapply dir_frame; [exact Hf| |done].
      pose proof (bucket_index _ _ _ _ _ _ HT i c Hi) as Hb. pose proof (dir_bounds _ Hb). intros Hx%list_elem_of_singleton. lia.
Qed.

(** *** Splitting a bucket *)
Implicit Types (chains : list chain).
Lemma placed_update f chains i c' :
  placed f chains -> (forall e, e ∈ chain_entries c' -> f (e_hash e) = Z.of_nat i) -> placed f (<[i := c']> chains).
Proof.
  intros Hp Hc j d e Hj He. destruct (decide (i = j)) as [<-|Hne].
  - rewrite list_lookup_insert_eq in Hj by (apply lookup_lt_Some in Hj; by rewrite length_insert in Hj).
    injection Hj as <-. by apply Hc.
  - rewrite list_lookup_insert_ne in Hj by done. by eapply Hp.
Qed.

Lemma bucket_of chains b : 0 <= b < Z.of_nat (length chains) -> exists i c, b = Z.of_nat i /\ chains !! i = Some c.
Proof.
  intros Hb. destruct (lookup_lt_is_Some_2 chains (Z.to_nat b)) as [c Hc]; [lia|]. exists (Z.to_nat b), c. split; [lia|done].
Qed.

Lemma insert_all_spec E es : forall A P idx chains (Q : outcome unit -> Pool R D * t -> Prop),
  let n := nextPageID (meta idx) in let file := fileID idx in let tn := type_name idx in
  store_but E A P -> table_in E A file tn n chains -> Forall (entry_ok tn) es -> n + Z.of_nat (length es) < 2 ^ 31 ->
  (forall h, 0 <= computeBucket (meta idx) h < Z.of_nat (length chains)) -> placed (computeBucket (meta idx)) chains ->
  (forall P' A' n' chains', store_but E A' P' -> n <= n' -> table_in E A' file tn n' chains' ->
     length chains' = length chains -> placed (computeBucket (meta idx)) chains' ->
     all_entries chains' ≡ₚ es ++ all_entries chains -> beyond file A A' -> Q (Ok tt) (P', with_next n' idx)) ->
  (forall err s, Q (Err err) s) ->
  triple (insert_all es) (P, idx) Q.
Proof.
  induction es as [|e es IH]; intros A P idx chains Q n file tn Hst HT Hes Hn Hr Hp Hok Herr; cbn [insert_all].
  - apply triple_ret. rewrite <- (with_next_same idx). by apply (Hok P A n chains).
  - apply triple_self. apply Forall_cons in Hes as [He Hes]. cbn [length] in Hn.
    destruct (bucket_of chains _ (Hr (e_hash e))) as (i & c & Hi & Hc). rewrite Hi.
    apply (table_insert E A P idx chains Hst HT i c e); auto; [fold n; lia|].
    intros P1 A1 n1 Hst1 Hn1 HT1 Hb1. fold n file tn in Hn1, HT1, Hb1 |- *.
    set (chains1 := <[i := _]> chains) in *.
    apply (IH A1 P1 (with_next n1 idx) chains1); auto.
    + cbn. lia.
    + unfold chains1. rewrite length_insert. apply Hr.
    + apply placed_update; [done|]. intros e' He'. rewrite chain_add_entries in He'.
      apply elem_of_cons in He' as [->|He']; [done|]. by eapply Hp.
    + intros P2 A2 n2 chains2 Hst2 Hn2 HT2 Hl2 Hp2 Hperm Hb2. change (nextPageID (meta (with_next n1 idx))) with n1 in Hn2.
      apply (Hok P2 A2 n2 chains2); [done|lia|done| |done| |by eapply beyond_trans].
      * rewrite Hl2. unfold chains1. by rewrite length_insert.
      * rewrite Hperm. unfold chains1, all_entries. destruct (concat_insert chain_entries chains i c Hc) as (rest & H1 & H2).
        rewrite H1, H2, chain_add_entries. rewrite <- !app_comm_cons. symmetry. apply Permutation_middle.
Qed.

(** What [performSplit] keeps, of [hash_in]. *)
Record index_in E A (idx : t) (chains : list chain) : Prop := {
  ii_table : table_in E A (fileID idx) (type_name idx) (nextPageID (meta idx)) chains;
  ii_linear : exists k, linear k (meta idx);
  ii_len : Z.of_nat (length chains) = bucketCount (meta idx);
  ii_placed : placed (computeBucket (meta idx)) chains;
  ii_count : recordCount (meta idx) = Z.of_nat (length (all_entries chains))
}.

Definition meta_in E A (idx : t) : Prop := ~ E (key idx 0) /\ exists b, A (key idx 0) = Some b /\ read_meta b = Ok (meta idx).

Lemma beyond_elsewhere file A A' : beyond file A A' -> elsewhere file A A'.
Proof. intros Hb k Hk. apply Hb. by left. Qed.

Lemma linear_meta k m :
  linear k m -> in_sint 32 (nextPageID m) -> in_sint 64 (recordCount m) -> meta_ok m.
Proof.
  intros HL Hn Hr. pose proof (linear_max k m HL). destruct HL as [Hk Hl Hs Hm Hh Hc]. pose proof (pow_bound k Hk). pose proof (pow_succ k ltac:(lia)).
  split; [|done]. unfold in_sint in *. repeat apply Forall_cons_2; [lia..| | |lia|done|apply Forall_nil_2]; try lia. rewrite Hh. case_decide; lia.
Qed.

Lemma grown_meta k m :
  linear k m -> in_sint 32 (nextPageID m) -> in_sint 64 (recordCount m) -> meta_ok (grown m).
Proof.
  intros HL Hn Hr. pose proof (grown_max k m HL) as Hgm. pose proof (grown_high k m HL) as Hgh. pose proof (linear_max k m HL).
  destruct HL as [Hk Hl Hs Hm Hh Hc]. pose proof (pow_bound k Hk). pose proof (pow_succ k ltac:(lia)).
  split; [|done]. unfold in_sint in *. rewrite Hgm, Hgh.
  assert (Hb : bucketCount (grown m) = maxBucket m + 2).
  { change (bucketCount (grown m)) with (int32 (maxBucket (grown m) + 1)). rewrite Hgm, int32_fits; lia. }
  rewrite Hb. repeat apply Forall_cons_2; try apply Forall_nil_2; cbn; lia.
Qed.

Lemma linear_next k m n : linear k m -> linear k (with_nextPageID n m).
Proof. by intros []. Qed.

(** The entries outside the split bucket are in place for one more bucket. *)
Lemma split_placed k m chains c' id :
  linear k m -> Z.of_nat (length chains) = maxBucket m + 1 -> placed (computeBucket m) chains -> chain_entries c' = [] ->
  placed (computeBucket (grown m)) (<[Z.to_nat (splitPointer m) := c']> (chains ++ [[(id, [])]])).
Proof.
  intros HL Hlen Hp Hc. pose proof HL as [Hk Hl Hs Hm Hh Hct]. intros j d e Hj He.
  destruct (decide (Z.to_nat (splitPointer m) = j)) as [<-|Hne].
  - rewrite list_lookup_insert_eq in Hj by (rewrite length_app; cbn [length]; pose proof (pow_bound k Hk); lia).
    injection Hj as <-. rewrite Hc in He. by apply elem_of_nil in He.
  - rewrite list_lookup_insert_ne in Hj by done. apply lookup_app_Some in Hj as [Hj|[_ Hj]].
    + specialize (Hp j d e Hj He). rewrite (computeBucket_address k m _ HL) in Hp. rewrite (grown_address k m HL), Hm in *.
      replace (2 ^ k - 1 + splitPointer m + 1) with (2 ^ k + splitPointer m) by lia.
      destruct (address_grow k (splitPointer m) (e_hash e)) as [->|[H1 _]]; [lia|lia|done|]. lia.
    + apply list_lookup_singleton_Some in Hj as [_ <-]. by apply elem_of_nil in He.
Qed.

(** Draining the split bucket and adding one leaves the other entries. *)
Lemma split_entries chains s c h id :
  chains !! s = Some c ->
  chain_entries c ++ all_entries (<[s := [(h, [])]]> (chains ++ [[(id, [])]])) ≡ₚ all_entries chains.
Proof.
  intros Hs. assert (Hs' : (chains ++ [[(id, [])]]) !! s = Some c) by by apply lookup_app_l_Some.
  destruct (concat_insert chain_entries _ s c Hs') as (rest & H1 & H2). unfold all_entries. rewrite H2. cbn. rewrite <- H1.
  rewrite fmap_app, concat_app. cbn. by rewrite app_nil_r.
Qed.

Lemma entries_ok E A file tn n chains i c :
  table_in E A file tn n chains -> chains !! i = Some c -> Forall (entry_ok tn) (chain_entries c).
Proof.
  intros HT Hi. destruct (ti_bucket _ _ _ _ _ _ HT i c Hi) as (_ & _ & Hc & _). clear Hi. revert Hc. generalize (head_id c).
  induction c as [|[id es] c IH]; intros h Hc; [constructor|]. destruct Hc as [_ (b & next & _ & Hp & Hc)].
  change (chain_entries ((id, es) :: c)) with (es ++ chain_entries c). apply Forall_app. split; [apply Hp|by eapply IH].
Qed.

Lemma entries_le chains i c : chains !! i = Some c -> (length (chain_entries c) <= length (all_entries chains))%nat.
Proof.
  intros Hi. destruct (concat_insert chain_entries chains i c Hi) as (rest & H1 & _). unfold all_entries.
  rewrite H1, length_app. lia.
Qed.

Lemma few_buckets k m : linear k m -> bucketCount m < maxBuckets -> k < 27.
Proof.
  intros HL Hc. change maxBuckets with 130880 in Hc. destruct HL as [Hk Hl Hs Hm Hh Hct].
  destruct (Z.lt_ge_cases k 27); [done|]. assert (2 ^ 27 <= 2 ^ k) by (apply Z.pow_le_mono_r; lia). lia.
Qed.

Lemma grown_count k m : linear k m -> bucketCount (grown m) = bucketCount m + 1.
Proof.
  intros HL. change (bucketCount (grown m)) with (int32 (maxBucket (grown m) + 1)). pose proof (linear_max k m HL).
  rewrite (grown_max k m HL), (lin_count _ _ HL), int32_fits; lia.
Qed.

(** The end of [performSplit], when the entries have been moved. *)
Lemma split_finish E A P idx k n m' chains chains' (Q : outcome unit -> Pool R D * t -> Prop) :
  let idx' := with_next n (with_meta (grown m') idx) in
  linear k m' -> k < 27 -> Z.of_nat (length chains) = bucketCount m' -> in_sint 64 (recordCount m') ->
  recordCount m' = Z.of_nat (length (all_entries chains)) ->
  store_but E A P -> table_in E A (fileID idx) (type_name idx) n chains' ->
  length chains' = S (length chains) -> placed (computeBucket (grown m')) chains' ->
  all_entries chains' ≡ₚ all_entries chains ->
  (forall P' b m2, let A' := put (key idx 0) b A in store_but (less (key idx 0) E) A' P' ->
     index_in (less (key idx 0) E) A' (with_meta m2 idx) chains' -> meta_in (less (key idx 0) E) A' (with_meta m2 idx) ->
     bucketCount m2 = bucketCount m' + 1 -> recordCount m2 = recordCount m' -> Q (Ok tt) (P', with_meta m2 idx)) ->
  (forall err s, Q (Err err) s) ->
  triple (i <- self ;; set_meta (advanced (meta i)) ;;; writeMeta) (P, idx') Q.
Proof.
  intros idx' HL Hk27 Hlen Hrc Hcount Hst HT Hlen' Hp Hperm Hok Herr.
  apply triple_self, triple_bind, triple_modify. cbn beta iota. cbn [fst snd].
  destruct (advanced_linear k m' HL Hk27) as [k' HLa].
  set (m2 := advanced (meta idx')). assert (HL' : linear k' m2) by (apply (linear_next k' _ n HLa)).
  change (with_meta m2 idx') with (with_meta m2 idx). pose proof (ti_next _ _ _ _ _ _ HT) as Hn.
  apply triple_eq with (writeMeta ;;; sret tt).
  { unfold sbind. by destruct (writeMeta _) as [[[]|e|] s]. }
  assert (Hmok : meta_ok m2) by (apply (linear_meta k'); [done|unfold in_sint; change (nextPageID m2) with n; lia|done]).
  apply (write_meta_page E A P (with_meta m2 idx)); [done|apply HT|done| |auto].
  intros P' b Hst' Hread. apply triple_ret.
  assert (Hbc : bucketCount m2 = bucketCount m' + 1) by exact (grown_count k m' HL).
  apply (Hok P' b m2); [exact Hst'| | |done|done].
  - split; [exact (table_meta E A _ _ _ _ b HT)|by exists k'| | |].
    + change (meta (with_meta m2 idx)) with m2. lia.
    + intros i d e Hi He. change (meta (with_meta m2 idx)) with m2.
      assert (Heq : computeBucket m2 (e_hash e) = computeBucket (grown m') (e_hash e)).
      { change (computeBucket m2 (e_hash e)) with (computeBucket (advanced (grown m')) (e_hash e)).
        by rewrite (advanced_address k m' HL), (grown_address k m' HL). }
      rewrite Heq. by eapply Hp.
    + change (recordCount (meta (with_meta m2 idx))) with (recordCount m'). by rewrite Hcount, Hperm.
  - split; [by intros [? _]|]. exists b. split; [unfold put, PageStore.put; by rewrite decide_True|done].
Qed.

(** With room for a bucket and for pages, the split bucket is divided between
    itself and the new one. *)
Lemma performSplit_spec E A P idx chains (Q : outcome unit -> Pool R D * t -> Prop) :
  store_but E A P -> index_in E A idx chains -> bucketCount (meta idx) < maxBuckets ->
  nextPageID (meta idx) + recordCount (meta idx) + 1 < 2 ^ 31 ->
  (forall P' E' A' m' chains', (forall k, E' k -> E k) -> store_but E' A' P' ->
     index_in E' A' (with_meta m' idx) chains' -> meta_in E' A' (with_meta m' idx) ->
     bucketCount m' = bucketCount (meta idx) + 1 -> recordCount m' = recordCount (meta idx) ->
     all_entries chains' ≡ₚ all_entries chains -> elsewhere (fileID idx) A A' -> Q (Ok tt) (P', with_meta m' idx)) ->
  (forall err s, Q (Err err) s) ->
  triple performSplit (P, idx) Q.
Proof.
  intros Hst [HT [k HL] Hlen Hp Hcount] Hlim Hn Hok Herr.
  set (n := nextPageID (meta idx)) in *. set (m := meta idx) in *. pose proof (few_buckets k m HL Hlim) as Hk27.
  pose proof (ti_next _ _ _ _ _ _ HT) as Hn65. pose proof (linear_max k m HL) as HmB.
  assert (Hlen' : Z.of_nat (length chains) = maxBucket m + 1) by (rewrite Hlen; apply HL).
  assert (Hrc : in_sint 64 (recordCount m)) by (unfold in_sint; lia).
  pose proof (lin_k _ _ HL) as Hk. pose proof (lin_split _ _ HL) as Hs. pose proof (lin_max _ _ HL) as Hm.
  unfold performSplit. apply triple_self. fold m. cbv zeta. rewrite int32_fits by lia. rewrite <- Hlen'.
  apply (add_bucket E A P idx chains Hst HT); [lia|fold m n; lia| |auto].
  intros P1 E1 A1 HE1 Hst1 HT1 Hb1. fold m n in HT1 |- *. set (chains1 := chains ++ _) in HT1. set (m1 := with_nextPageID (n + 1) m).
  apply triple_self, triple_bind, triple_modify. cbn beta iota. cbn [fst snd]. set (idx2 := with_meta (grown m1) idx).
  change (with_meta _ _) with idx2. pose proof (linear_next k m (n + 1) HL) as HL1.
  apply (write_meta_page E1 A1 P1 idx2); [done|apply HT1| | |auto].
  { apply (grown_meta k); [done| |done]. unfold in_sint. cbn. lia. }
  intros P2 b2 Hst2 _. set (E2 := less (key idx2 0) E1) in Hst2. pose proof (table_meta E1 A1 _ _ _ _ b2 HT1) as HT2.
  destruct (bucket_of chains (splitPointer m)) as (s & c & Es & Hc); [lia|]. rewrite Es.
  assert (Hc1 : chains1 !! s = Some c) by by apply lookup_app_l_Some.
  apply (drain_chain _ _ P2 idx2 chains1 Hst2 HT2 _ c); [done| |auto].
  intros P3 A3 Hst3 HT3 Hb3. set (chains3 := <[_ := _]> chains1) in HT3.
  apply triple_bind. apply (insert_all_spec E2 (chain_entries c) A3 P3 idx2 chains3); [done|done| | | | | |auto].
  { exact (entries_ok _ _ _ _ _ _ _ _ HT Hc). }
  { change (nextPageID (meta idx2)) with (n + 1). pose proof (entries_le chains _ c Hc). lia. }
  { intros h. unfold chains3, chains1. rewrite length_insert, length_app. cbn [length]. change (computeBucket (meta idx2) h) with (computeBucket (grown m) h).
    rewrite (grown_address k m HL). pose proof (address_range k (maxBucket m + 1) h). lia. }
  { change (computeBucket (meta idx2)) with (computeBucket (grown m)). unfold chains3. replace s with (Z.to_nat (splitPointer m)) by lia. by eapply split_placed. }
  intros P4 A4 n4 chains4 Hst4 Hn4 HT4 Hl4 Hp4 Hperm Hb4.
  apply (split_finish E2 A4 P4 idx k n4 m1 chains chains4); auto.
  - rewrite Hl4. unfold chains3, chains1. rewrite length_insert, length_app. cbn [length]. lia.
  - rewrite Hperm. by apply split_entries.
  - intros P5 b5 m2 A5 Hst5 HI HM Hbc Hrc2. apply (Hok P5 (less (key idx 0) E2) A5 m2 chains4); auto.
    + intros k0 (_ & _ & He). by apply HE1.
    + rewrite Hperm. by apply split_entries.
    + eapply elsewhere_trans; [by apply beyond_elsewhere|]. eapply elsewhere_trans; [apply (elsewhere_page (key idx 0) b2)|].
      eapply elsewhere_trans; [apply beyond_elsewhere, Hb3|]. eapply elsewhere_trans; [apply beyond_elsewhere, Hb4|]. apply (elsewhere_page (key idx 0)).
Qed.

(** *** Inserting and searching *)

(** The store holds the hash index [idx] with these entries: they are in the
    chains of their buckets, at most 48 per bucket on average, and the meta
    page is up to date. *)
Definition holds E A (idx : t) (entries : list hashEntry) : Prop :=
  exists chains, index_in E A idx chains /\ recordCount (meta idx) <= 48 * bucketCount (meta idx) /\
    meta_in E A idx /\ entries ≡ₚ all_entries chains.

Lemma overloaded_spec k m :
  linear k m -> bucketCount m <= maxBuckets -> overloaded m = (48 * bucketCount m <? recordCount m).
Proof.
  intros HL Hb. change maxBuckets with 130880 in Hb. pose proof (linear_max k m HL). pose proof (lin_count _ _ HL) as Hc.
  unfold overloaded, targetBucketEntries. rewrite (proj2 (Z.eqb_neq _ _)) by lia. rewrite int32_fits by lia.
  rewrite (proj2 (Z.ltb_lt _ _)) by lia. destruct (Z.ltb_spec (48 * bucketCount m) (recordCount m)); [apply Z.ltb_lt|apply Z.ltb_ge]; lia.
Qed.

(** After an insertion one split is enough. *)
Lemma split_loop_spec E A P idx chains fuel (Q : outcome unit -> Pool R D * t -> Prop) :
  store_but E A P -> index_in E A idx chains -> meta_in E A idx -> bucketCount (meta idx) < maxBuckets ->
  nextPageID (meta idx) + recordCount (meta idx) + 1 < 2 ^ 31 -> recordCount (meta idx) <= 48 * bucketCount (meta idx) + 1 ->
  (1 <= fuel)%nat ->
  (forall P' E' A' m', (forall k, E' k -> E k) -> store_but E' A' P' -> holds E' A' (with_meta m' idx) (all_entries chains) ->
     bucketCount (meta idx) <= bucketCount m' <= bucketCount (meta idx) + 1 -> recordCount m' = recordCount (meta idx) ->
     elsewhere (fileID idx) A A' -> Q (Ok tt) (P', with_meta m' idx)) ->
  (forall err s, Q (Err err) s) ->
  triple (split_loop fuel) (P, idx) Q.
Proof.
  intros Hst HI HM Hb Hn Hload Hfuel Hok Herr. destruct fuel as [|fuel]; [lia|]. cbn [split_loop]. apply triple_self.
  pose proof (ii_linear _ _ _ _ HI) as [k HL]. rewrite (overloaded_spec k) by (done || lia).
  destruct (Z.ltb_spec (48 * bucketCount (meta idx)) (recordCount (meta idx))) as [Hov|Hov].
  - apply triple_bind. apply (performSplit_spec E A P idx chains); auto.
    intros P' E' A' m' chains' HE' Hst' HI' HM' Hbc Hrc Hperm Hel.
    assert (Hload' : recordCount m' <= 48 * bucketCount m') by lia.
    destruct (ii_linear _ _ _ _ HI') as [k' HL']. change (meta (with_meta m' idx)) with m' in HL'.
    assert (Hno : overloaded m' = false) by (rewrite (overloaded_spec k') by (done || lia); apply Z.ltb_ge; lia).
    destruct fuel; cbn [split_loop]; apply triple_self; change (meta (with_meta m' idx)) with m'; rewrite Hno; apply triple_ret;
      (eapply Hok; [done|done| |lia|lia|done]; by exists chains').
  - apply triple_ret. replace idx with (with_meta (meta idx) idx) by by destruct idx.
    eapply Hok; [done|done| |lia|done|done]. exists chains. by destruct idx.
Qed.

Lemma with_count_linear k m n : linear k m -> linear k (with_recordCount n m).
Proof. by intros []. Qed.

Lemma Insert_run E A P idx entries k tid (Q : outcome unit -> Pool R D * t -> Prop) :
  let e := {| e_hash := hashFunction k; e_key := k; e_tid := tid |} in
  store_but E A P -> holds E A idx entries -> key_ok (type_name idx) k -> tid_ok tid ->
  bucketCount (meta idx) < maxBuckets -> nextPageID (meta idx) + recordCount (meta idx) + 3 < 2 ^ 31 ->
  (forall P' E' A' m', (forall k, E' k -> E k) -> store_but E' A' P' -> holds E' A' (with_meta m' idx) (e :: entries) ->
     bucketCount (meta idx) <= bucketCount m' <= bucketCount (meta idx) + 1 ->
     elsewhere (fileID idx) A A' -> Q (Ok tt) (P', with_meta m' idx)) ->
  (forall err s, Q (Err err) s) ->
  triple (Insert k tid) (P, idx) Q.
Proof.
  intros e Hst (chains & [HT [kk HL] Hlen Hp Hcount] & Hload & HM & Hent) Hk Htid Hb Hn Hok Herr.
  pose proof (ti_next _ _ _ _ _ _ HT) as Hn65. unfold Insert. apply triple_self. cbv zeta. fold e.
  assert (He : entry_ok (type_name idx) e) by done.
  destruct (bucket_of chains (computeBucket (meta idx) (hashFunction k))) as (i & c & Hi & Hc).
  { rewrite (computeBucket_address kk _ _ HL), Hlen, (lin_count _ _ HL).
    pose proof (address_range kk (maxBucket (meta idx)) (hashFunction k)). destruct HL. lia. }
  rewrite Hi. apply (table_insert E A P idx chains Hst HT i c e); auto; [lia|].
  intros P1 A1 n1 Hst1 Hn1 HT1 Hb1. apply triple_self, triple_bind, triple_modify. cbn beta iota. cbn [fst snd].
  change (meta (with_next n1 idx)) with (with_nextPageID n1 (meta idx)). set (m1 := with_recordCount _ _).
  change (with_meta m1 (with_next n1 idx)) with (with_meta m1 idx). set (idx1 := with_meta m1 idx).
  pose proof (ti_next _ _ _ _ _ _ HT1) as Hn1'.
  assert (Hrc : recordCount m1 = recordCount (meta idx) + 1) by (apply sint_id; [lia|]; unfold in_sint; cbn; lia).
  assert (HL1 : linear kk m1) by by apply with_count_linear, linear_next.
  apply (write_meta_page E A1 P1 idx1); [done|apply HT| | |auto].
  { apply (linear_meta kk); [done|unfold in_sint; cbn; lia|]. change (meta idx1) with m1. rewrite Hrc. unfold in_sint. lia. }
  intros P2 b2 Hst2 Hread. pose proof (table_meta E A1 _ _ _ _ b2 HT1) as HT2.
  destruct (concat_insert chain_entries chains i c Hc) as (rest & H1 & H2).
  set (chains1 := <[i := _]> chains) in *.
  assert (Hperm : all_entries chains1 ≡ₚ e :: entries).
  { rewrite Hent. unfold all_entries, chains1. by rewrite H2, chain_add_entries, H1. }
  apply (split_loop_spec (less (key idx 0) E) (put (key idx 0) b2 A1) P2 idx1 chains1); auto.
  - split; [exact HT2|by exists kk| | |].
    + change (bucketCount (meta idx1)) with (bucketCount (meta idx)). unfold chains1. by rewrite length_insert.
    + change (computeBucket (meta idx1)) with (computeBucket (meta idx)). apply placed_update; [done|].
      intros e' He'. rewrite chain_add_entries in He'. apply elem_of_cons in He' as [->|He']; [done|by eapply Hp].
    + change (recordCount (meta idx1)) with (recordCount m1). rewrite Hrc, Hperm, Hcount, Hent. cbn [length]. lia.
  - split; [by intros [? _]|]. exists b2. split; [unfold put, PageStore.put; by rewrite decide_True|done].
  - change (nextPageID (meta idx1)) with n1. change (recordCount (meta idx1)) with (recordCount m1). lia.
  - change (recordCount (meta idx1)) with (recordCount m1). change (bucketCount (meta idx1)) with (bucketCount (meta idx)). lia.
  - cbn. lia.
  - intros P3 E3 A3 m3 HE3 Hst3 (chains3 & HI3 & Hl3 & HM3 & Hp3) Hbc3 _ Hel3. change (with_meta m3 idx1) with (with_meta m3 idx) in *.
    apply (Hok P3 E3 A3 m3); [|done| |done|].
    + intros k0 Hk0. by apply HE3.
    + exists chains3. split; [done|]. split; [done|]. split; [done|]. by rewrite <- Hp3.
    + eapply elsewhere_trans; [by apply beyond_elsewhere|]. eapply elsewhere_trans; [apply (elsewhere_page (key idx 0) b2)|exact Hel3].
Qed.

Lemma cmp3_zero lt gt : (0 =? cmp3 lt gt) = negb lt && negb gt.
Proof. by destruct lt, gt. Qed.

Lemma compare_key idx k k' :
  key_kind (type_name idx) k -> key_kind (type_name idx) k' ->
  ofmap (Z.eqb 0) (compareKeys idx k k') = Ok (bool_decide (k' = k)).
Proof.
  unfold type_name, compareKeys. intros Hk Hk'. destruct k as [|x|x|x], k' as [|y|y|y]; try done.
  - cbn in Hk. rewrite Hk, decide_True by done. cbn [as_int64 obind ofmap]. rewrite cmp3_zero. f_equal.
    destruct (Z.ltb_spec x y), (Z.ltb_spec y x); symmetry; cbn [negb andb];
      first [apply bool_decide_eq_true_2; f_equal; lia|apply bool_decide_eq_false_2; intros [=]; lia].
  - cbn in Hk, Hk'. congruence.
  - cbn in Hk, Hk'. congruence.
  - cbn in Hk. rewrite Hk, decide_False, decide_True by done. cbn [as_string obind ofmap]. rewrite cmp3_zero. f_equal.
    destruct (string_lt x y) eqn:E1, (string_lt y x) eqn:E2; symmetry; cbn [negb andb];
      first [apply bool_decide_eq_true_2; f_equal; symmetry; by apply string_lt_total|
             apply bool_decide_eq_false_2; intros [= ->]; by rewrite string_lt_irrefl in *].
Qed.

Lemma matching_spec idx k es :
  key_kind (type_name idx) k -> Forall (entry_ok (type_name idx)) es ->
  matching idx k (hashFunction k) es = Ok (e_tid <$> filter (fun e => e_key e = k) es).
Proof.
  intros Hk. induction 1 as [|e es He _ IH]; [done|]. cbn [matching]. rewrite filter_cons.
  destruct He as [Hh Hke _]. destruct (Z.eqb_spec (e_hash e) (hashFunction k)) as [Eh|Eh].
  - rewrite (compare_key idx k _ Hk (hash_key_kind _ _ Hke)). cbn [obind]. rewrite IH. cbn [obind]. by case_bool_decide; case_decide.
  - cbn [obind]. rewrite IH. cbn [obind]. rewrite decide_False; [done|]. intros Ek. by rewrite Hh, Ek in Eh.
Qed.

Lemma elem_of_entries chains e : e ∈ all_entries chains <-> exists c, c ∈ chains /\ e ∈ chain_entries c.
Proof.
  unfold all_entries. induction chains as [|c l IH]; cbn.
  - split; [by intros ?%elem_of_nil|]. by intros (c & ?%elem_of_nil & _).
  - rewrite elem_of_app, IH. setoid_rewrite elem_of_cons. naive_solver.
Qed.

(** Only the bucket of the key has its entries. *)
Lemma placed_filter f chains i c k :
  placed f chains -> chains !! i = Some c -> f (hashFunction k) = Z.of_nat i ->
  (forall e, e ∈ all_entries chains -> e_hash e = hashFunction (e_key e)) ->
  filter (fun e => e_key e = k) (all_entries chains) = filter (fun e => e_key e = k) (chain_entries c).
Proof.
  intros Hp Hc Hi Hh. unfold all_entries.
  assert (Hother : forall j d e, chains !! j = Some d -> j <> i -> e ∈ chain_entries d -> e_hash e = hashFunction (e_key e) -> e_key e <> k).
  { intros j d e Hj Hne He Heh Ek. specialize (Hp j d e Hj He). rewrite Heh, Ek, Hi in Hp. lia. }
  assert (Hnone : forall l, (forall d, d ∈ l -> exists j, chains !! j = Some d /\ j <> i) ->
    filter (fun e => e_key e = k) (concat (chain_entries <$> l)) = []).
  { intros l Hl. apply filter_none. intros e (d & Hd & He)%elem_of_entries.
    destruct (Hl d Hd) as (j & Hj & Hne). apply (Hother j d); [done..|]. apply Hh, elem_of_entries.
    exists d. split; [by eapply list_elem_of_lookup_2|done]. }
  rewrite <- (take_drop_middle chains i c Hc) at 1. rewrite fmap_app, concat_app, filter_app.
  rewrite Hnone; [|intros d (j & Hj)%list_elem_of_lookup; apply lookup_take_Some in Hj as [Hj Hlt]; exists j; split; [done|lia]].
  cbn. rewrite filter_app, Hnone; [by rewrite app_nil_r|].
  intros d (j & Hj)%list_elem_of_lookup. rewrite lookup_drop in Hj. exists (S i + j)%nat. split; [done|lia].
Qed.

Lemma Search_run E A P idx entries k (Q : outcome (list TID) -> Pool R D * t -> Prop) :
  store_but E A P -> holds E A idx entries -> key_kind (type_name idx) k ->
  (forall P' tids, store_but E A P' -> tids ≡ₚ e_tid <$> filter (fun e => e_key e = k) entries -> Q (Ok tids) (P', idx)) ->
  (forall err P', store_but E A P' -> ~ reliable -> Q (Err err) (P', idx)) ->
  triple (Search k) (P, idx) Q.
Proof.
  intros Hst (chains & [HT [kk HL] Hlen Hp Hcount] & Hload & HM & Hent) Hk Hok Herr. unfold Search. apply triple_self. cbv zeta.
  destruct (bucket_of chains (computeBucket (meta idx) (hashFunction k))) as (i & c & Hi & Hc).
  { rewrite (computeBucket_address kk _ _ HL), Hlen, (lin_count _ _ HL).
    pose proof (address_range kk (maxBucket (meta idx)) (hashFunction k)). destruct HL. lia. }
  rewrite Hi. apply triple_bind. apply (read_chain E A P idx chains Hst HT i c); [done| |auto].
  intros P' Hst'. rewrite matching_spec; [|done|by eapply entries_ok]. apply (triple_ret _ (P', idx)). apply Hok; [done|].
  rewrite Hent. rewrite (placed_filter _ chains i c k Hp Hc Hi); [done|].
  intros e (d & (j & Hj)%list_elem_of_lookup & He)%elem_of_entries.
  pose proof (entries_ok _ _ _ _ _ _ _ _ HT Hj) as Hd. rewrite Forall_forall in Hd. by apply Hd.
Qed.

Lemma loadMeta_run E A P idx m (Q : outcome unit -> Pool R D * t -> Prop) :
  store_but E A P -> Filepath.simple_name (fileID idx) -> meta_in E A idx ->
  (forall P', store_but E A P' -> Q (Ok tt) (P', idx)) -> (forall err s, Q (Err err) s) ->
  triple loadMeta (P, with_meta m idx) Q.
Proof.
  intros Hst Hf (HE & b & HA & Hb) Hok Herr. unfold loadMeta.
  apply (read_page E A P (with_meta m idx) 0 b); auto; [split; [done|]; change (0 <= 0 < 2 ^ 31); lia|].
  intros P' pg ref Hst' _. rewrite Hb, slift_ok. cbn beta. apply triple_modify. cbn [fst snd].
  replace (with_meta (meta idx) (with_meta m idx)) with idx by by destruct idx. by apply Hok.
Qed.

(** *** A new index *)
Lemma new_pages_spec E A P idx i cnt (Q : outcome unit -> Pool R D * t -> Prop) :
  store_but E A P -> Filepath.simple_name (fileID idx) -> 0 <= i -> i + Z.of_nat cnt < 2 ^ 31 ->
  (forall P' E', (forall k, E' k -> E k \/ FileID k = fileID idx /\ i <= PageID k < i + Z.of_nat cnt) ->
     store_but E' A P' -> Q (Ok tt) (P', idx)) ->
  (forall err s, Q (Err err) s) ->
  triple (new_pages i cnt) (P, idx) Q.
Proof.
  intros Hst Hf. revert E P i Hst Q. induction cnt as [|cnt IH]; intros E P i Hst Q Hi Hn Hok Herr; cbn [new_pages].
  - apply triple_ret. apply (Hok P E); [by left|done].
  - apply triple_bind. unfold newPage. apply triple_self. eapply triple_eq; [apply on_pool_seq|]. apply triple_pool.
    eapply triple_mono; [apply (new_page root0 root_nonempty E A P (key idx i)); [done|]|].
    { split; [done|]. change (0 <= i < 2 ^ 31). lia. }
    intros r P1 Hnp [_ Hst1]. destruct r as [[]|e|]; [|by apply Herr|done].
    apply (IH _ P1 (i + 1) Hst1); [lia|lia| |done]. intros P2 E2 HE2 Hst2. apply (Hok P2 E2); [|done].
    intros k Hk. destruct (HE2 k Hk) as [[->|?]|[? ?]]; [right; cbn; split; [done|lia]|by left|right; split; [done|lia]].
Qed.

(** The chains of [cnt] new buckets, from page [n] on. *)
Fixpoint fresh (n : Z) (cnt : nat) : list chain :=
  match cnt with
  | O => []
  | S cnt => [(n, [])] :: fresh (n + 1) cnt
  end.

Lemma new_buckets_spec cnt : forall E A P idx chains (Q : outcome unit -> Pool R D * t -> Prop),
  let n := nextPageID (meta idx) in let file := fileID idx in let tn := type_name idx in
  store_but E A P -> table_in E A file tn n chains -> Z.of_nat (length chains) + Z.of_nat cnt <= maxBuckets ->
  n + Z.of_nat cnt < 2 ^ 31 ->
  (forall P' E' A', (forall k, E' k -> E k) -> store_but E' A' P' ->
     table_in E' A' file tn (n + Z.of_nat cnt) (chains ++ fresh n cnt) -> beyond file A A' ->
     Q (Ok tt) (P', with_next (n + Z.of_nat cnt) idx)) ->
  (forall err s, Q (Err err) s) ->
  triple (new_buckets (Z.of_nat (length chains)) cnt) (P, idx) Q.
Proof.
  induction cnt as [|cnt IH]; intros E A P idx chains Q n file tn Hst HT Hlen Hn Hok Herr; cbn [new_buckets].
  - apply triple_ret. rewrite <- (with_next_same idx). fold n. replace n with (n + Z.of_nat 0) at 1 by lia. apply (Hok P E A); [done|done| |done].
    cbn [fresh]. rewrite app_nil_r. by replace (n + Z.of_nat 0) with n by lia.
  - apply (add_bucket E A P idx chains Hst HT); [lia|fold n; lia| |auto].
    intros P1 E1 A1 HE1 Hst1 HT1 Hb1. fold n file tn in HT1, Hb1 |- *.
    replace (Z.of_nat (length chains) + 1) with (Z.of_nat (length (chains ++ [[(n, [])]]))) by len.
    apply (IH E1 A1 P1 (with_next (n + 1) idx)); [done|done|rewrite length_app; cbn [length]; lia|cbn; lia| |done].
    change (nextPageID (meta (with_next (n + 1) idx))) with (n + 1). intros P2 E2 A2 HE2 Hst2 HT2 Hb2.
    rewrite <- app_assoc in HT2. replace (n + 1 + Z.of_nat cnt) with (n + Z.of_nat (S cnt)) in * by lia.
    apply (Hok P2 E2 A2); [by auto|done|exact HT2|by eapply beyond_trans].
Qed.

Lemma linear_initial : linear 4 (with_nextPageID 81 initial_meta).
Proof. by split; cbn. Qed.

(** [initializeNew] makes an empty index in a file that has no data page that
    is being changed. *)
Lemma initializeNew_run E A P idx (Q : outcome unit -> Pool R D * t -> Prop) :
  store_but E A P -> Filepath.simple_name (fileID idx) -> (forall id, 65 <= id -> ~ E (key idx id)) ->
  (forall P' E' A', store_but E' A' P' -> (forall k, E' k -> E k \/ FileID k = fileID idx) ->
     holds E' A' (with_meta (with_nextPageID 81 initial_meta) idx) [] -> elsewhere (fileID idx) A A' ->
     Q (Ok tt) (P', with_meta (with_nextPageID 81 initial_meta) idx)) ->
  (forall err s, Q (Err err) s) ->
  triple initializeNew (P, idx) Q.
Proof.
  intros Hst Hf HE Hok Herr. unfold initializeNew.
  assert (Hnew : triple (newPage 0 ;;; new_pages 1 (Z.to_nat dirPages)) (P, idx) (fun r s => forall u, r = Ok u -> exists E' P', s = (P', idx) /\
    store_but E' A P' /\ (forall k, E' k -> E k \/ FileID k = fileID idx /\ 0 <= PageID k < 65))).
  { change (sbind (newPage 0) _) with (new_pages (R:=R) (D:=D) 0 65). apply (new_pages_spec E A P idx 0 65); [done|done|lia|lia| |done].
    intros P' E' HE' Hst' u _. exists E', P'. split; [done|]. split; [done|]. intros k Hk. destruct (HE' k Hk) as [?|[? ?]]; [by left|right; split; [done|lia]]. }
  apply triple_eq with ((newPage 0 ;;; new_pages 1 (Z.to_nat dirPages)) ;;;
    set_meta initial_meta ;;; new_buckets 0 (Z.to_nat initialBuckets) ;;; writeMeta).
  { unfold sbind. by destruct (newPage 0 (P, idx)) as [[[]|e|] s]. }
  apply triple_bind. eapply triple_mono; [exact Hnew|]. intros [u|e|] s Hnp Hs; [|by apply Herr|done].
  destruct (Hs u eq_refl) as (E1 & P1 & -> & Hst1 & HE1). clear Hs Hnew.
  apply triple_bind, triple_modify. cbn beta iota. cbn [fst snd]. set (idx1 := with_meta initial_meta idx).
  assert (HT0 : table_in E1 A (fileID idx) (type_name idx) 65 []).
  { split; [done| |lia|by vm_compute|constructor|constructor|done]. intros id Hid Hk. destruct (HE1 _ Hk) as [H|[_ H]]; [by eapply HE|]. cbn in H. lia. }
  apply triple_bind. change 0 with (Z.of_nat (length (@nil chain))).
  apply (new_buckets_spec 16 E1 A P1 idx1 []); [done|exact HT0|by vm_compute|by vm_compute| |auto].
  intros P2 E2 A2 HE2 Hst2 HT2 Hb2. change (nextPageID (meta idx1) + Z.of_nat 16) with 81 in *.
  change (with_next 81 idx1) with (with_meta (with_nextPageID 81 initial_meta) idx). set (idx2 := with_meta _ idx) in *.
  apply triple_eq with (writeMeta ;;; sret tt); [unfold sbind; by destruct (writeMeta _) as [[[]|e|] s]|].
  apply (write_meta_page E2 A2 P2 idx2); [done|done|by apply (linear_meta 4 _ linear_initial)| |auto].
  intros P3 b3 Hst3 Hread. apply triple_ret. apply (Hok P3 (less (key idx2 0) E2) (put (key idx2 0) b3 A2)).
  - exact Hst3.
  - intros k [_ Hk]. destruct (HE1 k (HE2 k Hk)) as [?|[? _]]; [by left|by right].
  - exists (fresh 65 16). split; [|split; [done|split; [|done]]].
    + split; [exact (table_meta E2 A2 _ _ _ _ b3 HT2)|exists 4; exact linear_initial|done| |done].
      intros i c e Hi He. exfalso. assert (Hc : c ∈ fresh 65 16) by by eapply list_elem_of_lookup_2.
      assert (Hn : e ∈ all_entries (fresh 65 16)) by (apply elem_of_entries; eauto). by apply elem_of_nil in Hn.
    + split; [by intros [? _]|]. exists b3. split; [unfold put, PageStore.put; by rewrite decide_True|done].
  - eapply elsewhere_trans; [by apply beyond_elsewhere|]. apply (elsewhere_page (key idx2 0) b3).
Qed.
End chains.
End HashSpec.
