(* ===== verification/HashIndexSpec.v ===== *)
(** * HashIndexSpec: what the hash index promises

    The theorems about the calls of [HashIndex], for any replacer and any disk
    that keeps its laws: opening an index, inserting, searching; and a run of
    them on a concrete disk. *)

From S2P Require Import Prelude GoRuntime Utf8 Ast HeapPage Replacer PageFile BufferPool PageStore CatalogModel Semantic CatalogManager Storage IndexPage HashIndex HashIndexProofs.
#[local] Open Scope Z_scope.

Module HashIndexSpec.
Import HeapBufferPoolManager IndexPage IndexSample DiskHashIndex HashSpec.

Section theorems.
Context {R D : Type} `{RR : Replacer R, RL : !ReplacerLaws R, DM : PageFileManager D, DL : !PageFileLaws D}.
Context `{FT : !FileStat D, FL : !FileStatLaws D}.
Context (root0 : string) (root_nonempty : root0 <> ""%string).
Implicit Types (P : Pool R D) (idx : t) (E : PageKey -> Prop) (A : PageKey -> option (list byte)).

Notation store_but := (PageStore.store_but root0).

(** The size of the file of the index. *)
Definition index_size P idx : Z := default 0 (file_size (disk P) (Filepath.Join (DiskHashIndex.root idx) (fileID idx))).

(** [loadMeta] of a page that is in the store: the meta data on it, or an error. *)
Lemma read_meta_safe b : valid_buf b -> read_meta b <> Panic.
Proof.
  intros Hv. pose proof (valid_length b Hv). unfold read_meta, metaMagicOff, metaVersionOff, metaBucketCountOff, metaLowmaskOff,
    metaHighmaskOff, metaSplitPtrOff, metaMaxBucketOff, metaRecordCountOff, metaNextPageIDOff, heapHeaderSize.
  rewrite !getI32_field by lia. rewrite getI64_field by lia. cbn [obind]. by repeat case_match.
Qed.

(** Opening made an empty index in an empty file ... *)
Definition created E A P idx (s : Pool R D * t) : Prop :=
  index_size P idx = 0 /\ exists E' A' m, store_but E' A' s.1 /\ s.2 = with_meta m idx /\ holds E' A' s.2 [] /\
    (forall k, E' k -> E k \/ FileID k = fileID idx) /\ elsewhere (fileID idx) A A'.

(** ... or it has loaded the index that is in the store. *)
Definition loaded E A idx (s : Pool R D * t) : Prop :=
  store_but E A s.1 /\ exists m, s.2 = with_meta m idx /\
    (~ E (key idx 0) -> exists b, A (key idx 0) = Some b /\ read_meta b = Ok m) /\
    forall entries m', holds E A (with_meta m' idx) entries -> s.2 = with_meta m' idx.

Lemma loadMeta_spec E A P idx :
  store_but E A P -> Filepath.simple_name (fileID idx) ->
  triple loadMeta (P, idx) (fun r s => r = Ok tt -> loaded E A idx s).
Proof.
  intros Hst Hf. unfold loadMeta. apply triple_bind. unfold page. apply triple_self, triple_pool.
  eapply triple_mono; [apply (fetch_spec root0 root_nonempty E A P (key idx 0)); [done|]|].
  { split; [done|]. change (0 <= 0 < 2 ^ 31). lia. }
  intros r P1 _ (Hst1 & _ & Hslot & _). destruct r as [pg|e|]; [|done..]. destruct (Hslot pg eq_refl) as (ref & b & Hin & HA).
  apply triple_bind, triple_pool. eapply BufferPoolSpec.triple_run; [by eapply PageStore.Bytes_run, Hin|].
  assert (Hv : valid_buf b) by apply Hin. pose proof (read_meta_safe b Hv) as Hnp.
  destruct (read_meta b) as [m0|e|] eqn:Er; [|done..]. rewrite slift_ok. apply triple_modify. cbn [fst snd]. intros _.
  split; [done|]. exists m0. split; [done|]. split; [by exists b; split; [apply HA|]|].
  intros entries m (chains & _ & _ & (HE & b' & HA' & Hb') & _). change (key (with_meta m idx) 0) with (key idx 0) in *.
  rewrite (HA HE) in HA'. injection HA' as <-. rewrite Er in Hb'. by injection Hb' as ->.
Qed.

Lemma initOrLoad_run E A P idx :
  store_but E A P -> Filepath.simple_name (fileID idx) -> (forall id, 65 <= id -> ~ E (key idx id)) ->
  triple initOrLoad (P, idx) (fun r s => r = Ok tt -> created E A P idx s \/ loaded E A idx s).
Proof.
  intros Hst Hf HE. unfold initOrLoad. apply triple_self, triple_bind, triple_pool.
  eapply triple_mono; [by apply (mkdir_spec root0 E A P)|]. intros r P1 _ (Hst1 & Hz1). destruct r as [[]|e|]; [|done..].
  apply triple_bind. apply triple_catch, triple_pool.
  eapply triple_mono; [by apply (stat_spec root0 E A P1)|]. intros r P2 _ (Hst2 & Hz2 & Hr).
  assert (Hload : triple loadMeta (P2, idx) (fun r s => r = Ok tt -> created E A P idx s \/ loaded E A idx s)).
  { eapply triple_mono; [by apply (loadMeta_spec E A)|]. intros r' s _ Hm Hok. right. by apply Hm. }
  assert (Hinit : index_size P idx = 0 ->
    triple initializeNew (P2, idx) (fun r s => r = Ok tt -> created E A P idx s \/ loaded E A idx s)).
  { intros Hsz. apply (initializeNew_run root0 root_nonempty E A P2); [done..| |done].
    intros P' E' A' Hst' HE' Hh Hel _. left. split; [done|]. by exists E', A', (with_nextPageID 81 initial_meta). }
  destruct r as [[n|]|e|]; [|by apply Hinit; unfold index_size; rewrite <- Hz1, <- (Hr _ eq_refl)|done|done].
  destruct n; [apply Hinit; unfold index_size; by rewrite <- Hz1, <- (Hr _ eq_refl)|exact Hload..].
Qed.

(** Opening an index does not panic, and when it succeeds either the file
    was empty and there is now an empty index in it, or the store is as it was
    and the meta data is the one on page 0: if the store holds an index in this
    file, that index has been opened. *)
Theorem open_index E A P idx :
  store_but E A P -> Filepath.simple_name (fileID idx) -> (forall id, 65 <= id -> ~ E (key idx id)) ->
  triple initOrLoad (P, idx) (fun r s => r = Ok tt -> created E A P idx s \/ loaded E A idx s).
Proof. by apply initOrLoad_run. Qed.

(** C21: an insertion adds its entry and keeps all others: for a key that fits
    on a page ([key_ok]), with room for one more bucket in the directory
    ([maxBuckets]) and for pages, [Insert] never panics, and when it succeeds the
    index in the store has the old entries and the new one, with its meta page
    up to date, whatever overflow pages and whatever split (at most one) it
    took; the pages of other files are as they were. *)
Theorem Insert_adds E A P idx entries k tid :
  store_but E A P -> holds E A idx entries -> key_ok (type_name idx) k -> tid_ok tid ->
  bucketCount (meta idx) < maxBuckets -> nextPageID (meta idx) + recordCount (meta idx) + 3 < 2 ^ 31 ->
  triple (Insert k tid) (P, idx) (fun r s => r = Ok tt -> exists E' A' m',
    store_but E' A' s.1 /\ s.2 = with_meta m' idx /\
    holds E' A' s.2 ({| e_hash := hashFunction k; e_key := k; e_tid := tid |} :: entries) /\
    bucketCount m' <= bucketCount (meta idx) + 1 /\ (forall k0, E' k0 -> E k0) /\ elsewhere (fileID idx) A A').
Proof.
  intros Hst Hh Hk Ht Hb Hn. apply (Insert_run root0 root_nonempty E A P idx entries); [done..| |done].
  intros P' E' A' m' HE' Hst' Hh' Hbc Hel _. exists E', A', m'. split_and!; try done. lia.
Qed.

(** C22: a search finds exactly what was inserted: [Search] does not panic, does
    not change the store, fails only when the disk may fail, and otherwise its TIDs are
    those of the entries with this key, each as often as it was inserted. *)
Theorem Search_finds E A P idx entries k :
  store_but E A P -> holds E A idx entries -> key_kind (type_name idx) k ->
  triple (Search k) (P, idx) (fun r s => store_but E A s.1 /\ s.2 = idx /\
    match r with Ok tids => tids ≡ₚ e_tid <$> filter (fun e => e_key e = k) entries | _ => ~ reliable end).
Proof.
  intros Hst Hh Hk. apply (Search_run root0 root_nonempty E A P idx entries); [done..| |].
  - intros P' tids Hst' Ht. by split_and!.
  - intros e P' Hst' Hrel. by split_and!.
Qed.
End theorems.

(** ** A run on a disk *)
Definition a_def : IndexDefinition.t := {|
  IndexDefinition.oid := 1; IndexDefinition.name := "users_id"; IndexDefinition.tableOid := 1; IndexDefinition.columnOid := 1;
  IndexDefinition.keyTypeOid := 1; IndexDefinition.indexType := IndexTypeHash; IndexDefinition.fileNode := "1.idx";
  IndexDefinition.metaPageId := 0; IndexDefinition.rootPageId := 0 |}.
Definition a_index : t := {|
  DiskHashIndex.root := "data"; DiskHashIndex.def := a_def; fileID := "1.idx";
  keyType := {| TypeDefinition.oid := 1; TypeDefinition.name := "INT64"; TypeDefinition.byteLength := 8 |}; meta := zero_meta |}.

Definition a_start : Pool LRUReplacer.t FS * t := (a_pool, a_index).
Definition an_open := initOrLoad a_start.
Definition a_key : any := AInt64 7.
Definition an_entry (k : any) (tid : TID) : hashEntry := {| e_hash := hashFunction k; e_key := k; e_tid := tid |}.
Definition one_inserted := Insert a_key (NewTID 3 1) an_open.2.

Lemma a_name : Filepath.simple_name (fileID a_index).
Proof. apply (bool_decide_unpack _). vm_compute. exact I. Qed.

Lemma an_open_ok : an_open.1 = Ok tt /\ an_open.2.2 = with_meta (with_nextPageID 81 initial_meta) a_index.
Proof. split; vm_compute; reflexivity. Qed.

Lemma an_open_holds : exists E A, (forall k, E k -> FileID k = "1.idx"%string) /\
  PageStore.store_but "data" E A an_open.2.1 /\ holds E A an_open.2.2 [].
Proof.
  destruct (initOrLoad_run (R:=LRUReplacer.t) (D:=FS) "data" ltac:(discriminate) BufferPoolSpec.no_key no_pages a_pool a_index
    a_store a_name ltac:(intros id _ [])) as [_ Hok].
  destruct (Hok (proj1 an_open_ok)) as [(_ & E & A & m & Hst & _ & Hh & HE & _)|(_ & m & _ & Hb & _)].
  - exists E, A. split; [intros k Hk; destruct (HE k Hk) as [[]|?]; assumption|]. split; [exact Hst|exact Hh].
  - destruct (Hb ltac:(intros [])) as (b & Hb' & _). vm_compute in Hb'. discriminate Hb'.
Qed.

Lemma small_index i : i = with_meta (with_nextPageID 81 initial_meta) a_index ->
  key_ok (type_name i) a_key /\ tid_ok (NewTID 3 1) /\
  bucketCount (meta i) < maxBuckets /\ nextPageID (meta i) + recordCount (meta i) + 3 < 2 ^ 31.
Proof. intros ->. repeat split; vm_compute; congruence. Qed.

Lemma one_inserted_ok : one_inserted.1 = Ok tt /\ key_ok (type_name an_open.2.2) a_key /\ tid_ok (NewTID 3 1) /\
  bucketCount (meta an_open.2.2) < maxBuckets /\ nextPageID (meta an_open.2.2) + recordCount (meta an_open.2.2) + 3 < 2 ^ 31.
Proof. split; [vm_compute; reflexivity|exact (small_index _ (proj2 an_open_ok))]. Qed.

Lemma one_inserted_holds : exists E A, PageStore.store_but "data" E A one_inserted.2.1 /\
  holds E A one_inserted.2.2 [an_entry a_key (NewTID 3 1)].
Proof.
  destruct an_open_holds as (E & A & _ & Hst & Hh). destruct one_inserted_ok as (Hr & Hk & Ht & Hb & Hn).
  assert (H : triple (Insert a_key (NewTID 3 1)) an_open.2 (fun r s => r = Ok tt -> exists E A,
    PageStore.store_but "data" E A s.1 /\ holds E A s.2 [an_entry a_key (NewTID 3 1)])).
  { apply triple_pair. apply (Insert_run (R:=LRUReplacer.t) (D:=FS) "data" ltac:(discriminate) E A _ _ []); try assumption; [|discriminate].
    intros P' E' A' m' _ Hst' Hh' _ _ _. exists E', A'. split; assumption. }
  destruct H as [_ H]. apply H. exact Hr.
Qed.

Lemma open_index_witness :
  (initOrLoad a_start).1 = Ok tt /\ meta (initOrLoad a_start).2.2 = with_nextPageID 81 initial_meta /\
  exists E A, holds E A (initOrLoad a_start).2.2 [].
Proof.
  split; [exact (proj1 an_open_ok)|]. split; [exact (f_equal meta (proj2 an_open_ok))|].
  destruct (open_index (R:=LRUReplacer.t) (D:=FS) "data" ltac:(discriminate) BufferPoolSpec.no_key no_pages a_pool a_index
    a_store a_name ltac:(intros id _ [])) as [_ Hok].
  destruct (Hok (proj1 an_open_ok)) as [(_ & E & A & m & _ & _ & Hh & _)|(_ & m & _ & Hb & _)].
  - exists E, A. exact Hh.
  - destruct (Hb ltac:(intros [])) as (b & Hb' & _). vm_compute in Hb'. discriminate Hb'.
Defined.

Lemma Insert_adds_witness :
  (Insert a_key (NewTID 3 1) an_open.2).1 = Ok tt /\
  exists E A, holds E A (Insert a_key (NewTID 3 1) an_open.2).2.2 [an_entry a_key (NewTID 3 1)].
Proof.
  destruct an_open_holds as (E & A & _ & Hst & Hh). destruct one_inserted_ok as (Hr & Hk & Ht & Hb & Hn).
  split; [exact Hr|].
  destruct (triple_pair _ _ _ (Insert_adds (R:=LRUReplacer.t) (D:=FS) "data" ltac:(discriminate) E A an_open.2.1 an_open.2.2 []
    a_key (NewTID 3 1) Hst Hh Hk Ht Hb Hn)) as [_ Hok].
  destruct (Hok Hr) as (E' & A' & m' & _ & _ & Hh' & _). exists E', A'. exact Hh'.
Defined.

Lemma Search_finds_witness :
  (Search a_key one_inserted.2).1 = Ok [NewTID 3 1] /\
  forall tids, (Search a_key one_inserted.2).1 = Ok tids -> tids ≡ₚ [NewTID 3 1].
Proof.
  split; [vm_compute; reflexivity|]. destruct one_inserted_holds as (E & A & Hst & Hh).
  assert (Hk : key_kind (type_name one_inserted.2.2) a_key) by (vm_compute; reflexivity).
  destruct (triple_pair _ _ _ (Search_finds (R:=LRUReplacer.t) (D:=FS) "data" ltac:(discriminate) E A one_inserted.2.1
    one_inserted.2.2 _ a_key Hst Hh Hk)) as [_ (_ & _ & Hs)].
  intros tids E1. rewrite E1 in Hs. exact Hs.
Defined.
End HashIndexSpec.
