(* ===== verification/BTreeIndex.v ===== *)
(** * BTreeIndex: the disk BTree index

    Models [index/disk_btree_index.go] over the buffer pool: page 0 holds the
    meta data, every other page a node.  The leaves hold sorted keys with the
    TIDs of each key and are linked in order; an inner node with [n] keys has
    [n + 1] children.  A node is read into a struct, changed there and written
    back; nodes also keep the page of their parent.

    A page the code cannot read in [findLeaf] is a nil dereference, a panic.
    The loops of the code that have no bound ([findLeaf] down the tree,
    [RangeSearch] along the leaves) take the parameter [fuel]; running out is a
    panic of the model, and the theorems show which fuel is enough. *)

From S2P Require Import Prelude GoRuntime Utf8 Ast HeapPage Replacer PageFile BufferPool PageStore CatalogModel Semantic CatalogManager Storage IndexPage.
#[local] Open Scope Z_scope.

Module DiskBTreeIndex.
Import HeapBufferPoolManager IndexPage.

Definition btreeMagic : Z := 0x42494458.
Definition btreeVersion : Z := 1.
Definition nodeMagic : Z := 0x424E4F44.
Definition btreeHeapHeaderSize : Z := 10.
Definition btreePageCapacity : Z := PageSize - btreeHeapHeaderSize.
Definition btreeMetaMagicOff : Z := btreeHeapHeaderSize.
Definition btreeMetaVersionOff : Z := btreeHeapHeaderSize + 4.
Definition btreeMetaRootOff : Z := btreeHeapHeaderSize + 8.
Definition btreeMetaHeightOff : Z := btreeHeapHeaderSize + 12.
Definition btreeMetaLeftmostLeafOff : Z := btreeHeapHeaderSize + 16.
Definition btreeMetaNextPageIDOff : Z := btreeHeapHeaderSize + 20.
Definition nodeIsLeafOff : Z := btreeHeapHeaderSize + 4.
Definition nodeParentOff : Z := btreeHeapHeaderSize + 8.
Definition nodeLeftSibOff : Z := btreeHeapHeaderSize + 12.
Definition nodeRightSibOff : Z := btreeHeapHeaderSize + 16.
Definition nodeKeyCountOff : Z := btreeHeapHeaderSize + 20.
Definition nodeHdrSize : Z := 24.
Definition nodeDataStartOff : Z := btreeHeapHeaderSize + nodeHdrSize.
Definition TIDSize : Z := 6.

Record btreeMeta : Type := { rootPageID : Z; height : Z; leftmostLeafID : Z; nextPageID : Z }.

Record btreeNode : Type := {
  nodePageID : Z; isLeaf : bool; parentPageID : Z; leftSibPageID : Z; rightSibPageID : Z;
  keys : list any; values : list (list TID); children : list Z
}.

(** Assignments to fields of a node. *)
Definition with_parent (p : Z) (n : btreeNode) : btreeNode :=
  {| nodePageID := nodePageID n; isLeaf := isLeaf n; parentPageID := p; leftSibPageID := leftSibPageID n;
     rightSibPageID := rightSibPageID n; keys := keys n; values := values n; children := children n |}.
Definition with_left (l : Z) (n : btreeNode) : btreeNode :=
  {| nodePageID := nodePageID n; isLeaf := isLeaf n; parentPageID := parentPageID n; leftSibPageID := l;
     rightSibPageID := rightSibPageID n; keys := keys n; values := values n; children := children n |}.
Definition with_right (r : Z) (n : btreeNode) : btreeNode :=
  {| nodePageID := nodePageID n; isLeaf := isLeaf n; parentPageID := parentPageID n; leftSibPageID := leftSibPageID n;
     rightSibPageID := r; keys := keys n; values := values n; children := children n |}.
Definition with_content (ks : list any) (vs : list (list TID)) (cs : list Z) (n : btreeNode) : btreeNode :=
  {| nodePageID := nodePageID n; isLeaf := isLeaf n; parentPageID := parentPageID n; leftSibPageID := leftSibPageID n;
     rightSibPageID := rightSibPageID n; keys := ks; values := vs; children := cs |}.

(** The index without its pool, which all indexes share. *)
Record t : Type := {
  root : string; def : IndexDefinition.t; fileID : string; keyType : TypeDefinition.t; meta : btreeMeta
}.

Definition with_meta (m : btreeMeta) (idx : t) : t :=
  {| root := root idx; def := def idx; fileID := fileID idx; keyType := keyType idx; meta := m |}.

Definition key (idx : t) (pageID : Z) : PageKey := NewPageKey (fileID idx) pageID.

(** Pages of the index through the pool. *)
Abbreviation page := (IndexPage.page key).
Abbreviation UpdatePage := (IndexPage.UpdatePage key).
Abbreviation newPage := (IndexPage.newPage key).

(** ** Keys *)
Definition keySize (idx : t) (k : any) : outcome Z :=
  let name := TypeDefinition.name (keyType idx) in
  if decide (name = "INT64") then Ok 8
  else if decide (name = "VARCHAR") then let! s := as_string k in Ok (2 + string_len s)
  else Ok 0.

Definition encodeKey (idx : t) (buf : list byte) (off : Z) (k : any) : outcome (list byte * Z) :=
  let name := TypeDefinition.name (keyType idx) in
  if decide (name = "INT64") then
    let! n := as_int64 k in
    let! buf := putU64 off n buf in
    Ok (buf, off + 8)
  else if decide (name = "VARCHAR") then
    let! s := as_string k in
    let! buf := putU16 off (string_len s) buf in
    let! buf := go_copy (off + 2) (bytes_of s) buf in
    Ok (buf, off + 2 + string_len s)
  else Ok (buf, off).

Definition decodeKey (idx : t) (buf : list byte) (off : Z) : outcome (any * Z) :=
  let name := TypeDefinition.name (keyType idx) in
  if decide (name = "INT64") then let! n := getI64 buf off in Ok (AInt64 n, off + 8)
  else if decide (name = "VARCHAR") then
    let! strLen := getU16 buf off in
    let! s := go_slice buf (off + 2) (off + 2 + strLen) in
    Ok (AString (string_of s), off + 2 + strLen)
  else Ok (ANil, off).

Definition compareKeys (idx : t) (a b : any) : outcome Z :=
  let name := TypeDefinition.name (keyType idx) in
  if decide (name = "INT64") then
    let! av := as_int64 a in let! bv := as_int64 b in
    Ok (cmp3 (av <? bv) (bv <? av))
  else if decide (name = "VARCHAR") then
    let! av := as_string a in let! bv := as_string b in
    Ok (cmp3 (string_lt av bv) (string_lt bv av))
  else Ok 0.

(** The loops of [lowerBound] and [upperBound]; [right] is the comparison that
    sends the search to the right half.  Each round halves the interval. *)
Fixpoint bound_loop (idx : t) (right : Z -> bool) (keys : list any) (k : any) (lo hi fuel : nat) : outcome nat :=
  if (lo <? hi)%nat then
    match fuel with
    | O => Panic
    | S fuel =>
      let mid := Nat.div2 (lo + hi) in
      let! kmid := of_option (keys !! mid) in
      let! cmp := compareKeys idx kmid k in
      if right cmp then bound_loop idx right keys k (S mid) hi fuel
      else bound_loop idx right keys k lo mid fuel
    end
  else Ok lo.

Definition lowerBound (idx : t) (keys : list any) (k : any) : outcome nat :=
  bound_loop idx (fun cmp => cmp <? 0) keys k 0 (length keys) (length keys).

Definition upperBound (idx : t) (keys : list any) (k : any) : outcome nat :=
  bound_loop idx (fun cmp => cmp <=? 0) keys k 0 (length keys) (length keys).

(** [l = append(l, zero); copy(l[i+1:], l[i:]); l[i] = x]. *)
Definition insert_at {A} (i : nat) (x : A) (l : list A) : outcome (list A) :=
  if (i <=? length l)%nat then Ok (take i l ++ x :: drop i l) else Panic.

(** [l[i:]]. *)
Definition slice_from {A} (i : nat) (l : list A) : outcome (list A) :=
  if (i <=? length l)%nat then Ok (drop i l) else Panic.

(** ** Nodes and their bytes *)
Fixpoint total (sizes : list Z) : Z :=
  match sizes with [] => 0 | s :: sizes => s + total sizes end.

Fixpoint keys_size (idx : t) (ks : list any) : outcome Z :=
  match ks with
  | [] => Ok 0
  | k :: ks => let! s := keySize idx k in let! rest := keys_size idx ks in Ok (s + rest)
  end.

Definition estimateSize (idx : t) (node : btreeNode) : outcome Z :=
  let! size := keys_size idx (keys node) in
  if isLeaf node then Ok (nodeDataStartOff + size + total ((fun tids => 4 + Z.of_nat (length tids) * TIDSize) <$> values node))
  else Ok (nodeDataStartOff + size + Z.of_nat (length (children node)) * 4).

(** The loops of [readNode]. *)
Fixpoint decode_keys (idx : t) (buf : list byte) (off : Z) (n : nat) (ks : list any) : outcome (list any * Z) :=
  match n with
  | O => Ok (ks, off)
  | S n => let! ' (k, newOff) := decodeKey idx buf off in decode_keys idx buf newOff n (ks ++ [k])
  end.

Fixpoint decode_tids (buf : list byte) (off : Z) (n : nat) (tids : list TID) : outcome (list TID * Z) :=
  match n with
  | O => Ok (tids, off)
  | S n =>
    let! pageID := getI32 buf off in
    let! slotID := getU16 buf (off + 4) in
    decode_tids buf (off + TIDSize) n (tids ++ [NewTID pageID (int16 slotID)])
  end.

Fixpoint decode_values (buf : list byte) (off : Z) (n : nat) (vs : list (list TID)) : outcome (list (list TID)) :=
  match n with
  | O => Ok vs
  | S n =>
    let! tidCount := getU32 buf off in
    let! ' (tids, off) := decode_tids buf (off + 4) (Z.to_nat tidCount) [] in
    decode_values buf off n (vs ++ [tids])
  end.

Fixpoint decode_children (buf : list byte) (off : Z) (n : nat) (cs : list Z) : outcome (list Z) :=
  match n with
  | O => Ok cs
  | S n => let! child := getI32 buf off in decode_children buf (off + 4) n (cs ++ [child])
  end.

Definition decode_node (idx : t) (pageID : Z) (buf : list byte) : outcome btreeNode :=
  let! flag := go_slice buf nodeIsLeafOff (nodeIsLeafOff + 1) in
  let! parent := getI32 buf nodeParentOff in
  let! left := getI32 buf nodeLeftSibOff in
  let! right := getI32 buf nodeRightSibOff in
  let! keyCount := getU32 buf nodeKeyCountOff in
  let! ' (ks, off) := decode_keys idx buf nodeDataStartOff (Z.to_nat keyCount) [] in
  let leaf := be_value flag =? 1 in
  let! vs := if leaf then decode_values buf off (Z.to_nat keyCount) [] else Ok [] in
  let! cs := if leaf then Ok [] else decode_children buf off (S (Z.to_nat keyCount)) [] in
  Ok {| nodePageID := pageID; isLeaf := leaf; parentPageID := parent; leftSibPageID := left; rightSibPageID := right;
        keys := ks; values := vs; children := cs |}.

(** The loops of [writeNode]. *)
Fixpoint encode_keys (idx : t) (ks : list any) (buf : list byte) (off : Z) : outcome (list byte * Z) :=
  match ks with
  | [] => Ok (buf, off)
  | k :: ks => let! ' (buf, off) := encodeKey idx buf off k in encode_keys idx ks buf off
  end.

Fixpoint encode_tids (tids : list TID) (buf : list byte) (off : Z) : outcome (list byte * Z) :=
  match tids with
  | [] => Ok (buf, off)
  | tid :: tids =>
    let! buf := putU32 off (tid_pageID tid) buf in
    let! buf := putU16 (off + 4) (tid_slotID tid) buf in
    encode_tids tids buf (off + TIDSize)
  end.

Fixpoint encode_values (vs : list (list TID)) (buf : list byte) (off : Z) : outcome (list byte) :=
  match vs with
  | [] => Ok buf
  | tids :: vs =>
    let! buf := putU32 off (Z.of_nat (length tids)) buf in
    let! ' (buf, off) := encode_tids tids buf (off + 4) in
    encode_values vs buf off
  end.

Fixpoint encode_children (cs : list Z) (buf : list byte) (off : Z) : outcome (list byte) :=
  match cs with
  | [] => Ok buf
  | child :: cs => let! buf := putU32 off child buf in encode_children cs buf (off + 4)
  end.

Definition encode_node (idx : t) (node : btreeNode) (buf : list byte) : outcome (list byte) :=
  let! buf := putU32 btreeHeapHeaderSize nodeMagic buf in
  let! buf := go_write buf nodeIsLeafOff [if isLeaf node then one else zero] in
  let! buf := putU32 nodeParentOff (parentPageID node) buf in
  let! buf := putU32 nodeLeftSibOff (leftSibPageID node) buf in
  let! buf := putU32 nodeRightSibOff (rightSibPageID node) buf in
  let! buf := putU32 nodeKeyCountOff (Z.of_nat (length (keys node))) buf in
  let! ' (buf, off) := encode_keys idx (keys node) buf nodeDataStartOff in
  if isLeaf node then encode_values (values node) buf off else encode_children (children node) buf off.

(** The leaf with one more TID; the struct is changed in place. *)
Definition insertIntoLeaf (idx : t) (leaf : btreeNode) (k : any) (tid : TID) : outcome btreeNode :=
  let! pos := lowerBound idx (keys leaf) k in
  let! found :=
    match keys leaf !! pos with
    | Some k0 => ofmap (Z.eqb 0) (compareKeys idx k0 k)
    | None => Ok false
    end in
  if found : bool then
    let! tids := of_option (values leaf !! pos) in
    Ok (with_content (keys leaf) (<[pos := tids ++ [tid]]> (values leaf)) (children leaf) leaf)
  else
    let! ks := insert_at pos k (keys leaf) in
    let! vs := insert_at pos [tid] (values leaf) in
    Ok (with_content ks vs (children leaf) leaf).

(** ** Operations *)
Section operations.
Context {R D : Type} `{!Replacer R, !PageFileManager D, !FileStat D} (fuel : nat).

(** The pool and the index object; the mutex makes a call one step. *)
Abbreviation st := (Pool R D * t)%type.

Definition set_meta (m : btreeMeta) : ST st unit := smodify (fun s => (s.1, with_meta m s.2)).

Definition read_meta (buf : list byte) : outcome btreeMeta :=
  let! magic := getI32 buf btreeMetaMagicOff in
  if negb (magic =? btreeMagic) then Err ErrBadMagic
  else
    let! version := getI32 buf btreeMetaVersionOff in
    if negb (version =? btreeVersion) then Err ErrUnsupportedVersion
    else
      let! rootPageID := getI32 buf btreeMetaRootOff in
      let! height := getI32 buf btreeMetaHeightOff in
      let! leftmostLeafID := getI32 buf btreeMetaLeftmostLeafOff in
      let! nextPageID := getI32 buf btreeMetaNextPageIDOff in
      Ok {| rootPageID := rootPageID; height := height; leftmostLeafID := leftmostLeafID; nextPageID := nextPageID |}.

Definition write_meta (m : btreeMeta) (buf : list byte) : outcome (list byte) :=
  let! buf := putU32 btreeMetaMagicOff btreeMagic buf in
  let! buf := putU32 btreeMetaVersionOff btreeVersion buf in
  let! buf := putU32 btreeMetaRootOff (rootPageID m) buf in
  let! buf := putU32 btreeMetaHeightOff (height m) buf in
  let! buf := putU32 btreeMetaLeftmostLeafOff (leftmostLeafID m) buf in
  putU32 btreeMetaNextPageIDOff (nextPageID m) buf.

Definition loadMeta : ST st unit :=
  pg <- page 0 ;;
  buf <- on_pool (PageStore.Bytes pg) ;;
  m <- slift (read_meta buf) ;;
  set_meta m.

Definition writeMeta : ST st unit :=
  pg <- page 0 ;;
  idx <- self ;;
  on_pool (Modify pg (write_meta (meta idx))) ;;;
  UpdatePage 0 pg.

Definition readNode (pageID : Z) : ST st btreeNode :=
  pg <- page pageID ;;
  buf <- on_pool (PageStore.Bytes pg) ;;
  idx <- self ;;
  slift (decode_node idx pageID buf).

Definition writeNode (node : btreeNode) : ST st unit :=
  pg <- page (nodePageID node) ;;
  idx <- self ;;
  on_pool (Modify pg (encode_node idx node)) ;;;
  UpdatePage (nodePageID node) pg.

(** The loop of [findLeaf] from page [current]; the error of [readNode] is
    dropped, and then the node is nil.  [path] has the last page first. *)
Fixpoint find_loop (k : any) (current : Z) (path : list Z) (n : nat) : ST st (btreeNode * list Z) :=
  match n with
  | O => spanic
  | S n =>
    read <- catch (readNode current) ;;
    match read with
    | None => spanic
    | Some node =>
      let path := current :: path in
      if isLeaf node then sret (node, path)
      else
        idx <- self ;;
        pos <- slift (upperBound idx (keys node) k) ;;
        child <- slift (of_option (children node !! pos)) ;;
        find_loop k child path n
    end
  end.

Definition findLeaf (k : any) : ST st (btreeNode * list Z) :=
  idx <- self ;; find_loop k (rootPageID (meta idx)) [] fuel.

(** [newPageID := nextPageID; nextPageID++; NewPage(...)]. *)
Definition allocatePage : ST st Z :=
  idx <- self ;;
  let m := meta idx in
  set_meta {| rootPageID := rootPageID m; height := height m; leftmostLeafID := leftmostLeafID m;
              nextPageID := int32 (nextPageID m + 1) |} ;;;
  newPage (nextPageID m) ;;;
  sret (nextPageID m).

Definition createNewRoot (left : btreeNode) (k : any) (right : btreeNode) : ST st unit :=
  newRootID <- allocatePage ;;
  let newRoot := {| nodePageID := newRootID; isLeaf := false; parentPageID := -1; leftSibPageID := -1; rightSibPageID := -1;
                    keys := [k]; values := []; children := [nodePageID left; nodePageID right] |} in
  writeNode newRoot ;;;
  writeNode (with_parent newRootID left) ;;;
  writeNode (with_parent newRootID right) ;;;
  idx <- self ;;
  let m := meta idx in
  set_meta {| rootPageID := newRootID; height := int32 (height m + 1); leftmostLeafID := leftmostLeafID m;
              nextPageID := nextPageID m |} ;;;
  writeMeta.

(** The loop of [splitInternal] over the children that move. *)
Fixpoint reparent (p : Z) (cs : list Z) : ST st unit :=
  match cs with
  | [] => sret tt
  | childID :: cs =>
    child <- readNode childID ;;
    writeNode (with_parent p child) ;;;
    reparent p cs
  end.

(** [splitInternal]; [up] is its call of [insertIntoParent]. *)
Definition splitInternal (up : btreeNode -> any -> btreeNode -> ST st unit) (node : btreeNode) : ST st unit :=
  let mid := Nat.div2 (length (keys node)) in
  splitKey <- slift (of_option (keys node !! mid)) ;;
  newPageID <- allocatePage ;;
  ks <- slift (slice_from (S mid) (keys node)) ;;
  cs <- slift (slice_from (S mid) (children node)) ;;
  let newNode := {| nodePageID := newPageID; isLeaf := false; parentPageID := parentPageID node;
                    leftSibPageID := nodePageID node; rightSibPageID := rightSibPageID node;
                    keys := ks; values := []; children := cs |} in
  let node := with_right newPageID (with_content (take mid (keys node)) (values node) (take (S mid) (children node)) node) in
  reparent newPageID (children newNode) ;;;
  writeNode node ;;;
  writeNode newNode ;;;
  up node splitKey newNode.

(** [insertIntoParent]; [path[:len(path)-1]] panics when [path] is empty. *)
Fixpoint insertIntoParent (path : list Z) (left : btreeNode) (k : any) (right : btreeNode) : ST st unit :=
  if parentPageID left =? -1 then createNewRoot left k right
  else
    parent <- readNode (parentPageID left) ;;
    idx <- self ;;
    pos <- slift (upperBound idx (keys parent) k) ;;
    ks <- slift (insert_at pos k (keys parent)) ;;
    cs <- slift (insert_at (S pos) (nodePageID right) (children parent)) ;;
    let parent := with_content ks (values parent) cs parent in
    writeNode (with_parent (nodePageID parent) right) ;;;
    size <- slift (estimateSize idx parent) ;;
    if size <=? btreePageCapacity then writeNode parent
    else
      match path with
      | [] => spanic
      | _ :: path => splitInternal (insertIntoParent path) parent
      end.

Definition splitLeaf (leaf : btreeNode) (path : list Z) : ST st unit :=
  let mid := Nat.div2 (length (keys leaf)) in
  newPageID <- allocatePage ;;
  ks <- slift (slice_from mid (keys leaf)) ;;
  vs <- slift (slice_from mid (values leaf)) ;;
  let newLeaf := {| nodePageID := newPageID; isLeaf := true; parentPageID := parentPageID leaf;
                    leftSibPageID := nodePageID leaf; rightSibPageID := rightSibPageID leaf;
                    keys := ks; values := vs; children := [] |} in
  let leaf := with_right newPageID (with_content (take mid (keys leaf)) (take mid (values leaf)) (children leaf) leaf) in
  writeNode leaf ;;;
  writeNode newLeaf ;;;
  (if rightSibPageID newLeaf =? -1 then sret tt
   else
     rightSib <- readNode (rightSibPageID newLeaf) ;;
     writeNode (with_left newPageID rightSib)) ;;;
  splitKey <- slift (of_option (head (keys newLeaf))) ;;
  insertIntoParent path leaf splitKey newLeaf.

Definition Insert (k : any) (tid : TID) : ST st unit :=
  found <- findLeaf k ;;
  idx <- self ;;
  leaf <- slift (insertIntoLeaf idx found.1 k tid) ;;
  size <- slift (estimateSize idx leaf) ;;
  if size <=? btreePageCapacity then writeNode leaf
  else splitLeaf leaf found.2.

Definition Search (k : any) : ST st (list TID) :=
  found <- findLeaf k ;;
  let leaf := found.1 in
  idx <- self ;;
  slift (let! pos := lowerBound idx (keys leaf) k in
         match keys leaf !! pos with
         | None => Ok []
         | Some k0 =>
           let! cmp := compareKeys idx k0 k in
           if negb (cmp =? 0) then Ok [] else of_option (values leaf !! pos)
         end).

(** *** Range search

    A bound is nil when the range is open there. *)
Definition below (idx : t) (from : any) (fromInclusive : bool) (k : any) : outcome bool :=
  if decide (from = ANil) then Ok false
  else let! cmp := compareKeys idx k from in Ok ((cmp <? 0) || negb fromInclusive && (cmp =? 0)).

Definition above (idx : t) (to : any) (toInclusive : bool) (k : any) : outcome bool :=
  if decide (to = ANil) then Ok false
  else let! cmp := compareKeys idx k to in Ok ((0 <? cmp) || negb toInclusive && (cmp =? 0)).

(** The inner loop: the TIDs of a leaf from position [pos], and whether the
    upper bound was reached. *)
Fixpoint range_leaf (idx : t) (from : any) (fromInclusive : bool) (to : any) (toInclusive : bool)
    (leaf : btreeNode) (pos : nat) (ks : list any) (result : list TID) : outcome (list TID * bool) :=
  match ks with
  | [] => Ok (result, false)
  | k :: ks =>
    let! skip := below idx from fromInclusive k in
    if skip : bool then range_leaf idx from fromInclusive to toInclusive leaf (S pos) ks result
    else
      let! stop := above idx to toInclusive k in
      if stop : bool then Ok (result, true)
      else
        let! tids := of_option (values leaf !! pos) in
        range_leaf idx from fromInclusive to toInclusive leaf (S pos) ks (result ++ tids)
  end.

Fixpoint range_loop (from : any) (fromInclusive : bool) (to : any) (toInclusive : bool)
    (current : Z) (pos : nat) (result : list TID) (n : nat) : ST st (list TID) :=
  if current =? -1 then sret result
  else match n with
  | O => spanic
  | S n =>
    leaf <- readNode current ;;
    idx <- self ;;
    r <- slift (range_leaf idx from fromInclusive to toInclusive leaf pos (drop pos (keys leaf)) result) ;;
    if snd r : bool then sret (fst r)
    else range_loop from fromInclusive to toInclusive (rightSibPageID leaf) 0 (fst r) n
  end.

Definition RangeSearch (from : any) (fromInclusive : bool) (to : any) (toInclusive : bool) : ST st (list TID) :=
  idx <- self ;;
  empty <- slift (if decide (from = ANil) then Ok false
                  else if decide (to = ANil) then Ok false
                  else ofmap (Z.ltb 0) (compareKeys idx from to)) ;;
  if empty : bool then sret []
  else if decide (from = ANil) then
    range_loop from fromInclusive to toInclusive (leftmostLeafID (meta idx)) 0 [] fuel
  else
    found <- findLeaf from ;;
    pos <- slift (lowerBound idx (keys found.1) from) ;;
    range_loop from fromInclusive to toInclusive (nodePageID found.1) pos [] fuel.

(** *** Opening an index *)
Definition initial_meta : btreeMeta := {| rootPageID := 1; height := 1; leftmostLeafID := 1; nextPageID := 2 |}.
Definition initial_leaf : btreeNode := {|
  nodePageID := 1; isLeaf := true; parentPageID := -1; leftSibPageID := -1; rightSibPageID := -1;
  keys := []; values := []; children := [] |}.

Definition initializeNew : ST st unit :=
  newPage 0 ;;;
  newPage 1 ;;;
  set_meta initial_meta ;;;
  writeNode initial_leaf ;;;
  writeMeta.

Definition initOrLoad : ST st unit :=
  idx <- self ;;
  on_pool (on_disk (os_mkdir_all (root idx))) ;;;
  info <- catch (on_pool (on_disk (os_stat (Filepath.Join (root idx) (fileID idx))))) ;;
  match info with
  | Some None | Some (Some 0) => initializeNew
  | _ => loadMeta
  end.

Definition zero_meta : btreeMeta := {| rootPageID := 0; height := 0; leftmostLeafID := 0; nextPageID := 0 |}.

(** [NewDiskBTreeIndex]: the index is returned only on success; the pool is
    the one of the catalog manager, as everywhere in the program. *)
Definition NewDiskBTreeIndex (root : string) (def : IndexDefinition.t) :
    ST (DefaultCatalogManager.t R D) t := fun cm =>
  if negb (IndexDefinition.indexType def =? IndexTypeBTree) then (Err ErrNotBTreeIndex, cm)
  else match DefaultCatalogManager.GetTypeByOid cm (IndexDefinition.keyTypeOid def) with
  | Ok (Some keyType) =>
    let (r, s) := initOrLoad (DefaultCatalogManager.bufferPool cm,
      {| root := root; def := def; fileID := IndexDefinition.fileNode def; keyType := keyType; meta := zero_meta |}) in
    (ofmap (fun _ => s.2) r,
     {| DefaultCatalogManager.root := DefaultCatalogManager.root cm; DefaultCatalogManager.bufferPool := s.1;
        DefaultCatalogManager.cat := DefaultCatalogManager.cat cm |})
  | Panic => (Panic, cm)
  | _ => (Err (Errorf "unknown key type"), cm)
  end.
End operations.
End DiskBTreeIndex.
