(* ===== verification/BTreeNode.v ===== *)
(** * BTreeNode: keys and nodes of the BTree index

    Proofs about the parts of [BTreeIndex] that do not touch the pool: the
    binary searches find the place of a key in sorted keys ([lowerBound_spec],
    [upperBound_spec]), [insertIntoLeaf] is insertion into a sorted list
    ([insertIntoLeaf_add]), and a node that fits on a page is read back from
    the bytes it was written as ([encode_node_page], [decode_node_page]). *)

From S2P Require Import Prelude GoRuntime Utf8 Ast HeapPage Replacer PageFile BufferPool PageStore CatalogModel Semantic Eval CatalogManager Storage IndexPage BTreeIndex.
#[local] Open Scope Z_scope.

Module NodeSpec.
Import HeapBufferPoolManager IndexPage DiskBTreeIndex Predicates.

(** ** Keys *)

(** The keys of an index over a column of the type [tn]. *)
Definition key_ok (tn : string) (k : any) : Prop :=
  match k with
  | AInt64 n => tn = "INT64"%string /\ in_sint 64 n
  | AString s => tn = "VARCHAR"%string /\ string_len s < 2 ^ 16
  | _ => False
  end.

Lemma key_ok_kind tn k : key_ok tn k -> key_kind tn k.
Proof. destruct k; cbn; tauto. Qed.

Lemma keys_kind tn ks : Forall (key_ok tn) ks -> Forall (key_kind tn) ks.
Proof. intros H. eapply Forall_impl; [exact H|]. apply key_ok_kind. Qed.

Definition type_name (idx : t) : string := TypeDefinition.name (keyType idx).

#[export] Instance value_lt_dec a b : Decision (value_lt a b).
Proof. destruct a, b; cbn; apply _. Defined.

Lemma key_trichotomy tn a b : key_kind tn a -> key_kind tn b -> value_lt a b \/ a = b \/ value_lt b a.
Proof.
  destruct a as [|x|x|x], b as [|y|y|y]; cbn; intros Ha Hb; try tauto; try congruence.
  - apply (value_lt_trichotomy (AInt64 x) (AInt64 y) ExprTypeInt64); done.
  - apply (value_lt_trichotomy (AString x) (AString y) ExprTypeVarchar); done.
Qed.

Lemma compareKeys_spec idx a b :
  key_kind (type_name idx) a -> key_kind (type_name idx) b ->
  exists c, compareKeys idx a b = Ok c /\ (c = -1 /\ value_lt a b \/ c = 0 /\ a = b \/ c = 1 /\ value_lt b a).
Proof.
  unfold compareKeys, type_name. intros Ha Hb. destruct a as [|x|x|x], b as [|y|y|y]; cbn in Ha, Hb; try tauto; try congruence.
  - rewrite Ha. rewrite decide_True by done. cbn [as_int64 obind].
    apply (compare_spec (AInt64 x) (AInt64 y) ExprTypeInt64); done.
  - rewrite Ha. rewrite decide_False, decide_True by done. cbn [as_string obind].
    apply (compare_spec (AString x) (AString y) ExprTypeVarchar); done.
Qed.

(** Not after: the order of the separators, which may be equal. *)
Definition value_le (a b : any) : Prop := ~ value_lt b a.

Lemma le_lt_trans tn a b c : key_kind tn a -> key_kind tn b -> value_le a b -> value_lt b c -> value_lt a c.
Proof.
  intros Ha Hb Hab Hbc. destruct (key_trichotomy tn a b Ha Hb) as [H|[->|H]]; [by eapply value_lt_trans|done|by destruct Hab].
Qed.

Lemma lt_le_trans tn a b c : key_kind tn b -> key_kind tn c -> value_lt a b -> value_le b c -> value_lt a c.
Proof.
  intros Hb Hc Hab Hbc. destruct (key_trichotomy tn b c Hb Hc) as [H|[->|H]]; [by eapply value_lt_trans|done|by destruct Hbc].
Qed.

Lemma le_trans tn a b c : key_kind tn a -> key_kind tn b -> value_le a b -> value_le b c -> value_le a c.
Proof. intros Ha Hb Hab Hbc Hca. apply Hbc. by apply (lt_le_trans tn c a b). Qed.

Lemma lt_le a b : value_lt a b -> value_le a b.
Proof. intros Hab Hba. by eapply value_lt_asym. Qed.

Lemma le_refl a : value_le a a.
Proof. apply value_lt_irrefl. Qed.

(** ** Binary search *)

(** [right] answers [p] for the key in the middle. *)
Definition decides (idx : t) (right : Z -> bool) (k : any) (p : any -> Prop) : Prop :=
  forall a, key_kind (type_name idx) a -> exists c, compareKeys idx a k = Ok c /\ (right c = true <-> p a).

Lemma bound_loop_spec idx right ks k p fuel : forall lo hi,
  Forall (key_kind (type_name idx)) ks -> decides idx right k p ->
  (forall i j a b, (i <= j)%nat -> ks !! i = Some a -> ks !! j = Some b -> p b -> p a) ->
  (lo <= hi <= length ks)%nat -> (hi - lo <= fuel)%nat ->
  (forall i a, (i < lo)%nat -> ks !! i = Some a -> p a) -> (forall i a, (hi <= i)%nat -> ks !! i = Some a -> ~ p a) ->
  exists pos, bound_loop idx right ks k lo hi fuel = Ok pos /\ (pos <= length ks)%nat /\
    (forall i a, (i < pos)%nat -> ks !! i = Some a -> p a) /\ (forall i a, (pos <= i)%nat -> ks !! i = Some a -> ~ p a).
Proof.
  intros lo hi Hks Hright Hmono. revert lo hi. induction fuel as [|fuel IH]; intros lo hi Hlo Hf Hl Hh; cbn [bound_loop].
  - rewrite (proj2 (Nat.ltb_ge _ _)) by lia. exists lo. split_and!; [done|lia|done|]. intros i a Hi. apply Hh. lia.
  - destruct (Nat.ltb_spec lo hi) as [Hlt|Hge].
    2:{ exists lo. split_and!; [done|lia|done|]. intros i a Hi. apply Hh. lia. }
    set (mid := Nat.div2 (lo + hi)). assert (Hmid : (lo <= mid < hi)%nat).
    { unfold mid. rewrite Nat.div2_div. split; [apply Nat.div_le_lower_bound; lia|apply Nat.div_lt_upper_bound; lia]. }
    destruct (lookup_lt_is_Some_2 ks mid) as [kmid Hkm]; [lia|]. rewrite Hkm. cbn [of_option obind].
    destruct (Hright kmid) as (c & -> & Hc); [by eapply Forall_lookup_1|]. cbn [obind]. destruct (right c).
    + apply IH; [lia|lia| |done]. intros i a Hi Ha. eapply (Hmono i mid); [lia|done|done|tauto].
    + apply IH; [lia|lia|done|]. intros i a Hi Ha Hp. assert (p kmid) by (eapply (Hmono mid i); [lia|done|done|done]).
      by apply Hc in H.
Qed.

(** [pos] splits [ks] into the keys with [p] and those without. *)
Definition splits (p : any -> Prop) (ks : list any) (pos : nat) : Prop :=
  (pos <= length ks)%nat /\ Forall p (take pos ks) /\ Forall (fun a => ~ p a) (drop pos ks).

Lemma splits_intro p ks pos :
  (pos <= length ks)%nat -> (forall i a, (i < pos)%nat -> ks !! i = Some a -> p a) ->
  (forall i a, (pos <= i)%nat -> ks !! i = Some a -> ~ p a) -> splits p ks pos.
Proof.
  intros Hlen H1 H2. split; [done|]. split; apply Forall_lookup; intros i a Ha.
  - apply lookup_take_Some in Ha as [Ha Hi]. by eapply H1.
  - rewrite lookup_drop in Ha. eapply (H2 (pos + i)%nat); [lia|done].
Qed.

(** Sorted keys: no key is before an earlier one. *)
Definition sorted (ks : list any) : Prop :=
  forall i j a b, (i < j)%nat -> ks !! i = Some a -> ks !! j = Some b -> value_le a b.

Section search.
Context (idx : t) (ks : list any) (k : any).
Context (Hks : Forall (key_kind (type_name idx)) ks) (Hk : key_kind (type_name idx) k) (Hs : sorted ks).

Let le_index i j a b : (i <= j)%nat -> ks !! i = Some a -> ks !! j = Some b -> value_le a b.
Proof. intros Hij Ha Hb. destruct (decide (i = j)) as [->|Hne]; [assert (a = b) as -> by congruence; apply le_refl|]. eapply (Hs i j); [lia|done|done]. Qed.

Lemma lowerBound_spec : exists pos, lowerBound idx ks k = Ok pos /\ splits (fun a => value_lt a k) ks pos.
Proof using Hks Hk Hs.
  destruct (bound_loop_spec idx (fun c => c <? 0) ks k (fun a => value_lt a k) (length ks) 0 (length ks)) as (pos & E & Hp & H1 & H2);
    [done| | |lia|lia|lia| |].
  - intros a Ha. destruct (compareKeys_spec idx a k Ha Hk) as (c & Hc & Hcase). exists c. split; [done|].
    destruct Hcase as [[-> H]|[[-> ->]|[-> H]]]; cbn; split; try done; [|intros H'; by destruct (value_lt_asym _ _ H)].
    intros H. by destruct (value_lt_irrefl k).
  - intros i j a b Hij Ha Hb Hp. rewrite Forall_lookup in Hks. eapply le_lt_trans; [by eapply Hks|by eapply Hks| |done]. by eapply (le_index i j).
  - intros i a Hi Ha. apply lookup_lt_Some in Ha. lia.
  - exists pos. split; [exact E|]. by apply splits_intro.
Qed.

Lemma upperBound_spec : exists pos, upperBound idx ks k = Ok pos /\ splits (fun a => value_le a k) ks pos.
Proof using Hks Hk Hs.
  destruct (bound_loop_spec idx (fun c => c <=? 0) ks k (fun a => value_le a k) (length ks) 0 (length ks)) as (pos & E & Hp & H1 & H2);
    [done| | |lia|lia|lia| |].
  - intros a Ha. destruct (compareKeys_spec idx a k Ha Hk) as (c & Hc & Hcase). exists c. split; [done|].
    destruct Hcase as [[-> H]|[[-> ->]|[-> H]]]; cbn; split; try done.
    + intros _. by apply lt_le.
    + intros _. apply le_refl.
  - intros i j a b Hij Ha Hb Hp. rewrite Forall_lookup in Hks. eapply le_trans; [by eapply Hks|by eapply Hks| |done]. by eapply (le_index i j).
  - intros i a Hi Ha. apply lookup_lt_Some in Ha. lia.
  - exists pos. split; [exact E|]. by apply splits_intro.
Qed.
End search.

(** ** A leaf is a sorted list of keys with their TIDs *)
Abbreviation entry := (any * list TID)%type.

(** Adding a TID under a key of a sorted list. *)
Fixpoint add_tid (k : any) (tid : TID) (es : list entry) : list entry :=
  match es with
  | [] => [(k, [tid])]
  | (k', tids) :: es' =>
    if decide (value_lt k' k) then (k', tids) :: add_tid k tid es'
    else if decide (k' = k) then (k', tids ++ [tid]) :: es'
    else (k, [tid]) :: es
  end.

Lemma add_tid_app k tid es1 es2 :
  Forall (fun e => value_lt e.1 k) es1 -> add_tid k tid (es1 ++ es2) = es1 ++ add_tid k tid es2.
Proof. induction 1 as [|[k' ts] es Hlt _ IH]; [done|]. cbn. rewrite decide_True by done. by rewrite IH. Qed.

Lemma add_tid_app_r k tid es1 es2 :
  Forall (fun e => value_lt k e.1) es2 -> add_tid k tid (es1 ++ es2) = add_tid k tid es1 ++ es2.
Proof.
  intros H2. induction es1 as [|[k' ts] es IH]; cbn.
  - destruct H2 as [|[k' ts] es Hlt _]; [done|]. cbn. cbn in Hlt. rewrite decide_False by by apply value_lt_asym.
    rewrite decide_False; [done|]. intros ->. by eapply value_lt_irrefl.
  - by repeat case_decide; rewrite ?IH.
Qed.

Lemma zip_split {A B} (l : list A) (k : list B) n :
  length l = length k -> zip l k = zip (take n l) (take n k) ++ zip (drop n l) (drop n k).
Proof.
  intros Hl. rewrite <- (take_drop n l) at 1. rewrite <- (take_drop n k) at 1. apply zip_with_app. rewrite !length_take. lia.
Qed.

Lemma Forall_zip_l {A B} (p : A -> Prop) (l : list A) (k : list B) : Forall p l -> Forall (fun e => p e.1) (zip l k).
Proof. intros H. revert k. induction H; intros [|y k]; cbn; constructor; auto. Qed.

Lemma insert_at_ok {A} i (x : A) l : (i <= length l)%nat -> insert_at i x l = Ok (take i l ++ x :: drop i l).
Proof. intros Hi. unfold insert_at. by rewrite (proj2 (Nat.leb_le _ _)). Qed.

Lemma slice_from_ok {A} i (l : list A) : (i <= length l)%nat -> slice_from i l = Ok (drop i l).
Proof. intros Hi. unfold slice_from. by rewrite (proj2 (Nat.leb_le _ _)). Qed.

Definition leaf_entries (n : btreeNode) : list entry := zip (keys n) (values n).

Lemma insertIntoLeaf_add idx leaf k tid :
  Forall (key_kind (type_name idx)) (keys leaf) -> key_kind (type_name idx) k -> sorted (keys leaf) ->
  length (values leaf) = length (keys leaf) ->
  exists ks vs, insertIntoLeaf idx leaf k tid = Ok (with_content ks vs (children leaf) leaf) /\
    length vs = length ks /\ zip ks vs = add_tid k tid (leaf_entries leaf).
Proof.
  intros Hks Hk Hs Hlen. unfold insertIntoLeaf, leaf_entries.
  destruct (lowerBound_spec idx (keys leaf) k Hks Hk Hs) as (pos & -> & Hp & H1 & H2). cbn [obind].
  set (ks := keys leaf) in *. set (vs := values leaf) in *.
  rewrite (zip_split ks vs pos) by done. rewrite add_tid_app by by apply (Forall_zip_l (fun a => value_lt a k)).
  destruct (ks !! pos) as [k0|] eqn:E0.
  - rewrite (drop_S ks k0 pos E0) in H2 |- *. apply Forall_cons in H2 as [Hk0 _].
    destruct (lookup_lt_is_Some_2 vs pos) as [ts Ets]; [apply lookup_lt_Some in E0; lia|]. rewrite (drop_S vs ts pos Ets). cbn [zip zip_with add_tid].
    rewrite (decide_False (P := value_lt k0 k)) by done.
    destruct (compareKeys_spec idx k0 k) as (c & -> & Hc); [by eapply Forall_lookup_1|done|]. cbn [ofmap obind].
    destruct Hc as [[-> Hc]|[[-> Hc]|[-> Hc]]]; [done| |]; cbn [Z.eqb].
    + subst k0. rewrite Ets. cbn [of_option obind]. eexists ks, _. split; [done|]. split; [by rewrite length_insert|].
      rewrite decide_True by done. rewrite (zip_split ks _ pos) by (by rewrite length_insert).
      rewrite take_insert_ge by lia. rewrite (drop_S ks k pos E0).
      rewrite (drop_S _ (ts ++ [tid]) pos) by (apply list_lookup_insert_eq; by eapply lookup_lt_Some).
      by rewrite drop_insert_lt by lia.
    + rewrite !insert_at_ok by lia. cbn [obind]. eexists _, _. split; [done|]. split; [rewrite !length_app; cbn; rewrite !length_take, !length_drop; lia|].
      rewrite decide_False by (intros ->; by eapply value_lt_irrefl). rewrite zip_with_app by (rewrite !length_take; lia).
      f_equal. by rewrite (drop_S ks k0 pos E0), (drop_S vs ts pos Ets).
  - apply lookup_ge_None in E0. cbn [obind]. rewrite !insert_at_ok by lia. cbn [obind]. eexists _, _. split; [done|].
    split; [rewrite !length_app; cbn; rewrite !length_take, !length_drop; lia|]. rewrite zip_with_app by (rewrite !length_take; lia).
    by rewrite (drop_ge ks), (drop_ge vs) by lia.
Qed.

(** ** Nodes as bytes *)

Definition key_size (k : any) : Z := Z.of_nat (length (key_bytes k)).
Definition tids_bytes (tids : list TID) : list byte :=
  be_bytes 4 (uint32 (Z.of_nat (length tids))) ++ concat (tid_bytes <$> tids).
Definition child_bytes (c : Z) : list byte := be_bytes 4 (uint32 c).

(** The keys of a node, and the TIDs or children behind them. *)
Definition data_bytes (n : btreeNode) : list byte :=
  concat (key_bytes <$> keys n) ++
  if isLeaf n then concat (tids_bytes <$> values n) else concat (child_bytes <$> children n).

Record node_ok (tn : string) (n : btreeNode) : Prop := {
  no_header : in_sint 32 (parentPageID n) /\ in_sint 32 (leftSibPageID n) /\ in_sint 32 (rightSibPageID n);
  no_keys : Forall (key_ok tn) (keys n);
  no_shape : if isLeaf n then length (values n) = length (keys n) /\ children n = [] /\ Forall (Forall tid_ok) (values n)
             else values n = [] /\ length (children n) = S (length (keys n)) /\ Forall (in_sint 32) (children n)
}.

(** The end of a node in its page. *)
Definition node_size (n : btreeNode) : Z := nodeDataStartOff + Z.of_nat (length (data_bytes n)).

Lemma length_concat_map {A} (f : A -> list byte) l :
  Z.of_nat (length (concat (f <$> l))) = total ((fun x => Z.of_nat (length (f x))) <$> l).
Proof. induction l as [|x l IH]; [done|]. cbn. rewrite length_app. lia. Qed.

Lemma keySize_spec idx k : key_ok (type_name idx) k -> keySize idx k = Ok (key_size k).
Proof.
  unfold keySize, type_name, key_size. destruct k as [|n|s|b]; cbn [key_ok key_bytes]; try tauto.
  - intros [-> _]. rewrite decide_True by done. by rewrite length_be_bytes.
  - intros [-> _]. rewrite decide_False, decide_True by done. cbn [as_string obind]. f_equal.
    rewrite length_app, length_be_bytes. unfold string_len. lia.
Qed.

Lemma length_tids tids : Z.of_nat (length (tids_bytes tids)) = 4 + Z.of_nat (length tids) * TIDSize.
Proof.
  unfold tids_bytes. rewrite length_app, length_be_bytes, Nat2Z.inj_add, length_concat_map.
  assert (H : total ((fun x => Z.of_nat (length (tid_bytes x))) <$> tids) = Z.of_nat (length tids) * TIDSize); [|lia].
  induction tids as [|x l IH]; [done|]. change (Z.of_nat (length (tid_bytes x)) + total ((fun x => Z.of_nat (length (tid_bytes x))) <$> l) = Z.of_nat (S (length l)) * TIDSize). rewrite IH, length_tid. unfold TIDSize. lia.
Qed.

(** [estimateSize] is exact. *)
Lemma estimateSize_spec idx n : node_ok (type_name idx) n -> estimateSize idx n = Ok (node_size n).
Proof.
  intros [_ Hk Hs]. unfold estimateSize, node_size, data_bytes.
  assert (E : keys_size idx (keys n) = Ok (total (key_size <$> keys n))).
  { clear Hs. induction Hk as [|k ks Hk _ IH]; [done|]. cbn [keys_size]. rewrite keySize_spec by done. cbn [obind]. by rewrite IH. }
  rewrite E. cbn [obind]. rewrite length_app, Nat2Z.inj_add, length_concat_map. change ((fun x => Z.of_nat (length (key_bytes x))) <$> keys n) with (key_size <$> keys n).
  destruct (isLeaf n); f_equal; rewrite length_concat_map, <- Z.add_assoc; do 2 f_equal.
  - f_equal. apply list_fmap_ext. intros i ts _. by rewrite length_tids.
  - clear. induction (children n) as [|c l IH]; [done|]. cbn [fmap list_fmap length total]. rewrite <- IH.
    unfold child_bytes. rewrite length_be_bytes. lia.
Qed.

(** *** Writing *)
Lemma wrote_app (b b1 b2 bs1 bs2 : list byte) p :
  wrote b b1 p bs1 -> wrote b1 b2 (p + length bs1) bs2 -> wrote b b2 p (bs1 ++ bs2).
Proof.
  intros (L1 & S1 & F1) (L2 & S2 & F2). split; [congruence|]. rewrite length_app. split.
  - rewrite sub_add, S2. rewrite (F2 p (length bs1)) by lia. by rewrite S1.
  - intros q n Hq. rewrite F2, F1; [done|lia|lia].
Qed.

Lemma wrote_nil (b : list byte) p : wrote b b p [].
Proof. by split_and!. Qed.

(** [f] writes [bs] and moves the offset behind it. *)
Definition lays (f : list byte -> Z -> outcome (list byte * Z)) (bs : list byte) : Prop :=
  forall b p, (p + length bs <= length b)%nat ->
    exists b', f b (Z.of_nat p) = Ok (b', Z.of_nat (p + length bs)) /\ wrote b b' p bs.

Lemma lays_put n (v : Z) b p :
  (p + n <= length b)%nat -> exists b', go_write b (Z.of_nat p) (be_bytes n v) = Ok b' /\ wrote b b' p (be_bytes n v).
Proof.
  intros Hp. destruct (put_wrote n (Z.of_nat p) v b) as (b' & E & W); [lia..|]. exists b'. by rewrite Nat2Z.id in W.
Qed.

Lemma lays_key idx k : key_ok (type_name idx) k -> lays (fun b off => encodeKey idx b off k) (key_bytes k).
Proof.
  unfold encodeKey, type_name. destruct k as [|n|s|c]; cbn [key_ok key_bytes]; try tauto.
  - intros [-> _] b p Hp. rewrite length_be_bytes in *. rewrite decide_True by done. cbn [as_int64 obind].
    destruct (lays_put 8 (uint64 n) b p Hp) as (b' & E & W). unfold putU64. rewrite E. cbn [obind]. exists b'. split; [|done]. do 2 f_equal. lia.
  - intros [-> _] b p Hp. rewrite length_app, length_be_bytes in *. rewrite decide_False, decide_True by done. cbn [as_string obind].
    destruct (lays_put 2 (uint16 (string_len s)) b p) as (b1 & E & W); [lia|]. unfold putU16. rewrite E. cbn [obind].
    destruct (go_copy_wrote (Z.of_nat p + 2) (bytes_of s) b1) as (b2 & E2 & W2); [lia|destruct W as [L _]; lia|]. rewrite E2. cbn [obind].
    exists b2. split; [do 2 f_equal; unfold string_len; lia|]. replace (Z.to_nat (Z.of_nat p + 2)) with (p + 2)%nat in W2 by lia.
    by eapply wrote_app; [|rewrite length_be_bytes].
Qed.

Lemma lays_keys idx ks :
  Forall (key_ok (type_name idx)) ks -> lays (fun b off => encode_keys idx ks b off) (concat (key_bytes <$> ks)).
Proof.
  induction 1 as [|k ks Hk _ IH]; intros b p Hp.
  - exists b. split; [cbn; do 3 f_equal; lia|apply wrote_nil].
  - change (concat (key_bytes <$> k :: ks)) with (key_bytes k ++ concat (key_bytes <$> ks)) in *. rewrite length_app in *.
    destruct (lays_key idx k Hk b p) as (b1 & E1 & W1); [lia|]. cbn [encode_keys]. rewrite E1. cbn [obind].
    destruct (IH b1 (p + length (key_bytes k))%nat) as (b2 & E2 & W2); [destruct W1 as [-> _]; lia|]. rewrite E2. exists b2.
    split; [do 3 f_equal; lia|by eapply wrote_app].
Qed.

Lemma lays_tids tids : lays (fun b off => encode_tids tids b off) (concat (tid_bytes <$> tids)).
Proof.
  induction tids as [|tid tids IH]; intros b p Hp.
  - exists b. split; [cbn; do 3 f_equal; lia|apply wrote_nil].
  - change (concat (tid_bytes <$> tid :: tids)) with (tid_bytes tid ++ concat (tid_bytes <$> tids)) in *. rewrite length_app, length_tid in *.
    cbn [encode_tids]. unfold putU32, putU16.
    destruct (lays_put 4 (uint32 (tid_pageID tid)) b p) as (b1 & E1 & W1); [lia|]. rewrite E1. cbn [obind].
    replace (Z.of_nat p + 4) with (Z.of_nat (p + 4)) by lia.
    destruct (lays_put 2 (uint16 (tid_slotID tid)) b1 (p + 4)) as (b2 & E2 & W2); [destruct W1 as [-> _]; lia|]. rewrite E2. cbn [obind].
    replace (Z.of_nat p + TIDSize) with (Z.of_nat (p + 6)) by (unfold TIDSize; lia).
    assert (W : wrote b b2 p (tid_bytes tid)) by (eapply wrote_app; [exact W1|by rewrite length_be_bytes]).
    destruct (IH b2 (p + 6)%nat) as (b3 & E3 & W3); [destruct W as [-> _]; lia|]. rewrite E3. exists b3.
    split; [do 3 f_equal; lia|]. eapply wrote_app; [exact W|by rewrite length_tid].
Qed.

Lemma lays_values vs b p :
  (p + length (concat (tids_bytes <$> vs)) <= length b)%nat ->
  exists b', encode_values vs b (Z.of_nat p) = Ok b' /\ wrote b b' p (concat (tids_bytes <$> vs)).
Proof.
  revert b p. induction vs as [|tids vs IH]; intros b p Hp.
  - exists b. split; [done|apply wrote_nil].
  - change (concat (tids_bytes <$> tids :: vs)) with (tids_bytes tids ++ concat (tids_bytes <$> vs)) in *.
    rewrite length_app in Hp. assert (Hl : length (tids_bytes tids) = (4 + length (concat (tid_bytes <$> tids)))%nat) by (unfold tids_bytes; by rewrite length_app, length_be_bytes).
    cbn [encode_values]. unfold putU32.
    destruct (lays_put 4 (uint32 (Z.of_nat (length tids))) b p) as (b1 & E1 & W1); [lia|]. rewrite E1. cbn [obind].
    replace (Z.of_nat p + 4) with (Z.of_nat (p + 4)) by lia.
    destruct (lays_tids tids b1 (p + 4)%nat) as (b2 & E2 & W2); [destruct W1 as [-> _]; lia|]. rewrite E2. cbn [obind].
    assert (W : wrote b b2 p (tids_bytes tids)) by (eapply wrote_app; [exact W1|by rewrite length_be_bytes]).
    replace (p + 4 + length (concat (tid_bytes <$> tids)))%nat with (p + length (tids_bytes tids))%nat by lia.
    destruct (IH b2 (p + length (tids_bytes tids))%nat) as (b3 & E3 & W3); [destruct W as [-> _]; lia|]. rewrite E3. exists b3.
    split; [done|]. by eapply wrote_app.
Qed.

Lemma lays_children cs b p :
  (p + length (concat (child_bytes <$> cs)) <= length b)%nat ->
  exists b', encode_children cs b (Z.of_nat p) = Ok b' /\ wrote b b' p (concat (child_bytes <$> cs)).
Proof.
  revert b p. induction cs as [|c cs IH]; intros b p Hp.
  - exists b. split; [done|apply wrote_nil].
  - change (concat (child_bytes <$> c :: cs)) with (child_bytes c ++ concat (child_bytes <$> cs)) in *.
    rewrite length_app in Hp. unfold child_bytes at 1 in Hp. rewrite length_be_bytes in Hp. cbn [encode_children]. unfold putU32.
    destruct (lays_put 4 (uint32 c) b p) as (b1 & E1 & W1); [lia|]. rewrite E1. cbn [obind].
    replace (Z.of_nat p + 4) with (Z.of_nat (p + 4)) by lia.
    destruct (IH b1 (p + 4)%nat) as (b2 & E2 & W2); [destruct W1 as [-> _]; lia|]. rewrite E2. exists b2.
    split; [done|]. eapply wrote_app; [exact W1|]. unfold child_bytes. by rewrite length_be_bytes.
Qed.

(** *** Reading *)
Lemma decode_key idx k b pre post off :
  key_ok (type_name idx) k -> b = pre ++ key_bytes k ++ post -> off = Z.of_nat (length pre) ->
  decodeKey idx b off = Ok (k, off + Z.of_nat (length (key_bytes k))).
Proof.
  unfold decodeKey, type_name. destruct k as [|n|s|c]; cbn [key_ok key_bytes]; try tauto.
  - intros [-> Hn] Hb Hoff. rewrite decide_True by done. rewrite (getI64_at b pre n post off Hb Hoff Hn). cbn [obind].
    by rewrite length_be_bytes.
  - intros [-> Hl] Hb Hoff. rewrite decide_False, decide_True by done. rewrite <- app_assoc in Hb.
    rewrite (getU16_bytes b pre (string_len s) _ off Hb Hoff). cbn [obind].
    assert (Hu : uint16 (string_len s) = string_len s) by (apply uint_id; unfold in_uint, string_len in *; lia). rewrite Hu.
    rewrite (go_slice_at b (pre ++ be_bytes 2 (uint16 (string_len s))) (bytes_of s) post);
      [|by rewrite <- app_assoc, Hu in *|len|unfold string_len; lia].
    cbn [obind]. rewrite string_of_bytes_of, length_app, length_be_bytes. unfold string_len. do 2 f_equal. lia.
Qed.

Lemma decode_keys_run idx b ks : forall pre post acc off,
  Forall (key_ok (type_name idx)) ks -> b = pre ++ concat (key_bytes <$> ks) ++ post -> off = Z.of_nat (length pre) ->
  decode_keys idx b off (length ks) acc = Ok (acc ++ ks, off + Z.of_nat (length (concat (key_bytes <$> ks)))).
Proof.
  induction ks as [|k ks IH]; intros pre post acc off Hks Hb Hoff; cbn [length decode_keys].
  - rewrite app_nil_r. cbn. do 2 f_equal. lia.
  - apply Forall_cons in Hks as [Hk Hks]. change (concat (key_bytes <$> k :: ks)) with (key_bytes k ++ concat (key_bytes <$> ks)) in *.
    rewrite <- app_assoc in Hb. rewrite (decode_key idx k b pre _ off Hk Hb Hoff). cbn [obind].
    rewrite (IH (pre ++ key_bytes k) post); [|done|by rewrite <- app_assoc|len]. rewrite <- app_assoc, length_app. do 2 f_equal. lia.
Qed.

Lemma decode_tids_run b tids : forall pre post acc off,
  Forall tid_ok tids -> b = pre ++ concat (tid_bytes <$> tids) ++ post -> off = Z.of_nat (length pre) ->
  decode_tids b off (length tids) acc = Ok (acc ++ tids, off + Z.of_nat (length (concat (tid_bytes <$> tids)))).
Proof.
  induction tids as [|tid tids IH]; intros pre post acc off Hts Hb Hoff; cbn [length decode_tids].
  - rewrite app_nil_r. cbn. do 2 f_equal. lia.
  - apply Forall_cons in Hts as [Ht Hts]. change (concat (tid_bytes <$> tid :: tids)) with (tid_bytes tid ++ concat (tid_bytes <$> tids)) in *.
    rewrite <- app_assoc in Hb. destruct (tid_at b pre tid _ off Hb Hoff Ht) as [-> ->]. cbn [obind].
    rewrite (IH (pre ++ tid_bytes tid) post); [|done|by rewrite <- app_assoc|rewrite length_app, length_tid; unfold TIDSize; lia].
    rewrite <- app_assoc, length_app, length_tid. destruct Ht as [_ Hs]. rewrite sint_uint by lia. rewrite sint_id by done.
    destruct tid. cbn. do 2 f_equal. unfold TIDSize. lia.
Qed.

Lemma decode_values_run b vs : forall pre post acc off,
  Forall (Forall tid_ok) vs -> b = pre ++ concat (tids_bytes <$> vs) ++ post -> off = Z.of_nat (length pre) ->
  Z.of_nat (length b) < 2 ^ 32 ->
  decode_values b off (length vs) acc = Ok (acc ++ vs).
Proof.
  induction vs as [|tids vs IH]; intros pre post acc off Hvs Hb Hoff Hlen; cbn [length decode_values].
  - by rewrite app_nil_r.
  - apply Forall_cons in Hvs as [Ht Hvs]. change (concat (tids_bytes <$> tids :: vs)) with (tids_bytes tids ++ concat (tids_bytes <$> vs)) in *.
    assert (Hcnt : 0 <= Z.of_nat (length tids) < 2 ^ 32).
    { pose proof (length_tids tids) as Hl. apply (f_equal length) in Hb. rewrite !length_app in Hb. unfold TIDSize in Hl. lia. }
    unfold tids_bytes in Hb at 1. rewrite <- !app_assoc in Hb.
    assert (Hg : getU32 b off = Ok (Z.of_nat (length tids))).
    { unfold getU32. rewrite (go_slice_at b pre (be_bytes 4 (uint32 (Z.of_nat (length tids)))) _ off) by (done || (rewrite length_be_bytes; lia)).
      cbn [obind]. rewrite be_value_id by (apply (uint_range 32); lia). f_equal. by apply uint_id. }
    rewrite Hg. cbn [obind]. rewrite Nat2Z.id. set (pre1 := pre ++ be_bytes 4 (uint32 (Z.of_nat (length tids)))).
    rewrite (decode_tids_run b tids pre1 (concat (tids_bytes <$> vs) ++ post) []); [|done|unfold pre1; by rewrite <- app_assoc|unfold pre1; rewrite length_app, length_be_bytes; lia].
    cbn [obind]. rewrite (IH (pre1 ++ concat (tid_bytes <$> tids)) post); [by rewrite <- app_assoc|done| | |done].
    + unfold pre1. by rewrite <- !app_assoc.
    + unfold pre1. rewrite !length_app, length_be_bytes. lia.
Qed.

Lemma decode_children_run b cs : forall pre post acc off,
  Forall (in_sint 32) cs -> b = pre ++ concat (child_bytes <$> cs) ++ post -> off = Z.of_nat (length pre) ->
  decode_children b off (length cs) acc = Ok (acc ++ cs).
Proof.
  induction cs as [|c cs IH]; intros pre post acc off Hcs Hb Hoff; cbn [length decode_children].
  - by rewrite app_nil_r.
  - apply Forall_cons in Hcs as [Hc Hcs]. change (concat (child_bytes <$> c :: cs)) with (child_bytes c ++ concat (child_bytes <$> cs)) in *.
    rewrite <- app_assoc in Hb. rewrite (getI32_at b pre c _ off Hb Hoff Hc). cbn [obind].
    rewrite (IH (pre ++ child_bytes c) post); [by rewrite <- app_assoc|done|by rewrite <- app_assoc|]. unfold child_bytes. len.
Qed.

(** ** A node in its page *)

(** The bytes of a page that holds the node. *)
Record node_page (tn : string) (b : list byte) (n : btreeNode) : Prop := {
  np_valid : valid_buf b;
  np_ok : node_ok tn n;
  np_fits : node_size n <= PageSize;
  np_flag : field 1 14 b = if isLeaf n then 1 else 0;
  np_parent : field 4 18 b = uint32 (parentPageID n);
  np_left : field 4 22 b = uint32 (leftSibPageID n);
  np_right : field 4 26 b = uint32 (rightSibPageID n);
  np_count : field 4 30 b = Z.of_nat (length (keys n));
  np_data : sub 34 (length (data_bytes n)) b = data_bytes n
}.

Lemma keys_length ks tn : Forall (key_ok tn) ks -> (length ks <= length (concat (key_bytes <$> ks)))%nat.
Proof.
  induction 1 as [|k ks Hk _ IH]; [done|]. change (concat (key_bytes <$> k :: ks)) with (key_bytes k ++ concat (key_bytes <$> ks)).
  rewrite length_app. cbn [length]. destruct k as [|n|s|c]; cbn [key_ok] in Hk; try tauto; cbn [key_bytes]; rewrite ?length_app, length_be_bytes; lia.
Qed.

(** [readNode] of the page. *)
Lemma decode_node_page idx b n :
  node_page (type_name idx) b n -> decode_node idx (nodePageID n) b = Ok n.
Proof.
  intros [Hv [(Hp & Hl & Hr) Hk Hs] Hfit Hflag H1 H2 H3 H4 Hd]. assert (Hlen : Z.of_nat (length b) = 8192) by (by destruct Hv).
  unfold node_size, nodeDataStartOff, nodeHdrSize, btreeHeapHeaderSize, PageSize in Hfit.
  unfold decode_node, nodeIsLeafOff, nodeParentOff, nodeLeftSibOff, nodeRightSibOff, nodeKeyCountOff, nodeDataStartOff, nodeHdrSize, btreeHeapHeaderSize.
  rewrite go_slice_ok by lia. cbn [obind]. change (Z.to_nat (10 + 4)) with 14%nat. change (Z.to_nat (10 + 4 + 1 - (10 + 4))) with 1%nat.
  fold (field 1 14 b). rewrite Hflag. rewrite !getI32_field by lia. rewrite getU32_field by lia. cbn [obind].
  change (Z.to_nat (10 + 8)) with 18%nat. change (Z.to_nat (10 + 12)) with 22%nat. change (Z.to_nat (10 + 16)) with 26%nat. change (Z.to_nat (10 + 20)) with 30%nat.
  rewrite H1, H2, H3, H4, Nat2Z.id, !int32_uint32 by done. set (data := data_bytes n) in *.
  assert (Hb : b = take 34 b ++ data ++ drop (34 + length data) b).
  { rewrite <- Hd at 1. unfold sub. rewrite <- (drop_drop _ _ 34), take_drop. by rewrite take_drop. }
  unfold data in Hb at 1. unfold data_bytes in Hb at 1. rewrite <- app_assoc in Hb.
  rewrite (decode_keys_run idx b (keys n) (take 34 b) _ [] (10 + 24) Hk Hb) by (rewrite length_take; lia). cbn [obind]. cbn [app].
  set (kb := concat (key_bytes <$> keys n)) in *. assert (Hb' : forall x, b = take 34 b ++ kb ++ x -> b = (take 34 b ++ kb) ++ x) by (intros x Hx; by rewrite <- app_assoc).
  assert (Hoff : 10 + 24 + Z.of_nat (length kb) = Z.of_nat (length (take 34 b ++ kb))) by (rewrite length_app, length_take; lia).
  destruct (isLeaf n) eqn:El; cbn [Z.eqb].
  - destruct Hs as (Hvl & Hc & Ht). rewrite <- Hvl. rewrite (decode_values_run b (values n) _ _ [] _ Ht (Hb' _ Hb) Hoff) by lia.
    cbn [obind]. destruct n; cbn in *; by subst.
  - destruct Hs as (Hvl & Hcl & Hc). rewrite <- Hcl. rewrite (decode_children_run b (children n) _ _ [] _ Hc (Hb' _ Hb) Hoff).
    cbn [obind]. destruct n; cbn in *; by subst.
Qed.

(** The next write of a page: the new buffer, its length and validity. *)
Ltac lay :=
  match goal with
  | |- context [go_write ?b (Z.of_nat ?p) ?bs] =>
      let b' := fresh "b" in let E := fresh "E" in let W := fresh "W" in let V := fresh "V" in let L := fresh "L" in
      destruct (go_write_wrote b (Z.of_nat p) bs) as (b' & E & W); [lia|rewrite ?length_be_bytes; cbn [length]; lia|];
      rewrite E; clear E; cbn [obind]; rewrite Nat2Z.id in W;
      assert (V : valid_buf b') by (eapply wrote_valid; [exact W|lia|eassumption]);
      assert (L : Z.of_nat (length b') = 8192) by (by destruct V)
  end.

Ltac laid_fields :=
  repeat match goal with
  | W : wrote ?b ?b' ?pos (be_bytes 4 ?v) |- context [field 4 ?pos ?b'] =>
      rewrite (field_wrote_same b b' pos 4 v W) by apply uint32_range
  | W : wrote ?b ?b' ?pos ?bs |- context [field ?m ?q ?b'] =>
      rewrite (field_wrote_other b b' pos bs m q W) by (rewrite ?length_be_bytes; cbn [length]; lia)
  end.

(** The data behind the header. *)
Lemma lays_data idx n b :
  node_ok (type_name idx) n -> (34 + length (data_bytes n) <= length b)%nat ->
  exists b', (let! ' (buf, off) := encode_keys idx (keys n) b (Z.of_nat 34) in
      if isLeaf n then encode_values (values n) buf off else encode_children (children n) buf off) = Ok b' /\
    wrote b b' 34 (data_bytes n).
Proof.
  intros [_ Hk _] Hf. unfold data_bytes in *. rewrite length_app in Hf.
  destruct (lays_keys idx (keys n) Hk b 34%nat) as (b1 & -> & W1); [lia|]. cbn [obind]. destruct (W1) as [L1 _].
  assert (Hlast : exists b2, (if isLeaf n then encode_values (values n) b1 (Z.of_nat (34 + length (concat (key_bytes <$> keys n))))
      else encode_children (children n) b1 (Z.of_nat (34 + length (concat (key_bytes <$> keys n))))) = Ok b2 /\
    wrote b1 b2 (34 + length (concat (key_bytes <$> keys n)))
      (if isLeaf n then concat (tids_bytes <$> values n) else concat (child_bytes <$> children n))).
  { destruct (isLeaf n); [apply lays_values|apply lays_children]; lia. }
  destruct Hlast as (b2 & E2 & W2). exists b2. split; [exact E2|]. by eapply wrote_app.
Qed.

(** [writeNode] into the page. *)
Lemma encode_node_page idx b n :
  valid_buf b -> node_ok (type_name idx) n -> node_size n <= PageSize ->
  exists b', encode_node idx n b = Ok b' /\ node_page (type_name idx) b' n.
Proof.
  intros Hv Hok Hfit. assert (Hlen : Z.of_nat (length b) = 8192) by (by destruct Hv).
  pose proof Hfit as Hf. unfold node_size, nodeDataStartOff, nodeHdrSize, btreeHeapHeaderSize, PageSize in Hf.
  assert (Hcount : in_uint 32 (Z.of_nat (length (keys n)))).
  { destruct Hok as [_ Hk _]. pose proof (keys_length _ _ Hk). unfold data_bytes in Hf. rewrite length_app in Hf. unfold in_uint. lia. }
  unfold encode_node, nodeIsLeafOff, nodeParentOff, nodeLeftSibOff, nodeRightSibOff, nodeKeyCountOff, nodeDataStartOff, nodeHdrSize, btreeHeapHeaderSize, putU32.
  change 10 with (Z.of_nat 10). change (Z.of_nat 10 + 4) with (Z.of_nat 14). change (Z.of_nat 10 + 8) with (Z.of_nat 18). change (Z.of_nat 10 + 12) with (Z.of_nat 22).
  change (Z.of_nat 10 + 16) with (Z.of_nat 26). change (Z.of_nat 10 + 20) with (Z.of_nat 30). change (Z.of_nat 10 + 24) with (Z.of_nat 34).
  do 6 lay. destruct (lays_data idx n b5 Hok) as (b6 & E6 & W6); [lia|]. exists b6. split; [exact E6|].
  assert (Hflag : field 1 14 b6 = if isLeaf n then 1 else 0).
  { laid_fields. unfold field. destruct W0 as (_ & Hs & _). cbn [length] in Hs. rewrite Hs. by destruct (isLeaf n). }
  split; [eapply wrote_valid; [exact W6|lia|done]|done|done|done| | | | |apply W6]; laid_fields; try done. by apply uint_id.
Qed.
End NodeSpec.
