(* ===== verification/BTreeTree.v ===== *)
(** * BTreeTree: the tree in the pages of a BTree index

    The nodes that are on the pages are a finite map from page numbers; this
    file says when such a map holds a balanced tree ([stored]), when the tree is
    ordered ([ordered]) and how it is taken apart at one node ([ctx]), which is
    what a search does on its way down and an insertion undoes on its way up. *)

From S2P Require Import Prelude GoRuntime Utf8 Ast HeapPage Replacer PageFile BufferPool PageStore CatalogModel Semantic Eval CatalogManager Storage IndexPage BTreeIndex BTreeNode.
#[local] Open Scope Z_scope.

Module TreeSpec.
Import HeapBufferPoolManager IndexPage DiskBTreeIndex Predicates NodeSpec.

(** ** Trees *)
Record leaf : Type := { l_id : Z; l_right : Z; l_keys : list any; l_values : list (list TID) }.
Record inner : Type := { i_id : Z; i_keys : list any }.

(** A tree of height [h]: a leaf, or an inner node and its subtrees. *)
Fixpoint tree (h : nat) : Type :=
  match h with
  | O => leaf
  | S h => (inner * list (tree h))%type
  end.

Definition root_id {h} : tree h -> Z :=
  match h with O => fun t => l_id t | S _ => fun t => i_id t.1 end.

Fixpoint leaves {h} : tree h -> list leaf :=
  match h with
  | O => fun t => [t]
  | S h => fun t => concat (leaves <$> t.2)
  end.

Fixpoint ids {h} : tree h -> list Z :=
  match h with
  | O => fun t => [l_id t]
  | S h => fun t => i_id t.1 :: concat (ids <$> t.2)
  end.

Definition entries_of (l : leaf) : list entry := zip (l_keys l) (l_values l).
Definition entries_in (ls : list leaf) : list entry := concat (entries_of <$> ls).

(** Each leaf points to the next one. *)
Fixpoint linked (ls : list leaf) : Prop :=
  match ls with
  | [] => True
  | l :: ls => l_right l = match ls with [] => -1 | l' :: _ => l_id l' end /\ linked ls
  end.

(** ** The nodes of a tree in a map *)
Definition leaf_node (p left : Z) (l : leaf) : btreeNode := {|
  nodePageID := l_id l; isLeaf := true; parentPageID := p; leftSibPageID := left; rightSibPageID := l_right l;
  keys := l_keys l; values := l_values l; children := [] |}.
Definition inner_node (p left right : Z) (f : inner) (cs : list Z) : btreeNode := {|
  nodePageID := i_id f; isLeaf := false; parentPageID := p; leftSibPageID := left; rightSibPageID := right;
  keys := i_keys f; values := []; children := cs |}.

(** Keys are short enough for inner nodes to split into nodes that fit. *)
Definition max_key : Z := 210.

Section trees.
Context (tn : string).

Definition good_node (n : btreeNode) : Prop := node_ok tn n /\ node_size n <= btreePageCapacity.

Implicit Types (N : gmap Z btreeNode) (p : Z) (lo hi : option any).

Definition has_node N (n : btreeNode) : Prop := N !! nodePageID n = Some n /\ good_node n.

(** The tree below the parent [p] is in the map. *)
Fixpoint stored N p {h} : tree h -> Prop :=
  match h with
  | O => fun t => exists left, has_node N (leaf_node p left t)
  | S h => fun t => (exists left right, has_node N (inner_node p left right t.1 (root_id <$> t.2))) /\
      Forall (stored N (i_id t.1)) t.2
  end.

Lemma root_in_ids {h} (t : tree h) : root_id t ∈ ids t.
Proof. destruct h; cbn; by left. Qed.

Lemma elem_of_concat_map {A B} (f : A -> list B) l y : y ∈ concat (f <$> l) <-> exists x, x ∈ l /\ y ∈ f x.
Proof.
  induction l as [|x l IH]; cbn.
  - split; [by intros ?%elem_of_nil|]. by intros (x & ?%elem_of_nil & _).
  - rewrite elem_of_app, IH. setoid_rewrite elem_of_cons. naive_solver.
Qed.

(** Only the nodes of the tree matter. *)
Lemma stored_frame N N' {h} : forall p (t : tree h),
  (forall id, id ∈ ids t -> N' !! id = N !! id) -> stored N p t -> stored N' p t.
Proof.
  unfold has_node. induction h as [|h IH]; intros p t HN; cbn [stored].
  - intros (left & H & Hg). exists left. split; [|done]. rewrite HN; [done|]. by left.
  - intros [(left & right & H & Hg) Hts]. split.
    + exists left, right. split; [|done]. rewrite HN; [done|]. by left.
    + rewrite Forall_forall in Hts |- *. intros c Hc. apply IH; [|by apply Hts]. intros id Hid. apply HN. right.
      apply elem_of_concat_map. by exists c.
Qed.

Lemma stored_list_frame N N' {h} p (ts : list (tree h)) :
  (forall id, id ∈ concat (ids <$> ts) -> N' !! id = N !! id) -> Forall (stored N p) ts -> Forall (stored N' p) ts.
Proof.
  rewrite !Forall_forall. intros HN Hts t Ht. apply (stored_frame N); [|by apply Hts].
  intros i Hi. apply HN, elem_of_concat_map. by exists t.
Qed.

(** ** Order *)
Definition above_lo lo (k : any) : Prop := match lo with None => True | Some b => value_le b k end.
Definition past_lo lo (k : any) : Prop := match lo with None => True | Some b => value_lt b k end.
Definition under_hi hi (k : any) : Prop := match hi with None => True | Some b => value_lt k b end.

(** The keys of a leaf lie between the separators around it; separators are
    strictly between those around their node. *)
Definition tree_key (k : any) : Prop := key_ok tn k /\ key_size k <= max_key.
Definition in_range lo hi (k : any) : Prop := key_kind tn k /\ above_lo lo k /\ under_hi hi k.
Definition separates lo hi (k : any) : Prop := tree_key k /\ past_lo lo k /\ under_hi hi k.

(** [W lo hi t] holds of every subtree between its separators. *)
Fixpoint kids {T} (W : option any -> option any -> T -> Prop) lo (ks : list any) hi (ts : list T) : Prop :=
  match ts with
  | [] => False
  | t :: ts =>
    match ks with
    | [] => ts = [] /\ W lo hi t
    | k :: ks => W lo (Some k) t /\ separates lo hi k /\ kids W (Some k) ks hi ts
    end
  end.

(** Keys in strict order. *)
Definition increasing (ks : list any) : Prop :=
  forall i j a b, (i < j)%nat -> ks !! i = Some a -> ks !! j = Some b -> value_lt a b.

Fixpoint ordered {h} lo hi : tree h -> Prop :=
  match h with
  | O => fun t => increasing (l_keys t) /\ Forall (in_range lo hi) (l_keys t) /\
      length (l_values t) = length (l_keys t) /\ Forall (fun tids => tids <> []) (l_values t) /\
      Forall tree_key (l_keys t)
  | S h => fun t => kids ordered lo (i_keys t.1) hi t.2
  end.

Lemma increasing_sorted ks : increasing ks -> sorted ks.
Proof. intros H i j a b Hij Ha Hb. apply lt_le. by eapply H. Qed.

Lemma increasing_nil : increasing [].
Proof. by intros i j a b _ H. Qed.

Lemma increasing_app ks1 ks2 :
  increasing (ks1 ++ ks2) <-> increasing ks1 /\ increasing ks2 /\ forall a b, a ∈ ks1 -> b ∈ ks2 -> value_lt a b.
Proof.
  split.
  - intros H. split_and!.
    + intros i j a b Hij Ha Hb. apply (H i j); [done|by apply lookup_app_l_Some..].
    + intros i j a b Hij Ha Hb. apply (H (length ks1 + i)%nat (length ks1 + j)%nat); [lia|by rewrite lookup_app_r, Nat.add_comm, Nat.add_sub by lia..].
    + intros a b (i & Ha)%list_elem_of_lookup (j & Hb)%list_elem_of_lookup. apply (H i (length ks1 + j)%nat).
      * apply lookup_lt_Some in Ha. lia.
      * by apply lookup_app_l_Some.
      * by rewrite lookup_app_r, Nat.add_comm, Nat.add_sub by lia.
  - intros (H1 & H2 & H12) i j a b Hij [Ha|[Hli Ha]]%lookup_app_Some [Hb|[Hlj Hb]]%lookup_app_Some.
    + by apply (H1 i j).
    + apply H12; by eapply list_elem_of_lookup_2.
    + apply lookup_lt_Some in Hb. lia.
    + apply (H2 (i - length ks1)%nat (j - length ks1)%nat); [lia|done|done].
Qed.

Lemma increasing_singleton k : increasing [k].
Proof. intros i j a b Hij Ha Hb. apply lookup_lt_Some in Ha, Hb. cbn in *. lia. Qed.

(** *** Ranges *)
Definition bound_ok (b : option any) : Prop := match b with None => True | Some b => tree_key b end.

Lemma range_lower lo hi k k0 : bound_ok lo -> separates lo hi k0 -> in_range (Some k0) hi k -> in_range lo hi k.
Proof.
  intros Hlo (H0 & H1 & H2) (Hk & H3 & H4). split; [done|]. split; [|done]. destruct lo as [b|]; [|done]. cbn in *.
  apply lt_le. by apply (lt_le_trans tn b k0 k); [apply key_ok_kind, H0|apply Hk|..].
Qed.

Lemma range_upper lo hi k k0 : separates lo hi k0 -> in_range lo (Some k0) k -> in_range lo hi k.
Proof.
  intros (H0 & H1 & H2) (Hk & H3 & H4). split; [done|]. split; [done|]. destruct hi as [b|]; [|done]. cbn in *.
  by eapply value_lt_trans.
Qed.

Lemma sep_lower lo hi k k0 : separates lo hi k0 -> separates (Some k0) hi k -> separates lo hi k.
Proof.
  intros (H0 & H1 & H2) (Hk & H3 & H4). split; [done|]. split; [|done]. destruct lo as [b|]; [|done]. cbn in *.
  by eapply value_lt_trans.
Qed.

Lemma sep_upper lo hi k k0 : separates lo hi k0 -> separates lo (Some k0) k -> separates lo hi k.
Proof.
  intros (H0 & H1 & H2) (Hk & H3 & H4). split; [done|]. split; [done|]. destruct hi as [b|]; [|done]. cbn in *.
  by eapply value_lt_trans.
Qed.

(** *** Children

    [before W lo kl l] are the children [l] with the separators [kl] behind
    them; [after W m kr hi r] are the children [r] with separators in front. *)
Fixpoint before {T} (W : option any -> option any -> T -> Prop) lo (kl : list any) hi (l : list T) : Prop :=
  match kl, l with
  | [], [] => True
  | k :: kl, t :: l => W lo (Some k) t /\ separates lo hi k /\ before W (Some k) kl hi l
  | _, _ => False
  end.

Definition after {T} (W : option any -> option any -> T -> Prop) lo (kr : list any) hi (r : list T) : Prop :=
  match kr with
  | [] => r = []
  | k :: kr => separates lo hi k /\ kids W (Some k) kr hi r
  end.

(** The separators next to the child between [kl] and [kr]. *)
Definition low lo (kl : list any) : option any := match last kl with Some k => Some k | None => lo end.
Definition high (kr : list any) hi : option any := match kr with k :: _ => Some k | [] => hi end.

Lemma low_cons lo k kl : low lo (k :: kl) = low (Some k) kl.
Proof.
  unfold low. destruct kl as [|a kl]; [done|]. change (last (k :: a :: kl)) with (last (a :: kl)).
  by destruct (proj2 (last_is_Some (a :: kl)) ltac:(done)) as [x ->].
Qed.

Section kids.
Context {T : Type} (W : option any -> option any -> T -> Prop).

Lemma kids_length ks : forall lo hi ts, kids W lo ks hi ts -> length ts = S (length ks).
Proof.
  induction ks as [|k ks IH]; intros lo hi [|t ts] H; cbn in *; try done.
  - by destruct H as [-> _].
  - destruct H as (_ & _ & H). f_equal. by eapply IH.
Qed.

Lemma kids_app kl : forall lo kr hi l ts, length kl = length l ->
  kids W lo (kl ++ kr) hi (l ++ ts) <-> before W lo kl hi l /\ kids W (low lo kl) kr hi ts.
Proof.
  induction kl as [|k kl IH]; intros lo kr hi [|t l] ts Hl; try done; cbn [app before kids].
  - change (low lo []) with lo. tauto.
  - rewrite low_cons. injection Hl as Hl. rewrite IH by done. tauto.
Qed.

Lemma kids_cons lo kr hi t r : kids W lo kr hi (t :: r) <-> W lo (high kr hi) t /\ after W lo kr hi r.
Proof. destruct kr; cbn; tauto. Qed.

(** The separators between which a child stands are in order. *)
Lemma before_low lo kl hi l : bound_ok lo -> before W lo kl hi l -> bound_ok (low lo kl).
Proof.
  revert lo l. induction kl as [|k kl IH]; intros lo [|t l] Hlo H; try done. rewrite low_cons.
  destruct H as (_ & Hk & H). by eapply IH; [apply Hk|].
Qed.

Lemma after_high lo kr hi r : bound_ok hi -> after W lo kr hi r -> bound_ok (high kr hi).
Proof. destruct kr; [done|]. intros _ [H _]. apply H. Qed.

(** What is in the range of a child is in the range of the node. *)
Lemma below_low lo kl hi l k : bound_ok lo -> before W lo kl hi l -> in_range (low lo kl) hi k -> in_range lo hi k.
Proof.
  revert lo l. induction kl as [|k0 kl IH]; intros lo [|t l] Hlo H; try done. rewrite low_cons.
  destruct H as (_ & Hk & H). intros Hr. eapply range_lower; [done|exact Hk|]. eapply IH; [apply Hk|done|done].
Qed.

Lemma sep_low lo kl hi l k : before W lo kl hi l -> separates (low lo kl) hi k -> separates lo hi k.
Proof.
  revert lo l. induction kl as [|k0 kl IH]; intros lo [|t l] H; try done. rewrite low_cons.
  destruct H as (_ & Hk & H). intros Hr. eapply sep_lower; [exact Hk|]. by eapply IH.
Qed.

Lemma range_high lo kr hi r k : after W lo kr hi r -> in_range lo (high kr hi) k -> in_range lo hi k.
Proof. destruct kr; [done|]. intros [H _]. by apply range_upper. Qed.

Lemma sep_high lo kr hi r k : after W lo kr hi r -> separates lo (high kr hi) k -> separates lo hi k.
Proof. destruct kr; [done|]. intros [H _]. by apply sep_upper. Qed.

(** Behind a separator. *)
Lemma after_low lo kr hi r k : separates lo (high kr hi) k -> after W lo kr hi r -> after W (Some k) kr hi r.
Proof. destruct kr as [|k' kr]; [done|]. intros (_ & _ & Hk) [(H1 & _ & H2) H]. by split. Qed.

(** A node cut at a separator. *)
Lemma kids_split ks1 : forall lo k ks2 hi ts, kids W lo (ks1 ++ k :: ks2) hi ts ->
  kids W lo ks1 (Some k) (take (S (length ks1)) ts) /\ separates lo hi k /\ kids W (Some k) ks2 hi (drop (S (length ks1)) ts).
Proof.
  induction ks1 as [|k1 ks1 IH]; intros lo k ks2 hi [|t ts] H; try done; cbn [app kids] in H.
  - destruct H as (Ht & Hk & H). cbn. rewrite take_0, drop_0. done.
  - destruct H as (Ht & Hk & H). destruct (IH _ _ _ _ _ H) as (H1 & H2 & H3). cbn [length take drop kids]. split_and!.
    + done.
    + destruct Hk as (? & ? & _), H2 as (_ & ? & _). by split_and!.
    + exact H1.
    + by eapply sep_lower.
    + exact H3.
Qed.
End kids.

Lemma kids_mono {T} (W W' : option any -> option any -> T -> Prop) ks : forall lo hi ts,
  (forall lo hi t, W lo hi t -> W' lo hi t) -> kids W lo ks hi ts -> kids W' lo ks hi ts.
Proof.
  induction ks as [|k ks IH]; intros lo hi [|t ts] HW H; try done; cbn in *; naive_solver.
Qed.

(** The separators are in strict order. *)
Lemma kids_sorted {T} (W : option any -> option any -> T -> Prop) ks : forall lo hi ts,
  kids W lo ks hi ts -> increasing ks /\ Forall (separates lo hi) ks.
Proof.
  induction ks as [|k ks IH]; intros lo hi [|t ts] H; try done; cbn in H.
  destruct H as (_ & Hk & H). destruct (IH _ _ _ H) as [Hi Hf]. rewrite Forall_forall in Hf. split.
  - apply (increasing_app [k]). split_and!; [apply increasing_singleton|done|].
    intros a b ->%list_elem_of_singleton Hb. apply Hf in Hb. apply Hb.
  - constructor; [done|]. apply Forall_forall. intros x Hx. eapply sep_lower; [exact Hk|]. by apply Hf.
Qed.

Lemma ordered_range {h} : forall lo hi (t : tree h), bound_ok lo ->
  ordered lo hi t -> forall l, l ∈ leaves t -> Forall (in_range lo hi) (l_keys l).
Proof.
  induction h as [|h IH]; intros lo hi t Hlo; cbn [ordered leaves].
  - intros (_ & H & _) l Hl. apply list_elem_of_singleton in Hl as ->. done.
  - destruct t as [f ts]. cbn [fst snd]. generalize (i_keys f) as ks. intros ks Hk l Hl.
    revert lo Hlo ks Hk Hl. induction ts as [|t ts IHts]; intros lo Hlo ks Hk Hl; [by apply elem_of_nil in Hl|].
    cbn in Hl. apply elem_of_app in Hl. destruct ks as [|k ks]; cbn [kids] in Hk.
    + destruct Hk as [-> Hk]. destruct Hl as [Hl|Hl]; [by eapply IH|by apply elem_of_nil in Hl].
    + destruct Hk as (Ht & Hs & Hk). destruct Hl as [Hl|Hl].
      * eapply Forall_impl; [eapply IH; [exact Hlo|exact Ht|exact Hl]|]. intros x. by apply range_upper.
      * eapply Forall_impl; [eapply (IHts (Some k)); [apply Hs|exact Hk|exact Hl]|]. intros x. by apply range_lower.
Qed.
End trees.

(** ** A tree with a hole

    [ctx H h] is a tree of height [H] with a hole for a tree of height [h]: the
    nodes on the way to the hole, from the last to the root, each with the
    children on both sides of the way. *)
Inductive ctx (H : nat) : nat -> Type :=
| Top : ctx H H
| Up {h} (id : Z) (kl kr : list any) (l r : list (tree h)) (c : ctx H (S h)) : ctx H h.
#[global] Arguments Top {H}.
#[global] Arguments Up {H h} id kl kr l r c.

(** The tree with [t] in the hole. *)
Fixpoint plug {H h} (c : ctx H h) : tree h -> tree H :=
  match c with
  | Top => fun t => t
  | Up id kl kr l r c => fun t => plug c (({| i_id := id; i_keys := kl ++ kr |}, l ++ t :: r) : tree (S _))
  end.

Fixpoint c_depth {H h} (c : ctx H h) : nat := match c with Top => O | Up _ _ _ _ _ c => S (c_depth c) end.
Definition c_parent {H h} (c : ctx H h) : Z := match c with Top => -1 | Up id _ _ _ _ _ => id end.
(** The pages on the way, as [findLeaf] collects them. *)
Fixpoint c_path {H h} (c : ctx H h) : list Z := match c with Top => [] | Up id _ _ _ _ c => id :: c_path c end.

Fixpoint c_left {H h} (c : ctx H h) : list leaf :=
  match c with Top => [] | Up _ _ _ l _ c => c_left c ++ concat (leaves <$> l) end.
Fixpoint c_right {H h} (c : ctx H h) : list leaf :=
  match c with Top => [] | Up _ _ _ _ r c => concat (leaves <$> r) ++ c_right c end.
Fixpoint c_ids {H h} (c : ctx H h) : list Z :=
  match c with Top => [] | Up id _ _ l r c => id :: concat (ids <$> l) ++ concat (ids <$> r) ++ c_ids c end.

(** The separators around the hole. *)
Fixpoint c_low {H h} (c : ctx H h) : option any := match c with Top => None | Up _ kl _ _ _ c => low (c_low c) kl end.
Fixpoint c_high {H h} (c : ctx H h) : option any := match c with Top => None | Up _ _ kr _ _ c => high kr (c_high c) end.

Lemma plug_leaves {H h} (c : ctx H h) : forall t, leaves (plug c t) = c_left c ++ leaves t ++ c_right c.
Proof.
  induction c as [|h id kl kr l r c IH]; intros t; cbn [plug c_left c_right]; [by rewrite app_nil_r|].
  rewrite IH. cbn [leaves snd]. rewrite fmap_app, concat_app. cbn [fmap list_fmap concat]. by rewrite <- !app_assoc.
Qed.

Lemma plug_ids {H h} (c : ctx H h) : forall t, ids (plug c t) ≡ₚ ids t ++ c_ids c.
Proof.
  induction c as [|h id kl kr l r c IH]; intros t; cbn [plug c_ids]; [by rewrite app_nil_r|].
  rewrite IH. cbn [ids fst snd i_id]. rewrite fmap_app, concat_app. cbn [fmap list_fmap concat]. solve_Permutation.
Qed.

Section contexts.
Context (tn : string) {H : nat}.
Implicit Types (N : gmap Z btreeNode).

Fixpoint c_stored N {h} (c : ctx H h) (hole : Z) : Prop :=
  match c with
  | Top => True
  | Up id kl kr l r c =>
    (exists left right, has_node tn N (inner_node (c_parent c) left right {| i_id := id; i_keys := kl ++ kr |}
       ((root_id <$> l) ++ hole :: (root_id <$> r)))) /\
    Forall (stored tn N id) l /\ Forall (stored tn N id) r /\ c_stored N c id
  end.

Lemma plug_stored N {h} (c : ctx H h) : forall t,
  stored tn N (-1) (plug c t) <-> c_stored N c (root_id t) /\ stored tn N (c_parent c) t.
Proof.
  induction c as [|h id kl kr l r c IH]; intros t; cbn [plug c_stored c_parent]; [tauto|].
  rewrite IH. cbn [stored root_id fst snd i_id]. rewrite fmap_app, Forall_app, Forall_cons. cbn [fmap list_fmap]. tauto.
Qed.

Lemma c_stored_frame N N' {h} (c : ctx H h) : forall hole,
  (forall id, id ∈ c_ids c -> N' !! id = N !! id) -> c_stored N c hole -> c_stored N' c hole.
Proof.
  unfold has_node. induction c as [|h id kl kr l r c IH]; intros hole HN; cbn [c_stored c_ids] in *; [done|].
  intros ((left & right & Hn & Hg) & Hl & Hr & Hc).
  split_and!.
  - exists left, right. split; [|done]. rewrite HN; [done|]. by left.
  - apply (stored_list_frame tn N); [|done]. intros x Hx. apply HN. right. rewrite !elem_of_app. by left.
  - apply (stored_list_frame tn N); [|done]. intros x Hx. apply HN. right. rewrite !elem_of_app. right; by left.
  - apply IH; [|done]. intros x Hx. apply HN. right. rewrite !elem_of_app. by right; right.
Qed.

Fixpoint c_ordered {h} (c : ctx H h) : Prop :=
  match c with
  | Top => True
  | Up id kl kr l r c =>
    length kl = length l /\ before tn (ordered tn) (c_low c) kl (c_high c) l /\
    after tn (ordered tn) (low (c_low c) kl) kr (c_high c) r /\ c_ordered c
  end.

Lemma plug_ordered {h} (c : ctx H h) : forall t,
  c_ordered c -> ordered tn (c_low c) (c_high c) t -> ordered tn None None (plug c t).
Proof.
  induction c as [|h id kl kr l r c IH]; intros t; cbn [plug c_ordered c_low c_high]; [done|].
  intros (Hl & Hb & Ha & Hc) Ht. apply IH; [done|]. cbn [ordered fst snd i_keys]. apply kids_app; [done|].
  split; [done|]. by apply kids_cons.
Qed.

Lemma c_low_ok {h} (c : ctx H h) : c_ordered c -> bound_ok tn (c_low c).
Proof.
  induction c as [|h id kl kr l r c IH]; cbn [c_ordered c_low]; [done|]. intros (_ & Hb & _ & Hc).
  eapply before_low; [by apply IH|exact Hb].
Qed.
End contexts.

(** ** Going down *)
Section descend.
Context (tn : string).

Lemma splits_app p ks1 ks2 pos :
  Forall p ks1 -> Forall (fun a => ~ p a) ks2 -> splits p (ks1 ++ ks2) pos -> pos = length ks1.
Proof.
  intros H1 H2 (Hlen & H3 & H4). rewrite Forall_forall in H1, H2, H3, H4. rewrite length_app in Hlen.
  destruct (lt_eq_lt_dec pos (length ks1)) as [[Hlt|]|Hgt]; [exfalso|done|exfalso].
  - destruct (lookup_lt_is_Some_2 ks1 pos Hlt) as [a Ha]. apply (H4 a); [|apply H1; by eapply list_elem_of_lookup_2].
    apply (list_elem_of_lookup_2 _ 0). rewrite lookup_drop, Nat.add_0_r. by apply lookup_app_l_Some.
  - destruct (lookup_lt_is_Some_2 ks2 0) as [a Ha]; [lia|]. apply (H2 a); [by eapply list_elem_of_lookup_2|]. apply H3.
    apply (list_elem_of_lookup_2 _ (length ks1)). rewrite lookup_take_lt by done. by rewrite lookup_app_r, Nat.sub_diag by done.
Qed.

(** The keys before a child are at most a key of the child, those behind it
    are greater. *)
Lemma before_le {T} (W : option any -> option any -> T -> Prop) lo kl hi l k :
  before tn W lo kl hi l -> in_range tn (low lo kl) hi k -> Forall (fun a => value_le a k) kl.
Proof.
  revert lo l. induction kl as [|k0 kl IH]; intros lo [|t l] H Hr; try done.
  destruct H as (_ & Hk & H). rewrite low_cons in Hr. constructor; [|by eapply IH].
  assert (Hb : bound_ok tn (Some k0)) by apply Hk. by destruct (below_low tn W _ _ _ _ _ Hb H Hr) as (_ & ? & _).
Qed.

Lemma after_lt {T} (W : option any -> option any -> T -> Prop) lo kr hi r k :
  after tn W lo kr hi r -> under_hi (high kr hi) k -> Forall (fun a => ~ value_le a k) kr.
Proof.
  destruct kr as [|k0 kr]; [by constructor|]. intros [_ H] Hk. cbn in Hk. apply kids_sorted in H as [_ H].
  constructor; [by intros Hn|]. eapply Forall_impl; [exact H|]. intros a (_ & Ha & _) Hn. cbn in Ha.
  apply Hn. by eapply value_lt_trans.
Qed.

(** [upperBound] finds the child with the key in its range. *)
Lemma descend {T} (W : option any -> option any -> T -> Prop) lo ks hi ts k pos :
  bound_ok tn lo -> kids tn W lo ks hi ts -> in_range tn lo hi k -> splits (fun a => value_le a k) ks pos ->
  exists l t r, ts = l ++ t :: r /\ length (take pos ks) = length l /\ ts !! pos = Some t /\
    before tn W lo (take pos ks) hi l /\ after tn W (low lo (take pos ks)) (drop pos ks) hi r /\
    W (low lo (take pos ks)) (high (drop pos ks) hi) t /\
    in_range tn (low lo (take pos ks)) (high (drop pos ks) hi) k.
Proof.
  intros Hlo Hk (Hkey & Hkl & Hkh) (Hpos & H1 & H2). pose proof (kids_length _ _ _ _ _ _ Hk) as Hl.
  destruct (lookup_lt_is_Some_2 ts pos) as [t Ht]; [lia|].
  assert (Hts : ts = take pos ts ++ t :: drop (S pos) ts) by (by rewrite take_drop_middle).
  assert (Hlen : length (take pos ks) = length (take pos ts)) by (rewrite !length_take; lia).
  rewrite Hts, <- (take_drop pos ks) in Hk. apply kids_app in Hk as [Hb Hk]; [|done]. apply kids_cons in Hk as [Hw Ha].
  exists (take pos ts), t, (drop (S pos) ts). split_and!; try done. split; [done|split].
  - unfold low. destruct (last (take pos ks)) as [b|] eqn:Eb; [|done]. cbn. rewrite Forall_forall in H1. apply H1.
    apply last_Some in Eb as [l' ->]. apply elem_of_app. right. by left.
  - destruct (drop pos ks) as [|b kr]; [done|]. cbn. apply Forall_cons in H2 as [H2 _].
    destruct (decide (value_lt k b)) as [|Hn]; [done|]. by destruct H2.
Qed.

(** The leaves beside the way have keys beside the range of the hole. *)
Lemma before_leaves {h} lo kl hi (l : list (tree h)) k lf :
  bound_ok tn lo -> before tn (ordered tn) lo kl hi l -> in_range tn (low lo kl) hi k ->
  lf ∈ concat (leaves <$> l) -> Forall (fun a => value_lt a k) (l_keys lf).
Proof.
  revert lo l. induction kl as [|k0 kl IH]; intros lo [|t l] Hlo H Hr Hlf; try done; [by apply elem_of_nil in Hlf|].
  destruct H as (Ht & Hk & H). rewrite low_cons in Hr. assert (Hb : bound_ok tn (Some k0)) by apply Hk.
  cbn in Hlf. apply elem_of_app in Hlf as [Hlf|Hlf]; [|by eapply IH].
  eapply Forall_impl; [exact (ordered_range tn lo (Some k0) t Hlo Ht lf Hlf)|]. intros a (Ha & _ & Hak). cbn in Hak.
  destruct (below_low tn _ _ _ _ _ _ Hb H Hr) as (Hkey & Hle & _). by apply (lt_le_trans tn a k0 k); [apply key_ok_kind, Hb|apply Hkey|..].
Qed.

Lemma after_leaves {h} lo kr hi (r : list (tree h)) k lf :
  after tn (ordered tn) lo kr hi r -> key_kind tn k -> under_hi (high kr hi) k ->
  lf ∈ concat (leaves <$> r) -> Forall (fun a => value_lt k a) (l_keys lf).
Proof.
  destruct kr as [|k0 kr]; [by intros -> _ _ ?%elem_of_nil|]. intros [Hs H] Hkey Hk Hlf. cbn in Hk.
  eapply Forall_impl.
  - eapply (ordered_range tn (h := S h) (Some k0) hi ({| i_id := 0; i_keys := kr |}, r)); [apply Hs|exact H|exact Hlf].
  - intros a (Ha & Hle & _). cbn in Hle. apply (lt_le_trans tn k k0 a); [apply key_ok_kind, Hs|apply Ha|done|done].
Qed.

Lemma c_range {H h} (c : ctx H h) k : c_ordered tn c -> in_range tn (c_low c) (c_high c) k -> key_kind tn k /\
  (forall lf, lf ∈ c_left c -> Forall (fun a => value_lt a k) (l_keys lf)) /\
  (forall lf, lf ∈ c_right c -> Forall (fun a => value_lt k a) (l_keys lf)).
Proof.
  induction c as [|h id kl kr l r c IH]; cbn [c_ordered c_low c_high c_left c_right].
  { intros _ [? _]. split_and!; [done|by intros ? ?%elem_of_nil..]. }
  intros (_ & Hb & Ha & Hc) Hr. pose proof (c_low_ok tn c Hc) as Hlo.
  pose proof (range_high tn _ _ _ _ _ _ Ha Hr) as Hr1. pose proof (below_low tn _ _ _ _ _ _ Hlo Hb Hr1) as Hr2.
  destruct (IH Hc Hr2) as (Hk & Hl & Hrt). split_and!; [done|..]; intros lf [Hlf|Hlf]%elem_of_app.
  - by apply Hl.
  - by eapply before_leaves.
  - eapply after_leaves; [exact Ha|done|apply Hr|done].
  - by apply Hrt.
Qed.
End descend.

(** ** All keys of a tree are in order *)
Definition all_keys (ls : list leaf) : list any := concat (l_keys <$> ls).

Lemma all_keys_app ls1 ls2 : all_keys (ls1 ++ ls2) = all_keys ls1 ++ all_keys ls2.
Proof. unfold all_keys. by rewrite fmap_app, concat_app. Qed.

Section keys.
Context (tn : string).

Lemma all_keys_range {h} lo hi (t : tree h) : bound_ok tn lo -> ordered tn lo hi t -> Forall (in_range tn lo hi) (all_keys (leaves t)).
Proof.
  intros Hlo Ho. apply Forall_forall. intros k (l & Hl & Hk)%elem_of_concat_map.
  pose proof (ordered_range tn lo hi t Hlo Ho l Hl) as H. rewrite Forall_forall in H. by apply H.
Qed.

Lemma ordered_increasing {h} : forall lo hi (t : tree h), bound_ok tn lo -> ordered tn lo hi t -> increasing (all_keys (leaves t)).
Proof.
  induction h as [|h IH]; intros lo hi t Hlo; cbn [ordered leaves].
  - intros [H _]. unfold all_keys. cbn. by rewrite app_nil_r.
  - destruct t as [f ts]. cbn [fst snd]. generalize (i_keys f) as ks. intros ks Hk. revert lo Hlo ks Hk.
    induction ts as [|t ts IHts]; intros lo Hlo ks Hk; [apply increasing_nil|]. cbn [fmap list_fmap concat]. rewrite all_keys_app.
    destruct ks as [|k ks]; cbn [kids] in Hk.
    + destruct Hk as [-> Hk]. cbn. rewrite app_nil_r. by eapply IH.
    + destruct Hk as (Ht & Hs & Hk). apply increasing_app. split_and!; [by eapply IH|by apply (IHts (Some k) (proj1 Hs) ks)|].
      intros a b Ha Hb. pose proof (all_keys_range lo (Some k) t Hlo Ht) as H1. rewrite Forall_forall in H1.
      pose proof (all_keys_range (h := S h) (Some k) hi ({| i_id := 0; i_keys := ks |}, ts) (proj1 Hs) Hk) as H2. rewrite Forall_forall in H2.
      destruct (H1 a Ha) as (Hka & _ & Hak), (H2 b Hb) as (Hkb & Hbk & _). cbn in Hak, Hbk.
      apply (lt_le_trans tn a k b); [apply key_ok_kind, Hs|done..].
Qed.

Lemma ordered_lengths {h} l : forall lo hi (t : tree h), ordered tn lo hi t -> l ∈ leaves t -> length (l_values l) = length (l_keys l).
Proof.
  induction h as [|h IH]; intros lo hi t; cbn [ordered leaves].
  - intros (_ & _ & H & _) ->%list_elem_of_singleton. done.
  - destruct t as [f ts]. cbn [fst snd]. generalize (i_keys f) as ks. intros ks Hk (t & Ht & Hl)%elem_of_concat_map.
    revert lo ts Hk Ht. induction ks as [|k ks IHk]; intros lo [|t' ts] Hk Ht; try done; cbn [kids] in Hk.
    + destruct Hk as [-> Hk]. apply list_elem_of_singleton in Ht as ->. by eapply IH.
    + destruct Hk as (Ht' & _ & Hk). apply elem_of_cons in Ht as [->|Ht]; [by eapply IH|by eapply IHk].
Qed.

Lemma entries_keys ls : (forall l, l ∈ ls -> length (l_values l) = length (l_keys l)) -> fst <$> entries_in ls = all_keys ls.
Proof.
  unfold entries_in, all_keys. induction ls as [|l ls IH]; [done|]. intros Hl. cbn [fmap list_fmap concat]. rewrite fmap_app. f_equal.
  - apply fst_zip. rewrite (Hl l); [done|by left].
  - apply IH. intros l' Hl'. apply Hl. by right.
Qed.

Lemma ordered_entries {h} (t : tree h) : ordered tn None None t -> increasing (fst <$> entries_in (leaves t)).
Proof.
  intros Ho. rewrite entries_keys; [by apply (ordered_increasing None None)|]. intros l Hl. by eapply ordered_lengths.
Qed.
End keys.
End TreeSpec.
