(* ===== verification/BTreeSearch.v ===== *)
(** * BTreeSearch: searching in the leaves

    What the searches of the BTree index compute in the leaves they reach:
    [leaf_search] for one key, [range_leaf_spec] for an interval, against
    the reference definitions [find_tids] and [tids_between] on the list of all
    entries. *)

From S2P Require Import Prelude GoRuntime Utf8 Ast HeapPage Replacer PageFile BufferPool PageStore CatalogModel Semantic Eval CatalogManager Storage IndexPage BTreeIndex BTreeNode BTreeTree.
#[local] Open Scope Z_scope.

Module SearchSpec.
Import HeapBufferPoolManager IndexPage DiskBTreeIndex Predicates NodeSpec TreeSpec.

(** The TIDs of a key in a list of entries. *)
Fixpoint find_tids (k : any) (es : list entry) : list TID :=
  match es with
  | [] => []
  | (k', tids) :: es => if decide (k' = k) then tids else find_tids k es
  end.

Lemma find_tids_app k es1 es2 :
  Forall (fun e => e.1 <> k) es1 -> find_tids k (es1 ++ es2) = find_tids k es2.
Proof. induction 1 as [|[k' ts] es Hne _ IH]; [done|]. cbn. by rewrite decide_False. Qed.

Lemma find_tids_none k es : Forall (fun e => e.1 <> k) es -> find_tids k es = [].
Proof. intros H. rewrite <- (app_nil_r es). by rewrite find_tids_app. Qed.

Lemma find_tids_app_r k es1 es2 :
  Forall (fun e => e.1 <> k) es2 -> find_tids k (es1 ++ es2) = find_tids k es1.
Proof. intros H. induction es1 as [|[k' ts] es1 IH]; [by apply find_tids_none|]. cbn. by case_decide. Qed.

(** An interval of keys; a bound that is nil is open. *)
Definition over (from : any) (fromInclusive : bool) (k : any) : Prop :=
  from = ANil \/ if fromInclusive then value_le from k else value_lt from k.
Definition under (to : any) (toInclusive : bool) (k : any) : Prop :=
  to = ANil \/ if toInclusive then value_le k to else value_lt k to.

#[export] Instance value_le_dec a b : Decision (value_le a b).
Proof. unfold value_le. apply _. Defined.
#[export] Instance over_dec from fi k : Decision (over from fi k).
Proof. unfold over. destruct fi; apply _. Defined.
#[export] Instance under_dec to ti k : Decision (under to ti k).
Proof. unfold under. destruct ti; apply _. Defined.

Definition tids_between (from : any) (fi : bool) (to : any) (ti : bool) (es : list entry) : list TID :=
  concat (snd <$> filter (fun e => over from fi e.1 /\ under to ti e.1) es).

Lemma tids_between_app from fi to ti es1 es2 :
  tids_between from fi to ti (es1 ++ es2) = tids_between from fi to ti es1 ++ tids_between from fi to ti es2.
Proof. unfold tids_between. by rewrite filter_app, fmap_app, concat_app. Qed.

Lemma tids_between_none from fi to ti es :
  Forall (fun e => ~ (over from fi e.1 /\ under to ti e.1)) es -> tids_between from fi to ti es = [].
Proof.
  unfold tids_between. induction 1 as [|e es Hn _ IH]; [done|]. by rewrite filter_cons_False.
Qed.

(** Entries and their keys. *)
Lemma Forall_entries (p : any -> Prop) (ks : list any) (vs : list (list TID)) :
  Forall p ks -> Forall (fun e : entry => p e.1) (zip ks vs).
Proof. apply Forall_zip_l. Qed.

Section searches.
Context (idx : t).
Let tn := type_name idx.

(** The code of [Search] in the leaf it found. *)
Lemma leaf_search (lf : leaf) k :
  Forall (key_kind tn) (l_keys lf) -> key_kind tn k -> increasing (l_keys lf) -> length (l_values lf) = length (l_keys lf) ->
  (let! pos := lowerBound idx (l_keys lf) k in
   match l_keys lf !! pos with
   | None => Ok []
   | Some k0 =>
     let! cmp := compareKeys idx k0 k in
     if negb (cmp =? 0) then Ok [] else of_option (l_values lf !! pos)
   end) = Ok (find_tids k (entries_of lf)).
Proof.
  intros Hks Hk Hi Hl. destruct (lowerBound_spec idx (l_keys lf) k Hks Hk (increasing_sorted _ Hi)) as (pos & -> & Hp & H1 & H2). cbn [obind].
  unfold entries_of. rewrite (zip_split (l_keys lf) (l_values lf) pos) by done. rewrite find_tids_app.
  2:{ apply (Forall_entries (fun a => a <> k)). eapply Forall_impl; [exact H1|]. intros a Ha ->. by eapply value_lt_irrefl. }
  destruct (l_keys lf !! pos) as [k0|] eqn:Ek.
  - destruct (lookup_lt_is_Some_2 (l_values lf) pos) as [ts Ets]; [apply lookup_lt_Some in Ek; lia|].
    rewrite (drop_S _ _ _ Ek) in H2 |- *. rewrite (drop_S _ _ _ Ets), Ets. change (zip (k0 :: ?a) (ts :: ?b)) with ((k0, ts) :: zip a b).
    apply Forall_cons in H2 as [Hn H2]. destruct (compareKeys_spec idx k0 k) as (c & -> & Hc); [exact (Forall_lookup_1 _ _ _ _ Hks Ek)|done|].
    cbn [obind find_tids]. destruct Hc as [[-> Hc]|[[-> Hc]|[-> Hc]]]; [done|by rewrite decide_True|]. cbn [Z.eqb negb].
    rewrite decide_False by (intros ->; by eapply value_lt_irrefl). rewrite find_tids_none; [done|]. apply (Forall_entries (fun a => a <> k)).
    assert (Hs : increasing (k0 :: drop (S pos) (l_keys lf))).
    { rewrite <- (drop_S _ _ _ Ek). rewrite <- (take_drop pos (l_keys lf)) in Hi. by apply increasing_app in Hi as (_ & Hi & _). }
    apply (increasing_app [k0]) in Hs as (_ & _ & Hs). apply Forall_forall. intros a Ha ->. eapply value_lt_asym; [exact Hc|]. apply Hs; [by left|done].
  - rewrite drop_ge by by apply lookup_ge_None. done.
Qed.

(** The tests of the range loop. *)
Definition bound_key (b : any) : Prop := b = ANil \/ key_kind tn b.

Lemma below_spec from fi k : bound_key from -> key_kind tn k ->
  exists b, below idx from fi k = Ok b /\ (b = true <-> ~ over from fi k).
Proof.
  intros Hb Hk. unfold below, over. destruct (decide (from = ANil)) as [->|Hne].
  { exists false. split; [done|]. split; [done|]. intros H. destruct H. by left. }
  destruct Hb as [|Hb]; [done|]. destruct (compareKeys_spec idx k from Hk Hb) as (c & -> & Hc). cbn [obind]. eexists. split; [done|].
  destruct Hc as [[-> Hc]|[[-> Hc]|[-> Hc]]], fi; cbn; split; try done.
  - intros _ [?|H]; [done|]. by apply H.
  - intros _ [?|H]; [done|]. by eapply value_lt_asym.
  - intros H. destruct H. right. subst. apply le_refl.
  - intros _ [?|H]; [done|]. subst. by eapply value_lt_irrefl.
  - intros H. destruct H. right. by apply lt_le.
  - intros H. destruct H. by right.
Qed.

Lemma above_spec to ti k : bound_key to -> key_kind tn k ->
  exists b, above idx to ti k = Ok b /\ (b = true <-> ~ under to ti k).
Proof.
  intros Hb Hk. unfold above, under. destruct (decide (to = ANil)) as [->|Hne].
  { exists false. split; [done|]. split; [done|]. intros H. destruct H. by left. }
  destruct Hb as [|Hb]; [done|]. destruct (compareKeys_spec idx k to Hk Hb) as (c & -> & Hc). cbn [obind]. eexists. split; [done|].
  destruct Hc as [[-> Hc]|[[-> Hc]|[-> Hc]]], ti; cbn; split; try done.
  - intros H. destruct H. right. by apply lt_le.
  - intros H. destruct H. by right.
  - intros H. destruct H. right. subst. apply le_refl.
  - intros _ [?|H]; [done|]. subst. by eapply value_lt_irrefl.
  - intros _ [?|H]; [done|]. by apply H.
  - intros _ [?|H]; [done|]. by eapply value_lt_asym.
Qed.

(** Keys behind the interval stay behind it. *)
Lemma under_mono to ti a b : bound_key to -> key_kind tn a -> key_kind tn b -> value_lt a b -> ~ under to ti a -> ~ under to ti b.
Proof.
  unfold under. intros Hto Ha Hb Hab Hn [->|H]; apply Hn; [by left|]. right. destruct Hto as [->|Hto]; [destruct Hn; by left|].
  destruct ti; [apply lt_le; by apply (lt_le_trans tn a b to)|]. by eapply value_lt_trans.
Qed.

(** The inner loop over the keys from [pos] on. *)
Lemma range_leaf_spec from fi to ti (leaf : btreeNode) : bound_key from -> bound_key to -> forall ks pos result,
  ks = drop pos (keys leaf) -> Forall (key_kind tn) ks -> length (values leaf) = length (keys leaf) -> increasing ks ->
  exists b, range_leaf idx from fi to ti leaf pos ks result =
      Ok (result ++ tids_between from fi to ti (zip ks (drop pos (values leaf))), b) /\
    (b = true -> exists k, k ∈ ks /\ ~ under to ti k).
Proof.
  intros Hf Ht. induction ks as [|k ks IH]; intros pos result Eks Hks Hl Hi; cbn [range_leaf].
  { exists false. split; [|done]. unfold tids_between. cbn. by rewrite app_nil_r. }
  apply Forall_cons in Hks as [Hk Hks].
  assert (Ek : keys leaf !! pos = Some k) by (rewrite <- (Nat.add_0_r pos), <- lookup_drop, <- Eks; done).
  assert (Eks' : ks = drop (S pos) (keys leaf)) by (rewrite (drop_S _ _ _ Ek) in Eks; by injection Eks).
  destruct (lookup_lt_is_Some_2 (values leaf) pos) as [ts Ets]; [apply lookup_lt_Some in Ek; lia|].
  rewrite (drop_S _ _ _ Ets). change (zip (k :: ks) (ts :: ?b)) with ([(k, ts)] ++ zip ks b). rewrite tids_between_app.
  pose proof Hi as Hi'. change (k :: ks) with ([k] ++ ks) in Hi'. apply increasing_app in Hi' as (_ & Hi' & Hlt).
  destruct (below_spec from fi k Hf Hk) as (b1 & -> & Hb1). cbn [obind]. destruct b1.
  - destruct (IH (S pos) result Eks' Hks Hl Hi') as (b & Eb & Hb). exists b. split.
    + rewrite (tids_between_none _ _ _ _ [(k, ts)]); [exact Eb|]. constructor; [|done]. intros [Ho _]. by apply Hb1.
    + intros Hbt. destruct (Hb Hbt) as (a & Ha & Hn). exists a. split; [by right|done].
  - assert (Ho : over from fi k) by (apply dec_stable; intros H; by apply Hb1 in H).
    destruct (above_spec to ti k Ht Hk) as (b2 & -> & Hb2). cbn [obind]. destruct b2.
    + exists true. pose proof (proj1 Hb2 eq_refl) as Hn. split; [|intros _; exists k; split; [by left|done]].
      rewrite <- tids_between_app, tids_between_none; [by rewrite app_nil_r|]. constructor; [by intros [_ ?]|].
      apply (Forall_entries (fun a => ~ (over from fi a /\ under to ti a))). apply Forall_forall. intros a Ha [_ Hu]. revert Hu.
      rewrite Forall_forall in Hks. apply (under_mono to ti k a); auto. apply Hlt; [by left|done].
    + assert (Hu : under to ti k) by (apply dec_stable; intros H; by apply Hb2 in H). rewrite Ets. cbn [of_option obind].
      destruct (IH (S pos) (result ++ ts) Eks' Hks Hl Hi') as (b & Eb & Hb). exists b. split.
      * rewrite Eb, <- app_assoc. do 3 f_equal. unfold tids_between. rewrite filter_cons_True by done. cbn. by rewrite app_nil_r.
      * intros Hbt. destruct (Hb Hbt) as (a & Ha & Hn). exists a. split; [by right|done].
Qed.
End searches.
End SearchSpec.
