(* ===== verification/BTreeSplit.v ===== *)
(** * BTreeSplit: what an insertion changes in a tree

    The parts of an insertion into a BTree that do not touch the pool: how the
    nodes in a map change when a subtree gets another parent or a leaf another
    neighbour ([stored_reparent], [stored_relink]), the chain of the leaves
    ([linked_replace]), a leaf with one more TID ([leaf_add]), and that the
    halves of a node that is too large fit on a page ([leaf_halves],
    [inner_halves]). *)

From S2P Require Import Prelude GoRuntime Utf8 Ast HeapPage Replacer PageFile BufferPool PageStore CatalogModel Semantic Eval CatalogManager Storage IndexPage BTreeIndex BTreeNode BTreeTree.
#[local] Open Scope Z_scope.

Module SplitSpec.
Import HeapBufferPoolManager IndexPage DiskBTreeIndex Predicates NodeSpec TreeSpec.

(** ** The nodes *)
Definition node_of {h} (p left right : Z) : tree h -> btreeNode :=
  match h with
  | O => fun t => leaf_node p left t
  | S _ => fun t => inner_node p left right t.1 (root_id <$> t.2)
  end.

Lemma node_of_id {h} p left right (t : tree h) : nodePageID (node_of p left right t) = root_id t.
Proof. by destruct h. Qed.

Lemma node_of_parent {h} p left right (t : tree h) : parentPageID (node_of p left right t) = p.
Proof. by destruct h. Qed.

Lemma node_of_with_parent {h} p q left right (t : tree h) :
  with_parent q (node_of p left right t) = node_of q left right t.
Proof. by destruct h. Qed.

Section nodes.
Context (tn : string).
Implicit Types (N : gmap Z btreeNode).

Lemma good_parent n q : in_sint 32 q -> good_node tn n -> good_node tn (with_parent q n).
Proof. intros Hq [[(_ & H1 & H2) Hk Hs] Hz]. split; [|done]. by split; [|done|done]. Qed.

Lemma good_left n q : in_sint 32 q -> good_node tn n -> good_node tn (with_left q n).
Proof. intros Hq [[(H1 & _ & H2) Hk Hs] Hz]. split; [|done]. by split; [|done|done]. Qed.

Lemma stored_root N p {h} (t : tree h) : stored tn N p t -> exists left right, has_node tn N (node_of p left right t).
Proof. destruct h; cbn; [intros [left H]; by exists left, 0|by intros [H _]]. Qed.

Lemma has_node_eq N n id : id = nodePageID n -> good_node tn n -> has_node tn (<[id := n]> N) n.
Proof. intros -> Hg. split; [apply lookup_insert_eq|done]. Qed.

Lemma has_node_ne N n m id : id <> nodePageID n -> has_node tn N n -> has_node tn (<[id := m]> N) n.
Proof. intros Hne [Hn Hg]. split; [|done]. by rewrite lookup_insert_ne. Qed.

Lemma has_node_lookup N n id m : has_node tn N n -> N !! id = Some m -> id = nodePageID n -> m = n /\ good_node tn n.
Proof. intros [Hn Hg] Hm ->. split; [congruence|done]. Qed.

(** A subtree with another parent: only its root has changed. *)
Lemma stored_reparent N p q {h} (t : tree h) n :
  stored tn N p t -> N !! root_id t = Some n -> in_sint 32 q -> NoDup (ids t) ->
  stored tn (<[root_id t := with_parent q n]> N) q t.
Proof.
  intros Ht Hn Hq Hnd. assert (Hroot : exists left right, n = node_of p left right t /\ good_node tn n).
  { destruct (stored_root N p t Ht) as (left & right & Hl & Hg). rewrite node_of_id in Hl. assert (n = node_of p left right t) as -> by congruence.
    by exists left, right. }
  destruct Hroot as (left & right & Hnode & Hg). assert (Hg' : good_node tn (with_parent q n)) by (by apply good_parent). rewrite Hnode, node_of_with_parent in *.
  assert (Hhas : has_node tn (<[root_id t := node_of q left right t]> N) (node_of q left right t)).
  { split; [|done]. by rewrite node_of_id, lookup_insert_eq. }
  destruct h as [|h]; cbn [stored].
  - by exists left.
  - split; [by exists left, right|]. destruct Ht as [_ Ht]. apply (stored_list_frame tn N); [|done].
    cbn [ids] in Hnd. apply NoDup_cons in Hnd as [Hnd _]. intros id Hid. apply lookup_insert_ne. intros Heq. apply Hnd. by rewrite <- Heq in Hid.
Qed.

(** A node with another left neighbour. *)
Lemma stored_relink N id n x {h} : forall p (t : tree h),
  N !! id = Some n -> in_sint 32 x -> stored tn N p t -> stored tn (<[id := with_left x n]> N) p t.
Proof.
  induction h as [|h IH]; intros p t Hn Hx; cbn [stored].
  - intros (left & H). destruct (decide (id = l_id t)) as [Heq|Hne].
    + destruct (has_node_lookup N _ id n H Hn Heq) as [-> Hg]. exists x.
      apply has_node_eq; [done|]. exact (good_left _ x Hx Hg).
    + exists left. by apply has_node_ne.
  - intros [(left & right & H) Hts]. split; [|eapply Forall_impl; [exact Hts|]; intros c Hc; by apply IH].
    destruct (decide (id = i_id t.1)) as [Heq|Hne].
    + destruct (has_node_lookup N _ id n H Hn Heq) as [-> Hg]. exists x, right.
      apply has_node_eq; [done|]. exact (good_left _ x Hx Hg).
    + exists left, right. by apply has_node_ne.
Qed.

Lemma stored_leaf N {h} lf : forall p (t : tree h), stored tn N p t -> lf ∈ leaves t -> exists q left, has_node tn N (leaf_node q left lf).
Proof.
  induction h as [|h IH]; intros p t; cbn [stored leaves].
  - intros [left H] ->%list_elem_of_singleton. by exists p, left.
  - intros [_ Ht] (c & Hc & Hlf)%elem_of_concat_map. rewrite Forall_forall in Ht. by eapply IH; [apply Ht|].
Qed.

Lemma stored_ids N {h} id : forall p (t : tree h), stored tn N p t -> id ∈ ids t -> is_Some (N !! id).
Proof.
  induction h as [|h IH]; intros p t; cbn [stored ids].
  - intros (left & H & _) ->%list_elem_of_singleton. by eexists.
  - intros [(left & right & H & _) Ht] [->|(c & Hc & Hid)%elem_of_concat_map]%elem_of_cons; [by eexists|].
    rewrite Forall_forall in Ht. by eapply IH; [apply Ht|].
Qed.

Lemma c_stored_ids N {H h} (c : ctx H h) id : forall hole, c_stored tn N c hole -> id ∈ c_ids c -> is_Some (N !! id).
Proof.
  induction c as [|h i kl kr l r c IH]; intros hole; cbn [c_stored c_ids]; [by intros _ ?%elem_of_nil|].
  assert (Hch : forall ts : list (tree h), Forall (stored tn N i) ts -> id ∈ concat (ids <$> ts) -> is_Some (N !! id)).
  { intros ts Hts (t & Ht & Hid)%elem_of_concat_map. rewrite Forall_forall in Hts. by eapply stored_ids; [apply Hts|]. }
  intros ((left & right & Hn & _) & Hl & Hr & Hc). rewrite elem_of_cons, !elem_of_app.
  intros [->|[Hid|[Hid|Hid]]]; [exact (mk_is_Some _ _ Hn)|by apply (Hch l)|by apply (Hch r)|by apply (IH i)].
Qed.
End nodes.

(** ** The chain of the leaves *)
Lemma linked_suffix ls1 ls2 : linked (ls1 ++ ls2) -> linked ls2.
Proof. induction ls1 as [|l ls1 IH]; [done|]. cbn. intros [_ H]. by apply IH. Qed.

Lemma linked_replace ls1 l l' ls2 ls2' :
  l_id l' = l_id l -> linked (ls1 ++ l :: ls2) -> linked (l' :: ls2') -> linked (ls1 ++ l' :: ls2').
Proof.
  intros Hid Hl Hl'. induction ls1 as [|l1 ls1 IH]; [done|]. destruct Hl as [Hr Hl]. split; [|by apply IH].
  rewrite Hr. by destruct ls1.
Qed.

Lemma entries_in_app ls1 ls2 : entries_in (ls1 ++ ls2) = entries_in ls1 ++ entries_in ls2.
Proof. unfold entries_in. by rewrite fmap_app, concat_app. Qed.

(** ** Sizes *)
Definition entry_size (e : entry) : Z := key_size e.1 + 4 + Z.of_nat (length e.2) * TIDSize.

(** An entry is short enough for leaves to split into leaves that fit. *)
Definition max_entry : Z := 311.

Lemma total_app l1 l2 : total (l1 ++ l2) = total l1 + total l2.
Proof. induction l1; cbn; lia. Qed.

Lemma total_bounds {A} (f : A -> Z) lo hi l :
  Forall (fun x => lo <= f x <= hi) l -> lo * Z.of_nat (length l) <= total (f <$> l) <= hi * Z.of_nat (length l).
Proof. induction 1 as [|x l Hx _ IH]; cbn [fmap list_fmap total length]; lia. Qed.

Lemma leaf_size p left l : length (l_values l) = length (l_keys l) ->
  node_size (leaf_node p left l) = nodeDataStartOff + total (entry_size <$> entries_of l).
Proof.
  intros Hl. unfold node_size, data_bytes, entries_of. cbn [leaf_node keys isLeaf values]. rewrite length_app, Nat2Z.inj_add, !length_concat_map. f_equal.
  revert Hl. generalize (l_values l) as vs. induction (l_keys l) as [|k ks IH]; intros [|v vs] Hl; try done.
  specialize (IH vs ltac:(by injection Hl)). change (zip (k :: ks) (v :: vs)) with ((k, v) :: zip ks vs). cbn [fmap list_fmap total]. rewrite length_tids. unfold entry_size at 1. cbn [fst snd]. unfold key_size. lia.
Qed.

Lemma inner_size p left right f cs :
  node_size (inner_node p left right f cs) = nodeDataStartOff + total (key_size <$> i_keys f) + 4 * Z.of_nat (length cs).
Proof.
  unfold node_size, data_bytes. cbn [inner_node keys isLeaf children]. rewrite length_app, Nat2Z.inj_add, !length_concat_map, <- Z.add_assoc. do 2 f_equal.
  induction cs as [|c cs IH]; [done|]. cbn [fmap list_fmap length total]. unfold child_bytes at 1. rewrite length_be_bytes. lia.
Qed.

Lemma key_size_range tn k : tree_key tn k -> 2 <= key_size k <= max_key.
Proof.
  intros [Hk Hm]. split; [|done]. unfold key_size. destruct k as [|n|s|b]; cbn [key_ok] in Hk; try tauto; cbn [key_bytes];
    rewrite ?length_app, length_be_bytes; lia.
Qed.

(** The halves of a leaf that has grown too large. *)
Lemma leaf_halves (es : list entry) :
  Forall (fun e => 12 <= entry_size e <= max_entry) es ->
  btreePageCapacity < nodeDataStartOff + total (entry_size <$> es) <= btreePageCapacity + max_entry ->
  let mid := Nat.div2 (length es) in
  (1 <= mid < length es)%nat /\
  nodeDataStartOff + total (entry_size <$> take mid es) <= btreePageCapacity /\
  nodeDataStartOff + total (entry_size <$> drop mid es) <= btreePageCapacity.
Proof.
  intros He Ht mid. unfold btreePageCapacity, nodeDataStartOff, nodeHdrSize, btreeHeapHeaderSize, PageSize, max_entry in *.
  pose proof (total_bounds _ _ _ _ He) as Hall. pose proof (total_bounds _ _ _ _ (Forall_take _ mid _ He)) as H1.
  pose proof (total_bounds _ _ _ _ (Forall_drop _ mid _ He)) as H2. rewrite length_take in H1. rewrite length_drop in H2.
  rewrite <- (take_drop mid es), fmap_app, total_app in Ht.
  assert (Hmid : (2 * mid <= length es <= 2 * mid + 1)%nat).
  { pose proof (Nat.div2_odd (length es)) as Ho. fold mid in Ho. destruct (Nat.odd (length es)); cbn in Ho; lia. }
  split_and!; lia.
Qed.

(** The halves of an inner node, without the key between them. *)
Lemma inner_halves tn (ks : list any) n :
  Forall (tree_key tn) ks -> n = length ks ->
  btreePageCapacity < nodeDataStartOff + total (key_size <$> ks) + 4 * Z.of_nat (S n) <= btreePageCapacity + max_key + 4 ->
  let mid := Nat.div2 n in
  (1 <= mid)%nat /\ (mid < n)%nat /\
  nodeDataStartOff + total (key_size <$> take mid ks) + 4 * Z.of_nat (S mid) <= btreePageCapacity /\
  nodeDataStartOff + total (key_size <$> drop (S mid) ks) + 4 * Z.of_nat (n - mid) <= btreePageCapacity.
Proof.
  intros Hk -> Ht mid. unfold btreePageCapacity, nodeDataStartOff, nodeHdrSize, btreeHeapHeaderSize, PageSize, max_key in *.
  assert (Hs : Forall (fun k => 2 <= key_size k <= 210) ks) by (eapply Forall_impl; [exact Hk|apply key_size_range]).
  pose proof (total_bounds _ _ _ _ Hs) as Hall. pose proof (total_bounds _ _ _ _ (Forall_take _ mid _ Hs)) as H1.
  pose proof (total_bounds _ _ _ _ (Forall_drop _ (S mid) _ Hs)) as H2. rewrite length_take in H1. rewrite length_drop in H2.
  assert (Hmid : (2 * mid <= length ks <= 2 * mid + 1)%nat).
  { pose proof (Nat.div2_odd (length ks)) as Ho. fold mid in Ho. destruct (Nat.odd (length ks)); cbn in Ho; lia. }
  assert (Hlt : (mid < length ks)%nat) by lia. destruct (lookup_lt_is_Some_2 ks mid Hlt) as [k Ek].
  pose proof (Forall_lookup_1 _ _ _ _ Hs Ek) as Hks. cbn beta in Hks.
  assert (Hsum : total (key_size <$> ks) = total (key_size <$> take mid ks) + (key_size k + total (key_size <$> drop (S mid) ks))).
  { rewrite <- (take_drop_middle ks mid k Ek) at 1. by rewrite fmap_app, total_app. }
  split_and!; lia.
Qed.

(** ** One more TID in a leaf *)
Lemma add_tid_keys (P : any -> Prop) k tid es : P k -> Forall P (fst <$> es) -> Forall P (fst <$> add_tid k tid es).
Proof.
  intros Hk. induction es as [|[k' ts] es IH]; cbn; [by repeat constructor|]. intros [H1 H2]%Forall_cons.
  repeat case_decide; cbn; repeat (constructor; try done). by apply IH.
Qed.

Lemma add_tid_values (P : list TID -> Prop) k tid es :
  P [tid] -> (forall ts, P ts -> P (ts ++ [tid])) -> Forall P (snd <$> es) -> Forall P (snd <$> add_tid k tid es).
Proof.
  intros Hn Ha. induction es as [|[k' ts] es IH]; cbn; [by repeat constructor|]. intros [H1 H2]%Forall_cons.
  repeat case_decide; cbn; repeat (constructor; auto).
Qed.

Lemma add_tid_total k tid es :
  total (entry_size <$> add_tid k tid es) <= total (entry_size <$> es) + entry_size (k, [tid]).
Proof.
  assert (Hk : 0 <= key_size k) by (unfold key_size; lia).
  induction es as [|[k' ts] es IH]; [cbn; lia|]. cbn [add_tid]. repeat case_decide; cbn [fmap list_fmap total]; [lia| |lia].
  unfold entry_size. cbn [fst snd]. rewrite length_app. unfold TIDSize. cbn [length]. lia.
Qed.

Lemma increasing_cons k ks : increasing (k :: ks) <-> increasing ks /\ Forall (value_lt k) ks.
Proof.
  change (k :: ks) with ([k] ++ ks). rewrite increasing_app, Forall_forall. split.
  - intros (_ & H & Hk). split; [done|]. intros x Hx. apply Hk; [by left|done].
  - intros [H Hk]. split_and!; [apply increasing_singleton|done|]. intros a b ->%list_elem_of_singleton Hb. by apply Hk.
Qed.

Lemma add_tid_increasing tn k tid es :
  key_ok tn k -> Forall (key_ok tn) (fst <$> es) -> increasing (fst <$> es) -> increasing (fst <$> add_tid k tid es).
Proof.
  intros Hk. induction es as [|[k' ts] es IH]; intros Hf Hi; [apply increasing_singleton|]. cbn in Hf, Hi |- *.
  apply Forall_cons in Hf as [Hk' Hf]. pose proof Hi as [Hi' Hlt]%increasing_cons. repeat case_decide; cbn.
  - apply increasing_cons. split; [by apply IH|]. by apply add_tid_keys.
  - done.
  - apply increasing_cons. split; [done|]. destruct (key_trichotomy tn k' k (key_ok_kind _ _ Hk') (key_ok_kind _ _ Hk)) as [?|[?|Hkk]]; [done..|].
    constructor; [done|]. eapply Forall_impl; [exact Hlt|]. intros x. by apply value_lt_trans.
Qed.

(** [insertIntoLeaf] on the leaf of a tree. *)
Lemma leaf_add idx lo hi p left (lf : leaf) k tid :
  ordered (h := O) (type_name idx) lo hi lf -> node_ok (type_name idx) (leaf_node p left lf) ->
  in_range (type_name idx) lo hi k -> tree_key (type_name idx) k -> tid_ok tid ->
  exists lf', insertIntoLeaf idx (leaf_node p left lf) k tid = Ok (leaf_node p left lf') /\
    l_id lf' = l_id lf /\ l_right lf' = l_right lf /\ entries_of lf' = add_tid k tid (entries_of lf) /\
    ordered (h := O) (type_name idx) lo hi lf' /\ node_ok (type_name idx) (leaf_node p left lf').
Proof.
  set (tn := type_name idx). intros (Hi & Hr & Hl & Hne & Hmax) [Hh Hks (Hl' & Hc & Ht)] Hk Hkm Htid. cbn in Hl', Ht, Hks.
  assert (Hfst : fst <$> zip (l_keys lf) (l_values lf) = l_keys lf) by (apply fst_zip; lia).
  assert (Hsnd : snd <$> zip (l_keys lf) (l_values lf) = l_values lf) by (apply snd_zip; lia).
  destruct (insertIntoLeaf_add idx (leaf_node p left lf) k tid) as (ks & vs & E & Hlen & Hz);
    [by apply keys_kind|apply Hk|by apply increasing_sorted|done|].
  assert (Eks : ks = fst <$> add_tid k tid (zip (l_keys lf) (l_values lf))) by (rewrite <- (fst_zip ks vs) by lia; by f_equal).
  assert (Evs : vs = snd <$> add_tid k tid (zip (l_keys lf) (l_values lf))) by (rewrite <- (snd_zip ks vs) by lia; by f_equal).
  exists {| l_id := l_id lf; l_right := l_right lf; l_keys := ks; l_values := vs |}. split; [exact E|].
  do 2 (split; [done|]). split; [exact Hz|]. split; [cbn; split_and!|split; cbn].
  - rewrite Eks. apply (add_tid_increasing tn); [apply Hkm|by rewrite Hfst..].
  - rewrite Eks. apply add_tid_keys; [done|]. by rewrite Hfst.
  - done.
  - rewrite Evs. apply add_tid_values; [done| |by rewrite Hsnd]. by intros [|].
  - rewrite Eks. apply (add_tid_keys (tree_key tn)); [done|]. by rewrite Hfst.
  - done.
  - rewrite Eks. apply add_tid_keys; [apply Hkm|]. by rewrite Hfst.
  - split_and!; [done..|]. rewrite Evs. apply add_tid_values; [by apply Forall_singleton| |by rewrite Hsnd].
    intros ts Hts. apply Forall_app. split; [done|by apply Forall_singleton].
Qed.

(** ** Splitting *)
Definition left_half (newPageID : Z) (lf : leaf) : leaf :=
  let mid := Nat.div2 (length (l_keys lf)) in
  {| l_id := l_id lf; l_right := newPageID; l_keys := take mid (l_keys lf); l_values := take mid (l_values lf) |}.
Definition right_half (newPageID : Z) (lf : leaf) : leaf :=
  let mid := Nat.div2 (length (l_keys lf)) in
  {| l_id := newPageID; l_right := l_right lf; l_keys := drop mid (l_keys lf); l_values := drop mid (l_values lf) |}.

Definition small (es : list entry) : Prop := Forall (fun e => entry_size e <= max_entry) es.

Section halves.
Context (tn : string).

Lemma entry_size_low k ts : key_ok tn k -> ts <> [] -> 12 <= entry_size (k, ts).
Proof.
  intros Hk Hne. unfold entry_size, key_size, TIDSize. cbn [fst snd]. assert (2 <= Z.of_nat (length (key_bytes k))).
  { destruct k as [|n|s|b]; cbn [key_ok] in Hk; try tauto; cbn [key_bytes]; rewrite ?length_app, length_be_bytes; lia. }
  destruct ts; [done|]. cbn [length]. lia.
Qed.

Lemma separates_between lo hi a b :
  bound_ok tn lo -> in_range tn lo hi a -> in_range tn lo hi b -> tree_key tn b -> value_lt a b -> separates tn lo hi b.
Proof.
  intros Hlo (Ha & Hla & _) (Hb & _ & Hh) Hbm Hab. split; [done|]. split; [|done]. destruct lo as [x|]; [|done].
  apply (le_lt_trans tn x a b); [apply key_ok_kind, Hlo|apply Ha|done|done].
Qed.

Lemma entry_sizes lo hi (lf : leaf) : ordered (h := O) tn lo hi lf -> small (entries_of lf) ->
  Forall (fun e => 12 <= entry_size e <= max_entry) (entries_of lf).
Proof.
  intros (_ & _ & Hl & Hne & Hr) Hs. unfold small in Hs.
  rewrite Forall_lookup in Hs. rewrite Forall_lookup in Hr. rewrite Forall_lookup in Hne. apply Forall_lookup. intros i [k ts] Hi. split; [|by eapply Hs].
  apply lookup_zip_with_Some in Hi as (k' & ts' & [= -> ->] & Hk & Hts). apply entry_size_low; [by apply (Hr i)|by apply (Hne i)].
Qed.

(** A leaf that has grown too large by one insertion. *)
Lemma leaf_split lo hi p left newPageID (lf : leaf) :
  bound_ok tn lo -> ordered (h := O) tn lo hi lf -> node_ok tn (leaf_node p left lf) -> small (entries_of lf) ->
  btreePageCapacity < node_size (leaf_node p left lf) <= btreePageCapacity + max_entry ->
  in_sint 32 newPageID -> in_sint 32 (l_id lf) ->
  exists sk, head (l_keys (right_half newPageID lf)) = Some sk /\ separates tn lo hi sk /\
    ordered (h := O) tn lo (Some sk) (left_half newPageID lf) /\ ordered (h := O) tn (Some sk) hi (right_half newPageID lf) /\
    good_node tn (leaf_node p left (left_half newPageID lf)) /\ good_node tn (leaf_node p (l_id lf) (right_half newPageID lf)) /\
    entries_of (left_half newPageID lf) ++ entries_of (right_half newPageID lf) = entries_of lf.
Proof.
  intros Hlo Hord [(Hp & Hlft & Hrt) Hks (Hl & _ & Htid)] Hsm Hsz Hnew Hid. cbn in Hl, Htid, Hks, Hp, Hlft, Hrt.
  rewrite leaf_size in Hsz by done. pose proof (leaf_halves (entries_of lf) (entry_sizes _ _ _ Hord Hsm) Hsz) as Hh.
  destruct Hord as (Hi & Hr & _ & Hne & Hmax). assert (Hlen : length (entries_of lf) = length (l_keys lf)) by (unfold entries_of; rewrite length_zip_with; lia).
  rewrite Hlen in Hh. unfold left_half, right_half. set (mid := Nat.div2 (length (l_keys lf))) in *. destruct Hh as ([Hm1 Hm2] & Hz1 & Hz2).
  assert (Htake : zip (take mid (l_keys lf)) (take mid (l_values lf)) = take mid (entries_of lf)) by (symmetry; apply zip_with_take).
  assert (Hdrop : zip (drop mid (l_keys lf)) (drop mid (l_values lf)) = drop mid (entries_of lf)) by (symmetry; apply zip_with_drop).
  destruct (lookup_lt_is_Some_2 (l_keys lf) mid Hm2) as [sk Esk]. destruct (lookup_lt_is_Some_2 (l_keys lf) 0) as [a Ea]; [lia|].
  exists sk. cbn [l_keys l_id l_right l_values].
  assert (Hsk : in_range tn lo hi sk) by by eapply Forall_lookup_1.
  assert (Hsplit : increasing (take mid (l_keys lf)) /\ increasing (drop mid (l_keys lf)) /\
      Forall (fun x => value_lt x sk) (take mid (l_keys lf)) /\ Forall (value_le sk) (drop mid (l_keys lf))).
  { rewrite <- (take_drop mid (l_keys lf)), increasing_app in Hi. destruct Hi as (H1 & H2 & H3). split_and!; [done..| |].
    - apply Forall_forall. intros x Hx. apply H3; [done|]. rewrite (drop_S _ sk mid Esk). by left.
    - rewrite (drop_S _ sk mid Esk) in H2 |- *. apply increasing_cons in H2 as [_ H2]. constructor; [apply le_refl|].
      eapply Forall_impl; [exact H2|]. intros x. apply lt_le. }
  destruct Hsplit as (Hi1 & Hi2 & Hlt & Hge). split; [by rewrite (drop_S _ sk mid Esk)|].
  split; [|split; [|split; [|split; [|split]]]].
  - apply (separates_between lo hi a sk Hlo); [by eapply Forall_lookup_1|done| |].
    { by apply (Forall_lookup_1 (tree_key tn) _ _ _ Hmax Esk). }
    apply (Forall_lookup_1 (fun x => value_lt x sk) _ 0 a Hlt).
    by rewrite lookup_take_lt by lia.
  - cbn. split_and!; [done| |rewrite !length_take; lia|by apply Forall_take..]. rewrite Forall_forall in Hlt. apply Forall_forall. intros x Hx.
    pose proof (Forall_take _ mid _ Hr) as Hr'. rewrite Forall_forall in Hr'. destruct (Hr' x Hx) as (? & ? & _). split; [done|]. split; [done|]. by apply Hlt.
  - cbn. split_and!; [done| |rewrite !length_drop; lia|by apply Forall_drop..]. rewrite Forall_forall in Hge. apply Forall_forall. intros x Hx.
    pose proof (Forall_drop _ mid _ Hr) as Hr'. rewrite Forall_forall in Hr'. destruct (Hr' x Hx) as (? & _ & ?). split; [done|]. split; [|done]. by apply Hge.
  - split; [split; cbn; [done|by apply Forall_take|]|].
    + split_and!; [rewrite !length_take; lia|done|by apply Forall_take].
    + rewrite leaf_size by (cbn; rewrite !length_take; lia). unfold entries_of at 1. cbn [l_keys l_values]. by rewrite Htake.
  - split; [split; cbn; [done|by apply Forall_drop|]|].
    + split_and!; [rewrite !length_drop; lia|done|by apply Forall_drop].
    + rewrite leaf_size by (cbn; rewrite !length_drop; lia). unfold entries_of at 1. cbn [l_keys l_values]. by rewrite Hdrop.
  - unfold entries_of at 1 2. cbn [l_keys l_values]. by rewrite Htake, Hdrop, take_drop.
Qed.

(** An inner node that has grown too large. *)
Lemma inner_split {T} (W : option any -> option any -> T -> Prop) lo hi (ks : list any) ts p left right id cs :
  kids tn W lo ks hi ts -> length cs = length ts ->
  btreePageCapacity < node_size (inner_node p left right {| i_id := id; i_keys := ks |} cs) <= btreePageCapacity + max_key + 4 ->
  let mid := Nat.div2 (length ks) in
  exists sk, ks !! mid = Some sk /\ separates tn lo hi sk /\ (S mid <= length ks)%nat /\
    kids tn W lo (take mid ks) (Some sk) (take (S mid) ts) /\ kids tn W (Some sk) (drop (S mid) ks) hi (drop (S mid) ts) /\
    nodeDataStartOff + total (key_size <$> take mid ks) + 4 * Z.of_nat (length (take (S mid) cs)) <= btreePageCapacity /\
    nodeDataStartOff + total (key_size <$> drop (S mid) ks) + 4 * Z.of_nat (length (drop (S mid) cs)) <= btreePageCapacity.
Proof.
  intros Hk Hcs Hsz mid. pose proof (kids_length _ _ _ _ _ _ Hk) as Hlen. rewrite inner_size, Hcs, Hlen in Hsz. cbn [i_keys] in Hsz.
  destruct (inner_halves tn ks (length ks)) as (Hm1 & Hm2 & Hz1 & Hz2); [|done|exact Hsz|].
  { eapply Forall_impl; [by eapply kids_sorted|]. by intros x [Hx _]. }
  fold mid in Hm1, Hm2, Hz1, Hz2. destruct (lookup_lt_is_Some_2 ks mid Hm2) as [sk Esk]. exists sk.
  pose proof Hk as Hk'. rewrite <- (take_drop_middle ks mid sk Esk) in Hk'. apply kids_split in Hk' as (H1 & H2 & H3).
  rewrite length_take_le in H1, H3 by lia. rewrite length_take_le by lia. rewrite length_drop, Hcs, Hlen.
  by split_and!.
Qed.
End halves.
End SplitSpec.
