(* ===== verification/BTreeProofs.v ===== *)
(** * BTreeProofs: the BTree index is a sorted multimap

    The proofs about the calls of [BTreeIndex]: nodes through the pool, the way
    down to a leaf ([findLeaf_run]), searches, and what an insertion does to
    the tree on its way up ([insertIntoParent_run]). *)

From S2P Require Import Prelude GoRuntime Utf8 Ast HeapPage Replacer PageFile BufferPool PageStore CatalogModel Semantic Eval CatalogManager Storage IndexPage BTreeIndex BTreeNode BTreeTree BTreeSearch BTreeSplit.
#[local] Open Scope Z_scope.

Module BTreeProofs.
Import HeapBufferPoolManager IndexPage DiskBTreeIndex Predicates NodeSpec TreeSpec SearchSpec SplitSpec.

(** ** The meta data on page 0 *)
Definition meta_ok (m : btreeMeta) : Prop :=
  in_sint 32 (rootPageID m) /\ in_sint 32 (height m) /\ in_sint 32 (leftmostLeafID m) /\ in_sint 32 (nextPageID m).

Lemma meta_roundtrip m b :
  valid_buf b -> meta_ok m -> exists b', write_meta m b = Ok b' /\ valid_buf b' /\ read_meta b' = Ok m.
Proof.
  intros Hv (H1 & H2 & H3 & H4). assert (Hlen : Z.of_nat (length b) = 8192) by (by destruct Hv).
  unfold write_meta, btreeMetaMagicOff, btreeMetaVersionOff, btreeMetaRootOff, btreeMetaHeightOff, btreeMetaLeftmostLeafOff,
    btreeMetaNextPageIDOff, btreeHeapHeaderSize, putU32.
  change 10 with (Z.of_nat 10). change (Z.of_nat 10 + 4) with (Z.of_nat 14). change (Z.of_nat 10 + 8) with (Z.of_nat 18).
  change (Z.of_nat 10 + 12) with (Z.of_nat 22). change (Z.of_nat 10 + 16) with (Z.of_nat 26). change (Z.of_nat 10 + 20) with (Z.of_nat 30).
  do 6 lay. eexists. split; [reflexivity|]. split; [done|].
  unfold read_meta, btreeMetaMagicOff, btreeMetaVersionOff, btreeMetaRootOff, btreeMetaHeightOff, btreeMetaLeftmostLeafOff,
    btreeMetaNextPageIDOff, btreeHeapHeaderSize. rewrite !getI32_field by lia. cbn [obind].
  change (Z.to_nat 10) with 10%nat. change (Z.to_nat (10 + 4)) with 14%nat. change (Z.to_nat (10 + 8)) with 18%nat.
  change (Z.to_nat (10 + 12)) with 22%nat. change (Z.to_nat (10 + 16)) with 26%nat. change (Z.to_nat (10 + 20)) with 30%nat.
  laid_fields. rewrite !int32_uint32 by done. by destruct m.
Qed.

(** One read of a node, from a state of the pool to the next. *)
Definition node_read {R D} `{!Replacer R, !PageFileManager D} (idx : t) (P P' : Pool R D) : Prop :=
  exists id n, readNode id (P, idx) = (Ok n, (P', idx)).

(** A node could not be read, after nothing but reads and for a reason of the
    disk: then [findLeaf] panics. *)
Definition read_failed {R D} `{!Replacer R, !PageFileManager D, !PageFileLaws D} (idx : t) (P : Pool R D) : Prop :=
  ~ reliable /\ exists P' id e s, rtc (node_read idx) P P' /\ readNode id (P', idx) = (Err e, s).

Section btree.
Context {R D : Type} `{RR : Replacer R, RL : !ReplacerLaws R, DM : PageFileManager D, DL : !PageFileLaws D}.
Context (root0 : string) (root_nonempty : root0 <> ""%string).
Implicit Types (P : Pool R D) (idx : t) (E : PageKey -> Prop) (A : PageKey -> option (list byte)) (N : gmap Z btreeNode).

Notation store_but := (PageStore.store_but root0).
Notation put := PageStore.put.

(** ** The nodes on the pages of the index *)
Record pages E A idx N : Prop := {
  pg_name : Filepath.simple_name (fileID idx);
  pg_next : 0 < nextPageID (meta idx) <= 2 ^ 31;
  pg_node : forall id n, N !! id = Some n -> nodePageID n = id /\ 0 < id < nextPageID (meta idx) /\
    ~ E (key idx id) /\ exists b, A (key idx id) = Some b /\ node_page (type_name idx) b n
}.

Lemma key_inj idx id id' : key idx id = key idx id' -> id = id'.
Proof. by intros [=]. Qed.

Lemma good_id E A idx N id : pages E A idx N -> 0 <= id < nextPageID (meta idx) -> BufferPoolSpec.good_key Filepath.simple_name (key idx id).
Proof. intros HN Hid. split; [apply HN|]. pose proof (pg_next _ _ _ _ HN). change (PageID (key idx id)) with id. lia. Qed.

Lemma readNode_run {B} E A P idx N id n (k : btreeNode -> ST (Pool R D * t) B) Q :
  store_but E A P -> pages E A idx N -> N !! id = Some n ->
  (forall P', store_but E A P' -> triple (k n) (P', idx) Q) ->
  (forall e P', store_but E A P' -> ~ reliable -> Q (Err e) (P', idx)) ->
  triple (x <- readNode id ;; k x) (P, idx) Q.
Proof.
  intros Hst HN Hn Hk He. destruct (pg_node _ _ _ _ HN id n Hn) as (Hid & Hr & HE & b & HA & Hb).
  apply triple_bind. unfold readNode.
  apply (read_page root0 root_nonempty key E A P idx id b); [done|eapply good_id; [exact HN|lia]|done|done| |].
  - intros P' pg ref Hst' _. apply triple_self. rewrite <- Hid at 1. rewrite (decode_node_page idx b n Hb). split; [done|]. by apply Hk.
  - intros e P' Hst'. by apply He.
Qed.

Lemma writeNode_run {B} E A P idx N n (k : ST (Pool R D * t) B) Q :
  store_but E A P -> pages E A idx N -> good_node (type_name idx) n -> 0 < nodePageID n < nextPageID (meta idx) ->
  (forall P' E' A', store_but E' A' P' -> pages E' A' idx (<[nodePageID n := n]> N) -> (forall x, E' x -> E x) ->
     elsewhere (fileID idx) A A' -> A' (key idx 0) = A (key idx 0) -> triple k (P', idx) Q) ->
  (forall e s, Q (Err e) s) ->
  triple (writeNode n ;;; k) (P, idx) Q.
Proof.
  intros Hst HN [Hok Hsz] Hr Hk He. set (id := nodePageID n) in *. assert (Hfit : node_size n <= PageSize) by (unfold btreePageCapacity in Hsz; unfold btreeHeapHeaderSize in Hsz; lia).
  apply triple_bind.
  assert (Heq : writeNode n (P, idx) = (pg <- page id ;; on_pool (Modify pg (encode_node idx n)) ;;; UpdatePage id pg) (P, idx)).
  { apply (page_self key). }
  eapply triple_eq; [exact Heq|].
  apply (change_page root0 root_nonempty key E A P idx id); [done|eapply good_id; [exact HN|lia]| | |done].
  - intros b Hv _. destruct (encode_node_page idx b n Hv Hok Hfit) as (b' & Hb & Hp). exists b'. split; [done|apply Hp].
  - intros P' b b' _ Hv _ Hb Hst'. destruct (encode_node_page idx b n Hv Hok Hfit) as (b2 & Hb2 & Hp). assert (b2 = b') as -> by congruence.
    apply (Hk P' (less (key idx id) E) (put (key idx id) b' A)); [done| |by intros x [_ Hx]|apply (elsewhere_page (key idx id))|].
    + split; [apply HN|apply HN|]. intros i m Hm. destruct (decide (i = id)) as [->|Hne].
      * rewrite lookup_insert_eq in Hm. injection Hm as <-. split; [done|]. split; [done|]. split; [by intros [? _]|].
        exists b'. split; [unfold PageStore.put; by rewrite decide_True|done].
      * rewrite lookup_insert_ne in Hm by done. destruct (pg_node _ _ _ _ HN i m Hm) as (H1 & H2 & H3 & c & H4 & H5).
        split; [done|]. split; [done|]. split; [by intros [_ ?]|]. exists c. split; [|done]. unfold PageStore.put. rewrite decide_False; [done|].
        intros Hki. by apply Hne, (key_inj idx).
    + unfold PageStore.put. rewrite decide_False; [done|]. intros Hk0. apply (key_inj idx) in Hk0. lia.
Qed.

(** ** The way down *)
Lemma find_loop_run E A idx N k {H} : pages E A idx N -> forall n h (c : ctx H h) (t : tree h) P,
  (h < n)%nat -> stored (type_name idx) N (-1) (plug c t) -> c_ordered (type_name idx) c ->
  ordered (type_name idx) (c_low c) (c_high c) t -> in_range (type_name idx) (c_low c) (c_high c) k -> store_but E A P ->
  (exists s, find_loop k (root_id t) (c_path c) n (P, idx) = (Panic, s) /\ read_failed idx P) \/
  exists (c' : ctx H 0) (lf : leaf) left P',
    find_loop k (root_id t) (c_path c) n (P, idx) = (Ok (leaf_node (c_parent c') left lf, l_id lf :: c_path c'), (P', idx)) /\
    store_but E A P' /\ plug c' (lf : tree 0) = plug c t /\ c_ordered (type_name idx) c' /\
    ordered (h := O) (type_name idx) (c_low c') (c_high c') lf /\ in_range (type_name idx) (c_low c') (c_high c') k /\
    has_node (type_name idx) N (leaf_node (c_parent c') left lf).
Proof.
  intros HN n. set (tn := type_name idx). induction n as [|n IH]; intros h c t P Hn Hs Hc Ho Hk Hst; [lia|].
  pose proof (proj1 (plug_stored tn N c t) Hs) as [Hsc Hst1].
  destruct (stored_root tn N _ t Hst1) as (left & right & Hnode).
  pose proof (proj1 Hnode) as Hlk. rewrite node_of_id in Hlk. cbn [find_loop].
  assert (Hread : triple (x <- readNode (root_id t) ;; sret x) (P, idx) (fun r s => exists P', s = (P', idx) /\ store_but E A P' /\
    (r = Ok (node_of (c_parent c) left right t) \/ ~ reliable /\ exists e, r = Err e))).
  { apply (readNode_run E A P idx N _ _ _ _ Hst HN Hlk).
    - intros P' Hst'. apply triple_ret. exists P'. split; [done|]. split; [done|]. by left.
    - intros e P' Hst' Hrel. exists P'. split; [done|]. split; [done|]. right. split; [done|]. by eexists. }
  assert (Hret : (x <- readNode (root_id t) ;; sret x) (P, idx) = readNode (root_id t) (P, idx)).
  { unfold sbind. by destruct (readNode (root_id t) (P, idx)) as [[x|e|] s]. }
  unfold triple in Hread. rewrite Hret in Hread. destruct Hread as [Hnp (P1 & Es & Hst2 & Hr)].
  destruct (readNode (root_id t) (P, idx)) as [r s] eqn:Er. cbn [fst snd] in *. subst s.
  destruct Hr as [->|[Hrel [e ->]]].
  2:{ left. unfold sbind at 1, catch. rewrite Er. eexists. split; [reflexivity|]. split; [exact Hrel|]. exists P, (root_id t), e, (P1, idx). split; [apply rtc_refl|done]. }
  rewrite (sbind_ok _ _ _ (Some (node_of (c_parent c) left right t)) (P1, idx)) by (unfold catch; by rewrite Er).
  destruct h as [|h].
  - right. exists c, t, left, P1. by split_and!.
  - destruct t as [f ts]. cbn [node_of isLeaf inner_node]. rewrite (sbind_ok _ _ _ idx (P1, idx)) by done.
    cbn [keys children inner_node fst snd]. cbn [ordered fst snd] in Ho. pose proof (c_low_ok tn c Hc) as Hlo.
    destruct (kids_sorted tn _ _ _ _ _ Ho) as [Hinc Hsep].
    destruct (upperBound_spec idx (i_keys f) k) as (pos & Epos & Hpos).
    { eapply Forall_impl; [exact Hsep|]. intros x [[? _] _]. by apply key_ok_kind. }
    { apply Hk. }
    { by apply increasing_sorted. }
    destruct (descend tn _ _ _ _ _ _ _ Hlo Ho Hk Hpos) as (l & t & r & Ets & Hl & Hp & Hb & Ha & Hw & Hkr).
    rewrite (sbind_ok _ _ _ pos (P1, idx)) by (unfold slift; by rewrite Epos).
    rewrite (sbind_ok _ _ _ (root_id t) (P1, idx)) by (unfold slift; by rewrite list_lookup_fmap, Hp).
    set (c' := Up (i_id f) (take pos (i_keys f)) (drop pos (i_keys f)) l r c).
    assert (Eplug : plug c' t = plug c ((f, ts) : tree (S h))).
    { unfold c'. cbn [plug]. rewrite take_drop, <- Ets. by destruct f. }
    assert (Hc' : c_ordered tn c') by (by split_and!).
    destruct (IH h c' t P1) as [(s & Ef & Hrel & P' & id & e & s' & Hrtc & Hf)|Hgood]; [lia|by rewrite Eplug|done|exact Hw|exact Hkr|done| |].
    + left. exists s. split; [exact Ef|]. split; [exact Hrel|]. exists P', id, e, s'. split; [|done]. eapply rtc_l; [|exact Hrtc]. exists (i_id f). by eexists.
    + right. rewrite <- Eplug. exact Hgood.
Qed.

(** ** The index in the store *)

(** Page 0 holds the meta data, but for the number of the next page, which is
    only written when the tree gets a new root. *)
Definition meta_page E A idx : Prop :=
  ~ E (key idx 0) /\ exists b n, A (key idx 0) = Some b /\ n <= nextPageID (meta idx) /\
    read_meta b = Ok {| rootPageID := rootPageID (meta idx); height := height (meta idx);
                        leftmostLeafID := leftmostLeafID (meta idx); nextPageID := n |}.

Lemma writeMeta_run E A P idx N (Q : outcome unit -> Pool R D * t -> Prop) :
  store_but E A P -> pages E A idx N -> meta_ok (meta idx) ->
  (forall P' E' A', store_but E' A' P' -> pages E' A' idx N -> meta_page E' A' idx -> (forall x, E' x -> E x) ->
     elsewhere (fileID idx) A A' -> Q (Ok tt) (P', idx)) -> (forall e s, Q (Err e) s) ->
  triple writeMeta (P, idx) Q.
Proof.
  intros Hst HN Hm Hk He. unfold writeMeta.
  eapply triple_eq; [apply (page_self key 0 (fun pg i => on_pool (Modify pg (write_meta (meta i))) ;;; UpdatePage 0 pg))|].
  apply (change_page root0 root_nonempty key E A P idx 0); [done| | | |done].
  - eapply good_id; [exact HN|]. destruct (pg_next _ _ _ _ HN). lia.
  - intros b Hv _. destruct (meta_roundtrip (meta idx) b Hv Hm) as (b' & H1 & H2 & _). by exists b'.
  - intros P' b b' _ Hv _ Hb Hst'. destruct (meta_roundtrip (meta idx) b Hv Hm) as (b2 & H1 & _ & H3). assert (b2 = b') as -> by congruence.
    apply (Hk P' _ _ Hst'); [| |by intros x [_ Hx]|apply (elsewhere_page (key idx 0))].
    + split; [apply HN|apply HN|]. intros i n Hi. destruct (pg_node _ _ _ _ HN i n Hi) as (H4 & H5 & H6 & c & H7 & H8).
      split; [done|]. split; [done|]. split; [by intros [_ ?]|]. exists c. split; [|done]. unfold PageStore.put. rewrite decide_False; [done|].
      intros Hki. apply (key_inj idx) in Hki. lia.
    + split; [by intros [? _]|]. exists b', (nextPageID (meta idx)). split; [unfold PageStore.put; by rewrite decide_True|]. split; [done|].
      rewrite H3. by destruct (meta idx).
Qed.

(** The pages hold the tree [t]. *)
Record tree_in E A idx N {H} (t : tree H) : Prop := {
  ti_pages : pages E A idx N;
  ti_meta : meta_page E A idx;
  ti_stored : stored (type_name idx) N (-1) t;
  ti_ordered : ordered (type_name idx) None None t;
  ti_linked : linked (leaves t);
  ti_nodup : NoDup (ids t);
  ti_root : rootPageID (meta idx) = root_id t;
  ti_left : head (l_id <$> leaves t) = Some (leftmostLeafID (meta idx));
  ti_height : height (meta idx) = Z.of_nat (S H) /\ height (meta idx) < nextPageID (meta idx)
}.

(** The index in the store has these entries: keys in order, each with its
    TIDs in the order of their insertion. *)
Definition holds E A idx (es : list entry) : Prop :=
  exists N H (t : tree H), tree_in E A idx N t /\ es = entries_in (leaves t).

(** More than the height of the tree and the number of its leaves. *)
Definition enough (fuel : nat) idx : Prop := nextPageID (meta idx) <= Z.of_nat fuel.

Lemma findLeaf_run fuel E A P idx N {H} (t : tree H) k :
  store_but E A P -> tree_in E A idx N t -> key_kind (type_name idx) k -> enough fuel idx ->
  (exists s, findLeaf fuel k (P, idx) = (Panic, s) /\ read_failed idx P) \/
  exists (c : ctx H 0) (lf : leaf) left P',
    findLeaf fuel k (P, idx) = (Ok (leaf_node (c_parent c) left lf, l_id lf :: c_path c), (P', idx)) /\
    store_but E A P' /\ plug c (lf : tree 0) = t /\ c_ordered (type_name idx) c /\
    ordered (h := O) (type_name idx) (c_low c) (c_high c) lf /\ in_range (type_name idx) (c_low c) (c_high c) k /\
    has_node (type_name idx) N (leaf_node (c_parent c) left lf).
Proof.
  intros Hst HT Hk Hf. destruct (ti_height _ _ _ _ _ HT) as [Hh Hn]. unfold enough in Hf.
  unfold findLeaf. rewrite (sbind_ok _ _ _ idx (P, idx)) by done. rewrite (ti_root _ _ _ _ _ HT).
  apply (find_loop_run E A idx N k (ti_pages _ _ _ _ _ HT) fuel H Top t P); [lia|apply HT|done|apply HT|done|done].
Qed.

(** [Search] looks up the key, if all nodes on its way can be read. *)
Lemma tree_Search_run fuel E A P idx es k :
  store_but E A P -> holds E A idx es -> key_kind (type_name idx) k -> enough fuel idx ->
  (exists s, Search fuel k (P, idx) = (Panic, s) /\ read_failed idx P) \/
  exists P', Search fuel k (P, idx) = (Ok (find_tids k es), (P', idx)) /\ store_but E A P'.
Proof.
  intros Hst (N & H & t & HT & ->) Hk Hf. unfold Search.
  destruct (findLeaf_run fuel E A P idx N t k Hst HT Hk Hf) as [(s & Er & Hfail)|(c & lf & left & P' & Er & Hst' & Hp & Hc & Ho & Hr & _)].
  - left. exists s. split; [|done]. unfold sbind at 1. by rewrite Er.
  - right. exists P'. split; [|done]. rewrite (sbind_ok _ _ _ _ _ Er). rewrite (sbind_ok _ _ _ idx (P', idx)) by done. cbn [fst].
    destruct Ho as (Hi & Hrg & Hl & _). pose proof (c_range (type_name idx) c k Hc Hr) as (_ & Hleft & Hright).
    unfold slift. cbn [keys values leaf_node]. rewrite (leaf_search idx lf k); [|by eapply Forall_impl; [exact Hrg|]; intros x []|done..].
    rewrite <- Hp, plug_leaves, !entries_in_app. cbn [leaves]. unfold entries_in at 2. cbn [fmap list_fmap concat]. rewrite app_nil_r.
    assert (Hside : forall ls, (forall l, l ∈ ls -> Forall (fun a => a <> k) (l_keys l)) -> Forall (fun e => e.1 <> k) (entries_in ls)).
    { intros ls Hls. apply Forall_forall. intros e (l & Hl' & He)%elem_of_concat_map. specialize (Hls l Hl').
      pose proof (Forall_zip_l _ (l_keys l) (l_values l) Hls) as Hz. rewrite Forall_forall in Hz. by apply Hz. }
    rewrite find_tids_app.
    + rewrite find_tids_app_r; [done|]. apply Hside. intros l Hl'. eapply Forall_impl; [by apply Hright|]. intros a Ha ->. by eapply value_lt_irrefl.
    + apply Hside. intros l Hl'. eapply Forall_impl; [by apply Hleft|]. intros a Ha ->. by eapply value_lt_irrefl.
Qed.

(** *** The leaves in a row *)
Lemma leaves_ids {h} : forall t : tree h, sublist (l_id <$> leaves t) (ids t).
Proof.
  induction h as [|h IH]; intros t; cbn [leaves ids]; [done|]. apply sublist_cons.
  induction t.2 as [|c ts IHts]; [done|]. cbn [fmap list_fmap concat]. rewrite fmap_app. by apply sublist_app.
Qed.

Lemma tree_ids E A idx N {H} (t : tree H) id : tree_in E A idx N t -> id ∈ ids t -> 0 < id < nextPageID (meta idx).
Proof.
  intros HT Hid. destruct (stored_ids _ N id _ t (ti_stored _ _ _ _ _ HT) Hid) as [n Hn].
  by destruct (pg_node _ _ _ _ (ti_pages _ _ _ _ _ HT) id n Hn) as (_ & ? & _).
Qed.

Lemma leaves_few E A idx N {H} (t : tree H) : tree_in E A idx N t -> Z.of_nat (length (leaves t)) < nextPageID (meta idx).
Proof.
  intros HT. pose proof (sublist_length _ _ (leaves_ids t)) as Hl. rewrite length_fmap in Hl.
  assert (Hs : ids t ⊆+ seqZ 1 (nextPageID (meta idx) - 1)).
  { apply NoDup_submseteq; [apply HT|]. intros x Hx. apply elem_of_seqZ. pose proof (tree_ids _ _ _ _ t x HT Hx). lia. }
  apply submseteq_length in Hs. rewrite length_seqZ in Hs. destruct (ti_height _ _ _ _ _ HT). lia.
Qed.

Definition first_id (ls : list leaf) : Z := match ls with [] => -1 | l :: _ => l_id l end.

(** The loop along the leaves [ls], the last ones of the tree. *)
Lemma range_loop_run E A idx N {H} (t : tree H) from fi to ti :
  tree_in E A idx N t -> bound_key idx from -> bound_key idx to -> forall ls n P result pos pre,
  leaves t = pre ++ ls -> (length ls < n)%nat -> store_but E A P ->
  match ls with [] => pos = O | l :: _ => (pos <= length (l_keys l))%nat end ->
  triple (range_loop from fi to ti (first_id ls) pos result n) (P, idx) (fun r s => exists P', s = (P', idx) /\
    store_but E A P' /\
    match r with Ok tids => tids = result ++ tids_between from fi to ti (drop pos (entries_in ls)) | _ => ~ reliable end).
Proof.
  intros HT Hf Ht. pose proof (ordered_entries _ t (ti_ordered _ _ _ _ _ HT)) as Hinc.
  pose proof (all_keys_range _ None None t I (ti_ordered _ _ _ _ _ HT)) as Hkeys.
  induction ls as [|l ls IH]; intros n P result pos pre Hls Hn Hst Hpos; destruct n as [|n]; try (cbn [length] in Hn; lia).
  { subst pos. apply triple_ret. exists P. split; [done|]. split; [done|]. cbn. by rewrite app_nil_r. }
  assert (Hin : l ∈ leaves t) by (rewrite Hls; apply elem_of_app; right; by left).
  destruct (stored_leaf _ N l _ t (ti_stored _ _ _ _ _ HT) Hin) as (q & left & Hnode & _).
  pose proof (ordered_lengths (type_name idx) l None None t (ti_ordered _ _ _ _ _ HT) Hin) as Hlen.
  assert (Hid : 0 < l_id l).
  { apply (tree_ids E A idx N t (l_id l) HT). eapply elem_of_sublist; [|apply leaves_ids]. apply list_elem_of_fmap. by exists l. }
  cbn [first_id range_loop]. rewrite (proj2 (Z.eqb_neq _ _)) by lia.
  apply (readNode_run E A P idx N (l_id l) _ _ _ Hst (ti_pages _ _ _ _ _ HT) Hnode).
  2:{ intros e P' Hst' Hrel. exists P'. by split_and!. }
  intros P1 Hst1. apply triple_self. cbn [keys values rightSibPageID leaf_node].
  rewrite Hls, entries_in_app, fmap_app in Hinc. apply increasing_app in Hinc as (_ & Hinc & _).
  change (entries_in (l :: ls)) with (entries_of l ++ entries_in ls) in Hinc. rewrite fmap_app in Hinc.
  assert (Hfst : fst <$> entries_of l = l_keys l) by (apply fst_zip; lia). rewrite Hfst in Hinc. apply increasing_app in Hinc as (Hil & _ & Hafter).
  rewrite Hls, all_keys_app in Hkeys. apply Forall_app in Hkeys as [_ Hkeys]. change (all_keys (l :: ls)) with (l_keys l ++ all_keys ls) in Hkeys.
  apply Forall_app in Hkeys as [Hkl Hkls].
  assert (Hok : Forall (key_kind (type_name idx)) (l_keys l)) by (eapply Forall_impl; [exact Hkl|]; by intros x []).
  destruct (range_leaf_spec idx from fi to ti (leaf_node q left l) Hf Ht (drop pos (l_keys l)) pos result) as (b & Er & Hb);
    [done|by apply Forall_drop|done| |].
  { rewrite <- (take_drop pos (l_keys l)) in Hil. by apply increasing_app in Hil as (_ & Hil & _). }
  rewrite Er. cbn [values leaf_node]. rewrite slift_ok. cbn [fst snd].
  assert (Hzip : zip (drop pos (l_keys l)) (drop pos (l_values l)) = drop pos (entries_of l)) by (symmetry; apply zip_with_drop).
  assert (Hlo : length (entries_of l) = length (l_keys l)) by (unfold entries_of; rewrite length_zip_with; lia).
  assert (Hdrop : drop pos (entries_in (l :: ls)) = drop pos (entries_of l) ++ entries_in ls).
  { change (entries_in (l :: ls)) with (entries_of l ++ entries_in ls). apply drop_app_le. lia. }
  rewrite Hzip, Hdrop, tids_between_app. destruct b.
  - apply triple_ret. exists P1. split; [done|]. split; [done|]. rewrite (tids_between_none _ _ _ _ (entries_in ls)); [by rewrite app_nil_r|].
    destruct (Hb eq_refl) as (k & Hk & Hnu). apply list_elem_of_lookup in Hk as [i Hk]. rewrite lookup_drop in Hk. apply list_elem_of_lookup_2 in Hk.
    apply Forall_forall. intros e He [_ Hu]. revert Hu.
    assert (Hek : e.1 ∈ fst <$> entries_in ls) by (apply list_elem_of_fmap; by exists e).
    assert (Hlens : forall l', l' ∈ ls -> length (l_values l') = length (l_keys l')).
    { intros l' Hl'. apply (ordered_lengths (type_name idx) l' None None t (ti_ordered _ _ _ _ _ HT)). rewrite Hls, elem_of_app. right. by right. }
    apply (under_mono idx to ti k e.1); [done| | |by apply Hafter|done].
    + rewrite Forall_forall in Hok. by apply Hok.
    + rewrite entries_keys in Hek by done. rewrite Forall_forall in Hkls. by apply Hkls.
  - assert (Hnext : l_right l = first_id ls).
    { pose proof (ti_linked _ _ _ _ _ HT) as Hlk. rewrite Hls in Hlk. apply linked_suffix in Hlk. destruct Hlk as [-> _]. by destruct ls. }
    rewrite Hnext. eapply triple_mono; [apply (IH n P1 _ 0%nat (pre ++ [l])); [by rewrite <- app_assoc|cbn [length] in Hn; lia|done|by destruct ls; cbn; lia]|].
    intros r s _ (P' & -> & Hst' & Hr). exists P'. split; [done|]. split; [done|]. destruct r; [|done..]. rewrite Hr. by rewrite <- app_assoc.
Qed.

(** [RangeSearch] collects the TIDs of the keys in the interval. *)
Lemma RangeSearch_run fuel E A P idx es from fi to ti :
  store_but E A P -> holds E A idx es -> bound_key idx from -> bound_key idx to -> enough fuel idx ->
  (exists s, RangeSearch fuel from fi to ti (P, idx) = (Panic, s) /\ read_failed idx P) \/
  exists r P', RangeSearch fuel from fi to ti (P, idx) = (r, (P', idx)) /\ r <> Panic /\ store_but E A P' /\
    match r with Ok tids => tids = tids_between from fi to ti es | _ => ~ reliable end.
Proof.
  intros Hst (N & H & t & HT & ->) Hfr Hto Hf. pose proof (leaves_few _ _ _ _ t HT) as Hfew. pose proof Hf as Hf'. unfold enough in Hf.
  assert (Hrun : forall ls pre P0 pos, leaves t = pre ++ ls -> store_but E A P0 ->
    match ls with [] => pos = O | l :: _ => (pos <= length (l_keys l))%nat end ->
    tids_between from fi to ti (entries_in pre) = [] ->
    tids_between from fi to ti (take pos (entries_in ls)) = [] ->
    exists r P', range_loop from fi to ti (first_id ls) pos [] fuel (P0, idx) = (r, (P', idx)) /\ r <> Panic /\ store_but E A P' /\
      match r with Ok tids => tids = tids_between from fi to ti (entries_in (leaves t)) | _ => ~ reliable end).
  { intros ls pre P0 pos Hls Hst0 Hpos Hpre Htake.
    destruct (range_loop_run E A idx N t from fi to ti HT Hfr Hto ls fuel P0 [] pos pre Hls) as [Hnp (P' & Es & Hst' & Hr)];
      [rewrite Hls, length_app in Hfew; lia|done|done|].
    destruct (range_loop from fi to ti (first_id ls) pos [] fuel (P0, idx)) as [r s]. cbn [fst snd] in *. subst s.
    exists r, P'. split; [done|]. split; [done|]. split; [done|]. destruct r as [tids|e|]; [|done..]. rewrite Hr. cbn [app].
    rewrite Hls, entries_in_app, tids_between_app, Hpre. cbn [app]. rewrite <- (take_drop pos (entries_in ls)) at 2.
    by rewrite tids_between_app, Htake. }
  unfold RangeSearch. rewrite (sbind_ok _ _ _ idx (P, idx)) by done.
  assert (Hempty : exists b, (if decide (from = ANil) then Ok false else if decide (to = ANil) then Ok false
      else ofmap (Z.ltb 0) (compareKeys idx from to)) = Ok b /\ (b = true -> forall k, ~ (over from fi k /\ under to ti k /\ key_kind (type_name idx) k))).
  { destruct (decide (from = ANil)) as [|Hn1]; [by exists false|]. destruct (decide (to = ANil)) as [|Hn2]; [by exists false|].
    destruct Hfr as [|Hfk]; [done|]. destruct Hto as [|Htk]; [done|].
    destruct (compareKeys_spec idx from to Hfk Htk) as (c & -> & Hc). exists (0 <? c). split; [done|].
    destruct Hc as [[-> _]|[[-> _]|[-> Hlt]]]; [done..|]. intros _ k ([?|Ho] & [?|Hu] & Hk); [done..|].
    assert (Hle : value_le from k) by (destruct fi; [done|by apply lt_le]). assert (Hle' : value_le k to) by (destruct ti; [done|by apply lt_le]).
    apply (le_trans (type_name idx) from k to Hfk Hk Hle Hle'). done. }
  destruct Hempty as (b & -> & Hb). rewrite (sbind_ok _ _ _ b (P, idx)) by done. destruct b.
  { right. exists (Ok []), P. split; [done|]. split; [done|]. split; [done|]. rewrite tids_between_none; [done|].
    apply Forall_forall. intros e He [Ho Hu]. apply (Hb eq_refl e.1). split; [done|]. split; [done|].
    pose proof (all_keys_range _ None None t I (ti_ordered _ _ _ _ _ HT)) as Hk. rewrite <- (entries_keys (leaves t)) in Hk.
    - rewrite Forall_forall in Hk. apply (Hk e.1). apply list_elem_of_fmap. by exists e.
    - intros l Hl. by apply (ordered_lengths (type_name idx) l None None t (ti_ordered _ _ _ _ _ HT)). }
  destruct (decide (from = ANil)) as [Hnil|Hne].
  - right. assert (Hleft : leftmostLeafID (meta idx) = first_id (leaves t)).
    { pose proof (ti_left _ _ _ _ _ HT) as Hl. destruct (leaves t); [done|]. by injection Hl as <-. }
    rewrite Hleft. apply (Hrun (leaves t) [] P 0%nat); [done|done|destruct (leaves t); [done|lia]|done|done].
  - destruct Hfr as [|Hfk]; [done|].
    destruct (findLeaf_run fuel E A P idx N t from Hst HT Hfk Hf') as [(s & Er & Hfail)|(c & lf & left & P' & Er & Hst' & Hp & Hc & Ho & Hr & _)].
    { left. exists s. split; [|done]. unfold sbind at 1. by rewrite Er. }
    right. rewrite (sbind_ok _ _ _ _ _ Er). cbn [fst keys nodePageID leaf_node]. destruct Ho as (Hi & Hrg & Hl & _).
    assert (Hks : Forall (key_kind (type_name idx)) (l_keys lf)) by (eapply Forall_impl; [exact Hrg|]; by intros x []).
    destruct (lowerBound_spec idx (l_keys lf) from Hks Hfk (increasing_sorted _ Hi)) as (pos & -> & Hpos & Hlt & _).
    rewrite (sbind_ok _ _ _ pos (P', idx)) by done. pose proof (c_range (type_name idx) c from Hc Hr) as (_ & Hcl & _).
    assert (Hlow : forall (es : list entry), Forall (fun e : entry => value_lt e.1 from) es -> tids_between from fi to ti es = []).
    { intros es Hes. apply tids_between_none. eapply Forall_impl; [exact Hes|]. intros e He [[?|Hov] _]; [done|].
      destruct fi; [by apply Hov|by eapply value_lt_asym]. }
    assert (Hlen : length (entries_of lf) = length (l_keys lf)) by (unfold entries_of; rewrite length_zip_with; lia).
    apply (Hrun (lf :: c_right c) (c_left c) P' pos).
    + rewrite <- Hp. apply (plug_leaves c (lf : tree 0)).
    + done.
    + done.
    + apply Hlow. apply Forall_forall. intros e (l & Hl' & He)%elem_of_concat_map.
      pose proof (Forall_zip_l _ (l_keys l) (l_values l) (Hcl l Hl')) as Hz. rewrite Forall_forall in Hz. by apply Hz.
    + apply Hlow. change (entries_in (lf :: c_right c)) with (entries_of lf ++ entries_in (c_right c)). rewrite take_app_le by lia.
      assert (Htk : take pos (entries_of lf) = zip (take pos (l_keys lf)) (take pos (l_values lf))) by apply zip_with_take. rewrite Htk.
      by apply (Forall_zip_l (fun a => value_lt a from)).
Qed.
End btree.
End BTreeProofs.
