(* ===== verification/BTreeInsert.v ===== *)
(** * BTreeInsert: insertion into a BTree index

    What [Insert] does to the tree in the pool: writing and allocating nodes
    ([write_node], [allocate_node]), splitting the nodes on the way up
    ([insertIntoParent_run]) and the whole call ([tree_Insert_run]). *)

From S2P Require Import Prelude GoRuntime Utf8 Ast HeapPage Replacer PageFile BufferPool PageStore CatalogModel Semantic Eval CatalogManager Storage IndexPage BTreeIndex BTreeNode BTreeTree BTreeSearch BTreeSplit BTreeProofs.
#[local] Open Scope Z_scope.

Module InsertProofs.
Import HeapBufferPoolManager IndexPage DiskBTreeIndex Predicates NodeSpec TreeSpec SearchSpec SplitSpec BTreeProofs.

(** ** Children with another parent *)
Fixpoint reparented (q : Z) {h} (ts : list (tree h)) (N : gmap Z btreeNode) : gmap Z btreeNode :=
  match ts with
  | [] => N
  | t :: ts => reparented q ts (alter (with_parent q) (root_id t) N)
  end.

Lemma reparented_other q {h} (ts : list (tree h)) : forall N id,
  id ∉ concat (ids <$> ts) -> reparented q ts N !! id = N !! id.
Proof.
  induction ts as [|t ts IH]; intros N id Hid; [done|]. cbn in Hid |- *. apply not_elem_of_app in Hid as [H1 H2].
  rewrite IH by done. apply lookup_alter_ne. intros Heq. apply H1. rewrite <- Heq. apply root_in_ids.
Qed.

Lemma alter_insert {A} (f : A -> A) (m : gmap Z A) i x : m !! i = Some x -> alter f i m = <[i := f x]> m.
Proof.
  intros Hi. apply map_eq. intros j. destruct (decide (i = j)) as [<-|Hne].
  - by rewrite lookup_alter_eq, lookup_insert_eq, Hi.
  - by rewrite lookup_alter_ne, lookup_insert_ne.
Qed.

Lemma reparented_stored tn q p {h} (ts : list (tree h)) : in_sint 32 q -> forall N,
  Forall (stored tn N p) ts -> NoDup (concat (ids <$> ts)) -> Forall (stored tn (reparented q ts N) q) ts.
Proof.
  intros Hq. induction ts as [|t ts IH]; intros N Hts Hnd; [done|]. apply Forall_cons in Hts as [Ht Hts]. cbn in Hnd.
  apply NoDup_app in Hnd as (Hnt & Hdis & Hnd). cbn [reparented].
  destruct (stored_root tn N p t Ht) as (left & right & Hn & _). rewrite node_of_id in Hn.
  assert (Hnot : root_id t ∉ concat (ids <$> ts)) by (apply Hdis, root_in_ids).
  constructor.
  - apply (stored_frame tn (alter (with_parent q) (root_id t) N)).
    + intros id Hid. apply reparented_other. by apply Hdis.
    + rewrite (alter_insert _ _ _ _ Hn). by apply (stored_reparent tn N p q t _ Ht Hn).
  - apply IH; [|done]. apply (stored_list_frame tn N); [|done]. intros id Hid. apply lookup_alter_ne. intros Heq. apply Hnot. by rewrite Heq.
Qed.

Section insert.
Context {R D : Type} `{RR : Replacer R, RL : !ReplacerLaws R, DM : PageFileManager D, DL : !PageFileLaws D}.
Context (root0 : string) (root_nonempty : root0 <> ""%string).
Context (E0 : PageKey -> Prop) (A0 : PageKey -> option (list byte)).
Implicit Types (P : Pool R D) (idx : t) (E : PageKey -> Prop) (A : PageKey -> option (list byte)) (N : gmap Z btreeNode).

Notation store_but := (PageStore.store_but root0).
Notation put := PageStore.put.
Notation also := PageStore.also.

(** ** The store during an insertion

    The nodes [N] are on their pages, page 0 is up to date, and other files are
    as they were in the store [E0], [A0] that the insertion began with. *)
Definition world idx N P : Prop := exists E A,
  store_but E A P /\ pages E A idx N /\ meta_page E A idx /\
  (forall x, E x -> E0 x \/ FileID x = fileID idx) /\ elsewhere (fileID idx) A0 A.

Lemma world_pages idx N P : world idx N P -> 0 < nextPageID (meta idx) <= 2 ^ 31 /\
  forall id n, N !! id = Some n -> nodePageID n = id /\ 0 < id < nextPageID (meta idx).
Proof.
  intros (E & A & _ & [_ Hn HN] & _). split; [done|]. intros id n Hid. by destruct (HN id n Hid) as (? & ? & _).
Qed.

Lemma read_node {B} idx N P id n (k : btreeNode -> ST (Pool R D * t) B) Q :
  world idx N P -> N !! id = Some n -> (forall P', world idx N P' -> triple (k n) (P', idx) Q) -> (forall e s, Q (Err e) s) ->
  triple (x <- readNode id ;; k x) (P, idx) Q.
Proof.
  intros (E & A & Hst & HN & Hm & HE & Hel) Hn Hk He.
  apply (readNode_run root0 root_nonempty E A P idx N id n k Q Hst HN Hn); [|auto].
  intros P' Hst'. apply Hk. exists E, A. by split_and!.
Qed.

Lemma write_node {B} idx N P n (k : ST (Pool R D * t) B) Q :
  world idx N P -> good_node (type_name idx) n -> 0 < nodePageID n < nextPageID (meta idx) ->
  (forall P', world idx (<[nodePageID n := n]> N) P' -> triple k (P', idx) Q) -> (forall e s, Q (Err e) s) ->
  triple (writeNode n ;;; k) (P, idx) Q.
Proof.
  intros (E & A & Hst & HN & (Hm & b & nx & Hb & Hle & Hread) & HE & Hel) Hg Hid Hk He.
  apply (writeNode_run root0 root_nonempty E A P idx N n k Q Hst HN Hg Hid); [|done].
  intros P' E' A' Hst' HN' HE' Hel' H0. apply Hk. exists E', A'. split_and!; [done|done| |auto|by eapply elsewhere_trans].
  split; [by intros ?%HE'|]. exists b, nx. by rewrite H0.
Qed.

(** The index after a page was allocated. *)
Definition grow idx : t :=
  with_meta {| rootPageID := rootPageID (meta idx); height := height (meta idx); leftmostLeafID := leftmostLeafID (meta idx);
               nextPageID := nextPageID (meta idx) + 1 |} idx.

Lemma allocate_node {B} idx N P (k : Z -> ST (Pool R D * t) B) Q :
  world idx N P -> nextPageID (meta idx) + 1 < 2 ^ 31 ->
  (forall P', world (grow idx) N P' -> N !! nextPageID (meta idx) = None -> triple (k (nextPageID (meta idx))) (P', grow idx) Q) ->
  (forall e s, Q (Err e) s) ->
  triple (x <- allocatePage ;; k x) (P, idx) Q.
Proof.
  intros (E & A & Hst & HN & (Hm & b & nx & Hb & Hle & Hread) & HE & Hel) Hn Hk He. destruct (pg_next _ _ _ _ HN) as [Hpos _].
  unfold allocatePage. apply triple_bind, triple_self, triple_bind, triple_modify. cbn beta iota. cbn [fst snd].
  rewrite int32_fits by lia. change (with_meta _ idx) with (grow idx). set (id := nextPageID (meta idx)).
  apply (create_page root0 root_nonempty key E A P (grow idx) id); [exact Hst| |done| |done].
  { split; [apply HN|]. change (PageID (key (grow idx) id)) with id. lia. }
  intros P' Hst'. change (key (grow idx) id) with (key idx id) in Hst'. apply triple_ret. apply Hk.
  - exists (also (key idx id) E), A. split_and!; [done| | | |done].
    + split; [apply HN|cbn; lia|]. intros i n Hi. destruct (pg_node _ _ _ _ HN i n Hi) as (H1 & H2 & H3 & H4). split; [done|]. split; [cbn; lia|].
      split; [|exact H4]. intros [Hki|?]; [|done]. apply (key_inj idx) in Hki. lia.
    + split.
      * intros [Hki|?]; [|done]. apply (key_inj idx) in Hki. lia.
      * exists b, nx. split; [exact Hb|]. split; [cbn; lia|exact Hread].
    + intros x [->|Hx]; [by right|auto].
  - destruct (N !! id) as [n|] eqn:En; [|done]. destruct (pg_node _ _ _ _ HN id n En) as (_ & H2 & _). lia.
Qed.

(** Page 0 is written when only the number of the next page is as before. *)
Lemma world_meta idx N P m (Q : outcome unit -> Pool R D * t -> Prop) :
  world idx N P -> nextPageID m = nextPageID (meta idx) -> meta_ok m ->
  (forall P', world (with_meta m idx) N P' -> Q (Ok tt) (P', with_meta m idx)) -> (forall e s, Q (Err e) s) ->
  triple writeMeta (P, with_meta m idx) Q.
Proof.
  intros (E & A & Hst & HN & _ & HE & Hel) Hn Hm Hk He.
  assert (HN' : pages E A (with_meta m idx) N) by (destruct HN; split; [done|cbn; by rewrite Hn|cbn; by rewrite Hn]).
  apply (writeMeta_run root0 root_nonempty E A P (with_meta m idx) N Q Hst HN' Hm); [|done].
  intros P' E' A' Hst' HN2 Hm2 HE' Hel'. apply Hk. exists E', A'. split_and!; [done..|auto|by eapply elsewhere_trans].
Qed.

(** ** Going up *)

(** A subtree of the hole of [c] has been split in two, with [sk] between the
    halves; the left half is in its place. *)
Record pending idx N P {H h} (c : ctx H h) (tl : tree h) (sk : any) (tr : tree h) : Prop := {
  pd_world : world idx N P;
  pd_ctx : c_stored (type_name idx) N c (root_id tl);
  pd_left : stored (type_name idx) N (c_parent c) tl;
  pd_right : stored (type_name idx) N (c_parent c) tr;
  pd_ordered : c_ordered (type_name idx) c;
  pd_low : ordered (type_name idx) (c_low c) (Some sk) tl;
  pd_high : ordered (type_name idx) (Some sk) (c_high c) tr;
  pd_sep : separates (type_name idx) (c_low c) (c_high c) sk;
  pd_nodup : NoDup (ids tl ++ ids tr ++ c_ids c);
  pd_space : nextPageID (meta idx) + Z.of_nat (c_depth c) + 1 < 2 ^ 31;
  pd_root : rootPageID (meta idx) = root_id (plug c tl);
  pd_height : height (meta idx) = Z.of_nat (S H) /\ height (meta idx) < nextPageID (meta idx);
  pd_leftmost : 0 <= leftmostLeafID (meta idx) < 2 ^ 31
}.

(** The tree is whole, but for the chain of its leaves. *)
Record standing idx N P {H} (t : tree H) : Prop := {
  sd_world : world idx N P;
  sd_stored : stored (type_name idx) N (-1) t;
  sd_ordered : ordered (type_name idx) None None t;
  sd_nodup : NoDup (ids t);
  sd_root : rootPageID (meta idx) = root_id t;
  sd_height : height (meta idx) = Z.of_nat (S H) /\ height (meta idx) < nextPageID (meta idx)
}.

(** What an insertion may do to the meta data, allocating up to [n] pages. *)
Definition grown_by (n : Z) idx idx' : Prop :=
  idx' = with_meta (meta idx') idx /\ leftmostLeafID (meta idx') = leftmostLeafID (meta idx) /\
  nextPageID (meta idx) <= nextPageID (meta idx') <= nextPageID (meta idx) + n.

Lemma stored_ids_range idx N P p {h} (t : tree h) id : world idx N P -> stored (type_name idx) N p t -> id ∈ ids t ->
  0 < id < nextPageID (meta idx).
Proof.
  intros HW Ht Hid. destruct (stored_ids _ N id p t Ht Hid) as [n Hn]. destruct (world_pages _ _ _ HW) as [_ HN]. by apply (HN id n).
Qed.

Lemma node_id idx N P id n : world idx N P -> N !! id = Some n -> nodePageID n = id /\ 0 < id < nextPageID (meta idx).
Proof. intros HW Hn. destruct (world_pages _ _ _ HW) as [_ HN]. by apply HN. Qed.

(** A node that gets another parent. *)
Lemma write_child {B} idx N P q id n (k : ST (Pool R D * t) B) Q :
  world idx N P -> N !! id = Some n -> good_node (type_name idx) n -> in_sint 32 q ->
  (forall P', world idx (alter (with_parent q) id N) P' -> triple k (P', idx) Q) -> (forall e s, Q (Err e) s) ->
  triple (writeNode (with_parent q n) ;;; k) (P, idx) Q.
Proof.
  intros HW Hn Hg Hq Hk He. destruct (node_id _ _ _ _ _ HW Hn) as [Hid Hr].
  apply (write_node idx N P (with_parent q n)); [done|by apply good_parent|by cbn; rewrite Hid| |done].
  intros P' HW'. apply Hk. rewrite (alter_insert _ _ _ _ Hn). cbn in HW'. by rewrite Hid in HW'.
Qed.

Lemma stored_good tn N p {h} (t : tree h) n : stored tn N p t -> N !! root_id t = Some n ->
  good_node tn n /\ parentPageID n = p /\ nodePageID n = root_id t.
Proof.
  intros Ht Hn. destruct (stored_root tn N p t Ht) as (left & right & Hl & Hg). rewrite node_of_id in Hl.
  assert (n = node_of p left right t) as -> by congruence. split; [done|]. by rewrite node_of_parent, node_of_id.
Qed.

Lemma createNewRoot_run idx N P {H} (tl tr : tree H) sk left right (Q : outcome unit -> Pool R D * t -> Prop) :
  pending idx N P Top tl sk tr -> N !! root_id tl = Some left -> N !! root_id tr = Some right ->
  (forall P' idx' N' (t' : tree (S H)), grown_by 1 idx idx' -> standing idx' N' P' t' ->
     leaves t' = leaves tl ++ leaves tr -> Q (Ok tt) (P', idx')) -> (forall e s, Q (Err e) s) ->
  triple (createNewRoot left sk right) (P, idx) Q.
Proof.
  intros HP Hl Hr Hk He. pose proof (pd_world _ _ _ _ _ _ _ HP) as HW. pose proof (pd_space _ _ _ _ _ _ _ HP) as Hsp. cbn [c_depth] in Hsp.
  destruct (pd_height _ _ _ _ _ _ _ HP) as [Hh1 Hh2]. pose proof (pd_leftmost _ _ _ _ _ _ _ HP) as Hlm.
  destruct (stored_good _ _ _ _ _ (pd_left _ _ _ _ _ _ _ HP) Hl) as (Hgl & _ & Hidl).
  destruct (stored_good _ _ _ _ _ (pd_right _ _ _ _ _ _ _ HP) Hr) as (Hgr & _ & Hidr).
  destruct (node_id _ _ _ _ _ HW Hl) as [_ Hrl]. destruct (node_id _ _ _ _ _ HW Hr) as [_ Hrr].
  unfold createNewRoot. apply (allocate_node idx N P); [done|lia| |done]. intros P1 HW1 Hfresh. set (id := nextPageID (meta idx)) in *.
  set (f := {| i_id := id; i_keys := [sk] |}). set (t' := (f, [tl; tr]) : tree (S H)).
  assert (Hnew : {| nodePageID := id; isLeaf := false; parentPageID := -1; leftSibPageID := -1; rightSibPageID := -1;
                    keys := [sk]; values := []; children := [nodePageID left; nodePageID right] |} = node_of (-1) (-1) (-1) t').
  { by rewrite Hidl, Hidr. }
  rewrite Hnew. assert (Hgood : good_node (type_name idx) (node_of (-1) (-1) (-1) t')).
  { destruct (pd_sep _ _ _ _ _ _ _ HP) as ([Hsk Hsz] & _ & _). split.
    - split; cbn; [unfold in_sint; lia|by constructor|]. split_and!; [done..|]. repeat constructor; unfold in_sint; lia.
    - change (node_of (-1) (-1) (-1) t') with (inner_node (-1) (-1) (-1) f (root_id <$> [tl; tr])). rewrite inner_size. cbn [f i_keys fmap list_fmap total length].
      unfold max_key, btreePageCapacity, nodeDataStartOff, nodeHdrSize, btreeHeapHeaderSize, PageSize in *. lia. }
  assert (Hnext : nextPageID (meta (grow idx)) = id + 1) by done.
  apply (write_node (grow idx) N P1); [done|exact Hgood|cbn; lia| |done]. intros P2 HW2. cbn [node_of nodePageID inner_node t' fst f i_id] in HW2. fold f in HW2.
  set (N1 := <[id := _]> N) in HW2.
  assert (Hnl : root_id tl <> id) by lia. assert (Hnr : root_id tr <> id) by lia.
  assert (Hl1 : N1 !! root_id tl = Some left) by (unfold N1; by rewrite lookup_insert_ne).
  apply (write_child (grow idx) N1 P2 id (root_id tl) left); [done|done|done|unfold in_sint; lia| |done]. intros P3 HW3.
  pose proof (pd_nodup _ _ _ _ _ _ _ HP) as Hnd. rewrite app_nil_r in Hnd.
  assert (Hne : root_id tr <> root_id tl).
  { apply NoDup_app in Hnd as (_ & Hd & _). intros Heq. apply (Hd (root_id tl)); [apply root_in_ids|rewrite <- Heq; apply root_in_ids]. }
  assert (Hr1 : alter (with_parent id) (root_id tl) N1 !! root_id tr = Some right).
  { rewrite lookup_alter_ne by done. unfold N1. by rewrite lookup_insert_ne. }
  apply (write_child (grow idx) (alter (with_parent id) (root_id tl) N1) P3 id (root_id tr) right); [done|done|done|unfold in_sint; lia| |done]. intros P4 HW4.
  change (alter _ _ (alter _ _ N1)) with (reparented id [tl; tr] N1) in HW4.
  apply triple_self, triple_bind, triple_modify. cbn beta iota. cbn [fst snd]. change (height (meta (grow idx))) with (height (meta idx)).
  rewrite int32_fits by lia.
  apply (world_meta (grow idx) (reparented id [tl; tr] N1) P4); [done|done| | |done].
  { repeat split; cbn; lia. }
  intros P5 HW5. apply (Hk P5 _ (reparented id [tl; tr] N1) t').
  - repeat split; cbn; lia.
  - assert (Hids : forall x, x ∈ ids tl ++ ids tr -> x <> id).
    { intros x [Hx|Hx]%elem_of_app ->; apply (stored_ids_range idx N P (-1)) in Hx; [lia|done|apply HP|lia|done|apply HP]. }
    assert (Hframe : forall p (t : tree H), (forall x, x ∈ ids t -> x <> id) -> stored (type_name idx) N p t -> stored (type_name idx) N1 p t).
    { intros p t Ht. apply stored_frame. intros x Hx. unfold N1. rewrite lookup_insert_ne; [done|]. intros Heq. by apply (Ht x). }
    split.
    + exact HW5.
    + cbn [stored]. split.
      * exists (-1), (-1). split; [|exact Hgood]. cbn [nodePageID inner_node t' fst f i_id]. rewrite reparented_other; [apply lookup_insert_eq|].
        cbn. rewrite app_nil_r. intros Hx. by apply (Hids id).
      * apply (reparented_stored _ id (-1)); [unfold in_sint; lia| |by cbn; rewrite app_nil_r].
        repeat constructor; apply Hframe; try apply HP; intros x Hx; apply Hids, elem_of_app; [by left|by right].
    + cbn. split; [apply (pd_low _ _ _ _ _ _ _ HP)|]. split; [apply (pd_sep _ _ _ _ _ _ _ HP)|]. split; [done|apply (pd_high _ _ _ _ _ _ _ HP)].
    + cbn. rewrite app_nil_r. apply NoDup_cons. split; [intros Hx; by apply (Hids id)|done].
    + done.
    + cbn. lia.
  - cbn. by rewrite app_nil_r.
Qed.

Lemma reparent_run idx q p {h} (ts : list (tree h)) (Q : outcome unit -> Pool R D * t -> Prop) : in_sint 32 q -> forall N P,
  world idx N P -> Forall (stored (type_name idx) N p) ts -> NoDup (concat (ids <$> ts)) ->
  (forall P', world idx (reparented q ts N) P' -> Q (Ok tt) (P', idx)) -> (forall e s, Q (Err e) s) ->
  triple (reparent q (root_id <$> ts)) (P, idx) Q.
Proof.
  intros Hq. induction ts as [|t ts IH]; intros N P HW Hts Hnd Hk He; [by apply triple_ret, Hk|].
  apply Forall_cons in Hts as [Ht Hts]. cbn in Hnd. apply NoDup_app in Hnd as (Hnt & Hdis & Hnd).
  destruct (stored_root _ N p t Ht) as (left & right & Hn & Hg). rewrite node_of_id in Hn. cbn [fmap list_fmap reparent].
  apply (read_node idx N P (root_id t) _ _ _ HW Hn); [|done]. intros P1 HW1.
  apply (write_child idx N P1 q (root_id t) _ _ _ HW1 Hn Hg Hq); [|done]. intros P2 HW2.
  apply (IH (alter (with_parent q) (root_id t) N) P2 HW2); [|done|exact Hk|done].
  apply (stored_list_frame _ N); [|done]. intros id Hid. apply lookup_alter_ne. intros Heq. apply (Hdis (root_id t)); [apply root_in_ids|by rewrite Heq].
Qed.

(** An inner node has one more separator and child than its page says; it is
    in the hole of [c] and may be too large. *)
Record swollen idx N P {H h} (c : ctx H (S h)) (f : inner) (ts : list (tree h)) (n : btreeNode) : Prop := {
  sw_world : world idx N P;
  sw_ctx : c_stored (type_name idx) N c (i_id f);
  sw_children : Forall (stored (type_name idx) N (i_id f)) ts;
  sw_ordered : c_ordered (type_name idx) c;
  sw_kids : kids (type_name idx) (ordered (type_name idx)) (c_low c) (i_keys f) (c_high c) ts;
  sw_nodup : NoDup (i_id f :: concat (ids <$> ts) ++ c_ids c);
  sw_node : exists left right, n = inner_node (c_parent c) left right f (root_id <$> ts);
  sw_ok : node_ok (type_name idx) n;
  sw_size : node_size n <= btreePageCapacity + max_key + 4;
  sw_space : nextPageID (meta idx) + Z.of_nat (c_depth c) + 2 < 2 ^ 31;
  sw_id : 0 < i_id f < nextPageID (meta idx);
  sw_root : rootPageID (meta idx) = root_id (plug c ((f, ts) : tree (S h)));
  sw_height : height (meta idx) = Z.of_nat (S H) /\ height (meta idx) < nextPageID (meta idx);
  sw_leftmost : 0 <= leftmostLeafID (meta idx) < 2 ^ 31
}.

Lemma root_plug {H h} (c : ctx H h) : forall t t' : tree h, root_id t = root_id t' -> root_id (plug c t) = root_id (plug c t').
Proof. induction c as [|h id kl kr l r c IH]; intros t t' Heq; [done|]. cbn [plug]. by apply IH. Qed.

Lemma stored_list_good tn N p {h} (ts : list (tree h)) id n : Forall (stored tn N p) ts -> N !! id = Some n -> id ∈ root_id <$> ts ->
  good_node tn n.
Proof.
  intros Hts Hn (t & -> & Ht)%list_elem_of_fmap. rewrite Forall_forall in Hts. by destruct (stored_good tn N p t n (Hts t Ht) Hn).
Qed.

(** The node fits: the tree is whole. *)
Lemma swollen_fits idx N P {H h} (c : ctx H (S h)) f (ts : list (tree h)) n (Q : outcome unit -> Pool R D * t -> Prop) :
  swollen idx N P c f ts n -> node_size n <= btreePageCapacity ->
  (forall P' N', standing idx N' P' (plug c ((f, ts) : tree (S h))) -> Q (Ok tt) (P', idx)) -> (forall e s, Q (Err e) s) ->
  triple (writeNode n) (P, idx) Q.
Proof.
  intros HS Hsz Hk He. destruct (sw_node _ _ _ _ _ _ _ HS) as (left & right & ->).
  pose proof (sw_nodup _ _ _ _ _ _ _ HS) as Hnd. apply NoDup_cons in Hnd as [Hnot Hnd].
  apply triple_eq with (writeNode (inner_node (c_parent c) left right f (root_id <$> ts)) ;;; sret tt).
  { unfold sbind. by destruct (writeNode _ _) as [[[]|e|] s]. }
  apply (write_node idx N P); [apply HS|split; [apply HS|done]|apply (sw_id _ _ _ _ _ _ _ HS)| |done].
  intros P' HW. apply triple_ret. cbn [nodePageID inner_node] in HW.
  assert (Hother : forall id, id ∈ concat (ids <$> ts) ++ c_ids c ->
    <[i_id f := inner_node (c_parent c) left right f (root_id <$> ts)]> N !! id = N !! id).
  { intros id Hid. apply lookup_insert_ne. intros Heq. apply Hnot. by rewrite Heq. }
  eapply Hk. split; [exact HW| | | |apply (sw_root _ _ _ _ _ _ _ HS)|apply (sw_height _ _ _ _ _ _ _ HS)].
  - apply plug_stored. split.
    + apply (c_stored_frame _ N); [|apply (sw_ctx _ _ _ _ _ _ _ HS)]. intros id Hid. apply Hother, elem_of_app. by right.
    + cbn [stored fst snd]. split.
      * exists left, right. split; [apply lookup_insert_eq|]. split; [apply HS|done].
      * apply (stored_list_frame _ N); [|apply (sw_children _ _ _ _ _ _ _ HS)]. intros id Hid. apply Hother, elem_of_app. by left.
  - apply plug_ordered; [apply HS|]. exact (sw_kids _ _ _ _ _ _ _ HS).
  - rewrite plug_ids. cbn [ids fst snd]. apply (sw_nodup _ _ _ _ _ _ _ HS).
Qed.

Lemma take_drop_ids {h} n (ts : list (tree h)) : concat (ids <$> ts) = concat (ids <$> take n ts) ++ concat (ids <$> drop n ts).
Proof. by rewrite <- concat_app, <- fmap_app, take_drop. Qed.

Lemma node_ok_half tn p left right (f f' : inner) cs cs' left' right' :
  node_ok tn (inner_node p left right f cs) -> Forall (key_ok tn) (i_keys f') -> Forall (in_sint 32) cs' ->
  length cs' = S (length (i_keys f')) -> in_sint 32 left' -> in_sint 32 right' -> node_ok tn (inner_node p left' right' f' cs').
Proof. intros [(Hp & _ & _) _ _] Hk Hc Hl Hlf Hrt. by split; cbn. Qed.

(** A node that is too large is cut in two; [up] goes on with the halves. *)
Lemma splitInternal_run idx N P {H h} (c : ctx H (S h)) f (ts : list (tree h)) n up (Q : outcome unit -> Pool R D * t -> Prop) :
  swollen idx N P c f ts n -> btreePageCapacity < node_size n ->
  (forall P' idx' N' (tl tr : tree (S h)) sk left right, grown_by 1 idx idx' -> pending idx' N' P' c tl sk tr ->
     N' !! root_id tl = Some left -> N' !! root_id tr = Some right -> leaves tl ++ leaves tr = concat (leaves <$> ts) ->
     triple (up left sk right) (P', idx') Q) ->
  (forall e s, Q (Err e) s) ->
  triple (splitInternal up n) (P, idx) Q.
Proof.
  intros HS Hbig Hup He. destruct (sw_node _ _ _ _ _ _ _ HS) as (left & right & ->).
  pose proof (sw_size _ _ _ _ _ _ _ HS) as Hsz. pose proof (sw_space _ _ _ _ _ _ _ HS) as Hsp. pose proof (sw_id _ _ _ _ _ _ _ HS) as Hid.
  destruct f as [id ks]. cbn [i_id] in Hid. set (tn := type_name idx) in *. set (cs := root_id <$> ts) in *.
  assert (Hcs : length cs = length ts) by apply length_fmap.
  destruct (inner_split tn (ordered tn) (c_low c) (c_high c) ks ts _ left right id cs (sw_kids _ _ _ _ _ _ _ HS) Hcs (conj Hbig Hsz))
    as (sk & Esk & Hsep & Hmid & Hk1 & Hk2 & Hz1 & Hz2). set (mid := Nat.div2 (length ks)) in *.
  pose proof (kids_length _ _ _ _ _ _ (sw_kids _ _ _ _ _ _ _ HS)) as Hlen. cbn [i_keys] in Hlen.
  unfold splitInternal. cbn [keys children values inner_node i_keys parentPageID nodePageID rightSibPageID i_id]. fold mid.
  rewrite Esk. change (slift (of_option (Some sk))) with (slift (S := Pool R D * t) (Ok sk)). rewrite slift_ok.
  pose proof (sw_world _ _ _ _ _ _ _ HS) as HW. apply (allocate_node idx N P); [done|lia| |done]. intros P1 HW1 Hfresh.
  set (new := nextPageID (meta idx)) in *. rewrite !slice_from_ok by lia. rewrite !slift_ok.
  pose proof (sw_nodup _ _ _ _ _ _ _ HS) as Hnd. cbn [i_id] in Hnd. rewrite (take_drop_ids (S mid) ts) in Hnd.
  pose proof (sw_children _ _ _ _ _ _ _ HS) as Hch. cbn [i_id] in Hch.
  assert (Hlow : forall x, x ∈ id :: concat (ids <$> ts) ++ c_ids c -> x <> new).
  { intros x Hx ->. apply elem_of_cons in Hx as [Hx|[(t & Ht & Hx)%elem_of_concat_map|Hx]%elem_of_app]; [lia| |].
    - rewrite Forall_forall in Hch. apply (stored_ids_range idx N P id t new HW (Hch t Ht)) in Hx. lia.
    - destruct (c_stored_ids tn N c new id (sw_ctx _ _ _ _ _ _ _ HS) Hx) as [m Hm]. by rewrite Hfresh in Hm. }
  assert (Hnew32 : in_sint 32 new) by (unfold in_sint; lia).
  assert (Hdrop_ids : root_id <$> drop (S mid) ts = drop (S mid) cs) by apply fmap_drop.
  assert (Htake_ids : root_id <$> take (S mid) ts = take (S mid) cs) by apply fmap_take.
  apply triple_bind. cbn [children]. rewrite <- Hdrop_ids.
  apply (reparent_run (grow idx) new id (drop (S mid) ts) _ Hnew32 N P1 HW1); [by apply Forall_drop| | |done].
  { apply NoDup_cons in Hnd as [_ Hnd]. rewrite <- app_assoc in Hnd. apply NoDup_app in Hnd as (_ & _ & Hnd). by apply NoDup_app in Hnd as (? & _ & _). }
  intros P2 HW2. set (N1 := reparented new (drop (S mid) ts) N) in *.
  set (n1 := inner_node (c_parent c) left new {| i_id := id; i_keys := take mid ks |} (take (S mid) cs)).
  set (n2 := inner_node (c_parent c) id right {| i_id := new; i_keys := drop (S mid) ks |} (drop (S mid) cs)).
  destruct (sw_ok _ _ _ _ _ _ _ HS) as [Hhd Hks (_ & _ & Hcr)]. cbn in Hhd, Hks, Hcr. destruct Hhd as (Hp32 & Hl32 & Hr32).
  assert (Hg1 : good_node tn n1).
  { split; [|unfold n1; by rewrite inner_size].
    apply (node_ok_half tn _ _ _ _ _ _ _ _ _ (sw_ok _ _ _ _ _ _ _ HS)); cbn [i_keys]; [by apply Forall_take|by apply Forall_take| |done|done].
    rewrite !length_take. lia. }
  assert (Hg2 : good_node tn n2).
  { split; [|unfold n2; by rewrite inner_size].
    apply (node_ok_half tn _ _ _ _ _ _ _ _ _ (sw_ok _ _ _ _ _ _ _ HS)); cbn [i_keys]; [by apply Forall_drop|by apply Forall_drop| |unfold in_sint; lia|done].
    rewrite !length_drop. lia. }
  change (with_right new _) with n1. rewrite Hdrop_ids. change {| nodePageID := new; isLeaf := _; parentPageID := _; leftSibPageID := _; rightSibPageID := _;
    keys := _; values := _; children := _ |} with n2.
  apply (write_node (grow idx) N1 P2 n1); [done|done|cbn; lia| |done]. intros P3 HW3.
  apply (write_node (grow idx) _ P3 n2 _ _ HW3); [done|cbn; lia| |done]. intros P4 HW4.
  change (nodePageID n1) with id in *. change (nodePageID n2) with new in *. set (N3 := <[new := n2]> (<[id := n1]> N1)) in *.
  assert (Hne : id <> new) by lia.
  assert (H1 : N3 !! id = Some n1) by (unfold N3; by rewrite lookup_insert_ne, lookup_insert_eq).
  assert (H2 : N3 !! new = Some n2) by (unfold N3; by rewrite lookup_insert_eq).
  assert (H3 : forall x, x <> id -> x <> new -> N3 !! x = N1 !! x) by (intros x Hx1 Hx2; unfold N3; by rewrite !lookup_insert_ne).
  assert (H4 : forall x, x ∉ concat (ids <$> drop (S mid) ts) -> N1 !! x = N !! x) by (intros x; apply reparented_other).
  set (tl := ({| i_id := id; i_keys := take mid ks |}, take (S mid) ts) : tree (S h)).
  set (tr := ({| i_id := new; i_keys := drop (S mid) ks |}, drop (S mid) ts) : tree (S h)).
  rewrite (take_drop_ids (S mid) ts) in Hlow. set (a := concat (ids <$> take (S mid) ts)) in *. set (b := concat (ids <$> drop (S mid) ts)) in *.
  apply NoDup_cons in Hnd as [Hidn Hnd]. pose proof Hnd as Hnd'. rewrite <- app_assoc in Hnd'.
  apply NoDup_app in Hnd' as (Hna & Hab & Hnb). apply NoDup_app in Hnb as (Hnb & Hbc & Hnc).
  apply (Hup P4 (grow idx) N3 tl tr sk n1 n2); [repeat split; cbn; lia| |exact H1|exact H2|by cbn; rewrite <- concat_app, <- fmap_app, take_drop].
  split.
  - exact HW4.
  - apply (c_stored_frame tn N N3 c id); [|apply (sw_ctx _ _ _ _ _ _ _ HS)]. intros x Hx. rewrite H3, H4; [done| | |].
    + intros Hxb. by apply (Hbc x).
    + intros ->. apply Hidn. rewrite !elem_of_app. by right.
    + apply Hlow. rewrite elem_of_cons, !elem_of_app. by right; right.
  - split; [exists left, new; cbn [tl fst snd]; rewrite Htake_ids; split; [exact H1|done]|]. apply (stored_list_frame tn N); [|by apply Forall_take]. fold a. intros x Hx. rewrite H3, H4; [done| | |].
    + intros Hxb. apply (Hab x Hx). apply elem_of_app. by left.
    + intros ->. apply Hidn. rewrite !elem_of_app. by left; left.
    + apply Hlow. rewrite elem_of_cons, !elem_of_app. by right; left; left.
  - split; [exists id, right; cbn [tr fst snd]; rewrite Hdrop_ids; split; [exact H2|done]|]. cbn [fst snd tr i_id]. apply (stored_list_frame tn N1).
    + fold b. intros x Hx. apply H3; [intros ->; apply Hidn; rewrite !elem_of_app; by left; right|].
      apply Hlow. rewrite elem_of_cons, !elem_of_app. by right; left; right.
    + apply (reparented_stored tn new id); [done|by apply Forall_drop|done].
  - apply HS.
  - exact Hk1.
  - exact Hk2.
  - exact Hsep.
  - cbn [ids tl tr fst snd i_id]. fold a b.
    assert (Hperm : (id :: a) ++ (new :: b) ++ c_ids c ≡ₚ new :: id :: (a ++ b) ++ c_ids c) by solve_Permutation.
    rewrite Hperm. apply NoDup_cons. split; [intros Hx; by apply (Hlow new)|]. by apply NoDup_cons.
  - cbn. lia.
  - cbn [meta grow with_meta rootPageID]. rewrite (sw_root _ _ _ _ _ _ _ HS). by apply root_plug.
  - cbn. destruct (sw_height _ _ _ _ _ _ _ HS). lia.
  - apply (sw_leftmost _ _ _ _ _ _ _ HS).
Qed.

(** The parent takes the new separator and child. *)
Lemma swell idx N P {H h} id kl kr (l r : list (tree h)) (c : ctx H (S h)) tl sk tr :
  pending idx N P (Up id kl kr l r c) tl sk tr ->
  exists left right,
    let f := {| i_id := id; i_keys := kl ++ kr |} in
    let f' := {| i_id := id; i_keys := kl ++ sk :: kr |} in
    N !! id = Some (inner_node (c_parent c) left right f ((root_id <$> l) ++ root_id tl :: (root_id <$> r))) /\
    upperBound idx (kl ++ kr) sk = Ok (length kl) /\ length kl = length l /\ 0 < id /\
    swollen idx N P c f' (l ++ tl :: tr :: r) (inner_node (c_parent c) left right f' (root_id <$> l ++ tl :: tr :: r)).
Proof.
  intros HP. set (tn := type_name idx). destruct (pd_ctx _ _ _ _ _ _ _ HP) as ((left & right & Hn & Hg) & Hl & Hr & Hc).
  destruct (pd_ordered _ _ _ _ _ _ _ HP) as (Hlen & Hb & Ha & Hco). pose proof (pd_sep _ _ _ _ _ _ _ HP) as Hsep.
  pose proof (pd_low _ _ _ _ _ _ _ HP) as Hlow. pose proof (pd_high _ _ _ _ _ _ _ HP) as Hhigh. cbn [c_low c_high] in Hsep, Hlow, Hhigh.
  pose proof (pd_world _ _ _ _ _ _ _ HP) as HW. destruct (node_id _ _ _ _ _ HW Hn) as [_ Hid]. cbn [nodePageID inner_node i_id] in Hid, Hn.
  pose proof (sep_high tn _ _ _ _ _ _ Ha Hsep) as Hsep1. pose proof (sep_low tn _ _ _ _ _ _ Hb Hsep1) as Hsep2.
  assert (Hkids : kids tn (ordered tn) (c_low c) (kl ++ sk :: kr) (c_high c) (l ++ tl :: tr :: r)).
  { apply kids_app; [done|]. split; [done|]. split; [done|]. split; [done|]. apply kids_cons. split; [done|].
    by apply (after_low tn _ (low (c_low c) kl)). }
  destruct Hg as [Hnode Hsz]. pose proof Hnode as [Hhd Hks (Hv & Hcl & Hcr)]. cbn in Hks, Hcl, Hcr.
  exists left, right. split; [done|]. split; [|split; [done|split; [lia|]]].
  - assert (Hks' : Forall (key_ok tn) (kl ++ kr)) by done.
    assert (Hinc : increasing (kl ++ kr)).
    { destruct (kids_sorted tn _ _ _ _ _ Hkids) as [Hi _]. apply increasing_app in Hi as (H1 & H2 & H3). apply increasing_app.
      apply increasing_cons in H2 as [H2 _]. split_and!; [done..|]. intros a b Ha' Hb'. apply H3; [done|by right]. }
    destruct (upperBound_spec idx (kl ++ kr) sk (keys_kind _ _ Hks')) as (pos & -> & Hpos); [apply key_ok_kind, Hsep|by apply increasing_sorted|]. f_equal.
    apply (splits_app (fun a => value_le a sk)) in Hpos as ->; [done| |].
    + apply (before_le tn _ (c_low c) kl (c_high c) l sk Hb). destruct Hsep1 as (Hk1 & Hk2 & Hk3). split; [apply key_ok_kind, Hk1|]. split; [|done].
      destruct (low (c_low c) kl); [by apply lt_le|done].
    + apply (after_lt tn _ _ kr (c_high c) r sk Ha). apply Hsep.
  - set (cs' := root_id <$> l ++ tl :: tr :: r).
    assert (Hcs' : cs' = (root_id <$> l) ++ root_id tl :: root_id tr :: (root_id <$> r)) by (unfold cs'; by rewrite fmap_app).
    assert (Htr : 0 < root_id tr < nextPageID (meta idx)).
    { apply (stored_ids_range idx N P id tr (root_id tr) HW (pd_right _ _ _ _ _ _ _ HP)), root_in_ids. }
    destruct (world_pages _ _ _ HW) as [Hnx _].
    split; try done.
    + rewrite Forall_app, !Forall_cons. split_and!; [done|apply (pd_left _ _ _ _ _ _ _ HP)|apply (pd_right _ _ _ _ _ _ _ HP)|done].
    + pose proof (pd_nodup _ _ _ _ _ _ _ HP) as Hnd. cbn [c_ids] in Hnd. rewrite fmap_app, concat_app. cbn [i_id fmap list_fmap concat].
      assert (Hperm : id :: (concat (ids <$> l) ++ ids tl ++ ids tr ++ concat (ids <$> r)) ++ c_ids c ≡ₚ
        ids tl ++ ids tr ++ id :: concat (ids <$> l) ++ concat (ids <$> r) ++ c_ids c) by solve_Permutation.
      by rewrite Hperm.
    + by exists left, right.
    + rewrite Hcs'. split; [done| |split_and!; [done| |]]; cbn.
      * apply Forall_app in Hks as [Hk1 Hk2]. apply Forall_app. split; [done|]. constructor; [apply Hsep|done].
      * rewrite !length_app in *. cbn [length] in *. lia.
      * apply Forall_app in Hcr as [Hc1 Hc2]. apply Forall_cons in Hc2 as [Hc2 Hc3]. apply Forall_app. split; [done|].
        constructor; [done|]. constructor; [unfold in_sint; lia|done].
    + rewrite Hcs', !inner_size in *. cbn [i_keys] in *. rewrite !fmap_app, !total_app in *. cbn [fmap list_fmap total] in *.
      rewrite !length_app in *. cbn [length] in *. destruct Hsep as ([_ Hm] & _ & _). lia.
    + pose proof (pd_space _ _ _ _ _ _ _ HP) as Hs. cbn [c_depth] in Hs. lia.
    + rewrite (pd_root _ _ _ _ _ _ _ HP). cbn [plug]. by apply root_plug.
    + apply (pd_height _ _ _ _ _ _ _ HP).
    + apply (pd_leftmost _ _ _ _ _ _ _ HP).
Qed.

Lemma grown_by_trans n m idx1 idx2 idx3 : grown_by n idx1 idx2 -> grown_by m idx2 idx3 -> grown_by (n + m) idx1 idx3.
Proof.
  intros (E1 & L1 & N1) (E2 & L2 & N2). split; [rewrite E2, E1; done|]. split; [congruence|lia].
Qed.

Lemma grown_by_le n m idx1 idx2 : n <= m -> grown_by n idx1 idx2 -> grown_by m idx1 idx2.
Proof. intros Hle (E1 & L1 & N1). split_and!; [done..|lia|lia]. Qed.

Lemma insertIntoParent_unfold x path left k right s :
  insertIntoParent (R := R) (D := D) (x :: path) left k right s =
  (if parentPageID left =? -1 then createNewRoot left k right
   else
    parent <- readNode (parentPageID left) ;;
    idx <- self ;;
    pos <- slift (upperBound idx (keys parent) k) ;;
    ks <- slift (insert_at pos k (keys parent)) ;;
    cs <- slift (insert_at (S pos) (nodePageID right) (children parent)) ;;
    let parent := with_content ks (values parent) cs parent in
    writeNode (with_parent (nodePageID parent) right) ;;;
    size <- slift (estimateSize idx parent) ;;
    if size <=? btreePageCapacity then writeNode parent
    else splitInternal (insertIntoParent path) parent) s.
Proof. done. Qed.

(** The way up: [insertIntoParent] makes the tree whole again. *)
Lemma insertIntoParent_run {H h} (c : ctx H h) : forall idx N P tl sk tr left right path (Q : outcome unit -> Pool R D * t -> Prop),
  pending idx N P c tl sk tr -> N !! root_id tl = Some left -> N !! root_id tr = Some right -> length path = S (c_depth c) ->
  (forall P' idx' N' H' (t' : tree H'), grown_by (Z.of_nat (c_depth c) + 1) idx idx' -> standing idx' N' P' t' ->
     leaves t' = c_left c ++ leaves tl ++ leaves tr ++ c_right c -> Q (Ok tt) (P', idx')) -> (forall e s, Q (Err e) s) ->
  triple (insertIntoParent path left sk right) (P, idx) Q.
Proof.
  induction c as [|h id kl kr l r c IH]; intros idx N P tl sk tr left right path Q HP Hl Hr Hpath Hk He;
    (destruct path as [|x path]; [done|]); (eapply triple_eq; [apply insertIntoParent_unfold|]);
    destruct (stored_good _ _ _ _ _ (pd_left _ _ _ _ _ _ _ HP) Hl) as (_ & Hpar & _); cbn [c_parent] in Hpar; rewrite !Hpar.
  - cbn [Z.eqb Pos.eqb]. apply (createNewRoot_run idx N P tl tr sk left right Q HP Hl Hr); [|done].
    intros P' idx' N' t' Hgr Hst Hlv. apply (Hk P' idx' N' _ t'); [done|done|]. by rewrite Hlv, app_nil_r.
  - destruct (swell _ _ _ _ _ _ _ _ _ _ _ _ HP) as (lf & rt & Hn & Hpos & Hlen & Hid & HS).
    rewrite (proj2 (Z.eqb_neq id (-1))) by lia. set (ts := l ++ tl :: tr :: r) in *.
    apply (read_node idx N P id _ _ _ (pd_world _ _ _ _ _ _ _ HP) Hn); [|done]. intros P1 HW1. apply triple_self.
    cbn [keys children values inner_node i_keys]. rewrite Hpos, slift_ok. rewrite insert_at_ok by (rewrite length_app; lia). rewrite slift_ok.
    assert (Hlc : length (root_id <$> l) = length kl) by (by rewrite length_fmap).
    rewrite insert_at_ok by (rewrite length_app; cbn [length]; lia). rewrite slift_ok.
    destruct (stored_good _ _ _ _ _ (pd_right _ _ _ _ _ _ _ HP) Hr) as (Hgr & Hparr & Hidr).
    rewrite take_app_length, drop_app_length.
    assert (Hcs : take (S (length kl)) ((root_id <$> l) ++ root_id tl :: (root_id <$> r)) ++ nodePageID right ::
        drop (S (length kl)) ((root_id <$> l) ++ root_id tl :: (root_id <$> r)) = root_id <$> ts).
    { rewrite (cons_middle (root_id tl)), app_assoc, take_app_length', drop_app_length' by (rewrite length_app; cbn [length]; lia).
      unfold ts. rewrite fmap_app, Hidr, <- app_assoc. done. }
    rewrite Hcs.
    set (n' := inner_node (c_parent c) lf rt {| i_id := id; i_keys := kl ++ sk :: kr |} (root_id <$> ts)) in *.
    change (with_content _ _ _ (inner_node _ _ _ _ _)) with n'. cbn [c_parent] in Hparr.
    assert (Hsame : with_parent id right = right) by (rewrite <- Hparr; by destruct right). change (nodePageID n') with id. rewrite Hsame.
    pose proof (node_id _ _ _ _ _ (pd_world _ _ _ _ _ _ _ HP) Hr) as [_ Hrr].
    apply (write_node idx N P1 right); [done|done|lia| |done]. intros P2 HW2. rewrite Hidr, insert_id in HW2 by done.
    assert (HS2 : swollen idx N P2 c {| i_id := id; i_keys := kl ++ sk :: kr |} ts n') by (by destruct HS; split).
    rewrite (estimateSize_spec idx n' (sw_ok _ _ _ _ _ _ _ HS2)), slift_ok.
    assert (Hleaves : leaves (plug c (({| i_id := id; i_keys := kl ++ sk :: kr |}, ts) : tree (S h))) =
      (c_left c ++ concat (leaves <$> l)) ++ leaves tl ++ leaves tr ++ concat (leaves <$> r) ++ c_right c).
    { rewrite plug_leaves. cbn [leaves snd]. unfold ts. rewrite fmap_app, concat_app. cbn [fmap list_fmap concat]. by rewrite <- !app_assoc. }
    destruct (Z.leb_spec (node_size n') btreePageCapacity) as [Hfit|Hbig].
    + apply (swollen_fits idx N P2 c _ ts n' Q HS2 Hfit); [|done]. intros P3 N3 Hst. refine (Hk P3 idx N3 _ _ _ Hst Hleaves).
      split; [by destruct idx|]. split; [done|]. cbn [c_depth]. lia.
    + apply (splitInternal_run idx N P2 c _ ts n' _ Q HS2 Hbig); [|done].
      intros P3 idx3 N3 tl' tr' sk' left' right' Hgr3 HP3 Hl3 Hr3 Hlv3. cbn [length c_depth] in Hpath.
      apply (IH idx3 N3 P3 tl' sk' tr' left' right' path Q HP3 Hl3 Hr3); [lia| |done].
      intros P4 idx4 N4 H4 t4 Hgr4 Hst4 Hlv4. apply (Hk P4 idx4 N4 H4 t4).
      * cbn [c_depth]. eapply grown_by_le; [|by eapply grown_by_trans]. lia.
      * done.
      * etrans; [|exact Hleaves]. rewrite Hlv4, plug_leaves. cbn [leaves snd]. by rewrite <- Hlv3, <- !app_assoc.
Qed.

(** ** The whole call *)
Lemma c_path_length {H h} (c : ctx H h) : length (c_path c) = c_depth c.
Proof. induction c as [|h id kl kr l r c IH]; [done|]. cbn. by rewrite IH. Qed.

Lemma c_depth_height {H h} (c : ctx H h) : (c_depth c + h = H)%nat.
Proof. induction c as [|h id kl kr l r c IH]; [done|]. cbn. lia. Qed.

(** The index as it is after an insertion that began in the store [E0], [A0]. *)
Definition inserted idx (es : list entry) (s : Pool R D * t) : Prop := exists E A,
  store_but E A s.1 /\ holds E A s.2 es /\ grown_by (height (meta idx) + 1) idx s.2 /\
  (forall x, E x -> E0 x \/ FileID x = fileID idx) /\ elsewhere (fileID idx) A0 A.

Lemma standing_inserted idx idx' N P {H} (t : tree H) es :
  grown_by (height (meta idx) + 1) idx idx' -> standing idx' N P t -> linked (leaves t) ->
  head (l_id <$> leaves t) = Some (leftmostLeafID (meta idx)) -> es = entries_in (leaves t) -> inserted idx es (P, idx').
Proof.
  intros Hgr HS Hl Hh ->. pose proof Hgr as (Eidx & Elm & _). destruct (sd_world _ _ _ _ HS) as (E & A & Hst & HN & Hm & HE & Hel). exists E, A. split; [done|].
  assert (Hf : fileID idx' = fileID idx) by (by rewrite Eidx). rewrite Hf in *.
  split; [|by split_and!]. exists N, H, t. split; [|done]. split; try done; try apply HS. cbn [snd]. by rewrite Hh, Elm.
Qed.

(** The entries when the leaf in the hole has one more TID. *)
Lemma add_tid_hole tn {H} (c : ctx H 0) (lf : leaf) k tid :
  c_ordered tn c -> in_range tn (c_low c) (c_high c) k ->
  entries_in (c_left c) ++ add_tid k tid (entries_of lf) ++ entries_in (c_right c) =
  add_tid k tid (entries_in (leaves (plug c (lf : tree 0)))).
Proof.
  intros Hc Hr. pose proof (c_range tn c k Hc Hr) as (_ & Hl & Hrt). rewrite plug_leaves, !entries_in_app. cbn [leaves].
  unfold entries_in at 4. cbn [fmap list_fmap concat]. rewrite app_nil_r.
  assert (Hside : forall (p : any -> Prop) ls, (forall l, l ∈ ls -> Forall p (l_keys l)) -> Forall (fun e : entry => p e.1) (entries_in ls)).
  { intros p ls Hls. apply Forall_forall. intros e (l & Hl' & He)%elem_of_concat_map.
    pose proof (Forall_zip_l _ (l_keys l) (l_values l) (Hls l Hl')) as Hz. rewrite Forall_forall in Hz. by apply Hz. }
  rewrite add_tid_app by by apply (Hside (fun a => value_lt a k)). by rewrite add_tid_app_r by by apply (Hside (value_lt k)).
Qed.

(** Other pages are not touched by the halves of a leaf. *)
Lemma plug_leaf_replace N N' tn {H} (c : ctx H 0) (lf lf' : leaf) :
  stored tn N (-1) (plug c (lf : tree 0)) -> l_id lf' = l_id lf -> NoDup (ids (plug c (lf : tree 0))) ->
  (forall id, id ∈ c_ids c -> N' !! id = N !! id) -> stored tn N' (c_parent c) (lf' : tree 0) -> stored tn N' (-1) (plug c (lf' : tree 0)).
Proof.
  intros Hs Hid Hnd HN Hlf. apply plug_stored in Hs as [Hs _]. apply plug_stored. split; [|done].
  cbn [root_id] in *. rewrite Hid. by eapply c_stored_frame.
Qed.

(** The right neighbour gets a new left neighbour. *)
Lemma relink_run idx N P new r (ls : list leaf) {B} (k : ST (Pool R D * t) B) Q :
  world idx N P -> in_sint 32 new -> r = first_id ls ->
  (forall l, l ∈ ls -> exists q left, has_node (type_name idx) N (leaf_node q left l)) ->
  (forall P' N', world idx N' P' -> (N' = N \/ exists n, N !! r = Some n /\ r ∈ l_id <$> ls /\ N' = <[r := with_left new n]> N) ->
     triple k (P', idx) Q) -> (forall e s, Q (Err e) s) ->
  triple ((if r =? -1 then sret tt else x <- readNode r ;; writeNode (with_left new x)) ;;; k) (P, idx) Q.
Proof.
  intros HW Hnew -> Hls Hk He. destruct ls as [|l ls]; cbn [first_id].
  { apply triple_bind, triple_ret. apply (Hk P N); [done|by left]. }
  destruct (Hls l (list_elem_of_here _ _)) as (q & lft & Hn & Hg). destruct (node_id _ _ _ _ _ HW Hn) as [_ Hr]. cbn [nodePageID leaf_node] in *.
  rewrite (proj2 (Z.eqb_neq _ _)) by lia.
  eapply triple_eq; [apply (sbind_assoc (readNode (l_id l)))|].
  apply (read_node idx N P (l_id l) _ _ _ HW Hn); [|done]. intros P1 HW1.
  apply (write_node idx N P1); [done|by apply good_left|done| |done]. intros P2 HW2. apply (Hk P2 _ HW2). right.
  eexists. split; [exact Hn|]. split; [by left|done].
Qed.

(** The leaf that is too large is split, and its parents as far as needed. *)
Lemma splitLeaf_run idx N P {H} (c : ctx H 0) (lf lf' : leaf) left (Q : outcome unit -> Pool R D * t -> Prop) :
  let tn := type_name idx in
  world idx N P -> stored tn N (-1) (plug c (lf : tree 0)) -> NoDup (ids (plug c (lf : tree 0))) -> linked (leaves (plug c (lf : tree 0))) ->
  has_node tn N (leaf_node (c_parent c) left lf) -> c_ordered tn c -> l_id lf' = l_id lf -> l_right lf' = l_right lf ->
  ordered (h := O) tn (c_low c) (c_high c) lf' -> node_ok tn (leaf_node (c_parent c) left lf') -> small (entries_of lf') ->
  btreePageCapacity < node_size (leaf_node (c_parent c) left lf') <= btreePageCapacity + max_entry ->
  rootPageID (meta idx) = root_id (plug c (lf : tree 0)) -> height (meta idx) = Z.of_nat (S H) -> height (meta idx) < nextPageID (meta idx) ->
  0 <= leftmostLeafID (meta idx) < 2 ^ 31 -> nextPageID (meta idx) + height (meta idx) + 1 < 2 ^ 31 ->
  (forall P' idx' N' H' (t' : tree H') new, grown_by (height (meta idx) + 1) idx idx' -> standing idx' N' P' t' ->
     leaves t' = c_left c ++ left_half new lf' :: right_half new lf' :: c_right c ->
     entries_of (left_half new lf') ++ entries_of (right_half new lf') = entries_of lf' -> Q (Ok tt) (P', idx')) ->
  (forall e s, Q (Err e) s) ->
  triple (splitLeaf (leaf_node (c_parent c) left lf') (l_id lf :: c_path c)) (P, idx) Q.
Proof.
  intros tn HW Hs Hnd Hlk Hn Hc Hid Hright Ho Hok Hsm Hsz Hroot Hht Hht2 Hlm Hsp Hk He.
  pose proof (c_depth_height c) as Hdep. unfold splitLeaf. cbn [keys values children parentPageID nodePageID rightSibPageID leaf_node].
  apply (allocate_node idx N P); [done|lia| |done]. intros P1 HW1 Hfresh. set (new := nextPageID (meta idx)) in *.
  destruct (node_id _ _ _ _ _ HW (proj1 Hn)) as [_ Hidr]. cbn [nodePageID leaf_node] in Hidr.
  assert (Hnew : in_sint 32 new) by (unfold in_sint; lia).
  destruct (leaf_split tn (c_low c) (c_high c) (c_parent c) left new lf' (c_low_ok tn c Hc) Ho Hok Hsm Hsz Hnew) as
    (sk & Hsk & Hsep & Ho1 & Ho2 & Hg1 & Hg2 & Hen); [rewrite Hid; unfold in_sint; lia|].
  assert (Hlen : length (l_values lf') = length (l_keys lf')) by apply Ho.
  assert (Hmid : (Nat.div2 (length (l_keys lf')) <= length (l_keys lf'))%nat) by apply Nat.div2_decr, Nat.le_succ_diag_r.
  rewrite !slice_from_ok by lia. rewrite !slift_ok.
  change (with_right new _) with (leaf_node (c_parent c) left (left_half new lf')).
  change {| nodePageID := new; isLeaf := true; parentPageID := _; leftSibPageID := _; rightSibPageID := _; keys := _; values := _; children := _ |}
    with (leaf_node (c_parent c) (l_id lf') (right_half new lf')). cbn [keys rightSibPageID leaf_node].
  change (l_right (right_half new lf')) with (l_right lf'). rewrite Hright. set (n1 := leaf_node (c_parent c) left (left_half new lf')) in *.
  set (n2 := leaf_node (c_parent c) (l_id lf') (right_half new lf')) in *.
  assert (Hid1 : nodePageID n1 = l_id lf) by (by rewrite <- Hid). assert (Hid2 : nodePageID n2 = new) by done.
  apply (write_node (grow idx) N P1 n1); [done|done|cbn; rewrite Hid; lia| |done]. intros P2 HW2. rewrite Hid1 in HW2.
  apply (write_node (grow idx) _ P2 n2 _ _ HW2); [done|cbn; lia| |done]. intros P3 HW3. rewrite Hid2 in HW3.
  set (N2 := <[new := n2]> (<[l_id lf := n1]> N)) in *. assert (Hne : l_id lf <> new) by lia.
  assert (H1 : N2 !! l_id lf = Some n1) by (unfold N2; by rewrite lookup_insert_ne, lookup_insert_eq by done).
  assert (H2 : N2 !! new = Some n2) by (unfold N2; by rewrite lookup_insert_eq).
  assert (Hcids : forall x, x ∈ c_ids c -> x <> l_id lf /\ x <> new).
  { intros x Hx. split; intros ->.
    - rewrite plug_ids in Hnd. apply NoDup_app in Hnd as (_ & Hd & _). by apply (Hd (l_id lf)); [by left|].
    - apply plug_stored in Hs as [Hs _]. destruct (c_stored_ids tn N c new _ Hs Hx) as [m Hm]. by rewrite Hfresh in Hm. }
  assert (Hs2 : stored tn N2 (-1) (plug c (left_half new lf' : tree 0))).
  { apply (plug_leaf_replace N N2 tn c lf); [done|exact Hid|done| |].
    - intros x Hx. destruct (Hcids x Hx). unfold N2. by rewrite !lookup_insert_ne by done.
    - exists left. split; [by rewrite <- Hid1 in H1|done]. }
  assert (Hr2 : stored (h := O) tn N2 (c_parent c) (right_half new lf')) by (exists (l_id lf'); by split).
  pose proof Hlk as Hlk2. rewrite plug_leaves in Hlk2. cbn [leaves app] in Hlk2. apply linked_suffix in Hlk2. destruct Hlk2 as [Hr Hlk2].
  assert (Hrl : forall l, l ∈ c_right c -> l_id l <> l_id lf).
  { intros l Hl Heq. pose proof (sublist_NoDup _ _ Hnd (leaves_ids _)) as Hd. rewrite plug_leaves, !fmap_app in Hd. cbn [leaves fmap list_fmap] in Hd.
    apply NoDup_app in Hd as (_ & _ & Hd). apply NoDup_cons in Hd as [Hd _]. apply Hd, list_elem_of_fmap. by exists l. }
  apply (relink_run (grow idx) N2 P3 new (l_right lf) (c_right c)); [done|done|by destruct (c_right c)| | |done].
  { intros l Hl. apply (stored_leaf tn N2 l _ _ Hs2). rewrite plug_leaves, !elem_of_app. by right; right. }
  intros P4 N4 HW4 HN4. cbn [right_half l_keys] in Hsk. rewrite Hsk. change (slift (of_option (Some sk))) with (slift (S := Pool R D * t) (Ok sk)). rewrite slift_ok.
  assert (Hrel : stored tn N4 (-1) (plug c (left_half new lf' : tree 0)) /\ stored (h := O) tn N4 (c_parent c) (right_half new lf') /\
    N4 !! l_id lf = Some n1 /\ N4 !! new = Some n2).
  { destruct HN4 as [->|(m & Hm & (l & Hrid & Hl)%list_elem_of_fmap & ->)]; [done|]. rewrite Hrid in Hm |- *.
    assert (Hl1 : l_id l <> l_id lf) by by apply Hrl.
    assert (Hl2 : l_id l <> new).
    { intros Heq. assert (Hx : l_id l ∈ ids (plug c (left_half new lf' : tree 0))).
      { eapply elem_of_sublist; [|apply leaves_ids]. apply list_elem_of_fmap. exists l. split; [done|]. rewrite plug_leaves, !elem_of_app. by right; right. }
      rewrite plug_ids in Hx. apply elem_of_app in Hx as [Hx%list_elem_of_singleton|Hx]; [apply Hl1; rewrite Hx; exact Hid|]. by destruct (Hcids _ Hx). }
    split_and!; [by apply stored_relink|by apply (stored_relink tn N2 (l_id l) m new (c_parent c) (right_half new lf' : tree 0))|by rewrite lookup_insert_ne..]. }
  destruct Hrel as (Hs4 & Hr4 & H14 & H24). apply plug_stored in Hs4 as [Hc4 Hl4].
  apply (insertIntoParent_run c (grow idx) N4 P4 (left_half new lf' : tree 0) sk (right_half new lf' : tree 0) n1 n2); [|by rewrite <- Hid in H14|done|cbn; by rewrite c_path_length| |done].
  - split; try done.
    + cbn [ids left_half right_half l_id app]. rewrite plug_ids in Hnd. cbn [ids app] in Hnd. rewrite Hid. apply NoDup_cons in Hnd as [Hd1 Hd2].
      apply NoDup_cons. split; [intros [?|?]%elem_of_cons; done|]. apply NoDup_cons. split; [|done]. intros Hx. by destruct (Hcids new Hx).
    + cbn. lia.
    + cbn [meta grow with_meta rootPageID]. rewrite Hroot. apply root_plug. by cbn.
    + cbn. lia.
  - intros P' idx' N' H' t' Hgr Hst Hlv. apply (Hk P' idx' N' H' t' new); [|done|exact Hlv|done].
    destruct Hgr as (E1 & L1 & B1). split; [rewrite E1; done|]. split; [rewrite L1; done|]. cbn in B1. lia.
Qed.

(** [Insert] adds the TID to the entry of its key. *)
Lemma tree_Insert_run fuel P idx es k tid :
  store_but E0 A0 P -> holds E0 A0 idx es -> key_ok (type_name idx) k -> key_size k <= max_key -> tid_ok tid ->
  small (add_tid k tid es) -> nextPageID (meta idx) + height (meta idx) + 1 < 2 ^ 31 -> enough fuel idx ->
  (exists s, Insert fuel k tid (P, idx) = (Panic, s) /\ read_failed idx P) \/
  triple (Insert fuel k tid) (P, idx) (fun r s => r = Ok tt -> inserted idx (add_tid k tid es) s).
Proof.
  intros Hst (N & H & t & HT & ->) Hk Hkm Htid Hsm Hsp Hf. set (tn := type_name idx) in *.
  destruct (findLeaf_run root0 root_nonempty fuel E0 A0 P idx N t k Hst HT (key_ok_kind _ _ Hk) Hf) as [(s & Er & Hfail)|(c & lf & left & P1 & Er & Hst1 & Hp & Hc & Ho & Hr & Hn)].
  { left. exists s. split; [|done]. unfold Insert, sbind at 1. by rewrite Er. }
  right. unfold Insert. eapply triple_step; [exact Er|]. apply triple_self. cbn [fst snd].
  pose proof (ti_pages _ _ _ _ _ HT) as Hpg. pose proof (proj2 Hn) as [Hnok Hnsz].
  destruct (leaf_add idx (c_low c) (c_high c) (c_parent c) left lf k tid Ho Hnok Hr (conj Hk Hkm) Htid) as (lf' & -> & Hid & Hright & Hen & Ho' & Hok').
  rewrite slift_ok, (estimateSize_spec idx _ Hok'), slift_ok. fold tn in Ho', Hok'.
  assert (HW : world idx N P1).
  { exists E0, A0. split_and!; [done|done|apply HT|by left|apply elsewhere_refl]. }
  destruct (node_id _ _ _ _ _ HW (proj1 Hn)) as [_ Hidr]. cbn [nodePageID leaf_node] in Hidr. subst t.
  destruct (ti_height _ _ _ _ _ HT) as [Hh1 Hh2]. destruct (world_pages _ _ _ HW) as [Hnx _].
  assert (Hlen : length (l_values lf) = length (l_keys lf)) by apply Ho. assert (Hlen' : length (l_values lf') = length (l_keys lf')) by apply Ho'.
  pose proof (add_tid_hole tn c lf k tid Hc Hr) as Hes. rewrite <- Hen in Hes.
  assert (Hhead : forall ls (l : leaf), l_id l = l_id lf -> head (l_id <$> c_left c ++ l :: ls) = Some (leftmostLeafID (meta idx))).
  { intros ls l Hl. pose proof (ti_left _ _ _ _ _ HT) as Hlm. rewrite plug_leaves in Hlm. destruct (c_left c); [by cbn in *; rewrite Hl|done]. }
  assert (Hlm : 0 <= leftmostLeafID (meta idx) < 2 ^ 31).
  { pose proof (ti_left _ _ _ _ _ HT) as Hlm. assert (Hin : leftmostLeafID (meta idx) ∈ ids (plug c (lf : tree 0))).
    { eapply elem_of_sublist; [|apply leaves_ids]. destruct (l_id <$> leaves (plug c (lf : tree 0))) as [|a ?]; [done|]. injection Hlm as ->. by left. }
    pose proof (tree_ids _ _ _ _ _ _ HT Hin). lia. }
  pose proof (ti_linked _ _ _ _ _ HT) as Hlk. pose proof Hlk as Hlk'. rewrite plug_leaves in Hlk'. cbn [leaves app] in Hlk'.
  assert (Hlkr : linked (c_right c) /\ l_right lf = first_id (c_right c)).
  { pose proof (linked_suffix _ _ Hlk') as [Hl1 Hl2]. split; [done|]. rewrite Hl1. by destruct (c_right c). }
  destruct (Z.leb_spec (node_size (leaf_node (c_parent c) left lf')) btreePageCapacity) as [Hfit|Hbig].
  - eapply triple_eq with (writeNode (leaf_node (c_parent c) left lf') ;;; sret tt).
    { unfold sbind. by destruct (writeNode _ _) as [[[]|e|] s]. }
    apply (write_node idx N P1); [done|done|by cbn; rewrite Hid| |by intros]. intros P2 HW2. apply triple_ret. intros _.
    cbn [nodePageID leaf_node] in HW2. set (N2 := <[_ := _]> N) in HW2.
    assert (Hs2 : stored tn N2 (-1) (plug c (lf' : tree 0))).
    { apply (plug_leaf_replace N N2 tn c lf); [apply HT|done|apply HT| |].
      - intros x Hx. unfold N2. apply lookup_insert_ne. intros Heq. pose proof (ti_nodup _ _ _ _ _ HT) as Hnd. rewrite plug_ids in Hnd.
        apply NoDup_app in Hnd as (_ & Hd & _). apply (Hd (l_id lf)); [by left|]. by rewrite <- Hid, Heq.
      - exists left. split; [unfold N2; by rewrite lookup_insert_eq|done]. }
    assert (Hlv : leaves (plug c (lf' : tree 0)) = c_left c ++ lf' :: c_right c) by apply (plug_leaves c (lf' : tree 0)).
    apply (standing_inserted idx idx N2 P2 (plug c (lf' : tree 0))).
    + split; [by destruct idx|]. split; [done|lia].
    + split; [done|done|by apply plug_ordered| | |done].
      * rewrite plug_ids. cbn [ids]. rewrite Hid. pose proof (ti_nodup _ _ _ _ _ HT) as Hnd. by rewrite plug_ids in Hnd.
      * rewrite (ti_root _ _ _ _ _ HT). apply root_plug. by cbn.
    + rewrite Hlv. eapply (linked_replace _ lf); [done|exact Hlk'|]. split; [|apply Hlkr]. rewrite Hright. destruct Hlkr as [_ ->]. by destruct (c_right c).
    + rewrite Hlv. by apply Hhead.
    + rewrite Hlv, <- Hes, entries_in_app. done.
  - assert (Hsml : small (entries_of lf')).
    { unfold small in Hsm |- *. rewrite <- Hes in Hsm. apply Forall_app in Hsm as [_ Hsm]. by apply Forall_app in Hsm as [Hsm _]. }
    assert (Hup : node_size (leaf_node (c_parent c) left lf') <= btreePageCapacity + max_entry).
    { rewrite leaf_size in Hnsz |- * by done. rewrite Hen. pose proof (add_tid_total k tid (entries_of lf)) as Ht.
      assert (Hnew : entry_size (k, [tid]) <= max_entry) by (unfold entry_size, max_entry, max_key, TIDSize in *; cbn; lia). lia. }
    apply (splitLeaf_run idx N P1 c lf lf' left); try done; try apply HT.
    intros P' idx' N' H' t' new Hgr Hst' Hlv Hhalf _. apply (standing_inserted idx idx' N' P' t'); [done|done| | |].
    + rewrite Hlv. eapply (linked_replace _ lf); [done|exact Hlk'|]. split; [done|]. split; [|apply Hlkr]. cbn. rewrite Hright.
      destruct Hlkr as [_ ->]. by destruct (c_right c).
    + rewrite Hlv. by apply Hhead.
    + rewrite Hlv, <- Hes, entries_in_app. change (entries_in (?a :: ?b :: ?l)) with (entries_of a ++ entries_of b ++ entries_in l).
      by rewrite (app_assoc (entries_of _)), Hhalf.
Qed.
End insert.
End InsertProofs.
