(* ===== verification/BTreeSpec.v ===== *)
(** * BTreeSpec: what the BTree index promises

    The theorems about the calls of [BTreeIndex], for any replacer and any disk
    that keeps its laws: opening an index, inserting, searching for a key and
    for an interval; and runs on a concrete disk, one of which shows what a
    restart does after pages were allocated without a new root. *)

From S2P Require Import Prelude GoRuntime Utf8 Ast HeapPage Replacer PageFile BufferPool PageStore CatalogModel Semantic Eval CatalogManager Storage IndexPage BTreeIndex BTreeNode BTreeTree BTreeSearch BTreeSplit BTreeProofs BTreeInsert.
#[local] Open Scope Z_scope.

Module BTreeSpec.
Import HeapBufferPoolManager IndexPage IndexSample DiskBTreeIndex Predicates NodeSpec TreeSpec SearchSpec SplitSpec BTreeProofs InsertProofs.

Section theorems.
Context {R D : Type} `{RR : Replacer R, RL : !ReplacerLaws R, DM : PageFileManager D, DL : !PageFileLaws D}.
Context `{FT : !FileStat D, FL : !FileStatLaws D}.
Context (root0 : string) (root_nonempty : root0 <> ""%string).
Implicit Types (P : Pool R D) (idx : t) (E : PageKey -> Prop) (A : PageKey -> option (list byte)).

Notation store_but := (PageStore.store_but root0).
Notation also := PageStore.also.

(** The size of the file of the index. *)
Definition file_bytes P idx : Z := default 0 (file_size (disk P) (Filepath.Join (DiskBTreeIndex.root idx) (fileID idx))).

(** Opening made an empty index in an empty file ... *)
Definition made E A P idx (s : Pool R D * t) : Prop :=
  file_bytes P idx = 0 /\ exists E' A', store_but E' A' s.1 /\ s.2 = with_meta initial_meta idx /\ holds E' A' s.2 [] /\
    (forall k, E' k -> E k \/ FileID k = fileID idx) /\ elsewhere (fileID idx) A A'.

(** ... or it has loaded the meta data of the index in the store; only the
    number of the next page may be an older one. *)
Definition opened E A idx (s : Pool R D * t) : Prop :=
  store_but E A s.1 /\ exists m, s.2 = with_meta m idx /\
    (~ E (key idx 0) -> exists b, A (key idx 0) = Some b /\ read_meta b = Ok m) /\
    forall es m', holds E A (with_meta m' idx) es -> rootPageID m = rootPageID m' /\ height m = height m' /\
      leftmostLeafID m = leftmostLeafID m' /\ nextPageID m <= nextPageID m'.

Lemma decode_meta_safe b : valid_buf b -> read_meta b <> Panic.
Proof.
  intros Hv. assert (Hlen : Z.of_nat (length b) = 8192) by (by destruct Hv). unfold read_meta, btreeMetaMagicOff, btreeMetaVersionOff, btreeMetaRootOff,
    btreeMetaHeightOff, btreeMetaLeftmostLeafOff, btreeMetaNextPageIDOff, btreeHeapHeaderSize.
  rewrite !getI32_field by lia. cbn [obind]. by repeat case_match.
Qed.

Lemma loadMeta_opened E A P idx :
  store_but E A P -> Filepath.simple_name (fileID idx) -> triple loadMeta (P, idx) (fun r s => r = Ok tt -> opened E A idx s).
Proof.
  intros Hst Hf. unfold loadMeta. apply triple_bind. unfold page. apply triple_self, triple_pool.
  eapply triple_mono; [apply (fetch_spec root0 root_nonempty E A P (key idx 0)); [done|]|].
  { split; [done|]. change (0 <= 0 < 2 ^ 31). lia. }
  intros r P1 _ (Hst1 & _ & Hslot & _). destruct r as [pg|e|]; [|done..]. destruct (Hslot pg eq_refl) as (ref & b & Hin & HA).
  apply triple_bind, triple_pool. eapply BufferPoolSpec.triple_run; [by eapply PageStore.Bytes_run, Hin|].
  assert (Hv : valid_buf b) by apply Hin. pose proof (decode_meta_safe b Hv) as Hnp.
  destruct (read_meta b) as [m0|e|] eqn:Er; [|done..]. rewrite slift_ok. apply triple_modify. cbn [fst snd]. intros _.
  split; [done|]. exists m0. split; [done|]. split; [by exists b; split; [apply HA|]|].
  intros es m' (N & H & t & HT & _). destruct (ti_meta _ _ _ _ _ HT) as (HE & b' & n & HA' & Hn & Hb').
  change (key (with_meta m' idx) 0) with (key idx 0) in *. rewrite (HA HE) in HA'. injection HA' as <-. rewrite Er in Hb'. by injection Hb' as ->.
Qed.

Lemma initializeNew_made E A P idx (Q : outcome unit -> Pool R D * t -> Prop) :
  store_but E A P -> Filepath.simple_name (fileID idx) ->
  (forall P' E' A', store_but E' A' P' -> holds E' A' (with_meta initial_meta idx) [] ->
     (forall k, E' k -> E k \/ FileID k = fileID idx) -> elsewhere (fileID idx) A A' -> Q (Ok tt) (P', with_meta initial_meta idx)) ->
  (forall e s, Q (Err e) s) -> triple initializeNew (P, idx) Q.
Proof.
  intros Hst Hf Hk He. unfold initializeNew.
  apply (create_page root0 root_nonempty key E A P idx 0); [done|split; [done|by vm_compute]|done| |done]. intros P1 Hst1.
  apply (create_page root0 root_nonempty key (also (key idx 0) E) A P1 idx 1); [done|split; [done|by vm_compute]|done| |done]. intros P2 Hst2.
  apply triple_bind, triple_modify. cbn beta iota. cbn [fst snd]. set (idx1 := with_meta initial_meta idx).
  set (E2 := also (key idx 1) (also (key idx 0) E)) in *.
  assert (HN : pages E2 A idx1 ∅) by (split; [done|by cbn|intros id n Hn; by rewrite lookup_empty in Hn]).
  assert (Hgood : good_node (type_name idx1) initial_leaf) by (split; [|by vm_compute]; split; cbn; [by vm_compute|done|done]).
  apply (writeNode_run root0 root_nonempty E2 A P2 idx1 ∅ initial_leaf); [done|done|done|by cbn| |done].
  intros P3 E3 A3 Hst3 HN3 HE3 Hel3 _. set (N := <[_ := _]> ∅) in HN3.
  apply (writeMeta_run root0 root_nonempty E3 A3 P3 idx1 N); [done|done|by vm_compute| |done].
  intros P4 E4 A4 Hst4 HN4 Hm4 HE4 Hel4. apply (Hk P4 E4 A4 Hst4).
  - exists N, 0%nat, {| l_id := 1; l_right := -1; l_keys := []; l_values := [] |}. split; [|done].
    split; try done; [|by apply NoDup_singleton].
    exists (-1). split; [|done]. unfold N. apply lookup_insert_eq.
  - intros k Hk'. destruct (HE3 _ (HE4 _ Hk')) as [->|[->|?]]; [by right|by right|by left].
  - by eapply elsewhere_trans.
Qed.

Lemma tree_initOrLoad_run E A P idx :
  store_but E A P -> Filepath.simple_name (fileID idx) ->
  triple initOrLoad (P, idx) (fun r s => r = Ok tt -> made E A P idx s \/ opened E A idx s).
Proof.
  intros Hst Hf. unfold initOrLoad. apply triple_self, triple_bind, triple_pool.
  eapply triple_mono; [by apply (mkdir_spec root0 E A P)|]. intros r P1 _ (Hst1 & Hz1). destruct r as [[]|e|]; [|done..].
  apply triple_bind. apply triple_catch, triple_pool.
  eapply triple_mono; [by apply (stat_spec root0 E A P1)|]. intros r P2 _ (Hst2 & Hz2 & Hr).
  assert (Hload : triple loadMeta (P2, idx) (fun r s => r = Ok tt -> made E A P idx s \/ opened E A idx s)).
  { eapply triple_mono; [by apply (loadMeta_opened E A)|]. intros r' s _ Hm Hok. right. by apply Hm. }
  assert (Hinit : file_bytes P idx = 0 ->
    triple initializeNew (P2, idx) (fun r s => r = Ok tt -> made E A P idx s \/ opened E A idx s)).
  { intros Hsz. apply (initializeNew_made E A P2 idx _ Hst2 Hf); [|done].
    intros P' E' A' Hst' Hh HE' Hel _. left. split; [done|]. exists E', A'. by split_and!. }
  destruct r as [[n|]|e|]; [|by apply Hinit; unfold file_bytes; rewrite <- Hz1, <- (Hr _ eq_refl)|done|done].
  destruct n; [apply Hinit; unfold file_bytes; by rewrite <- Hz1, <- (Hr _ eq_refl)|exact Hload..].
Qed.

(** Opening a BTree index does not panic, and when it succeeds either the
    file was empty and there is now an empty index in it, or the store is as it
    was and the meta data is that of page 0: if the store holds an index in
    this file, its root, height and first leaf are those of this index, and the
    number of the next page is at most the one it had. *)
Theorem BTree_open E A P idx :
  store_but E A P -> Filepath.simple_name (fileID idx) ->
  triple initOrLoad (P, idx) (fun r s => r = Ok tt -> made E A P idx s \/ opened E A idx s).
Proof. by apply tree_initOrLoad_run. Qed.

(** C23: an insertion adds its TID at the end of the TIDs of its key, in the
    place of the key in the order of the keys, and changes nothing else, however
    many leaves and inner nodes are split: when [Insert] succeeds, the store
    holds the index with the new entries, page 0 has its root, height and first
    leaf, and the pages of other files are as they were.  This is for keys of at
    most [max_key] (210) bytes and entries (a key with its TIDs) of at most
    [max_entry] (311) bytes, so that the halves of a node fit on a page (for
    INT64 keys: at most 49 TIDs under one key), and for page numbers below 2^31.
    Under these conditions [Insert] panics only when a node on the way down
    could not be read; beyond them it can panic ([BTree_long_keys_panic]).  The
    fuel only has to be as large as the number of pages. *)
Theorem BTree_insert fuel E A P idx es k tid :
  store_but E A P -> holds E A idx es -> key_ok (type_name idx) k -> key_size k <= max_key -> tid_ok tid ->
  small (add_tid k tid es) -> nextPageID (meta idx) + height (meta idx) + 1 < 2 ^ 31 -> enough fuel idx ->
  (exists s, Insert fuel k tid (P, idx) = (Panic, s) /\ read_failed idx P) \/
  triple (Insert fuel k tid) (P, idx) (fun r s => r = Ok tt -> inserted root0 E A idx (add_tid k tid es) s).
Proof. intros. by apply tree_Insert_run. Qed.

(** C25: a search finds exactly the TIDs of its key, in the order of their
    insertion, and nothing for a key that is not there: [Search] panics only
    when a node on its way could not be read, never fails, changes neither the
    store nor the index. *)
Theorem BTree_search fuel E A P idx es k :
  store_but E A P -> holds E A idx es -> key_kind (type_name idx) k -> enough fuel idx ->
  (exists s, Search fuel k (P, idx) = (Panic, s) /\ read_failed idx P) \/
  exists P', Search fuel k (P, idx) = (Ok (find_tids k es), (P', idx)) /\ store_but E A P'.
Proof. intros. by apply tree_Search_run. Qed.

(** C24: a range search returns the TIDs of all keys in the interval, in the
    order of the keys, for closed, half-open and open bounds: [RangeSearch]
    panics only when a node on its way down could not be read, fails only when
    the disk may fail, and changes neither the store nor the index; its loop
    along the leaves ends. *)
Theorem BTree_range fuel E A P idx es from fi to ti :
  store_but E A P -> holds E A idx es -> bound_key idx from -> bound_key idx to -> enough fuel idx ->
  (exists s, RangeSearch fuel from fi to ti (P, idx) = (Panic, s) /\ read_failed idx P) \/
  exists r P', RangeSearch fuel from fi to ti (P, idx) = (r, (P', idx)) /\ r <> Panic /\ store_but E A P' /\
    match r with Ok tids => tids = tids_between from fi to ti es | _ => ~ reliable end.
Proof. intros. by apply RangeSearch_run. Qed.
End theorems.

(** ** Runs on a disk *)
Definition a_def : IndexDefinition.t := {|
  IndexDefinition.oid := 1; IndexDefinition.name := "users_id"; IndexDefinition.tableOid := 1; IndexDefinition.columnOid := 1;
  IndexDefinition.keyTypeOid := 1; IndexDefinition.indexType := IndexTypeBTree; IndexDefinition.fileNode := "1.idx";
  IndexDefinition.metaPageId := 0; IndexDefinition.rootPageId := 0 |}.
Definition an_index (tn : string) : t := {|
  DiskBTreeIndex.root := "data"; DiskBTreeIndex.def := a_def; fileID := "1.idx";
  keyType := {| TypeDefinition.oid := 1; TypeDefinition.name := tn; TypeDefinition.byteLength := 8 |}; meta := zero_meta |}.

Definition a_start : Pool LRUReplacer.t FS * t := (a_pool, an_index "INT64").
Definition an_open := initOrLoad a_start.
Definition a_key : any := AInt64 7.
Definition a_tid : TID := NewTID 3 1.
Definition one_inserted := Insert 4 a_key a_tid an_open.2.

Lemma tree_name : Filepath.simple_name (fileID (an_index "INT64")).
Proof. apply (bool_decide_unpack _). vm_compute. exact I. Qed.

Lemma tree_open_ok : an_open.1 = Ok tt /\ an_open.2.2 = with_meta initial_meta (an_index "INT64").
Proof. split; vm_compute; reflexivity. Qed.

(** What is on page 0 of an empty disk is not an index. *)
Lemma no_index m : ~ (exists b, no_pages (key (an_index "INT64") 0) = Some b /\ read_meta b = Ok m).
Proof. intros (b & Hb & _). vm_compute in Hb. discriminate Hb. Qed.

Lemma tree_open_holds : exists E A, PageStore.store_but "data" E A an_open.2.1 /\ holds E A an_open.2.2 [].
Proof.
  destruct (tree_initOrLoad_run (R:=LRUReplacer.t) (D:=FS) "data" ltac:(discriminate) BufferPoolSpec.no_key no_pages a_pool
    (an_index "INT64") a_store tree_name) as [_ Hok].
  destruct (Hok (proj1 tree_open_ok)) as [(_ & E & A & Hst & _ & Hh & _)|(_ & m & _ & Hb & _)].
  - exists E, A. split; [exact Hst|exact Hh].
  - destruct (no_index m (Hb ltac:(intros []))).
Qed.

(** The conditions of the theorems, at the index [i] that was opened. *)
Lemma tree_small_index i : i = with_meta initial_meta (an_index "INT64") ->
  key_ok (type_name i) a_key /\ key_size a_key <= max_key /\ tid_ok a_tid /\ small (add_tid a_key a_tid []) /\
  nextPageID (meta i) + height (meta i) + 1 < 2 ^ 31 /\ enough 4 i.
Proof.
  intros ->. split; [split; [reflexivity|split; vm_compute; congruence]|]. split; [vm_compute; congruence|].
  split; [split; split; vm_compute; congruence|]. split; [constructor; [vm_compute; congruence|constructor]|].
  split; [vm_compute; reflexivity|]. vm_compute. congruence.
Qed.

Lemma tree_inserted_ok : one_inserted.1 = Ok tt /\ one_inserted.2.2 = with_meta initial_meta (an_index "INT64").
Proof. split; vm_compute; reflexivity. Qed.

Lemma tree_inserted_holds : exists E A, PageStore.store_but "data" E A one_inserted.2.1 /\ holds E A one_inserted.2.2 [(a_key, [a_tid])].
Proof.
  destruct tree_open_holds as (E & A & Hst & Hh). destruct (tree_small_index _ (proj2 tree_open_ok)) as (H1 & H2 & H3 & H4 & H5 & H6).
  pose proof (proj1 tree_inserted_ok) as Hr. unfold one_inserted in *. destruct an_open.2 as [P0 i0]. cbn [fst snd] in *.
  destruct (tree_Insert_run (R:=LRUReplacer.t) (D:=FS) "data" ltac:(discriminate) E A 4 P0 i0 [] a_key a_tid Hst Hh H1 H2 H3 H4 H5 H6)
    as [(s & Hp & _)|[_ Hok]].
  - rewrite Hp in Hr. discriminate Hr.
  - destruct (Hok Hr) as (E' & A' & Hst' & Hh' & _). exists E', A'. split; [exact Hst'|exact Hh'].
Qed.

Lemma BTree_open_witness :
  (initOrLoad a_start).1 = Ok tt /\ meta (initOrLoad a_start).2.2 = initial_meta /\ exists E A, holds E A (initOrLoad a_start).2.2 [].
Proof.
  split; [exact (proj1 tree_open_ok)|]. split; [exact (f_equal meta (proj2 tree_open_ok))|].
  destruct (BTree_open (R:=LRUReplacer.t) (D:=FS) "data" ltac:(discriminate) BufferPoolSpec.no_key no_pages a_pool
    (an_index "INT64") a_store tree_name) as [_ Hok].
  destruct (Hok (proj1 tree_open_ok)) as [(_ & E & A & _ & _ & Hh & _)|(_ & m & _ & Hb & _)].
  - exists E, A. exact Hh.
  - destruct (no_index m (Hb ltac:(intros []))).
Defined.

Lemma BTree_insert_witness :
  (Insert 4 a_key a_tid an_open.2).1 = Ok tt /\ exists E A, holds E A (Insert 4 a_key a_tid an_open.2).2.2 [(a_key, [a_tid])].
Proof.
  destruct tree_open_holds as (E & A & Hst & Hh). destruct (tree_small_index _ (proj2 tree_open_ok)) as (H1 & H2 & H3 & H4 & H5 & H6).
  pose proof (proj1 tree_inserted_ok) as Hr. unfold one_inserted in Hr. split; [exact Hr|].
  destruct an_open.2 as [P0 i0]. cbn [fst snd] in *.
  destruct (BTree_insert (R:=LRUReplacer.t) (D:=FS) "data" ltac:(discriminate) 4 E A P0 i0 [] a_key a_tid Hst Hh H1 H2 H3 H4 H5 H6)
    as [(s & Hp & _)|[_ Hok]].
  - rewrite Hp in Hr. discriminate Hr.
  - destruct (Hok Hr) as (E' & A' & _ & Hh' & _). exists E', A'. exact Hh'.
Defined.

Lemma BTree_search_witness :
  (Search 4 a_key one_inserted.2).1 = Ok [a_tid] /\ exists E A, holds E A one_inserted.2.2 [(a_key, [a_tid])] /\
    (Search 4 a_key one_inserted.2).1 = Ok (find_tids a_key [(a_key, [a_tid])]).
Proof.
  assert (Hs : (Search 4 a_key one_inserted.2).1 = Ok [a_tid]) by (vm_compute; reflexivity). split; [exact Hs|].
  destruct tree_inserted_holds as (E & A & Hst & Hh). exists E, A. split; [exact Hh|].
  destruct (tree_small_index _ (proj2 tree_inserted_ok)) as (H1 & _ & _ & _ & _ & H6). destruct one_inserted.2 as [P0 i0]. cbn [fst snd] in *.
  destruct (BTree_search (R:=LRUReplacer.t) (D:=FS) "data" ltac:(discriminate) 4 E A P0 i0 _ a_key Hst Hh (key_ok_kind _ _ H1) H6) as [(s & Hp & _)|(P' & Hp & _)].
  - rewrite Hp in Hs. discriminate Hs.
  - rewrite Hp. reflexivity.
Defined.

Lemma BTree_range_witness :
  (RangeSearch 4 (AInt64 5) true ANil false one_inserted.2).1 = Ok [a_tid] /\
  [a_tid] = tids_between (AInt64 5) true ANil false [(a_key, [a_tid])].
Proof.
  assert (Hs : (RangeSearch 4 (AInt64 5) true ANil false one_inserted.2).1 = Ok [a_tid]) by (vm_compute; reflexivity). split; [exact Hs|].
  destruct tree_inserted_holds as (E & A & Hst & Hh). pose proof (proj2 tree_inserted_ok) as Hi.
  destruct (tree_small_index _ Hi) as (_ & _ & _ & _ & _ & H6). destruct one_inserted.2 as [P0 i0]. cbn [fst snd] in *.
  assert (Hf : bound_key i0 (AInt64 5)) by (right; rewrite Hi; reflexivity).
  destruct (BTree_range (R:=LRUReplacer.t) (D:=FS) "data" ltac:(discriminate) 4 E A P0 i0 _ (AInt64 5) true ANil false Hst Hh Hf
    (or_introl eq_refl) H6) as [(s & Hp & _)|(r & P' & Hp & _ & _ & Hr)].
  - rewrite Hp in Hs. discriminate Hs.
  - rewrite Hp in Hs. cbn [fst] in Hs. rewrite Hs in Hr. exact Hr.
Defined.

(** *** Long keys, and a restart *)
Fixpoint filler (n : nat) : string := match n with O => "" | S n => String "a" (filler n) end.

(** Keys of [n + 1] bytes. *)
Definition long_key (n : nat) (c : Ascii.ascii) : any := AString (String c (filler n)).

Fixpoint insert_all (n : nat) (cs : string) : ST (Pool LRUReplacer.t FS * t) unit :=
  match cs with
  | EmptyString => sret tt
  | String c cs => Insert 9 (long_key n c) a_tid ;;; insert_all n cs
  end.

(** All pages are flushed, and a new pool opens the index on the same disk. *)
Definition restarted (s : Pool LRUReplacer.t FS * t) : outcome unit * (Pool LRUReplacer.t FS * t) :=
  let flushed := (FlushAllPages (map_to_list (pageTable s.1)) s.1).2 in
  initOrLoad ({| poolSize := 100; replacer := LRUReplacer.New; HeapBufferPoolManager.root := "data"; pageTable := ∅; slots := ∅;
                 mem := ∅; next := 0; disk := disk flushed |}, an_index "VARCHAR").

Definition before_restart := insert_all 2300 "mnopqr" (initOrLoad (a_pool, an_index "VARCHAR")).2.
Definition after_restart := restarted before_restart.2.
Definition two_more := insert_all 2300 "ab" after_restart.2.

(** A restart can make the index lose keys.  The number of the next page is
    written to page 0 only with a new root.  Six keys split two leaves, and all
    six are found; after a restart two more insertions, which succeed, split a
    leaf into a page number that is already in use, and two of the first keys
    are gone. *)
Theorem BTree_restart_reuses_page :
  before_restart.1 = Ok tt /\ (Search 9 (long_key 2300 "q") before_restart.2).1 = Ok [a_tid] /\
  (Search 9 (long_key 2300 "r") before_restart.2).1 = Ok [a_tid] /\
  after_restart.1 = Ok tt /\ nextPageID (meta before_restart.2.2) = 5 /\ nextPageID (meta after_restart.2.2) = 4 /\
  (Search 9 (long_key 2300 "q") after_restart.2).1 = Ok [a_tid] /\
  two_more.1 = Ok tt /\
  (Search 9 (long_key 2300 "q") two_more.2).1 = Ok [] /\ (Search 9 (long_key 2300 "r") two_more.2).1 = Ok [].
Proof. vm_compute. repeat split. Qed.

Definition two_keys := Insert 9 (long_key 6000 "b") a_tid (Insert 9 (long_key 2000 "a") a_tid (initOrLoad (a_pool, an_index "VARCHAR")).2).2.

(** The bounds on the sizes of entries are needed: a leaf is split by the
    number of its keys, not by their sizes, so that with long keys a half does
    not fit on its page and [Insert] panics. *)
Theorem BTree_long_keys_panic :
  two_keys.1 = Ok tt /\ (Insert 9 (long_key 6000 "c") a_tid two_keys.2).1 = Panic.
Proof. vm_compute. split; reflexivity. Qed.
End BTreeSpec.
