(* ===== verification/Protocol.v ===== *)
(** * Protocol: requests and responses on the wire

    Models the package [protocol]: [request.go], [response.go], [error.go] and
    [codec.go].  A connection is the bytes that the peer sends, how they end,
    the bytes written so far, and the faults of the writes to come; buffering
    by [bufio] is not visible at this level, except that a failed write may
    have sent a part of the line.

    [json.Unmarshal] into a struct ([decode_...]) goes through the members in
    their order: the field is the one with the exact name or else the one whose
    name is equal when case is folded; unknown names are skipped, null leaves a
    field as it is, and a value of another type is an error that does not stop
    the decoding. *)

From S2P Require Import Prelude GoRuntime Utf8 Eval Json.
#[local] Open Scope Z_scope.

Module protocol.
Import Json.

Record ErrorPos : Type := { Offset : Z; Line : Z; Column : Z }.
Record Error : Type := { Code : string; Message : string; Pos : option ErrorPos }.

Definition NewError (code message : string) : Error := {| Code := code; Message := message; Pos := None |}.
Definition NewErrorWithPos (code message : string) (offset line column : Z) : Error :=
  {| Code := code; Message := message; Pos := Some {| Offset := offset; Line := line; Column := column |} |}.

Record Request : Type := { req_Type : string; req_RequestID : string; req_SQL : string; req_Trace : bool }.

Definition NewRequest (requestID sql : string) (trace : bool) : Request :=
  {| req_Type := "query"; req_RequestID := requestID; req_SQL := sql; req_Trace := trace |}.

(** The cells of a row are of a type [C]: [any] in the server, decoded values
    in the client. *)
Record Response {C : Type} : Type := {
  resp_Type : string; resp_RequestID : string; resp_Status : string; resp_Columns : list string;
  resp_Rows : list (list C); resp_Affected : Z; resp_Explain : string; resp_Error : option Error
}.
Arguments Response : clear implicits.

Definition NewOkResponse (requestID : string) (columns : list string) (rows : list row) (affected : Z)
    (explain : string) : Response any :=
  {| resp_Type := "response"; resp_RequestID := requestID; resp_Status := "ok"; resp_Columns := columns; resp_Rows := rows;
     resp_Affected := affected; resp_Explain := explain; resp_Error := None |}.

Definition NewErrorResponse (requestID : string) (err : Error) : Response any :=
  {| resp_Type := "response"; resp_RequestID := requestID; resp_Status := "error"; resp_Columns := []; resp_Rows := [];
     resp_Affected := 0; resp_Explain := ""; resp_Error := Some err |}.

(** ** Writing *)
Definition json_int (z : Z) : json := JNumber (bytes_of (pretty z)).

Definition json_any (v : any) : json :=
  match v with ANil => JNull | AInt64 n => json_int n | AString s => JString s | ABool b => JBool b end.

(** A field with [omitempty]. *)
Definition omitempty (empty : bool) (name : string) (v : json) : list (string * json) :=
  if empty then [] else [(name, v)].

Definition is_empty {A} (l : list A) : bool := match l with [] => true | _ => false end.

Definition json_pos (p : ErrorPos) : json :=
  JObject (omitempty (Offset p =? 0) "offset" (json_int (Offset p)) ++ omitempty (Line p =? 0) "line" (json_int (Line p)) ++
           omitempty (Column p =? 0) "column" (json_int (Column p))).

Definition json_error (e : Error) : json :=
  JObject ([("code", JString (Code e)); ("message", JString (Message e))] ++
           match Pos e with Some p => [("pos", json_pos p)] | None => [] end).

Definition json_request (r : Request) : json :=
  JObject [("type", JString (req_Type r)); ("requestId", JString (req_RequestID r)); ("sql", JString (req_SQL r));
           ("trace", JBool (req_Trace r))].

Definition json_response (r : Response any) : json :=
  JObject ([("type", JString (resp_Type r)); ("requestId", JString (resp_RequestID r)); ("status", JString (resp_Status r))] ++
    omitempty (is_empty (resp_Columns r)) "columns" (JArray (map JString (resp_Columns r))) ++
    omitempty (is_empty (resp_Rows r)) "rows" (JArray (map (fun row => JArray (map json_any row)) (resp_Rows r))) ++
    omitempty (resp_Affected r =? 0) "affected" (json_int (resp_Affected r)) ++
    omitempty (bool_decide (resp_Explain r = "")) "explain" (JString (resp_Explain r)) ++
    match resp_Error r with Some e => [("error", json_error e)] | None => [] end).

(** [json.Marshal], which does not fail on these types. *)
Definition MarshalRequest (r : Request) : list byte := print (json_request r).
Definition MarshalResponse (r : Response any) : list byte := print (json_response r).

(** ** Reading into structs

    A decoder takes what the variable holds and gives what it holds after, and
    whether a type was wrong. *)
Definition decoder (A : Type) : Type := A -> json -> A * bool.

Definition decode_string : decoder string := fun cur v =>
  match v with JString s => (s, false) | JNull => (cur, false) | _ => (cur, true) end.
Definition decode_bool : decoder bool := fun cur v =>
  match v with JBool b => (b, false) | JNull => (cur, false) | _ => (cur, true) end.

(** The integer that a number stands for, when it is written as one. *)
Definition int_literal (t : list byte) : option Z :=
  let '(neg, ds) := match t with c :: ds => if u8 c =? 45 then (true, ds) else (false, t) | [] => (false, t) end in
  match ds with
  | [] => None
  | _ => if forallb is_digit ds then Some (if neg : bool then - digits_value ds else digits_value ds) else None
  end.

Definition decode_int : decoder Z := fun cur v =>
  match v with
  | JNumber t => match int_literal t with
                 | Some z => if decide (in_sint 64 z) then (z, false) else (cur, true)
                 | None => (cur, true)
                 end
  | JNull => (cur, false)
  | _ => (cur, true)
  end.

(** A slice: element [i] is decoded over the one that is there. *)
Fixpoint decode_elements {A} (dec : decoder A) (zero : A) (cur : list A) (vs : list json) : list A * bool :=
  match vs with
  | [] => ([], false)
  | v :: vs =>
    let (a, e1) := dec (hd zero cur) v in
    let (rest, e2) := decode_elements dec zero (tl cur) vs in
    (a :: rest, e1 || e2)
  end.
Definition decode_slice {A} (dec : decoder A) (zero : A) : decoder (list A) := fun cur v =>
  match v with JArray vs => decode_elements dec zero cur vs | JNull => ([], false) | _ => (cur, true) end.

(** A pointer to a struct. *)
Definition decode_pointer {A} (dec : decoder A) (zero : A) : decoder (option A) := fun cur v =>
  match v with JNull => (None, false) | _ => let (a, e) := dec (default zero cur) v in (Some a, e) end.

(** [foldName]: names are compared in upper case; two letters outside ASCII
    fold into it. *)
Definition fold_rune (r : Z) : Z :=
  if (97 <=? r) && (r <=? 122) then r - 32 else if r =? 0x17F then 83 else if r =? 0x212A then 75 else r.
Definition fold_name (s : string) : list Z := fold_rune <$> runes_of s.

Definition find_field (names : list string) (key : string) : option string :=
  if decide (key ∈ names) then Some key
  else head (filter (fun n => fold_name n = fold_name key) names).

(** The members of an object, [set name] being the decoder of that field. *)
Fixpoint decode_members {A} (names : list string) (set : string -> decoder A) (cur : A) (ms : list (string * json)) : A * bool :=
  match ms with
  | [] => (cur, false)
  | (key, v) :: ms =>
    match find_field names key with
    | Some n => let (a, e1) := set n cur v in let (a, e2) := decode_members names set a ms in (a, e1 || e2)
    | None => decode_members names set cur ms
    end
  end.
Definition decode_struct {A} (names : list string) (set : string -> decoder A) : decoder A := fun cur v =>
  match v with JObject ms => decode_members names set cur ms | JNull => (cur, false) | _ => (cur, true) end.

Definition on_field {A B} (dec : decoder B) (get : A -> B) (put : B -> A -> A) : decoder A := fun cur v =>
  let (b, e) := dec (get cur) v in (put b cur, e).

Definition decode_request : decoder Request :=
  decode_struct ["type"; "requestId"; "sql"; "trace"] (fun n =>
    if decide (n = "type") then on_field decode_string req_Type (fun s r =>
      {| req_Type := s; req_RequestID := req_RequestID r; req_SQL := req_SQL r; req_Trace := req_Trace r |})
    else if decide (n = "requestId") then on_field decode_string req_RequestID (fun s r =>
      {| req_Type := req_Type r; req_RequestID := s; req_SQL := req_SQL r; req_Trace := req_Trace r |})
    else if decide (n = "sql") then on_field decode_string req_SQL (fun s r =>
      {| req_Type := req_Type r; req_RequestID := req_RequestID r; req_SQL := s; req_Trace := req_Trace r |})
    else on_field decode_bool req_Trace (fun b r =>
      {| req_Type := req_Type r; req_RequestID := req_RequestID r; req_SQL := req_SQL r; req_Trace := b |})).

Inductive net_error : Type := EOF | SyntaxError | UnmarshalTypeError | ConnError.

(** [json.Unmarshal] into a zero value. *)
Definition Unmarshal {A} (dec : decoder A) (zero : A) (data : list byte) : net_error + A :=
  match parse data with
  | None => inl SyntaxError
  | Some v => let (a, e) := dec zero v in if e : bool then inl UnmarshalTypeError else inr a
  end.

Definition zero_request : Request := {| req_Type := ""; req_RequestID := ""; req_SQL := ""; req_Trace := false |}.
Definition UnmarshalRequest : list byte -> net_error + Request := Unmarshal decode_request zero_request.

(** The client's side: a cell is the value it was decoded from; numbers that
    [float64] cannot hold are errors. *)
Definition float_limit : Z := 2 ^ 1024 - 2 ^ 970.

(** A number as [m * 10 ^ e]. *)
Definition number_value (t : list byte) : Z * Z :=
  let '(neg, t) := match t with c :: t' => if u8 c =? 45 then (true, t') else (false, t) | [] => (false, t) end in
  let (int, t) := span_digits t in
  let '(frac, t) := match t with c :: t' => if u8 c =? 46 then span_digits t' else ([], t) | [] => ([], t) end in
  let exp := match t with
    | _ :: t' => let '(eneg, ds) := match t' with c :: t'' => if u8 c =? 45 then (true, t'') else if u8 c =? 43 then (false, t'') else (false, t')
                                    | [] => (false, t') end in
                 if eneg : bool then - digits_value ds else digits_value ds
    | [] => 0
    end in
  let m := digits_value (int ++ frac) in
  (if neg : bool then - m else m, exp - Z.of_nat (length frac)).

Definition float_overflows (t : list byte) : bool :=
  let (m, e) := number_value t in
  if 0 <=? e then float_limit <=? Z.abs m * 10 ^ e else float_limit * 10 ^ (- e) <=? Z.abs m.

Fixpoint any_overflows (v : json) : bool :=
  match v with
  | JNumber t => float_overflows t
  | JArray vs => existsb any_overflows vs
  | JObject ms => existsb (fun m : string * json => any_overflows m.2) ms
  | _ => false
  end.

Definition decode_any : decoder json := fun _ v => (v, any_overflows v).

Definition zero_pos : ErrorPos := {| Offset := 0; Line := 0; Column := 0 |}.
Definition zero_error : Error := {| Code := ""; Message := ""; Pos := None |}.
Definition zero_response : Response json :=
  {| resp_Type := ""; resp_RequestID := ""; resp_Status := ""; resp_Columns := []; resp_Rows := []; resp_Affected := 0;
     resp_Explain := ""; resp_Error := None |}.

Definition pos_field (n : string) : decoder ErrorPos :=
  if decide (n = "offset") then on_field decode_int Offset (fun z p => {| Offset := z; Line := Line p; Column := Column p |})
  else if decide (n = "line") then on_field decode_int Line (fun z p => {| Offset := Offset p; Line := z; Column := Column p |})
  else on_field decode_int Column (fun z p => {| Offset := Offset p; Line := Line p; Column := z |}).
Definition decode_pos : decoder ErrorPos := decode_struct ["offset"; "line"; "column"] pos_field.

Definition error_field (n : string) : decoder Error :=
  if decide (n = "code") then on_field decode_string Code (fun s e => {| Code := s; Message := Message e; Pos := Pos e |})
  else if decide (n = "message") then on_field decode_string Message (fun s e => {| Code := Code e; Message := s; Pos := Pos e |})
  else on_field (decode_pointer decode_pos zero_pos) Pos (fun p e => {| Code := Code e; Message := Message e; Pos := p |}).
Definition decode_error : decoder Error := decode_struct ["code"; "message"; "pos"] error_field.

Definition response_field (n : string) : decoder (Response json) :=
  if decide (n = "type") then on_field decode_string resp_Type (fun s r =>
    {| resp_Type := s; resp_RequestID := resp_RequestID r; resp_Status := resp_Status r; resp_Columns := resp_Columns r;
       resp_Rows := resp_Rows r; resp_Affected := resp_Affected r; resp_Explain := resp_Explain r; resp_Error := resp_Error r |})
  else if decide (n = "requestId") then on_field decode_string resp_RequestID (fun s r =>
    {| resp_Type := resp_Type r; resp_RequestID := s; resp_Status := resp_Status r; resp_Columns := resp_Columns r;
       resp_Rows := resp_Rows r; resp_Affected := resp_Affected r; resp_Explain := resp_Explain r; resp_Error := resp_Error r |})
  else if decide (n = "status") then on_field decode_string resp_Status (fun s r =>
    {| resp_Type := resp_Type r; resp_RequestID := resp_RequestID r; resp_Status := s; resp_Columns := resp_Columns r;
       resp_Rows := resp_Rows r; resp_Affected := resp_Affected r; resp_Explain := resp_Explain r; resp_Error := resp_Error r |})
  else if decide (n = "columns") then on_field (decode_slice decode_string "") resp_Columns (fun cs r =>
    {| resp_Type := resp_Type r; resp_RequestID := resp_RequestID r; resp_Status := resp_Status r; resp_Columns := cs;
       resp_Rows := resp_Rows r; resp_Affected := resp_Affected r; resp_Explain := resp_Explain r; resp_Error := resp_Error r |})
  else if decide (n = "rows") then on_field (decode_slice (decode_slice decode_any JNull) []) resp_Rows (fun rs r =>
    {| resp_Type := resp_Type r; resp_RequestID := resp_RequestID r; resp_Status := resp_Status r; resp_Columns := resp_Columns r;
       resp_Rows := rs; resp_Affected := resp_Affected r; resp_Explain := resp_Explain r; resp_Error := resp_Error r |})
  else if decide (n = "affected") then on_field decode_int resp_Affected (fun z r =>
    {| resp_Type := resp_Type r; resp_RequestID := resp_RequestID r; resp_Status := resp_Status r; resp_Columns := resp_Columns r;
       resp_Rows := resp_Rows r; resp_Affected := z; resp_Explain := resp_Explain r; resp_Error := resp_Error r |})
  else if decide (n = "explain") then on_field decode_string resp_Explain (fun s r =>
    {| resp_Type := resp_Type r; resp_RequestID := resp_RequestID r; resp_Status := resp_Status r; resp_Columns := resp_Columns r;
       resp_Rows := resp_Rows r; resp_Affected := resp_Affected r; resp_Explain := s; resp_Error := resp_Error r |})
  else on_field (decode_pointer decode_error zero_error) resp_Error (fun e r =>
    {| resp_Type := resp_Type r; resp_RequestID := resp_RequestID r; resp_Status := resp_Status r; resp_Columns := resp_Columns r;
       resp_Rows := resp_Rows r; resp_Affected := resp_Affected r; resp_Explain := resp_Explain r; resp_Error := e |}).

Definition decode_response : decoder (Response json) :=
  decode_struct ["type"; "requestId"; "status"; "columns"; "rows"; "affected"; "explain"; "error"] response_field.

Definition UnmarshalResponse : list byte -> net_error + Response json := Unmarshal decode_response zero_response.

(** ** Connections *)
Record conn : Type := {
  input : list byte;
  input_end : net_error;
  output : list byte;
  write_faults : list (option nat)
}.

Definition newline : byte := byte_of 10.

(** [ReadBytes('\n')]: the line with its line break, and the rest; [None] when
    the input ends before. *)
Fixpoint read_line (l : list byte) : option (list byte * list byte) :=
  match l with
  | [] => None
  | c :: l => if eqc newline c then Some ([c], l) else '(line, rest) ← read_line l; Some (c :: line, rest)
  end.

Definition with_input (l : list byte) (c : conn) : conn :=
  {| input := l; input_end := input_end c; output := output c; write_faults := write_faults c |}.

(** A write: the next fault, if it is one, lets only some bytes through. *)
Definition write (data : list byte) (c : conn) : bool * conn :=
  match write_faults c with
  | Some n :: fs => (false, {| input := input c; input_end := input_end c; output := output c ++ take n data; write_faults := fs |})
  | None :: fs => (true, {| input := input c; input_end := input_end c; output := output c ++ data; write_faults := fs |})
  | [] => (true, {| input := input c; input_end := input_end c; output := output c ++ data; write_faults := [] |})
  end.

Definition ReadRequest (c : conn) : (net_error + Request) * conn :=
  match read_line (input c) with
  | None => (inl (input_end c), with_input [] c)
  | Some (line, rest) => (UnmarshalRequest line, with_input rest c)
  end.

(** [true] when there is no error. *)
Definition WriteResponse (resp : Response any) (c : conn) : bool * conn := write (MarshalResponse resp ++ [newline]) c.

(** ** What arrives *)
Definition arrived_request (r : Request) : Request :=
  {| req_Type := sanitize (req_Type r); req_RequestID := sanitize (req_RequestID r); req_SQL := sanitize (req_SQL r);
     req_Trace := req_Trace r |}.

Definition arrived_error (e : Error) : Error := {| Code := sanitize (Code e); Message := sanitize (Message e); Pos := Pos e |}.

Definition arrived_response (r : Response any) : Response json :=
  {| resp_Type := sanitize (resp_Type r); resp_RequestID := sanitize (resp_RequestID r); resp_Status := sanitize (resp_Status r);
     resp_Columns := map sanitize (resp_Columns r); resp_Rows := map (map (fun v => clean (json_any v))) (resp_Rows r);
     resp_Affected := resp_Affected r; resp_Explain := sanitize (resp_Explain r); resp_Error := arrived_error <$> resp_Error r |}.

(** *** Lines *)
Lemma read_line_printable l rest : printable l -> read_line (l ++ newline :: rest) = Some (l ++ [newline], rest).
Proof.
  induction 1 as [|c l Hc _ IH]; [done|]. cbn [app read_line]. unfold eqc at 1.
  rewrite bool_decide_eq_false_2 by (intros ->; by vm_compute in Hc). by rewrite IH.
Qed.

Lemma request_printable r : printable (MarshalRequest r).
Proof. apply print_one_line. by cbn. Qed.

Lemma json_any_numbers v : numbers_ok (json_any v).
Proof. destruct v; cbn; try done. by eexists. Qed.

Lemma fold_and {A} (P : A -> Prop) l : Forall P l -> fold_right (fun x => and (P x)) True l.
Proof. induction 1; by cbn. Qed.

Lemma omitempty_numbers e n v : numbers_ok v -> Forall (fun m : string * json => numbers_ok m.2) (omitempty e n v).
Proof. intros Hv. unfold omitempty. destruct e; by repeat constructor. Qed.

Lemma json_error_numbers e : numbers_ok (json_error e).
Proof.
  destruct e as [c m [p|]]; cbn; [|done]. split; [done|]. split; [done|]. split; [|done]. apply fold_and.
  repeat (apply Forall_app; split); apply omitempty_numbers; by eexists.
Qed.

Lemma json_response_numbers r : numbers_ok (json_response r).
Proof.
  change (fold_right (fun m : string * json => and (numbers_ok m.2)) True
    match json_response r with JObject ms => ms | _ => [] end). cbn [json_response]. apply fold_and.
  repeat (apply Forall_app; split); try apply omitempty_numbers; cbn [numbers_ok]; try done.
  - repeat constructor.
  - apply (fold_and numbers_ok). apply Forall_fmap, Forall_true. done.
  - apply (fold_and numbers_ok). apply Forall_fmap, Forall_true. intros row. cbn. apply (fold_and numbers_ok).
    apply Forall_fmap, Forall_true. apply json_any_numbers.
  - by eexists.
  - destruct (resp_Error r) as [e|]; [|constructor]. constructor; [apply json_error_numbers|constructor].
Qed.

Lemma response_printable r : printable (MarshalResponse r).
Proof. apply print_one_line, json_response_numbers. Qed.

(** *** Structs *)
Lemma find_exact names key : key ∈ names -> find_field names key = Some key.
Proof. intros Hk. unfold find_field. by rewrite decide_True. Qed.

Section members.
Context {A : Type} (names : list string) (set : string -> decoder A).

(** One member with the name of a field. *)
Lemma decode_member cur key v ms a :
  key ∈ names -> set key cur v = (a, false) ->
  decode_members names set cur ((key, v) :: ms) = decode_members names set a ms.
Proof.
  intros Hk Hs. cbn [decode_members]. rewrite find_exact, Hs by done. by destruct (decode_members names set a ms).
Qed.

(** A member that may be left out because the field would stay as it is. *)
Lemma decode_omitempty cur (empty : bool) key v a rest :
  key ∈ names -> set key cur v = (a, false) -> (empty = true -> a = cur) ->
  decode_members names set cur (omitempty empty key v ++ rest) = decode_members names set a rest.
Proof.
  intros Hk Hs He. unfold omitempty. destruct empty; [by rewrite He|]. by apply decode_member.
Qed.
End members.

Lemma deep_enough n : (n <= 10)%nat -> (n <= maxNestingDepth)%nat.
Proof. intros Hn. etransitivity; [exact Hn|]. apply Nat.leb_le. by vm_compute. Qed.

Lemma newline_space : Forall (fun c => is_space c = true) [newline].
Proof. by constructor. Qed.

(** A name among the names of the fields. *)
Ltac named := apply (bool_decide_unpack _); vm_compute; exact I.

(** The decoder of a field. *)
Ltac field := unfold response_field, error_field, pos_field; repeat first [rewrite decide_True by reflexivity|rewrite decide_False by discriminate];
  unfold on_field, decode_string, decode_bool; cbn beta iota.

(** Fields of a response that is written out. *)
Ltac proj_response :=
  cbn [resp_Type resp_RequestID resp_Status resp_Columns resp_Rows resp_Affected resp_Explain resp_Error zero_response].

(** The names of the fields arrive as they are. *)
Ltac plain_names := repeat match goal with
  | |- context [sanitize (String ?c ?s)] =>
    let E := fresh in assert (E : sanitize (String c s) = String c s) by (vm_compute; reflexivity); rewrite E; clear E
  end.

(** A request line is read back by the server; bytes that are not UTF-8 are
    replaced. *)
Lemma request_parsed r : parse (MarshalRequest r ++ [newline]) = Some (clean (json_request r)).
Proof.
  apply parse_print; [|by apply deep_enough, Nat.leb_le|apply newline_space].
  cbn [json_request numbers_ok fold_right snd]. by split_and!.
Qed.

Lemma request_arrives r : UnmarshalRequest (MarshalRequest r ++ [newline]) = inr (arrived_request r).
Proof.
  unfold UnmarshalRequest, Unmarshal. rewrite request_parsed.
  cbn [clean json_request map fst snd]. plain_names. unfold decode_request. cbn [decode_struct].
  do 4 (erewrite decode_member; [|named|field; reflexivity]). done.
Qed.

(** *** Numbers *)
Lemma is_digit_neq c : is_digit c = true -> (u8 c =? 45) = false.
Proof. unfold is_digit. intros [H%Z.leb_le _]%andb_true_iff. apply Z.eqb_neq. lia. Qed.

Lemma int_literal_pretty (z : Z) : int_literal (bytes_of (pretty z)) = Some z.
Proof.
  destruct (pretty_number z) as (sign & ds & -> & Hds & Hs & Hh). unfold int_literal.
  assert (Hne : exists c ds', ds = c :: ds') by (destruct Hh as [->|(c & ds' & -> & _)]; by eexists _, _). destruct Hne as (c & ds' & ->).
  assert (Hall : forallb is_digit (c :: ds') = true) by (apply forallb_forall; intros x Hx; rewrite Forall_forall in Hds; apply Hds; by apply list_elem_of_In).
  apply Forall_cons in Hds as [Hc _]. destruct Hs as [[-> Hv]|[-> Hv]]; cbn [app].
  - rewrite (is_digit_neq c Hc). cbn beta iota. by rewrite Hall, Hv.
  - change (u8 (byte_of 45) =? 45) with true. cbn beta iota. rewrite Hall, Hv. f_equal. lia.
Qed.

Lemma number_value_pretty (z : Z) : number_value (bytes_of (pretty z)) = (z, 0).
Proof.
  destruct (pretty_number z) as (sign & ds & -> & Hds & Hs & Hh). unfold number_value.
  assert (Hne : exists c ds', ds = c :: ds') by (destruct Hh as [->|(c & ds' & -> & _)]; by eexists _, _). destruct Hne as (c & ds' & ->).
  assert (Hspan : span_digits (c :: ds') = (c :: ds', [])) by (rewrite <- (app_nil_r (c :: ds')) at 1; by apply span_digits_app).
  apply Forall_cons in Hds as [Hc _]. destruct Hs as [[-> Hv]|[-> Hv]]; cbn [app].
  - rewrite (is_digit_neq c Hc). cbn beta iota. rewrite Hspan. cbn beta iota. by rewrite app_nil_r, Hv.
  - change (u8 (byte_of 45) =? 45) with true. cbn beta iota. rewrite Hspan. cbn beta iota. rewrite app_nil_r, Hv. f_equal. lia.
Qed.

(** *** Responses *)
Lemma decode_int_pretty cur (z : Z) : in_sint 64 z -> decode_int cur (json_int z) = (z, false).
Proof. intros Hz. unfold decode_int, json_int. rewrite int_literal_pretty. by rewrite decide_True. Qed.

Lemma in_range_float n : in_sint 64 n -> float_overflows (bytes_of (pretty n)) = false.
Proof.
  intros Hn. unfold float_overflows. rewrite number_value_pretty. change (0 <=? 0) with true. cbn iota.
  assert (Hl : 2 ^ 63 < float_limit) by by vm_compute. unfold in_sint in Hn. rewrite Z.pow_0_r, Z.mul_1_r. apply Z.leb_gt.
  change (2 ^ (64 - 1)) with (2 ^ 63) in Hn. lia.
Qed.

(** The values a server puts into a row. *)
Definition cell_ok (v : any) : Prop := match v with AInt64 n => in_sint 64 n | _ => True end.

Lemma cell_arrives v : cell_ok v -> any_overflows (clean (json_any v)) = false.
Proof. destruct v; cbn [json_any clean any_overflows cell_ok]; try done. apply in_range_float. Qed.

Lemma decode_strings cs : decode_slice decode_string "" [] (JArray (map (fun s => JString (sanitize s)) cs)) = (map sanitize cs, false).
Proof. cbn. induction cs as [|c cs IH]; [done|]. cbn. by rewrite IH. Qed.

Lemma decode_cells row : Forall cell_ok row ->
  decode_slice decode_any JNull [] (JArray (map (fun v => clean (json_any v)) row)) = (map (fun v => clean (json_any v)) row, false).
Proof.
  cbn. induction 1 as [|v row Hv _ IH]; [done|]. cbn [map decode_elements tl]. rewrite IH. unfold decode_any. cbn beta iota. by rewrite cell_arrives.
Qed.

Lemma decode_rows rows : Forall (Forall cell_ok) rows ->
  decode_slice (decode_slice decode_any JNull) [] [] (JArray (map (fun row => JArray (map clean (map json_any row))) rows)) =
  (map (map (fun v => clean (json_any v))) rows, false).
Proof.
  cbn. induction 1 as [|row rows Hr _ IH]; [done|]. cbn [map decode_elements hd tl]. rewrite IH, map_map, decode_cells by done. done.
Qed.

Definition pos_ok (p : ErrorPos) : Prop := in_sint 64 (Offset p) /\ in_sint 64 (Line p) /\ in_sint 64 (Column p).

Lemma clean_omitempty e n v : map (fun m : string * json => (sanitize m.1, clean m.2)) (omitempty e n v) = omitempty e (sanitize n) (clean v).
Proof. by destruct e. Qed.

Lemma decode_pos_arrives p : pos_ok p -> decode_pos zero_pos (clean (json_pos p)) = (p, false).
Proof.
  intros (H1 & H2 & H3). destruct p as [o l c]. cbn [Offset Line Column] in *. unfold json_pos. cbn [clean Offset Line Column]. 
  rewrite !map_app, !clean_omitempty. cbn [clean json_int]. plain_names. fold (json_int o) (json_int l) (json_int c).
  unfold decode_pos. cbn [decode_struct]. rewrite <- (app_nil_r (omitempty (c =? 0) _ _)).
  do 3 (erewrite decode_omitempty; [|named|field; rewrite decode_int_pretty by done; reflexivity|by intros ->%Z.eqb_eq]). done.
Qed.

Definition error_ok (e : Error) : Prop := match Pos e with Some p => pos_ok p | None => True end.

Lemma decode_error_arrives e : error_ok e -> decode_error zero_error (clean (json_error e)) = (arrived_error e, false).
Proof.
  destruct e as [c m p]. unfold error_ok. cbn [Pos]. intros Hp. unfold json_error. cbn [clean Code Message Pos]. rewrite map_app. cbn [map fst snd clean app].
  plain_names. unfold decode_error. cbn [decode_struct].
  erewrite decode_member; [|named|field; reflexivity]. erewrite decode_member; [|named|field; reflexivity].
  destruct p as [p|]; [|done]. cbn [map fst snd]. plain_names.
  erewrite decode_member; [|named|field].
  2:{ cbn [Pos zero_error]. unfold decode_pointer. cbn [default clean json_pos].
      pose proof (decode_pos_arrives p Hp) as H. cbn [clean json_pos] in H. rewrite H. cbn beta iota. reflexivity. }
  done.
Qed.

Definition response_ok (r : Response any) : Prop :=
  Forall (Forall cell_ok) (resp_Rows r) /\ in_sint 64 (resp_Affected r) /\ forall e, resp_Error r = Some e -> error_ok e.

Lemma response_parsed r : parse (MarshalResponse r ++ [newline]) = Some (clean (json_response r)).
Proof.
  apply parse_print; [apply json_response_numbers| |apply newline_space]. apply deep_enough.
  assert (Hflat : forall {A} (f : A -> json) l k, (forall x, (height (f x) <= k)%nat) -> (max_list (map height (map f l)) <= k)%nat).
  { intros A f l k Hf. induction l as [|x l IH]; cbn; [lia|]. specialize (Hf x). cbn in IH. lia. }
  assert (Hall : forall ms : list (string * json), Forall (fun m => (height m.2 <= 9)%nat) ms -> (height (JObject ms) <= 10)%nat).
  { intros ms Hms. cbn. apply le_n_S. induction Hms; cbn; lia. }
  assert (Hopt : forall e n v, (height v <= 9)%nat -> Forall (fun m : string * json => (height m.2 <= 9)%nat) (omitempty e n v)).
  { intros [] n v Hv; [constructor|]. by constructor. }
  assert (Hp : forall p, (height (json_pos p) <= 1)%nat).
  { intros p. unfold json_pos, omitempty. destruct (_ =? 0), (_ =? 0), (_ =? 0); cbn; lia. }
  apply Hall. repeat (apply Forall_app; split); try apply Hopt.
  - repeat (apply Forall_cons; split; [cbn; lia|]). by apply Forall_nil.
  - cbn [height]. pose proof (Hflat _ JString (resp_Columns r) 0%nat ltac:(done)). lia.
  - cbn [height]. pose proof (Hflat _ (fun row => JArray (map json_any row)) (resp_Rows r) 1%nat) as Hc.
    etransitivity; [apply le_n_S, Hc|lia]. intros row. cbn [height]. apply le_n_S. apply Hflat. by intros [].
  - cbn. lia.
  - cbn. lia.
  - destruct (resp_Error r) as [e|]; [|constructor]. constructor; [|constructor]. cbn [snd]. unfold json_error.
    destruct (Pos e) as [p|]; cbn; [|lia]. specialize (Hp p). cbn in Hp. lia.
Qed.

(** A response line is read back by the client. *)
Lemma response_arrives r : response_ok r -> UnmarshalResponse (MarshalResponse r ++ [newline]) = inr (arrived_response r).
Proof.
  intros (Hrows & Haff & Herr). unfold UnmarshalResponse, Unmarshal. rewrite response_parsed.
  destruct r as [ty id st cols rows aff ex err]. cbn [resp_Type resp_RequestID resp_Status resp_Columns resp_Rows resp_Affected resp_Explain resp_Error] in *.
  unfold json_response. cbn [clean resp_Type resp_RequestID resp_Status resp_Columns resp_Rows resp_Affected resp_Explain resp_Error].
  rewrite !map_app, !clean_omitempty. cbn [map fst snd clean app json_int]. rewrite !map_map. cbn [clean]. 
  fold (json_int aff). plain_names. unfold decode_response. cbn [decode_struct].
  do 3 (erewrite decode_member; [|named|field; reflexivity]; proj_response).
  erewrite decode_omitempty; [|named|field; proj_response; rewrite decode_strings; reflexivity|by destruct cols]. proj_response.
  erewrite decode_omitempty; [|named|field; proj_response; rewrite decode_rows by done; reflexivity|by destruct rows]. proj_response.
  erewrite decode_omitempty; [|named|field; rewrite decode_int_pretty by done; reflexivity|by intros ->%Z.eqb_eq]. proj_response.
  erewrite decode_omitempty; [|named|field; reflexivity|by intros ->%bool_decide_eq_true_1]. proj_response.
  destruct err as [e|]; [|done]. cbn [map fst snd]. plain_names. erewrite decode_member; [|named|].
  2:{ field. proj_response. unfold decode_pointer.
      change (clean (json_error e)) with (JObject (match clean (json_error e) with JObject ms => ms | _ => [] end)).
      cbn beta iota. cbn [default]. change (JObject _) with (clean (json_error e)). rewrite decode_error_arrives by by apply Herr. cbn beta iota. reflexivity. }
  done.
Qed.


(** A valid string arrives as it is. *)
Lemma sanitize_valid s : utf8_valid (bytes_of s) = true -> sanitize s = s.
Proof. apply utf8_valid_runes. Qed.

Lemma arrived_request_valid r : utf8_valid (bytes_of (req_Type r)) = true -> utf8_valid (bytes_of (req_RequestID r)) = true ->
  utf8_valid (bytes_of (req_SQL r)) = true -> arrived_request r = r.
Proof. intros. unfold arrived_request. rewrite !sanitize_valid by done. by destruct r. Qed.

Lemma read_request_line r c rest :
  ReadRequest (with_input (MarshalRequest r ++ newline :: rest) c) = (inr (arrived_request r), with_input rest c).
Proof.
  unfold ReadRequest. cbn [input with_input]. rewrite read_line_printable by apply request_printable. by rewrite request_arrives.
Qed.

(** C34: the wire protocol is faithful: whatever a request and a response hold,
    each is written as one line, so that lines and documents correspond; the
    server reads back the request a client wrote and leaves exactly the bytes
    after it, and the client reads back the response the server wrote, with
    every string as it was if it is valid UTF-8, and with U+FFFD for each byte
    that is not. *)
Theorem wire_roundtrip req resp c rest :
  response_ok resp -> write_faults c = [] ->
  ReadRequest (with_input (MarshalRequest req ++ newline :: rest) c) = (inr (arrived_request req), with_input rest c) /\
  (exists c', WriteResponse resp c = (true, c') /\ input c' = input c /\ output c' = output c ++ MarshalResponse resp ++ [newline]) /\
  (forall more, read_line ((MarshalResponse resp ++ [newline]) ++ more) = Some (MarshalResponse resp ++ [newline], more)) /\
  UnmarshalResponse (MarshalResponse resp ++ [newline]) = inr (arrived_response resp) /\
  forall s, utf8_valid (bytes_of s) = true -> sanitize s = s.
Proof.
  intros Hok Hf. split; [apply read_request_line|]. split; [|split; [|split; [by apply response_arrives|apply sanitize_valid]]].
  - unfold WriteResponse, write. rewrite Hf. by eexists.
  - intros more. rewrite <- app_assoc. apply read_line_printable, response_printable.
Qed.

Definition a_response : Response any :=
  NewOkResponse "7" ["id"; "name"] [[AInt64 1; AString "a<b"]; [AInt64 (-12); ANil]] 0 "".

Lemma wire_roundtrip_witness :
  response_ok a_response /\ UnmarshalResponse (MarshalResponse a_response ++ [newline]) = inr (arrived_response a_response).
Proof.
  assert (H : response_ok a_response).
  { split; [|split; [split; vm_compute; congruence|intros e E; discriminate E]].
    repeat (constructor; [repeat (constructor; [first [exact I|split; vm_compute; congruence]|]); constructor|]). constructor. }
  split; [exact H|].
  exact (proj1 (proj2 (proj2 (proj2 (wire_roundtrip (NewRequest "7" "SELECT 1" false) a_response
    {| input := []; input_end := EOF; output := []; write_faults := [] |} [] H eq_refl))))).
Defined.
End protocol.
