(* ===== verification/IndexManager.v ===== *)
(** * IndexManager: the indexes that are open

    Models [index/index_manager.go] and the interface [index.Index] of
    [index/index.go].  An index is an object that its users share: the manager
    keeps a pointer to it under its name, and [GetOrCreate] and [Get] return
    that pointer.  The objects are a list ([objects]), a pointer is a position
    in it, and a call through a pointer changes the object and the pool.

    The loops of the BTree index get the number of its pages as fuel, which is
    enough ([BTreeSpec]).

    [IndexContract] is what the manager's clients are promised by either kind
    of index; both implement it ([hash_contract], [btree_contract]), and
    [shared_index_finds] is proved against it. *)

From S2P Require Import Prelude GoRuntime Utf8 Ast HeapPage Replacer PageFile BufferPool PageStore CatalogModel Semantic Eval CatalogManager Storage IndexPage HashIndex HashIndexProofs BTreeIndex BTreeNode BTreeTree BTreeSearch BTreeSplit BTreeProofs BTreeInsert BTreeSpec.
#[local] Open Scope Z_scope.

Module IndexManager.
Import HeapBufferPoolManager.

Definition ErrIndexNotLoaded : go_error := Errorf "index not loaded".

(** The implementations of [index.Index]. *)
Inductive Index : Type :=
  | HashIndex (idx : DiskHashIndex.t)
  | BTreeIndex (idx : DiskBTreeIndex.t).

Definition Definition_ (ix : Index) : IndexDefinition.t :=
  match ix with HashIndex idx => DiskHashIndex.def idx | BTreeIndex idx => DiskBTreeIndex.def idx end.

(** The manager, with the catalog manager (and its pool) that it uses. *)
Record t {R D : Type} : Type := {
  root : string;
  catalog : DefaultCatalogManager.t R D;
  byName : gmap string nat;
  objects : list Index
}.
Arguments t : clear implicits.

Section operations.
Context {R D : Type} `{!Replacer R, !PageFileManager D, !FileStat D}.
Implicit Types (m : t R D) (cm : DefaultCatalogManager.t R D).

Definition with_catalog cm m : t R D := {| root := root m; catalog := cm; byName := byName m; objects := objects m |}.
Definition with_objects (os : list Index) m : t R D := {| root := root m; catalog := catalog m; byName := byName m; objects := os |}.

Definition on_catalog {A} (f : ST (DefaultCatalogManager.t R D) A) : ST (t R D) A := fun m =>
  let (r, cm) := f (catalog m) in (r, with_catalog cm m).

Definition NewIndexManager (root : string) cm : t R D := {| root := root; catalog := cm; byName := ∅; objects := [] |}.

(** The factories by index type; [None] for a type that is not in the map. *)
Definition factory (indexType : IndexType) : option (string -> IndexDefinition.t -> ST (DefaultCatalogManager.t R D) Index) :=
  if indexType =? IndexTypeHash then
    Some (fun root def => idx <- DiskHashIndex.NewDiskHashIndex root def ;; sret (HashIndex idx))
  else if indexType =? IndexTypeBTree then
    Some (fun root def => idx <- DiskBTreeIndex.NewDiskBTreeIndex root def ;; sret (BTreeIndex idx))
  else None.

Definition GetOrCreate (def : IndexDefinition.t) : ST (t R D) nat := fun m =>
  match byName m !! IndexDefinition.name def with
  | Some ref => (Ok ref, m)
  | None =>
    match factory (IndexDefinition.indexType def) with
    | None => (Err ErrNotHashIndex, m)
    | Some new =>
      match on_catalog (new (root m) def) m with
      | (Ok idx, m) =>
        let ref := length (objects m) in
        (Ok ref, {| root := root m; catalog := catalog m; byName := <[IndexDefinition.name def := ref]> (byName m);
                    objects := objects m ++ [idx] |})
      | (Err e, m) => (Err e, m)
      | (Panic, m) => (Panic, m)
      end
    end
  end.

Definition Get (indexName : string) : ST (t R D) nat := fun m =>
  match byName m !! indexName with
  | Some ref => (Ok ref, m)
  | None => (Err ErrIndexNotLoaded, m)
  end.

(** A method call on the object behind a pointer. *)
Definition call {A} (hash : ST (Pool R D * DiskHashIndex.t) A)
    (btree : nat -> ST (Pool R D * DiskBTreeIndex.t) A) (ref : nat) : ST (t R D) A := fun m =>
  let P := DefaultCatalogManager.bufferPool (catalog m) in
  let back (P : Pool R D) ix := with_objects (<[ref := ix]> (objects m))
    (with_catalog {| DefaultCatalogManager.root := DefaultCatalogManager.root (catalog m);
                     DefaultCatalogManager.bufferPool := P; DefaultCatalogManager.cat := DefaultCatalogManager.cat (catalog m) |} m) in
  match objects m !! ref with
  | None => (Panic, m)
  | Some (HashIndex idx) => let (r, s) := hash (P, idx) in (r, back s.1 (HashIndex s.2))
  | Some (BTreeIndex idx) =>
    let (r, s) := btree (Z.to_nat (DiskBTreeIndex.nextPageID (DiskBTreeIndex.meta idx))) (P, idx) in (r, back s.1 (BTreeIndex s.2))
  end.

Definition Insert (ref : nat) (k : any) (tid : TID) : ST (t R D) unit :=
  call (DiskHashIndex.Insert k tid) (fun fuel => DiskBTreeIndex.Insert fuel k tid) ref.
Definition Search (ref : nat) (k : any) : ST (t R D) (list TID) :=
  call (DiskHashIndex.Search k) (fun fuel => DiskBTreeIndex.Search fuel k) ref.
Definition RangeSearch (ref : nat) (from : any) (fi : bool) (to : any) (ti : bool) : ST (t R D) (list TID) :=
  call (DiskHashIndex.RangeSearch from fi to ti) (fun fuel => DiskBTreeIndex.RangeSearch fuel from fi to ti) ref.
End operations.
End IndexManager.

(** ** What both kinds of index promise *)
Module IndexContract.
Import HeapBufferPoolManager IndexPage IndexManager.

Section contract.
Context {R D : Type} `{RR : Replacer R, RL : !ReplacerLaws R, DM : PageFileManager D, DL : !PageFileLaws D}.
Context `{FT : !FileStat D, FL : !FileStatLaws D}.
Context (root0 : string) (root_nonempty : root0 <> ""%string).
Implicit Types (P : Pool R D) (E : PageKey -> Prop) (A : PageKey -> option (list byte)).

Notation store_but := (PageStore.store_but root0).

(** The pages of the file that are known in [E], [A] are the same in [E'], [A']. *)
Definition frames (file : string) E A E' A' : Prop :=
  (forall k, FileID k = file -> ~ E k -> ~ E' k) /\
  forall k, FileID k = file -> BufferPoolSpec.good_key Filepath.simple_name k -> ~ E k -> A' k = A k.

(** Calls of an index object of type [X]: [represents E A x es] says that in
    the store [E], [A] the object stands for the multiset [es] of keys and
    TIDs; [admits E A x es k tid] that there is room for one more. *)
Class IndexContract (X : Type) (file keys : X -> string) (ins : any -> TID -> ST (Pool R D * X) unit)
    (sea : any -> ST (Pool R D * X) (list TID)) : Type := {
  represents : (PageKey -> Prop) -> (PageKey -> option (list byte)) -> X -> list (any * TID) -> Prop;
  admits : (PageKey -> Prop) -> (PageKey -> option (list byte)) -> X -> list (any * TID) -> any -> TID -> Prop;
  frame_law E A E' A' x es : frames (file x) E A E' A' -> represents E A x es -> represents E' A' x es;
  admits_law E A E' A' x es k tid : frames (file x) E A E' A' -> admits E A x es k tid -> admits E' A' x es k tid;
  insert_law E A P x es k tid P' x' : store_but E A P -> represents E A x es -> admits E A x es k tid ->
    ins k tid (P, x) = (Ok tt, (P', x')) ->
    file x' = file x /\ keys x' = keys x /\ exists E' A', store_but E' A' P' /\
      (exists es', represents E' A' x' es' /\ es' ≡ₚ (k, tid) :: es) /\
      (forall k, FileID k <> file x -> E' k -> E k) /\ elsewhere (file x) A A';
  search_law E A P x es k P' x' tids : store_but E A P -> represents E A x es -> key_kind (keys x) k ->
    sea k (P, x) = (Ok tids, (P', x')) ->
    store_but E A P' /\ x' = x /\ tids ≡ₚ snd <$> filter (fun e => e.1 = k) es;
  search_sure E A P x es k : reliable -> store_but E A P -> represents E A x es -> key_kind (keys x) k ->
    exists tids, (sea k (P, x)).1 = Ok tids
}.

(** The largest store has the pages of every other one. *)
Lemma store_frames file E A P : store_but E A P -> frames file E A (PageStore.vague root0 P) (BufferPoolSpec.contents root0 P).
Proof using.
  intros Hst. split.
  - intros k _ He Hv. by destruct (PageStore.store_known root0 E A P k Hst (proj1 Hv) He).
  - intros k _ Hg He. by destruct (PageStore.store_known root0 E A P k Hst Hg He).
Qed.

(** On a reliable disk a search finds its TIDs and keeps every page. *)
Lemma search_kept {X file keys ins sea} `{!IndexContract X file keys ins sea} E A P x es k :
  reliable -> store_but E A P -> represents E A x es -> key_kind (keys x) k ->
  exists tids P', sea k (P, x) = (Ok tids, (P', x)) /\ PageStore.kept root0 P P' /\
    tids ≡ₚ snd <$> filter (fun e => e.1 = k) es.
Proof using.
  intros Hrel Hst Hx Hk. destruct (search_sure E A P x es k Hrel Hst Hx Hk) as [tids Hs].
  destruct (sea k (P, x)) as [r [P' x']] eqn:Er. cbn [fst] in Hs. subst r.
  assert (Hx' : represents (PageStore.vague root0 P) (BufferPoolSpec.contents root0 P) x es)
    by (eapply frame_law; [by apply store_frames|done]).
  destruct (search_law _ _ P x es k P' x' tids (PageStore.store_all root0 E A P Hst) Hx' Hk Er) as (Hst' & -> & Ht).
  exists tids, P'. split; [done|]. split; [by apply PageStore.kept_all|done].
Qed.

Lemma hash_frame E A E' A' x entries :
  frames (DiskHashIndex.fileID x) E A E' A' -> HashSpec.holds E A x entries -> HashSpec.holds E' A' x entries.
Proof.
  intros [HE HA] (chains & [[Hf Hk Hn Hl Hd Hi Hb] HL Hlen Hp Hc] & Hload & (HE0 & b0 & HA0 & Hm) & Hent). exists chains.
  assert (HA' : forall id, 0 <= id < 2 ^ 31 -> ~ E (NewPageKey (DiskHashIndex.fileID x) id) ->
    A' (NewPageKey (DiskHashIndex.fileID x) id) = A (NewPageKey (DiskHashIndex.fileID x) id)).
  { intros id Hid Hx. apply HA; [done|split; [done|exact Hid]|done]. }
  split; [split; [split; try done|done..]|split; [done|split; [|done]]].
  - intros id Hid. apply HE; [done|by apply Hk].
  - intros i c Hic. destruct (Hb i c Hic) as (H1 & (b & Hdb & H2) & H3 & H4). split; [by apply HE|].
    assert (Hdir : 0 <= DiskHashIndex.dir_page (Z.of_nat i) < 2 ^ 31).
    { pose proof (lookup_lt_Some _ _ _ Hic). pose proof (HashSpec.dir_bounds (Z.of_nat i) ltac:(lia)). lia. }
    split; [exists b; by rewrite HA'|]. split; [|done]. eapply HashSpec.chain_frame; [|exact H3]. intros id Hin.
    assert (Hr : HashSpec.data_id (DiskHashIndex.nextPageID (DiskHashIndex.meta x)) id).
    { rewrite Forall_forall in Hi. apply Hi, list_elem_of_In, in_concat. exists (HashSpec.chain_ids c).
      split; [|by apply list_elem_of_In]. apply list_elem_of_In, list_elem_of_fmap. exists c. split; [done|by eapply list_elem_of_lookup_2]. }
    unfold HashSpec.data_id in Hr. apply HA'; [lia|]. apply Hk. lia.
  - split; [by apply HE|]. exists b0. split; [|done]. rewrite <- HA0. by apply HA'.
Qed.

#[global] Program Instance hash_contract : IndexContract DiskHashIndex.t DiskHashIndex.fileID HashSpec.type_name DiskHashIndex.Insert DiskHashIndex.Search := {|
  represents E A x es := exists entries, HashSpec.holds E A x entries /\
    es = (fun e => (DiskHashIndex.e_key e, DiskHashIndex.e_tid e)) <$> entries;
  admits E A x es k tid := HashSpec.key_ok (HashSpec.type_name x) k /\ tid_ok tid /\
    DiskHashIndex.bucketCount (DiskHashIndex.meta x) < HashSpec.maxBuckets /\
    DiskHashIndex.nextPageID (DiskHashIndex.meta x) + DiskHashIndex.recordCount (DiskHashIndex.meta x) + 3 < 2 ^ 31
|}.
Next Obligation.
  intros E A E' A' x es HF (entries & Hh & ->). exists entries. split; [|done]. by eapply hash_frame.
Qed.
Next Obligation. done. Qed.
Next Obligation.
  intros E A P x es k tid P' x' Hst (entries & Hh & ->) (Hk & Ht & Hb & Hn) Hrun.
  assert (H : triple (DiskHashIndex.Insert k tid) (P, x) (fun r s => r = Ok tt -> DiskHashIndex.fileID s.2 = DiskHashIndex.fileID x /\ HashSpec.type_name s.2 = HashSpec.type_name x /\
    exists E' A', store_but E' A' s.1 /\ (exists es', (exists es0, HashSpec.holds E' A' s.2 es0 /\
      es' = (fun e => (DiskHashIndex.e_key e, DiskHashIndex.e_tid e)) <$> es0) /\
      es' ≡ₚ (k, tid) :: ((fun e => (DiskHashIndex.e_key e, DiskHashIndex.e_tid e)) <$> entries)) /\
      (forall k, FileID k <> DiskHashIndex.fileID x -> E' k -> E k) /\ elsewhere (DiskHashIndex.fileID x) A A')).
  { apply (HashSpec.Insert_run root0 root_nonempty E A P x entries k tid); [done..| |done].
    intros P1 E1 A1 m1 HE1 Hst1 Hh1 _ Hel _. split; [done|]. split; [done|]. exists E1, A1. split; [done|]. split; [|split; [auto|done]].
    eexists. split; [by eexists|done]. }
  destruct H as [_ H]. rewrite Hrun in H. by apply H.
Qed.
Next Obligation.
  intros E A P x es k P' x' tids Hst (entries & Hh & ->) Hk Hrun.
  assert (H : triple (DiskHashIndex.Search k) (P, x) (fun r s => forall tids, r = Ok tids -> store_but E A s.1 /\ s.2 = x /\
    tids ≡ₚ DiskHashIndex.e_tid <$> filter (fun e => DiskHashIndex.e_key e = k) entries)).
  { apply (HashSpec.Search_run root0 root_nonempty E A P x entries k); [done..| |done].
    intros P1 tids1 Hst1 Ht tids2 [= <-]. done. }
  destruct H as [_ H]. rewrite Hrun in H. destruct (H tids eq_refl) as (H1 & H2 & H3). split; [done|]. split; [done|].
  rewrite H3. clear. induction entries as [|e es IH]; [done|]. cbn [fmap list_fmap]. rewrite !filter_cons. cbn [fst].
  case_decide; cbn [fmap list_fmap snd]; by rewrite IH.
Qed.
Next Obligation.
  intros E A P x es k Hrel Hst (entries & Hh & ->) Hk.
  assert (H : triple (DiskHashIndex.Search k) (P, x) (fun r s => exists tids, r = Ok tids)).
  { by apply (HashSpec.Search_run root0 root_nonempty E A P x entries k); [..|eauto|]. }
  by destruct H as [_ H].
Qed.

(** The entries of a BTree as keys and TIDs. *)
Definition flat (es : list (any * list TID)) : list (any * TID) := 
  concat ((fun e : any * list TID => pair e.1 <$> e.2) <$> es).

Lemma flat_cons k ts es : flat ((k, ts) :: es) = (pair k <$> ts) ++ flat es.
Proof. done. Qed.

Lemma flat_add k tid es : flat (NodeSpec.add_tid k tid es) ≡ₚ (k, tid) :: flat es.
Proof.
  induction es as [|[k' ts] es IH]; [done|]. cbn [NodeSpec.add_tid]. repeat case_decide; rewrite !flat_cons.
  - rewrite IH. by rewrite Permutation_middle.
  - subst. rewrite fmap_app, <- app_assoc. cbn. by rewrite Permutation_middle.
  - done.
Qed.

Lemma flat_find k es : TreeSpec.increasing (fst <$> es) ->
  SearchSpec.find_tids k es = snd <$> filter (fun e => e.1 = k) (flat es).
Proof.
  assert (Hsame : forall k' (ts : list TID), snd <$> filter (fun e : any * TID => e.1 = k) (pair k' <$> ts) = if decide (k' = k) then ts else []).
  { intros k' ts. induction ts as [|x ts IHt]; [by case_decide|]. cbn [fmap list_fmap]. rewrite filter_cons. cbn [fst]. case_decide; [|done]. cbn. by f_equal. }
  assert (Hnone : forall es, Forall (fun a => a <> k) (fst <$> es) -> snd <$> filter (fun e => e.1 = k) (flat es) = []).
  { intros es'. induction es' as [|[k' ts] es' IH]; [done|]. intros [H1 H2]%Forall_cons. rewrite flat_cons, filter_app, fmap_app, Hsame, IH by done.
    cbn in H1. by rewrite decide_False. }
  induction es as [|[k' ts] es IH]; [done|]. intros Hi. cbn [fmap list_fmap] in Hi. apply SplitSpec.increasing_cons in Hi as [Hi Hlt].
  rewrite flat_cons, filter_app, fmap_app, Hsame. cbn [SearchSpec.find_tids]. case_decide as Hk; [|by rewrite <- IH].
  subst. rewrite Hnone; [by rewrite app_nil_r|]. eapply Forall_impl; [exact Hlt|]. intros a Ha ->. by eapply Predicates.value_lt_irrefl.
Qed.

Definition btree_insert (k : any) (tid : TID) : ST (Pool R D * DiskBTreeIndex.t) unit := fun s =>
  DiskBTreeIndex.Insert (Z.to_nat (DiskBTreeIndex.nextPageID (DiskBTreeIndex.meta s.2))) k tid s.
Definition btree_search (k : any) : ST (Pool R D * DiskBTreeIndex.t) (list TID) := fun s =>
  DiskBTreeIndex.Search (Z.to_nat (DiskBTreeIndex.nextPageID (DiskBTreeIndex.meta s.2))) k s.

Lemma pages_enough x : BTreeProofs.enough (Z.to_nat (DiskBTreeIndex.nextPageID (DiskBTreeIndex.meta x))) x.
Proof. unfold BTreeProofs.enough. lia. Qed.

Lemma btree_frame E A E' A' x entries :
  frames (DiskBTreeIndex.fileID x) E A E' A' -> BTreeProofs.holds E A x entries -> BTreeProofs.holds E' A' x entries.
Proof.
  intros [HE HA] (N & H & tr & [[Hf Hn Hp] (HE0 & b0 & n0 & HA0 & Hm) Hs Ho Hl Hnd Hr Hlm Hh] & ->). exists N, H, tr. split; [|done].
  split; try done.
  - split; [done..|]. intros id n Hid. destruct (Hp id n Hid) as (H1 & H2 & H3 & b & H4 & H5). split; [done|]. split; [done|].
    split; [by apply HE|]. exists b. rewrite HA; [done|done|split; [done|]|done]. change (0 <= id < 2 ^ 31). lia.
  - split; [by apply HE|]. exists b0, n0. rewrite HA; [done|done|split; [done|]|done]. change (0 <= 0 < 2 ^ 31). lia.
Qed.

#[global] Program Instance btree_contract : IndexContract DiskBTreeIndex.t DiskBTreeIndex.fileID NodeSpec.type_name btree_insert btree_search := {|
  represents E A x es := exists entries, BTreeProofs.holds E A x entries /\ es = flat entries;
  admits E A x es k tid := NodeSpec.key_ok (NodeSpec.type_name x) k /\ NodeSpec.key_size k <= TreeSpec.max_key /\ tid_ok tid /\
    (exists entries, BTreeProofs.holds E A x entries /\ es ≡ₚ flat entries /\ SplitSpec.small (NodeSpec.add_tid k tid entries)) /\
    DiskBTreeIndex.nextPageID (DiskBTreeIndex.meta x) + DiskBTreeIndex.height (DiskBTreeIndex.meta x) + 1 < 2 ^ 31
|}.
Next Obligation.
  intros E A E' A' x es HF (entries & Hh & ->). exists entries. split; [|done]. by eapply btree_frame.
Qed.
Next Obligation.
  intros E A E' A' x es k tid HF (Hk & Hm & Ht & (entries & Hh & Hes & Hs) & Hn). split_and!; try done.
  exists entries. split; [by eapply btree_frame|done].
Qed.
Next Obligation.
  intros E A P x es k tid P' x' Hst _ (Hk & Hm & Ht & (entries & Hh & Hes & Hs) & Hn) Hrun. unfold btree_insert in Hrun. cbn [snd] in Hrun.
  destruct (InsertProofs.tree_Insert_run root0 root_nonempty E A _ P x entries k tid Hst Hh Hk Hm Ht Hs Hn (pages_enough x))
    as [(s & Hp & _)|[_ Hok]]; rewrite Hrun in *; [done|].
  destruct (Hok eq_refl) as (E' & A' & Hst' & Hh' & (Eidx & _) & HE' & Hel). cbn [fst snd] in *. split; [by rewrite Eidx|]. split; [by rewrite Eidx|].
  exists E', A'. split; [done|]. split; [|split; [by intros k0 Hk0 [?|?]%HE'|done]]. exists (flat (NodeSpec.add_tid k tid entries)). split; [by eexists|by rewrite flat_add, Hes].
Qed.
Next Obligation.
  intros E A P x es k P' x' tids Hst (entries & Hh & ->) Hk Hrun. unfold btree_search in Hrun. cbn [snd] in Hrun.
  destruct (BTreeProofs.tree_Search_run root0 root_nonempty _ E A P x entries k Hst Hh Hk (pages_enough x)) as [(s & Hp & _)|(P1 & Hp & Hst1)];
    rewrite Hrun in Hp; [done|]. injection Hp as -> -> ->. split; [done|]. split; [done|]. rewrite flat_find; [done|].
  destruct Hh as (N & H & tr & HT & ->). by apply (TreeSpec.ordered_entries (NodeSpec.type_name x)), HT.
Qed.
Next Obligation.
  intros E A P x es k Hrel Hst (entries & Hh & ->) Hk. unfold btree_search. cbn [snd].
  destruct (BTreeProofs.tree_Search_run root0 root_nonempty _ E A P x entries k Hst Hh Hk (pages_enough x)) as [(s & _ & Hf)|(P1 & -> & _)];
    [|by eexists]. by destruct Hf.
Qed.

#[local] Existing Instances SearchSpec.over_dec SearchSpec.under_dec.

(** The entries in an interval. *)
Lemma flat_between from fi to ti es :
  SearchSpec.tids_between from fi to ti es =
  snd <$> filter (fun e => SearchSpec.over from fi e.1 /\ SearchSpec.under to ti e.1) (flat es).
Proof.
  unfold SearchSpec.tids_between. induction es as [|[k ts] es IH]; [done|]. rewrite flat_cons, filter_app, fmap_app, filter_cons, <- IH. cbn [fst].
  assert (Hsame : snd <$> filter (fun e : any * TID => SearchSpec.over from fi e.1 /\ SearchSpec.under to ti e.1) (pair k <$> ts) =
    if decide (SearchSpec.over from fi k /\ SearchSpec.under to ti k) then ts else []).
  { induction ts as [|x ts IHt]; [by case_decide|]. cbn [fmap list_fmap]. rewrite filter_cons. cbn [fst]. case_decide; [|done]. cbn. by f_equal. }
  rewrite Hsame. by case_decide.
Qed.

(** On a reliable disk a range search finds its TIDs and keeps every page. *)
Lemma range_kept E A P x es from fi to ti fuel :
  reliable -> store_but E A P -> represents E A x es -> SearchSpec.bound_key x from -> SearchSpec.bound_key x to ->
  BTreeProofs.enough fuel x ->
  exists tids P', DiskBTreeIndex.RangeSearch fuel from fi to ti (P, x) = (Ok tids, (P', x)) /\ PageStore.kept root0 P P' /\
    tids = snd <$> filter (fun e => SearchSpec.over from fi e.1 /\ SearchSpec.under to ti e.1) es.
Proof.
  intros Hrel Hst (entries & Hh & ->) Hf Ht Hfuel.
  assert (Hh' : BTreeProofs.holds (PageStore.vague root0 P) (BufferPoolSpec.contents root0 P) x entries)
    by (eapply btree_frame; [by apply store_frames|done]).
  destruct (BTreeProofs.RangeSearch_run root0 root_nonempty fuel _ _ P x entries from fi to ti (PageStore.store_all root0 E A P Hst) Hh' Hf Ht Hfuel)
    as [(s & _ & Hp)|(r & P' & Er & _ & Hst' & Hr)]; [by destruct Hp|].
  destruct r as [tids|e|]; [|done..]. exists tids, P'. split; [done|]. split; [by apply PageStore.kept_all|]. by rewrite Hr, flat_between.
Qed.

(** ** The manager *)
Implicit Types (m : t R D) (c : nat -> list (any * TID)).

Definition pool m : Pool R D := DefaultCatalogManager.bufferPool (catalog m).
Definition index_file (ix : Index) : string :=
  match ix with HashIndex x => DiskHashIndex.fileID x | BTreeIndex x => DiskBTreeIndex.fileID x end.
Definition stands E A (ix : Index) (es : list (any * TID)) : Prop :=
  exists es', es' ≡ₚ es /\ match ix with HashIndex x => represents E A x es' | BTreeIndex x => represents E A x es' end.
Definition accepts E A (ix : Index) (es : list (any * TID)) (k : any) (tid : TID) : Prop :=
  forall es', es' ≡ₚ es -> match ix with HashIndex x => admits E A x es' k tid | BTreeIndex x => admits E A x es' k tid end.
Definition index_keys (ix : Index) : string :=
  match ix with HashIndex x => HashSpec.type_name x | BTreeIndex x => NodeSpec.type_name x end.
Definition suits (ix : Index) (k : any) : Prop := key_kind (index_keys ix) k.

(** Every open index stands for its multiset [c ref], each in a file of its own. *)
Record holding E A m c : Prop := {
  hd_store : store_but E A (pool m);
  hd_index ref ix : objects m !! ref = Some ix -> stands E A ix (c ref);
  hd_files ref ref' ix ix' : objects m !! ref = Some ix -> objects m !! ref' = Some ix' -> ref <> ref' -> index_file ix <> index_file ix'
}.

Lemma stands_frame E A E' A' ix es : frames (index_file ix) E A E' A' -> stands E A ix es -> stands E' A' ix es.
Proof.
  intros HF (es' & Hp & Hr). exists es'. split; [done|]. destruct ix; [by eapply (frame_law (IndexContract := hash_contract))|by eapply (frame_law (IndexContract := btree_contract))].
Qed.

(** The manager with other pages. *)
Definition with_pages P m : t R D := with_catalog
  {| DefaultCatalogManager.root := DefaultCatalogManager.root (catalog m);
     DefaultCatalogManager.bufferPool := P; DefaultCatalogManager.cat := DefaultCatalogManager.cat (catalog m) |} m.

Lemma accepts_frame E A E' A' ix es k tid :
  frames (index_file ix) E A E' A' -> accepts E A ix es k tid -> accepts E' A' ix es k tid.
Proof.
  intros HF Hacc es' Hes. specialize (Hacc es' Hes). destruct ix as [x|x].
  - by apply (admits_law (IndexContract := hash_contract) E A).
  - by apply (admits_law (IndexContract := btree_contract) E A).
Qed.

Lemma stands_perm E A ix es es' : es ≡ₚ es' -> stands E A ix es -> stands E A ix es'.
Proof. intros Hp (es0 & Hes & Hr). exists es0. split; [by rewrite Hes|done]. Qed.

(** A call through a pointer, as the call of the object. *)
Lemma call_run {B} (hash : ST (Pool R D * DiskHashIndex.t) B) btree ref m r m' :
  call hash btree ref m = (Ok r, m') -> exists ix ix' P', objects m !! ref = Some ix /\
    m' = with_objects (<[ref:=ix']> (objects m)) (with_pages P' m) /\
    match ix, ix' with
    | HashIndex x, HashIndex x' => hash (pool m, x) = (Ok r, (P', x'))
    | BTreeIndex x, BTreeIndex x' => btree (Z.to_nat (DiskBTreeIndex.nextPageID (DiskBTreeIndex.meta x))) (pool m, x) = (Ok r, (P', x'))
    | _, _ => False
    end.
Proof.
  unfold call. destruct (objects m !! ref) as [ix|] eqn:Eix; [|done]. destruct ix as [x|x].
  - fold (pool m). destruct (hash (pool m, x)) as [r0 [P' x']] eqn:Er. intros [= -> <-]. exists (HashIndex x), (HashIndex x'), P'. by split_and!.
  - fold (pool m). destruct (btree _ (pool m, x)) as [r0 [P' x']] eqn:Er. intros [= -> <-]. exists (BTreeIndex x), (BTreeIndex x'), P'. by split_and!.
Qed.

Definition index_kind (ix : Index) : IndexType :=
  match ix with HashIndex _ => IndexTypeHash | BTreeIndex _ => IndexTypeBTree end.

(** What an insertion does to its index and to the pages. *)
Lemma manager_stands E A m ref ix es k tid m' :
  store_but E A (pool m) -> objects m !! ref = Some ix -> stands E A ix es -> accepts E A ix es k tid -> Insert ref k tid m = (Ok tt, m') ->
  exists ix' P' E' A', m' = with_objects (<[ref:=ix']> (objects m)) (with_pages P' m) /\
    index_file ix' = index_file ix /\ index_keys ix' = index_keys ix /\ index_kind ix' = index_kind ix /\
    store_but E' A' P' /\ stands E' A' ix' ((k, tid) :: es) /\
    (forall k, FileID k <> index_file ix -> E' k -> E k) /\ elsewhere (index_file ix) A A'.
Proof.
  intros Hst Href (es0 & Hes & Hr) Hacc Hrun. apply call_run in Hrun as (ix0 & ix' & P' & Href0 & -> & Hrun).
  assert (ix0 = ix) as -> by congruence. destruct ix as [x|x], ix' as [x'|x']; try done.
  - destruct (insert_law (IndexContract := hash_contract) E A (pool m) x es0 k tid P' x' Hst Hr (Hacc es0 Hes) Hrun) as (H1 & H0 & E' & A' & H2 & (es' & H3 & H4) & H5 & H6).
    exists (HashIndex x'), P', E', A'. split_and!; try done. exists es'. split; [by rewrite H4, Hes|done].
  - destruct (insert_law (IndexContract := btree_contract) E A (pool m) x es0 k tid P' x' Hst Hr (Hacc es0 Hes) Hrun) as (H1 & H0 & E' & A' & H2 & (es' & H3 & H4) & H5 & H6).
    exists (BTreeIndex x'), P', E', A'. split_and!; try done. exists es'. split; [by rewrite H4, Hes|done].
Qed.

(** An insertion adds to one index and leaves the others alone. *)
Lemma manager_insert E A m c ref ix k tid m' :
  holding E A m c -> objects m !! ref = Some ix -> accepts E A ix (c ref) k tid -> Insert ref k tid m = (Ok tt, m') ->
  byName m' = byName m /\ exists E' A', holding E' A' m' (fun r => if decide (r = ref) then (k, tid) :: c r else c r).
Proof.
  intros [Hst Hix Hfl] Href Hacc Hrun.
  destruct (manager_stands E A m ref ix (c ref) k tid m' Hst Href (Hix ref ix Href) Hacc Hrun)
    as (ix' & P' & E' & A' & -> & Hfile & _ & _ & Hst' & Hnew & HE' & Hel).
  split; [done|]. exists E', A'. split; [done|..]; cbn [objects with_objects].
  - intros r i Hi. destruct (decide (r = ref)) as [->|Hne].
    + rewrite list_lookup_insert_eq in Hi by by eapply lookup_lt_Some. by injection Hi as <-.
    + rewrite list_lookup_insert_ne in Hi by done. assert (Hf : index_file i <> index_file ix) by by eapply Hfl.
      apply (stands_frame E A); [|by apply Hix]. split.
      * intros k0 Hk0 Hn Hx. apply Hn, HE'; [congruence|done].
      * intros k0 Hk0 _ _. apply Hel. congruence.
  - intros r r' i i' Hi Hi' Hne. destruct (decide (r = ref)) as [->|Hr1], (decide (r' = ref)) as [->|Hr2]; try done.
    + rewrite list_lookup_insert_eq in Hi by by eapply lookup_lt_Some. rewrite list_lookup_insert_ne in Hi' by done. injection Hi as <-. rewrite Hfile.
      by eapply Hfl.
    + rewrite list_lookup_insert_eq in Hi' by by eapply lookup_lt_Some. rewrite list_lookup_insert_ne in Hi by done. injection Hi' as <-. rewrite Hfile.
      by eapply Hfl.
    + rewrite list_lookup_insert_ne in Hi, Hi' by done. by eapply Hfl.
Qed.

(** A search finds the TIDs of its key and changes nothing. *)
Lemma manager_search E A m c ref ix k tids m' :
  holding E A m c -> objects m !! ref = Some ix -> suits ix k -> Search ref k m = (Ok tids, m') ->
  byName m' = byName m /\ holding E A m' c /\ tids ≡ₚ snd <$> filter (fun e => e.1 = k) (c ref).
Proof.
  intros [Hst Hix Hfl] Href Hk Hrun. apply call_run in Hrun as (ix0 & ix' & P' & Href0 & -> & Hrun).
  assert (ix0 = ix) as -> by congruence. split; [done|]. destruct (Hix ref ix Href) as (es & Hes & Hr).
  assert (Hlaw : ix' = ix /\ store_but E A P' /\ tids ≡ₚ snd <$> filter (fun e => e.1 = k) (c ref)).
  { destruct ix as [x|x], ix' as [x'|x']; try done.
    - destruct (search_law (IndexContract := hash_contract) E A (pool m) x es k P' x' tids Hst Hr Hk Hrun) as (H1 & -> & H3). by rewrite H3, Hes.
    - destruct (search_law (IndexContract := btree_contract) E A (pool m) x es k P' x' tids Hst Hr Hk Hrun) as (H1 & -> & H3). by rewrite H3, Hes. }
  destruct Hlaw as (-> & Hst' & Ht). split; [|done]. rewrite list_insert_id by done. by split.
Qed.

(** *** Searching on a reliable disk *)
Lemma call_kept {B} (hash : ST (Pool R D * DiskHashIndex.t) B) btree ref m ix r P' :
  objects m !! ref = Some ix ->
  match ix with
  | HashIndex x => hash (pool m, x) = (r, (P', x))
  | BTreeIndex x => btree (Z.to_nat (DiskBTreeIndex.nextPageID (DiskBTreeIndex.meta x))) (pool m, x) = (r, (P', x))
  end -> call hash btree ref m = (r, with_pages P' m).
Proof.
  intros Hix Hrun. unfold call. cbv zeta. rewrite Hix. fold (pool m).
  assert (Hid : <[ref := ix]> (objects m) = objects m) by by apply list_insert_id.
  destruct ix; rewrite Hrun; cbn [fst snd]; by rewrite Hid.
Qed.

Lemma manager_search_kept E A m ref ix es k :
  reliable -> store_but E A (pool m) -> objects m !! ref = Some ix -> stands E A ix es -> suits ix k ->
  exists tids P', Search ref k m = (Ok tids, with_pages P' m) /\ PageStore.kept root0 (pool m) P' /\
    tids ≡ₚ snd <$> filter (fun e => e.1 = k) es.
Proof.
  intros Hrel Hst Hix (es' & Hp & Hx) Hk. destruct ix as [x|x].
  - destruct (search_kept (IndexContract0 := hash_contract) E A (pool m) x es' k Hrel Hst Hx Hk) as (tids & P' & Er & Hkept & Ht).
    exists tids, P'. split; [|split; [exact Hkept|by rewrite Ht, Hp]]. by apply (call_kept _ _ ref m (HashIndex x)).
  - destruct (search_kept (IndexContract0 := btree_contract) E A (pool m) x es' k Hrel Hst Hx Hk) as (tids & P' & Er & Hkept & Ht).
    exists tids, P'. split; [|split; [exact Hkept|by rewrite Ht, Hp]]. by apply (call_kept _ _ ref m (BTreeIndex x)).
Qed.

Lemma manager_range_kept E A m ref x es from fi to ti :
  reliable -> store_but E A (pool m) -> objects m !! ref = Some (BTreeIndex x) -> stands E A (BTreeIndex x) es ->
  SearchSpec.bound_key x from -> SearchSpec.bound_key x to ->
  exists tids P', RangeSearch ref from fi to ti m = (Ok tids, with_pages P' m) /\ PageStore.kept root0 (pool m) P' /\
    tids ≡ₚ snd <$> filter (fun e => SearchSpec.over from fi e.1 /\ SearchSpec.under to ti e.1) es.
Proof.
  intros Hrel Hst Hix (es' & Hp & Hx) Hf Ht.
  destruct (range_kept E A (pool m) x es' from fi to ti _ Hrel Hst Hx Hf Ht (pages_enough x)) as (tids & P' & Er & Hkept & Htids).
  exists tids, P'. split; [|split; [exact Hkept|by rewrite Htids, Hp]]. by apply (call_kept _ _ ref m (BTreeIndex x)).
Qed.

(** C26: the manager hands out one object per name, and whatever is inserted
    through one pointer is found through every other.  After a successful
    insertion into an open index of an entry that it admits ([accepts]: the
    conditions of the insertion theorems of the two kinds of index on keys,
    entries and pages), [Get] and [GetOrCreate] return the same
    pointer as before; every search that succeeds, in this or in any other open
    index, hash or BTree, returns exactly the TIDs that were inserted under its
    key, and so it stays. *)
Theorem shared_index E A m c n ref ix k tid m1 :
  holding E A m c -> byName m !! n = Some ref -> objects m !! ref = Some ix -> accepts E A ix (c ref) k tid ->
  Insert ref k tid m = (Ok tt, m1) ->
  Get n m1 = (Ok ref, m1) /\ (forall def, IndexDefinition.name def = n -> GetOrCreate def m1 = (Ok ref, m1)) /\
  let c' := fun r => if decide (r = ref) then (k, tid) :: c r else c r in
  exists E' A', holding E' A' m1 c' /\
    forall ref' ix' k' tids m2, objects m1 !! ref' = Some ix' -> suits ix' k' -> Search ref' k' m1 = (Ok tids, m2) ->
      holding E' A' m2 c' /\ tids ≡ₚ snd <$> filter (fun e => e.1 = k') (c' ref').
Proof.
  intros Hh Hn Href Hacc Hrun. destruct (manager_insert E A m c ref ix k tid m1 Hh Href Hacc Hrun) as (Hby & E' & A' & Hh').
  rewrite <- Hby in Hn. split; [unfold Get; by rewrite Hn|]. split; [intros def Hdef; unfold GetOrCreate; by rewrite Hdef, Hn|].
  exists E', A'. split; [done|]. intros ref' ix' k' tids m2 Href' Hk' Hs. by destruct (manager_search E' A' m1 _ ref' ix' k' tids m2 Hh' Href' Hk' Hs).
Qed.

(** [GetOrCreate] opens an index once.  A known name gives its pointer and
    changes nothing; an unknown index type is refused; when the factory fails
    or panics no index is added; and when it succeeds the new object, whose
    definition is the given one, is behind a new pointer, under its name, and
    all other names and objects are as they were. *)
Theorem GetOrCreate_opens m def :
  let (r, m') := GetOrCreate def m in
  match byName m !! IndexDefinition.name def with
  | Some ref => r = Ok ref /\ m' = m
  | None =>
    match r with
    | Ok ref => ref = length (objects m) /\ Get (IndexDefinition.name def) m' = (Ok ref, m') /\
        (exists ix, objects m' = objects m ++ [ix] /\
           (IndexDefinition.indexType def = IndexTypeHash /\ (exists x, ix = HashIndex x) \/
            IndexDefinition.indexType def = IndexTypeBTree /\ (exists x, ix = BTreeIndex x))) /\
        forall n, n <> IndexDefinition.name def -> (Get n m').1 = (Get n m).1
    | _ => byName m' = byName m /\ objects m' = objects m /\
        (IndexDefinition.indexType def <> IndexTypeHash -> IndexDefinition.indexType def <> IndexTypeBTree -> r = Err ErrNotHashIndex)
    end
  end.
Proof.
  unfold GetOrCreate. destruct (byName m !! IndexDefinition.name def) as [ref|] eqn:Hn; [done|].
  unfold factory. destruct (Z.eqb_spec (IndexDefinition.indexType def) IndexTypeHash) as [Hh|Hh]; [|destruct (Z.eqb_spec (IndexDefinition.indexType def) IndexTypeBTree) as [Hb|Hb]; [|done]];
    unfold on_catalog, sbind.
  1: destruct (DiskHashIndex.NewDiskHashIndex _ _ _) as [[x|e|] cm]; [|by split_and!..].
  2: destruct (DiskBTreeIndex.NewDiskBTreeIndex _ _ _) as [[x|e|] cm]; [|by split_and!..].
  all: cbn; split_and!; [done|unfold Get; cbn; by rewrite lookup_insert_eq|eexists; split; [done|]; (by left; eauto) || (by right; eauto)|].
  all: intros n Hne; unfold Get; cbn; rewrite lookup_insert_ne by done; by destruct (byName m !! n).
Qed.
End contract.

(** A manager with the BTree index that [BTreeSpec] opens. *)
Definition a_manager : IndexManager.t LRUReplacer.t FS := {|
  IndexManager.root := "data";
  catalog := {| DefaultCatalogManager.root := "data"; DefaultCatalogManager.bufferPool := BTreeSpec.an_open.2.1;
                DefaultCatalogManager.cat := DefaultCatalogManager.empty_maps |};
  byName := {["users_id" := 0%nat]}; objects := [BTreeIndex BTreeSpec.an_open.2.2]
|}.

Lemma data_nonempty : "data"%string <> ""%string.
Proof. discriminate. Qed.
Lemma a_manager_name : byName a_manager !! "users_id"%string = Some 0%nat.
Proof. exact (lookup_singleton_eq "users_id"%string 0%nat). Qed.
Lemma a_manager_object : objects a_manager !! 0%nat = Some (BTreeIndex BTreeSpec.an_open.2.2).
Proof. exact eq_refl. Qed.
Lemma a_manager_holding E A : PageStore.store_but "data" E A BTreeSpec.an_open.2.1 -> BTreeProofs.holds E A BTreeSpec.an_open.2.2 [] ->
  holding "data" data_nonempty E A a_manager (fun _ => []).
Proof.
  intros Hst Hh. split.
  - exact Hst.
  - intros [|ref] ix Hix; [|discriminate Hix]. change (Some (BTreeIndex BTreeSpec.an_open.2.2) = Some ix) in Hix.
    assert (Hx : BTreeIndex BTreeSpec.an_open.2.2 = ix) by exact (Some_inj _ _ Hix). subst ix. exists []. split; [constructor|]. exists []. split; [exact Hh|exact eq_refl].
  - intros [|ref] [|ref'] ix ix' Hix Hix' Hne; [destruct (Hne eq_refl)|discriminate Hix'|discriminate Hix|discriminate Hix].
Qed.

Lemma shared_index_witness :
  (Insert 0 BTreeSpec.a_key BTreeSpec.a_tid a_manager).1 = Ok tt /\
  Get "users_id" (Insert 0 BTreeSpec.a_key BTreeSpec.a_tid a_manager).2 = (Ok 0%nat, (Insert 0 BTreeSpec.a_key BTreeSpec.a_tid a_manager).2).
Proof.
  assert (Hok : (Insert 0 BTreeSpec.a_key BTreeSpec.a_tid a_manager).1 = Ok tt) by (vm_compute; reflexivity). split; [exact Hok|].
  destruct (BTreeSpec.tree_open_holds) as (E & A & Hst & Hh).
  destruct (BTreeSpec.tree_small_index _ (proj2 BTreeSpec.tree_open_ok)) as (H1 & H2 & H3 & H4 & H5 & _).
  destruct (Insert 0 BTreeSpec.a_key BTreeSpec.a_tid a_manager) as [r m1] eqn:Er. cbn [fst snd] in *. subst r.
  apply (shared_index (R:=LRUReplacer.t) (D:=FS) "data" data_nonempty E A a_manager (fun _ => []) "users_id" 0
    (BTreeIndex BTreeSpec.an_open.2.2) BTreeSpec.a_key BTreeSpec.a_tid m1).
  - apply a_manager_holding; [exact Hst|exact Hh].
  - exact a_manager_name.
  - exact a_manager_object.
  - intros es' Hes'. split; [exact H1|]. split; [exact H2|]. split; [exact H3|]. split; [|exact H5].
    exists []. split; [exact Hh|]. split; [exact Hes'|exact H4].
  - exact Er.
Defined.
End IndexContract.
