(* ===== verification/Executors.v ===== *)
(** * Executors: the Volcano executors and the execution engine

    Models the packages [execution] and [execution/executors] over any
    [Storage]: an executor object is a constructor with its fields, [Open],
    [Next] and [Close] return the changed object next to the changed storage,
    [CreateExecutor] is [DefaultExecutorFactory], and [Execute] is
    [DefaultQueryExecutionEngine.Execute].

    A row is nil ([None]) at the end of the rows; a read row with no field is
    the nil slice.  [Next] of a filter calls the child until a row satisfies
    the predicate, so it has fuel, and so has the loop of [Execute]; the
    theorems give a fuel that is enough.

    [Execute_select]: over a storage that meets its contract, executing the
    plan of a SELECT returns the rows of the query, in some order. *)

From S2P Require Import Prelude GoRuntime Ast CatalogModel Semantic Eval Planner Optimizer Storage.

Section objects.
Context {W : Type} `{Storage W}.

Inductive Executor : Type :=
  | SeqScanExecutor (heap : TableHeap) (tids : list TID) (cursor : nat) (isOpen : bool)
  | HashIndexScanExecutor (idx : Index) (searchKey : any) (heap : TableHeap)
      (tids : list TID) (cursor : nat) (isOpen : bool)
  | BTreeIndexScanExecutor (idx : Index) (from : any) (fromInclusive : bool) (to : any) (toInclusive : bool)
      (heap : TableHeap) (tids : list TID) (cursor : nat) (isOpen : bool)
  | FilterExecutor (child : Executor) (predicate : ResolvedExpr) (isOpen : bool)
  | ProjectExecutor (child : Executor) (positions : list Z) (isOpen : bool)
  | CreateTableExecutor (tableName : SqlIdent) (columns : list ResolvedCreateColumn) (executed : bool)
  | InsertExecutor (heap : TableHeap) (table : TableDefinition.t) (columns : list ColumnDefinition.t)
      (values : list any) (executed : bool)
  | CreateIndexExecutor (indexName : SqlIdent) (table : TableDefinition.t) (column : ColumnDefinition.t)
      (indexType : IndexType) (executed : bool).

(** A method of an executor: its outcome, the object and the storage after. *)
Definition method (A : Type) : Type := Executor -> W -> outcome A * (Executor * W).

(** The method body is a storage call that sets no field on failure. *)
Definition after {A B} (m : ST W A) (e : Executor) (w : W) (k : A -> outcome B * Executor) :
    outcome B * (Executor * W) :=
  match m w with
  | (Ok a, w') => let (r, e') := k a in (r, (e', w'))
  | (Err er, w') => (Err er, (e, w'))
  | (Panic, w') => (Panic, (e, w'))
  end.
End objects.
Arguments Executor : clear implicits.
Arguments Executor W {_}.

Module Executors.
Section methods.
Context {W : Type} `{Storage W}.
Implicit Types (e child : Executor W) (w : W).

(** ** [Open] *)
Fixpoint Open e (w : W) : outcome unit * (Executor W * W) :=
  match e with
  | SeqScanExecutor heap _ _ _ =>
    after (ScanTids heap) e w (fun tids => (Ok tt, SeqScanExecutor heap tids 0 true))
  | HashIndexScanExecutor idx key heap _ _ _ =>
    after (Search idx key) e w (fun tids => (Ok tt, HashIndexScanExecutor idx key heap tids 0 true))
  | BTreeIndexScanExecutor idx f fi t ti heap _ _ _ =>
    after (RangeSearch idx f fi t ti) e w
      (fun tids => (Ok tt, BTreeIndexScanExecutor idx f fi t ti heap tids 0 true))
  | FilterExecutor child pred isOpen =>
    match Open child w with
    | (Ok _, (child', w')) => (Ok tt, (FilterExecutor child' pred true, w'))
    | (r, (child', w')) => (r, (FilterExecutor child' pred isOpen, w'))
    end
  | ProjectExecutor child positions isOpen =>
    match Open child w with
    | (Ok _, (child', w')) => (Ok tt, (ProjectExecutor child' positions true, w'))
    | (r, (child', w')) => (r, (ProjectExecutor child' positions isOpen, w'))
    end
  | _ => (Ok tt, (e, w))
  end.

(** ** [Close] *)
Fixpoint Close e (w : W) : outcome unit * (Executor W * W) :=
  match e with
  | SeqScanExecutor heap _ cursor _ => (Ok tt, (SeqScanExecutor heap [] cursor false, w))
  | HashIndexScanExecutor idx key heap _ cursor _ =>
    (Ok tt, (HashIndexScanExecutor idx key heap [] cursor false, w))
  | BTreeIndexScanExecutor idx f fi t ti heap _ cursor _ =>
    (Ok tt, (BTreeIndexScanExecutor idx f fi t ti heap [] cursor false, w))
  | FilterExecutor child pred _ =>
    let '(r, (child', w')) := Close child w in (r, (FilterExecutor child' pred false, w'))
  | ProjectExecutor child positions _ =>
    let '(r, (child', w')) := Close child w in (r, (ProjectExecutor child' positions false, w'))
  | _ => (Ok tt, (e, w))
  end.

(** ** The statements that change the storage *)

(** The loop of [CreateTableExecutor.Next]; [i] is the position. *)
Fixpoint column_definitions (i : Z) (cols : list ResolvedCreateColumn) : outcome (list ColumnDefinition.t) :=
  match cols with
  | [] => Ok []
  | c :: cols =>
    let! col := ColumnDefinition.New 0 0 (TypeDefinition.oid (rc_typeDef c)) (ident_text (rc_name c)) (int32 i) in
    let! rest := column_definitions (i + 1) cols in
    Ok (col :: rest)
  end.

Definition create_table (tableName : SqlIdent) (cols : list ResolvedCreateColumn) : ST W unit :=
  columns <- slift (column_definitions 0 cols) ;;
  CreateTable (ident_text tableName) columns ;;;
  sret tt.

(** The first position of a column with the oid, [-1] when there is none. *)
Fixpoint position_of (oid : Z) (i : Z) (cols : list ColumnDefinition.t) : Z :=
  match cols with
  | [] => -1
  | col :: cols => if ColumnDefinition.oid col =? oid then i else position_of oid (i + 1) cols
  end.

(** The loop of [InsertExecutor.Next] over the indexes of the table. *)
Fixpoint insert_into_indexes (columns : list ColumnDefinition.t) (values : list any) (tid : TID)
    (indexes : list IndexDefinition.t) : ST W unit :=
  match indexes with
  | [] => sret tt
  | def :: indexes =>
    idx <- GetOrCreate def ;;
    let colPos := position_of (IndexDefinition.columnOid def) 0 columns in
    if (colPos <? 0) || (Z.of_nat (length values) <=? colPos) then
      sfail (Errorf ("index column position not found for index " +:+ IndexDefinition.name def))
    else
      v <- slift (go_index values colPos) ;;
      IndexInsert idx v tid ;;;
      insert_into_indexes columns values tid indexes
  end.

Definition insert (heap : TableHeap) (table : TableDefinition.t) (columns : list ColumnDefinition.t)
    (values : list any) : ST W unit :=
  tid <- InsertRow heap values ;;
  w <- sget ;;
  indexes <- slift (ListIndexes w table) ;;
  insert_into_indexes columns values tid indexes.

(** The loop of [CreateIndexExecutor.Next] over the rows of the table. *)
Fixpoint fill_index (heap : TableHeap) (idx : Index) (colPos : Z) (tids : list TID) : ST W unit :=
  match tids with
  | [] => sret tt
  | tid :: tids =>
    r <- ReadRow heap tid ;;
    if Z.of_nat (length r) <=? colPos then
      sfail (Errorf ("index column position out of range: pos=" +:+ pretty colPos))
    else
      v <- slift (go_index r colPos) ;;
      IndexInsert idx v tid ;;;
      fill_index heap idx colPos tids
  end.

Definition create_index (indexName : SqlIdent) (table : TableDefinition.t) (column : ColumnDefinition.t)
    (indexType : IndexType) : ST W unit :=
  def <- CreateIndex (ident_text indexName) (TableDefinition.name table) (ColumnDefinition.name column) indexType ;;
  idx <- GetOrCreate def ;;
  heap <- NewTableHeap table ;;
  w <- sget ;;
  columns <- slift (GetColumns w table) ;;
  let colPos := position_of (ColumnDefinition.oid column) 0 columns in
  if colPos <? 0 then
    sfail (Errorf ("index column not found in table: " +:+ ColumnDefinition.name column))
  else
    tids <- ScanTids heap ;;
    fill_index heap idx colPos tids.

(** ** [Next] *)

(** A read row: the nil slice when it has no field. *)
Definition row_or_nil (r : row) : option row := match r with [] => None | _ => Some r end.

Definition next_tid (heap : TableHeap) (tids : list TID) (cursor : nat) (isOpen : bool)
    (set_cursor : nat -> Executor W) e w : outcome (option row) * (Executor W * W) :=
  if negb isOpen then (Err ErrNotOpen, (e, w))
  else
    match tids !! cursor with
    | None => (Ok None, (e, w))
    | Some tid => after (ReadRow heap tid) (set_cursor (S cursor)) w
                    (fun r => (Ok (row_or_nil r), set_cursor (S cursor)))
    end.

(** The fields of the row at the positions. *)
Fixpoint project_row (r : row) (positions : list Z) : outcome row :=
  match positions with
  | [] => Ok []
  | pos :: positions =>
    let! v := go_index r pos in
    let! out := project_row r positions in
    Ok (v :: out)
  end.

(** A statement that runs once. *)
Definition once (executed : bool) (m : ST W unit) (done : Executor W) e w :
    outcome (option row) * (Executor W * W) :=
  if executed then (Ok None, (e, w)) else after m done w (fun _ => (Ok None, done)).

Fixpoint Next (fuel : nat) e w {struct fuel} : outcome (option row) * (Executor W * W) :=
  match fuel with
  | O => (Panic, (e, w))
  | S fuel =>
    match e with
    | SeqScanExecutor heap tids cursor isOpen =>
      next_tid heap tids cursor isOpen (fun c => SeqScanExecutor heap tids c isOpen) e w
    | HashIndexScanExecutor idx key heap tids cursor isOpen =>
      next_tid heap tids cursor isOpen (fun c => HashIndexScanExecutor idx key heap tids c isOpen) e w
    | BTreeIndexScanExecutor idx f fi t ti heap tids cursor isOpen =>
      next_tid heap tids cursor isOpen (fun c => BTreeIndexScanExecutor idx f fi t ti heap tids c isOpen) e w
    | FilterExecutor child pred isOpen =>
      if negb isOpen then (Err ErrNotOpen, (e, w))
      else
        match Next fuel child w with
        | (Ok (Some r), (child', w')) =>
          match FilterEval.evalBool pred r with
          | Ok true => (Ok (Some r), (FilterExecutor child' pred isOpen, w'))
          | Ok false => Next fuel (FilterExecutor child' pred isOpen) w'
          | Err er => (Err er, (FilterExecutor child' pred isOpen, w'))
          | Panic => (Panic, (FilterExecutor child' pred isOpen, w'))
          end
        | (res, (child', w')) => (res, (FilterExecutor child' pred isOpen, w'))
        end
    | ProjectExecutor child positions isOpen =>
      if negb isOpen then (Err ErrNotOpen, (e, w))
      else
        match Next fuel child w with
        | (Ok (Some r), (child', w')) =>
          (ofmap Some (project_row r positions), (ProjectExecutor child' positions isOpen, w'))
        | (res, (child', w')) => (res, (ProjectExecutor child' positions isOpen, w'))
        end
    | CreateTableExecutor tn cols executed =>
      once executed (create_table tn cols) (CreateTableExecutor tn cols true) e w
    | InsertExecutor heap table cols vals executed =>
      once executed (insert heap table cols vals) (InsertExecutor heap table cols vals true) e w
    | CreateIndexExecutor name table col ty executed =>
      once executed (create_index name table col ty) (CreateIndexExecutor name table col ty true) e w
    end
  end.

(** ** [DefaultQueryExecutionEngine.Execute] *)

(** The loop: the rows until a nil row. *)
Fixpoint drain (fuel : nat) e w {struct fuel} : outcome (list row) * (Executor W * W) :=
  match fuel with
  | O => (Panic, (e, w))
  | S n =>
    match Next fuel e w with
    | (Ok None, (e', w')) => (Ok [], (e', w'))
    | (Ok (Some r), (e', w')) =>
      match drain n e' w' with
      | (Ok rows, s) => (Ok (r :: rows), s)
      | (res, s) => (res, s)
      end
    | (Err er, s) => (Err er, s)
    | (Panic, s) => (Panic, s)
    end
  end.

(** [defer executor.Close()]: it runs when [Open] succeeded, and its error is
    dropped. *)
Definition Execute (fuel : nat) e w : outcome (list row) * W :=
  match Open e w with
  | (Ok _, (e', w')) =>
    let '(res, (e2, w2)) := drain fuel e' w' in
    let '(_, (_, w3)) := Close e2 w2 in
    (res, w3)
  | (Err er, (_, w')) => (Err er, w')
  | (Panic, (_, w')) => (Panic, w')
  end.

(** ** [DefaultExecutorFactory] *)
Definition NewProjectExecutor child (cols : list ColumnDefinition.t) : Executor W :=
  ProjectExecutor child (map ColumnDefinition.position cols) false.

Fixpoint CreateExecutor (plan : PhysicalPlanNode) : ST W (Executor W) :=
  match plan with
  | PExplainNode inner => CreateExecutor inner
  | PCreateTableNode tn cols => sret (CreateTableExecutor tn cols false)
  | PCreateIndexNode name table col ty => sret (CreateIndexExecutor name table col ty false)
  | PInsertNode table cols vals =>
    heap <- NewTableHeap table ;;
    sret (InsertExecutor heap table cols vals false)
  | PProjectNode child cols =>
    c <- CreateExecutor child ;;
    sret (NewProjectExecutor c cols)
  | PFilterNode child pred =>
    c <- CreateExecutor child ;;
    sret (FilterExecutor c pred false)
  | SeqScanNode table =>
    heap <- NewTableHeap table ;;
    sret (SeqScanExecutor heap [] 0 false)
  | HashIndexScanNode table index v =>
    heap <- NewTableHeap table ;;
    idx <- GetOrCreate index ;;
    sret (HashIndexScanExecutor idx v heap [] 0 false)
  | BTreeIndexScanNode table index f fi t ti =>
    heap <- NewTableHeap table ;;
    idx <- GetOrCreate index ;;
    sret (BTreeIndexScanExecutor idx f fi t ti heap [] 0 false)
  end.

End methods.
End Executors.

(** ** The rows an executor is about to return *)
Module ExecutorSpec.
Import Executors PhysicalSpec.

Section spec.
Context {W : Type} `{SS : Storage W, SL : !StorageLaws W}.
Implicit Types (e child : Executor W) (w : W) (p : PhysicalPlanNode).

Definition rows_of w (t : TableDefinition.t) : list row := snd <$> contents w t.

(** The TIDs left of a scan, and their rows. *)
Definition scan_rows (heap : TableHeap) (tids : list TID) w (rows : list row) : Prop :=
  exists t, sound w t /\ heap_for w heap t /\ Forall2 (fun tid r => (tid, r) ∈ contents w t) tids rows.

(** [produces e w rows]: the calls of [Next] on the open executor return
    [rows], then nil. *)
Fixpoint produces e w (rows : list row) : Prop :=
  match e with
  | SeqScanExecutor heap tids cursor isOpen
  | HashIndexScanExecutor _ _ heap tids cursor isOpen
  | BTreeIndexScanExecutor _ _ _ _ _ heap tids cursor isOpen =>
    isOpen = true /\ scan_rows heap (drop cursor tids) w rows
  | FilterExecutor child pred isOpen =>
    isOpen = true /\ exists l, produces child w l /\
      (forall r, r ∈ l -> exists b, FilterEval.evalBool pred r = Ok b) /\ rows = filter (satisfies pred) l
  | ProjectExecutor child positions isOpen =>
    isOpen = true /\ exists l, produces child w l /\
      Forall2 (fun r out => project_row r positions = Ok out) l rows
  | _ => False
  end.

(** The number of executors above the scan, which [Next] keeps. *)
Fixpoint depth e : nat :=
  match e with FilterExecutor child _ _ | ProjectExecutor child _ _ => S (depth child) | _ => 0 end.

(** What a call of [Next] may return when the executor produces [rows]. *)
Definition next_spec e w (rows : list row) (res : outcome (option row) * (Executor W * W)) : Prop :=
  same w res.2.2 /\ depth res.2.1 = depth e /\
  match res.1 with
  | Ok None => rows = []
  | Ok (Some r) => exists rest, rows = r :: rest /\ produces res.2.1 res.2.2 rest
  | Err _ => faulty
  | Panic => False
  end.

Lemma same_scan_rows w w' heap tids rows : same w w' -> scan_rows heap tids w rows -> scan_rows heap tids w' rows.
Proof.
  intros Hs (t & Hso & Hh & Hf). exists t. split; [by eapply same_sound|]. split; [by eapply same_heap|].
  by rewrite (same_contents w w').
Qed.

Lemma next_tid_spec heap tids cursor (mk : nat -> Executor W) w rows :
  (forall c, depth (mk c) = 0%nat) ->
  (forall w' rest, produces (mk (S cursor)) w' rest <-> scan_rows heap (drop (S cursor) tids) w' rest) ->
  scan_rows heap (drop cursor tids) w rows ->
  next_spec (mk cursor) w rows (next_tid heap tids cursor true mk (mk cursor) w).
Proof.
  intros Hd Hmk (t & Hso & Hh & Hs). unfold next_tid, next_spec. cbn [negb]. destruct (tids !! cursor) as [tid|] eqn:E.
  - rewrite (drop_S _ _ _ E) in Hs. inversion Hs as [|? r ? rest Hin Hrest]; subst.
    pose proof (row_reads w heap t tid r Hso Hh Hin) as [Hsame Hr]. pose proof (rows_nonempty w _ _ _ Hso Hin) as Hne.
    unfold after. destruct (ReadRow heap tid w) as [[r'|er|] w'] eqn:Er; cbn in *; [subst r'| |done];
      rewrite !Hd; (split; [done|]); (split; [done|]); [|done].
    destruct r as [|v r]; [done|]. exists rest. split; [done|]. apply Hmk. eapply same_scan_rows; [done|]. by exists t.
  - apply lookup_ge_None in E. rewrite drop_ge in Hs by done. inversion Hs; subst.
    split; [reflexivity|]. done.
Qed.

(** [steps d]: calling an executor of depth [d] has a result, for all fuel
    from some bound on. *)
Definition steps (d : nat) : Prop :=
  forall e w rows, depth e = d -> produces e w rows ->
    exists n0 res, (forall n, (n0 <= n)%nat -> Next n e w = res) /\ next_spec e w rows res.

Lemma steps_filter d pred : steps d -> forall l child w,
  depth child = d -> produces child w l -> (forall r, r ∈ l -> exists b, FilterEval.evalBool pred r = Ok b) ->
  exists n0 res, (forall n, (n0 <= n)%nat -> Next n (FilterExecutor child pred true) w = res) /\
    next_spec (FilterExecutor child pred true) w (filter (satisfies pred) l) res.
Proof.
  intros IH l. induction l as [|r0 l IHl]; intros child w Hd Hp Hev;
    destruct (IH child w _ Hd Hp) as (n0 & [[[r|]|er|] [c' w']] & Hn & Hs & Hd' & Hr); cbn in Hs, Hd', Hr;
    try done; try (destruct Hr as (rest & [= -> ->] & Hrest)).
  1: exists (S n0), (Ok None, (FilterExecutor c' pred true, w')).
  2,4: exists (S n0), (Err er, (FilterExecutor c' pred true, w')).
  1-3: (split; [intros [|n] Hle; [lia|]; cbn; by rewrite Hn by lia|]);
    (split; [done|]); (split; [cbn; by rewrite Hd'|done]).
  destruct (Hev r) as [b Eb]; [set_solver|]. destruct b.
  - exists (S n0), (Ok (Some r), (FilterExecutor c' pred true, w')). split.
    + intros [|n] Hle; [lia|]. cbn. by rewrite Hn, Eb by lia.
    + rewrite filter_cons_True by exact Eb. split; [done|]. split; [cbn; by rewrite Hd'|].
      exists (filter (satisfies pred) rest). split; [done|]. split; [done|]. exists rest. split; [done|].
      split; [|done]. intros r' Hr'. apply Hev. set_solver.
  - destruct (IHl c' w') as (n1 & res & Hn1 & Hs1 & Hd1 & Hr1); [congruence|done|set_solver|].
    exists (S (n0 + n1)), res. split.
    + intros [|n] Hle; [lia|]. cbn. rewrite Hn, Eb by lia. apply Hn1. lia.
    + rewrite filter_cons_False by (unfold satisfies; by rewrite Eb).
      split; [by etransitivity|]. split; [rewrite Hd1; cbn; by rewrite Hd'|done].
Qed.

Lemma steps_project d ps : steps d -> forall l rows child w,
  depth child = d -> produces child w l -> Forall2 (fun r out => project_row r ps = Ok out) l rows ->
  exists n0 res, (forall n, (n0 <= n)%nat -> Next n (ProjectExecutor child ps true) w = res) /\
    next_spec (ProjectExecutor child ps true) w rows res.
Proof.
  intros IH l rows child w Hd Hp HF. destruct (IH child w _ Hd Hp) as (n0 & [r [c' w']] & Hn & Hs & Hd' & Hr).
  cbn in Hs, Hd', Hr. exists (S n0). eexists. split.
  { intros [|n] Hle; [lia|]. cbn. rewrite Hn by lia. reflexivity. }
  destruct r as [[r|]|er|]; try done.
  - destruct Hr as (rest & -> & Hrest). inversion HF as [|? out ? rows' Hout HF']; subst. rewrite Hout. cbn.
    split; [done|]. split; [cbn; by rewrite Hd'|]. exists rows'. split; [done|]. split; [done|]. by exists rest.
  - subst l. inversion HF; subst. split; [done|]. split; [cbn; by rewrite Hd'|done].
  - split; [done|]. split; [cbn; by rewrite Hd'|done].
Qed.

Lemma Next_produces d : steps d.
Proof.
  induction d as [|d IH]; intros e w rows Hd Hp.
  - destruct e; cbn in Hd, Hp; try discriminate Hd; try done.
    all: destruct Hp as [-> Hs]; exists 1%nat; eexists; (split; [intros [|n] Hn; [lia|cbn [Next]; reflexivity]|]).
    + apply (next_tid_spec heap tids cursor (fun c => SeqScanExecutor heap tids c true)); [done|cbn; tauto|done].
    + apply (next_tid_spec heap tids cursor (fun c => HashIndexScanExecutor idx searchKey heap tids c true));
        [done|cbn; tauto|done].
    + apply (next_tid_spec heap tids cursor
        (fun c => BTreeIndexScanExecutor idx from fromInclusive to toInclusive heap tids c true));
        [done|cbn; tauto|done].
  - destruct e; cbn in Hd, Hp; try discriminate Hd; injection Hd as Hd; destruct Hp as (-> & l & Hp & Hl).
    + destruct Hl as [Hev ->]. by apply (steps_filter d).
    + by apply (steps_project d positions IH l).
Qed.

Lemma Close_keeps e w : exists e', Close e w = (Ok tt, (e', w)).
Proof.
  induction e as [| | |child [c' IH] pred o|child [c' IH] ps o| | |]; cbn; try by eexists.
  all: rewrite IH; by eexists.
Qed.

(** What a run may return when its rows are [rows], up to their order. *)
Definition run_spec w (rows : list row) (res : outcome (list row)) (w' : W) : Prop :=
  same w w' /\ match res with Ok l => l ≡ₚ rows | Err _ => faulty | Panic => False end.

Lemma drain_produces rows : forall e w, produces e w rows ->
  exists n0 res, (forall n, (n0 <= n)%nat -> drain n e w = res) /\ run_spec w rows res.1 res.2.2.
Proof.
  induction rows as [|r0 rows IH]; intros e w Hp;
    destruct (Next_produces _ e w _ eq_refl Hp) as (n0 & [[[r|]|er|] [e' w']] & Hn & Hs & _ & Hr); cbn in Hs, Hr;
    try done; try (destruct Hr as (rest & [= -> ->] & Hrest)).
  1: exists (S n0), (Ok [], (e', w')).
  2,4: exists (S n0), (Err er, (e', w')).
  1-3: (split; [intros [|n] Hle; [lia|]; cbn [drain]; by rewrite Hn by lia|split; cbn; auto]).
  destruct (IH e' w' Hrest) as (n1 & [res s] & Hn1 & Hs1 & Hr1).
  exists (S (n0 + n1)). eexists. split.
  { intros [|n] Hle; [lia|]. cbn [drain]. rewrite Hn by lia. rewrite (Hn1 n) by lia. reflexivity. }
  cbn in Hs1, Hr1. destruct res as [l|er|]; (split; [by etransitivity|]); try done. cbn. by rewrite Hr1.
Qed.

(** A plan can be run when the tables it scans are held well. *)
Definition runnable w p : Prop := plan_ok w (rows_of w) p /\ Forall (sound w) (plan_tables p).

(** *** Reading calls keep what a plan needs *)
Definition makes {A} (m : ST W A) w (Q : W -> A -> Prop) : Prop :=
  same w (m w).2 /\ match (m w).1 with Ok a => Q (m w).2 a | Err _ => faulty | Panic => False end.

Lemma makes_bind {A B} (m : ST W A) (k : A -> ST W B) w (P : W -> A -> Prop) (Q : W -> B -> Prop) :
  makes m w P -> (forall a w', same w w' -> P w' a -> makes (k a) w' Q) -> makes (sbind m k) w Q.
Proof.
  unfold makes, sbind. intros [Hs Hm] Hk. destruct (m w) as [[a|er|] w']; cbn in *; [|done|done].
  destruct (Hk a w' Hs Hm) as [Hs' Hk']. split; [by etransitivity|done].
Qed.

Lemma makes_ret {A} (a : A) w (Q : W -> A -> Prop) : Q w a -> makes (sret a) w Q.
Proof. split; [reflexivity|done]. Qed.

Lemma makes_heap w t : sound w t -> makes (NewTableHeap t) w (fun w' h => heap_for w' h t).
Proof.
  intros Hso. pose proof (heap_reads w t Hso) as [Hs Hh]. split; [done|].
  destruct (NewTableHeap t w).1; [by eapply same_heap|done..].
Qed.

Section kept.
Context (w w' : W) (Hs : same w w').

Lemma kept_rows t : sound w t -> rows_of w' t = rows_of w t.
Proof using Hs. intros Ht. unfold rows_of. by rewrite (same_contents w w'). Qed.

Lemma kept_indexed t ix r : indexed_value w' t ix r = indexed_value w t ix r.
Proof using Hs. unfold indexed_value. by rewrite (same_GetColumns w w'). Qed.

Lemma kept_listed t ix kt : index_listed w t ix kt -> index_listed w' t ix kt.
Proof using Hs. unfold index_listed. by rewrite (same_ListIndexes w w'). Qed.

Lemma kept_key_type t ix ty : key_type w t ix ty -> key_type w' t ix ty.
Proof using Hs.
  intros (n & col & [Hc (td & Ht & E)] & Ho). exists n, col. split; [|done]. split.
  - by rewrite (same_GetColumn w w').
  - exists td. by rewrite (same_GetTypeByOid w w').
Qed.

Lemma kept_prows p : Forall (sound w) (plan_tables p) -> prows w' (rows_of w') p = prows w (rows_of w) p.
Proof using Hs.
  induction p as [| | |t|t ix v|t ix f fi u ui|child IH pred|child IH cols|]; cbn; try done; intros Hso;
    rewrite ?Forall_singleton in Hso; rewrite ?kept_rows, ?IH by done; try done; apply list_filter_iff; intros r;
    unfold has_key, key_between; by rewrite kept_indexed.
Qed.

Lemma kept_runnable p : runnable w p -> runnable w' p.
Proof using Hs.
  intros [Hp Hso]. split; [|eapply Forall_impl; [exact Hso|]; intros t; by apply same_sound].
  induction p as [| | |t|t ix v|t ix f fi u ui|child IH pred|child IH cols|]; cbn in *; try done.
  - destruct Hp as [Hl (ty & Hk & Hv)]. split; [by apply kept_listed|]. exists ty. split; [by apply kept_key_type|done].
  - destruct Hp as [Hl (ty & Hk & Hv)]. split; [by apply kept_listed|]. exists ty. split; [by apply kept_key_type|done].
  - rewrite kept_prows by done. naive_solver.
  - rewrite kept_prows by done. naive_solver.
Qed.
End kept.

(** ** From a plan to an executor *)

(** The executor [CreateExecutor] builds for a plan. *)
Fixpoint executor_for w p e : Prop :=
  match p with
  | SeqScanNode t => exists h, e = SeqScanExecutor h [] 0 false /\ heap_for w h t
  | HashIndexScanNode t index v => exists h ix, e = HashIndexScanExecutor ix v h [] 0 false /\
      heap_for w h t /\ index_for w ix index
  | BTreeIndexScanNode t index f fi u ui => exists h ix, e = BTreeIndexScanExecutor ix f fi u ui h [] 0 false /\
      heap_for w h t /\ index_for w ix index
  | PFilterNode child pred => exists c, e = FilterExecutor c pred false /\ executor_for w child c
  | PProjectNode child cols => exists c, e = NewProjectExecutor c cols /\ executor_for w child c
  | _ => False
  end.

Lemma kept_executor w w' p : same w w' -> forall e, executor_for w p e -> executor_for w' p e.
Proof.
  intros Hs. induction p as [| | |t|t ix v|t ix f fi u ui|child IH pred|child IH cols|]; intros e; cbn; try done.
  - intros (h & -> & Hh). exists h. split; [done|by eapply same_heap].
  - intros (h & i & -> & Hh & Hi). exists h, i. split; [done|]. split; [by eapply same_heap|by eapply same_index].
  - intros (h & i & -> & Hh & Hi). exists h, i. split; [done|]. split; [by eapply same_heap|by eapply same_index].
  - intros (c & -> & Hc). exists c. auto.
  - intros (c & -> & Hc). exists c. auto.
Qed.

(** The two handles of an index scan. *)
Lemma makes_scan w t ix kt ty (mk : TableHeap -> Index -> Executor W) (Q : W -> Executor W -> Prop) :
  sound w t -> index_listed w t ix kt -> key_type w t ix ty ->
  (forall h i w', heap_for w' h t -> index_for w' i ix -> Q w' (mk h i)) ->
  makes (h <- NewTableHeap t ;; i <- GetOrCreate ix ;; sret (mk h i)) w Q.
Proof.
  intros Hso Hl Hk HQ. eapply makes_bind; [by apply makes_heap|]. intros h w1 Hs1 Hh.
  destruct (index_reads w1 t ix kt ty) as [Hs2 Hi]; [by eapply same_sound|by eapply kept_listed|by eapply kept_key_type|].
  apply (makes_bind _ _ _ (fun w2 i => heap_for w2 h t /\ index_for w2 i ix)).
  - split; [done|]. destruct (GetOrCreate ix w1).1; [|done..]. split; [by eapply same_heap|by eapply same_index].
  - intros i w2 _ [Hh2 Hi2]. apply makes_ret, HQ; done.
Qed.

Lemma CreateExecutor_ok p : forall w, runnable w p -> makes (CreateExecutor p) w (fun w' e => executor_for w' p e).
Proof.
  induction p as [| | |t|t ix v|t ix f fi u ui|child IH pred|child IH cols|]; intros w [Hp Hso]; cbn in Hp, Hso; try done;
    rewrite ?Forall_singleton in Hso; cbn [CreateExecutor].
  - eapply makes_bind; [by apply makes_heap|]. intros h w1 _ Hh. apply makes_ret. by exists h.
  - destruct Hp as [Hl (ty & Hk & _)]. eapply makes_scan; [done..|]. intros h i w' Hh Hi. by exists h, i.
  - destruct Hp as [Hl (ty & Hk & _)]. eapply makes_scan; [done..|]. intros h i w' Hh Hi. by exists h, i.
  - eapply makes_bind; [apply IH; by destruct Hp|]. intros c w1 _ Hc. apply makes_ret. by exists c.
  - eapply makes_bind; [apply IH; by destruct Hp|]. intros c w1 _ Hc. apply makes_ret. by exists c.
Qed.

(** What [Open] may do to an executor of a plan. *)
Definition open_spec w (rows : list row) (res : outcome unit * (Executor W * W)) : Prop :=
  same w res.2.2 /\
  match res.1 with
  | Ok _ => exists l, l ≡ₚ rows /\ produces res.2.1 res.2.2 l
  | Err _ => faulty
  | Panic => False
  end.

(** The TIDs of an index search are those of rows of the table. *)
Lemma found_rows w h t (P : row -> Prop) `{!forall r, Decision (P r)} tids :
  sound w t -> heap_for w h t -> tids ≡ₚ fst <$> filter (fun en => P en.2) (contents w t) ->
  exists rows, rows ≡ₚ filter P (rows_of w t) /\ scan_rows h tids w rows.
Proof.
  intros Hso Hh Hperm. apply Permutation_map_inv in Hperm as (l & -> & Hl). exists (snd <$> l). split.
  - unfold rows_of. rewrite <- (fmap_filter (fun en : TID * row => P en.2) snd P) by done. by rewrite Hl.
  - exists t. split; [done|]. split; [done|]. assert (Hin : forall en, en ∈ l -> en ∈ contents w t).
    { intros e He. rewrite <- Hl in He. by apply list_elem_of_filter in He as [_ He]. }
    clear Hl. induction l as [|[tid r] l IH]; cbn; constructor; [apply Hin; set_solver|apply IH; set_solver].
Qed.

Lemma after_open w (m : ST W (list TID)) e (mk : list TID -> Executor W) h rows (Q : list TID -> Prop) :
  reads same faulty m w Q ->
  (forall tids, Q tids -> exists l, l ≡ₚ rows /\ scan_rows h tids w l) ->
  (forall tids w' l, produces (mk tids) w' l <-> scan_rows h tids w' l) ->
  open_spec w rows (after m e w (fun tids => (Ok tt, mk tids))).
Proof.
  intros [Hs Hm] HQ Hmk. unfold after, open_spec. destruct (m w) as [[tids|er|] w']; cbn in *; [|done|done].
  split; [done|]. destruct (HQ tids Hm) as (l & Hl & Hsc). exists l. split; [done|]. apply Hmk.
  by eapply same_scan_rows.
Qed.

(** Projection by position is projection by column. *)
Lemma project_row_columns cols (r : row) :
  (forall col, col ∈ cols -> 0 <= ColumnDefinition.position col /\
     is_Some (r !! Z.to_nat (ColumnDefinition.position col))) ->
  project_row r (map ColumnDefinition.position cols) = Ok (project cols r).
Proof.
  induction cols as [|col cols IH]; intros Hc; [done|]. cbn. destruct (Hc col) as [Hp [v Hv]]; [set_solver|].
  unfold go_index. rewrite decide_True by done. rewrite Hv. cbn. rewrite IH by set_solver. done.
Qed.

Lemma Open_ok p : forall w e,
  runnable w p -> executor_for w p e -> open_spec w (prows w (rows_of w) p) (Open e w).
Proof.
  induction p as [| | |t|t ix v|t ix f fi u ui|child IH pred|child IH cols|]; intros w e [Hp Hso] He; try done; cbn in He, Hso;
    rewrite ?Forall_singleton in Hso.
  - destruct He as (h & -> & Hh). cbn [Open prows]. eapply (after_open w _ _ _ h _ _ (scan_reads w h t Hso Hh)); [|by cbn; tauto].
    intros tids ->. exists (rows_of w t). split; [done|]. exists t. split; [done|]. split; [done|]. unfold rows_of.
    apply Forall2_fmap_l, Forall2_fmap_r, Forall_Forall2_diag, Forall_forall. by intros [tid r].
  - destruct He as (h & i & -> & Hh & Hi). destruct Hp as [Hl (ty & Hk & Hv)]. cbn [Open prows].
    eapply (after_open w _ _ _ h _ _ (search_reads w t i ix v ty Hso Hi Hl Hk Hv)); [|by cbn; tauto].
    intros tids. by apply found_rows.
  - destruct He as (h & i & -> & Hh & Hi). destruct Hp as [Hl (ty & Hk & Hf & Hu)]. cbn [Open prows].
    eapply (after_open w _ _ _ h _ _ (range_reads w t i ix f fi u ui ty Hso Hi Hl Hk Hf Hu)); [|by cbn; tauto].
    intros tids. by apply found_rows.
  - destruct He as (c & -> & Hc). destruct Hp as [Hp Hev]. pose proof (IH w c (conj Hp Hso) Hc) as [Hs Hr]. cbn [Open].
    destruct (Open c w) as [[u|er|] [c' w']]; cbn in Hs, Hr; try done.
    destruct Hr as (l & Hl & Hpr). split; [done|]. exists (filter (satisfies pred) l). cbn. split; [by rewrite Hl|].
    split; [done|]. exists l. split; [done|]. split; [|done]. intros r Hr. apply Hev. by rewrite <- Hl.
  - destruct He as (c & -> & Hc). destruct Hp as [Hp Hcol]. pose proof (IH w c (conj Hp Hso) Hc) as [Hs Hr]. cbn [Open NewProjectExecutor].
    destruct (Open c w) as [[u|er|] [c' w']]; cbn in Hs, Hr; try done.
    destruct Hr as (l & Hl & Hpr). split; [done|]. exists (project cols <$> l). cbn. split; [by rewrite Hl|].
    split; [done|]. exists l. split; [done|]. apply Forall2_fmap_r, Forall_Forall2_diag, Forall_forall.
    intros r Hr. apply project_row_columns. intros col Hin. apply Hcol; [by rewrite <- Hl|done].
Qed.

(** Creating the executor of a plan and running it, as [SqlService] does. *)
Definition run_plan (fuel : nat) p : ST W (list row) := e <- CreateExecutor p ;; Execute fuel e.

Lemma run_plan_ok w p :
  runnable w p ->
  exists n0 res, (forall n, (n0 <= n)%nat -> run_plan n p w = res) /\
    run_spec w (prows w (rows_of w) p) res.1 res.2.
Proof.
  intros Hp. pose proof (CreateExecutor_ok p w Hp) as [Hs Hc]. unfold run_plan, sbind.
  destruct (CreateExecutor p w) as [[e|er|] w1]; cbn in Hs, Hc; [|by exists 0%nat; eexists|done].
  pose proof (Open_ok p w1 e (kept_runnable w w1 Hs p Hp) Hc) as [Hs1 Ho]. unfold Execute.
  destruct (Open e w1) as [[u|er|] [e' w2]]; cbn in Hs1, Ho; [| |done].
  - destruct Ho as (l & Hl & Hpr). destruct (drain_produces l e' w2 Hpr) as (n0 & [res [e2 w3]] & Hn & Hs2 & Hr).
    cbn in Hs2, Hr. destruct (Close_keeps e2 w3) as [e3 Hcl]. exists n0, (res, w3). split.
    { intros n Hle. by rewrite (Hn n Hle), Hcl. }
    split; [by repeat (etransitivity; [eassumption|])|]. cbn. destruct res; try done.
    rewrite Hr, Hl. by rewrite (kept_prows w w1 Hs) by apply Hp.
  - exists 0%nat. eexists. split; [done|]. split; [by etransitivity|done].
Qed.

(** ** The properties *)

(** C6: over a storage that meets its contract, the executor of a plan the
    optimizer may build over sound tables terminates, leaves the contents of the
    tables as they were, never panics, and returns the rows of the plan, each exactly once,
    in some order; an error is an error of a faulty storage. *)
Theorem Execute_plan w p :
  runnable w p ->
  exists n0 res w', (forall n, (n0 <= n)%nat -> run_plan n p w = (res, w')) /\ same w w' /\
    match res with Ok l => l ≡ₚ prows w (rows_of w) p | Err _ => faulty | Panic => False end.
Proof. intros Hp. destruct (run_plan_ok w p Hp) as (n0 & [res w'] & Hn & Hr). by exists n0, res, w'. Qed.

(** The executors of queries, and the statement of the others. *)
Definition is_query e : Prop :=
  match e with
  | CreateTableExecutor _ _ _ | InsertExecutor _ _ _ _ _ | CreateIndexExecutor _ _ _ _ _ => False
  | _ => True
  end.

Definition closed e : Prop :=
  match e with
  | SeqScanExecutor _ _ _ o | HashIndexScanExecutor _ _ _ _ _ o | BTreeIndexScanExecutor _ _ _ _ _ _ _ _ o
  | FilterExecutor _ _ o | ProjectExecutor _ _ o => o = false
  | _ => False
  end.

(** An executor of a query is closed when it is created and after [Close];
    calling [Next] on a closed one is refused with [ErrNotOpen] and changes
    nothing, whatever the storage. *)
Theorem Next_not_open e w n :
  (is_query e -> closed (Close e w).2.1) /\
  (closed e -> Next (S n) e w = (Err ErrNotOpen, (e, w))).
Proof.
  split.
  - destruct e as [| | |child pred o|child ps o| | |]; cbn; try done;
      by destruct (Close child w) as [r [c w']].
  - intros Hc. destruct e; cbn in Hc; subst; done.
Qed.

Definition statement_of e : option (ST W unit) :=
  match e with
  | CreateTableExecutor tn cols false => Some (create_table tn cols)
  | InsertExecutor heap table cols vals false => Some (insert heap table cols vals)
  | CreateIndexExecutor name table col ty false => Some (create_index name table col ty)
  | _ => None
  end.

(** Executing a statement that changes the storage runs it exactly once,
    returns no row, and reports its error. *)
Theorem Execute_statement e m w n :
  statement_of e = Some m ->
  Execute (S n) e w =
    match m w with (Ok _, w') => (Ok [], w') | (Err er, w') => (Err er, w') | (Panic, w') => (Panic, w') end.
Proof.
  intros E. destruct e as [| | | | |tn cols [|]|h t cols vals [|]|name t col ty [|]]; try discriminate E;
    injection E as <-; unfold Execute; cbn [Open drain Next]; unfold once, after;
    match goal with |- _ = match ?x with _ => _ end => destruct x as [[u|er|] w'] end; done.
Qed.
End spec.
End ExecutorSpec.

(** A storage of three users, over the sample catalog. *)
Definition sample_store : ListStore.t :=
  {| ListStore.cat := ListCatalog.sample;
     ListStore.data := [(ListCatalog.users, PhysicalSpec.sample_rows ListCatalog.users)] |}.

(** [SELECT * FROM users WHERE name = "b"] through the hash index. *)
Definition sample_plan : PhysicalPlanNode :=
  PProjectNode (HashIndexScanNode ListCatalog.users
    (ListCatalog.index "ix_name" 2 ListCatalog.name IndexTypeHash) (AString "b"))
    [ListCatalog.id; ListCatalog.name].

Lemma sample_plan_ok :
  PhysicalSpec.plan_ok sample_store (ExecutorSpec.rows_of sample_store) sample_plan.
Proof.
  split.
  - split; [eexists; split; [reflexivity|]; split; [vm_compute; set_solver|reflexivity]|].
    exists ExprTypeVarchar. split; [|done]. exists "name", ListCatalog.name.
    split; [|done]. split; [reflexivity|]. by exists ListCatalog.varchar.
  - intros r col Hr Hcol.
    assert (Hin : r ∈ [[AInt64 2; AString "b"]; [AInt64 3; AString "b"]]) by exact Hr.
    apply elem_of_cons in Hin as [->|Hin]; [|apply list_elem_of_singleton in Hin as ->];
      (apply elem_of_cons in Hcol as [->|Hcol]; [|apply list_elem_of_singleton in Hcol as ->]);
      (split; [done|by eexists]).
Qed.

Lemma Execute_plan_witness :
  exists n0 res w', (forall n, (n0 <= n)%nat -> ExecutorSpec.run_plan n sample_plan sample_store = (res, w')) /\
    same sample_store w' /\
    match res with
    | Ok l => l ≡ₚ PhysicalSpec.prows sample_store (ExecutorSpec.rows_of sample_store) sample_plan
    | Err _ => faulty
    | Panic => False
    end.
Proof.
  refine (ExecutorSpec.Execute_plan (W:=ListStore.t) sample_store sample_plan (conj sample_plan_ok _)).
  constructor; [exact I|constructor].
Defined.

Lemma Next_not_open_witness :
  Executors.Next 1 (FilterExecutor (SeqScanExecutor ListCatalog.users [] 0 false) (ResolvedConst (ABool true) ExprTypeBool) false)
    sample_store =
  (Err ErrNotOpen,
   (FilterExecutor (SeqScanExecutor ListCatalog.users [] 0 false) (ResolvedConst (ABool true) ExprTypeBool) false,
    sample_store)).
Proof. apply (ExecutorSpec.Next_not_open (W:=ListStore.t) _ sample_store 0). reflexivity. Defined.

Lemma Execute_statement_witness :
  Executors.Execute 1 (InsertExecutor (ListCatalog.users : TableHeap) ListCatalog.users
      [ListCatalog.id; ListCatalog.name] [AInt64 4; AString "d"] false) sample_store =
    match Executors.insert (ListCatalog.users : TableHeap) ListCatalog.users
      [ListCatalog.id; ListCatalog.name] [AInt64 4; AString "d"] sample_store with
    | (Ok _, w') => (Ok [], w') | (Err er, w') => (Err er, w') | (Panic, w') => (Panic, w') end.
Proof. apply (ExecutorSpec.Execute_statement (W:=ListStore.t) _ _ sample_store 0). reflexivity. Defined.
