(* ===== verification/SqlService.v ===== *)
(** * SqlService: from a SQL text to an execution result

    Models [engine/sql_service.go], [engine/explain_formatter.go] and
    [engine/execution_result.go]: the whole pipeline over any [Storage].  A
    nil session context is one without trace.  [fuel] bounds the rows an
    execution returns (see Executors).

    The theorems follow one statement through the layers: a SELECT returns the
    rows of its specification, an EXPLAIN and a rejected statement leave the
    storage alone, and only statements that are not queries flush the pool. *)

From S2P Require Import Prelude GoRuntime Lexer Ast Parser CatalogModel Semantic Eval Planner.
From S2P Require Import Optimizer Storage Executors.

Record ExecutionResult : Type := NewExecutionResult {
  columns : list string;
  result_rows : list row;
  affected : Z;
  explain : string
}.

Definition statement_type (stmt : Statement) : string :=
  match stmt with
  | CreateTableStmt _ _ => "*ast.CreateTableStmt" | CreateIndexStmt _ _ _ _ => "*ast.CreateIndexStmt"
  | InsertStmt _ _ => "*ast.InsertStmt" | SelectStmt _ _ _ _ => "*ast.SelectStmt"
  | ExplainStmt _ => "*ast.ExplainStmt"
  end.

Fixpoint token_lines (tokens : list Token) : string :=
  match tokens with
  | [] => ""
  | t :: tokens => "  " +:+ token_String t +:+ nl +:+ token_lines tokens
  end.

Definition FormatExplain (tokens : list Token) (statement : Statement) (queryTree : QueryTree)
    (logicalPlan : LogicalPlanNode) (physicalPlan : PhysicalPlanNode) : string :=
  "TOKENS:" +:+ nl +:+ token_lines tokens +:+
  nl +:+ "AST:" +:+ nl +:+ "  " +:+ statement_type statement +:+ nl +:+
  nl +:+ "QUERY_TREE:" +:+ nl +:+ "  " +:+ query_type_name queryTree +:+ nl +:+
  nl +:+ "LOGICAL_PLAN:" +:+ nl +:+ LogicalPlan.PrintPlan logicalPlan +:+
  nl +:+ "PHYSICAL_PLAN:" +:+ nl +:+ PhysicalPlan.PrintPlan physicalPlan.

Definition is_explain (q : QueryTree) : bool := match q with ExplainQueryTree _ => true | _ => false end.
Definition is_select (q : QueryTree) : bool := match q with SelectQueryTree _ _ _ => true | _ => false end.
Definition is_insert (q : QueryTree) : bool := match q with InsertQueryTree _ _ _ => true | _ => false end.

Module SqlService.
Section service.
Context {W : Type} `{Storage W}.

(** The error of a call is dropped. *)
Definition ignore_error (m : ST W unit) : ST W unit := fun w =>
  match m w with (Err _, w') => (Ok tt, w') | res => res end.

Definition target_names (q : QueryTree) : list string :=
  match q with SelectQueryTree _ cols _ => map ColumnDefinition.name cols | _ => [] end.

Definition ExecuteWithContext (fuel : nat) (trace : bool) (sql : string) : ST W ExecutionResult :=
  tokens <- slift (SqlLexer.Tokenize sql) ;;
  stmt <- slift (SqlParser.Parse tokens) ;;
  w <- sget ;;
  queryTree <- slift (Analyzer.Analyze w stmt) ;;
  let logicalPlan := DefaultPlanner.Plan queryTree in
  physicalPlan <- slift (DefaultOptimizer.Optimize w logicalPlan) ;;
  let explainText := if trace || is_explain queryTree
                     then FormatExplain tokens stmt queryTree logicalPlan physicalPlan else "" in
  if is_explain queryTree then sret (NewExecutionResult [] [] 0 explainText)
  else
    executor <- Executors.CreateExecutor physicalPlan ;;
    rows <- Executors.Execute fuel executor ;;
    (if is_select queryTree then sret tt else ignore_error FlushAllPages) ;;;
    sret (NewExecutionResult (target_names queryTree) rows (if is_insert queryTree then 1 else 0)
            (if trace then explainText else "")).

Definition Execute (fuel : nat) (sql : string) : ST W ExecutionResult := ExecuteWithContext fuel false sql.

End service.
End SqlService.

(** ** The properties *)
Module SqlServiceSpec.
Import SqlService PhysicalSpec ExecutorSpec.

Section spec.
Context {W : Type} `{SS : Storage W, SL : !StorageLaws W}.
Implicit Types (w : W).

(** The SQL text is a statement. *)
Definition reads_as (sql : string) (stmt : Statement) : Prop :=
  exists tokens, SqlLexer.Tokenize sql = Ok tokens /\ SqlParser.Parse tokens = Ok stmt.

(** The rows a SELECT stands for. *)
Definition answer w (table : TableDefinition.t) (cols : list ColumnDefinition.t) (f : option ResolvedExpr) : list row :=
  project cols <$> match f with
                   | Some pred => filter (satisfies pred) (rows_of w table)
                   | None => rows_of w table
                   end.

Lemma optimized_plan all names tn wh w table cols f :
  Analyzer.Analyze w (SelectStmt all names tn wh) = Ok (SelectQueryTree table cols f) -> sound w table ->
  table_ok w (rows_of w) table -> columns_in (rows_of w) table cols ->
  exists p, DefaultOptimizer.Optimize w (DefaultPlanner.Plan (SelectQueryTree table cols f)) = Ok p /\
    runnable w p /\ prows w (rows_of w) p = answer w table cols f.
Proof.
  intros Ha Hso Hok Hcols. apply AnalyzerProofs.Analyze_analyzes in Ha. unfold answer. rewrite <- lrows_select.
  assert (Hf : AnalyzerSpec.filters w table wh f) by (by inversion Ha).
  destruct (Optimize_select_ok w (rows_of w) table cols wh f Hok Hf) as (p & Ep & Hp & Hr). exists p.
  split; [done|]. split; [|by apply Hr]. split; [auto|]. eapply Forall_impl; [exact (plan_tables_select w table cols f p Ep)|]. by intros t ->.
Qed.

(** Running the text of a SELECT. *)
Lemma select_run sql all names tn wh w table cols f :
  reads_as sql (SelectStmt all names tn wh) ->
  Analyzer.Analyze w (SelectStmt all names tn wh) = Ok (SelectQueryTree table cols f) -> sound w table ->
  table_ok w (rows_of w) table -> columns_in (rows_of w) table cols ->
  exists n0 res w', (forall n, (n0 <= n)%nat -> Execute n sql w = (res, w')) /\ same w w' /\
    match res with
    | Ok r => columns r = map ColumnDefinition.name cols /\ affected r = 0 /\ explain r = "" /\
              result_rows r ≡ₚ answer w table cols f
    | Err _ => faulty
    | Panic => False
    end.
Proof.
  intros (tokens & Et & Ep) Ha Hso Hok Hcols.
  destruct (optimized_plan all names tn wh w table cols f Ha Hso Hok Hcols) as (p & Eo & Hp & Hrows).
  destruct (run_plan_ok w p Hp) as (n0 & [res w'] & Hn & Hs & Hr). cbn in Hs, Hr.
  exists n0, (ofmap (fun rows => NewExecutionResult (map ColumnDefinition.name cols) rows 0 "") res), w'.
  split; [|split; [exact Hs|]].
  - intros n Hle. specialize (Hn n Hle). unfold run_plan, sbind in Hn.
    unfold Execute, ExecuteWithContext, sbind, slift, sget. rewrite Et, Ep, Ha, Eo. cbn [is_explain orb is_select is_insert].
    destruct (Executors.CreateExecutor p w) as [[e|er|] w1]; [|injection Hn as <- <-; reflexivity..].
    rewrite Hn. by destruct res.
  - destruct res as [rows|er|]; cbn; [|done..]. by rewrite Hr, Hrows.
Qed.

(** C4: executing the text of a SELECT over a storage that meets its contract,
    on a table that it holds well, terminates and returns the names of the target columns and, in some
    order, exactly the target fields of the rows of the table that satisfy the
    WHERE clause, whichever index the optimizer chose; it changes no table
    and fails only with an error of a faulty storage. *)
Theorem Execute_select sql all names tn wh w table cols f :
  reads_as sql (SelectStmt all names tn wh) ->
  Analyzer.Analyze w (SelectStmt all names tn wh) = Ok (SelectQueryTree table cols f) -> sound w table ->
  table_ok w (rows_of w) table -> columns_in (rows_of w) table cols ->
  exists n0 res w', (forall n, (n0 <= n)%nat -> Execute n sql w = (res, w')) /\ same w w' /\
    match res with
    | Ok r => columns r = map ColumnDefinition.name cols /\ affected r = 0 /\ explain r = "" /\
              result_rows r ≡ₚ answer w table cols f
    | Err _ => faulty
    | Panic => False
    end.
Proof. by apply select_run. Qed.

(** EXPLAIN executes nothing: whatever the storage, it is left as it was,
    and the result holds the formatted plans and no row. *)
Theorem Execute_explain sql inner w n trace r w' :
  reads_as sql (ExplainStmt inner) ->
  ExecuteWithContext n trace sql w = (Ok r, w') ->
  w' = w /\ result_rows r = [] /\ affected r = 0 /\
  exists tokens q p, SqlLexer.Tokenize sql = Ok tokens /\ Analyzer.Analyze w inner = Ok q /\
    DefaultOptimizer.Optimize w (DefaultPlanner.Plan q) = Ok p /\
    explain r = FormatExplain tokens (ExplainStmt inner) (ExplainQueryTree q)
      (ExplainNode (DefaultPlanner.Plan q)) (PExplainNode p).
Proof.
  intros (tokens & Et & Ep). unfold ExecuteWithContext, sbind, slift, sget. rewrite Et, Ep. cbn [Analyzer.Analyze].
  destruct (Analyzer.Analyze w inner) as [q|er|] eqn:Ea; cbn; [|discriminate..].
  destruct (DefaultOptimizer.Optimize w (DefaultPlanner.Plan q)) as [p|er|] eqn:Eo; cbn; [|discriminate..].
  rewrite orb_true_r. intros [= <- <-]. repeat split; eauto 10.
Qed.

(** A text that is not a statement, or not one the catalog allows, is
    refused with the error of the first layer that rejects it, and nothing is
    changed. *)
Theorem Execute_refused sql w n trace e :
  (SqlLexer.Tokenize sql = Err e \/
   (exists tokens, SqlLexer.Tokenize sql = Ok tokens /\ SqlParser.Parse tokens = Err e) \/
   (exists stmt, reads_as sql stmt /\ Analyzer.Analyze w stmt = Err e)) ->
  ExecuteWithContext n trace sql w = (Err e, w).
Proof.
  unfold ExecuteWithContext, sbind, slift, sget.
  intros [Et|[(tokens & Et & Ep)|(stmt & (tokens & Et & Ep) & Ea)]]; rewrite Et; [done|by rewrite Ep|by rewrite Ep, Ea].
Qed.
End spec.

(** A SELECT and an EXPLAIN over the sample storage. *)
Definition select_text : string := "SELECT name FROM users WHERE name = 'b' AND id > 2;".
Definition select_filter : Expr := Eval vm_compute in
  match SqlLexer.Tokenize select_text with
  | Ok tokens => match SqlParser.Parse tokens with Ok (SelectStmt _ _ _ (Some e)) => e | _ => LiteralInt64Expr 0 end
  | _ => LiteralInt64Expr 0
  end.
Definition select_names : list SqlIdent := Eval vm_compute in
  match SqlLexer.Tokenize select_text with
  | Ok tokens => match SqlParser.Parse tokens with Ok (SelectStmt _ l _ _) => l | _ => [] end
  | _ => []
  end.
Definition select_table : SqlIdent := Eval vm_compute in
  match SqlLexer.Tokenize select_text with
  | Ok tokens => match SqlParser.Parse tokens with Ok (SelectStmt _ _ t _) => t | _ => AnalyzerProofs.ident "" end
  | _ => AnalyzerProofs.ident ""
  end.
Definition select_resolved : ResolvedExpr := Eval vm_compute in
  match Analyzer.Analyze sample_store (SelectStmt false select_names select_table (Some select_filter)) with
  | Ok (SelectQueryTree _ _ (Some f)) => f
  | _ => ResolvedConst ANil ExprTypeBool
  end.

Lemma sample_store_table_ok : table_ok sample_store (rows_of sample_store) ListCatalog.users.
Proof.
  split; [split|].
  - apply (wf_listed ListCatalog.sample ListCatalog.users sample_table_wf).
  - apply (wf_oids ListCatalog.sample ListCatalog.users sample_table_wf).
  - discriminate.
  - intros r Hr. apply (proj2 sample_table_ok). exact Hr.
Qed.

Lemma Execute_select_witness :
  exists n0 res w', (forall n, (n0 <= n)%nat -> Execute n select_text sample_store = (res, w')) /\ same sample_store w' /\
    match res with
    | Ok r => columns r = ["name"] /\ affected r = 0 /\ explain r = "" /\
              result_rows r ≡ₚ answer sample_store ListCatalog.users [ListCatalog.name] (Some select_resolved)
    | Err _ => faulty
    | Panic => False
    end.
Proof.
  apply (Execute_select (W:=ListStore.t) select_text false select_names select_table (Some select_filter)
           sample_store ListCatalog.users [ListCatalog.name] (Some select_resolved)).
  - eexists. split; [vm_compute; reflexivity|vm_compute; reflexivity].
  - vm_compute. reflexivity.
  - exact I.
  - apply sample_store_table_ok.
  - intros r col Hr Hc. apply list_elem_of_singleton in Hc as ->.
    assert (Hin : r ∈ [[AInt64 1; AString "a"]; [AInt64 2; AString "b"]; [AInt64 3; AString "b"]]) by exact Hr.
    repeat (apply elem_of_cons in Hin as [->|Hin]; [split; [done|by eexists]|]). by apply not_elem_of_nil in Hin.
Defined.

Definition explain_text : string := "EXPLAIN SELECT name FROM users WHERE name = 'b';".
Definition explain_inner : Statement := Eval vm_compute in
  match SqlLexer.Tokenize explain_text with
  | Ok tokens => match SqlParser.Parse tokens with Ok (ExplainStmt s) => s | _ => InsertStmt (AnalyzerProofs.ident "") [] end
  | _ => InsertStmt (AnalyzerProofs.ident "") []
  end.
Definition explain_result : ExecutionResult := Eval vm_compute in
  match (Execute 1 explain_text sample_store).1 with Ok r => r | _ => NewExecutionResult [] [] 0 "" end.

Lemma Execute_explain_witness :
  sample_store = sample_store /\ result_rows explain_result = [] /\ affected explain_result = 0 /\
  exists tokens q p, SqlLexer.Tokenize explain_text = Ok tokens /\
    Analyzer.Analyze sample_store explain_inner = Ok q /\
    DefaultOptimizer.Optimize sample_store (DefaultPlanner.Plan q) = Ok p /\
    explain explain_result = FormatExplain tokens (ExplainStmt explain_inner) (ExplainQueryTree q)
      (ExplainNode (DefaultPlanner.Plan q)) (PExplainNode p).
Proof.
  apply (Execute_explain (W:=ListStore.t) (SS:=ListStore.storage) explain_text explain_inner sample_store 1 false).
  - eexists. split; [vm_compute; reflexivity|vm_compute; reflexivity].
  - vm_compute. reflexivity.
Defined.

Lemma Execute_refused_witness :
  exists e, ExecuteWithContext 1 false "SELECT name FROM nowhere" sample_store = (Err e, sample_store).
Proof.
  eexists. apply (Execute_refused (W:=ListStore.t) (SS:=ListStore.storage)). right; right.
  eexists. split; [eexists; split; [vm_compute; reflexivity|vm_compute; reflexivity]|vm_compute; reflexivity].
Defined.
End SqlServiceSpec.
