(* ===== verification/Database.v ===== *)
(** * Database: the storage the server runs on

    Puts the layers together as [NewSqlService] and [cmd/server/main.go] do:
    the state is an index manager with its catalog manager, buffer pool and
    disk, and the operations that [Storage] asks for are those of TableHeap,
    IndexManager, CatalogManager and BufferPool.  [start_database] is [main] up
    to the server; on an error the process ends and the disk is what is left.

    [FlushAllPages] iterates over the page table in the order of [map_to_list];
    Go leaves that order open. *)

From S2P Require Import Prelude GoRuntime Utf8 Lexer Ast Parser HeapPage TupleSerializer Replacer PageFile BufferPool PageStore CatalogModel Semantic CatalogManager CatalogJournal Eval Planner Optimizer Storage TableHeap IndexPage HashIndex BTreeIndex IndexManager Executors SqlService.
#[local] Open Scope Z_scope.

Module Database.
Import HeapBufferPoolManager.
Section wiring.
Context {R D : Type} `{RR : Replacer R, DM : !PageFileManager D, FT : !FileStat D}.

(** A database is the index manager; the rest hangs off it. *)
Definition t : Type := IndexManager.t R D.
Implicit Types (db : t).

Definition cm_of db : DefaultCatalogManager.t R D := IndexManager.catalog db.
Definition pool_of db : Pool R D := DefaultCatalogManager.bufferPool (cm_of db).

#[export] Instance database_catalog : CatalogManager t := {|
  Semantic.GetTable db := DefaultCatalogManager.GetTable (cm_of db);
  Semantic.GetColumns db := DefaultCatalogManager.GetColumns (cm_of db);
  Semantic.GetColumn db := DefaultCatalogManager.GetColumn (cm_of db);
  Semantic.GetTypeByOid db := DefaultCatalogManager.GetTypeByOid (cm_of db);
  Semantic.GetTypeByName db := DefaultCatalogManager.GetTypeByName (cm_of db);
  Semantic.GetIndex db := DefaultCatalogManager.GetIndex (cm_of db);
  Semantic.ListIndexes db := DefaultCatalogManager.ListIndexes (cm_of db);
  error_text _ := ""
|}.

Definition on_catalog {A} (m : ST (DefaultCatalogManager.t R D) A) : ST t A := IndexManager.on_catalog m.

Definition flush_all : ST t unit := fun db =>
  on_catalog (DefaultCatalogManager.on_pool
    (HeapBufferPoolManager.FlushAllPages (map_to_list (pageTable (pool_of db))))) db.

#[export] Instance database_storage : Storage t := {|
  storage_catalog := database_catalog;
  Storage.TableHeap := TableHeap.t;
  Storage.Index := nat;
  Storage.NewTableHeap table := on_catalog (TableHeap.NewTableHeap table);
  Storage.ScanTids heap := on_catalog (TableHeap.ScanTids heap);
  Storage.ReadRow heap tid := on_catalog (TableHeap.ReadRow heap tid);
  Storage.InsertRow heap values := on_catalog (TableHeap.InsertRow heap values);
  Storage.GetOrCreate := IndexManager.GetOrCreate;
  Storage.Search := IndexManager.Search;
  Storage.RangeSearch := IndexManager.RangeSearch;
  Storage.IndexInsert := IndexManager.Insert;
  Storage.CreateTable name columns := on_catalog (DefaultCatalogManager.CreateTable name columns);
  Storage.CreateIndex name table column ty := on_catalog (DefaultCatalogManager.CreateIndex name table column ty);
  Storage.FlushAllPages := flush_all
|}.

(** [main] up to [NewServer]: the database, or what is left of the disk when
    it could not be started. *)
Definition start_database (poolSize : Z) (dataDir : string) (r : R) (d : D) : outcome t * D :=
  match HeapBufferPoolManager.NewHeapBufferPoolManager poolSize d r dataDir with
  | Ok P =>
    match DefaultCatalogManager.NewDefaultCatalogManager dataDir P with
    | (Ok cm, _) => (Ok (IndexManager.NewIndexManager dataDir cm), d)
    | (Err e, P') => (Err e, disk P')
    | (Panic, P') => (Panic, disk P')
    end
  | Err e => (Err e, d)
  | Panic => (Panic, d)
  end.
End wiring.
Arguments t : clear implicits.

(** The database of the server: an LRU replacer, and files. *)
Definition db : Type := t LRUReplacer.t FS.
Definition start (poolSize : Z) (d : FS) : outcome db := (start_database poolSize "data" LRUReplacer.New d).1.

(** Statements one after the other, until one fails; the results. *)
Fixpoint session (fuel : nat) (statements : list string) (w : db) : outcome (list ExecutionResult) * db :=
  match statements with
  | [] => (Ok [], w)
  | sql :: statements =>
    match SqlService.Execute fuel sql w with
    | (Ok r, w) => let (rs, w) := session fuel statements w in (ofmap (cons r) rs, w)
    | (Err e, w) => (Err e, w)
    | (Panic, w) => (Panic, w)
    end
  end.

(** The statements from a start on the files, and the files they leave. *)
Definition run (fuel : nat) (statements : list string) (d : FS) : outcome (list ExecutionResult) * FS :=
  match start 256 d with
  | Ok w => let (r, w) := session fuel statements w in (r, disk (pool_of w))
  | Err e => (Err e, d)
  | Panic => (Panic, d)
  end.
Definition no_files : FS := {| files := ∅; faults := [] |}.

(** ** Runs of the whole program *)
Definition create_users : string := "CREATE TABLE users (id INT64, name VARCHAR);".
Definition create_index : string := "CREATE INDEX ix ON users (id) USING BTREE;".
Definition insert_ada : string := "INSERT INTO users VALUES (1, 'ada');".
Definition insert_bob : string := "INSERT INTO users VALUES (2, 'bob');".
Definition select_all : string := "SELECT * FROM users;".
Definition select_one : string := "SELECT name FROM users WHERE id = 1;".
Definition select_range : string := "SELECT name FROM users WHERE id > 1 AND id <= 7;".

Definition none (affected : Z) : ExecutionResult := NewExecutionResult [] [] affected "".
Definition found (columns : list string) (rows : list row) : ExecutionResult := NewExecutionResult columns rows 0 "".
Definition ada : row := [AInt64 1; AString "ada"].
Definition bob : row := [AInt64 2; AString "bob"].

(** The files after two rows. *)
Definition two_rows : outcome (list ExecutionResult) * FS :=
  run 20 [create_users; create_index; insert_ada; insert_bob; select_all] no_files.

(** A table with an index, its rows found with and without the index, before
    and after a restart. *)
Lemma two_rows_survive :
  two_rows.1 = Ok [none 0; none 0; none 1; none 1; found ["id"; "name"] [ada; bob]] /\
  (run 20 [select_range; select_all] two_rows.2).1 =
    Ok [found ["name"] [[AString "bob"]]; found ["id"; "name"] [ada; bob]].
Proof. split; vm_compute; reflexivity. Qed.

Definition one_row : outcome (list ExecutionResult) * FS :=
  run 20 [create_users; insert_ada; select_all] no_files.
Definition one_indexed_row : outcome (list ExecutionResult) * FS :=
  run 20 [create_users; create_index; insert_ada] no_files.

(** A committed row is lost (see [HeapSpec.added_row_not_durable]): on a disk without any fault a table is created
    and a row inserted, both statements succeed and flush the pool with
    success, and the row is found; but after a restart on the files the table
    is empty.  With an index on the table the index still finds the row, and
    every query through it fails. *)
Theorem committed_row_lost :
  one_row.1 = Ok [none 0; none 1; found ["id"; "name"] [ada]] /\
  (run 20 [select_all] one_row.2).1 = Ok [found ["id"; "name"] []] /\
  one_indexed_row.1 = Ok [none 0; none 0; none 1] /\
  (run 20 [select_one] one_indexed_row.2).1 = Err (OSError "open").
Proof. split_and!; vm_compute; reflexivity. Qed.
End Database.
