(* ===== verification/DatabaseLaws.v ===== *)
(** * DatabaseLaws: the database meets the contract of the executors

    [StorageLaws] for the storage the server runs on, on a disk that does not
    fail.  What a table holds ([contents]) is read off the pages, those in the
    buffer pool first; a table is [sound] when its pages hold rows and every
    index the catalog lists for it is open and stands for the rows; and a
    reading call may only load and evict pages ([same]). *)

From S2P Require Import Prelude GoRuntime Utf8 Lexer Ast Parser HeapPage TupleSerializer Replacer PageFile BufferPool PoolCalm PageStore CatalogModel Semantic CatalogManager CatalogJournal Eval Planner Optimizer Storage TableHeap IndexPage HashIndex HashIndexProofs BTreeIndex BTreeNode BTreeTree BTreeSearch BTreeProofs IndexManager Executors SqlService Database.
#[local] Open Scope Z_scope.

Module DatabaseLaws.
Import HeapBufferPoolManager DefaultCatalogManager HeapSpec Database.
#[local] Existing Instances SearchSpec.over_dec SearchSpec.under_dec.

Section laws.
Context {R D : Type} `{RR : Replacer R, RL : !ReplacerLaws R, DM : PageFileManager D, DL : !PageFileLaws D}.
Context `{FT : !FileStat D, FL : !FileStatLaws D}.
Context (root0 : string) (root_nonempty : root0 <> ""%string) (quiet : reliable).
Notation db := (Database.t R D).
Implicit Types (w : db) (t : TableDefinition.t) (heap : TableHeap.t) (idx : IndexDefinition.t).

(** ** What a table holds *)
Definition columns_of w t : list ColumnDefinition.t :=
  match DefaultCatalogManager.GetColumns (cm_of w) t with Ok cols => cols | _ => [] end.
Definition heap_of w t : TableHeap.t := {| TableHeap.table := t; TableHeap.columns := columns_of w t |}.

(** The rows of a page, by its slots. *)
Definition slot_row w heap (p : HeapPage) (slot : nat) : option row :=
  match HeapPage.Read p (Z.of_nat slot) with
  | Ok d => match TableHeap.deserializeRow (cm_of w) heap d with Ok r => Some r | _ => None end
  | _ => None
  end.
Definition page_rows_of w heap (i : nat) : list row :=
  match BufferPoolSpec.contents root0 (pool_of w) (heap_key heap i) with
  | Some b =>
    let p := {| pageID := Z.of_nat i; buf := b |} in
    match HeapPage.Size p with Ok n => omap (slot_row w heap p) (seq 0 (Z.to_nat n)) | _ => [] end
  | None => []
  end.

Definition entries_of_page (i : nat) (rows : list row) : list (TID * row) := zip (row_tids i rows) rows.
Definition table_contents w t : list (TID * row) :=
  concat ((fun i => entries_of_page i (page_rows_of w (heap_of w t) i)) <$> seq 0 (Z.to_nat (TableDefinition.pagesCount t))).

(** The table of [pages]. *)
Definition paged (pages : list (list row)) : list (TID * row) := concat (imap entries_of_page pages).

Lemma slot_rows w heap p ds rows :
  TableHeap.columns heap <> [] -> page_repr p ds -> Forall2 (encodes (cm_of w) heap) rows ds ->
  omap (slot_row w heap p) (seq 0 (length ds)) = rows.
Proof.
  intros Hc HR Hds.
  assert (Hslot : forall i r, rows !! i = Some r -> slot_row w heap p i = Some r).
  { intros i r Hi. destruct (Forall2_lookup_l _ _ _ _ _ Hds Hi) as (d & Hd & He). unfold slot_row.
    rewrite (Read_repr _ _ _ HR), decide_True by lia. rewrite Nat2Z.id, Hd. by rewrite (encodes_decodes (cm_of w) heap r d Hc He). }
  rewrite <- (Forall2_length _ _ _ Hds). clear -Hslot. revert Hslot. generalize (slot_row w heap p) as f. intros f.
  assert (H : forall k, (forall i r, rows !! i = Some r -> f (k + i)%nat = Some r) -> omap f (seq k (length rows)) = rows).
  { induction rows as [|r rows IH]; intros k Hf; [done|]. cbn [length seq]. cbn [omap list_omap].
    pose proof (Hf 0%nat r eq_refl) as H0. rewrite Nat.add_0_r in H0. rewrite H0.
    f_equal. apply IH. intros i r' Hi. replace (S k + i)%nat with (k + S i)%nat by lia. by apply Hf. }
  intros Hf. by apply (H 0%nat).
Qed.

Lemma page_rows_at E A heap pages w i rows :
  table_at root0 E A heap (Some <$> pages) (cm_of w) -> pages !! i = Some rows -> page_rows_of w heap i = rows.
Proof.
  intros HT Hi. destruct (ta_pages _ _ _ _ _ _ HT i (Some rows)) as [HE (b & ds & HA & HR & Hds)]; [by rewrite list_lookup_fmap, Hi|].
  assert (Hlt : (i <= length (Some <$> pages))%nat) by (rewrite length_fmap; apply lookup_lt_Some in Hi; lia).
  pose proof (table_at_key _ _ _ _ _ _ i HT Hlt) as Hg. unfold page_rows_of.
  destruct (PageStore.store_known root0 E A (pool_of w) _ (ta_store _ _ _ _ _ _ HT) Hg HE) as [_ ->]. rewrite HA.
  rewrite (Size_repr _ _ HR), Nat2Z.id. by apply slot_rows; [apply HT|..].
Qed.

Lemma contents_paged E A t pages w :
  table_at root0 E A (heap_of w t) (Some <$> pages) (cm_of w) -> table_contents w t = paged pages.
Proof.
  intros HT. unfold table_contents, paged. pose proof (ta_count _ _ _ _ _ _ HT) as Hn. cbn [heap_of TableHeap.table] in Hn.
  rewrite Hn, Nat2Z.id, length_fmap. f_equal. apply list_eq. intros i. rewrite list_lookup_fmap, list_lookup_imap.
  destruct (pages !! i) as [rows|] eqn:Ei.
  - rewrite lookup_seq_lt by by eapply lookup_lt_Some. cbn. by rewrite (page_rows_at E A _ pages w i rows).
  - rewrite lookup_seq_ge by by apply lookup_ge_None. done.
Qed.

Lemma elem_of_paged pages tid r :
  (tid, r) ∈ paged pages <-> exists i slot rows, tid = NewTID (Z.of_nat i) (Z.of_nat slot) /\ pages !! i = Some rows /\ rows !! slot = Some r.
Proof.
  unfold paged. rewrite list_elem_of_In, in_concat. setoid_rewrite <- list_elem_of_In. split.
  - intros (l & Hl & Hr). apply elem_of_lookup_imap in Hl as (i & rows & -> & Hi).
    unfold entries_of_page in Hr. apply list_elem_of_lookup in Hr as [slot Hs]. rewrite lookup_zip_with in Hs.
    unfold row_tids in Hs. rewrite list_lookup_fmap in Hs. destruct (seq 0 (length rows) !! slot) as [j|] eqn:Ej; [|done]. cbn in Hs.
    apply lookup_seq in Ej as [-> _]. destruct (rows !! slot) as [r'|] eqn:Er; [|done]. cbn in Hs. injection Hs as <- <-. by exists i, slot, rows.
  - intros (i & slot & rows & -> & Hi & Hs). exists (entries_of_page i rows). split.
    + apply elem_of_lookup_imap. by exists i, rows.
    + apply (list_elem_of_lookup_2 _ slot). unfold entries_of_page, row_tids. rewrite lookup_zip_with, list_lookup_fmap.
      rewrite lookup_seq_lt by by eapply lookup_lt_Some. cbn. by rewrite Hs.
Qed.

Lemma paged_tids pages : fst <$> paged pages = concat (imap row_tids pages).
Proof.
  unfold paged. etransitivity; [apply concat_map|]. f_equal. etransitivity; [apply fmap_imap|].
  apply imap_ext. intros i rows _. cbn. apply fst_zip. unfold row_tids. by rewrite length_fmap, length_seq.
Qed.

(** ** Sound tables *)

(** The keys and TIDs an index of the table stands for. *)
Definition index_entries w t idx : list (any * TID) :=
  omap (fun e : TID * row => (fun v => (v, e.1)) <$> PhysicalSpec.indexed_value w t idx e.2) (table_contents w t).

Definition type_of_keys (ty : ExprType) : string :=
  match ty with ExprTypeInt64 => "INT64" | ExprTypeVarchar => "VARCHAR" | _ => "" end.
Notation index_keys := IndexContract.index_keys.
Notation index_kind := IndexContract.index_kind.
Notation stands := (IndexContract.stands root0 root_nonempty).

(** An index is open in a file of its own, of its kind and for keys of its
    column, and stands for the entries. *)
Definition open_for E A w t idx (es : list (any * TID)) : Prop :=
  exists ref ix, IndexManager.byName w !! IndexDefinition.name idx = Some ref /\ IndexManager.objects w !! ref = Some ix /\
    index_kind ix = IndexDefinition.indexType idx /\ IndexContract.index_file ix = IndexDefinition.fileNode idx /\
    (forall ty, PhysicalSpec.key_type w t idx ty -> index_keys ix = type_of_keys ty) /\ stands E A ix es.

(** The pages of the table hold rows, and its indexes stand for them. *)
Record sound_at E A (pages : list (list row)) w t : Prop := {
  so_pages : table_at root0 E A (heap_of w t) (Some <$> pages) (cm_of w);
  so_indexes kt idx : PhysicalSpec.index_listed w t idx kt -> open_for E A w t idx (index_entries w t idx)
}.
Definition sound_table w t : Prop := exists E A pages, sound_at E A pages w t.

(** Reading calls change the pool, and keep what is known of the pages. *)
Definition same_database w w' : Prop :=
  exists P', w' = IndexContract.with_pages P' w /\ PageStore.kept root0 (pool_of w) P'.

#[global] Instance same_database_preorder : PreOrder same_database.
Proof.
  split.
  - intros [r [cr P c] b o]. exists P. split; [done|]. by intros E A.
  - intros w1 w2 w3 (P2 & -> & H2) (P3 & -> & H3). exists P3. split; [done|]. intros E A Hst. by apply H3, H2.
Qed.

Lemma same_at E A pages w P' t :
  PageStore.kept root0 (pool_of w) P' -> table_at root0 E A (heap_of w t) (Some <$> pages) (cm_of w) ->
  table_at root0 E A (heap_of (IndexContract.with_pages P' w) t) (Some <$> pages) (cm_of (IndexContract.with_pages P' w)).
Proof. intros Hk HT. apply (table_at_pool root0 E A (heap_of w t) (Some <$> pages) (cm_of w) P'); [|done]. by apply Hk, HT. Qed.

Lemma same_table w w' t : same_database w w' -> sound_table w t -> table_contents w' t = table_contents w t.
Proof.
  intros (P' & -> & Hk) (E & A & pages & HS). rewrite (contents_paged E A t pages w) by apply HS.
  apply (contents_paged E A). by apply same_at, HS.
Qed.

Lemma same_sound_table w w' t : same_database w w' -> sound_table w t -> sound_table w' t.
Proof.
  intros Hs Ht. pose proof (same_table w w' t Hs Ht) as Hc. destruct Hs as (P' & -> & Hk), Ht as (E & A & pages & HS).
  exists E, A, pages. split; [by apply same_at, HS|]. intros kt idx Hl.
  destruct (so_indexes _ _ _ _ _ HS kt idx Hl) as (ref & ix & H1 & H2 & H3 & H4 & H5 & H6).
  exists ref, ix. split_and!; [done..|]. unfold index_entries. rewrite Hc. exact H6.
Qed.

(** The TIDs of the entries whose key has a property. *)
Lemma entries_filter w t idx (p : any -> Prop) (q : row -> Prop) `{!forall v, Decision (p v), !forall r, Decision (q r)} :
  (forall e v, e ∈ table_contents w t -> PhysicalSpec.indexed_value w t idx e.2 = Some v -> p v <-> q e.2) ->
  (forall r, PhysicalSpec.indexed_value w t idx r = None -> ~ q r) ->
  snd <$> filter (fun e => p e.1) (index_entries w t idx) = fst <$> filter (fun e => q e.2) (table_contents w t).
Proof.
  unfold index_entries. induction (table_contents w t) as [|e l IH]; intros Hp Hn; [done|]. cbn [omap list_omap].
  assert (IH' := IH (fun e' v He' => Hp e' v ltac:(by right)) Hn). rewrite filter_cons.
  destruct (PhysicalSpec.indexed_value w t idx e.2) as [v|] eqn:Ev; cbn [fmap option_fmap option_map].
  - rewrite filter_cons. cbn [fst]. specialize (Hp e v ltac:(by left) Ev).
    destruct (decide (p v)), (decide (q e.2)); [|tauto|tauto|done]. cbn. by f_equal.
  - rewrite decide_False by by apply Hn. done.
Qed.

(** ** The reading calls *)
Notation reads := (reads same_database False).

(** A call on the catalog manager that only moves pages in the pool. *)
Lemma reads_pool {A} (m : ST (DefaultCatalogManager.t R D) A) w (Q : outcome A -> Prop) (Q' : A -> Prop) :
  triple m (cm_of w) (fun r cm' => exists P', cm' = CatalogJournal.with_pool P' (cm_of w) /\
    PageStore.evolves root0 BufferPoolSpec.no_key (pool_of w) P' /\ Q r) ->
  (forall r, r <> Panic -> Q r -> match r with Ok a => Q' a | _ => False end) -> reads (on_catalog m) w Q'.
Proof.
  intros [Hnp (P' & Hcm & Hev & HQ)] HQ'. unfold Storage.reads, on_catalog, IndexManager.on_catalog. fold (cm_of w).
  destruct (m (cm_of w)) as [r cm']. cbn [fst snd] in *. subst cm'. split.
  - exists P'. split; [done|]. by apply PageStore.kept_evolves.
  - specialize (HQ' r Hnp HQ). by destruct r.
Qed.

Lemma heap_read w t : sound_table w t -> reads (on_catalog (TableHeap.NewTableHeap t)) w (fun h => h = heap_of w t).
Proof.
  intros _. split; [|done].
  exists (pool_of w). split; [by destruct w as [? [] ? ?]|]. by intros E' A'.
Qed.

Lemma scan_read w t :
  sound_table w t -> reads (on_catalog (TableHeap.ScanTids (heap_of w t))) w (fun tids => tids = fst <$> table_contents w t).
Proof using quiet.
  intros (E & A & pages & [HT _]). pose proof (ta_count _ _ _ _ _ _ HT) as Hn. cbn [heap_of TableHeap.table] in Hn.
  eapply (reads_pool _ w (fun r => exists l, r = Ok l /\ l = fst <$> table_contents w t)).
  2:{ intros r _ (l & -> & ->). done. }
  unfold TableHeap.ScanTids. cbn [heap_of TableHeap.table]. rewrite Hn, Nat2Z.id. change 0 with (Z.of_nat 0).
  eapply triple_mono; [by apply (scan_pages_spec root0 root_nonempty E A (heap_of w t) (Some <$> pages))|].
  intros r cm' _ (P' & -> & Hev & l & -> & parts & -> & Hlen & Hp). exists P'. split; [done|]. split; [done|].
  exists (concat parts). split; [done|]. rewrite (contents_paged E A t pages w HT), paged_tids. f_equal.
  rewrite drop_0, length_fmap in Hlen. apply list_eq. intros i. rewrite list_lookup_imap.
  destruct (parts !! i) as [part|] eqn:Ei.
  - destruct (lookup_lt_is_Some_2 pages i) as [rows Hr]; [rewrite <- Hlen; by eapply lookup_lt_Some|]. rewrite Hr.
    destruct (Hp i part Ei) as [(rows' & Hr' & ->)|[_ Hu]].
    + cbn in Hr'. rewrite list_lookup_fmap, Hr in Hr'. injection Hr' as <-. done.
    + by destruct (unread_reliable root0 root_nonempty E A (heap_of w t) (Some <$> pages) (cm_of w) i rows HT ltac:(by rewrite list_lookup_fmap, Hr) Hu).
  - apply lookup_ge_None in Ei. rewrite (proj2 (lookup_ge_None pages i)) by lia. done.
Qed.

Lemma row_read w t tid r :
  sound_table w t -> (tid, r) ∈ table_contents w t -> reads (on_catalog (TableHeap.ReadRow (heap_of w t) tid)) w (fun r' => r' = r).
Proof using quiet.
  intros (E & A & pages & [HT _]). rewrite (contents_paged E A t pages w HT). intros (i & slot & rows & -> & Hi & Hs)%elem_of_paged.
  assert (Hi' : (Some <$> pages) !! i = Some (Some rows)) by by rewrite list_lookup_fmap, Hi.
  eapply (reads_pool _ w (fun o => o <> Panic -> o = Ok r)).
  2:{ intros o Hnp Ho. by rewrite (Ho Hnp). }
  eapply triple_mono; [apply (ReadRow_spec root0 root_nonempty E A (heap_of w t) (Some <$> pages) (cm_of w) i (Z.of_nat slot) HT)|].
  { by eapply lookup_lt_Some. }
  assert (Hbad : unread root0 (cm_of w) (heap_of w t) i \/
    (exists rows0, (Some <$> pages) !! i = Some (Some rows0) /\ ~ (0 <= Z.of_nat slot < Z.of_nat (length rows0))) -> False).
  { intros [Hu|(rows' & Hr' & Hn)]; [by apply (unread_reliable root0 root_nonempty E A (heap_of w t) (Some <$> pages) (cm_of w) i rows HT Hi' Hu)|].
    rewrite Hi' in Hr'. injection Hr' as <-. apply lookup_lt_Some in Hs. lia. }
  intros o cm' _ (P' & -> & Hev & Ho). exists P'. split; [done|]. split; [done|]. intros _. destruct o as [r'|e|]; [|by destruct Hbad..].
  destruct Ho as (rows' & Hr' & _ & Hs'). rewrite Hi' in Hr'. injection Hr' as <-. rewrite Nat2Z.id in Hs'. congruence.
Qed.

Lemma index_read w t idx kt ty :
  sound_table w t -> PhysicalSpec.index_listed w t idx kt -> PhysicalSpec.key_type w t idx ty ->
  reads (IndexManager.GetOrCreate idx) w (fun ref => IndexManager.byName w !! IndexDefinition.name idx = Some ref).
Proof.
  intros (E & A & pages & HS) Hl Hty. destruct (so_indexes _ _ _ _ _ HS kt idx Hl) as (ref & ix & Hn & _).
  unfold Storage.reads, IndexManager.GetOrCreate. rewrite Hn. cbn. by split.
Qed.

Lemma keys_typed ix v ty : index_keys ix = type_of_keys ty -> ty <> ExprTypeBool -> Typing.value_type v ty -> key_kind (index_keys ix) v.
Proof. intros -> Hne Hv. by destruct v, ty. Qed.

Lemma listed_kind w t idx kt : PhysicalSpec.index_listed w t idx kt -> IndexDefinition.indexType idx = kt.
Proof. by intros (l & _ & _ & ?). Qed.

Lemma key_not_bool w t idx ty : PhysicalSpec.key_type w t idx ty -> ty <> ExprTypeBool.
Proof. by intros (n & col & _ & _ & ?). Qed.

Lemma search_read w t ref idx kt v ty :
  sound_table w t -> IndexManager.byName w !! IndexDefinition.name idx = Some ref -> PhysicalSpec.index_listed w t idx kt ->
  PhysicalSpec.key_type w t idx ty -> Typing.value_type v ty ->
  reads (IndexManager.Search ref v) w (fun tids =>
    tids ≡ₚ fst <$> filter (fun e => PhysicalSpec.has_key w t idx v e.2) (table_contents w t)).
Proof using quiet.
  intros (E & A & pages & HS) Href Hl Hty Hv. destruct (so_indexes _ _ _ _ _ HS kt idx Hl) as (ref' & ix & Hn & Hix & _ & _ & Hkeys & Hst).
  assert (ref' = ref) as -> by congruence. specialize (Hkeys ty Hty).
  assert (Hsuits : IndexContract.suits ix v).
  { pose proof (keys_typed ix v ty Hkeys (key_not_bool _ _ _ _ Hty) Hv) as Hk. by destruct ix. }
  destruct (IndexContract.manager_search_kept root0 root_nonempty E A w ref ix _ v quiet (ta_store _ _ _ _ _ _ (so_pages _ _ _ _ _ HS)) Hix Hst Hsuits)
    as (tids & P' & Er & Hk & Ht).
  unfold Storage.reads. rewrite Er. cbn. split; [by exists P'|]. rewrite Ht, <- (entries_filter w t idx (fun k => k = v) (PhysicalSpec.has_key w t idx v)); [done|..].
  - intros e k _ Ev. unfold PhysicalSpec.has_key. rewrite Ev. split; [by intros ->|by intros [= ->]].
  - intros r Hr. unfold PhysicalSpec.has_key. by rewrite Hr.
Qed.

(** The bounds of the optimizer are those of the range search. *)
Lemma bound_keys x v ty : NodeSpec.type_name x = type_of_keys ty -> ty <> ExprTypeBool -> PhysicalSpec.bound_typed v ty -> SearchSpec.bound_key x v.
Proof. intros Hx Hne [->|Hv]; [by left|]. right. by apply (keys_typed (IndexManager.BTreeIndex x) v ty). Qed.

Lemma over_above tn f fi k : f = ANil \/ key_kind tn f -> key_kind tn k -> SearchSpec.over f fi k <-> PhysicalSpec.above f fi k.
Proof.
  unfold SearchSpec.over, PhysicalSpec.above. intros [->|Hf] Hk; [tauto|]. destruct fi; [|naive_solver].
  destruct (NodeSpec.key_trichotomy tn f k Hf Hk) as [H|[->|H]].
  - split; [naive_solver|]. intros _. right. by apply NodeSpec.lt_le.
  - split; [naive_solver|]. intros _. right. apply NodeSpec.le_refl.
  - split.
    + intros [->|Hn]; [by left|by destruct Hn].
    + intros [->|[Hn|[_ ->]]]; [by left|right; by apply NodeSpec.lt_le|right; apply NodeSpec.le_refl].
Qed.

Lemma under_below tn u ui k : u = ANil \/ key_kind tn u -> key_kind tn k -> SearchSpec.under u ui k <-> PhysicalSpec.below u ui k.
Proof.
  unfold SearchSpec.under, PhysicalSpec.below. intros [->|Hu] Hk; [tauto|]. destruct ui; [|naive_solver].
  destruct (NodeSpec.key_trichotomy tn u k Hu Hk) as [H|[->|H]].
  - split.
    + intros [->|Hn]; [by left|by destruct Hn].
    + intros [->|[Hn|[_ ->]]]; [by left|right; by apply NodeSpec.lt_le|right; apply NodeSpec.le_refl].
  - split; [naive_solver|]. intros _. right. apply NodeSpec.le_refl.
  - split; [naive_solver|]. intros _. right. by apply NodeSpec.lt_le.
Qed.

(** The keys of a BTree index are of its type. *)
Lemma tree_keys E A x es : stands E A (IndexManager.BTreeIndex x) es -> Forall (fun e => key_kind (NodeSpec.type_name x) e.1) es.
Proof.
  intros (es' & <- & entries & (N & H & tr & HT & ->) & ->). apply Forall_forall. intros [k tid] Hin.
  apply list_elem_of_In, in_concat in Hin. destruct Hin as (l & Hl & Hk).
  apply list_elem_of_In in Hl, Hk. apply list_elem_of_fmap in Hl as ([k' tids] & -> & He).
  apply list_elem_of_fmap in Hk as (tid' & [= <- <-] & _). cbn.
  pose proof (TreeSpec.all_keys_range (NodeSpec.type_name x) None None tr I (BTreeProofs.ti_ordered _ _ _ _ _ HT)) as Hr.
  rewrite <- (TreeSpec.entries_keys (TreeSpec.leaves tr)) in Hr.
  2:{ intros lf Hlf. by apply (TreeSpec.ordered_lengths (NodeSpec.type_name x) lf None None tr (BTreeProofs.ti_ordered _ _ _ _ _ HT)). }
  rewrite Forall_forall in Hr. apply (Hr k). apply list_elem_of_fmap. by exists (k, tids).
Qed.

Lemma range_read w t ref idx f fi u ui ty :
  sound_table w t -> IndexManager.byName w !! IndexDefinition.name idx = Some ref -> PhysicalSpec.index_listed w t idx IndexTypeBTree ->
  PhysicalSpec.key_type w t idx ty -> PhysicalSpec.bound_typed f ty -> PhysicalSpec.bound_typed u ty ->
  reads (IndexManager.RangeSearch ref f fi u ui) w (fun tids =>
    tids ≡ₚ fst <$> filter (fun e => PhysicalSpec.key_between w t idx f fi u ui e.2) (table_contents w t)).
Proof using quiet.
  intros (E & A & pages & HS) Href Hl Hty Hf Hu. destruct (so_indexes _ _ _ _ _ HS _ idx Hl) as (ref' & ix & Hn & Hix & Hkind & _ & Hkeys & Hst). specialize (Hkeys ty Hty).
  assert (ref' = ref) as -> by congruence. rewrite (listed_kind _ _ _ _ Hl) in Hkind.
  destruct ix as [x|x]; [discriminate Hkind|]. cbn [index_keys] in Hkeys. pose proof (key_not_bool _ _ _ _ Hty) as Hne.
  pose proof (bound_keys x f ty Hkeys Hne Hf) as Hfk. pose proof (bound_keys x u ty Hkeys Hne Hu) as Huk.
  destruct (IndexContract.manager_range_kept root0 root_nonempty E A w ref x _ f fi u ui quiet (ta_store _ _ _ _ _ _ (so_pages _ _ _ _ _ HS)) Hix Hst Hfk Huk)
    as (tids & P' & Er & Hk & Ht).
  unfold Storage.reads. rewrite Er. cbn. split; [by exists P'|]. rewrite Ht.
  rewrite <- (entries_filter w t idx (fun k => SearchSpec.over f fi k /\ SearchSpec.under u ui k) (PhysicalSpec.key_between w t idx f fi u ui)); [done|..].
  - intros e k He Ev. unfold PhysicalSpec.key_between. rewrite Ev.
    assert (Hkk : key_kind (NodeSpec.type_name x) k).
    { pose proof (tree_keys E A x _ Hst) as Hall. rewrite Forall_forall in Hall. apply (Hall (k, e.1)).
      apply list_elem_of_omap. exists e. split; [done|]. by rewrite Ev. }
    by rewrite (over_above (NodeSpec.type_name x)), (under_below (NodeSpec.type_name x)).
  - intros r Hr Hb. unfold PhysicalSpec.key_between in Hb. by rewrite Hr in Hb.
Qed.

Lemma row_nonempty w t tid r : sound_table w t -> (tid, r) ∈ table_contents w t -> r <> [].
Proof.
  intros (E & A & pages & [HT _]). rewrite (contents_paged E A t pages w HT). intros (i & slot & rows & -> & Hi & Hs)%elem_of_paged ->.
  destruct (ta_pages _ _ _ _ _ _ HT i (Some rows)) as [_ (b & ds & _ & _ & Hds)]; [by rewrite list_lookup_fmap, Hi|].
  destruct (Forall2_lookup_l _ _ _ _ _ Hds Hs) as (d & _ & [(dts & Ht & Hv) _]). apply (ta_columns _ _ _ _ _ _ HT).
  inversion Hv; subst. by inversion Ht.
Qed.

#[export] Program Instance database_laws : StorageLaws db := {
  faulty := False;
  contents := table_contents;
  sound := sound_table;
  heap_for w h t := h = heap_of w t;
  index_for w ref idx := IndexManager.byName w !! IndexDefinition.name idx = Some ref;
  same := same_database
}.
Next Obligation. intros w w' t. apply same_sound_table. Qed.
Next Obligation. intros w w' t. apply same_table. Qed.
Next Obligation. by intros w w' h t (P' & -> & _) ->. Qed.
Next Obligation. by intros w w' ref idx (P' & -> & _). Qed.
Next Obligation. by intros w w' t (P' & -> & _). Qed.
Next Obligation. by intros w w' t (P' & -> & _). Qed.
Next Obligation. by intros w w' t n (P' & -> & _). Qed.
Next Obligation. by intros w w' o (P' & -> & _). Qed.
Next Obligation. intros w t tid r. apply row_nonempty. Qed.
Next Obligation. intros w t. apply heap_read. Qed.
Next Obligation. intros w h t Hs ->. by apply scan_read. Qed.
Next Obligation. intros w h t tid r Hs ->. by apply row_read. Qed.
Next Obligation. intros w t idx kt ty Hs Hl Hty. by apply (index_read w t idx kt ty). Qed.
Next Obligation. intros w t ref idx v ty Hs Hr Hl Hty Hv. by apply (search_read w t ref idx IndexTypeHash v ty). Qed.
Next Obligation. intros w t ref idx f fi u ui ty Hs Hr Hl Hty Hf Hu. by apply (range_read w t ref idx f fi u ui ty). Qed.
End laws.
End DatabaseLaws.
