(* ===== verification/DatabaseInsert.v ===== *)
(** * DatabaseInsert: an INSERT keeps the table and its indexes in step

    [InsertExecutor.Next] on the database: the row goes to the first page with
    room, and its TID into every index of the table.  A sound table stays
    sound, with one more row ([insert_sound]). *)

From S2P Require Import Prelude GoRuntime Utf8 Lexer Ast Parser HeapPage TupleSerializer Replacer PageFile BufferPool PoolCalm PageStore CatalogModel Semantic CatalogManager CatalogJournal Eval Planner Optimizer Storage TableHeap IndexPage HashIndex BTreeIndex IndexManager Executors SqlService Database DatabaseLaws.
#[local] Open Scope Z_scope.

Module DatabaseInsert.
Import HeapBufferPoolManager HeapSpec IndexPage Database DatabaseLaws.

Section inserts.
Context {R D : Type} `{RR : Replacer R, RL : !ReplacerLaws R, DM : PageFileManager D, DL : !PageFileLaws D}.
Context `{FT : !FileStat D, FL : !FileStatLaws D}.
Context (root0 : string) (root_nonempty : root0 <> ""%string) (quiet : reliable).
Notation db := (Database.t R D).
Implicit Types (w : db) (t : TableDefinition.t) (idx : IndexDefinition.t) (P : Pool R D) (os : list IndexManager.Index).

Notation open_for := (open_for root0 root_nonempty).
Notation sound_at := (sound_at root0 root_nonempty).
Notation contents := (table_contents root0).
Notation index_entries := (index_entries root0).
Notation stands := (IndexContract.stands root0 root_nonempty).
Notation accepts := (IndexContract.accepts root0 root_nonempty).

(** The database with other pages and other index objects. *)
Definition moved P os w : db := IndexManager.with_objects os (IndexContract.with_pages P w).

Definition listed w t : list IndexDefinition.t :=
  match DefaultCatalogManager.ListIndexes (cm_of w) t with Ok l => l | _ => [] end.

(** The catalog keeps the files of the table and of its indexes apart, and its
    columns in the order of their positions. *)
Record arranged w t : Prop := {
  ar_files : NoDup (TableDefinition.fileNode t :: (IndexDefinition.fileNode <$> listed w t));
  ar_order i col : columns_of w t !! i = Some col -> ColumnDefinition.position col = Z.of_nat i
}.

Lemma arranged_moved P os w t : arranged w t -> arranged (moved P os w) t.
Proof. by intros []. Qed.

(** The table has the pages, and each of its indexes its entries. *)
Record stage E A pages (ent : IndexDefinition.t -> list (any * TID)) w t : Prop := {
  sg_pages : table_at root0 E A (heap_of w t) (Some <$> pages) (cm_of w);
  sg_open idx : idx ∈ listed w t -> open_for E A w t idx (ent idx)
}.

Lemma listed_indexes w t idx kt : PhysicalSpec.index_listed w t idx kt -> idx ∈ listed w t.
Proof. unfold listed. by intros (l & Hl & Hin & _); cbn in Hl; rewrite Hl. Qed.

Lemma sound_stage E A pages w t : sound_at E A pages w t -> stage E A pages (index_entries w t) w t.
Proof.
  intros [HT HI]. split; [done|]. intros idx Hidx. apply (HI (IndexDefinition.indexType idx)).
  unfold listed in Hidx. destruct (DefaultCatalogManager.ListIndexes (cm_of w) t) as [l|e|] eqn:El; [|by apply elem_of_nil in Hidx..].
  by exists l.
Qed.

Lemma stage_sound E A pages ent w t :
  stage E A pages ent w t -> (forall idx, idx ∈ listed w t -> ent idx ≡ₚ index_entries w t idx) -> sound_at E A pages w t.
Proof.
  intros [HT HI] Hent. split; [done|]. intros kt idx Hl. apply listed_indexes in Hl.
  destruct (HI idx Hl) as (ref & ix & H1 & H2 & H3 & H4 & H5 & H6). exists ref, ix. split_and!; try done.
  by eapply IndexContract.stands_perm; [apply Hent|].
Qed.

(** Pages that are not in the file of the table may change. *)
Lemma table_at_elsewhere E A E' A' P heap pages cm f :
  table_at root0 E A heap pages cm -> PageStore.store_but root0 E' A' P -> f <> TableDefinition.fileNode (TableHeap.table heap) ->
  (forall k, FileID k <> f -> E' k -> E k) -> elsewhere f A A' -> table_at root0 E' A' heap pages (CatalogJournal.with_pool P cm).
Proof.
  intros [] Hst Hf HE HA. split; try done. intros i o Ho. destruct (ta_pages0 i o Ho) as [Hn Hp].
  assert (Hk : FileID (heap_key heap i) <> f) by by intros <-. split; [by intros ?%HE|].
  eapply (page_rows_types cm); [done|]. destruct o as [rows|]; cbn in *; [|by rewrite HA].
  destruct Hp as (b & ds & H1 & H2). exists b, ds. by rewrite HA.
Qed.

(** A file is not touched by changes in another one. *)
Lemma frames_elsewhere f g E A E' A' :
  f <> g -> (forall k, FileID k <> g -> E' k -> E k) -> elsewhere g A A' -> IndexContract.frames f E A E' A'.
Proof. intros Hne HE HA. split; intros k <-; [|intros _ _]; [intros Hn ?%HE; [done|congruence]|apply HA; congruence]. Qed.

(** ** One index *)
Lemma index_step E A pages ent w t idx k tid ref w' :
  arranged w t -> stage E A pages ent w t -> idx ∈ listed w t ->
  IndexManager.byName w !! IndexDefinition.name idx = Some ref ->
  (forall ix, IndexManager.objects w !! ref = Some ix -> accepts E A ix (ent idx) k tid) ->
  IndexManager.Insert ref k tid w = (Ok tt, w') ->
  exists P' os' E' A', w' = moved P' os' w /\
    stage E' A' pages (fun i => if decide (i = idx) then (k, tid) :: ent i else ent i) w' t /\
    (forall f, f <> IndexDefinition.fileNode idx -> IndexContract.frames f E A E' A') /\
    forall i r, i ∈ listed w t -> i <> idx -> IndexManager.byName w !! IndexDefinition.name i = Some r ->
      os' !! r = IndexManager.objects w !! r.
Proof.
  intros [Hfiles _] [HT HI] Hidx Href Hacc Hrun. destruct (HI idx Hidx) as (ref0 & ix & Hn & Hix & Hkind & Hfile & Hkeys & Hst).
  assert (ref0 = ref) as -> by congruence.
  destruct (IndexContract.manager_stands root0 root_nonempty E A w ref ix (ent idx) k tid w' (ta_store _ _ _ _ _ _ HT) Hix Hst (Hacc ix Hix) Hrun)
    as (ix' & P' & E' & A' & -> & Hfile' & Hkeys' & Hkind' & Hst' & Hnew & HE' & HA').
  rewrite Hfile in *. apply NoDup_cons in Hfiles as [Htable Hfiles].
  assert (Hframe : forall f, f <> IndexDefinition.fileNode idx -> IndexContract.frames f E A E' A') by (intros f Hf; by eapply frames_elsewhere).
  assert (Hother : forall i r, i ∈ listed w t -> i <> idx -> IndexManager.byName w !! IndexDefinition.name i = Some r ->
    IndexDefinition.fileNode i <> IndexDefinition.fileNode idx /\ r <> ref).
  { intros i r Hi Hne Hr. assert (Hff : IndexDefinition.fileNode i <> IndexDefinition.fileNode idx).
    { intros Heq. apply Hne. by apply (distinct_eq IndexDefinition.fileNode (listed w t)). }
    split; [done|]. destruct (HI i Hi) as (r' & j & H1 & H2 & _ & H4 & _). intros ->. congruence. }
  exists P', (<[ref:=ix']> (IndexManager.objects w)), E', A'. split; [done|]. split; [|split; [done|]].
  2:{ intros i r Hi Hne Hr. destruct (Hother i r Hi Hne Hr) as [_ Hrr]. by rewrite list_lookup_insert_ne. }
  split.
  - apply (table_at_elsewhere E A E' A' P' (heap_of w t) (Some <$> pages) (cm_of w) (IndexDefinition.fileNode idx)); try done.
    intros Heq. apply Htable, list_elem_of_fmap. by exists idx.
  - intros i Hi. change (i ∈ listed w t) in Hi. destruct (decide (i = idx)) as [->|Hne].
    + exists ref, ix'. cbn [moved IndexManager.with_objects IndexManager.objects]. rewrite list_lookup_insert_eq by by eapply lookup_lt_Some.
      split_and!; try done; try congruence. intros ty Hty. rewrite Hkeys'. by apply Hkeys.
    + destruct (HI i Hi) as (r & j & H1 & H2 & H3 & H4 & H5 & H6). destruct (Hother i r Hi Hne H1) as [Hff Hrr].
      exists r, j. cbn [moved IndexManager.with_objects IndexManager.objects]. rewrite list_lookup_insert_ne by done.
      split_and!; try done. eapply IndexContract.stands_frame; [|exact H6]. rewrite H4. by apply Hframe.
Qed.

(** ** All indexes *)

(** The key of a row in an index, as the executor finds it. *)
Definition entry_key (cols : list ColumnDefinition.t) (values : list any) idx : option any :=
  let p := Executors.position_of (IndexDefinition.columnOid idx) 0 cols in
  if p <? 0 then None else values !! Z.to_nat p.

Lemma index_run cols values tid idx l w ref w' :
  IndexManager.byName w !! IndexDefinition.name idx = Some ref ->
  Executors.insert_into_indexes cols values tid (idx :: l) w = (Ok tt, w') ->
  exists v w1, entry_key cols values idx = Some v /\ IndexManager.Insert ref v tid w = (Ok tt, w1) /\
    Executors.insert_into_indexes cols values tid l w1 = (Ok tt, w').
Proof.
  intros Href. cbn [Executors.insert_into_indexes]. unfold sbind at 1. cbn [Storage.GetOrCreate database_storage].
  unfold IndexManager.GetOrCreate. rewrite Href. unfold entry_key. set (p := Executors.position_of _ _ _).
  destruct (Z.ltb_spec p 0) as [Hp|Hp]; cbn [orb]; [by intros [=]|]. destruct (Z.leb_spec (Z.of_nat (length values)) p) as [Hl|Hl]; [by intros [=]|].
  unfold sbind at 1, slift, go_index. rewrite decide_True by done.
  destruct (lookup_lt_is_Some_2 values (Z.to_nat p)) as [v Hv]; [lia|]. rewrite Hv. cbn [of_option]. unfold sbind.
  cbn [Storage.IndexInsert database_storage]. destruct (IndexManager.Insert ref v tid w) as [[[]|e|] w1] eqn:Ei; [|by intros [=]..].
  intros Hrun. by exists v, w1.
Qed.

Lemma indexes_loop pages cols values tid t l : forall E A ent w w',
  arranged w t -> stage E A pages ent w t -> NoDup l -> (forall idx, idx ∈ l -> idx ∈ listed w t) ->
  (forall idx ref ix v, idx ∈ l -> IndexManager.byName w !! IndexDefinition.name idx = Some ref ->
     IndexManager.objects w !! ref = Some ix -> entry_key cols values idx = Some v -> accepts E A ix (ent idx) v tid) ->
  Executors.insert_into_indexes cols values tid l w = (Ok tt, w') ->
  exists P' os' E' A' ent', w' = moved P' os' w /\ stage E' A' pages ent' w' t /\
    forall idx, (idx ∈ l -> exists v, entry_key cols values idx = Some v /\ ent' idx = (v, tid) :: ent idx) /\
      (idx ∉ l -> ent' idx = ent idx).
Proof.
  induction l as [|idx l IH]; intros E A ent w w' Har Hst Hnd Hl Hacc Hrun.
  { injection Hrun as <-. exists (pool_of w), (IndexManager.objects w), E, A, ent. split; [by destruct w as [? [] ? ?]|].
    split; [done|]. intros idx. split; [by intros ?%elem_of_nil|done]. }
  apply NoDup_cons in Hnd as [Hnin Hnd]. assert (Hidx : idx ∈ listed w t) by (apply Hl; by left).
  destruct (sg_open _ _ _ _ _ _ Hst idx Hidx) as (ref & _ & Href & _).
  destruct (index_run cols values tid idx l w ref w' Href Hrun) as (v & w1 & Hv & Hins & Hrun1).
  destruct (index_step E A pages ent w t idx v tid ref w1 Har Hst Hidx Href) as (P1 & os1 & E1 & A1 & -> & Hst1 & Hfr & Hos); [|done|].
  { intros ix Hix. by apply (Hacc idx ref); [left|..]. }
  edestruct (IH E1 A1 _ (moved P1 os1 w) w' (arranged_moved _ _ _ _ Har) Hst1 Hnd) as (P' & os' & E' & A' & ent' & -> & Hst' & Hent'); [| |exact Hrun1|].
  - intros i Hi. apply Hl. by right.
  - intros i r ix k Hi Hr Hix Hk. assert (Hne : i <> idx) by (by intros ->). rewrite decide_False by done.
    assert (Hil : i ∈ listed w t) by (apply Hl; by right).
    change (IndexManager.byName w !! IndexDefinition.name i = Some r) in Hr. change (os1 !! r = Some ix) in Hix. rewrite (Hos i r Hil Hne Hr) in Hix.
    eapply IndexContract.accepts_frame; [|by apply (Hacc i r ix k); [right|..]].
    destruct (sg_open _ _ _ _ _ _ Hst i Hil) as (r' & ix' & Hr' & Hix' & _ & Hf & _). assert (r' = r) as -> by congruence.
    assert (ix' = ix) as -> by congruence. rewrite Hf. apply Hfr. intros Heq. apply Hne.
    apply (distinct_eq IndexDefinition.fileNode (listed w t)); [|done..]. by destruct Har as [[_ ?]%NoDup_cons _].
  - exists P', os', E', A', ent'. split; [done|]. split; [done|]. intros i. destruct (Hent' i) as [Hin Hout]. split.
    + intros [->|Hi]%elem_of_cons.
      * exists v. split; [done|]. rewrite Hout by done. by rewrite decide_True.
      * destruct (Hin Hi) as (k & Hk & ->). exists k. split; [done|]. rewrite decide_False; [done|]. by intros ->.
    + intros Hn. rewrite Hout by (intros Hi; apply Hn; by right). rewrite decide_False; [done|]. intros ->. apply Hn. by left.
Qed.

(** ** The statement *)
Lemma position_found oid cols : forall k,
  (forall i col, cols !! i = Some col -> ColumnDefinition.position col = k + Z.of_nat i) ->
  Executors.position_of oid k cols =
    match find (fun col => ColumnDefinition.oid col =? oid) cols with Some col => ColumnDefinition.position col | None => -1 end.
Proof.
  induction cols as [|col cols IH]; intros k Hk; [done|]. cbn [Executors.position_of find].
  destruct (ColumnDefinition.oid col =? oid); [by rewrite (Hk 0%nat col), Z.add_0_r|]. apply IH.
  intros i c Hi. rewrite (Hk (S i) c Hi). lia.
Qed.

Lemma entry_key_indexed w t idx values :
  arranged w t -> entry_key (columns_of w t) values idx = PhysicalSpec.indexed_value w t idx values.
Proof.
  intros [_ Hord]. unfold entry_key. rewrite (position_found _ _ 0) by (intros i col Hi; by rewrite (Hord i col Hi)).
  unfold PhysicalSpec.indexed_value. cbn [Semantic.GetColumns database_catalog storage_catalog database_storage].
  change (DefaultCatalogManager.GetColumns (cm_of w) t) with (Ok (columns_of w t)). cbn beta iota.
  destruct (find _ (columns_of w t)) as [col|] eqn:Ef; [|done].
  apply find_some in Ef as [Hin _]. apply list_elem_of_In, list_elem_of_lookup in Hin as [i Hi].
  rewrite (Hord i col Hi). by rewrite (proj2 (Z.ltb_ge _ _)) by lia.
Qed.

Lemma paged_insert pages i rows v :
  pages !! i = Some rows ->
  paged (<[i:=rows ++ [v]]> pages) ≡ₚ (NewTID (Z.of_nat i) (Z.of_nat (length rows)), v) :: paged pages.
Proof.
  intros Hi. pose proof (lookup_lt_Some _ _ _ Hi) as Hlt. unfold paged.
  rewrite <- (take_drop_middle pages i rows Hi) at 2. rewrite insert_take_drop by done.
  rewrite !imap_app, !concat_app. cbn [imap concat]. rewrite !length_take, Nat.min_l, !Nat.add_0_r by lia.
  assert (Hnew : entries_of_page i (rows ++ [v]) = entries_of_page i rows ++ [(NewTID (Z.of_nat i) (Z.of_nat (length rows)), v)]).
  { unfold entries_of_page, row_tids. rewrite length_app. cbn [length]. rewrite seq_app, fmap_app.
    rewrite zip_with_app by by rewrite length_fmap, length_seq. done. }
  rewrite Hnew. rewrite <- app_assoc. cbn. by rewrite <- Permutation_middle, <- Permutation_middle.
Qed.

(** Some page has room for the row. *)
Definition roomy w t (pages : list (list row)) (values : row) : Prop :=
  exists j, (j < length pages)%nat /\
    forall d, encodes (cm_of w) (heap_of w t) values d -> ~ full (cm_of w) (heap_of w t) (Some <$> pages) j d.

(** Every index takes the key of the row. *)
Definition takes E A w t (values : row) : Prop :=
  forall idx ref ix v tid, idx ∈ listed w t -> IndexManager.byName w !! IndexDefinition.name idx = Some ref ->
    IndexManager.objects w !! ref = Some ix -> PhysicalSpec.indexed_value w t idx values = Some v -> tid_ok tid ->
    accepts E A ix (index_entries w t idx) v tid.

(** The insertion into the table alone. *)
Lemma row_step E A pages w t values :
  sound_at E A pages w t -> row_ok (cm_of w) (columns_of w t) values -> roomy w t pages values ->
  exists P' i rows b, pages !! i = Some rows /\ tid_ok (NewTID (Z.of_nat i) (Z.of_nat (length rows))) /\
    on_catalog (TableHeap.InsertRow (heap_of w t) values) w =
      (Ok (NewTID (Z.of_nat i) (Z.of_nat (length rows))), moved P' (IndexManager.objects w) w) /\
    let A' := PageStore.put (heap_key (heap_of w t) i) b A in
    table_at root0 E A' (heap_of w t) (Some <$> <[i:=rows ++ [values]]> pages) (cm_of (moved P' (IndexManager.objects w) w)).
Proof using quiet root_nonempty.
  intros [HT _] (dts & Hty & Hv) (j & Hj & Hroom).
  destruct (columns_codec _ _ _ _ Hty Hv) as (d & Hne & Hser & _). specialize (Hne (ta_columns _ _ _ _ _ _ HT)).
  assert (Hd : encodes (cm_of w) (heap_of w t) values d).
  { split; [by exists dts|]. pose proof (Hser [] [] None) as Hs. rewrite app_nil_r in Hs.
    unfold TableHeap.serializeRow. etransitivity; [exact Hs|]. by rewrite append_opt_some. }
  set (X := fun (_ : PageKey -> option (list byte)) cm => exists P, cm = CatalogJournal.with_pool P (cm_of w)).
  assert (HB : beside root0 E (heap_of w t) X).
  { split; [by intros A0 cm P _ (P0 & ->); exists P|]. by intros A0 cm i ref pg b b' P' (P0 & ->) _ _ _; exists P'. }
  assert (Hcm : cm_of w = CatalogJournal.with_pool (pool_of w) (cm_of w)) by (unfold pool_of; by destruct (cm_of w)).
  destruct (InsertRow_at root0 root_nonempty X E A (heap_of w t) (Some <$> pages) (cm_of w) values [] d j HB HT) as [_ (tid & i & Hr & _ & Hput)];
    [by exists (pool_of w)|done|by rewrite length_fmap| |].
  { intros [Hu|Hf]; [|by apply (Hroom d)]. destruct (lookup_lt_is_Some_2 pages j Hj) as [rows Hrows].
    by apply (unread_reliable root0 root_nonempty E A (heap_of w t) (Some <$> pages) (cm_of w) j rows HT ltac:(by rewrite list_lookup_fmap, Hrows) Hu). }
  rewrite app_nil_r in Hr, Hput. unfold on_catalog, IndexManager.on_catalog. fold (cm_of w).
  destruct (TableHeap.InsertRow (heap_of w t) values (cm_of w)) as [r cm']. cbn [fst snd] in *. subst r.
  destruct Hput as (rows & b & Hrows & -> & _ & HT' & P' & ->). rewrite list_lookup_fmap in Hrows.
  destruct (pages !! i) as [rows'|] eqn:Ei; [|done]. injection Hrows as ->. exists P', i, rows, b. split; [done|]. split; [|split; [done|]].
  - destruct (ta_pages _ _ _ _ _ _ HT i (Some rows)) as [_ (b0 & ds & _ & HR & Hds)]; [by rewrite list_lookup_fmap, Ei|].
    pose proof (page_slots _ _ HR). rewrite <- (Forall2_length _ _ _ Hds) in H.
    pose proof (ta_range _ _ _ _ _ _ HT) as Hrange. rewrite length_fmap in Hrange. apply lookup_lt_Some in Ei.
    split; cbn; unfold in_sint; lia.
  - cbv zeta. rewrite list_fmap_insert. exact HT'.
Qed.

(** C2: an INSERT keeps the table and all its indexes in step: on a disk that
    does not fail, for a sound table that has a page with room for the row and
    whose indexes take its key, when [InsertExecutor.Next] succeeds the table
    has exactly one more row, under a new TID, every index of the table, hash
    or BTree, stands for the rows that are now there, and the catalog is as it
    was: the table is sound again, and so it stays with the next INSERT. *)
Theorem insert_sound E A pages w t values w' :
  sound_at E A pages w t -> arranged w t -> row_ok (cm_of w) (columns_of w t) values -> roomy w t pages values -> takes E A w t values ->
  Executors.insert (W:=db) (H:=database_storage) (heap_of w t) t (columns_of w t) values w = (Ok tt, w') ->
  (exists P' os', w' = moved P' os' w) /\ arranged w' t /\
  exists E' A' pages' tid, sound_at E' A' pages' w' t /\ contents w' t ≡ₚ (tid, values) :: contents w t.
Proof using quiet.
  intros HS Har Hrow Hroom Htakes Hrun. pose proof (so_pages _ _ _ _ _ _ _ HS) as HT.
  destruct (row_step E A pages w t values HS Hrow Hroom) as (P1 & i & rows & b & Hi & Htid & Hins & HT1).
  set (tid := NewTID (Z.of_nat i) (Z.of_nat (length rows))) in *. set (w1 := moved P1 (IndexManager.objects w) w) in *. cbv zeta in HT1.
  set (A1 := PageStore.put _ b A) in *. set (pages1 := <[i:=rows ++ [values]]> pages) in *.
  assert (Hfr : forall f, f <> TableDefinition.fileNode t -> IndexContract.frames f E A E A1).
  { intros f Hf. eapply frames_elsewhere; [exact Hf|done|]. apply (elsewhere_page (heap_key (heap_of w t) i)). }
  pose proof (sound_stage E A pages w t HS) as [_ HI]. pose proof Har as [Hfiles _]. apply NoDup_cons in Hfiles as [Htable Hfiles].
  assert (Hfile : forall idx, idx ∈ listed w t -> IndexDefinition.fileNode idx <> TableDefinition.fileNode t).
  { intros idx Hidx Heq. apply Htable, list_elem_of_fmap. by exists idx. }
  assert (Hst1 : stage E A1 pages1 (index_entries w t) w1 t).
  { split; [exact HT1|]. intros idx Hidx. destruct (HI idx Hidx) as (ref & ix & H1 & H2 & H3 & H4 & H5 & H6).
    exists ref, ix. split_and!; try done. eapply IndexContract.stands_frame; [|exact H6]. rewrite H4. by apply Hfr, Hfile. }
  assert (Hloop : Executors.insert_into_indexes (columns_of w t) values tid (listed w t) w1 = (Ok tt, w')).
  { unfold Executors.insert, sbind in Hrun. cbn [Storage.InsertRow database_storage] in Hrun. rewrite Hins in Hrun. cbn [sget] in Hrun.
    unfold slift in Hrun. exact Hrun. }
  destruct (indexes_loop pages1 (columns_of w t) values tid t (listed w t) E A1 _ w1 w' (arranged_moved _ _ _ _ Har) Hst1)
    as (P' & os' & E' & A' & ent' & -> & Hst' & Hent); [by eapply NoDup_fmap_1|done| |exact Hloop|].
  { intros idx ref ix v Hidx Href Hix Hv. rewrite (entry_key_indexed w t idx values Har) in Hv.
    destruct (HI idx Hidx) as (r & j & H1 & H2 & _ & H4 & _). assert (r = ref) as -> by (change (IndexManager.byName w !! IndexDefinition.name idx = Some ref) in Href; congruence).
    assert (j = ix) as -> by (change (IndexManager.objects w !! ref = Some ix) in Hix; congruence).
    eapply IndexContract.accepts_frame; [rewrite H4; by apply Hfr, Hfile|]. by apply (Htakes idx ref ix v tid). }
  change (moved P' os' w1) with (moved P' os' w) in *.
  split; [by exists P', os'|]. split; [exact (arranged_moved P' os' w t Har)|]. exists E', A', pages1, tid.
  assert (Hc : contents (moved P' os' w) t ≡ₚ (tid, values) :: contents w t).
  { rewrite (contents_paged root0 E' A' t pages1) by apply Hst'. rewrite (contents_paged root0 E A t pages) by apply HT. by apply paged_insert. }
  split; [|exact Hc]. apply (stage_sound E' A' pages1 ent'); [exact Hst'|]. intros idx Hidx. change (idx ∈ listed w t) in Hidx.
  destruct (proj1 (Hent idx) Hidx) as (v & Hv & ->). rewrite (entry_key_indexed w t idx values Har) in Hv.
  unfold DatabaseLaws.index_entries. rewrite Hc. cbn [omap list_omap snd fst].
  change (PhysicalSpec.indexed_value (moved P' os' w) t idx) with (PhysicalSpec.indexed_value w t idx). rewrite Hv. done.
Qed.
End inserts.
End DatabaseInsert.
