(* ===== verification/DatabaseSelect.v ===== *)
(** * DatabaseSelect: the text of a SELECT on the real storage

    [SqlService.Execute] on the database with its buffer pool, catalog, table
    heaps and indexes: on a disk that does not fail a SELECT on a sound table
    answers with exactly its rows ([database_select]).  What the contract of
    the executors leaves to the storage, the types of the fields and the
    positions of the columns, is read off the pages and the catalog. *)

From S2P Require Import Prelude GoRuntime Utf8 Lexer Ast Parser HeapPage TupleSerializer Replacer PageFile BufferPool PoolCalm PageStore CatalogModel Semantic CatalogManager CatalogJournal Eval Planner Optimizer Storage TableHeap IndexPage HashIndex BTreeIndex IndexManager Executors SqlService Database DatabaseLaws.
#[local] Open Scope Z_scope.

Module DatabaseSelect.
Import HeapBufferPoolManager HeapSpec Database DatabaseLaws.

Section select.
Context {R D : Type} `{RR : Replacer R, RL : !ReplacerLaws R, DM : PageFileManager D, DL : !PageFileLaws D}.
Context `{FT : !FileStat D, FL : !FileStatLaws D}.
Context (root0 : string) (root_nonempty : root0 <> ""%string) (quiet : reliable).
Notation db := (Database.t R D).
Implicit Types (w : db) (t : TableDefinition.t).
Notation contents := (table_contents root0).
Notation sound := (sound_table root0 root_nonempty).

(** The columns of a table are numbered in their order, and their types have
    the names the analyzer knows. *)
Record numbered w t : Prop := {
  nu_oids : NoDup (ColumnDefinition.oid <$> columns_of w t);
  nu_order i col : columns_of w t !! i = Some col -> ColumnDefinition.position col = Z.of_nat i;
  nu_types col td : col ∈ columns_of w t -> Semantic.GetTypeByOid w (ColumnDefinition.typeOid col) = Ok (Some td) ->
    TypeDefinition.name td = "INT64" \/ TypeDefinition.name td = "VARCHAR"
}.

Lemma column_listed w t n col : Semantic.GetColumn w t n = Ok (Some col) -> col ∈ columns_of w t.
Proof.
  intros [= E]. unfold columns_of, DefaultCatalogManager.GetColumns. cbn.
  destruct (list_find _ _) as [[i c]|] eqn:Ef; [|done]. cbn in E. injection E as ->.
  apply list_find_Some in Ef as (Hi & _). by eapply list_elem_of_lookup_2.
Qed.

Lemma numbered_wf w t : numbered w t -> PhysicalSpec.table_wf w t.
Proof.
  intros [Ho _ _]. split.
  - intros n col Hc. exists (columns_of w t). split; [done|]. by eapply column_listed.
  - intros cols [= <-]. exact Ho.
  - done.
Qed.

(** A row as it is stored has a field for every column, of its type. *)
Lemma stored_typed (cm : DefaultCatalogManager.t R D) (cols : list ColumnDefinition.t) r i col :
  row_ok cm cols r -> cols !! i = Some col ->
  exists v dt, r !! i = Some v /\ TableHeap.column_type cm col = Ok dt /\ storable v dt.
Proof.
  intros (dts & Ht & Hv) Hi. destruct (Forall2_lookup_l _ _ _ _ _ Ht Hi) as (dt & Hd & Hdt).
  destruct (Forall2_lookup_r _ _ _ _ _ Hv Hd) as (v & Hr & Hs). by exists v, dt.
Qed.

Lemma storable_value_type w col dt v td :
  TypeDefinition.name td = "INT64" \/ TypeDefinition.name td = "VARCHAR" ->
  TableHeap.column_type (cm_of w) col = Ok dt -> storable v dt ->
  Semantic.GetTypeByOid w (ColumnDefinition.typeOid col) = Ok (Some td) -> Typing.value_type v (Analyzer.toExprType td).
Proof.
  unfold TableHeap.column_type. cbn [Semantic.GetTypeByOid database_catalog]. intros Hn Hdt Hs Htd. rewrite Htd in Hdt. cbn [obind] in Hdt.
  unfold Analyzer.toExprType. destruct Hn as [Hn|Hn]; rewrite Hn in *.
  - change (Ok INT64 = Ok dt) in Hdt. injection Hdt as <-. by destruct v as [| | |]; try done; destruct Hs.
  - change (Ok VARCHAR = Ok dt) in Hdt. injection Hdt as <-. by destruct v as [| | |]; try done; destruct Hs.
Qed.

(** The rows of a sound table have been stored. *)
Lemma contents_stored w t tid r : sound w t -> (tid, r) ∈ contents w t -> row_ok (cm_of w) (columns_of w t) r.
Proof.
  intros (E & A & pages & [HT _]). rewrite (contents_paged root0 E A t pages w HT). intros (i & slot & rows & -> & Hi & Hs)%elem_of_paged.
  destruct (ta_pages _ _ _ _ _ _ HT i (Some rows)) as [_ (b & ds & _ & _ & Hds)]; [by rewrite list_lookup_fmap, Hi|].
  by destruct (Forall2_lookup_l _ _ _ _ _ Hds Hs) as (d & _ & [Hok _]).
Qed.

Lemma column_field w t r col :
  numbered w t -> row_ok (cm_of w) (columns_of w t) r -> col ∈ columns_of w t ->
  0 <= ColumnDefinition.position col /\ exists v dt, r !! Z.to_nat (ColumnDefinition.position col) = Some v /\
    TableHeap.column_type (cm_of w) col = Ok dt /\ storable v dt.
Proof.
  intros Hn Hr [i Hi]%list_elem_of_lookup. rewrite (nu_order _ _ Hn i col Hi), Nat2Z.id. split; [lia|]. by eapply stored_typed.
Qed.

Lemma stored_row_typed w t r : numbered w t -> row_ok (cm_of w) (columns_of w t) r -> Predicates.row_typed w t r.
Proof.
  intros Hn Hr n col ty [Hc (td & Htd & <-)]. apply column_listed in Hc.
  destruct (column_field w t r col Hn Hr Hc) as [Hp (v & dt & Hv & Hdt & Hs)]. split; [done|]. exists v. split; [done|].
  eapply storable_value_type; [|done..]. by eapply nu_types.
Qed.

(** The columns of a SELECT are columns of its table. *)
Lemma select_columns all names tn wh w t cols f :
  Analyzer.Analyze w (SelectStmt all names tn wh) = Ok (SelectQueryTree t cols f) -> forall col, col ∈ cols -> col ∈ columns_of w t.
Proof.
  intros Ha col. apply AnalyzerProofs.Analyze_analyzes in Ha. inversion Ha as [| | |? ? ? ? ? ? _ Hc _|? ? ? ? ? ? _ Hs _|]; subst.
  - injection Hc as <-. done.
  - intros [i Hi]%list_elem_of_lookup. destruct (Forall2_lookup_r _ _ _ _ _ Hs Hi) as (n & _ & Hn). by eapply column_listed.
Qed.

Lemma elem_of_rows w t r : r ∈ snd <$> contents w t -> exists tid, (tid, r) ∈ contents w t.
Proof. intros ([tid r'] & -> & H)%list_elem_of_fmap. by exists tid. Qed.

(** C1: the SELECT of the real database: on a disk that does not fail, for a
    table that is sound, whatever its pages, its hash and BTree indexes and the
    pages in the buffer pool, executing the text of a SELECT always succeeds
    and returns the names of the target columns and, in some order, exactly the
    target fields of the rows on its pages that satisfy the WHERE clause; the
    table stays sound, with the same rows. *)
Theorem database_select sql all names tn wh w t cols f :
  sound w t -> numbered w t -> SqlServiceSpec.reads_as sql (SelectStmt all names tn wh) ->
  Analyzer.Analyze w (SelectStmt all names tn wh) = Ok (SelectQueryTree t cols f) ->
  exists n0 r w', (forall n, (n0 <= n)%nat -> SqlService.Execute n sql w = (Ok r, w')) /\
    columns r = map ColumnDefinition.name cols /\ affected r = 0 /\
    result_rows r ≡ₚ (project cols <$> match f with
                      | Some pred => filter (satisfies pred) (snd <$> contents w t)
                      | None => snd <$> contents w t
                      end) /\
    sound w' t /\ contents w' t = contents w t.
Proof using quiet.
  intros Hs Hn Hread Ha. set (SL := database_laws root0 root_nonempty quiet).
  destruct (SqlServiceSpec.select_run (SL := SL) sql all names tn wh w t cols f Hread Ha Hs) as (n0 & res & w' & Hrun & Hsame & Hres).
  - split; [by apply numbered_wf|]. intros r (tid & Hr)%elem_of_rows. apply stored_row_typed; [done|]. by eapply contents_stored.
  - intros r col (tid & Hr)%elem_of_rows Hc. destruct (column_field w t r col Hn) as [Hp (v & dt & Hv & _)];
      [by eapply contents_stored|by eapply select_columns|]. split; [done|by exists v].
  - destruct res as [r|e|]; [|done..]. destruct Hres as (Hc & Haff & _ & Hrows). exists n0, r, w'. split_and!; try done.
    + by apply (same_sound_table root0 root_nonempty w).
    + by apply (same_table root0 root_nonempty w).
Qed.
End select.
End DatabaseSelect.
