(* ===== verification/DatabaseRun.v ===== *)
(** * DatabaseRun: a database on files, with an index

    A run of the storage on files that do not fail: CREATE INDEX on the table
    of [TableHeap], the index opened by its manager, its row entered; then the
    table is sound ([filled_sound_at]) and the theorems of [DatabaseSelect] and
    [DatabaseInsert] apply to it: a query through the index, and one more row. *)

From S2P Require Import Prelude GoRuntime Utf8 Lexer Ast Parser HeapPage TupleSerializer Replacer PageFile BufferPool PoolCalm PageStore CatalogModel Semantic CatalogManager CatalogJournal Eval Planner Optimizer Storage TableHeap IndexPage HashIndex BTreeIndex BTreeNode BTreeTree BTreeSplit BTreeProofs BTreeInsert BTreeSpec IndexManager Executors SqlService Database DatabaseLaws DatabaseInsert DatabaseSelect.
#[local] Open Scope Z_scope.

Module DatabaseRun.
Import CatalogSpec HeapBufferPoolManager HeapSpec IndexPage Database DatabaseLaws DatabaseInsert DatabaseSelect.
Definition index_op : catalog_op (R:=LRUReplacer.t) (D:=FS) := OpCreateIndex "ix" "users" "id" IndexTypeBTree.
Definition with_index : DefaultCatalogManager.t LRUReplacer.t FS := (run_op index_op a_state).2.
Definition managed : db := IndexManager.NewIndexManager "data" with_index.
Definition an_index : IndexDefinition.t := default BTreeSpec.a_def (head (listed managed (a_table 1))).
Definition opened : db := (IndexManager.GetOrCreate an_index managed).2.
Definition filled : db := (IndexManager.Insert 0 (AInt64 7) (NewTID 0 0) opened).2.
Definition select_seven : string := "SELECT name FROM users WHERE id = 7;".

(** The files do not fail here. *)
#[local] Instance sure_files : PageFileLaws FS := FS_laws True.
#[local] Instance sure_stat : FileStatLaws FS := FS_stat_laws_of True.

Lemma sure : reliable.
Proof. exact I. Qed.

Lemma data_root : "data"%string <> ""%string.
Proof. discriminate. Qed.

(** A store on files that may fail is one on files that do not, if none of
    them has failed. *)
Section sure.
Implicit Types (P : Pool LRUReplacer.t FS).

Lemma on_file_sure b root P k :
  BufferPoolSpec.on_file (DL := FS_laws b) root P k =
    HeapPageFileManager.stored (disk P) (BufferPoolSpec.path_of root k) (PageID k).
Proof. reflexivity. Qed.

Lemma contents_sure b root P k : BufferPoolSpec.contents (DL := FS_laws b) root P k = BufferPoolSpec.contents (DL := FS_laws False) root P k.
Proof. unfold BufferPoolSpec.contents. by rewrite !on_file_sure. Qed.

Lemma represents_sure b root E A P :
  BufferPoolSpec.represents (DL := FS_laws False) root E A P -> BufferPoolSpec.represents (DL := FS_laws b) root E A P.
Proof.
  intros (H1 & H2 & H3). split; [exact H1|]. split; [exact H2|]. intros k Hg He. destruct (H3 k Hg He) as [Hc Hd].
  split; [|by rewrite contents_sure]. intros s c Hs Hdirty. rewrite on_file_sure. specialize (Hc s c Hs Hdirty).
  by rewrite on_file_sure in Hc.
Qed.

Definition peaceful P : bool :=
  bool_decide (healthy_files (disk P)) && bool_decide (map_Forall (fun k ref => rep_view (replacer P) !! k = Some ref) (pageTable P)).

Lemma store_sure E A P :
  PageStore.store_but (DL := FS_laws False) "data" E A P -> peaceful P = true -> PageStore.store_but (DL := FS_laws True) "data" E A P.
Proof.
  intros [Hr [Ha _]] [H1 H2]%andb_true_iff. apply bool_decide_eq_true in H1, H2.
  split; [by apply represents_sure|]. split; [exact Ha|]. intros _. split; [exact H1|exact H2].
Qed.
End sure.

Lemma indexed_session : CatalogJournal.session (DL := FS_laws False) (FL := FS_stat_laws_of False) "data" BufferPoolSpec.no_key with_index.
Proof.
  eapply (CatalogJournal.session_op "data" _ _ index_op); [exact a_state_session| |vm_compute; reflexivity].
  split; [vm_compute; reflexivity|]. split; [done|]. apply CatalogJournal.disk_room_dec. vm_compute. reflexivity.
Qed.

Notation store := (PageStore.store_but (DL := FS_laws True) "data").
Notation no_key := BufferPoolSpec.no_key.

(** After CREATE INDEX the pages are those the pool shows. *)
Lemma with_index_store : exists A, store no_key A (DefaultCatalogManager.bufferPool with_index) /\
  forall k, BufferPoolSpec.good_key Filepath.simple_name k ->
    A k = BufferPoolSpec.contents (DL := FS_laws True) "data" (DefaultCatalogManager.bufferPool with_index) k.
Proof.
  destruct (CatalogJournal.session_persisted (R:=LRUReplacer.t) (D:=FS) "data" data_root _ _ indexed_session) as (_ & _ & L & HP).
  destruct (CatalogJournal.p_logs _ _ _ _ HP) as (A & J & Hst & _). exists A.
  assert (Hs : store no_key A (DefaultCatalogManager.bufferPool with_index)).
  { apply store_sure; [apply (CatalogJournal.st_store _ _ _ _ _ Hst)|vm_compute; reflexivity]. }
  split; [exact Hs|]. intros k Hk. symmetry. apply (PageStore.store_known "data" no_key A _ k Hs Hk). intros [].
Qed.

(** The table, in a state of the database. *)
Definition table_pages : list (list row) := [[a_row]].

Lemma managed_columns : columns_of managed (a_table 1) = TableHeap.columns a_heap.
Proof. vm_compute. reflexivity. Qed.

Lemma row_encodes : encodes with_index a_heap a_row a_record.
Proof.
  split; [|vm_compute; reflexivity]. exists [INT64; VARCHAR]. split; [|apply storable_by_dec; vm_compute; reflexivity].
  rewrite a_columns. constructor; [vm_compute; reflexivity|]. constructor; [vm_compute; reflexivity|constructor].
Qed.

Lemma users_file : Filepath.simple_name (TableDefinition.fileNode (a_table 1)).
Proof. apply (bool_decide_unpack _). vm_compute. exact I. Qed.
Lemma index_name : Filepath.simple_name (IndexDefinition.fileNode an_index).
Proof. apply (bool_decide_unpack _). vm_compute. exact I. Qed.

Definition closed_index : DiskBTreeIndex.t := {|
  DiskBTreeIndex.root := "data"; DiskBTreeIndex.def := an_index; DiskBTreeIndex.fileID := IndexDefinition.fileNode an_index;
  DiskBTreeIndex.keyType := {| TypeDefinition.oid := 1; TypeDefinition.name := "INT64"; TypeDefinition.byteLength := 8 |};
  DiskBTreeIndex.meta := DiskBTreeIndex.zero_meta |}.

Lemma with_index_table : exists A, table_at (DL := FS_laws True) "data" no_key A a_heap (Some <$> table_pages) with_index /\
  A (DiskBTreeIndex.key closed_index 0) = None.
Proof.
  destruct with_index_store as (A & Hst & HA). exists A. split.
  - split; [exact Hst|exact users_file| |reflexivity|vm_compute; reflexivity|].
    { rewrite a_columns. discriminate. }
    intros i o Hi. split; [intros []|]. destruct i as [|i]; [|discriminate Hi]. injection Hi as <-.
    exists (buf a_page), [a_record]. split.
    { rewrite HA; [vm_compute; reflexivity|]. split; [exact users_file|vm_compute; split; congruence]. }
    split; [|constructor; [exact row_encodes|constructor]].
    pose proof a_page_repr as HR. assert (Hid : a_page = {| pageID := Z.of_nat 0; buf := buf a_page |}) by (vm_compute; reflexivity).
    rewrite <- Hid. exact HR.
  - rewrite HA; [vm_compute; reflexivity|]. split; [exact index_name|vm_compute; split; congruence].
Qed.

(** The index is opened, and the row enters it. *)
Definition open_run := DiskBTreeIndex.initOrLoad (DefaultCatalogManager.bufferPool with_index, closed_index).
Definition fill (s : Pool LRUReplacer.t FS * DiskBTreeIndex.t) := DiskBTreeIndex.Insert 2 (AInt64 7) (NewTID 0 0) s.
Notation insert_run := (fill open_run.2).
Definition database_with (s : Pool LRUReplacer.t FS * DiskBTreeIndex.t) : db := {|
  IndexManager.root := "data"; IndexManager.catalog := CatalogJournal.with_pool s.1 with_index;
  IndexManager.byName := {["ix"%string := 0%nat]}; IndexManager.objects := [IndexManager.BTreeIndex s.2] |}.

Lemma opened_index : DatabaseRun.opened = database_with open_run.2.
Proof. vm_compute. reflexivity. Qed.
Lemma filled_index : filled = database_with insert_run.2.
Proof. vm_compute. reflexivity. Qed.
Lemma runs_ok : open_run.1 = Ok tt /\ insert_run.1 = Ok tt.
Proof. split; vm_compute; reflexivity. Qed.
Lemma metas : open_run.2.2 = DiskBTreeIndex.with_meta DiskBTreeIndex.initial_meta closed_index /\
  insert_run.2.2 = DiskBTreeIndex.with_meta DiskBTreeIndex.initial_meta closed_index.
Proof. split; vm_compute; reflexivity. Qed.

(** What is around the pages of the index stays. *)
Definition around E A (s : Pool LRUReplacer.t FS * DiskBTreeIndex.t) : Prop :=
  store E A s.1 /\ (forall k, E k -> FileID k = IndexDefinition.fileNode an_index) /\
  table_at (DL := FS_laws True) "data" E A a_heap (Some <$> table_pages) (CatalogJournal.with_pool s.1 with_index).

Lemma other_file : IndexDefinition.fileNode an_index <> TableDefinition.fileNode (TableHeap.table a_heap).
Proof. vm_compute. discriminate. Qed.

Lemma around_step E A cm E' A' s :
  table_at (DL := FS_laws True) "data" E A a_heap (Some <$> table_pages) cm -> (forall k, E k -> FileID k = IndexDefinition.fileNode an_index) ->
  CatalogJournal.with_pool s.1 cm = CatalogJournal.with_pool s.1 with_index ->
  store E' A' s.1 -> (forall k, E' k -> E k \/ FileID k = IndexDefinition.fileNode an_index) ->
  elsewhere (IndexDefinition.fileNode an_index) A A' -> around E' A' s.
Proof.
  intros HT HE Hcm Hst HE' Hel. split; [exact Hst|]. split; [intros k [Hk|Hk]%HE'; [by apply HE|exact Hk]|].
  rewrite <- Hcm. apply (table_at_elsewhere (R:=LRUReplacer.t) (D:=FS) "data" E A E' A' s.1 a_heap (Some <$> table_pages) cm
    (IndexDefinition.fileNode an_index) HT Hst other_file); [|exact Hel].
  intros k Hf Hk. destruct (HE' k Hk) as [H|H]; [exact H|by destruct (Hf H)].
Qed.

Lemma open_holds : exists E A, around E A open_run.2 /\ BTreeProofs.holds E A open_run.2.2 [].
Proof.
  destruct with_index_table as (A & HT & Hnone).
  destruct (BTreeSpec.tree_initOrLoad_run (R:=LRUReplacer.t) (D:=FS) (DL := FS_laws True) (FL := FS_stat_laws_of True) "data" data_root no_key A
    (DefaultCatalogManager.bufferPool with_index) closed_index (ta_store _ _ _ _ _ _ HT) index_name) as [_ Hok].
  destruct (Hok (proj1 runs_ok)) as [(_ & E & A' & Hst & _ & Hh & HE & Hel)|(_ & m & _ & Hb & _)].
  - exists E, A'. split; [|exact Hh]. apply (around_step no_key A with_index E A' open_run.2 HT); [by intros k []|reflexivity|exact Hst|exact HE|exact Hel].
  - destruct (Hb ltac:(intros [])) as (b & Hk & _). rewrite Hnone in Hk. discriminate Hk.
Qed.

Lemma with_pool_twice P1 P2 (cm : DefaultCatalogManager.t LRUReplacer.t FS) :
  CatalogJournal.with_pool P1 (CatalogJournal.with_pool P2 cm) = CatalogJournal.with_pool P1 cm.
Proof. reflexivity. Qed.

Lemma small_key n i : i = DiskBTreeIndex.with_meta DiskBTreeIndex.initial_meta closed_index -> 0 <= n < 100 ->
  NodeSpec.key_ok (NodeSpec.type_name i) (AInt64 n) /\ NodeSpec.key_size (AInt64 n) <= TreeSpec.max_key.
Proof.
  intros -> Hn. split; [split; [reflexivity|]|vm_compute; congruence]. change (in_sint 64 n). unfold in_sint. lia.
Qed.

Lemma fill_around E A s :
  around E A s -> BTreeProofs.holds E A s.2 [] -> s.2 = DiskBTreeIndex.with_meta DiskBTreeIndex.initial_meta closed_index ->
  (fill s).1 = Ok tt -> exists E' A', around E' A' (fill s).2 /\ BTreeProofs.holds E' A' (fill s).2.2 [(AInt64 7, [NewTID 0 0])].
Proof.
  destruct s as [P0 i0]. intros (Hst & HE & HT) Hh Hm Hr. cbn [fst snd] in *. unfold fill in *.
  destruct (small_key 7 _ Hm ltac:(lia)) as [Hk Hkm].
  destruct (InsertProofs.tree_Insert_run (R:=LRUReplacer.t) (D:=FS) (DL := FS_laws True) "data" data_root E A 2 P0 i0 []
    (AInt64 7) (NewTID 0 0) Hst Hh Hk Hkm) as [(s & Hp & _)|[_ Hok]].
  - split; split; vm_compute; congruence.
  - constructor; [vm_compute; congruence|constructor].
  - rewrite Hm. vm_compute. reflexivity.
  - rewrite Hm. vm_compute. congruence.
  - rewrite Hp in Hr. discriminate Hr.
  - destruct (Hok Hr) as (E' & A' & Hst' & Hh' & _ & HE' & Hel). assert (Hfile : DiskBTreeIndex.fileID i0 = IndexDefinition.fileNode an_index) by (rewrite Hm; reflexivity).
    rewrite Hfile in HE', Hel. exists E', A'. split; [|exact Hh'].
    apply (around_step E A _ E' A' _ HT HE); [apply with_pool_twice|exact Hst'|exact HE'|exact Hel].
Qed.

Lemma fill_holds : exists E A, around E A insert_run.2 /\ BTreeProofs.holds E A insert_run.2.2 [(AInt64 7, [NewTID 0 0])].
Proof.
  destruct open_holds as (E & A & Ha & Hh). apply (fill_around E A open_run.2 Ha Hh (proj1 metas)). exact (proj2 runs_ok).
Qed.

(** *** The table is sound *)
Notation listed_in := (DatabaseInsert.listed (R:=LRUReplacer.t) (D:=FS)).

(** The catalog is the one of [with_index]. *)
Lemma same_catalog root P names os (cm : DefaultCatalogManager.t LRUReplacer.t FS) t :
  let w := {| IndexManager.root := root; IndexManager.catalog := CatalogJournal.with_pool P cm;
              IndexManager.byName := names; IndexManager.objects := os |} : db in
  let w0 := IndexManager.NewIndexManager root cm : db in
  DatabaseLaws.columns_of w t = DatabaseLaws.columns_of w0 t /\ listed_in w t = listed_in w0 t /\
  (forall idx r, PhysicalSpec.indexed_value w t idx r = PhysicalSpec.indexed_value w0 t idx r) /\
  forall oid, Semantic.GetTypeByOid w oid = Semantic.GetTypeByOid w0 oid.
Proof. by split_and!. Qed.

Lemma managed_indexes : listed_in managed (a_table 1) = [an_index].
Proof. vm_compute. reflexivity. Qed.
Lemma managed_key : PhysicalSpec.indexed_value managed (a_table 1) an_index a_row = Some (AInt64 7).
Proof. vm_compute. reflexivity. Qed.

Lemma filled_columns s : DatabaseLaws.columns_of (database_with s) (a_table 1) = TableHeap.columns a_heap.
Proof. unfold database_with. destruct (same_catalog "data" s.1 {["ix"%string := 0%nat]} [IndexManager.BTreeIndex s.2] with_index (a_table 1)) as (-> & _). exact managed_columns. Qed.
Lemma filled_indexes s : listed_in (database_with s) (a_table 1) = [an_index].
Proof. unfold database_with. destruct (same_catalog "data" s.1 {["ix"%string := 0%nat]} [IndexManager.BTreeIndex s.2] with_index (a_table 1)) as (_ & -> & _ & _). exact managed_indexes. Qed.
Lemma filled_key s : PhysicalSpec.indexed_value (database_with s) (a_table 1) an_index a_row = Some (AInt64 7).
Proof. unfold database_with. destruct (same_catalog "data" s.1 {["ix"%string := 0%nat]} [IndexManager.BTreeIndex s.2] with_index (a_table 1)) as (_ & _ & -> & _). exact managed_key. Qed.
Definition int64 : TypeDefinition.t := {| TypeDefinition.oid := 1; TypeDefinition.name := "INT64"; TypeDefinition.byteLength := 8 |}.
Lemma managed_type : Semantic.GetTypeByOid managed 1 = Ok (Some int64).
Proof. vm_compute. reflexivity. Qed.
Lemma filled_type s : Semantic.GetTypeByOid (database_with s) 1 = Ok (Some int64).
Proof. unfold database_with. destruct (same_catalog "data" s.1 {["ix"%string := 0%nat]} [IndexManager.BTreeIndex s.2] with_index (a_table 1)) as (_ & _ & _ & ->). exact managed_type. Qed.
Definition varchar : TypeDefinition.t := Eval vm_compute in
  match Semantic.GetTypeByOid managed 2 with Ok (Some td) => td | _ => int64 end.
Lemma managed_name_type : Semantic.GetTypeByOid managed 2 = Ok (Some varchar).
Proof. vm_compute. reflexivity. Qed.
Lemma filled_name_type s : Semantic.GetTypeByOid (database_with s) 2 = Ok (Some varchar).
Proof. unfold database_with. destruct (same_catalog "data" s.1 {["ix"%string := 0%nat]} [IndexManager.BTreeIndex s.2] with_index (a_table 1)) as (_ & _ & _ & ->). exact managed_name_type. Qed.
Lemma filled_heap s : DatabaseLaws.heap_of (database_with s) (a_table 1) = a_heap.
Proof. unfold heap_of. rewrite filled_columns. reflexivity. Qed.

Lemma filled_sound_at : exists E A, sound_at (DL := FS_laws True) "data" data_root E A table_pages filled (a_table 1) /\
  BTreeProofs.holds E A insert_run.2.2 [(AInt64 7, [NewTID 0 0])].
Proof.
  destruct fill_holds as (E & A & (Hst & HE & HT) & Hh). exists E, A. split; [|exact Hh]. rewrite filled_index.
  rewrite <- (filled_heap insert_run.2) in HT.
  destruct metas as [_ Hm]. pose proof (filled_indexes insert_run.2) as Hidx. pose proof (filled_key insert_run.2) as Hkey.
  destruct insert_run.2 as [P1 i1]. cbn [fst snd] in *.
  apply (stage_sound (DL := FS_laws True) "data" data_root E A table_pages (fun _ => [(AInt64 7, NewTID 0 0)])).
  - split; [exact HT|]. intros idx Hin. rewrite Hidx in Hin. apply list_elem_of_singleton in Hin as ->.
    exists 0%nat, (IndexManager.BTreeIndex i1). split_and!.
    + vm_compute. reflexivity.
    + reflexivity.
    + vm_compute. reflexivity.
    + rewrite Hm. reflexivity.
    + intros ty (n & col & [Hc (td & Htd & <-)] & Hoid & _). rewrite Hm.
      apply DatabaseSelect.column_listed in Hc. rewrite (filled_columns (P1, i1)), a_columns in Hc.
      assert (Hcol : col = a_column 1 1 0 "id").
      { apply elem_of_cons in Hc as [->|Hc]; [reflexivity|]. apply list_elem_of_singleton in Hc as ->. vm_compute in Hoid. discriminate Hoid. }
      subst col. cbn [a_column ColumnDefinition.typeOid] in Htd.
      pose proof (eq_trans (eq_sym (filled_type (P1, i1))) Htd) as [= <-]. reflexivity.
    + exists [(AInt64 7, NewTID 0 0)]. split; [reflexivity|]. exists [(AInt64 7, [NewTID 0 0])]. split; [exact Hh|reflexivity].
  - intros idx Hin. rewrite Hidx in Hin. apply list_elem_of_singleton in Hin as ->. unfold index_entries.
    rewrite (contents_paged (DL := FS_laws True) "data" E A (a_table 1) table_pages _ HT).
    change (paged table_pages) with [(NewTID 0 0, a_row)]. cbn [omap list_omap snd]. unfold db in Hkey. rewrite Hkey. reflexivity.
Qed.

(** *** The query *)
Definition seven_statement : Statement := Eval vm_compute in
  match SqlLexer.Tokenize select_seven with
  | Ok tokens => match SqlParser.Parse tokens with Ok s => s | _ => InsertStmt (AnalyzerProofs.ident "") [] end
  | _ => InsertStmt (AnalyzerProofs.ident "") []
  end.
Definition seven_names : list SqlIdent := Eval vm_compute in match seven_statement with SelectStmt _ names _ _ => names | _ => [] end.
Definition seven_table : SqlIdent := Eval vm_compute in match seven_statement with SelectStmt _ _ tn _ => tn | _ => AnalyzerProofs.ident "" end.
Definition seven_where : option Expr := Eval vm_compute in match seven_statement with SelectStmt _ _ _ wh => wh | _ => None end.
Definition seven_filter : option ResolvedExpr := Eval vm_compute in
  match Analyzer.Analyze managed seven_statement with Ok (SelectQueryTree _ _ f) => f | _ => None end.

Lemma managed_analyze : Analyzer.Analyze managed (SelectStmt false seven_names seven_table seven_where) =
  Ok (SelectQueryTree (a_table 1) [a_column 2 2 1 "name"] seven_filter).
Proof. vm_compute. reflexivity. Qed.

Lemma filled_numbered s : numbered (database_with s) (a_table 1).
Proof.
  split.
  - rewrite filled_columns, a_columns. apply (bool_decide_unpack _). vm_compute. exact I.
  - intros i col Hi. rewrite filled_columns, a_columns in Hi. destruct i as [|[|i]]; [injection Hi as <-; reflexivity..|discriminate Hi].
  - intros col td Hc Htd. rewrite filled_columns, a_columns in Hc. apply elem_of_cons in Hc as [->|Hc].
    + left. pose proof (eq_trans (eq_sym (filled_type s)) Htd) as [= <-]. reflexivity.
    + right. apply list_elem_of_singleton in Hc as ->. pose proof (eq_trans (eq_sym (filled_name_type s)) Htd) as [= <-]. reflexivity.
Qed.

Lemma filled_analyze : Analyzer.Analyze filled (SelectStmt false seven_names seven_table seven_where) =
  Ok (SelectQueryTree (a_table 1) [a_column 2 2 1 "name"] seven_filter).
Proof. vm_compute. reflexivity. Qed.

Lemma filled_contents : table_contents (DL := FS_laws True) "data" filled (a_table 1) = [(NewTID 0 0, a_row)].
Proof. destruct filled_sound_at as (E & A & HS & _). exact (contents_paged (DL := FS_laws True) "data" E A (a_table 1) table_pages filled (so_pages _ _ _ _ _ _ _ HS)). Qed.

Lemma database_select_witness :
  exists n0 r w', (forall n, (n0 <= n)%nat -> SqlService.Execute n select_seven filled = (Ok r, w')) /\
    columns r = ["name"%string] /\ result_rows r ≡ₚ [[AString "ann"]].
Proof.
  destruct (database_select (R:=LRUReplacer.t) (D:=FS) (DL := FS_laws True) "data" data_root I
    select_seven false seven_names seven_table seven_where filled (a_table 1) [a_column 2 2 1 "name"] seven_filter)
    as (n0 & r & w' & Hrun & Hc & _ & Hrows & _).
  - destruct filled_sound_at as (E & A & HS & _). exists E, A, table_pages. exact HS.
  - rewrite filled_index. apply filled_numbered.
  - eexists. split; [vm_compute; reflexivity|vm_compute; reflexivity].
  - exact filled_analyze.
  - exists n0, r, w'. split; [exact Hrun|]. split; [exact Hc|]. rewrite filled_contents in Hrows. exact Hrows.
Defined.

(** *** Another row *)
Definition bob_row : row := [AInt64 8; AString "bob"].
Definition bob_record : list byte := Eval vm_compute in
  match TableHeap.serializeRow with_index a_heap bob_row with Ok (Some d) => d | _ => [] end.
Definition bob_run := Executors.insert (H := database_storage) (DatabaseLaws.heap_of filled (a_table 1)) (a_table 1)
  (DatabaseLaws.columns_of filled (a_table 1)) bob_row filled.

Lemma filled_arranged s : arranged (database_with s) (a_table 1).
Proof.
  split.
  - rewrite filled_indexes. apply (bool_decide_unpack _). vm_compute. exact I.
  - intros i col. apply (nu_order _ _ (filled_numbered s)).
Qed.

Lemma bob_serialized : TableHeap.serializeRow with_index a_heap bob_row = Ok (Some bob_record).
Proof. vm_compute. reflexivity. Qed.

Lemma serialized_with P (cm : DefaultCatalogManager.t LRUReplacer.t FS) heap r :
  TableHeap.serializeRow (CatalogJournal.with_pool P cm) heap r = TableHeap.serializeRow cm heap r.
Proof. unfold TableHeap.serializeRow. by apply serialize_columns_types. Qed.
Lemma catalog_of s : cm_of (database_with s) = CatalogJournal.with_pool s.1 with_index.
Proof. reflexivity. Qed.

Lemma bob_fits s : roomy (database_with s) (a_table 1) table_pages bob_row.
Proof.
  exists 0%nat. split; [by constructor|]. intros d [_ Hd] (rows & ds & [= <-] & Hds & Hfull).
  rewrite filled_heap, catalog_of in *. rewrite serialized_with, bob_serialized in Hd. injection Hd as <-.
  apply Forall2_cons_inv_l in Hds as (d0 & l & [_ Hd0] & ->%Forall2_nil_inv_l & ->).
  rewrite serialized_with, (proj2 row_encodes) in Hd0. injection Hd0 as <-. vm_compute in Hfull. discriminate Hfull.
Qed.

Lemma bob_ok s : row_ok (cm_of (database_with s)) (DatabaseLaws.columns_of (database_with s) (a_table 1)) bob_row.
Proof.
  exists [INT64; VARCHAR]. rewrite filled_columns, a_columns. split; [|apply storable_by_dec; vm_compute; reflexivity].
  destruct row_encodes as [(dts & Ht & _) _]. rewrite a_columns in Ht.
  constructor; [|constructor; [|constructor]].
  - unfold TableHeap.column_type. pose proof (filled_type s) as H. cbn [Semantic.GetTypeByOid database_catalog] in H. cbn [a_column ColumnDefinition.typeOid]. unfold db in H. rewrite H. reflexivity.
  - unfold TableHeap.column_type. pose proof (filled_name_type s) as H. cbn [Semantic.GetTypeByOid database_catalog] in H. cbn [a_column ColumnDefinition.typeOid]. unfold db in H. rewrite H. reflexivity.
Qed.

Lemma bob_key s : PhysicalSpec.indexed_value (database_with s) (a_table 1) an_index bob_row = Some (AInt64 8).
Proof.
  unfold database_with. destruct (same_catalog "data" s.1 {["ix"%string := 0%nat]} [IndexManager.BTreeIndex s.2] with_index (a_table 1)) as (_ & _ & -> & _).
  vm_compute. reflexivity.
Qed.

Lemma bob_taken E A s :
  BTreeProofs.holds E A s.2 [(AInt64 7, [NewTID 0 0])] -> s.2 = DiskBTreeIndex.with_meta DiskBTreeIndex.initial_meta closed_index ->
  index_entries (DL := FS_laws True) "data" (database_with s) (a_table 1) an_index = [(AInt64 7, NewTID 0 0)] ->
  takes (DL := FS_laws True) "data" data_root E A (database_with s) (a_table 1) bob_row.
Proof.
  intros Hh Hm Hent idx ref ix v tid Hin Href Hix Hv Htid. rewrite filled_indexes in Hin. apply list_elem_of_singleton in Hin as ->.
  assert (ref = 0%nat) as -> by (vm_compute in Href; congruence).
  assert (Hix' : IndexManager.BTreeIndex s.2 = ix) by exact (Some_inj _ _ Hix). subst ix.
  pose proof (eq_trans (eq_sym (bob_key s)) Hv) as [= <-]. rewrite Hent. intros es' Hes.
  destruct (small_key 8 _ Hm ltac:(lia)) as [Hk Hkm]. split; [exact Hk|]. split; [exact Hkm|]. split; [exact Htid|].
  split; [|rewrite Hm; vm_compute; reflexivity]. exists [(AInt64 7, [NewTID 0 0])]. split; [exact Hh|]. split; [exact Hes|].
  constructor; [vm_compute; congruence|]. constructor; [vm_compute; congruence|constructor].
Qed.

Lemma bob_run_ok : bob_run.1 = Ok tt.
Proof. vm_compute. reflexivity. Qed.

Lemma insert_sound_witness :
  bob_run.1 = Ok tt /\ sound_table (DL := FS_laws True) "data" data_root bob_run.2 (a_table 1) /\
  exists tid, table_contents (DL := FS_laws True) "data" bob_run.2 (a_table 1) ≡ₚ [(tid, bob_row); (NewTID 0 0, a_row)].
Proof.
  split; [exact bob_run_ok|]. destruct filled_sound_at as (E & A & HS & Hh).
  assert (Hent : index_entries (DL := FS_laws True) "data" filled (a_table 1) an_index = [(AInt64 7, NewTID 0 0)]).
  { unfold index_entries. rewrite filled_contents. cbn [omap list_omap snd]. rewrite filled_index.
    pose proof (filled_key insert_run.2) as Hkey. unfold db in Hkey. rewrite Hkey. reflexivity. }
  pose proof bob_run_ok as Hr. pose proof (proj2 metas) as Hm. unfold bob_run in *. rewrite filled_index in *.
  destruct insert_run.2 as [P1 i1].
  match type of Hr with (?run.1 = _) => destruct run as [o w'] eqn:Erun end. cbn [fst snd] in *. subst o.
  destruct (insert_sound (R:=LRUReplacer.t) (D:=FS) (DL := FS_laws True) "data" data_root I E A table_pages (database_with (P1, i1)) (a_table 1) bob_row w'
    HS (filled_arranged _) (bob_ok _) (bob_fits _)) as (_ & _ & E' & A' & pages' & tid & HS' & Hc).
  - apply bob_taken; [exact Hh|exact Hm|exact Hent].
  - exact Erun.
  - split; [exists E', A', pages'; exact HS'|]. exists tid. etransitivity; [exact Hc|]. constructor.
    rewrite (contents_paged (DL := FS_laws True) "data" E A (a_table 1) table_pages _ (so_pages _ _ _ _ _ _ _ HS)). reflexivity.
Defined.
End DatabaseRun.
