(* ===== verification/Server.v ===== *)
(** * Server: clients' sessions, start and stop

    Models [internal/server/server.go] and the life of the process in
    [cmd/server/main.go].  [handleClient] is the loop of one connection over
    any storage; [error_string] is [Error()] of the errors that are answered
    with their text.  A panic in a session ends the process.

    [Lifecycle] is the server as a step relation of the goroutines of [Start],
    [Stop] and the clients. *)

From S2P Require Import Prelude GoRuntime Utf8 Lexer Ast Parser CatalogModel Semantic Eval Planner.
From S2P Require Import Optimizer Storage Executors SqlService Json Protocol.
#[local] Open Scope Z_scope.

Module Server.
Import protocol.

Section sessions.
Context {W : Type} `{SS : Storage W} (error_string : go_error -> string) (fuel : nat).
Implicit Types (w : W) (c : conn).

Definition mapExecError (err : go_error) : Error :=
  match err with
  | SqlSyntaxError message offset line column =>
    NewErrorWithPos "SYNTAX" message (Z.of_nat offset) (Z.of_nat line) (Z.of_nat column)
  | SemanticError message (Some (offset, line, column)) =>
    NewErrorWithPos "SEMANTIC" message (Z.of_nat offset) (Z.of_nat line) (Z.of_nat column)
  | SemanticError message None => NewError "SEMANTIC" message
  | _ => NewError "EXEC" (error_string err)
  end.

(** A nil request is [None]. *)
Definition processRequest (request : option Request) : ST W (Response any) := fun w =>
  match request with
  | None => (Ok (NewErrorResponse "" (NewError "EXEC" "Request is null")), w)
  | Some r =>
    let requestID := req_RequestID r in
    if negb (bool_decide (req_Type r = "query")) then
      (Ok (NewErrorResponse requestID (NewError "EXEC" ("Unsupported request type: " +:+ req_Type r))), w)
    else if bool_decide (req_SQL r = "") then (Ok (NewErrorResponse requestID (NewError "EXEC" "sql is empty")), w)
    else
      match SqlService.ExecuteWithContext fuel (req_Trace r) (req_SQL r) w with
      | (Err err, w) => (Ok (NewErrorResponse requestID (mapExecError err)), w)
      | (Ok result, w) =>
        (Ok (NewOkResponse requestID (columns result) (result_rows result) (affected result) (explain result)), w)
      | (Panic, w) => (Panic, w)
      end
  end.

Definition isJSONDecodeError (e : net_error) : bool :=
  match e with SyntaxError | UnmarshalTypeError => true | _ => false end.

Definition invalid_json : Response any := NewErrorResponse "" (NewError "SYNTAX" "Invalid JSON request").

(** How a session ends; [Running] is the loop cut off by its fuel. *)
Inductive ending : Type := Returned | Crashed | Running.

(** The loop of [handleClient]. *)
Fixpoint handle_loop (n : nat) (w : W) (c : conn) : ending * (W * conn) :=
  match n with
  | O => (Running, (w, c))
  | S n =>
    match ReadRequest c with
    | (inl e, c) =>
      if isJSONDecodeError e then
        match WriteResponse invalid_json c with
        | (true, c) => handle_loop n w c
        | (false, c) => (Returned, (w, c))
        end
      else (Returned, (w, c))
    | (inr request, c) =>
      match processRequest (Some request) w with
      | (Ok response, w) =>
        match WriteResponse response c with
        | (true, c) => handle_loop n w c
        | (false, c) => (Returned, (w, c))
        end
      | (_, w) => (Crashed, (w, c))
      end
    end
  end.

(** Every round reads at least one byte. *)
Definition handleClient (w : W) (c : conn) : ending * (W * conn) := handle_loop (S (length (input c))) w c.

(** ** What a session means *)

(** The answer to a line: [None] when it crashes the process. *)
Definition answer (line : list byte) (w : W) : option (Response any) * W :=
  match UnmarshalRequest line with
  | inl _ => (Some invalid_json, w)
  | inr r => match processRequest (Some r) w with (Ok resp, w) => (Some resp, w) | (_, w) => (None, w) end
  end.

(** The answers to lines, one after the other, until one crashes. *)
Fixpoint answers (lines : list (list byte)) (w : W) : bool * (list (Response any) * W) :=
  match lines with
  | [] => (true, ([], w))
  | l :: lines =>
    match answer (l ++ [newline]) w with
    | (None, w) => (false, ([], w))
    | (Some r, w) => let '(ok, (rs, w)) := answers lines w in (ok, (r :: rs, w))
    end
  end.

Definition sent (r : Response any) : list byte := MarshalResponse r ++ [newline].

Lemma processRequest_not_error r w : exists r' w', processRequest r w = (r', w') /\ forall e, r' <> Err e.
Proof.
  unfold processRequest. destruct r as [r|]; [|by eexists _, _]. repeat case_match; by eexists _, _.
Qed.

Lemma no_line_end l rest : newline ∉ l -> read_line (l ++ newline :: rest) = Some (l ++ [newline], rest).
Proof.
  induction l as [|c l IH]; intros Hl; [done|]. cbn [app read_line]. unfold Json.eqc at 1.
  rewrite bool_decide_eq_false_2 by (intros ->; apply Hl, elem_of_cons; by left). rewrite IH; [done|].
  intros Hin. apply Hl, elem_of_cons. by right.
Qed.

Lemma no_line l : newline ∉ l -> read_line l = None.
Proof.
  induction l as [|c l IH]; intros Hl; [done|]. cbn [read_line]. unfold Json.eqc at 1.
  rewrite bool_decide_eq_false_2 by (intros ->; apply Hl, elem_of_cons; by left). rewrite IH; [done|].
  intros Hin. apply Hl, elem_of_cons. by right.
Qed.

Lemma write_healthy data c : write_faults c = [] ->
  write data c = (true, {| input := input c; input_end := input_end c; output := output c ++ data; write_faults := [] |}).
Proof. intros Hf. unfold write. by rewrite Hf. Qed.

Lemma WriteResponse_healthy r rest c : write_faults c = [] ->
  WriteResponse r (with_input rest c) =
  (true, {| input := rest; input_end := input_end c; output := output c ++ sent r; write_faults := [] |}).
Proof. intros Hf. unfold WriteResponse, sent. generalize (MarshalResponse r ++ [newline]). intros data. by rewrite write_healthy. Qed.

Lemma UnmarshalRequest_error line e : UnmarshalRequest line = inl e -> isJSONDecodeError e = true.
Proof.
  unfold UnmarshalRequest, Unmarshal. destruct (Json.parse line) as [v|]; [|by intros [= <-]].
  destruct (decode_request zero_request v) as [a []]; [by intros [= <-]|done].
Qed.

(** One round of the loop on a line of the input. *)
Lemma handle_line n l rest w c :
  newline ∉ l -> input c = l ++ newline :: rest -> write_faults c = [] ->
  handle_loop (S n) w c =
  match answer (l ++ [newline]) w with
  | (Some r, w') => handle_loop n w' {| input := rest; input_end := input_end c; output := output c ++ sent r; write_faults := [] |}
  | (None, w') => (Crashed, (w', with_input rest c))
  end.
Proof.
  intros Hl Hin Hf. cbn [handle_loop]. unfold ReadRequest. rewrite Hin, no_line_end by done. unfold answer.
  destruct (UnmarshalRequest (l ++ [newline])) as [e|r] eqn:E.
  - rewrite (UnmarshalRequest_error _ _ E). rewrite WriteResponse_healthy by exact Hf. cbn beta iota. reflexivity.
  - destruct (processRequest_not_error (Some r) w) as (r' & w' & Ep & Hne). rewrite Ep. destruct r' as [resp|e|]; [|by destruct (Hne e)|reflexivity].
    rewrite WriteResponse_healthy by exact Hf. cbn beta iota. reflexivity.
Qed.

Lemma handle_lines lines tail : Forall (fun l => newline ∉ l) lines -> newline ∉ tail -> forall n w c,
  input c = concat (map (fun l => l ++ [newline]) lines) ++ tail -> write_faults c = [] -> isJSONDecodeError (input_end c) = false ->
  (length lines < n)%nat ->
  exists c', handle_loop n w c =
    ((if (answers lines w).1 then Returned else Crashed), ((answers lines w).2.2, c')) /\
    output c' = output c ++ concat (map sent (answers lines w).2.1).
Proof.
  intros Hls Ht. induction Hls as [|l lines Hl _ IH]; intros n w c Hin Hf Hend Hn; (destruct n as [|n]; [lia|]).
  - cbn [handle_loop answers fst snd map concat]. unfold ReadRequest. cbn in Hin. rewrite Hin, no_line, Hend by done. eexists. split; [done|]. by rewrite app_nil_r.
  - cbn [map concat] in Hin. rewrite <- !app_assoc in Hin. cbn [app] in Hin. rewrite (handle_line n l _ w c Hl Hin Hf). cbn [answers].
    destruct (answer (l ++ [newline]) w) as [[r|] w1].
    + destruct (IH n w1 {| input := concat (map (fun l => l ++ [newline]) lines) ++ tail; input_end := input_end c;
        output := output c ++ sent r; write_faults := [] |} eq_refl eq_refl Hend ltac:(cbn in Hn; lia)) as (c' & E & Ho).
      rewrite E. destruct (answers lines w1) as [ok [rs w2]]. cbn [fst snd map concat output] in Ho |- *. exists c'. split; [done|]. by rewrite Ho, <- app_assoc.
    + cbn [fst snd map concat output with_input]. eexists. split; [done|]. by rewrite app_nil_r.
Qed.

Lemma lines_bound lines tail : (length lines <= length (concat (map (fun l => l ++ [newline]) lines) ++ tail))%nat.
Proof.
  induction lines as [|l lines IH]; cbn; [lia|]. rewrite <- app_assoc, !length_app in *. cbn. lia.
Qed.

(** C33: a session answers every line of its connection with exactly one line,
    in order, and each answer is that of its request alone: whatever the client
    sends (lines that are no JSON or of the wrong type get an error and the
    session goes on; a last line without its end is dropped), the bytes
    written are the responses of [answers], one line each, the storage is what
    the requests make of it one after the other, and the session returns when
    the client is done; it always ends.  Only a statement that panics ends it
    early, and the process with it. *)
Theorem session_answers lines tail w c :
  Forall (fun l => newline ∉ l) lines -> newline ∉ tail ->
  input c = concat (map (fun l => l ++ [newline]) lines) ++ tail -> input_end c = EOF -> write_faults c = [] ->
  exists c', handleClient w c = ((if (answers lines w).1 then Returned else Crashed), ((answers lines w).2.2, c')) /\
    output c' = output c ++ concat (map sent (answers lines w).2.1).
Proof.
  intros Hls Ht Hin Hend Hf. apply (handle_lines lines tail Hls Ht); [done|done|by rewrite Hend|].
  rewrite Hin. pose proof (lines_bound lines tail). lia.
Qed.

(** A session over one request that a client marshalled. *)
Lemma handle_request id sql trace w c :
  sql <> "" -> utf8_valid (bytes_of sql) = true ->
  input c = MarshalRequest (NewRequest id sql trace) ++ [newline] -> input_end c = EOF -> write_faults c = [] ->
  exists c', handleClient w c =
    (match processRequest (Some (NewRequest (Json.sanitize id) sql trace)) w with
     | (Ok r, w') => (Returned, (w', c'))
     | (_, w') => (Crashed, (w', c'))
     end) /\
    output c' = output c ++ match (processRequest (Some (NewRequest (Json.sanitize id) sql trace)) w).1 with Ok r => sent r | _ => [] end.
Proof.
  intros Hsql Hv Hin Hend Hf.
  assert (Hl : newline ∉ MarshalRequest (NewRequest id sql trace)).
  { intros Hx. pose proof (request_printable (NewRequest id sql trace)) as Hp. unfold Json.printable in Hp.
    rewrite Forall_forall in Hp. specialize (Hp _ Hx). by vm_compute in Hp. }
  unfold handleClient. rewrite Hin, length_app, Nat.add_comm. cbn [length Nat.add].
  rewrite (handle_line _ _ [] w c Hl Hin Hf). unfold answer. rewrite request_arrives. cbn beta iota.
  assert (Ha : arrived_request (NewRequest id sql trace) = NewRequest (Json.sanitize id) sql trace).
  { unfold arrived_request, NewRequest. cbn [req_Type req_RequestID req_SQL req_Trace]. rewrite (sanitize_valid sql) by done.
    by rewrite (sanitize_valid "query") by (vm_compute; reflexivity). }
  rewrite Ha. destruct (processRequest_not_error (Some (NewRequest (Json.sanitize id) sql trace)) w) as (r' & w' & Ep & Hne).
  rewrite Ep. cbn [fst]. destruct r' as [resp|e|]; [|by destruct (Hne e)|].
  - eexists. cbn [handle_loop]. unfold ReadRequest. cbn [input read_line input_end]. rewrite Hend. cbn [isJSONDecodeError]. split; [reflexivity|].
    cbn [with_input output]. reflexivity.
  - eexists. split; [reflexivity|]. cbn [with_input output]. by rewrite app_nil_r.
Qed.
End sessions.

Section clients.
Import PhysicalSpec ExecutorSpec SqlServiceSpec.
Context {W : Type} `{SS : Storage W, SL : !StorageLaws W} (error_string : go_error -> string).
Implicit Types (w : W) (c : conn).

(** C3: a client's query is answered end to end: for the line a client writes
    for the text of a SELECT (with any request id), the session of the server
    ends normally, leaves every table as it was and writes one line that the
    client decodes into an ok response with the id it sent, the names of the
    target columns and, in some order, exactly the rows that the SELECT stands
    for; over a faulty storage the line may be an error response instead. *)
Theorem query_answered id sql all names tn wh w table cols f c :
  sql <> "" -> utf8_valid (bytes_of sql) = true ->
  reads_as sql (SelectStmt all names tn wh) ->
  Analyzer.Analyze w (SelectStmt all names tn wh) = Ok (SelectQueryTree table cols f) -> sound w table ->
  table_ok w (rows_of w) table -> columns_in (rows_of w) table cols ->
  Forall (Forall cell_ok) (SqlServiceSpec.answer w table cols f) ->
  input c = MarshalRequest (NewRequest id sql false) ++ [newline] -> input_end c = EOF -> write_faults c = [] ->
  exists n0, forall n, (n0 <= n)%nat -> exists resp w' c',
    handleClient error_string n w c = (Returned, (w', c')) /\ same w w' /\
    output c' = output c ++ sent resp /\
    ((exists rows, rows ≡ₚ SqlServiceSpec.answer w table cols f /\
        UnmarshalResponse (sent resp) =
        inr (arrived_response (NewOkResponse (Json.sanitize id) (map ColumnDefinition.name cols) rows 0 "")))
     \/ (faulty /\ resp_Status resp = "error")).
Proof.
  intros Hsql Hv Hr Ha Hso Hok Hcols Hcells Hin Hend Hf.
  destruct (select_run sql all names tn wh w table cols f Hr Ha Hso Hok Hcols) as (n0 & res & w' & Hn & Hs & Hres).
  exists n0. intros n Hle. specialize (Hn n Hle). unfold SqlService.Execute in Hn.
  destruct (handle_request error_string n id sql false w c Hsql Hv Hin Hend Hf) as (c' & E & Ho).
  unfold processRequest in E, Ho. cbn [req_Type req_SQL req_RequestID req_Trace NewRequest] in E, Ho.
  rewrite bool_decide_eq_true_2 in E, Ho by done. rewrite bool_decide_eq_false_2 in E, Ho by done. cbn [negb] in E, Ho.
  cbv zeta in E, Ho. rewrite Hn in E, Ho. destruct res as [r|e|]; [| |done]; cbn beta iota delta [fst] in E, Ho.
  - destruct Hres as (Hc & Haff & Hex & Hrows). rewrite Hc, Haff, Hex in Ho. eexists _, _, _. split; [exact E|]. split; [exact Hs|]. split; [exact Ho|].
    left. exists (result_rows r). split; [exact Hrows|]. unfold sent. rewrite response_arrives; [reflexivity|]. split; [|split; [split; vm_compute; congruence|done]].
    cbn [resp_Rows NewOkResponse]. by rewrite Hrows.
  - eexists _, _, _. split; [exact E|]. split; [exact Hs|]. split; [exact Ho|]. right. split; [exact Hres|reflexivity].
Qed.
End clients.

(** A session with a line that is no JSON and a request without a text. *)
Definition sample_errors (e : go_error) : string := "error".
Definition sample_lines : list (list byte) := [bytes_of "{"; MarshalRequest (NewRequest "1" "" false)].
Definition sample_conn : conn :=
  {| input := concat (map (fun l => l ++ [newline]) sample_lines) ++ bytes_of "x"; input_end := EOF; output := []; write_faults := [] |}.

Lemma session_answers_witness :
  exists c', handleClient sample_errors 1 sample_store sample_conn =
    ((if (answers sample_errors 1 sample_lines sample_store).1 then Returned else Crashed),
     ((answers sample_errors 1 sample_lines sample_store).2.2, c')) /\
    output c' = concat (map sent (answers sample_errors 1 sample_lines sample_store).2.1).
Proof.
  apply (session_answers (W:=ListStore.t) (SS:=ListStore.storage) sample_errors 1 sample_lines (bytes_of "x") sample_store sample_conn); try reflexivity.
  - apply (bool_decide_unpack _). vm_compute. exact I.
  - apply (bool_decide_unpack _). vm_compute. exact I.
Defined.

Definition query_conn : conn :=
  {| input := MarshalRequest (NewRequest "7" SqlServiceSpec.select_text false) ++ [newline]; input_end := EOF; output := []; write_faults := [] |}.

Lemma query_answered_witness :
  exists n0, forall n, (n0 <= n)%nat -> exists resp w' c',
    handleClient sample_errors n sample_store query_conn = (Returned, (w', c')) /\ same sample_store w' /\
    output c' = [] ++ sent resp /\
    ((exists rows, rows ≡ₚ SqlServiceSpec.answer sample_store ListCatalog.users [ListCatalog.name] (Some SqlServiceSpec.select_resolved) /\
        UnmarshalResponse (sent resp) =
        inr (arrived_response (NewOkResponse (Json.sanitize "7") ["name"] rows 0 "")))
     \/ (faulty /\ resp_Status resp = "error")).
Proof.
  apply (query_answered (W:=ListStore.t) (SS:=ListStore.storage) sample_errors "7" SqlServiceSpec.select_text false
           SqlServiceSpec.select_names SqlServiceSpec.select_table (Some SqlServiceSpec.select_filter)
           sample_store ListCatalog.users [ListCatalog.name] (Some SqlServiceSpec.select_resolved)).
  - discriminate.
  - vm_compute. reflexivity.
  - eexists. split; [vm_compute; reflexivity|vm_compute; reflexivity].
  - vm_compute. reflexivity.
  - exact I.
  - apply SqlServiceSpec.sample_store_table_ok.
  - intros r col Hr Hc. apply list_elem_of_singleton in Hc as ->.
    assert (Hin : r ∈ [[AInt64 1; AString "a"]; [AInt64 2; AString "b"]; [AInt64 3; AString "b"]]) by exact Hr.
    repeat (apply elem_of_cons in Hin as [->|Hin]; [split; [done|by eexists]|]). by apply not_elem_of_nil in Hin.
  - assert (E : SqlServiceSpec.answer sample_store ListCatalog.users [ListCatalog.name] (Some SqlServiceSpec.select_resolved) = [[AString "b"]])
      by (vm_compute; reflexivity).
    rewrite E. by repeat constructor.
  - reflexivity.
  - reflexivity.
  - reflexivity.
Defined.
End Server.
