(* ===== verification/Lifecycle.v ===== *)
(** * Lifecycle: the server process from start to exit

    Models [Server], [NewServer], [Start] and [Stop] of
    [internal/server/server.go] and the goroutines of [cmd/server/main.go]: the
    main goroutine runs [Start] and then ends the process, another one waits
    for a signal and runs [Stop], and there is one goroutine for each client.
    They share the fields of the server, so the process is a step relation; a
    step is one access to a shared field or one call on the listener, the wait
    group or the pool, and any goroutine may take the next one. *)

From S2P Require Import Prelude GoRuntime DirtyWriter.

Module Lifecycle.

(** Where the goroutine of [Start] is. *)
Inductive main_pc : Type :=
  | MSwap | MListen | MSetListener | MStartWriter | MStartCheckpoint | MLoop | MAccept | MAcceptError | MAdd
  | MExited (failed : bool).

(** Where the goroutine that waits for a signal is. *)
Inductive stop_pc : Type := SSignal | SSwap | SCancelFlush | SCancelCheckpoint | SClose | SWait | SFlush | SDone.

Inductive socket : Type := NotOpen | Listening | Closed.

(** [listener], [cancelFlush] and [cancelCheckpt] say whether the field of the
    server is set; [sock] is the listener itself, [flusher] and [checkpointer]
    the contexts of the writer's goroutines that are not cancelled, [wg] the
    clients being served. *)
Record Server : Type := {
  running : bool;
  dirtyWriter : option DefaultDirtyPageWriter.t;
  listener : bool; cancelFlush : bool; cancelCheckpt : bool;
  sock : socket; flusher : bool; checkpointer : bool;
  wg : nat; flushed : bool;
  main : main_pc; stop : stop_pc
}.

Definition NewServer (bufferPool : bool) : Server :=
  {| running := false;
     dirtyWriter := match DefaultDirtyPageWriter.NewDefaultDirtyPageWriter bufferPool 200 5000 64 with Ok w => Some w | _ => None end;
     listener := false; cancelFlush := false; cancelCheckpt := false; sock := NotOpen; flusher := false; checkpointer := false;
     wg := 0; flushed := false; main := MSwap; stop := SSignal |}.

Definition with_main (p : main_pc) (s : Server) : Server :=
  {| running := running s; dirtyWriter := dirtyWriter s; listener := listener s; cancelFlush := cancelFlush s;
     cancelCheckpt := cancelCheckpt s; sock := sock s; flusher := flusher s; checkpointer := checkpointer s; wg := wg s;
     flushed := flushed s; main := p; stop := stop s |}.
Definition with_stop (p : stop_pc) (s : Server) : Server :=
  {| running := running s; dirtyWriter := dirtyWriter s; listener := listener s; cancelFlush := cancelFlush s;
     cancelCheckpt := cancelCheckpt s; sock := sock s; flusher := flusher s; checkpointer := checkpointer s; wg := wg s;
     flushed := flushed s; main := main s; stop := p |}.
Definition with_running (b : bool) (s : Server) : Server :=
  {| running := b; dirtyWriter := dirtyWriter s; listener := listener s; cancelFlush := cancelFlush s;
     cancelCheckpt := cancelCheckpt s; sock := sock s; flusher := flusher s; checkpointer := checkpointer s; wg := wg s;
     flushed := flushed s; main := main s; stop := stop s |}.
Definition with_sock (k : socket) (l : bool) (s : Server) : Server :=
  {| running := running s; dirtyWriter := dirtyWriter s; listener := l; cancelFlush := cancelFlush s;
     cancelCheckpt := cancelCheckpt s; sock := k; flusher := flusher s; checkpointer := checkpointer s; wg := wg s;
     flushed := flushed s; main := main s; stop := stop s |}.
Definition with_flusher (w : option DefaultDirtyPageWriter.t) (c live : bool) (s : Server) : Server :=
  {| running := running s; dirtyWriter := w; listener := listener s; cancelFlush := c;
     cancelCheckpt := cancelCheckpt s; sock := sock s; flusher := live; checkpointer := checkpointer s; wg := wg s;
     flushed := flushed s; main := main s; stop := stop s |}.
Definition with_checkpointer (w : option DefaultDirtyPageWriter.t) (c live : bool) (s : Server) : Server :=
  {| running := running s; dirtyWriter := w; listener := listener s; cancelFlush := cancelFlush s;
     cancelCheckpt := c; sock := sock s; flusher := flusher s; checkpointer := live; wg := wg s;
     flushed := flushed s; main := main s; stop := stop s |}.
Definition with_wg (n : nat) (s : Server) : Server :=
  {| running := running s; dirtyWriter := dirtyWriter s; listener := listener s; cancelFlush := cancelFlush s;
     cancelCheckpt := cancelCheckpt s; sock := sock s; flusher := flusher s; checkpointer := checkpointer s; wg := n;
     flushed := flushed s; main := main s; stop := stop s |}.
Definition with_flushed (s : Server) : Server :=
  {| running := running s; dirtyWriter := dirtyWriter s; listener := listener s; cancelFlush := cancelFlush s;
     cancelCheckpt := cancelCheckpt s; sock := sock s; flusher := flusher s; checkpointer := checkpointer s; wg := wg s;
     flushed := true; main := main s; stop := stop s |}.

(** The calls on the writer; an error leaves the cancel function nil. *)
Definition start_writer (s : Server) : Server :=
  match dirtyWriter s with
  | None => s
  | Some w =>
    match DefaultDirtyPageWriter.StartBackgroundWriter w with
    | (Ok _, w) => with_flusher (Some w) true true s
    | (_, w) => with_flusher (Some w) (cancelFlush s) (flusher s) s
    end
  end.
Definition start_checkpoint (s : Server) : Server :=
  match dirtyWriter s with
  | None => s
  | Some w =>
    match DefaultDirtyPageWriter.StartCheckPointer w with
    | (Ok _, w) => with_checkpointer (Some w) true true s
    | (_, w) => with_checkpointer (Some w) (cancelCheckpt s) (checkpointer s) s
    end
  end.

(** [Start]: [net.Listen] may fail; [Accept] fails when the listener is
    closed.  While the listener is open, [Accept] blocks. *)
Inductive start_step (s : Server) : Server -> Prop :=
  | start_swap : main s = MSwap -> running s = false -> start_step s (with_main MListen (with_running true s))
  | start_refused : main s = MSwap -> running s = true -> start_step s (with_main (MExited true) s)
  | start_listen : main s = MListen -> start_step s (with_main MSetListener (with_sock Listening (listener s) s))
  | start_no_port : main s = MListen -> start_step s (with_main (MExited true) (with_running false s))
  | start_set_listener : main s = MSetListener -> start_step s (with_main MStartWriter (with_sock (sock s) true s))
  | start_flusher : main s = MStartWriter -> start_step s (with_main MStartCheckpoint (start_writer s))
  | start_checkpointer : main s = MStartCheckpoint -> start_step s (with_main MLoop (start_checkpoint s))
  | start_again : main s = MLoop -> running s = true -> start_step s (with_main MAccept s)
  | start_return : main s = MLoop -> running s = false -> start_step s (with_main (MExited false) s)
  | start_accept_closed : main s = MAccept -> sock s = Closed -> start_step s (with_main MAcceptError s)
  | start_continue : main s = MAcceptError -> start_step s (with_main MLoop s)
  | start_client : main s = MAdd -> start_step s (with_main MLoop (with_wg (S (wg s)) s)).

(** What [Start] waits for in [Accept] on an open listener: a client that
    connects, or a failure of the network. *)
Inductive network_step (s : Server) : Server -> Prop :=
  | network_client : main s = MAccept -> sock s = Listening -> network_step s (with_main MAdd s)
  | network_error : main s = MAccept -> sock s = Listening -> network_step s (with_main MAcceptError s).

(** The goroutine of the signal, and [Stop]. *)
Inductive stop_step (s : Server) : Server -> Prop :=
  | stop_signal : stop s = SSignal -> stop_step s (with_stop SSwap s)
  | stop_swap : stop s = SSwap -> running s = true -> stop_step s (with_stop SCancelFlush (with_running false s))
  | stop_not_running : stop s = SSwap -> running s = false -> stop_step s (with_stop SDone s)
  | stop_flusher : stop s = SCancelFlush ->
    stop_step s (with_stop SCancelCheckpoint (with_flusher (dirtyWriter s) (cancelFlush s) (flusher s && negb (cancelFlush s)) s))
  | stop_checkpointer : stop s = SCancelCheckpoint ->
    stop_step s (with_stop SClose (with_checkpointer (dirtyWriter s) (cancelCheckpt s) (checkpointer s && negb (cancelCheckpt s)) s))
  | stop_close : stop s = SClose ->
    stop_step s (with_stop SWait (if listener s then with_sock Closed true s else s))
  | stop_wait : stop s = SWait -> wg s = 0%nat -> stop_step s (with_stop SFlush s)
  | stop_flush : stop s = SFlush -> stop_step s (with_stop SDone (with_flushed s)).

(** A session ends, or crashes the process. *)
Inductive client_step (s : Server) : Server -> Prop :=
  | client_done n : wg s = S n -> client_step s (with_wg n s)
  | client_crash n : wg s = S n -> client_step s (with_main (MExited true) s).

Inductive actor : Type := Main | Network | Stopper | Client.

Definition exited (s : Server) : Prop := match main s with MExited _ => True | _ => False end.

(** Once [main] has returned, nothing happens any more. *)
Inductive step (s : Server) : actor -> Server -> Prop :=
  | step_main s' : ~ exited s -> start_step s s' -> step s Main s'
  | step_network s' : ~ exited s -> network_step s s' -> step s Network s'
  | step_stop s' : ~ exited s -> stop_step s s' -> step s Stopper s'
  | step_client s' : ~ exited s -> client_step s s' -> step s Client s'.

Inductive run : Server -> list actor -> Server -> Prop :=
  | run_nil s : run s [] s
  | run_cons s a s1 l s2 : step s a s1 -> run s1 l s2 -> run s (a :: l) s2.

(** ** The invariant *)
Definition reachable (s : Server) : Prop := exists l, run (NewServer true) l s.

(** [Stop] has swapped [running]. *)
Definition stopping (s : Server) : Prop :=
  match stop s with SCancelFlush | SCancelCheckpoint | SClose | SWait | SFlush => True | SDone => flushed s = true | _ => False end.

(** [Stop] is past the close of the listener. *)
Definition closing (s : Server) : Prop :=
  match stop s with SWait | SFlush => True | SDone => flushed s = true | _ => False end.

(** [Start] has stored the listener. *)
Definition published (p : main_pc) : bool :=
  match p with MStartWriter | MStartCheckpoint | MLoop | MAccept | MAcceptError | MAdd => true | _ => false end.

(** [Start] is in its loop. *)
Definition serving (p : main_pc) : bool := match p with MLoop | MAccept | MAcceptError | MAdd => true | _ => false end.

Record server_ok (s : Server) : Prop := {
  ok_stopping : stopping s -> running s = false;
  ok_flushed : flushed s = true -> stop s = SDone;
  ok_running : running s = true -> main s <> MSwap;
  ok_listener : published (main s) = true -> listener s = true;
  ok_sock : published (main s) = true \/ main s = MSetListener -> sock s <> NotOpen;
  ok_closed : sock s = Closed -> closing s;
  ok_accept : main s = MAccept -> closing s -> sock s = Closed;
  ok_return : main s = MExited false -> stopping s;
  ok_loop : running s = false -> main s = MSwap \/ exited s \/ stopping s;
  ok_swapped : stopping s -> main s <> MSwap;
  ok_fresh : main s = MSwap \/ main s = MListen \/ main s = MSetListener -> wg s = 0%nat /\ listener s = false
}.

Lemma start_writer_same s : let s' := start_writer s in
  running s' = running s /\ listener s' = listener s /\ sock s' = sock s /\ wg s' = wg s /\ flushed s' = flushed s /\ stop s' = stop s.
Proof. unfold start_writer. repeat case_match; by split_and!. Qed.
Lemma start_checkpoint_same s : let s' := start_checkpoint s in
  running s' = running s /\ listener s' = listener s /\ sock s' = sock s /\ wg s' = wg s /\ flushed s' = flushed s /\ stop s' = stop s.
Proof. unfold start_checkpoint. repeat case_match; by split_and!. Qed.

(** The fields of the state after a step. *)
Ltac server_fields :=
  cbn [running dirtyWriter listener cancelFlush cancelCheckpt sock flusher checkpointer wg flushed main stop
       with_main with_stop with_running with_sock with_flusher with_checkpointer with_wg with_flushed published serving] in *.

Ltac unfold_server := unfold stopping, closing, exited in *.

Lemma closing_stopping s : closing s -> stopping s.
Proof. unfold_server. by destruct (stop s). Qed.

(** Where the goroutines are, as the step says. *)
Ltac at_pc s :=
  repeat match goal with E : main s = _ |- _ => rewrite E in *; clear E | E : stop s = _ |- _ => rewrite E in *; clear E end;
  server_fields.

(** Each field of the invariant after a step. *)
Ltac server_step s := constructor; unfold_server; server_fields; at_pc s; intuition (first [congruence|eauto]).

Lemma start_step_ok s s' : start_step s s' -> server_ok s -> server_ok s'.
Proof.
  intros Hs [H1 H2 H3 H4 H5 H6 H7 H8 H9 H10 H11]. pose proof (closing_stopping s) as Hc.
  pose proof (start_writer_same s) as (E1&E2&E3&E4&E5&E6). pose proof (start_checkpoint_same s) as (D1&D2&D3&D4&D5&D6).
  inversion Hs; subst; clear Hs; constructor; unfold_server; server_fields; try rewrite ?E1, ?E2, ?E3, ?E4, ?E5, ?E6, ?D1, ?D2, ?D3, ?D4, ?D5, ?D6;
    clear E1 E2 E3 E4 E5 E6 D1 D2 D3 D4 D5 D6; at_pc s; intuition (first [congruence|eauto]).
Qed.

Lemma stop_step_ok s s' : stop_step s s' -> server_ok s -> server_ok s'.
Proof.
  intros Hs [H1 H2 H3 H4 H5 H6 H7 H8 H9 H10 H11]. inversion Hs; subst; clear Hs; try (destruct (listener s) eqn:El); server_step s.
  all: match goal with H : main _ = MAccept |- _ => rewrite H in *; server_fields; intuition congruence end.
Qed.

Lemma network_step_ok s s' : network_step s s' -> server_ok s -> server_ok s'.
Proof.
  intros Hs [H1 H2 H3 H4 H5 H6 H7 H8 H9 H10 H11]. pose proof (closing_stopping s) as Hc. inversion Hs; subst; clear Hs; server_step s.
Qed.

Lemma client_step_ok s s' : client_step s s' -> server_ok s -> server_ok s'.
Proof.
  intros Hs [H1 H2 H3 H4 H5 H6 H7 H8 H9 H10 H11]. inversion Hs; subst; clear Hs; server_step s.
Qed.

Lemma process_step_ok s a s' : step s a s' -> server_ok s -> server_ok s'.
Proof. destruct 1; eauto using start_step_ok, network_step_ok, stop_step_ok, client_step_ok. Qed.

Lemma run_ok s l s' : run s l s' -> server_ok s -> server_ok s'.
Proof. induction 1; eauto using process_step_ok. Qed.

Lemma NewServer_ok : server_ok (NewServer true).
Proof. constructor; cbn; naive_solver. Qed.

Lemma process_reachable_ok s : reachable s -> server_ok s.
Proof. intros [l Hl]. by eapply run_ok, NewServer_ok. Qed.

(** C35: whatever the order in which the goroutines run, [Stop] keeps its order:
    in every state that the process can reach, once [Stop] has taken over the
    server is not running and does not become so again; pages are flushed only
    at its end; the listener is closed only by it, and a server that goes on
    accepting behind it waits on a closed listener; [main] returns without an
    error only after [Stop] has taken over; no client is served before the
    listener is stored; and the constants of [NewServer] are accepted by the
    dirty-page writer. *)
Theorem server_invariant s : reachable s -> server_ok s /\ exists w, dirtyWriter (NewServer true) = Some w.
Proof. intros Hr. split; [by apply process_reachable_ok|by eexists]. Qed.

(** ** Shutting down *)

(** The steps [Start] still takes when the server is not running. *)
Definition rank (p : main_pc) : nat :=
  match p with
  | MExited _ => 0 | MLoop => 1 | MAcceptError | MAdd | MStartCheckpoint => 2 | MAccept | MStartWriter => 3
  | MSetListener => 4 | MListen => 5 | MSwap => 6
  end.

(** The steps of the main goroutine: its own, and those it waits for. *)
Definition of_main (a : actor) : bool := match a with Main | Network => true | _ => false end.
Definition main_steps (l : list actor) : nat := length (filter (fun a => of_main a = true) l).

Lemma closing_step s a s' : step s a s' -> closing s -> closing s'.
Proof.
  intros [? ? Hs|? ? Hs|? ? Hs|? ? Hs] Hc; inversion Hs; subst; unfold_server; server_fields; try done;
    try pose proof (start_writer_same s) as (E1&E2&E3&E4&E5&E6); try pose proof (start_checkpoint_same s) as (D1&D2&D3&D4&D5&D6);
    rewrite ?E5, ?E6, ?D5, ?D6; try done; by destruct (stop s).
Qed.

Lemma main_step_rank s s' : start_step s s' -> server_ok s -> closing s -> (rank (main s') < rank (main s))%nat.
Proof.
  intros Hs Hok Hc. pose proof (ok_stopping s Hok (closing_stopping s Hc)) as Hr.
  inversion Hs as [E|E|E|E|E|E|E|E|E|E K|E|E]; subst; server_fields; rewrite E; cbn; (lia || congruence).
Qed.

(** Nobody connects to a closed listener. *)
Lemma network_closed s s' : network_step s s' -> server_ok s -> ~ closing s.
Proof. intros Hs Hok Hc. pose proof (ok_accept s Hok) as Ha. destruct Hs as [E K|E K]; specialize (Ha E Hc); congruence. Qed.

Lemma other_step_rank s a s' : step s a s' -> of_main a = false -> (rank (main s') <= rank (main s))%nat.
Proof. intros [? ? Hs|? ? Hs|? ? Hs|? ? Hs] Ha; [done|done|..]; inversion Hs; subst; server_fields; try (cbn; lia). by destruct (listener s). Qed.

(** The main goroutine is blocked only in [Accept], on an open listener. *)
Lemma main_enabled s : server_ok s -> closing s -> ~ exited s -> exists s', step s Main s'.
Proof.
  intros Hok Hc Hx. assert (Hs : exists s', start_step s s').
  { pose proof (ok_accept s Hok) as Ha. unfold exited in Hx. destruct (main s) eqn:E; [destruct (running s) eqn:Er|..|by destruct Hx];
      try (eexists; by constructor).
    - destruct (running s) eqn:Er; eexists; by constructor.
    - eexists. apply start_accept_closed; auto. }
  destruct Hs as [s' Hs]. exists s'. by constructor.
Qed.

Lemma closing_run s l s' : run s l s' -> server_ok s -> closing s -> (main_steps l + rank (main s') <= rank (main s))%nat.
Proof.
  induction 1 as [s|s a s1 l s2 Hs _ IH]; intros Hok Hc; [by cbn|].
  specialize (IH (process_step_ok _ _ _ Hs Hok) (closing_step _ _ _ Hs Hc)). unfold main_steps in *. rewrite filter_cons.
  destruct a; cbn [of_main].
  - rewrite decide_True by done. inversion Hs; subst. pose proof (main_step_rank s s1 ltac:(done) Hok Hc). cbn. lia.
  - inversion Hs; subst. by destruct (network_closed s s1).
  - rewrite decide_False by done. pose proof (other_step_rank _ _ _ Hs ltac:(done)). lia.
  - rewrite decide_False by done. pose proof (other_step_rank _ _ _ Hs ltac:(done)). lia.
Qed.

Lemma rank_closing s : server_ok s -> closing s -> (rank (main s) <= 5)%nat.
Proof.
  intros Hok Hc. pose proof (ok_swapped s Hok (closing_stopping s Hc)). destruct (main s); cbn; (lia || done).
Qed.

Lemma run_closing s l s' : run s l s' -> closing s -> closing s'.
Proof. induction 1; eauto using closing_step. Qed.

(** C36: shutting down terminates: once [Stop] has closed the listener, the main
    goroutine is never blocked, waits neither for a client to connect nor for a
    failure of the network, and takes at most five more steps, whatever the
    other goroutines do in between, until the process exits. *)
Theorem shutdown_terminates s l s' :
  reachable s -> closing s -> run s l s' ->
  (main_steps l <= 5)%nat /\ (exited s' \/ exists s'', step s' Main s'').
Proof.
  intros Hr Hc Hl. apply process_reachable_ok in Hr. split.
  - pose proof (closing_run s l s' Hl Hr Hc). pose proof (rank_closing s Hr Hc). lia.
  - destruct (decide (rank (main s') = 0%nat)) as [E|E].
    + left. unfold exited. by destruct (main s').
    + right. apply main_enabled; [by eapply run_ok|by eapply run_closing|]. intros Hx. unfold exited in Hx. by destruct (main s').
Qed.

Lemma main_run n : forall s, server_ok s -> closing s -> flushed s = false -> (rank (main s) <= n)%nat ->
  exists l s', Forall (eq Main) l /\ run s l s' /\ exited s' /\ flushed s' = false.
Proof.
  induction n as [|n IH]; intros s Hok Hc Hf Hn.
  - exists [], s. split; [constructor|]. split; [constructor|]. split; [|done]. unfold exited. destruct (main s); (done || cbn in Hn; lia).
  - destruct (decide (rank (main s) = 0%nat)) as [E|E]; [by apply IH; rewrite ?E; auto with lia|].
    destruct (main_enabled s Hok Hc) as [s1 Hs]; [intros Hx; unfold exited in Hx; by destruct (main s)|].
    assert (Hf1 : flushed s1 = false).
    { inversion Hs as [? ? Hs'| | |]; subst. inversion Hs'; subst; server_fields; try done.
      - pose proof (start_writer_same s). naive_solver.
      - pose proof (start_checkpoint_same s). naive_solver. }
    destruct (IH s1 (process_step_ok _ _ _ Hs Hok) (closing_step _ _ _ Hs Hc) Hf1) as (l & s2 & Hl & Hrun & Hx & Hf2).
    { inversion Hs; subst. pose proof (main_step_rank s s1 ltac:(done) Hok Hc). lia. }
    exists (Main :: l), s2. split; [by constructor|]. split; [by econstructor|done].
Qed.

Lemma waiting_step s a s' : step s a s' -> a <> Client -> stop s = SWait -> wg s <> 0%nat -> flushed s = false ->
  stop s' = SWait /\ wg s' <> 0%nat /\ flushed s' = false.
Proof.
  intros Hs Ha Hw Hn Hf. destruct Hs as [? ? Hs|? ? Hs|? ? Hs|]; [| | |done]; inversion Hs; subst; server_fields; try congruence; try (by split_and!).
  - pose proof (start_writer_same s) as (?&?&?&E&E1&E2). by rewrite E, E1, E2.
  - pose proof (start_checkpoint_same s) as (?&?&?&E&E1&E2). by rewrite E, E1, E2.
Qed.

(** C37: the final flush of [Stop] is not waited for: from every state in which
    [Stop] has closed the listener but not flushed, the process can exit before
    it does, by the steps of [main] alone; and while a client stays connected
    without a word, [Stop] does not get to its flush at all, although (by
    [shutdown_terminates]) the process goes on to exit. *)
Theorem exit_without_flush s :
  reachable s -> closing s -> flushed s = false ->
  (exists l s', Forall (eq Main) l /\ run s l s' /\ exited s' /\ flushed s' = false) /\
  (stop s = SWait -> wg s <> 0%nat -> forall l s', run s l s' -> Client ∉ l -> flushed s' = false).
Proof.
  intros Hr Hc Hf. split; [by eapply main_run; [apply process_reachable_ok|..]|]. intros Hw Hn l s' Hl.
  clear Hr Hc. induction Hl as [s|s a s1 l s2 Hs _ IH]; intros Hx; [done|].
  apply not_elem_of_cons in Hx as [Ha Hx]. destruct (waiting_step s a s1 Hs (not_eq_sym Ha) Hw Hn Hf) as (H1 & H2 & H3). by apply IH.
Qed.

(** A server that a client has connected to gets the signal. *)
Definition sample_run : list actor :=
  [Main; Main; Main; Main; Main; Main; Network; Main; Main; Stopper; Stopper; Stopper; Stopper; Stopper].

Definition sample_server : Server :=
  {| running := false;
     dirtyWriter := Some {| DefaultDirtyPageWriter.intervalMs := 200; DefaultDirtyPageWriter.checkPointIntervalMs := 5000;
       DefaultDirtyPageWriter.batchSize := 64; DefaultDirtyPageWriter.backgroundFlag := true; DefaultDirtyPageWriter.checkPointerFlag := true |};
     listener := true; cancelFlush := true; cancelCheckpt := true; sock := Closed; flusher := false; checkpointer := false;
     wg := 1; flushed := false; main := MAccept; stop := SWait |}.

Lemma sample_reachable : reachable sample_server.
Proof.
  exists sample_run. unfold sample_run.
  do 6 (eapply run_cons; [apply step_main; [by intros Hx|constructor; reflexivity]|]).
  eapply run_cons; [apply step_network; [by intros Hx|apply network_client; reflexivity]|].
  do 2 (eapply run_cons; [apply step_main; [by intros Hx|constructor; reflexivity]|]).
  do 5 (eapply run_cons; [apply step_stop; [by intros Hx|constructor; reflexivity]|]). apply run_nil.
Qed.

Lemma server_invariant_witness : server_ok sample_server.
Proof. exact (proj1 (server_invariant sample_server sample_reachable)). Defined.

(** The main goroutine wakes up on the closed listener, while a client is still
    served. *)
Definition woken_server : Server := with_main MLoop (with_main MAcceptError sample_server).

Lemma shutdown_terminates_witness :
  (main_steps [Main; Main] <= 5)%nat /\ (exited woken_server \/ exists s'', step woken_server Main s'').
Proof.
  apply (shutdown_terminates sample_server [Main; Main] woken_server sample_reachable I).
  eapply run_cons; [apply step_main; [by intros Hx|apply start_accept_closed; reflexivity]|].
  eapply run_cons; [apply step_main; [by intros Hx|apply start_continue; reflexivity]|]. apply run_nil.
Defined.

Lemma exit_without_flush_witness :
  exists l s', Forall (eq Main) l /\ run sample_server l s' /\ exited s' /\ flushed s' = false.
Proof. exact (proj1 (exit_without_flush sample_server sample_reachable I eq_refl)). Defined.
End Lifecycle.
