(* ===== verification/Cli.v ===== *)
(** * Cli: the command-line client

    Models [cmd/cli/main.go] except for the flags and the dialling: [repl]
    reads lines, [splitStatementsWithRemainder] cuts the text typed so far into
    statements, [sendQuery] exchanges one line with the server, [printResponse]
    and [printTable] write the answer.  Text is bytes; what is written to the
    standard output is a list of bytes.  Prompts are part of the output.

    A cell of the answer is the JSON value that [json.Unmarshal] has put into
    an [any]; [Sprint] is [fmt.Sprint] of it.  An integer is a [float64] by
    then: [float_of_int] rounds it to 53 bits and [show_float] writes the
    shortest digits that read back as the same number, with an exponent from
    10^6 on.  [Sprint_other] stands for the text of the values that no server
    of this program sends (numbers with a fraction or an exponent, arrays,
    objects). *)

From S2P Require Import Prelude GoRuntime Utf8 CatalogModel Json Protocol.
#[local] Open Scope Z_scope.

Module Cli.
Import Json protocol.

Definition text (s : string) : list byte := bytes_of s.
Definition is_byte (z : Z) (c : byte) : bool := u8 c =? z.
Definition is_quote : byte -> bool := is_byte 39.
Definition is_semicolon : byte -> bool := is_byte 59.

(** ** Library functions *)

(** The runes of [unicode.IsSpace], as they are written. *)
Definition spaces : list (list byte) :=
  encode_rune <$> ([9; 10; 11; 12; 13; 32; 0x85; 0xA0; 0x1680; 0x2000; 0x2001; 0x2002; 0x2003; 0x2004; 0x2005; 0x2006; 0x2007;
                    0x2008; 0x2009; 0x200A; 0x2028; 0x2029; 0x202F; 0x205F; 0x3000]).

Fixpoint strip_prefix (p l : list byte) : option (list byte) :=
  match p, l with
  | [], _ => Some l
  | a :: p, b :: l => if bool_decide (a = b) then strip_prefix p l else None
  | _ :: _, [] => None
  end.

Fixpoint strip_one (ps : list (list byte)) (l : list byte) : option (list byte) :=
  match ps with
  | [] => None
  | p :: ps => match strip_prefix p l with Some l' => Some l' | None => strip_one ps l end
  end.

Fixpoint strip (n : nat) (ps : list (list byte)) (l : list byte) : list byte :=
  match n with
  | O => l
  | S n => match strip_one ps l with Some l' => strip n ps l' | None => l end
  end.

(** [strings.TrimSpace]. *)
Definition TrimSpace (l : list byte) : list byte :=
  let l := strip (length l) spaces l in reverse (strip (length l) (reverse <$> spaces) (reverse l)).

(** [strings.ToLower], up to the lower case of runes that have none in ASCII. *)
Definition lower_rune (r : Z) : Z :=
  if (65 <=? r) && (r <=? 90) then r + 32 else if r =? 0x130 then 105 else if r =? 0x212A then 107 else r.
Definition ToLower (l : list byte) : list Z := lower_rune ∘ default rune_error <$> utf8_decode l.
Definition same_word (l : list byte) (word : string) : bool := bool_decide (ToLower l = u8 <$> text word).

(** ** Numbers in cells *)

(** The [float64] nearest to a natural number, ties to even. *)
Definition float_of_int (m : Z) : Z :=
  let e := Z.log2 m - 52 in
  if e <=? 0 then m
  else
    let q := m / 2 ^ e in let r := m mod 2 ^ e in let h := 2 ^ (e - 1) in
    (if (h <? r) || ((r =? h) && Z.odd q) then q + 1 else q) * 2 ^ e.

(** [x] reads back as the float [v] (at least 2^53). *)
Definition reads_back (v x : Z) : bool :=
  let e := Z.log2 v - 52 in
  let q := v / 2 ^ e in
  let hi := 4 * v + 2 * 2 ^ e in
  let lo := if q =? 2 ^ 52 then 4 * v - 2 ^ e else 4 * v - 2 * 2 ^ e in
  if Z.even q then (lo <=? 4 * x) && (4 * x <=? hi) else (lo <? 4 * x) && (4 * x <? hi).

(** The number with [k] zeros at its end that stands for [v], if there is one. *)
Definition candidate (v : Z) (k : nat) : option Z :=
  let p := 10 ^ Z.of_nat k in
  let down := v / p * p in let up := down + p in
  let first := if (2 * (v - down) <? p) || ((2 * (v - down) =? p) && Z.even (v / p)) then down else up in
  let second := if first =? down then up else down in
  if reads_back v first then Some first else if reads_back v second then Some second else None.

(** The one with most zeros. *)
Fixpoint shortest (v : Z) (k : nat) : Z :=
  match candidate v k with
  | Some x => x
  | None => match k with O => v | S k => shortest v k end
  end.

(** The digits without the zeros at the end. *)
Definition trim_zeros (l : list byte) : list byte := reverse ((fix go l := match l with c :: l' => if is_byte 48 c then go l' else l | [] => [] end) (reverse l)).

Definition with_exponent (digits : list byte) : list byte :=
  let exp := Z.of_nat (length digits) - 1 in
  (match trim_zeros digits with
   | [] => [] | [d] => [d]
   | d :: ds => d :: text "." ++ ds
   end) ++ text "e+" ++ (if exp <? 10 then text "0" else []) ++ text (pretty exp).

(** [%v] of a natural number as a [float64]. *)
Definition show_float (m : Z) : list byte :=
  let v := float_of_int m in
  let digits := text (pretty (if v <? 2 ^ 53 then v else shortest v 20)) in
  if v <? 10 ^ 6 then digits else with_exponent digits.

Section client.
Context (Sprint_other : json -> list byte).

Definition Sprint (v : json) : list byte :=
  match v with
  | JNull => text "<nil>"
  | JBool b => text (if b then "true" else "false")
  | JString s => text s
  | JNumber t =>
    match t with
    | c :: ds => if is_byte 45 c
                 then match int_literal ds with Some m => text "-" ++ show_float m | None => Sprint_other v end
                 else match int_literal t with Some m => show_float m | None => Sprint_other v end
    | [] => Sprint_other v
    end
  | _ => Sprint_other v
  end.

(** ** Tables *)
Definition padRight (s : list byte) (width : nat) : list byte :=
  if (width <=? length s)%nat then s else s ++ replicate (width - length s) (byte_of 32).

(** [cells[i]] where there is one that is not empty. *)
Definition cell_at (cells : list (list byte)) (i : nat) : list byte :=
  match cells !! i with Some ((_ :: _) as c) => c | _ => text "null" end.

Definition buildSeparator (widths : list nat) : list byte :=
  text "+" ++ concat (map (fun w => replicate (w + 2) (byte_of 45) ++ text "+") widths).

Fixpoint build_cells (i : nat) (cells : list (list byte)) (widths : list nat) : list byte :=
  match widths with
  | [] => []
  | w :: widths => text " " ++ padRight (cell_at cells i) w ++ text " " ++ text "|" ++ build_cells (S i) cells widths
  end.
Definition buildRow (cells : list (list byte)) (widths : list nat) : list byte := text "|" ++ build_cells 0 cells widths.

(** The text of column [i] of a row. *)
Definition table_cell (row : list json) (i : nat) : list byte :=
  match row !! i with Some JNull | None => text "null" | Some v => Sprint v end.

Definition column_widths (columns : list string) (rows : list (list json)) : list nat :=
  imap (fun i col =>
    foldl (fun w row => max w (length (table_cell row i)))
          (if bool_decide (col = "") then 4%nat else length (text col)) rows) columns.

Definition println (l : list byte) : list byte := l ++ [newline].

Definition table_row (columns : list string) (row : list json) : list (list byte) :=
  imap (fun i _ => table_cell row i) columns.

(** The lines of the table itself. *)
Definition table_lines (columns : list string) (rows : list (list json)) : list (list byte) :=
  let widths := column_widths columns rows in
  let sep := buildSeparator widths in
  [sep; buildRow (map text columns) widths; sep] ++ map (fun row => buildRow (table_row columns row) widths) rows ++ [sep].

Definition printTable (columns : list string) (rows : list (list json)) : list byte :=
  concat (map println (table_lines columns rows)) ++ println (text (pretty (Z.of_nat (length rows)) +:+ " row(s)")).

Definition printResponse (resp : option (Response json)) : list byte :=
  match resp with
  | None => println (text "(null response)")
  | Some resp =>
    if negb (same_word (text (resp_Status resp)) "ok") then
      match resp_Error resp with
      | None => println (text "ERROR: unknown")
      | Some e =>
        let where_ := match Pos e with Some p => " at " +:+ pretty (Line p) +:+ ":" +:+ pretty (Column p) | None => "" end in
        println (text ("ERROR[" +:+ Code e +:+ "]" +:+ where_ +:+ ": " +:+ Message e))
      end
    else
      (if bool_decide (resp_Explain resp = "") then [] else println (text (resp_Explain resp))) ++
      (if negb (is_empty (resp_Columns resp)) && negb (is_empty (resp_Rows resp)) then printTable (resp_Columns resp) (resp_Rows resp)
       else if negb (resp_Affected resp =? 0) then println (text ("OK (affected=" +:+ pretty (resp_Affected resp) +:+ ")"))
       else println (text "OK"))
  end.

Definition printHelp : list byte :=
  println (text "Commands:") ++ println (text "  \q | quit | exit   - exit") ++ println (text "  \help              - help") ++
  println [] ++ println (text "End SQL statements with ';'.").

(** ** Statements *)

(** The loop of [splitStatementsWithRemainder] at the bytes left, [current]
    being [text[start:i]] in reverse. *)
Fixpoint split_loop (inString : bool) (current : list byte) (l : list byte) : list (list byte) * list byte :=
  match l with
  | [] => ([], reverse current)
  | c :: l1 =>
    if is_quote c then
      match l1 with
      | d :: l2 => if inString && is_quote d then split_loop inString (d :: c :: current) l2
                   else split_loop (negb inString) (c :: current) l1
      | [] => split_loop (negb inString) (c :: current) l1
      end
    else if is_semicolon c && negb inString then
      let stmt := TrimSpace (reverse (c :: current)) in
      let (out, rest) := split_loop inString [] l1 in
      (if is_empty stmt then out else stmt :: out, rest)
    else split_loop inString (c :: current) l1
  end.
Definition splitStatementsWithRemainder (l : list byte) : list (list byte) * list byte := split_loop false [] l.

(** ** The conversation *)
Definition writeJSONLine (r : Request) (c : conn) : bool * conn := write (MarshalRequest r ++ [newline]) c.

Definition sendQuery (requestID : string) (sql : list byte) (trace : bool) (c : conn) : (net_error + Response json) * conn :=
  match writeJSONLine (NewRequest requestID (string_of sql) trace) c with
  | (false, c) => (inl ConnError, c)
  | (true, c) =>
    match read_line (input c) with
    | None => (inl (input_end c), with_input [] c)
    | Some (line, rest) => (UnmarshalResponse line, with_input rest c)
    end
  end.

(** The client: what it has typed but not sent, its connection, its output,
    and the number of requests so far, whose ids are [newID]. *)
Record session : Type := { buf : list byte; connection : conn; stdout : list byte; sent_ : nat }.

Section repl.
Context (newID : nat -> string) (trace : bool).

Definition say (l : list byte) (s : session) : session :=
  {| buf := buf s; connection := connection s; stdout := stdout s ++ l; sent_ := sent_ s |}.
Definition with_buf (l : list byte) (s : session) : session :=
  {| buf := l; connection := connection s; stdout := stdout s; sent_ := sent_ s |}.

(** The statements of a line, until one fails. *)
Fixpoint send_all (statements : list (list byte)) (s : session) : option net_error * session :=
  match statements with
  | [] => (None, s)
  | sql :: statements =>
    if is_empty (TrimSpace sql) then send_all statements s
    else
      let (res, c) := sendQuery (newID (sent_ s)) sql trace (connection s) in
      let s := {| buf := buf s; connection := c; stdout := stdout s; sent_ := S (sent_ s) |} in
      match res with
      | inl e => (Some e, s)
      | inr resp => send_all statements (say (printResponse (Some resp)) s)
      end
  end.

Inductive outcome : Type := Continue | Return (err : option net_error).

Definition prompt (s : session) : list byte := text (if is_empty (buf s) then "db> " else "   > ").

Inductive command : Type := Exit | Help.

Definition command_of (trimmed : list byte) : option command :=
  if same_word trimmed "\q" || same_word trimmed "quit" || same_word trimmed "exit" then Some Exit
  else if same_word trimmed "\help" then Some Help else None.

(** What one line does, after the prompt. *)
Definition repl_line (line : list byte) (s : session) : outcome * session :=
  match (if is_empty (buf s) then command_of (TrimSpace line) else None) with
  | Some Exit => (Return None, s)
  | Some Help => (Continue, say printHelp s)
  | None =>
    let s := with_buf (buf s ++ line) s in
    let (statements, remainder) := splitStatementsWithRemainder (buf s) in
    if is_empty statements then (Continue, s)
    else
      match send_all statements s with
      | (Some e, s) => (Return (Some e), s)
      | (None, s) => (Continue, with_buf remainder s)
      end
  end.

(** The lines typed (each with its line break), and how the input ends. *)
Fixpoint repl (lines : list (list byte)) (stdin_end : net_error) (s : session) : option net_error * session :=
  let s := say (prompt s) s in
  match lines with
  | [] => match stdin_end with EOF => (None, say (println []) s) | e => (Some e, s) end
  | line :: lines =>
    match repl_line line s with
    | (Return err, s) => (err, s)
    | (Continue, s) => repl lines stdin_end s
    end
  end.

(** [main] from the dialling on, with the texts of the errors: the status of
    the process, and what it writes to its two outputs. *)
Definition main (error_string : net_error -> string) (addr : string) (dialled : net_error + conn) (lines : list (list byte))
    (stdin_end : net_error) : Z * (list byte * list byte) :=
  match dialled with
  | inl e => (1, ([], println (text ("failed to connect to " +:+ addr +:+ ": " +:+ error_string e))))
  | inr c =>
    let welcome := println (text ("Connected to " +:+ addr +:+ ". End SQL statements with ';'. Type \help for help, \q to quit.")) in
    match repl lines stdin_end {| buf := []; connection := c; stdout := welcome; sent_ := 0 |} with
    | (None, s) | (Some EOF, s) => (0, (stdout s, []))
    | (Some e, s) => (1, (stdout s, println (text ("error: " +:+ error_string e))))
    end
  end.
End repl.
End client.

(** ** Cutting text into statements *)

Definition quotes (l : list byte) : bool := foldl (fun b c => if is_quote c then negb b else b) false l.

(** No statement ends in [l]: every semicolon is inside a string. *)
Definition unfinished (l : list byte) : Prop := forall a c b, l = a ++ c :: b -> is_semicolon c = true -> quotes a = true.

(** A statement with its semicolon, the only one that is not inside a string. *)
Definition statement (l : list byte) : Prop :=
  exists body c, l = body ++ [c] /\ is_semicolon c = true /\ quotes body = false /\ unfinished body.

(** The same loop without the look ahead: two quotes in a row leave the state
    as it was. *)
Fixpoint cut (inString : bool) (current : list byte) (l : list byte) : list (list byte) * list byte :=
  match l with
  | [] => ([], reverse current)
  | c :: l =>
    if is_quote c then cut (negb inString) (c :: current) l
    else if is_semicolon c && negb inString then let (out, rest) := cut inString [] l in (reverse (c :: current) :: out, rest)
    else cut inString (c :: current) l
  end.

Lemma quote_not_semicolon c : is_quote c = true -> is_semicolon c = false.
Proof. unfold is_quote, is_semicolon, is_byte. rewrite Z.eqb_eq, Z.eqb_neq. lia. Qed.

Lemma quotes_snoc l c : quotes (l ++ [c]) = if is_quote c then negb (quotes l) else quotes l.
Proof. unfold quotes. by rewrite foldl_app. Qed.

Lemma unfinished_snoc l c : unfinished l -> (is_semicolon c = true -> quotes l = true) -> unfinished (l ++ [c]).
Proof.
  intros Hl Hc a d b E Hd. destruct b as [|b0 b] using rev_ind.
  - apply app_inj_tail in E as [-> ->]. by apply Hc.
  - clear IHb. rewrite app_comm_cons, app_assoc in E. apply app_inj_tail in E as [-> _]. by eapply Hl.
Qed.

Lemma unfinished_nil : unfinished [].
Proof. intros a c b E. by destruct a. Qed.

Lemma cut_spec l : forall current, unfinished (reverse current) ->
  let (pieces, rest) := cut (quotes (reverse current)) current l in
  concat pieces ++ rest = reverse current ++ l /\ Forall statement pieces /\ unfinished rest.
Proof.
  induction l as [|c l IH]; intros current Hc; cbn [cut].
  - split; [by rewrite app_nil_r|]. by split.
  - destruct (is_quote c) eqn:Eq; [|destruct (is_semicolon c && negb (quotes (reverse current))) eqn:Es].
    + specialize (IH (c :: current)). rewrite reverse_cons, quotes_snoc, Eq in IH. rewrite <- app_assoc in IH. apply IH.
      apply unfinished_snoc; [done|]. by rewrite quote_not_semicolon.
    + apply andb_true_iff in Es as [Es Hq]. apply negb_true_iff in Hq. rewrite Hq.
      specialize (IH []). cbn [reverse] in IH. change (quotes (reverse [])) with false in IH.
      destruct (cut false [] l) as [out rest]. destruct IH as (E & Hp & Hr); [apply unfinished_nil|]. cbn [concat].
      rewrite reverse_cons, <- !app_assoc, E. split; [done|]. split; [|done]. constructor; [|done]. by exists (reverse current), c.
    + specialize (IH (c :: current)). rewrite reverse_cons, quotes_snoc, Eq in IH. rewrite <- app_assoc in IH. apply IH.
      apply unfinished_snoc; [done|]. intros Hs. rewrite Hs in Es. cbn in Es. by destruct (quotes (reverse current)).
Qed.

(** *** Trimming keeps a semicolon *)
Lemma strip_prefix_app p l l' : strip_prefix p l = Some l' -> l = p ++ l'.
Proof.
  revert l. induction p as [|a p IH]; intros [|b l]; cbn; try (by intros [= ->]).
  case_bool_decide; [|done]. subst. intros E. by rewrite (IH _ E).
Qed.

Lemma strip_one_app ps l l' : strip_one ps l = Some l' -> exists p, p ∈ ps /\ l = p ++ l'.
Proof.
  induction ps as [|p ps IH]; cbn; [done|]. destruct (strip_prefix p l) eqn:E.
  - intros [= ->]. exists p. split; [by left|]. by apply strip_prefix_app.
  - intros H. destruct (IH H) as (q & Hq & El). exists q. split; [by right|done].
Qed.

Lemma strip_keeps c ps n : (forall p, p ∈ ps -> c ∉ p) -> forall l, c ∈ l -> c ∈ strip n ps l.
Proof.
  intros Hps. induction n as [|n IH]; intros l Hl; cbn; [done|]. destruct (strip_one ps l) as [l'|] eqn:E; [|done].
  apply IH. destruct (strip_one_app _ _ _ E) as (p & Hp & ->). apply elem_of_app in Hl as [Hl|Hl]; [by destruct (Hps p Hp)|done].
Qed.

Lemma is_semicolon_eq c : is_semicolon c = true -> c = byte_of 59.
Proof.
  unfold is_semicolon, is_byte. intros E%Z.eqb_eq. rewrite <- (byte_of_u8 c), E. done.
Qed.

Lemma TrimSpace_keeps l : byte_of 59 ∈ l -> byte_of 59 ∈ TrimSpace l.
Proof.
  intros Hl.
  assert (H1 : forall p, p ∈ spaces -> byte_of 59 ∉ p) by (apply Forall_forall, (bool_decide_unpack _); vm_compute; exact I).
  assert (H2 : forall p, p ∈ reverse <$> spaces -> byte_of 59 ∉ p) by (apply Forall_forall, (bool_decide_unpack _); vm_compute; exact I).
  unfold TrimSpace. apply elem_of_reverse. apply strip_keeps; [exact H2|]. apply elem_of_reverse. by apply strip_keeps.
Qed.

Lemma elem_not_empty {A} (x : A) l : x ∈ l -> is_empty l = false.
Proof. destruct l; [by intros ?%not_elem_of_nil|done]. Qed.

Lemma statement_semicolon p : statement p -> byte_of 59 ∈ p.
Proof.
  intros (body & c & -> & Hc & _). apply is_semicolon_eq in Hc as ->. apply elem_of_app. right. by apply list_elem_of_singleton.
Qed.

Lemma statement_trim p : statement p -> is_empty (TrimSpace p) = false.
Proof. intros Hp. eapply elem_not_empty, TrimSpace_keeps, statement_semicolon, Hp. Qed.

Lemma statement_trim2 p : statement p -> is_empty (TrimSpace (TrimSpace p)) = false.
Proof. intros Hp. eapply elem_not_empty, TrimSpace_keeps, TrimSpace_keeps, statement_semicolon, Hp. Qed.

Lemma split_cut n : forall l inString current, (length l <= n)%nat ->
  split_loop inString current l =
  let (pieces, rest) := cut inString current l in (filter (fun p => is_empty p = false) (TrimSpace <$> pieces), rest).
Proof.
  induction n as [|n IH]; intros [|c l] inS cur Hn; cbn [split_loop cut]; try done; [cbn in Hn; lia|].
  cbn in Hn. destruct (is_quote c) eqn:Eq.
  - destruct l as [|d l]; [by cbn|]. destruct (inS && is_quote d) eqn:Ed; [|apply IH; lia].
    apply andb_true_iff in Ed as [-> Ed]. rewrite IH by (cbn in Hn; lia). cbn [cut negb]. by rewrite Ed.
  - destruct (is_semicolon c && negb inS) eqn:Es; [|apply IH; lia]. rewrite IH by lia.
    destruct (cut inS [] l) as [out rest]. rewrite fmap_cons, filter_cons.
    by destruct (is_empty (TrimSpace (reverse (c :: cur)))); case_decide.
Qed.

Lemma filter_statements pieces : Forall statement pieces -> filter (fun p => is_empty p = false) (TrimSpace <$> pieces) = TrimSpace <$> pieces.
Proof.
  intros Hp. apply filter_all, Forall_forall. apply Forall_fmap. eapply Forall_impl; [exact Hp|]. intros p H. by apply statement_trim.
Qed.

Lemma split_pieces l : let (pieces, rest) := cut false [] l in
  splitStatementsWithRemainder l = (TrimSpace <$> pieces, rest) /\ concat pieces ++ rest = l /\ Forall statement pieces /\ unfinished rest.
Proof.
  unfold splitStatementsWithRemainder. rewrite (split_cut (length l)) by lia. pose proof (cut_spec l [] unfinished_nil) as H.
  change (quotes (reverse [])) with false in H. destruct (cut false [] l) as [pieces rest]. destruct H as (E & Hp & Hr).
  by rewrite filter_statements.
Qed.

(** C39: the client cuts what is typed into statements at the semicolons that
    are not inside a string, and nowhere else: the pieces and the remainder are
    the whole text, every piece ends with its only semicolon outside strings,
    the remainder has none, and the statements sent are exactly the pieces
    without the space around them; two quotes in a string do not end it. *)
Theorem split_statements l :
  exists pieces rest, splitStatementsWithRemainder l = (TrimSpace <$> pieces, rest) /\
    concat pieces ++ rest = l /\ Forall statement pieces /\ unfinished rest.
Proof. pose proof (split_pieces l) as H. destruct (cut false [] l) as [pieces rest]. by exists pieces, rest. Qed.

(** *** Text that arrives line by line *)
Lemma cut_unfinished b : forall inString current, (forall a c d, b = a ++ c :: d -> is_semicolon c = true -> foldl (fun x y => if is_quote y then negb x else x) inString a = true) ->
  forall l, cut inString current (b ++ l) = cut (foldl (fun x y => if is_quote y then negb x else x) inString b) (reverse b ++ current) l.
Proof.
  induction b as [|c b IH]; intros inS cur Hb l; [done|]. cbn [app cut foldl].
  rewrite (reverse_cons b), <- app_assoc. cbn [app].
  destruct (is_quote c) eqn:Eq.
  - apply IH. intros a c' d -> Hc. specialize (Hb (c :: a) c' d eq_refl Hc). cbn in Hb. by rewrite Eq in Hb.
  - destruct (is_semicolon c) eqn:Es.
    + specialize (Hb [] c b eq_refl Es) as Hin. cbn in Hin. subst inS. cbn [andb negb]. apply IH.
      intros a c' d -> Hc. specialize (Hb (c :: a) c' d eq_refl Hc). cbn in Hb. by rewrite Eq in Hb.
    + cbn [andb]. apply IH. intros a c' d -> Hc. specialize (Hb (c :: a) c' d eq_refl Hc). cbn in Hb. by rewrite Eq in Hb.
Qed.

Lemma cut_app a l : forall inString current,
  cut inString current (a ++ l) =
  let (out, rest) := cut inString current a in
  let (out', rest') := cut (match out with [] => foldl (fun x y => if is_quote y then negb x else x) inString a | _ => quotes rest end)
                           (reverse rest) l in (out ++ out', rest').
Proof.
  induction a as [|c a IH]; intros inS cur; cbn [app cut].
  - rewrite reverse_involutive. cbn [foldl]. by destruct (cut inS cur l).
  - destruct (is_quote c) eqn:Eq; [|destruct (is_semicolon c && negb inS) eqn:Es].
    + rewrite IH. cbn [foldl]. by rewrite Eq.
    + apply andb_true_iff in Es as [_ ->%negb_true_iff]. rewrite IH. pose proof (cut_spec a [] unfinished_nil) as Hs.
      change (quotes (reverse [])) with false in Hs. destruct (cut false [] a) as [out rest]. destruct Hs as (E & _ & _).
      assert (Hq : match out with [] => foldl (fun x y => if is_quote y then negb x else x) false a | _ :: _ => quotes rest end = quotes rest).
      { destruct out; [|done]. cbn in E. by rewrite E. }
      rewrite Hq. by destruct (cut (quotes rest) (reverse rest) l).
    + rewrite IH. cbn [foldl]. by rewrite Eq.
Qed.

(** Cutting the text typed so far and going on with the remainder is cutting
    the whole text. *)
Lemma split_app a l :
  splitStatementsWithRemainder (a ++ l) =
  let (out, rest) := splitStatementsWithRemainder a in
  let (out', rest') := splitStatementsWithRemainder (rest ++ l) in (out ++ out', rest').
Proof.
  pose proof (split_pieces a) as Ha. pose proof (split_pieces (a ++ l)) as Hal. rewrite (cut_app a l false []) in Hal.
  pose proof (cut_spec a [] unfinished_nil) as Hs. change (quotes (reverse [])) with false in Hs.
  destruct (cut false [] a) as [out rest]. destruct Ha as (-> & E & _ & Hu). cbn in E.
  assert (Hq : match out with [] => foldl (fun x y => if is_quote y then negb x else x) false a | _ :: _ => quotes rest end = quotes rest).
  { destruct out; [|done]. cbn in E. by rewrite E. }
  rewrite Hq in Hal. pose proof (split_pieces (rest ++ l)) as Hr.
  rewrite (cut_unfinished rest false [] Hu l), app_nil_r in Hr. change (foldl _ false rest) with (quotes rest) in Hr.
  destruct (cut (quotes rest) (reverse rest) l) as [out' rest']. destruct Hal as (-> & _), Hr as (-> & _). by rewrite fmap_app.
Qed.

Lemma split_rest_open l : let (out, rest) := splitStatementsWithRemainder (l ++ [newline]) in rest <> [].
Proof.
  pose proof (split_pieces (l ++ [newline])) as H. destruct (cut false [] (l ++ [newline])) as [pieces rest].
  destruct H as (-> & E & Hp & _). intros ->. rewrite app_nil_r in E. destruct pieces as [|p ps _] using rev_ind.
  - cbn in E. by destruct l.
  - apply Forall_app in Hp as [_ Hp]. apply Forall_singleton in Hp as (body & c & -> & Hc & _).
    rewrite concat_app in E. cbn in E. rewrite app_nil_r, app_assoc in E. apply app_inj_tail in E as [_ ->]. by vm_compute in Hc.
Qed.

(** *** The conversation *)
Definition reply (r : Response any) : list byte := MarshalResponse r ++ [newline].

Section conversation.
Context (Sprint_other : json -> list byte) (newID : nat -> string) (trace : bool).
Implicit Types (c : conn) (s : session).

(** A server that answers with [rs]. *)
Definition healthy (rs : list (Response any)) (more : list byte) c : Prop :=
  input c = concat (map reply rs) ++ more /\ Forall response_ok rs /\ write_faults c = [].

Definition request (i : nat) (sql : list byte) : list byte :=
  MarshalRequest (NewRequest (newID i) (string_of sql) trace) ++ [newline].

(** The bytes of the requests for statements, the first one with number [n]. *)
Fixpoint requests (n : nat) (statements : list (list byte)) : list byte :=
  match statements with [] => [] | sql :: l => request n sql ++ requests (S n) l end.

Lemma requests_app l1 l2 : forall n, requests n (l1 ++ l2) = requests n l1 ++ requests (n + length l1) l2.
Proof.
  induction l1 as [|sql l1 IH]; intros n; cbn [app requests length]; [by rewrite Nat.add_0_r|].
  rewrite IH, app_assoc. by rewrite Nat.add_succ_r.
Qed.

Lemma sendQuery_ok i sql c r rs more : healthy (r :: rs) more c ->
  exists c', sendQuery (newID i) sql trace c = (inr (arrived_response r), c') /\ healthy rs more c' /\
    output c' = output c ++ request i sql.
Proof.
  intros (Hin & Hok & Hf). apply Forall_cons in Hok as [Hr Hok]. unfold sendQuery, writeJSONLine. fold (request i sql).
  unfold write. rewrite Hf. cbn [input]. rewrite Hin. cbn [map concat]. unfold reply at 1. rewrite <- !app_assoc. cbn [app].
  rewrite read_line_printable by apply response_printable. rewrite response_arrives by done.
  eexists. split; [reflexivity|]. by split; [split_and!|].
Qed.

Lemma send_all_ok more statements : forall s rs,
  Forall (fun p => is_empty (TrimSpace p) = false) statements ->
  healthy rs more (connection s) -> (length statements <= length rs)%nat ->
  exists s', send_all Sprint_other newID trace statements s = (None, s') /\ buf s' = buf s /\
    healthy (drop (length statements) rs) more (connection s') /\
    output (connection s') = output (connection s) ++ requests (sent_ s) statements /\
    sent_ s' = (sent_ s + length statements)%nat.
Proof.
  induction statements as [|sql l IH]; intros s rs Hne Hh Hl.
  - exists s. cbn [send_all requests length]. rewrite drop_0, app_nil_r. split_and!; done || lia.
  - apply Forall_cons in Hne as [Hs Hne]. destruct rs as [|r rs]; [cbn in Hl; lia|]. cbn in Hl.
    destruct (sendQuery_ok (sent_ s) sql _ _ _ _ Hh) as (c' & E & Hh' & Ho). cbn [send_all]. rewrite Hs, E.
    destruct (IH (say (printResponse Sprint_other (Some (arrived_response r)))
      {| buf := buf s; connection := c'; stdout := stdout s; sent_ := S (sent_ s) |}) rs Hne Hh' ltac:(lia)) as (s' & E' & Hb & Hh2 & Ho2 & Hn).
    exists s'. split; [exact E'|]. cbn [say buf connection sent_ length drop requests] in *. rewrite Ho2, Ho, <- app_assoc.
    split_and!; done || lia.
Qed.

(** One line of text. *)
Lemma repl_line_text more line l s rs :
  (if is_empty (buf s) then command_of (TrimSpace line) else None) = None -> line = l ++ [newline] ->
  healthy rs more (connection s) ->
  let (statements, rest) := splitStatementsWithRemainder (buf s ++ line) in
  (length statements <= length rs)%nat ->
  exists s', repl_line Sprint_other newID trace line s = (Continue, s') /\ buf s' = rest /\ rest <> [] /\
    healthy (drop (length statements) rs) more (connection s') /\
    output (connection s') = output (connection s) ++ requests (sent_ s) statements /\
    sent_ s' = (sent_ s + length statements)%nat.
Proof.
  intros Hc -> Hh. unfold repl_line. rewrite Hc. cbn [with_buf buf]. pose proof (split_rest_open (buf s ++ l)) as Hr. rewrite <- app_assoc in Hr.
  pose proof (split_pieces (buf s ++ l ++ [newline])) as H. destruct (cut false [] (buf s ++ l ++ [newline])) as [pieces rest].
  destruct H as (Es & E & Hp & _). rewrite Es in *. intros Hl. destruct pieces as [|p ps].
  - cbn [fmap list_fmap is_empty length drop requests] in *. eexists. split; [reflexivity|]. cbn [with_buf buf connection sent_] in *.
    cbn [concat app] in E. subst rest. rewrite drop_0, app_nil_r. split_and!; done || lia.
  - assert (Hne : Forall (fun p => is_empty (TrimSpace p) = false) (TrimSpace <$> p :: ps)).
    { apply Forall_fmap. eapply Forall_impl; [exact Hp|]. intros q. apply statement_trim2. }
    destruct (send_all_ok more _ (with_buf (buf s ++ l ++ [newline]) s) rs Hne Hh Hl) as (s' & E' & Hb & Hh2 & Ho & Hn).
    rewrite fmap_cons. cbn [is_empty]. rewrite <- fmap_cons, E'. eexists. split; [reflexivity|]. cbn [with_buf buf connection sent_] in *. by split_and!.
Qed.

(** What a session does with lines of text. *)
Definition sends_text more lines s rs : Prop :=
  let (statements, rest) := splitStatementsWithRemainder (buf s ++ concat lines) in
  (length statements <= length rs)%nat ->
  exists s', repl Sprint_other newID trace lines EOF s = (None, s') /\ buf s' = rest /\
    healthy (drop (length statements) rs) more (connection s') /\
    output (connection s') = output (connection s) ++ requests (sent_ s) statements.

Lemma unfinished_split l : unfinished l -> (splitStatementsWithRemainder l).1 = [].
Proof.
  intros Hu. unfold splitStatementsWithRemainder. rewrite (split_cut (length l)) by lia.
  pose proof (cut_unfinished l false [] Hu []) as Hcu. rewrite app_nil_r in Hcu. by rewrite Hcu.
Qed.

Lemma repl_cons more line l lines s rs :
  (forall s' rs', buf s' <> [] -> (splitStatementsWithRemainder (buf s')).1 = [] -> healthy rs' more (connection s') ->
     sends_text more lines s' rs') ->
  (if is_empty (buf s) then command_of (TrimSpace line) else None) = None -> line = l ++ [newline] ->
  healthy rs more (connection s) -> sends_text more (line :: lines) s rs.
Proof.
  intros IH Hc El Hh. unfold sends_text. cbn [concat]. rewrite app_assoc, (split_app (buf s ++ line)).
  set (s0 := say (prompt s) s). pose proof (repl_line_text more line l s0 rs Hc El Hh) as Hone. change (buf s0) with (buf s) in Hone.
  pose proof (split_pieces (buf s ++ line)) as Hsp. destruct (cut false [] (buf s ++ line)) as [pieces rest]. destruct Hsp as (Es & _ & _ & Hu).
  rewrite Es in *. pose proof (unfinished_split rest Hu) as Hrest.
  destruct (splitStatementsWithRemainder (rest ++ concat lines)) as [more_st rest'] eqn:E2. rewrite length_app. intros Hlen.
  destruct (Hone ltac:(lia)) as (s1 & E1 & Hb1 & Hne & Hh1 & Ho1 & Hn1).
  specialize (IH s1 (drop (length (TrimSpace <$> pieces)) rs) ltac:(by rewrite Hb1) ltac:(by rewrite Hb1) Hh1).
  unfold sends_text in IH. rewrite Hb1, E2 in IH. destruct IH as (s2 & Er & Hb2 & Hh2 & Ho2); [rewrite length_drop; lia|].
  exists s2. cbn [repl]. fold s0. rewrite E1. split; [exact Er|]. split; [exact Hb2|]. rewrite drop_drop in Hh2. split; [exact Hh2|].
  rewrite Ho2, Ho1, Hn1, requests_app. cbn [say connection sent_ s0]. by rewrite app_assoc.
Qed.

Lemma repl_text more lines : Forall (fun line => exists l, line = l ++ [newline]) lines -> forall s rs,
  buf s <> [] -> (splitStatementsWithRemainder (buf s)).1 = [] -> healthy rs more (connection s) -> sends_text more lines s rs.
Proof.
  induction 1 as [|line lines (l & El) _ IH]; intros s rs Hb Ho Hh.
  - unfold sends_text. cbn [concat]. rewrite app_nil_r. pose proof (split_pieces (buf s)) as H. destruct (cut false [] (buf s)) as [pieces rest].
    destruct H as (Es & E & _). rewrite Es in *. cbn [fst] in Ho. rewrite Ho. intros _. apply fmap_nil_inv in Ho as ->. cbn in E.
    eexists. split; [reflexivity|]. cbn [length requests say buf connection]. rewrite app_nil_r, drop_0. by split_and!.
  - apply (repl_cons more line l lines s rs IH); [by destruct (buf s)|done|done].
Qed.

(** C38: what is typed is sent: once a line that is not a command has been read,
    every later line is text, also [exit], [quit], [\q] and [\help]: as long as
    the server answers, the session goes on to the end of the input, and the
    requests written are, one each and in order, exactly the statements of the
    whole text typed, however it is divided into lines; what comes after the
    last statement is kept. *)
Theorem repl_sends_text first lines s rs more :
  buf s = [] -> command_of (TrimSpace first) = None ->
  Forall (fun line => exists l, line = l ++ [newline]) (first :: lines) ->
  healthy rs more (connection s) ->
  let (statements, rest) := splitStatementsWithRemainder (concat (first :: lines)) in
  (length statements <= length rs)%nat ->
  exists s', repl Sprint_other newID trace (first :: lines) EOF s = (None, s') /\ buf s' = rest /\
    output (connection s') = output (connection s) ++ requests (sent_ s) statements.
Proof.
  intros Hb Hc [(l & El) Hl]%Forall_cons Hh.
  pose proof (repl_cons more first l lines s rs (repl_text more lines Hl) ltac:(by rewrite Hb) El Hh) as H.
  unfold sends_text in H. rewrite Hb in H. cbn [app concat] in H |- *.
  destruct (splitStatementsWithRemainder (first ++ concat lines)) as [statements rest]. intros Hlen.
  destruct (H Hlen) as (s' & E & Hr & _ & Ho). by exists s'.
Qed.
End conversation.

(** ** Tables *)
Section tables.
Context (Sprint_other : json -> list byte).

Definition line_width (widths : list nat) : nat := S (sum_list_with (fun w => w + 3)%nat widths).

Lemma padRight_length l w : (length l <= w)%nat -> length (padRight l w) = w.
Proof. intros Hl. unfold padRight. case_match; [apply Nat.leb_le in H; lia|]. rewrite length_app, length_replicate. lia. Qed.

Lemma buildSeparator_length widths : length (buildSeparator widths) = line_width widths.
Proof.
  unfold buildSeparator, line_width. cbn [app text bytes_of String.list_ascii_of_string length]. f_equal.
  induction widths as [|w ws IH]; [done|]. cbn [map concat sum_list_with]. rewrite !length_app, length_replicate, IH. cbn. lia.
Qed.

Lemma build_cells_length cells widths : forall i,
  (forall j w, widths !! j = Some w -> (length (cell_at cells (i + j)) <= w)%nat) ->
  length (build_cells i cells widths) = sum_list_with (fun w => w + 3)%nat widths.
Proof.
  induction widths as [|w ws IH]; intros i Hc; [done|]. cbn [build_cells sum_list_with]. rewrite !length_app, IH.
  - rewrite padRight_length; [cbn; lia|]. specialize (Hc 0%nat w eq_refl). by rewrite Nat.add_0_r in Hc.
  - intros j w' Hj. specialize (Hc (S j) w' Hj). by rewrite Nat.add_succ_r in Hc.
Qed.

Lemma buildRow_length cells widths :
  (forall j w, widths !! j = Some w -> (length (cell_at cells j) <= w)%nat) -> length (buildRow cells widths) = line_width widths.
Proof. intros Hc. unfold buildRow, line_width. cbn. f_equal. by apply build_cells_length. Qed.

Lemma foldl_max_ge {A} (f : A -> nat) l : forall w, (w <= foldl (fun w x => max w (f x)) w l)%nat.
Proof. induction l as [|x l IH]; intros w; cbn; [done|]. etransitivity; [|apply IH]. lia. Qed.

Lemma foldl_max_elem {A} (f : A -> nat) l x : x ∈ l -> forall w, (f x <= foldl (fun w x => max w (f x)) w l)%nat.
Proof.
  induction 1 as [x l|x y l _ IH]; intros w; cbn; [|apply IH]. etransitivity; [|apply foldl_max_ge]. lia.
Qed.

Lemma column_width columns rows j w : column_widths Sprint_other columns rows !! j = Some w ->
  exists col, columns !! j = Some col /\ (length (text col) <= w)%nat /\ (col = "" -> (4 <= w)%nat) /\
    forall row, row ∈ rows -> (length (table_cell Sprint_other row j) <= w)%nat.
Proof.
  unfold column_widths. rewrite list_lookup_imap. intros (col & Hc & Hw)%fmap_Some. exists col. split; [done|].
  set (w0 := if bool_decide (col = "") then 4%nat else length (text col)) in *. subst w.
  assert (H0 : (w0 <= foldl (fun w row => max w (length (table_cell Sprint_other row j))) w0 rows)%nat) by apply foldl_max_ge.
  split; [|split].
  - etransitivity; [|exact H0]. unfold w0. case_bool_decide; [subst; cbn; lia|done].
  - intros ->. exact H0.
  - intros row Hr. by apply (foldl_max_elem (fun row => length (table_cell Sprint_other row j))).
Qed.

(** A table without empty strings. *)
Definition no_empty_cell (columns : list string) (rows : list (list json)) : Prop :=
  forall row i, row ∈ rows -> (i < length columns)%nat -> table_cell Sprint_other row i <> [].

Lemma cell_at_row columns row i : (i < length columns)%nat -> table_cell Sprint_other row i <> [] ->
  cell_at (table_row Sprint_other columns row) i = table_cell Sprint_other row i.
Proof.
  intros Hi Hne. unfold cell_at, table_row. rewrite list_lookup_imap. destruct (lookup_lt_is_Some_2 columns i Hi) as [col ->]. cbn.
  by destruct (table_cell Sprint_other row i).
Qed.

Definition null_for_empty (v : json) : json := match v with JString "" => JNull | _ => v end.

Lemma cell_at_null columns row i :
  cell_at (table_row Sprint_other columns (null_for_empty <$> row)) i = cell_at (table_row Sprint_other columns row) i.
Proof.
  unfold cell_at, table_row. rewrite !list_lookup_imap. destruct (columns !! i) as [col|]; [|done]. cbn. unfold table_cell.
  rewrite list_lookup_fmap. destruct (row !! i) as [[| | |[|c s]| |]|]; done.
Qed.

(** A table is aligned: all lines of a table without empty strings have the
    same length; but an empty string is written exactly as a null is, and
    counted as narrower than that when the widths are computed. *)
Theorem table_aligned columns rows :
  (no_empty_cell columns rows -> Forall (fun line => length line = line_width (column_widths Sprint_other columns rows))
                                        (table_lines Sprint_other columns rows)) /\
  (forall row widths, buildRow (table_row Sprint_other columns row) widths =
     buildRow (table_row Sprint_other columns (null_for_empty <$> row)) widths) /\
  (length <$> table_lines Sprint_other ["id"] [[JString ""]]) = [6; 6; 6; 8; 6]%nat.
Proof.
  split; [|split; [|by vm_compute]].
  - intros Hne. unfold table_lines. repeat (apply Forall_cons; split); [apply buildSeparator_length| |apply buildSeparator_length|].
    + apply buildRow_length. intros j w Hw. destruct (column_width _ _ _ _ Hw) as (col & Hc & Hl & He & _). unfold cell_at.
      rewrite (list_lookup_fmap text columns j : map text columns !! j = _), Hc. cbn. destruct col; [by apply He|exact Hl].
    + apply Forall_app. split; [|apply Forall_singleton, buildSeparator_length]. apply Forall_fmap, Forall_forall. intros row Hr.
      apply buildRow_length. intros j w Hw. destruct (column_width _ _ _ _ Hw) as (col & Hc & _ & _ & Hrow).
      rewrite cell_at_row; [by apply Hrow|by eapply lookup_lt_Some|]. apply Hne; [done|by eapply lookup_lt_Some].
  - intros row widths. unfold buildRow. f_equal. generalize 0%nat. induction widths as [|w ws IH]; intros i; cbn; [done|].
    by rewrite cell_at_null, IH.
Qed.
End tables.

(** ** Numbers *)
Lemma pretty_pos_digits p : exists c ds, text (pretty (Z.pos p)) = c :: ds /\ Forall (fun c => is_digit c = true) (c :: ds).
Proof.
  destruct (pretty_number (Z.pos p)) as (sign & ds & E & Hd & Hs & Hh). destruct Hs as [[-> Hv]|[-> Hv]].
  - destruct Hh as [->|(c & ds' & -> & _)]; eexists _, _; (split; [exact E|done]).
  - exfalso. assert (0 <= digits_value ds); [|lia]. clear E Hv Hh. unfold digits_value.
    assert (H : forall a, 0 <= a -> 0 <= fold_left (fun acc c => acc * 10 + (u8 c - 48)) ds a); [|by apply H].
    induction Hd as [|c ds Hc _ IH]; intros a Ha; cbn; [done|]. apply IH.
    unfold is_digit in Hc. apply andb_true_iff in Hc as [H1%Z.leb_le H2%Z.leb_le]. lia.
Qed.

Lemma Sprint_int Sprint_other z :
  Sprint Sprint_other (json_int z) = if z <? 0 then text "-" ++ show_float (- z) else show_float z.
Proof.
  destruct z as [|p|p]; [reflexivity|..].
  - change (json_int (Z.pos p)) with (JNumber (text (pretty (Z.pos p)))). pose proof (int_literal_pretty (Z.pos p)) as Hi.
    destruct (pretty_pos_digits p) as (c & ds & E & Hd). fold (text (pretty (Z.pos p))) in Hi. cbn [Sprint]. rewrite E in *.
    apply Forall_cons in Hd as [Hc _]. unfold is_byte. rewrite (is_digit_neq c Hc), Hi. done.
  - change (json_int (Z.neg p)) with (JNumber (byte_of 45 :: text (pretty (Z.pos p)))). cbn [Sprint].
    change (is_byte 45 (byte_of 45)) with true. cbn iota. unfold text at 1. rewrite int_literal_pretty. done.
Qed.

Lemma float_of_int_exact m : 0 <= m < 2 ^ 53 -> float_of_int m = m.
Proof.
  intros Hm. unfold float_of_int. destruct (decide (m = 0)) as [->|H0]; [done|].
  assert (Hl : Z.log2 m < 53) by (apply Z.log2_lt_pow2; lia). by rewrite (proj2 (Z.leb_le (Z.log2 m - 52) 0)) by lia.
Qed.

(** Rounding changes a number by at most half of the last of its 53 bits. *)
Lemma float_of_int_error m : 0 <= m -> 2 * Z.abs (float_of_int m - m) <= 2 ^ (Z.log2 m - 52) \/ float_of_int m = m.
Proof.
  intros Hm. unfold float_of_int. destruct (Z.leb_spec (Z.log2 m - 52) 0) as [H|H]; [by right|left].
  set (e := Z.log2 m - 52) in *. assert (He : 2 ^ e = 2 * 2 ^ (e - 1)) by (rewrite <- Z.pow_succ_r by lia; f_equal; lia).
  pose proof (Z.div_mod m (2 ^ e) ltac:(lia)) as Hd. pose proof (Z.mod_pos_bound m (2 ^ e) ltac:(lia)) as Hb.
  set (q := m / 2 ^ e) in *. set (r := m mod 2 ^ e) in *.
  destruct ((2 ^ (e - 1) <? r) || ((r =? 2 ^ (e - 1)) && Z.odd q)) eqn:E.
  - apply orb_true_iff in E as [E%Z.ltb_lt|[E%Z.eqb_eq _]%andb_true_iff]; nia.
  - apply orb_false_iff in E as [E%Z.ltb_ge _]. nia.
Qed.

Lemma float_of_int_large m : 10 ^ 6 <= m -> 10 ^ 6 <= float_of_int m.
Proof.
  intros Hm. destruct (decide (m < 2 ^ 53)) as [H|H]; [rewrite float_of_int_exact by lia; lia|].
  destruct (float_of_int_error m ltac:(lia)) as [He|He]; [|lia].
  assert (Hl : 2 ^ (Z.log2 m - 52) <= m); [|lia]. destruct (Z.log2_spec m ltac:(lia)) as [Hlo _].
  etransitivity; [|exact Hlo]. apply Z.pow_le_mono_r; lia.
Qed.

Lemma show_float_small m : 0 <= m < 10 ^ 6 -> show_float m = text (pretty m).
Proof.
  intros Hm. unfold show_float. rewrite float_of_int_exact by lia. rewrite (proj2 (Z.ltb_lt m (10 ^ 6))) by lia.
  by rewrite (proj2 (Z.ltb_lt m (2 ^ 53))) by lia.
Qed.

Lemma show_float_large m : 10 ^ 6 <= m -> byte_of 101 ∈ show_float m.
Proof.
  intros Hm. unfold show_float. rewrite (proj2 (Z.ltb_ge (float_of_int m) (10 ^ 6))) by by apply float_of_int_large.
  unfold with_exponent. apply elem_of_app. right. apply elem_of_app. left. apply elem_of_cons. by left.
Qed.

Lemma no_exponent p : byte_of 101 ∉ text (pretty (Z.pos p)).
Proof.
  destruct (pretty_pos_digits p) as (c & ds & -> & Hd). intros Hin. rewrite Forall_forall in Hd. by specialize (Hd _ Hin).
Qed.

(** C40: an INT64 of a response below 10^6 is displayed as it is, with its sign;
    from 10^6 on it never is: it gets an exponent.  Numbers below 2^53 keep
    their value when they are read, the others are changed by up to half of
    their 53rd bit, so that different values in a table can look the same. *)
Theorem int_cells_displayed Sprint_other m :
  let shown z := table_cell Sprint_other [json_int z] 0 in
  0 <= m ->
  (m < 10 ^ 6 -> shown m = text (pretty m) /\ shown (- m) = text (pretty (- m))) /\
  (10 ^ 6 <= m -> byte_of 101 ∈ shown m /\ shown m <> text (pretty m)) /\
  (m < 2 ^ 53 -> float_of_int m = m) /\ 2 * Z.abs (float_of_int m - m) <= 2 ^ Z.max 0 (Z.log2 m - 52) /\
  shown (2 ^ 53) = shown (2 ^ 53 + 1).
Proof.
  intros shown Hm. assert (Hs : forall z, shown z = if z <? 0 then text "-" ++ show_float (- z) else show_float z) by (intros z; apply Sprint_int).
  rewrite !Hs, (proj2 (Z.ltb_ge m 0)) by lia. clear shown Hs. split; [|split; [|split; [|split]]].
  - intros Hs. rewrite Z.opp_involutive, show_float_small by lia. split; [done|].
    destruct m as [|p|p]; [done| |lia]. done.
  - intros Hl. pose proof (show_float_large m Hl) as He. split; [done|]. intros E. rewrite E in He.
    destruct m as [|p|p]; [lia| |lia]. by apply no_exponent in He.
  - intros Hs. by apply float_of_int_exact.
  - destruct (float_of_int_error m Hm) as [He|He].
    + destruct (decide (0 <= Z.log2 m - 52)); [rewrite Z.max_r by lia; exact He|]. rewrite Z.pow_neg_r in He by lia. lia.
    + rewrite He, Z.sub_diag. change (2 * Z.abs 0) with 0. pose proof (Z.pow_nonneg 2 (Z.max 0 (Z.log2 m - 52))). lia.
  - by vm_compute.
Qed.

Definition sample_other (v : json) : list byte := [].

Lemma int_cells_displayed_witness :
  byte_of 101 ∈ table_cell sample_other [json_int 12345678] 0 /\ table_cell sample_other [json_int 12345678] 0 <> text (pretty 12345678).
Proof. exact (proj1 (proj2 (int_cells_displayed sample_other 12345678 ltac:(lia))) ltac:(lia)). Defined.

(** A session in which [exit] is typed after a statement. *)
Definition sample_first : list byte := text "SELECT 1;" ++ [newline].
Definition sample_exit : list byte := text "exit" ++ [newline].
Definition sample_reply : Response any := NewOkResponse "0" ["id"] [] 0 "".
Definition sample_client : session :=
  {| buf := []; connection := {| input := reply sample_reply; input_end := EOF; output := []; write_faults := [] |}; stdout := []; sent_ := 0 |}.

Lemma repl_sends_text_witness :
  exists s', repl sample_other pretty false [sample_first; sample_exit] EOF sample_client = (None, s') /\
    buf s' = [newline] ++ sample_exit /\
    output (connection s') = output (connection sample_client) ++ requests pretty false 0 [text "SELECT 1;"].
Proof.
  assert (Hs : splitStatementsWithRemainder (concat [sample_first; sample_exit]) = ([text "SELECT 1;"], [newline] ++ sample_exit)) by (vm_compute; reflexivity).
  pose proof (repl_sends_text sample_other pretty false sample_first [sample_exit] sample_client [sample_reply] []) as H.
  rewrite Hs in H. apply H; clear H.
  - reflexivity.
  - vm_compute. reflexivity.
  - constructor; [by exists (text "SELECT 1;")|]. constructor; [by exists (text "exit")|constructor].
  - split; [rewrite app_nil_r; cbn [map concat]; rewrite app_nil_r; reflexivity|]. split; [|reflexivity].
    constructor; [|constructor]. split; [constructor|]. split; [split; vm_compute; congruence|]. intros e E. discriminate E.
  - cbn. lia.
Defined.
End Cli.
